(* ===== verification/_CoqProject ===== *)
-Q . S2P
Prelude.v
Text.v
Gsm7.v
SmsCodec.v
SmsSubmit.v
SmsDeliver.v
SmsRuntime.v
Routing.v
ImsAccess.v
RadioIntent.v
Dedup.v
SipFrame.v
RetryAfter.v
Register.v
RegisterRetry.v
Coordinator.v
Stun.v
RegisterResponse.v
Bytes.v
IkeCodec.v
IkePayloads.v
IkeKeys.v
IkeCrypt.v
EapAka.v
IkeEvents.v
IkeConfig.v
IkeState.v
IkeExchange.v
IkeRuns.v
IkeAuth.v
VirtualSim.v
Net.v
SipMessage.v
RegEvent.v
Digest.v
OutboundOffer.v
Outbound.v
RegInfo.v
RegEventSub.v
RegisterMessage.v
VoiceSdp.v
Rtp.v
VideoSdp.v
VoiceCall.v
Ipsec.v
SecAgree.v
