(* ===== verification/Prelude.v ===== *)
(** * SimAdmin: a verification library for the protocol and routing core

    SimAdmin ([src/backend]) drives cellular modems and IMS stacks (VoWiFi and
    cellular IMS): it sends and receives SMS, registers lines with an IMS core
    over SIP, plans calls and radio intents.  Its Rust code is layered:
    [api] and [services] decide what to do, [connectivity] and [hardware] speak
    the protocols, [platform] stores configuration.  This library models the
    parts whose logic is pure or a state machine, and proves what makes them
    correct.  Every path below is relative to [src/backend/src].

    ** The library

    - [Prelude] (this file): outcomes of Rust code ([res]: [Ok], [Err],
      [Panic]), slices, machine integers, loops that may fail, stable sorting.
    - [Text]: Rust strings ([str] is the list of the scalar values of a string):
      character classes, trimming, splitting, lines, number formatting and
      parsing, UTF-8 and UTF-16.
    - [Gsm7], [SmsCodec]: the GSM alphabet and septet packing, and the codecs of
      [connectivity/core/sms_codec.rs] (SMS-SUBMIT, RP-DATA, SMS-DELIVER, status
      reports, modem PDUs).
    - [SmsSubmit], [SmsDeliver]: the theorems on the sending and the receiving
      side of those codecs.
    - [SmsRuntime]: the delivery records and [SmsRuntimeStateMachine] of the same
      source file, as a transition system.
    - [Routing]: the path policies of [platform/config.rs],
      [services/orchestrator/sms_router.rs] and [voice_router.rs], and the send
      loop of [api/handlers.rs] under the cost guard.
    - [ImsAccess]: [connectivity/core/ims_access.rs] (which access may register)
      and [services/orchestrator/ims_access.rs] (the state shown for a line).
    - [RadioIntent]: [services/orchestrator/radio_intent.rs] and the types of
      [hardware/cellular/radio.rs].
    - [Dedup]: the message fingerprint of [services/orchestrator/dedup.rs].
    - [SipFrame]: [connectivity/core/sip_frame.rs] and the receive loop of
      [connectivity/modems/ims/vowifi/channel.rs].
    - [RetryAfter]: the bounded Retry-After parser of
      [connectivity/core/ims_failure.rs].
    - [Register]: [connectivity/core/register.rs], the exchange driver over the
      interfaces [ImsChannel], [Clock] and [RegisterAuthenticator].
    - [RegisterRetry]: [connectivity/core/register_retry.rs], the waits of the
      endpoints as a transition system.
    - [Coordinator]: [connectivity/core/ims_registration_coordinator.rs] and the
      [FlowLease] of [connectivity/core/outbound.rs]: the leases in a store, the
      weak pointers as identities, the tasks and their locks as the step
      relation [sys_step].
    - [Stun]: the STUN codec of [connectivity/core/outbound.rs], CRC included.
    - [RegisterResponse]: [connectivity/core/register_response.rs], what a 200 to
      a REGISTER says.
    - [Net], [SipMessage]: addresses as text, [connectivity/core/sip_message.rs]
      and [context.rs] (the frame of a request) and [registration.rs] (the lease
      and the facts of a registration).
    - [Digest]: [connectivity/core/digest_aka.rs], challenges and Authorization
      headers.
    - [OutboundOffer], [Outbound]: [connectivity/core/outbound.rs], the rewriting
      of a REGISTER and the flow with its keep-alive probes.
    - [RegEvent], [RegInfo], [RegEventSub]: the syntax of
      [connectivity/core/reg_event.rs], the documents of [reg_event_xml.rs] and
      the subscription that watches the own binding.
    - [Bytes], [IkeCodec], [IkePayloads], [IkeKeys], [IkeCrypt]: numbers as bytes,
      and [ike_codec.rs], [ike_payloads.rs], [ike_keys.rs] and [ike_encrypted.rs] of
      [connectivity/modems/ims/vowifi]: messages, payload bodies and proposals, the
      key schedule, the encrypted payload.
    - [EapAka]: [eap_aka.rs] of the same directory, the EAP-AKA method with its key
      derivation.
    - [IkeEvents], [IkeConfig]: [ike_events.rs], [ike_eap.rs], [ike_retransmit.rs], the
      texts of the errors, and the free functions of [ike_state.rs].
    - [IkeState]: [IkeStateMachine] of [ike_state.rs], a method as a step that returns
      a result and the machine it leaves.  [IkeExchange]: the rules for steps, the runs
      and the absence of panics.  [IkeRuns]: the invariant of the runs and the first
      response.  [IkeAuth]: the ready child and the authentication data.
    - [VirtualSim]: [connectivity/modems/ims/virtual_sim], the software card: Milenage,
      the sequence number, the five codes and the registry of lines.
    - [RegisterMessage]: [connectivity/core/register_message.rs], the headers of a REGISTER.
    - [VoiceSdp], [VideoSdp]: the descriptions of sessions in [connectivity/core/voice.rs]
      and [ims_video.rs]: codec policies, offers, answers, the writers and the readers.
    - [Rtp]: the RTP codec and the AMR framing of [voice.rs], the relay of [media.rs] with
      the loops around its core, and the video relay.
    - [VoiceCall]: the dial strings and the call machine of [voice.rs], the call with its
      switch to video of [cellular_ims/voice.rs], and the adapter of [vowifi/voice.rs].
    - [Ipsec], [SecAgree]: [ipsec.rs] and [security_agreement.rs] of
      [connectivity/modems/ims/cellular_ims]: the plan of associations that protects the
      signalling, its commands, and the choice of a mechanism.

    A definition carries the name of the Rust item it models; a method whose name
    is not unique carries the type as a prefix ([SmsPathPolicy_default],
    [router_new]).  A loop or a block of a long function may be a definition of
    its own, next to the function that uses it.

    ** How the parts interact

    A text to send is cut into parts and encoded ([SmsCodec]), the handler's
    loop offers the parts to the paths the policy and the guard allow
    ([Routing]), and the answers drive the delivery record ([SmsRuntime]).  An
    inbound message is framed ([SipFrame]), parsed ([SmsCodec]), fingerprinted
    ([Dedup]) and reassembled ([SmsRuntime]).  The access decision ([ImsAccess])
    says which leg may register; the registration itself runs in [Register] over
    framed channels, a failure is classified with its Retry-After
    ([RetryAfter]), and [RegisterRetry] decides when the endpoint may be tried
    again.  [Coordinator] sits above both legs of a line: it publishes the access
    decision, admits one registration at a time and decides when a second flow
    may be opened beside the first.  Below it each leg has a flow ([Outbound]):
    it rewrites the REGISTER the exchange sends ([OutboundOffer]), reads the
    response ([RegisterResponse]), probes the network ([Stun]) and reports to the
    coordinator whether the flow is alive.  An accepted binding is watched by a
    subscription ([RegEventSub]) that sends requests ([SipMessage]) with
    credentials ([Digest]) and reads documents ([RegInfo]).

    Over Wi-Fi the SIP traffic runs in a tunnel to the ePDG.  The exchange ([IkeState])
    writes the proposals of the profile ([IkePayloads]) into messages ([IkeCodec]),
    derives the keys of the proposal the ePDG selected ([IkeKeys], [IkeConfig]), seals
    and opens what follows ([IkeCrypt]), and admits EAP packets by their summary
    ([IkeEvents]); the method itself ([EapAka]) answers them with what the card, possibly
    the software one ([VirtualSim]), computes.  The master key of EAP and the first
    request enter the last authentication data ([IkeAuth]).

    Over cellular access the SIP traffic is protected by IPsec instead.  The device offers
    the mechanisms its profile allows and chooses among those the P-CSCF returns
    ([SecAgree]); the chosen tuple and algorithms become the associations and policies of
    a plan ([Ipsec]), and a refresh installs a second plan beside the first.

    A call starts from a dial string ([VoiceCall]); the codecs of the profile become an
    offer, the offer of the other side an answer ([VoiceSdp]); the machine follows the
    responses; a switch to video writes both streams into one description ([VideoSdp]);
    and once both legs know their addresses the relay passes packets between them ([Rtp])
    under the directions the descriptions negotiated.

    ** What the theorems show

    - SMS sending: building succeeds exactly when the addresses can be encoded and
      the text can be cut into at most 255 parts, each part decodes back to its piece of the text with consistent numbering, and
      the modem PDU differs only in the service centre prefix and the report bit.
    - SMS receiving: no input makes a parser panic; a well-formed RP-DATA is read
      back field by field; segments complete in any order exactly when all of
      them arrived; reachable records satisfy the invariant the code asserts.
    - Routing: no submission crosses the cost guard as it stood at the last read
      of the profile; the paths are tried in order and never after an accepted
      submission that was stored; plans partition the legs; access decisions
      keep leases and never register a blocked pair.
    - SIP: a stream of messages is received message by message however it is cut,
      the frame length is exact, the loop never panics, and Retry-After is read
      back exactly and never overflows.
    - REGISTER: a transaction is bounded in transmissions and hands back what is
      not its own; the exchange always ends with a validated 2xx or a failure;
      lease floors increase; only a precise set of failures may change the
      request shape; waits asked for by the network are never shortened; a
      refresh never outlives the binding.
    - Coordinator: in every reachable state two registrations exclude each other
      and a registration runs only under a decision that permits its access; a
      new flow is admitted under exactly the stated conditions; the recovery
      delay of a failed flow grows with the failures and stays within its bounds.
    - Outbound: the offered REGISTER keeps its identity and payload; a flow is
      proven to the coordinator only on live evidence; an unanswered probe fails
      the flow at its timeout (eight seconds over UDP, ten on a stream); what a response makes of the flow is stated
      on every branch.  The STUN reader accepts exactly the format.
    - Digest: the challenge answered is the first usable one, and a built header
      reads back.
    - Registration events: an accepted body is bounded and well formed; only the
      own binding is ever reported terminated, once, by a document in order; the
      subscription stays within its bounds in every run, applies a NOTIFY once,
      gives up on silence after 32 seconds and is inert once disabled.
    - Requests: a built request is framed exactly and read back field by field, and so is
      a REGISTER, with all its headers and nothing else.
    - Voice: an offer numbers its payloads without conflicts and serves every policy that
      can be served; an answer holds exactly the common codecs under the numbers of the
      offer, with the direction seen from the other side; both are read back as written,
      with video or without; a dial string is accepted exactly when it is a number or a
      service code; video is only ever offered in an active call that may carry it, a switch
      tells the far end exactly what is meant, and only a 2xx answer makes it.
    - Media: packets are read back, the reader of RTCP accepts exactly the sequences of
      complete packets and the reader of RTP exactly its format, and in every run without
      truncated reports that look like packets the relay sends what an account of the
      history of datagrams names, to the addresses it names.
    - Cellular signalling: a choice among the offers of a server is total, keeps the order of
      preference and, under a strict policy, never accepts algorithms the profile does not
      name; an offer of the device is chosen as it was written; the plan of a refresh shares
      no association and no policy with the plan it replaces; what is logged does not depend
      on the keys.
    - IKEv2: a message, a security association, a record and a sealed payload are read
      back as they were written; the readers end on every input; prf+ is the one of
      RFC 7296 and a proposal of a profile always gives keys of the right lengths; what
      does not carry the right integrity value is never opened, and what is opened gives the
      decrypted chain.  No method of the
      exchange panics, in any order of calls; after every run the phase, the identifiers,
      the requests sent and the negotiated values agree; the first response is accepted
      under exactly the listed conditions; a child becomes ready only on an authentic
      message that selects a proposal of the profile; the last request signs the first
      one; a request is retransmitted on its schedule and given up.
    - EAP-AKA and the card: an authentic challenge and only that is answered; the key
      generator is the one of FIPS 186-2; the card gives keys to authentic
      fresh challenges only, lets the network recover its number from its answer to a stale
      one, and accepts strictly increasing sequence numbers as long as it is not created
      again.
    Some theorems state what the code does although it is hardly meant:
    [completeness_ignores_reference], [store_failure_sends_twice],
    [content_length_overflow_stalls], [truncated_report_relayed] and
    [recreated_accepts_again].

    ** Conventions

    A byte, a character and a machine integer are a [Z]; wrap-around, saturation
    and bounds are written out, [usize] is 64 bits wide, and arithmetic wraps as
    in a release build.  Lengths and indices that cannot overflow are [nat].
    Panics of the code (indexing, slicing, [expect], [unreachable!]) are the
    outcome [Panic].  A loop that is not structural takes fuel and ends in
    [Panic] without it: since the theorems exclude [Panic], they also show that
    the fuel is enough.  The fuel is the length of the input for the parsers, 64
    rounds for a REGISTER transaction (ten retransmissions, an error before
    each, 33 ignored frames, 5 provisional responses) and 5 responses for an
    exchange.  The loop over an RTCP compound has the length of the datagram, since a packet
    takes at least four bytes.  The loop of prf+ runs over at most 255 blocks, the carry loop of the FIPS
    generator over the twenty bytes of a number.  Global counters, clocks, profile reads and channels are explicit
    arguments, state or interfaces with arbitrary answers; [chrono], [md5], the
    network and the database are parameters, and so are AES, HMAC, SHA-1 and SHA-256
    and the random initial vectors: a theorem that needs more of them than their
    signature says so (lengths of digests, decryption after encryption).

    ** What is not modelled

    Live runtimes (sockets, tasks, D-Bus, SQLite, HTTP), data planes, the ciphers
    themselves and the Diffie-Hellman exponentiation, carrier catalogues, the frontend
    and the scripts.  Within the
    modelled files: the redaction labels of SMS summaries, the redacted debug output and
    the zeroing of secrets, the clock of the
    stream channel, the running of [ip xfrm], log output, the binding of media sockets and the counters of active
    relays.  Hashes, base64 and the
    XML tokenizer are parameters.  The jitter of a probe when the random generator
    fails (one half) is left out.  The random
    share of a delay is taken exactly where the code multiplies by a float, and
    the process-wide table of coordinators ([for_line]) is left out: the model is
    that of one line.  The carrier profile of the IKEv2 exchange is reduced to the
    fields the exchange reads.  What is left of the protocol core is listed, file by
    file, in the manifest: the texts of [ims_failure.rs] and the dialogs of the trunk are
    the parts with logic of their own; the rest is glue around the modelled decisions.
*)

From Stdlib Require Import ZArith Lia.
From stdpp Require Import prelude.

#[global] Arguments Nat.div : simpl never.
#[global] Arguments Nat.modulo : simpl never.
#[global] Arguments Z.shiftl : simpl never.
#[global] Arguments Z.shiftr : simpl never.
#[global] Arguments Z.of_nat : simpl never.

(** ** Outcomes of Rust code

    A Rust function of the modelled code ends in one of three ways: it returns
    a value ([Ok]), it returns the error of its [Result] ([Err]), or it panics
    (an index or a slice out of range, an [expect] on a [None]).  Code without a
    [Result] is polymorphic in [E]. *)
Inductive res (E A : Type) : Type :=
| Ok (a : A)
| Err (e : E)
| Panic.
Arguments Ok {E A} a.
Arguments Err {E A} e.
Arguments Panic {E A}.

#[export] Instance res_ret {E} : MRet (res E) := λ A a, Ok a.
#[export] Instance res_bind {E} : MBind (res E) := λ A B f m,
  match m with
  | Ok a => f a
  | Err e => Err e
  | Panic => Panic
  end.
#[export] Instance res_fmap {E} : FMap (res E) := λ A B f m,
  match m with
  | Ok a => Ok (f a)
  | Err e => Err e
  | Panic => Panic
  end.

(** [o.ok_or(e)?] *)
Definition ok_or {E A} (e : E) (o : option A) : res E A :=
  match o with Some a => Ok a | None => Err e end.

(** [if c { return Err(e) }] *)
Definition fail_if {E} (c : bool) (e : E) : res E unit :=
  if c then Err e else Ok tt.

(** [r.or_else(|_| k)] *)
Definition or_else {E A} (r : res E A) (k : res E A) : res E A :=
  match r with Err _ => k | _ => r end.

(** [r.map_err(f)] *)
Definition map_err {E F A} (f : E → F) (r : res E A) : res F A :=
  match r with Ok a => Ok a | Err e => Err (f e) | Panic => Panic end.

(** [r.ok()], for an [r] that is an expression of its own. *)
Definition res_ok {E A} (r : res E A) : option A :=
  match r with Ok a => Some a | _ => None end.

(** A [for] loop over a list whose body may fail or panic. *)
Fixpoint foldM {E A B} (f : A → B → res E A) (a : A) (l : list B) : res E A :=
  match l with
  | [] => Ok a
  | b :: l => a' ← f a b; foldM f a' l
  end.

(** [iter.map(f).collect::<Result<Vec<_>, _>>()] *)
Fixpoint collectM {E A B} (f : A → res E B) (l : list A) : res E (list B) :=
  match l with
  | [] => Ok []
  | a :: l => b ← f a; bs ← collectM f l; Ok (b :: bs)
  end.

(** [v.sort_by_key(key)]: a stable sort. *)
Fixpoint insert_by_key {A} (key : A → nat) (x : A) (l : list A) : list A :=
  match l with
  | [] => [x]
  | y :: l' => if key x <=? key y then x :: l else y :: insert_by_key key x l'
  end.
Definition sort_by_key {A} (key : A → nat) (l : list A) : list A := foldr (insert_by_key key) [] l.

Definition no_panic {E A} (r : res E A) : Prop := r ≠ Panic.

(** ** Slices

    [idx] is [s[i]], [slice] is [&s[a..b]]; both panic out of range.
    [get_range] is [s.get(a..b)] and [get_from] is [s.get(a..)]. *)
Definition idx {E A} (l : list A) (i : nat) : res E A :=
  match l !! i with Some x => Ok x | None => Panic end.

Definition get_range {A} (l : list A) (a b : nat) : option (list A) :=
  if (a <=? b) && (b <=? length l) then Some (take (b - a) (drop a l)) else None.

Definition get_from {A} (l : list A) (a : nat) : option (list A) :=
  if a <=? length l then Some (drop a l) else None.

Definition slice {E A} (l : list A) (a b : nat) : res E (list A) :=
  match get_range l a b with Some s => Ok s | None => Panic end.

Definition slice_from {E A} (l : list A) (a : nat) : res E (list A) :=
  match get_from l a with Some s => Ok s | None => Panic end.

(** [s[i] = f(s[i])]: panics out of range. *)
Definition update_at {E A} (f : A → A) (l : list A) (i : nat) : res E (list A) :=
  x ← idx l i; Ok (<[i := f x]> l).

(** [n.div_ceil(d)] on [usize]. *)
Definition div_ceil (n d : nat) : nat := (n + d - 1) / d.
#[global] Arguments div_ceil : simpl never.

(** ** Machine integers: the value as a [Z], the wrap-around written out. *)
Definition wrap (w : Z) (z : Z) : Z := z mod 2 ^ w.
Abbreviation u8 := (wrap 8).
Abbreviation u16 := (wrap 16).
Abbreviation u32 := (wrap 32).
Abbreviation u64 := (wrap 64).
Definition u8_max : Z := 255.
Definition u16_max : Z := 65535.
Definition u32_max : Z := 4294967295.
Definition u64_max : Z := 18446744073709551615.

Definition sat_add (max a b : Z) : Z := Z.min max (a + b).
Definition sat_sub (a b : Z) : Z := Z.max 0 (a - b).
Definition sat_mul (max a b : Z) : Z := Z.min max (a * b).

(** [u8::try_from(n)] for an [n : usize]. *)
Definition u8_try_from {E} (e : E) (n : nat) : res E Z :=
  if (Z.of_nat n <=? u8_max)%Z then Ok (Z.of_nat n) else Err e.

Lemma wrap_small w z : (0 ≤ z < 2 ^ w)%Z → wrap w z = z.
Proof. apply Z.mod_small. Qed.
Lemma wrap_range w z : (0 ≤ w)%Z → (0 ≤ wrap w z < 2 ^ w)%Z.
Proof. intros. apply Z.mod_pos_bound, Z.pow_pos_nonneg; lia. Qed.

Definition is_byte (z : Z) : Prop := (0 ≤ z < 256)%Z.
Definition bytes_ok (l : list Z) : Prop := Forall is_byte l.

#[export] Instance is_byte_dec z : Decision (is_byte z).
Proof. unfold is_byte. apply _. Defined.
#[export] Instance bytes_ok_dec l : Decision (bytes_ok l).
Proof. unfold bytes_ok. apply _. Defined.

(** ** Lemmas on outcomes *)
(** [injection] on [Ok] without computing the values. *)
Lemma Ok_inj {E A} (a b : A) : Ok (E:=E) a = Ok b → a = b.
Proof. congruence. Qed.
Section outcomes.
Context {E A B : Type}.
Implicit Types (m : res E A) (f : A → res E B).

Lemma bind_Ok f m b : (m ≫= f) = Ok b ↔ ∃ a, m = Ok a ∧ f a = Ok b.
Proof.
  destruct m; simpl; split; [eauto|by intros (?&[= <-]&?)|done|by intros (?&?&?)|done|].
  by intros (?&?&?).
Qed.

Lemma bind_assoc {C} (m : res E A) (f : A → res E B) (g : B → res E C) :
  ((m ≫= f) ≫= g) = (m ≫= λ a, f a ≫= g).
Proof. by destruct m. Qed.

Lemma no_panic_Ok (a : A) : no_panic (E:=E) (Ok a).
Proof. done. Qed.
Lemma no_panic_Err (e : E) : no_panic (A:=A) (Err e).
Proof. done. Qed.
Lemma no_panic_bind f m :
  no_panic m → (∀ a, m = Ok a → no_panic (f a)) → no_panic (m ≫= f).
Proof. destruct m; simpl; intros Hm Hf; [by apply Hf|done|by destruct Hm]. Qed.
Lemma no_panic_ok_or (e : E) (o : option A) : no_panic (ok_or e o).
Proof. by destruct o. Qed.
Lemma no_panic_or_else m k :
  no_panic m → ((∃ e, m = Err e) → no_panic k) → no_panic (or_else m k).
Proof. destruct m; simpl; intros Hm Hk; [done|eauto|by destruct Hm]. Qed.
Lemma no_panic_map_err {F} (g : E → F) m : no_panic m → no_panic (map_err g m).
Proof. by destruct m. Qed.
End outcomes.

Lemma no_panic_fail_if {E} c (e : E) : no_panic (fail_if c e).
Proof. by destruct c. Qed.
Lemma no_panic_u8_try_from {E} (e : E) n : no_panic (u8_try_from e n).
Proof. unfold u8_try_from. by case_match. Qed.

Lemma fail_if_Ok {E} c (e : E) u : fail_if c e = Ok u ↔ c = false.
Proof. destruct c, u; simpl; naive_solver. Qed.

Lemma ok_or_Ok {E A} (e : E) (o : option A) a : ok_or e o = Ok a ↔ o = Some a.
Proof. destruct o; simpl; naive_solver. Qed.

Lemma u8_try_from_Ok {E} (e : E) n z :
  u8_try_from e n = Ok z ↔ z = Z.of_nat n ∧ (Z.of_nat n ≤ 255)%Z.
Proof.
  unfold u8_try_from, u8_max. destruct (Z.leb_spec (Z.of_nat n) 255); split.
  - by intros [= <-].
  - by intros [-> _].
  - done.
  - intros [_ ?]. lia.
Qed.

Lemma u8_try_from_le {E} (e : E) n : n ≤ 255 → u8_try_from e n = Ok (Z.of_nat n).
Proof. intros. by apply u8_try_from_Ok; split; [|lia]. Qed.

(** ** Lemmas on slices *)
Lemma idx_lt {E A} (l : list A) i : i < length l → ∃ x, l !! i = Some x ∧ idx (E:=E) l i = Ok x.
Proof.
  intros [x Hx]%lookup_lt_is_Some_2. exists x. unfold idx. by rewrite Hx.
Qed.
Lemma idx_Ok {E A} (l : list A) i x : idx (E:=E) l i = Ok x ↔ l !! i = Some x.
Proof. unfold idx. case_match; naive_solver. Qed.
Lemma no_panic_idx {E A} (l : list A) i : i < length l → no_panic (idx (E:=E) l i).
Proof. intros (x & _ & ->)%(idx_lt (E:=E)). done. Qed.

Lemma get_range_Some {A} (l : list A) a b s :
  get_range l a b = Some s ↔ a ≤ b ∧ b ≤ length l ∧ s = take (b - a) (drop a l).
Proof.
  unfold get_range. destruct (Nat.leb_spec a b), (Nat.leb_spec b (length l)); simpl; split;
    first [by intros [= <-]|by intros (?&?&->)|done|intros (?&?&?); lia].
Qed.
Lemma get_range_length {A} (l : list A) a b s :
  get_range l a b = Some s → length s = b - a.
Proof.
  intros (?&?&->)%get_range_Some. rewrite length_take, length_drop. lia.
Qed.
Lemma get_from_Some {A} (l : list A) a s :
  get_from l a = Some s ↔ a ≤ length l ∧ s = drop a l.
Proof.
  unfold get_from. destruct (Nat.leb_spec a (length l)); split;
    first [by intros [= <-]|by intros (?&->)|done|intros (?&?); lia].
Qed.
Lemma slice_Ok {E A} (l : list A) a b s :
  slice (E:=E) l a b = Ok s ↔ a ≤ b ∧ b ≤ length l ∧ s = take (b - a) (drop a l).
Proof. rewrite <-get_range_Some. unfold slice. case_match; naive_solver. Qed.
Lemma no_panic_slice {E A} (l : list A) a b :
  a ≤ b → b ≤ length l → no_panic (slice (E:=E) l a b).
Proof.
  intros. unfold slice, get_range.
  by rewrite (proj2 (Nat.leb_le a b)), (proj2 (Nat.leb_le b (length l))).
Qed.
Lemma no_panic_slice_from {E A} (l : list A) a :
  a ≤ length l → no_panic (slice_from (E:=E) l a).
Proof. intros. unfold slice_from, get_from. by rewrite (proj2 (Nat.leb_le a _)). Qed.
Lemma slice_from_Ok {E A} (l : list A) a s :
  slice_from (E:=E) l a = Ok s ↔ a ≤ length l ∧ s = drop a l.
Proof. rewrite <-get_from_Some. unfold slice_from. case_match; naive_solver. Qed.
Lemma no_panic_update_at {E A} (f : A → A) (l : list A) i :
  i < length l → no_panic (update_at (E:=E) f l i).
Proof. unfold update_at. by intros (x & _ & ->)%(idx_lt (E:=E)). Qed.

(** A slice that starts at a known offset of an append. *)
Lemma get_range_app {A} (p s t : list A) a b :
  a = length p → b = a + length s → get_range (p ++ s ++ t) a b = Some s.
Proof.
  intros -> ->. apply get_range_Some. rewrite !length_app. split_and!; [lia..|].
  rewrite drop_app_length. replace (_ - _) with (length s) by lia.
  by rewrite take_app_length.
Qed.
Lemma slice_app {E A} (p s t : list A) a b :
  a = length p → b = a + length s → slice (E:=E) (p ++ s ++ t) a b = Ok s.
Proof. intros. unfold slice. by rewrite get_range_app. Qed.
Lemma get_from_app {A} (p s : list A) a : a = length p → get_from (p ++ s) a = Some s.
Proof.
  intros ->. apply get_from_Some. rewrite length_app, drop_app_length. split; [lia|done].
Qed.
Lemma idx_app {E A} (p s : list A) x a : a = length p → idx (E:=E) (p ++ x :: s) a = Ok x.
Proof. intros ->. unfold idx. by rewrite list_lookup_middle. Qed.

Lemma bytes_ok_lookup l i b : bytes_ok l → l !! i = Some b → is_byte b.
Proof. unfold bytes_ok. rewrite Forall_lookup. eauto. Qed.
Lemma bytes_ok_take n l : bytes_ok l → bytes_ok (take n l).
Proof. apply Forall_take. Qed.
Lemma bytes_ok_drop n l : bytes_ok l → bytes_ok (drop n l).
Proof. apply Forall_drop. Qed.
Lemma bytes_ok_app l k : bytes_ok (l ++ k) ↔ bytes_ok l ∧ bytes_ok k.
Proof. apply Forall_app. Qed.

(** ** Loops *)
Lemma foldM_app {E A B} (f : A → B → res E A) a l k :
  foldM f a (l ++ k) = (a' ← foldM f a l; foldM f a' k).
Proof.
  revert a. induction l as [|b l IH]; intros a; simpl; [done|].
  destruct (f a b); simpl; [by rewrite IH|done..].
Qed.

(** An invariant of a loop whose body never panics under it. *)
Lemma foldM_inv {E A B} (P : A → Prop) (f : A → B → res E A) l a :
  P a →
  (∀ a b, P a → b ∈ l → no_panic (f a b) ∧ ∀ a', f a b = Ok a' → P a') →
  no_panic (foldM f a l) ∧ ∀ a', foldM f a l = Ok a' → P a'.
Proof.
  revert a. induction l as [|b l IH]; intros a Ha Hf; simpl.
  { split; [done|by intros ? [= <-]]. }
  destruct (Hf a b Ha) as [Hnp Hok]; [by constructor|].
  destruct (f a b) as [a'|e|]; simpl; [|done|done].
  apply IH; [eauto|]. intros. apply Hf; [done|by constructor].
Qed.

Lemma collectM_Ok {E A B} (f : A → res E B) l k :
  collectM f l = Ok k ↔ Forall2 (λ a b, f a = Ok b) l k.
Proof.
  revert k. induction l as [|a l IH]; intros k; simpl.
  { split; [intros [= <-]; constructor|by inversion 1]. }
  split.
  - intros (b & Hb & (bs & Hbs & [= <-])%bind_Ok)%bind_Ok. constructor; [done|by apply IH].
  - inversion 1; subst. rewrite H2. simpl. by rewrite (proj2 (IH _) H4).
Qed.

Lemma no_panic_collectM {E A B} (f : A → res E B) l :
  (∀ a, a ∈ l → no_panic (f a)) → no_panic (collectM f l).
Proof.
  induction l as [|a l IH]; intros Hf; simpl; [done|].
  apply no_panic_bind; [apply Hf; constructor|]. intros b _.
  apply no_panic_bind; [apply IH; intros; apply Hf; by constructor|done].
Qed.

(** ** Sorting *)
Section sorting.
Context {A : Type} (key : A → nat).

Lemma insert_by_key_perm x l : insert_by_key key x l ≡ₚ x :: l.
Proof.
  induction l as [|y l IH]; simpl; [done|]. case_match; [done|]. rewrite IH. apply Permutation_swap.
Qed.
Lemma sort_by_key_perm l : sort_by_key key l ≡ₚ l.
Proof. induction l as [|x l IH]; simpl; [done|]. by rewrite insert_by_key_perm, IH. Qed.
Lemma insert_by_key_head x y l :
  key y ≤ key x → (∀ z, z ∈ l → key y ≤ key z) → ∀ z, z ∈ insert_by_key key x l → key y ≤ key z.
Proof. intros Hx Hl z. rewrite insert_by_key_perm, elem_of_cons. intros [->|?]; auto. Qed.

(** Sorted by key: every element is below the ones after it. *)
Fixpoint key_sorted (l : list A) : Prop :=
  match l with
  | [] => True
  | x :: l => (∀ y, y ∈ l → key x ≤ key y) ∧ key_sorted l
  end.
Lemma insert_by_key_sorted x l : key_sorted l → key_sorted (insert_by_key key x l).
Proof.
  induction l as [|y l IH]; simpl; [intros _; split; [by intros ? ?%not_elem_of_nil|done]|].
  intros [Hy Hl]. destruct (Nat.leb_spec (key x) (key y)).
  - simpl. split; [|done]. intros z [->|Hz]%elem_of_cons; [done|]. specialize (Hy z Hz). lia.
  - split; [|by apply IH]. apply insert_by_key_head; [lia|done].
Qed.
Lemma sort_by_key_sorted l : key_sorted (sort_by_key key l).
Proof. induction l as [|x l IH]; simpl; [done|]. by apply insert_by_key_sorted. Qed.
End sorting.

(** ** Automation *)

(** Bounds on the lengths of sub-slices. *)
Ltac len_lia := first [lia | rewrite ?length_take, ?length_drop in *; lia].

Create HintDb rust discriminated.
#[export] Hint Resolve no_panic_Ok no_panic_Err no_panic_ok_or no_panic_fail_if
  no_panic_u8_try_from no_panic_map_err : rust.
#[export] Hint Extern 2 (no_panic (idx _ _)) => (apply no_panic_idx; len_lia) : rust.
#[export] Hint Extern 2 (no_panic (slice _ _ _)) => (apply no_panic_slice; len_lia) : rust.
#[export] Hint Extern 2 (no_panic (slice_from _ _)) => (apply no_panic_slice_from; len_lia) : rust.

Create Rewrite HintDb rust_ok.
#[export] Hint Rewrite @bind_Ok @fail_if_Ok @ok_or_Ok @u8_try_from_Ok @idx_Ok
  @get_range_Some @get_from_Some @slice_Ok @slice_from_Ok : rust_ok.

(** Turn the success of a monadic program into the facts of its steps. *)
Ltac rust_inv :=
  repeat match goal with
  | H : context [mbind _ _ = Ok _] |- _ => apply bind_Ok in H; destruct H as (?&?&H)
  | H : fail_if _ _ = Ok _ |- _ => apply fail_if_Ok in H
  | H : ok_or _ _ = Ok _ |- _ => apply ok_or_Ok in H
  | H : u8_try_from _ _ = Ok _ |- _ => apply u8_try_from_Ok in H; destruct H as [? H]
  | H : idx _ _ = Ok _ |- _ => apply idx_Ok in H
  | H : slice _ _ _ = Ok _ |- _ => apply slice_Ok in H; destruct H as (?&?&H)
  | H : slice_from _ _ = Ok _ |- _ => apply slice_from_Ok in H; destruct H as (?&H)
  | H : get_range _ _ _ = Some _ |- _ => apply get_range_Some in H; destruct H as (?&?&H)
  | H : get_from _ _ = Some _ |- _ => apply get_from_Some in H; destruct H as (?&H)
  | H : Ok _ = Ok _ |- _ => injection H as H
  | H : Err _ = Ok _ |- _ => discriminate H
  | H : Panic = Ok _ |- _ => discriminate H
  end.

(** Boolean guards of the code as propositions [lia] can use. *)
Ltac bool_prop :=
  repeat match goal with
  | H : (_ || _) = false |- _ => apply orb_false_iff in H; destruct H
  | H : (_ && _) = true |- _ => apply andb_true_iff in H; destruct H
  | H : negb _ = false |- _ => apply negb_false_iff in H
  | H : negb _ = true |- _ => apply negb_true_iff in H
  | H : (_ <? _) = false |- _ => apply Nat.ltb_ge in H
  | H : (_ <? _) = true |- _ => apply Nat.ltb_lt in H
  | H : (_ <=? _) = false |- _ => apply Nat.leb_gt in H
  | H : (_ <=? _) = true |- _ => apply Nat.leb_le in H
  | H : (_ =? _) = true |- _ => apply Nat.eqb_eq in H
  | H : (_ =? _) = false |- _ => apply Nat.eqb_neq in H
  | H : (_ <? _)%Z = false |- _ => apply Z.ltb_ge in H
  | H : (_ <? _)%Z = true |- _ => apply Z.ltb_lt in H
  | H : (_ <=? _)%Z = false |- _ => apply Z.leb_gt in H
  | H : (_ <=? _)%Z = true |- _ => apply Z.leb_le in H
  | H : (_ =? _)%Z = true |- _ => apply Z.eqb_eq in H
  | H : (_ =? _)%Z = false |- _ => apply Z.eqb_neq in H
  end.

(** Walk through a monadic program that must not panic. *)
Ltac np_step :=
  match goal with
  | |- no_panic (mbind _ _) => apply no_panic_bind; [|intros ? ?]
  | |- no_panic (or_else _ _) => apply no_panic_or_else; [|intros _]
  | |- no_panic (match ?x with _ => _ end) => destruct x eqn:?
  | |- no_panic _ => solve [eauto 3 with rust]
  end; rust_inv; bool_prop; subst.
Ltac np := repeat np_step.
