(* ===== verification/Text.v ===== *)
(** * Rust text: [char], [str], formatting and the UTF encodings

    A [char] is its Unicode scalar value as a [Z]; a [str] or [String] is the
    list of its characters.  The byte view of a string is [utf8_encode].  This
    file holds the operations of the Rust standard library the modelled code
    uses on strings, and the lemmas the components share about them. *)
From Stdlib Require Import Ascii String ZArith Lia.
From stdpp Require Import prelude.
From S2P Require Import Prelude.

Abbreviation str := (list Z).

(** Literals of the source. *)
Definition ch (a : ascii) : Z := Z.of_N (N_of_ascii a).
Arguments ch a%_char_scope.
Definition lit (s : string) : str := ch <$> list_ascii_of_string s.
Arguments lit s%_string_scope.

Definition is_char (c : Z) : Prop := (0 ≤ c < 55296 ∨ 57344 ≤ c < 1114112)%Z.
#[export] Instance is_char_dec c : Decision (is_char c).
Proof. unfold is_char. apply _. Defined.

Definition str_eqb (s t : str) : bool := bool_decide (s = t).

(** ** Character classes *)
Definition in_range (lo hi c : Z) : bool := ((lo <=? c) && (c <=? hi))%Z.
Definition is_ascii_digit (c : Z) : bool := in_range (ch "0") (ch "9") c.

(** [char::is_whitespace]: the Unicode White_Space property. *)
Definition is_whitespace (c : Z) : bool :=
  in_range 9 13 c || existsb (Z.eqb c) [32; 133; 160; 5760; 8232; 8233; 8239; 8287; 12288]%Z
  || in_range 8192 8202 c.

Definition to_ascii_lowercase (c : Z) : Z :=
  if in_range (ch "A") (ch "Z") c then (c + 32)%Z else c.
Definition to_ascii_uppercase (c : Z) : Z :=
  if in_range (ch "a") (ch "z") c then (c - 32)%Z else c.
Definition eq_ignore_ascii_case (s t : str) : bool :=
  str_eqb (to_ascii_lowercase <$> s) (to_ascii_lowercase <$> t).

(** ** Trimming *)
Fixpoint trim_start_matches (p : Z → bool) (s : str) : str :=
  match s with
  | [] => []
  | c :: s' => if p c then trim_start_matches p s' else s
  end.
Definition trim_end_matches (p : Z → bool) (s : str) : str :=
  reverse (trim_start_matches p (reverse s)).
Definition trim (s : str) : str :=
  trim_end_matches is_whitespace (trim_start_matches is_whitespace s).
Definition trim_end (s : str) : str := trim_end_matches is_whitespace s.

(** [values.join(sep)] *)
Definition join (sep : str) (l : list str) : str :=
  match l with [] => [] | x :: l => foldl (λ s y, s ++ sep ++ y) x l end.

(** ** Number formatting *)
Fixpoint digits_fuel (fuel : nat) (b n : Z) : list Z :=
  match fuel with
  | 0 => []
  | S f => if (n <? b)%Z then [n] else digits_fuel f b (n / b)%Z ++ [(n mod b)%Z]
  end.
Definition digits (b n : Z) : list Z := digits_fuel (S (Z.to_nat (Z.log2 n))) b n.
Definition digit_char (d : Z) : Z := if (d <? 10)%Z then (ch "0" + d)%Z else (ch "a" + d - 10)%Z.

(** [{n}] and [{n:x}] *)
Definition fmt_dec (n : Z) : str := digit_char <$> digits 10 n.
Definition fmt_hex (n : Z) : str := digit_char <$> digits 16 n.
(** [{n:04x}] *)
Definition fmt_hex4 (n : Z) : str :=
  replicate (4 - length (fmt_hex n)) (ch "0") ++ fmt_hex n.
(** [{b:02x}] for a byte *)
Definition fmt_byte (b : Z) : str := [digit_char (b / 16); digit_char (b mod 16)]%Z.

(** ** Number parsing: [s.parse::<uN>()], where [max] is the largest value.  A
    leading [+] is accepted, the empty string and a lone sign are not. *)
Fixpoint parse_digits (max acc : Z) (s : str) : option Z :=
  match s with
  | [] => Some acc
  | c :: s => if is_ascii_digit c then
      let acc := (acc * 10 + (c - ch "0"))%Z in
      if (acc <=? max)%Z then parse_digits max acc s else None
    else None
  end.
Definition parse_unsigned (max : Z) (s : str) : option Z :=
  match s with
  | [] => None
  | [c] => parse_digits max 0 [c]
  | c :: s' => if (c =? ch "+")%Z then parse_digits max 0 s' else parse_digits max 0 s
  end.

(** ** UTF-16 *)
Definition len_utf16 (c : Z) : nat := if (c <? 65536)%Z then 1 else 2.
Definition encode_utf16_char (c : Z) : list Z :=
  if (c <? 65536)%Z then [c]
  else let d := (c - 65536)%Z in
       [Z.lor 55296 (Z.shiftr d 10); Z.lor 56320 (Z.land d 1023)].
Definition encode_utf16 (s : str) : list Z := s ≫= encode_utf16_char.

(** [String::from_utf16]: [None] on an unpaired surrogate. *)
Fixpoint from_utf16 (units : list Z) : option str :=
  match units with
  | [] => Some []
  | u :: units =>
    if in_range 55296 57343 u then
      if in_range 55296 56319 u then
        match units with
        | v :: units =>
          if in_range 56320 57343 v then
            s ← from_utf16 units;
            Some ((65536 + Z.shiftl (u - 55296) 10 + (v - 56320))%Z :: s)
          else None
        | [] => None
        end
      else None
    else s ← from_utf16 units; Some (u :: s)
  end.

(** ** UTF-8 *)
Definition utf8_char (c : Z) : list Z :=
  (if c <? 128 then [c]
   else if c <? 2048 then [192 + c / 64; 128 + c mod 64]
   else if c <? 65536 then [224 + c / 4096; 128 + (c / 64) mod 64; 128 + c mod 64]
   else [240 + c / 262144; 128 + (c / 4096) mod 64; 128 + (c / 64) mod 64; 128 + c mod 64])%Z.
Definition utf8_encode (s : str) : list Z := s ≫= utf8_char.

(** One step of UTF-8 decoding as the standard library does it: a character, or
    [None] for a maximal invalid prefix, and the bytes left.  The end of the
    input reads as byte 0, which continues nothing. *)
Definition byte_at (l : list Z) : Z := match l with [] => 0%Z | b :: _ => b end.
Definition is_cont (b : Z) : bool := in_range 128 191 b.
Definition cont3 (b0 b1 : Z) : bool :=
  if (b0 =? 224)%Z then in_range 160 191 b1
  else if (b0 =? 237)%Z then in_range 128 159 b1 else is_cont b1.
Definition cont4 (b0 b1 : Z) : bool :=
  if (b0 =? 240)%Z then in_range 144 191 b1
  else if (b0 =? 244)%Z then in_range 128 143 b1 else is_cont b1.
Definition utf8_step (b0 : Z) (l1 : list Z) : option Z * list Z :=
  let l2 := tail l1 in let l3 := tail l2 in
  let b1 := byte_at l1 in let b2 := byte_at l2 in let b3 := byte_at l3 in
  if (b0 <? 128)%Z then (Some b0, l1)
  else if in_range 194 223 b0 then
    if is_cont b1 then (Some ((b0 - 192) * 64 + (b1 - 128))%Z, l2) else (None, l1)
  else if in_range 224 239 b0 then
    if cont3 b0 b1 then
      if is_cont b2 then (Some ((b0 - 224) * 4096 + (b1 - 128) * 64 + (b2 - 128))%Z, l3)
      else (None, l2)
    else (None, l1)
  else if in_range 240 244 b0 then
    if cont4 b0 b1 then
      if is_cont b2 then
        if is_cont b3 then
          (Some ((b0 - 240) * 262144 + (b1 - 128) * 4096 + (b2 - 128) * 64 + (b3 - 128))%Z, tail l3)
        else (None, l3)
      else (None, l2)
    else (None, l1)
  else (None, l1).
Fixpoint utf8_chunks (fuel : nat) (l : list Z) : list (option Z) :=
  match fuel, l with
  | S fuel, b :: l => let '(c, l) := utf8_step b l in c :: utf8_chunks fuel l
  | _, _ => []
  end.
(** [String::from_utf8_lossy] and [str::from_utf8]; every step takes a byte. *)
Definition from_utf8_lossy (l : list Z) : str := default 65533%Z <$> utf8_chunks (length l) l.
Definition from_utf8 (l : list Z) : option str := mapM id (utf8_chunks (length l) l).

(** A source literal with characters outside ASCII. *)
Definition ulit (s : string) : str := from_utf8_lossy (lit s).
Arguments ulit s%_string_scope.

(** ** Searching and splitting *)
Fixpoint find_char (p : Z → bool) (s : str) : option nat :=
  match s with
  | [] => None
  | c :: s => if p c then Some 0 else S <$> find_char p s
  end.
(** [s.split_once(c)] *)
Definition split_once (c : Z) (s : str) : option (str * str) :=
  i ← find_char (Z.eqb c) s; Some (take i s, drop (S i) s).
(** [s.split(c)] *)
Fixpoint split (c : Z) (s : str) : list str :=
  match s with
  | [] => [[]]
  | d :: s =>
    if (d =? c)%Z then [] :: split c s
    else match split c s with
         | p :: ps => (d :: p) :: ps
         | [] => [[d]]
         end
  end.
(** [s.lines()]: split at line feeds, a carriage return before one dropped; no
    last empty line. *)
Definition strip_cr (l : str) : str :=
  match reverse l with 13%Z :: r => reverse r | _ => l end.
Fixpoint lines_from (acc s : str) : list str :=
  match s with
  | [] => if bool_decide (acc = []) then [] else [acc]
  | c :: s => if (c =? 10)%Z then strip_cr acc :: lines_from [] s else lines_from (acc ++ [c]) s
  end.
Definition lines (s : str) : list str := lines_from [] s.
(** [s.split_whitespace()] *)
Fixpoint split_whitespace_from (acc s : str) : list str :=
  match s with
  | [] => if bool_decide (acc = []) then [] else [acc]
  | c :: s =>
    if is_whitespace c
    then (if bool_decide (acc = []) then [] else [acc]) ++ split_whitespace_from [] s
    else split_whitespace_from (acc ++ [c]) s
  end.
Definition split_whitespace (s : str) : list str := split_whitespace_from [] s.
Definition starts_with (s p : str) : bool := bool_decide (take (length p) s = p).
Definition strip_prefix (p s : str) : option str :=
  if starts_with s p then Some (drop (length p) s) else None.

(** * Lemmas *)

Lemma str_eqb_eq s t : str_eqb s t = true ↔ s = t.
Proof. apply bool_decide_eq_true. Qed.
Lemma str_eqb_refl s : str_eqb s s = true.
Proof. by apply str_eqb_eq. Qed.

Lemma in_range_true lo hi c : in_range lo hi c = true ↔ (lo ≤ c ≤ hi)%Z.
Proof. unfold in_range. rewrite andb_true_iff, !Z.leb_le. done. Qed.
Lemma in_range_false lo hi c : in_range lo hi c = false ↔ (c < lo ∨ hi < c)%Z.
Proof. unfold in_range. rewrite andb_false_iff, !Z.leb_gt. done. Qed.

(** ** Digits *)
Definition from_digits (b : Z) (l : list Z) : Z := foldl (λ a d, (a * b + d)%Z) 0%Z l.

Lemma from_digits_snoc b l d : from_digits b (l ++ [d]) = (from_digits b l * b + d)%Z.
Proof. unfold from_digits. by rewrite foldl_app. Qed.

Lemma digits_fuel_spec b fuel n :
  (2 ≤ b)%Z → (0 ≤ n < 2 ^ Z.of_nat fuel)%Z → 0 < fuel →
  from_digits b (digits_fuel fuel b n) = n ∧
  Forall (λ d, (0 ≤ d < b)%Z) (digits_fuel fuel b n) ∧ digits_fuel fuel b n ≠ [].
Proof.
  intros Hb. revert n. induction fuel as [|fuel IH]; intros n Hn Hf; [lia|]. simpl.
  destruct (Z.ltb_spec n b) as [Hlt|Hge].
  { split_and!; [done|by repeat constructor; lia|done]. }
  destruct (decide (fuel = 0)) as [->|Hne]; [simpl in Hn; lia|].
  destruct (IH (n / b)%Z) as (He & HF & _); [|lia|].
  { split; [apply Z.div_pos; lia|]. apply Z.div_lt_upper_bound; [lia|].
    rewrite Nat2Z.inj_succ, Z.pow_succ_r in Hn by lia. nia. }
  split_and!.
  - rewrite from_digits_snoc, He. pose proof (Z.div_mod n b). lia.
  - apply Forall_app. split; [done|]. repeat constructor; apply Z.mod_pos_bound; lia.
  - by destruct (digits_fuel fuel b (n / b)).
Qed.

Lemma digits_spec b n : (2 ≤ b)%Z → (0 ≤ n)%Z →
  from_digits b (digits b n) = n ∧ Forall (λ d, (0 ≤ d < b)%Z) (digits b n) ∧ digits b n ≠ [].
Proof.
  intros Hb Hn. apply digits_fuel_spec; [done| |lia]. split; [done|].
  rewrite Nat2Z.inj_succ, Z2Nat.id by apply Z.log2_nonneg.
  destruct (decide (n = 0)%Z) as [->|]; [by vm_compute|].
  apply Z.log2_spec. lia.
Qed.

Lemma digits_inj b n m : (2 ≤ b)%Z → (0 ≤ n)%Z → (0 ≤ m)%Z → digits b n = digits b m → n = m.
Proof.
  intros Hb Hn Hm He. destruct (digits_spec b n) as [<- _]; [done..|].
  destruct (digits_spec b m) as [<- _]; [done..|]. by rewrite He.
Qed.

Lemma digit_char_inj d e :
  (0 ≤ d < 16)%Z → (0 ≤ e < 16)%Z → digit_char d = digit_char e → d = e.
Proof.
  unfold digit_char. change (ch "0") with 48%Z. change (ch "a") with 97%Z.
  destruct (Z.ltb_spec d 10), (Z.ltb_spec e 10); lia.
Qed.

Lemma digit_char_ne_colon d : (0 ≤ d < 16)%Z → digit_char d ≠ ch ":".
Proof.
  unfold digit_char. change (ch "0") with 48%Z. change (ch "a") with 97%Z.
  change (ch ":") with 58%Z. destruct (Z.ltb_spec d 10); lia.
Qed.

Lemma map_digit_char_inj l k :
  Forall (λ d, (0 ≤ d < 16)%Z) l → Forall (λ d, (0 ≤ d < 16)%Z) k →
  digit_char <$> l = digit_char <$> k → l = k.
Proof.
  intros Hl. revert k. induction Hl as [|d l Hd Hl IH]; intros k Hk He.
  { by destruct k. }
  destruct Hk as [|e k He' Hk]; [done|]. injection He as H1 H2.
  f_equal; [by apply digit_char_inj|auto].
Qed.

Lemma digits_lt16 b n : (2 ≤ b ≤ 16)%Z → (0 ≤ n)%Z → Forall (λ d, (0 ≤ d < 16)%Z) (digits b n).
Proof.
  intros Hb Hn. destruct (digits_spec b n) as (_&HF&_); [lia..|].
  eapply Forall_impl; [exact HF|]. simpl. lia.
Qed.

Lemma fmt_dec_inj n m : (0 ≤ n)%Z → (0 ≤ m)%Z → fmt_dec n = fmt_dec m → n = m.
Proof.
  intros Hn Hm He%map_digit_char_inj; [by apply digits_inj in He|by apply digits_lt16..].
Qed.
Lemma fmt_hex_inj n m : (0 ≤ n)%Z → (0 ≤ m)%Z → fmt_hex n = fmt_hex m → n = m.
Proof.
  intros Hn Hm He%map_digit_char_inj; [by apply digits_inj in He|by apply digits_lt16..].
Qed.

Lemma fmt_no_colon b n : (2 ≤ b ≤ 16)%Z → (0 ≤ n)%Z → ch ":" ∉ (digit_char <$> digits b n).
Proof.
  intros Hb Hn (d & Hd & Hin)%list_elem_of_fmap.
  pose proof (digits_lt16 b n Hb Hn) as HF. rewrite Forall_forall in HF.
  by apply (digit_char_ne_colon d (HF _ Hin)).
Qed.

(** ** UTF-16 round trip *)
Lemma lor_disjoint_add a b : Z.land a b = 0%Z → Z.lor a b = (a + b)%Z.
Proof. intros H. rewrite <-Z.lxor_lor by done. symmetry. by apply Z.add_nocarry_lxor. Qed.

Lemma utf16_hi d : (0 ≤ d < 1048576)%Z → Z.lor 55296 (Z.shiftr d 10) = (55296 + d / 1024)%Z.
Proof.
  intros Hd. rewrite Z.shiftr_div_pow2 by lia. change (2 ^ 10)%Z with 1024%Z.
  apply lor_disjoint_add. apply Z.bits_inj'. intros i Hi. rewrite Z.land_spec, Z.bits_0.
  assert (0 ≤ d / 1024 < 1024)%Z by (split; [apply Z.div_pos; lia|apply Z.div_lt_upper_bound; lia]).
  destruct (decide (i < 10)%Z) as [Hlt|Hge].
  - change 55296%Z with (54 * 2 ^ 10)%Z. rewrite Z.mul_pow2_bits_low by lia. done.
  - rewrite (Z.bits_above_log2 (d / 1024)), andb_false_r; [done|lia|].
    destruct (decide (d / 1024 = 0)%Z) as [->|]; [simpl; lia|].
    apply Z.log2_lt_pow2; [lia|]. eapply Z.lt_le_trans; [apply H|].
    change 1024%Z with (2 ^ 10)%Z. apply Z.pow_le_mono_r; lia.
Qed.

Lemma utf16_lo d : (0 ≤ d)%Z → Z.lor 56320 (Z.land d 1023) = (56320 + d mod 1024)%Z.
Proof.
  intros Hd. change 1023%Z with (Z.ones 10). rewrite Z.land_ones by lia.
  change (2 ^ 10)%Z with 1024%Z. apply lor_disjoint_add.
  apply Z.bits_inj'. intros i Hi. rewrite Z.land_spec, Z.bits_0.
  destruct (decide (i < 10)%Z) as [Hlt|Hge].
  - change 56320%Z with (55 * 2 ^ 10)%Z. rewrite Z.mul_pow2_bits_low by lia. done.
  - change 1024%Z with (2 ^ 10)%Z. rewrite Z.mod_pow2_bits_high, andb_false_r; [done|lia].
Qed.

Lemma length_encode_utf16_char c : length (encode_utf16_char c) = len_utf16 c.
Proof. unfold encode_utf16_char, len_utf16. by case_match. Qed.

Lemma encode_utf16_cons c s : encode_utf16 (c :: s) = encode_utf16_char c ++ encode_utf16 s.
Proof. done. Qed.
Lemma encode_utf16_app s t : encode_utf16 (s ++ t) = encode_utf16 s ++ encode_utf16 t.
Proof. unfold encode_utf16. apply bind_app. Qed.

Lemma from_utf16_char c l : is_char c →
  from_utf16 (encode_utf16_char c ++ l) = (s ← from_utf16 l; Some (c :: s)).
Proof.
  intros Hc. unfold encode_utf16_char. destruct (Z.ltb_spec c 65536) as [Hlt|Hge]; simpl.
  { rewrite (proj2 (in_range_false 55296 57343 c)) by (unfold is_char in Hc; lia). done. }
  assert (0 ≤ c - 65536 < 1048576)%Z as Hd by (unfold is_char in Hc; lia).
  rewrite utf16_hi, utf16_lo by lia. set (d := (c - 65536)%Z) in *.
  assert (0 ≤ d / 1024 < 1024)%Z by (split; [apply Z.div_pos; lia|apply Z.div_lt_upper_bound; lia]).
  pose proof (Z.mod_pos_bound d 1024 ltac:(lia)).
  rewrite (proj2 (in_range_true 55296 57343 _)) by lia.
  rewrite (proj2 (in_range_true 55296 56319 _)) by lia.
  rewrite (proj2 (in_range_true 56320 57343 _)) by lia.
  rewrite Z.shiftl_mul_pow2 by lia. change (2 ^ 10)%Z with 1024%Z.
  replace (65536 + (55296 + d / 1024 - 55296) * 1024 + (56320 + d mod 1024 - 56320))%Z with c;
    [done|]. pose proof (Z.div_mod d 1024). lia.
Qed.

Lemma utf16_roundtrip s : Forall is_char s → from_utf16 (encode_utf16 s) = Some s.
Proof.
  induction 1 as [|c s Hc _ IH]; [done|].
  by rewrite encode_utf16_cons, from_utf16_char, IH.
Qed.

Lemma encode_utf16_units s : Forall is_char s → Forall (λ u, (0 ≤ u < 65536)%Z) (encode_utf16 s).
Proof.
  induction 1 as [|c s Hc _ IH]; [constructor|]. rewrite encode_utf16_cons.
  apply Forall_app. split; [|done]. unfold encode_utf16_char.
  destruct (Z.ltb_spec c 65536) as [Hlt|Hge].
  { repeat constructor; unfold is_char in Hc; lia. }
  assert (0 ≤ c - 65536 < 1048576)%Z as Hd by (unfold is_char in Hc; lia).
  rewrite utf16_hi, utf16_lo by lia. set (d := (c - 65536)%Z) in *.
  assert (0 ≤ d / 1024 < 1024)%Z by (split; [apply Z.div_pos; lia|apply Z.div_lt_upper_bound; lia]).
  pose proof (Z.mod_pos_bound d 1024 ltac:(lia)). repeat constructor; lia.
Qed.

(** ** Trimming *)
Lemma trim_start_matches_idemp p s :
  trim_start_matches p (trim_start_matches p s) = trim_start_matches p s.
Proof. induction s as [|c s IH]; simpl; [done|]. destruct (p c) eqn:Hp; [done|]. simpl. by rewrite Hp. Qed.
Lemma trim_end_matches_idemp p s :
  trim_end_matches p (trim_end_matches p s) = trim_end_matches p s.
Proof. unfold trim_end_matches. by rewrite reverse_involutive, trim_start_matches_idemp. Qed.
Lemma Forall_trim_start_matches (P : Z → Prop) p s : Forall P s → Forall P (trim_start_matches p s).
Proof. induction 1; simpl; [done|]. case_match; [done|by constructor]. Qed.
Lemma Forall_trim_end_matches (P : Z → Prop) p s : Forall P s → Forall P (trim_end_matches p s).
Proof. intros. by apply Forall_reverse, Forall_trim_start_matches, Forall_reverse. Qed.

(** ** UTF-8 *)
Lemma utf8_step_char c l : is_char c →
  ∃ b r, utf8_char c ++ l = b :: r ∧ utf8_step b r = (Some c, l).
Proof.
  unfold is_char, utf8_char. intros Hc.
  destruct (Z.ltb_spec c 128); [|destruct (Z.ltb_spec c 2048); [|destruct (Z.ltb_spec c 65536)]];
    eexists _, _; (split; [reflexivity|]); unfold utf8_step; cbn [byte_at tail app];
    unfold cont3, cont4, is_cont;
    repeat (case_match; rewrite ?in_range_true, ?in_range_false in *; bool_prop; simplify_eq/=;
      try (exfalso; Z.to_euclidean_division_equations; lia)); f_equal; f_equal;
    Z.to_euclidean_division_equations; lia.
Qed.

Lemma length_utf8_char c : 1 ≤ length (utf8_char c).
Proof. unfold utf8_char. repeat case_match; simpl; lia. Qed.

Lemma utf8_chunks_encode s fuel :
  Forall is_char s → length (utf8_encode s) ≤ fuel → utf8_chunks fuel (utf8_encode s) = Some <$> s.
Proof.
  intros Hs. revert fuel. induction Hs as [|c s Hc _ IH]; intros fuel; [by destruct fuel|].
  change (utf8_encode (c :: s)) with (utf8_char c ++ utf8_encode s). intros Hf.
  destruct (utf8_step_char c (utf8_encode s) Hc) as (b & r & Heq & Hstep).
  rewrite length_app in Hf. pose proof (length_utf8_char c). destruct fuel as [|fuel]; [lia|].
  rewrite Heq. simpl. rewrite Hstep, IH; [done|]. lia.
Qed.

Lemma utf8_roundtrip s : Forall is_char s → from_utf8 (utf8_encode s) = Some s.
Proof.
  intros Hs. unfold from_utf8. rewrite utf8_chunks_encode by done. clear Hs.
  apply mapM_Some. induction s as [|c s IH]; by constructor.
Qed.

Lemma utf8_lossy_roundtrip s : Forall is_char s → from_utf8_lossy (utf8_encode s) = s.
Proof.
  intros Hs. unfold from_utf8_lossy. rewrite utf8_chunks_encode by done.
  clear Hs. induction s as [|c s IH]; [done|]. by rewrite !fmap_cons, IH.
Qed.

Definition is_ascii (c : Z) : Prop := (0 ≤ c < 128)%Z.
#[export] Instance is_ascii_dec c : Decision (is_ascii c).
Proof. unfold is_ascii. apply _. Defined.

Lemma utf8_encode_ascii s : Forall is_ascii s → utf8_encode s = s.
Proof.
  induction 1 as [|c s Hc _ IH]; [done|]. change (utf8_encode (c :: s)) with (utf8_char c ++ utf8_encode s).
  unfold utf8_char. destruct (Z.ltb_spec c 128); [|unfold is_ascii in Hc; lia]. by rewrite IH.
Qed.

Lemma ascii_is_char s : Forall is_ascii s → Forall is_char s.
Proof. intros Hs. eapply Forall_impl; [exact Hs|]. unfold is_ascii, is_char. intros. lia. Qed.

Lemma from_utf8_lossy_ascii s : Forall is_ascii s → from_utf8_lossy s = s.
Proof.
  intros Hs. rewrite <-(utf8_encode_ascii s Hs) at 1. by apply utf8_lossy_roundtrip, ascii_is_char.
Qed.

Lemma parse_digits_range max acc s n :
  (0 ≤ acc ≤ max)%Z → parse_digits max acc s = Some n → (0 ≤ n ≤ max)%Z.
Proof.
  revert acc. induction s as [|c s IH]; intros acc Hacc; simpl; [by intros [= <-]|].
  destruct (is_ascii_digit c) eqn:Hd; [|done]. apply in_range_true in Hd.
  destruct (Z.leb_spec (acc * 10 + (c - ch "0")) max); [|done].
  apply IH. change (ch "0") with 48%Z in *. lia.
Qed.
Lemma parse_unsigned_range max s n :
  (0 ≤ max)%Z → parse_unsigned max s = Some n → (0 ≤ n ≤ max)%Z.
Proof.
  intros Hm. unfold parse_unsigned. destruct s as [|c [|d s]]; [done| |];
    [|destruct (c =? ch "+")%Z]; apply parse_digits_range; lia.
Qed.

(** ** Trimming what needs no trimming *)
Definition head_not (p : Z → bool) (s : str) : Prop :=
  match s with [] => True | c :: _ => p c = false end.
Lemma trim_start_matches_id p s : head_not p s → trim_start_matches p s = s.
Proof. destruct s as [|c s]; [done|]. simpl. by intros ->. Qed.
Lemma trim_end_matches_id p s : head_not p (reverse s) → trim_end_matches p s = s.
Proof. intros Hs. unfold trim_end_matches. rewrite trim_start_matches_id by done. apply reverse_involutive. Qed.
Lemma trim_id s : head_not is_whitespace s → head_not is_whitespace (reverse s) → trim s = s.
Proof. intros Hs He. unfold trim. rewrite trim_start_matches_id by done. by apply trim_end_matches_id. Qed.
Lemma head_not_Forall p s : Forall (λ c, p c = false) s → head_not p s.
Proof. by destruct 1. Qed.
Lemma head_not_reverse p s : Forall (λ c, p c = false) s → head_not p (reverse s).
Proof. intros. by apply head_not_Forall, Forall_reverse. Qed.
Lemma trim_space s : trim (ch " " :: s) = trim s.
Proof. done. Qed.

(** ** Finding a separator *)
Lemma find_char_app p s t : Forall (λ c, p c = false) s → find_char p (s ++ t) = Nat.add (length s) <$> find_char p t.
Proof.
  induction 1 as [|c s Hc _ IH]; simpl; [by destruct (find_char p t)|].
  rewrite Hc, IH. by destruct (find_char p t).
Qed.
Lemma split_once_app c s t : Forall (λ d, (c =? d)%Z = false) s → split_once c (s ++ c :: t) = Some (s, t).
Proof.
  intros Hs. unfold split_once. rewrite find_char_app by done. simpl. rewrite Z.eqb_refl. simpl.
  rewrite Nat.add_0_r, take_app_length. do 2 f_equal.
  rewrite cons_middle, app_assoc. apply drop_app_length'. rewrite length_app. simpl. lia.
Qed.
Lemma eq_ignore_ascii_case_refl s : eq_ignore_ascii_case s s = true.
Proof. apply str_eqb_refl. Qed.
Lemma fmt_dec_digits n : (0 ≤ n)%Z → Forall (λ c, is_ascii_digit c = true) (fmt_dec n) ∧ fmt_dec n ≠ [].
Proof.
  intros Hn. destruct (digits_spec 10 n) as (_ & HF & Hne); [lia..|]. unfold fmt_dec. split.
  - apply Forall_fmap. eapply Forall_impl; [exact HF|]. intros d Hd. cbv beta in *.
    unfold is_ascii_digit, digit_char. apply in_range_true. change (ch "0") with 48%Z.
    change (ch "9") with 57%Z. destruct (Z.ltb_spec d 10); lia.
  - by destruct (digits 10 n).
Qed.

(** ** Reading a formatted number back *)
Lemma from_digits_ge b ds a : (1 ≤ b)%Z → Forall (λ d, (0 ≤ d < b)%Z) ds → (0 ≤ a)%Z →
  (a ≤ foldl (λ a d, (a * b + d)%Z) a ds)%Z.
Proof.
  intros Hb Hds. revert a. induction Hds as [|d ds Hd _ IH]; intros a Ha; simpl; [lia|].
  specialize (IH (a * b + d)%Z ltac:(nia)). nia.
Qed.
Lemma parse_digits_fmt max ds acc :
  Forall (λ d, (0 ≤ d < 10)%Z) ds → (0 ≤ acc)%Z → (foldl (λ a d, (a * 10 + d)%Z) acc ds ≤ max)%Z →
  parse_digits max acc (digit_char <$> ds) = Some (foldl (λ a d, (a * 10 + d)%Z) acc ds).
Proof.
  intros Hds. revert acc. induction Hds as [|d ds Hd Hds IH]; intros acc Ha Hmax; [done|].
  rewrite fmap_cons. cbn [parse_digits foldl] in *.
  assert (digit_char d = 48 + d)%Z as -> by (unfold digit_char; destruct (Z.ltb_spec d 10); [done|lia]).
  assert (is_ascii_digit (48 + d) = true) as ->.
  { apply in_range_true. change (ch "0") with 48%Z. change (ch "9") with 57%Z. lia. }
  replace (acc * 10 + (48 + d - ch "0"))%Z with (acc * 10 + d)%Z by (change (ch "0") with 48%Z; lia).
  pose proof (from_digits_ge 10 ds (acc * 10 + d) ltac:(lia) Hds ltac:(lia)).
  rewrite (proj2 (Z.leb_le _ _)) by lia. apply IH; lia.
Qed.
Lemma parse_unsigned_fmt max n : (0 ≤ n ≤ max)%Z → parse_unsigned max (fmt_dec n) = Some n.
Proof.
  intros Hn. destruct (digits_spec 10 n) as (Hv & HF & Hne); [lia..|].
  pose proof (fmt_dec_digits n ltac:(lia)) as [Hdig Hnil].
  assert (parse_digits max 0 (fmt_dec n) = Some n) as Hp.
  { unfold fmt_dec. rewrite parse_digits_fmt; [|done|lia|]; unfold from_digits in Hv; rewrite Hv; [done|lia]. }
  unfold parse_unsigned. destruct (fmt_dec n) as [|c [|d s]] eqn:Hf; [done|done|].
  apply Forall_cons in Hdig as [Hc _]. apply in_range_true in Hc. change (ch "0") with 48%Z in Hc.
  change (ch "9") with 57%Z in Hc. change (ch "+") with 43%Z.
  destruct (Z.eqb_spec c 43); [lia|done].
Qed.

(** Digits are trimmed by nothing that does not name them. *)
Lemma digit_not_space c : is_ascii_digit c = true → is_whitespace c = false.
Proof.
  intros Hc%in_range_true. change (ch "0") with 48%Z in Hc. change (ch "9") with 57%Z in Hc.
  unfold is_whitespace, in_range. simpl. lia.
Qed.
Lemma digit_ne k c : is_ascii_digit k = false → is_ascii_digit c = true → (k =? c)%Z = false.
Proof. intros Hk Hc. apply Z.eqb_neq. congruence. Qed.
Lemma fmt_dec_ends p n : (0 ≤ n)%Z → (∀ c, is_ascii_digit c = true → p c = false) →
  head_not p (fmt_dec n) ∧ head_not p (reverse (fmt_dec n)).
Proof.
  intros Hn Hp. destruct (fmt_dec_digits n Hn) as [Hd _].
  assert (Forall (λ c, p c = false) (fmt_dec n)) by (eapply Forall_impl; [exact Hd|apply Hp]).
  split; [by apply head_not_Forall|by apply head_not_reverse].
Qed.
Lemma trim_end_snoc p s c : p c = true → trim_end_matches p (s ++ [c]) = trim_end_matches p s.
Proof. intros Hc. unfold trim_end_matches. rewrite reverse_app. simpl. by rewrite Hc. Qed.
Lemma head_not_reverse_app p s t : t ≠ [] → head_not p (reverse t) → head_not p (reverse (s ++ t)).
Proof.
  intros Ht. rewrite reverse_app. destruct (reverse t) as [|c r] eqn:Hr; [|done].
  apply (f_equal reverse) in Hr. by rewrite reverse_involutive in Hr.
Qed.

(** ** Trimming around a separator *)
Lemma eq_ignore_ascii_case_eq s t :
  eq_ignore_ascii_case s t = true ↔ to_ascii_lowercase <$> s = to_ascii_lowercase <$> t.
Proof. apply str_eqb_eq. Qed.
Lemma eq_ignore_ascii_case_cong s t u : eq_ignore_ascii_case s t = true →
  eq_ignore_ascii_case s u = eq_ignore_ascii_case t u.
Proof. intros Heq%eq_ignore_ascii_case_eq. unfold eq_ignore_ascii_case. by rewrite Heq. Qed.
Lemma trim_cons c s : is_whitespace c = true → trim (c :: s) = trim s.
Proof. intros Hc. unfold trim. simpl. by rewrite Hc. Qed.
Lemma trim_start_blank p s : Forall (λ c, p c = true) s → trim_start_matches p s = [].
Proof. induction 1 as [|c s Hc _ IH]; [done|]. simpl. by rewrite Hc. Qed.
Lemma trim_start_snoc p s c : p c = true →
  trim_start_matches p (s ++ [c]) = trim_start_matches p s ++ [c] ∨
  trim_start_matches p (s ++ [c]) = [] ∧ trim_start_matches p s = [].
Proof.
  intros Hc. induction s as [|d s IH]; simpl; [rewrite Hc; by right|]. destruct (p d); [exact IH|by left].
Qed.
Lemma trim_snoc s c : is_whitespace c = true → trim (s ++ [c]) = trim s.
Proof.
  intros Hc. unfold trim. destruct (trim_start_snoc is_whitespace s c Hc) as [->|[-> ->]]; [|done].
  by apply trim_end_snoc.
Qed.
(** A property of [f s] that ignores white space at both ends also ignores [trim]. *)
Lemma trim_ignored {A} (f : str → A) :
  (∀ c s, is_whitespace c = true → f (c :: s) = f s) → (∀ c s, is_whitespace c = true → f (s ++ [c]) = f s) →
  ∀ s, f (trim s) = f s.
Proof.
  intros Hl Hr. assert (∀ s, f (trim_start_matches is_whitespace s) = f s) as Hstart.
  { induction s as [|c s IH]; [done|]. simpl. destruct (is_whitespace c) eqn:Hc; [|done]. by rewrite Hl. }
  intros s. unfold trim. rewrite <-(Hstart s). generalize (trim_start_matches is_whitespace s) as t. clear s.
  induction t as [|c t IH] using rev_ind; [done|]. destruct (is_whitespace c) eqn:Hc.
  - by rewrite trim_end_snoc, Hr.
  - rewrite trim_end_matches_id; [done|]. rewrite reverse_app. simpl. done.
Qed.
Lemma trim_idemp s : trim (trim s) = trim s.
Proof. apply (trim_ignored trim); [by intros; apply trim_cons|by intros; apply trim_snoc]. Qed.
Lemma Forall_trim (P : Z → Prop) s : Forall P s → Forall P (trim s).
Proof. intros H. by apply Forall_trim_end_matches, Forall_trim_start_matches. Qed.
Lemma split_not_nil c s : split c s ≠ [].
Proof. destruct s as [|d s]; simpl; [done|]. destruct (d =? c)%Z; [done|]. by destruct (split c s). Qed.
Lemma split_app c s t : Forall (λ d, (d =? c)%Z = false) t → ∃ l p, split c s = l ++ [p] ∧ split c (s ++ t) = l ++ [p ++ t].
Proof.
  intros Ht. induction s as [|d s IH].
  - exists [], []. split; [done|]. simpl. induction Ht as [|d t Hd _ IH]; [done|]. simpl. by rewrite Hd, IH.
  - simpl. destruct IH as (l & p & -> & ->). destruct (d =? c)%Z; [by exists ([] :: l), p|].
    destruct l as [|q l]; simpl; [by exists [], (d :: p)|by exists ((d :: q) :: l), p].
Qed.
Lemma split_plain c s : Forall (λ d, (d =? c)%Z = false) s → split c s = [s].
Proof. induction 1 as [|d s Hd _ IH]; [done|]. simpl. by rewrite Hd, IH. Qed.
Lemma split_sep c s t : Forall (λ d, (d =? c)%Z = false) s → split c (s ++ c :: t) = s :: split c t.
Proof. induction 1 as [|d s Hd _ IH]; simpl; [by rewrite Z.eqb_refl|]. by rewrite Hd, IH. Qed.
Lemma trimmed_split c s : is_whitespace c = false → trim <$> split c (trim s) = trim <$> split c s.
Proof.
  intros Hc. revert s. apply (trim_ignored (λ s, trim <$> split c s)); intros w s Hw;
    (assert (Forall (λ d, (d =? c)%Z = false) [w]) as Hne
      by (repeat constructor; apply Z.eqb_neq; intros ->; congruence)).
  - simpl. apply Forall_cons in Hne as [-> _]. destruct (split c s) as [|p ps] eqn:Hs; [by destruct (split_not_nil c s)|].
    simpl. by rewrite trim_cons.
  - destruct (split_app c s [w] Hne) as (l & p & -> & ->). rewrite !fmap_app. simpl. by rewrite trim_snoc.
Qed.
Lemma split_once_inv c s a b : split_once c s = Some (a, b) →
  s = a ++ c :: b ∧ Forall (λ d, (c =? d)%Z = false) a.
Proof.
  unfold split_once. intros (i & Hi & [= <- <-])%bind_Some. revert i Hi.
  induction s as [|d s IH]; intros i; simpl; [done|]. destruct (Z.eqb_spec c d) as [->|Hne].
  - by intros [= <-].
  - destruct (find_char (Z.eqb c) s) as [j|] eqn:Hj; [|done]. intros [= <-]. simpl.
    destruct (IH j eq_refl) as [Heq HF]. split; [by f_equal|]. constructor; [by apply Z.eqb_neq|done].
Qed.

(** ** Words *)
Lemma join_cons sep x l : l ≠ [] → join sep (x :: l) = x ++ sep ++ join sep l.
Proof.
  destruct l as [|y l]; [done|]. intros _. unfold join. simpl.
  enough (∀ a b, foldl (λ s y, s ++ sep ++ y) (a ++ b) l = a ++ foldl (λ s y, s ++ sep ++ y) b l) as H.
  { by rewrite app_assoc, H, <-app_assoc. }
  clear. induction l as [|z l IH]; intros a b; [done|]. simpl. by rewrite <-IH, <-!app_assoc.
Qed.
Definition word (s : str) : Prop := s ≠ [] ∧ Forall (λ c, is_whitespace c = false) s.
#[export] Instance word_dec s : Decision (word s) := _.
Lemma split_whitespace_from_word acc w s : Forall (λ c, is_whitespace c = false) w →
  split_whitespace_from acc (w ++ s) = split_whitespace_from (acc ++ w) s.
Proof.
  intros Hw. revert acc. induction Hw as [|c w Hc _ IH]; intros acc; simpl; [by rewrite app_nil_r|].
  rewrite Hc, IH, <-app_assoc. done.
Qed.
Lemma split_whitespace_word w : word w → split_whitespace w = [w].
Proof.
  intros [Hne Hw]. unfold split_whitespace. rewrite <-(app_nil_r w) at 1.
  rewrite split_whitespace_from_word by done. simpl. by rewrite bool_decide_eq_false_2.
Qed.
Lemma split_whitespace_cons w s : word w → split_whitespace (w ++ ch " " :: s) = w :: split_whitespace s.
Proof.
  intros [Hne Hw]. unfold split_whitespace. rewrite split_whitespace_from_word by done. simpl.
  by rewrite bool_decide_eq_false_2.
Qed.
Lemma split_words ws : Forall word ws → split_whitespace (join (lit " ") ws) = ws.
Proof.
  induction 1 as [|w ws Hw Hws IH]; [done|].
  destruct (decide (ws = [])) as [->|Hne]; [by apply split_whitespace_word|].
  rewrite join_cons by done. change (lit " ") with [ch " "]. simpl.
  rewrite split_whitespace_cons by done. by f_equal.
Qed.
Lemma strip_prefix_app p s : strip_prefix p (p ++ s) = Some s.
Proof.
  unfold strip_prefix, starts_with. rewrite take_app_length, bool_decide_eq_true_2 by done.
  by rewrite drop_app_length.
Qed.
Lemma trim_end_word s c : is_whitespace c = false → trim_end (s ++ [c]) = s ++ [c].
Proof. intros Hc. apply trim_end_matches_id. rewrite reverse_app. exact Hc. Qed.
Lemma trim_end_blank s c : is_whitespace c = true → trim_end (s ++ [c]) = trim_end s.
Proof. apply trim_end_snoc. Qed.
