(* ===== verification/Gsm7.v ===== *)
(** * The GSM 7-bit alphabet and its packing

    Models the alphabet half of [connectivity/core/sms_codec.rs]: the basic and
    extension tables, the septet sequence of a text, the bit packing of septets
    with and without a user-data header, and the decoder.  The theorems show
    that packing never writes out of range and that the decoder inverts both
    packings. *)
From Stdlib Require Import Ascii String ZArith Lia.
From stdpp Require Import prelude.
From S2P Require Import Prelude Text.

(** ** Tables *)
Definition gsm7_basic_char (value : Z) : Z :=
  match value with
  | 0x00 => ch "@" | 0x01 => 0xa3 | 0x02 => ch "$" | 0x03 => 0xa5
  | 0x04 => 0xe8 | 0x05 => 0xe9 | 0x06 => 0xf9 | 0x07 => 0xec
  | 0x08 => 0xf2 | 0x09 => 0xc7 | 0x0a => 0x0a | 0x0b => 0xd8
  | 0x0c => 0xf8 | 0x0d => 0x0d | 0x0e => 0xc5 | 0x0f => 0xe5
  | 0x10 => 0x394 | 0x11 => ch "_" | 0x12 => 0x3a6 | 0x13 => 0x393
  | 0x14 => 0x39b | 0x15 => 0x3a9 | 0x16 => 0x3a0 | 0x17 => 0x3a8
  | 0x18 => 0x3a3 | 0x19 => 0x398 | 0x1a => 0x39e
  | 0x1c => 0xc6 | 0x1d => 0xe6 | 0x1e => 0xdf | 0x1f => 0xc9
  | 0x40 => 0xa1
  | 0x5b => 0xc4 | 0x5c => 0xd6 | 0x5d => 0xd1 | 0x5e => 0xdc | 0x5f => 0xa7
  | 0x60 => 0xbf
  | 0x7b => 0xe4 | 0x7c => 0xf6 | 0x7d => 0xf1 | 0x7e => 0xfc | 0x7f => 0xe0
  | _ =>
    if in_range 0x20 0x3f value || in_range 0x41 0x5a value || in_range 0x61 0x7a value
    then value else ch " "
  end%Z.

Definition gsm7_basic_value (c : Z) : option Z :=
  (if c =? ch "@" then Some 0x00 else if c =? 0xa3 then Some 0x01
   else if c =? ch "$" then Some 0x02 else if c =? 0xa5 then Some 0x03
   else if c =? 0xe8 then Some 0x04 else if c =? 0xe9 then Some 0x05
   else if c =? 0xf9 then Some 0x06 else if c =? 0xec then Some 0x07
   else if c =? 0xf2 then Some 0x08 else if c =? 0xc7 then Some 0x09
   else if c =? 0x0a then Some 0x0a else if c =? 0xd8 then Some 0x0b
   else if c =? 0xf8 then Some 0x0c else if c =? 0x0d then Some 0x0d
   else if c =? 0xc5 then Some 0x0e else if c =? 0xe5 then Some 0x0f
   else if c =? 0x394 then Some 0x10 else if c =? ch "_" then Some 0x11
   else if c =? 0x3a6 then Some 0x12 else if c =? 0x393 then Some 0x13
   else if c =? 0x39b then Some 0x14 else if c =? 0x3a9 then Some 0x15
   else if c =? 0x3a0 then Some 0x16 else if c =? 0x3a8 then Some 0x17
   else if c =? 0x3a3 then Some 0x18 else if c =? 0x398 then Some 0x19
   else if c =? 0x39e then Some 0x1a else if c =? 0xc6 then Some 0x1c
   else if c =? 0xe6 then Some 0x1d else if c =? 0xdf then Some 0x1e
   else if c =? 0xc9 then Some 0x1f
   else if in_range (ch " ") (ch "?") c || in_range (ch "A") (ch "Z") c
           || in_range (ch "a") (ch "z") c then Some (u8 c)
   else if c =? 0xa1 then Some 0x40 else if c =? 0xc4 then Some 0x5b
   else if c =? 0xd6 then Some 0x5c else if c =? 0xd1 then Some 0x5d
   else if c =? 0xdc then Some 0x5e else if c =? 0xa7 then Some 0x5f
   else if c =? 0xbf then Some 0x60 else if c =? 0xe4 then Some 0x7b
   else if c =? 0xf6 then Some 0x7c else if c =? 0xf1 then Some 0x7d
   else if c =? 0xfc then Some 0x7e else if c =? 0xe0 then Some 0x7f
   else None)%Z.

Definition gsm7_extension_char (value : Z) : option Z :=
  match value with
  | 0x0a => Some 0x0c
  | 0x14 => Some (ch "^")
  | 0x28 => Some (ch "{")
  | 0x29 => Some (ch "}")
  | 0x2f => Some (ch "\")
  | 0x3c => Some (ch "[")
  | 0x3d => Some (ch "~")
  | 0x3e => Some (ch "]")
  | 0x40 => Some (ch "|")
  | 0x65 => Some 0x20ac
  | _ => None
  end%Z.

Definition gsm7_extension_value (c : Z) : option Z :=
  (if c =? 0x0c then Some 0x0a
   else if c =? ch "^" then Some 0x14
   else if c =? ch "{" then Some 0x28
   else if c =? ch "}" then Some 0x29
   else if c =? ch "\" then Some 0x2f
   else if c =? ch "[" then Some 0x3c
   else if c =? ch "~" then Some 0x3d
   else if c =? ch "]" then Some 0x3e
   else if c =? ch "|" then Some 0x40
   else if c =? 0x20ac then Some 0x65
   else None)%Z.

(** ** Text to septets *)
Definition gsm7_char_septets (c : Z) : option (list Z) :=
  match gsm7_basic_value c with
  | Some v => Some [v]
  | None => v ← gsm7_extension_value c; Some [0x1b; v]%Z
  end.
Fixpoint gsm7_septets (text : str) : option (list Z) :=
  match text with
  | [] => Some []
  | c :: text =>
    s ← gsm7_char_septets c;
    rest ← gsm7_septets text;
    Some (s ++ rest)
  end.

(** ** Packing *)
Section packing.
Context {E : Type}.

Definition write_septet (out : list Z) (bit_index : nat) (septet : Z) : res E (list Z) :=
  foldM (λ out bit,
    if (Z.land septet (Z.shiftl 1 (Z.of_nat bit)) =? 0)%Z then Ok out
    else
      let target := bit_index + bit in
      update_at (λ b, Z.lor b (Z.shiftl 1 (Z.of_nat (target mod 8)))) out (target / 8))
    out (seq 0 7).

Definition write_septets (out : list Z) (offset : nat) (septets : list Z) : res E (list Z) :=
  foldM (λ out '(index, septet), write_septet out (offset + index * 7) septet)
    out (imap pair septets).

Definition encode_gsm7_user_data (text : str) : option (res E (list Z * nat)) :=
  septets ← gsm7_septets text;
  let out := replicate (div_ceil (length septets * 7) 8) 0%Z in
  Some (out ← write_septets out 0 septets; Ok (out, length septets)).

(** [out[..udh.len()].copy_from_slice(udh)] *)
Definition copy_to_front (out udh : list Z) : res E (list Z) :=
  if length udh <=? length out then Ok (udh ++ drop (length udh) out) else Panic.

Definition pack_gsm7_with_udh (udh septets : list Z) : res E (list Z) :=
  let header_septets := div_ceil (length udh * 8) 7 in
  let text_bit_offset := header_septets * 7 in
  let out := replicate (div_ceil (text_bit_offset + length septets * 7) 8) 0%Z in
  out ← copy_to_front out udh;
  write_septets out text_bit_offset septets.
End packing.

(** ** Decoding *)

(** The septet at [bit_index]: the shift and mask of the loop body. *)
Definition read_septet {E} (user_data : list Z) (bit_index : nat) : res E Z :=
  let byte_index := bit_index / 8 in
  let shift := bit_index mod 8 in
  b ← idx user_data byte_index;
  let value := Z.land (Z.shiftr b (Z.of_nat shift)) 0x7f in
  value ← (if (1 <? shift) && (byte_index + 1 <? length user_data) then
             b' ← idx user_data (byte_index + 1);
             Ok (Z.lor value (Z.land (u16 (Z.shiftl b' (8 - Z.of_nat shift))) 0x7f))
           else Ok value);
  Ok (u8 value).

(** The escape state of the loop and what it pushes. *)
Definition decode_septet (st : str * bool) (value : Z) : str * bool :=
  let '(out, escaped) := st in
  if escaped then
    (match gsm7_extension_char value with Some c => out ++ [c] | None => out end, false)
  else if (value =? 0x1b)%Z then (out, true)
  else (out ++ [gsm7_basic_char value], false).

Definition decode_gsm7_text_from_bit_offset {E}
    (user_data : list Z) (septet_count bit_offset : nat) : res E str :=
  let available_bits := length user_data * 8 in
  if available_bits <=? bit_offset then Ok []
  else
    let max_septets := (available_bits - bit_offset) / 7 in
    let count := septet_count `min` max_septets in
    st ← foldM (λ st index,
           value ← read_septet user_data (bit_offset + index * 7);
           Ok (decode_septet st value)) ([], false) (seq 0 count);
    Ok st.1.

Definition decode_gsm7_text {E} (user_data : list Z) (septet_count : nat) : res E str :=
  decode_gsm7_text_from_bit_offset user_data septet_count 0.

Definition decode_gsm7_user_data {E}
    (user_data : list Z) (udl_septets header_octets : nat) : res E str :=
  if header_octets =? 0 then decode_gsm7_text user_data udl_septets
  else
    let header_septets := div_ceil (header_octets * 8) 7 in
    if udl_septets <=? header_septets then Ok []
    else
      let text_septets := udl_septets - header_septets in
      decode_gsm7_text_from_bit_offset user_data text_septets (header_septets * 7).

(** * Bits of a byte buffer *)

Definition bit_at (l : list Z) (k : nat) : bool :=
  Z.testbit (default 0%Z (l !! (k / 8))) (Z.of_nat (k mod 8)).

Lemma byte_shiftr z : is_byte z ↔ (0 ≤ z)%Z ∧ Z.shiftr z 8 = 0%Z.
Proof.
  unfold is_byte. rewrite Z.shiftr_div_pow2 by lia. change (2 ^ 8)%Z with 256%Z. split.
  - intros H. split; [lia|]. by apply Z.div_small.
  - intros [H1 H2]. apply Z.div_small_iff in H2; lia.
Qed.
Lemma byte_lor a b : is_byte a → is_byte b → is_byte (Z.lor a b).
Proof.
  rewrite !byte_shiftr. intros [Ha Ha'] [Hb Hb'].
  rewrite Z.lor_nonneg, Z.shiftr_lor, Ha', Hb'. done.
Qed.
Lemma byte_bit j : j < 8 → is_byte (Z.shiftl 1 (Z.of_nat j)).
Proof.
  intros. rewrite Z.shiftl_1_l. unfold is_byte. split; [lia|].
  change 256%Z with (2 ^ 8)%Z. apply Z.pow_lt_mono_r; lia.
Qed.
Lemma byte_high_bit z j : is_byte z → (8 ≤ j)%Z → Z.testbit z j = false.
Proof.
  intros Hz Hj. rewrite byte_shiftr in Hz. destruct Hz as [_ Hz].
  replace j with ((j - 8) + 8)%Z by lia. rewrite <-Z.shiftr_spec, Hz by lia. apply Z.bits_0.
Qed.
Lemma testbit_one_shl i j : (0 ≤ i)%Z → (0 ≤ j)%Z → Z.testbit (Z.shiftl 1 i) j = (i =? j)%Z.
Proof. intros. rewrite Z.shiftl_1_l. by apply Z.pow2_bits_eqb. Qed.

Lemma divmod8_eq k t : k / 8 = t / 8 → k mod 8 = t mod 8 → k = t.
Proof. intros. rewrite (Nat.div_mod_eq k 8), (Nat.div_mod_eq t 8). lia. Qed.

(** Setting one bit of the buffer. *)
Lemma update_bit {E} (out : list Z) t : t / 8 < length out → bytes_ok out →
  ∃ out', update_at (E:=E) (λ b, Z.lor b (Z.shiftl 1 (Z.of_nat (t mod 8)))) out (t / 8) = Ok out'
    ∧ length out' = length out ∧ bytes_ok out'
    ∧ ∀ k, bit_at out' k = bit_at out k || (k =? t).
Proof.
  intros Hlt Hb. destruct (idx_lt (E:=E) out (t / 8) Hlt) as (x & Hx & Hi).
  unfold update_at. rewrite Hi. simpl. eexists. split; [done|].
  split; [by rewrite length_insert|]. split.
  { apply Forall_insert; [done|]. apply byte_lor; [by eapply bytes_ok_lookup|].
    apply byte_bit. pose proof (Nat.mod_upper_bound t 8). lia. }
  intros k. unfold bit_at. destruct (decide (k / 8 = t / 8)) as [He|Hne].
  - rewrite He, list_lookup_insert_eq, Hx by done. simpl.
    rewrite Z.lor_spec, testbit_one_shl by lia. f_equal.
    destruct (Nat.eqb_spec k t) as [->|Hkt]; [apply Z.eqb_refl|].
    apply Z.eqb_neq. intros He2%Nat2Z.inj. by apply Hkt, divmod8_eq.
  - rewrite list_lookup_insert_ne by done.
    destruct (Nat.eqb_spec k t) as [->|]; [done|]. by rewrite orb_false_r.
Qed.

Definition septet_bits (offset : nat) (s : list Z) (k : nat) : bool :=
  (offset <=? k) && (k <? offset + 7 * length s) &&
  Z.testbit (default 0%Z (s !! ((k - offset) / 7))) (Z.of_nat ((k - offset) mod 7)).

(** A written buffer: same length, still bytes, the old bits or-ed with [bits]. *)
Definition written (out : list Z) (bits : nat → bool) (out' : list Z) : Prop :=
  length out' = length out ∧ bytes_ok out' ∧ ∀ k, bit_at out' k = bit_at out k || bits k.

Lemma land_bit z j : (0 ≤ j)%Z → (Z.land z (Z.shiftl 1 j) =? 0)%Z = negb (Z.testbit z j).
Proof.
  intros Hj. rewrite Z.shiftl_1_l. destruct (Z.testbit z j) eqn:Hz; simpl.
  - apply Z.eqb_neq. intros H0. assert (Z.testbit (Z.land z (2 ^ j)) j = false) as Hf
      by (rewrite H0; apply Z.bits_0).
    rewrite Z.land_spec, Hz, Z.pow2_bits_true in Hf; done.
  - apply Z.eqb_eq, Z.bits_inj'. intros n Hn. rewrite Z.land_spec, Z.bits_0, Z.pow2_bits_eqb by done.
    destruct (Z.eqb_spec j n) as [->|]; [by rewrite Hz|by rewrite andb_false_r].
Qed.

Lemma write_septet_ok {E} (out : list Z) b s :
  b + 7 ≤ 8 * length out → bytes_ok out →
  ∃ out', write_septet (E:=E) out b s = Ok out' ∧
    written out (λ k, (b <=? k) && (k <? b + 7) && Z.testbit s (Z.of_nat (k - b))) out'.
Proof.
  intros Hb Hbytes. unfold write_septet.
  set (f := λ _ _, _).
  assert (∀ n, n ≤ 7 → ∃ out', foldM f out (seq 0 n) = Ok out' ∧
    written out (λ k, (b <=? k) && (k <? b + n) && Z.testbit s (Z.of_nat (k - b))) out') as Hn;
    [|by apply Hn].
  induction n as [|n IH]; intros Hn.
  { exists out. split; [done|]. split_and!; [done..|]. intros k.
    destruct (Nat.leb_spec b k), (Nat.ltb_spec k (b + 0)); simpl; try lia; by rewrite orb_false_r. }
  destruct IH as (out1 & Hf & Hl & Hby & Hbits); [lia|].
  rewrite seq_S, foldM_app, Hf. simpl. unfold f at 1. rewrite land_bit by lia.
  destruct (Z.testbit s (Z.of_nat n)) eqn:Hs; simpl.
  - destruct (update_bit (E:=E) out1 (b + n)) as (out2 & Hu & Hl2 & Hby2 & Hbits2); [|done|].
    { rewrite Hl. apply Nat.Div0.div_lt_upper_bound. lia. }
    rewrite Hu. simpl. exists out2. split; [done|]. split_and!; [lia|done|]. intros k.
    rewrite Hbits2, Hbits. destruct (Nat.eqb_spec k (b + n)) as [->|Hk].
    + replace (b + n - b) with n by lia. rewrite Hs, orb_true_r.
      rewrite (proj2 (Nat.leb_le b (b + n))), (proj2 (Nat.ltb_lt (b + n) (b + S n))) by lia.
      simpl. by rewrite orb_true_r.
    + rewrite orb_false_r. f_equal. f_equal. f_equal.
      destruct (Nat.ltb_spec k (b + n)), (Nat.ltb_spec k (b + S n)); try done; lia.
  - exists out1. split; [done|]. split_and!; [done..|]. intros k. rewrite Hbits. f_equal.
    destruct (decide (k = b + n)) as [->|Hk].
    + replace (b + n - b) with n by lia. by rewrite Hs, !andb_false_r.
    + f_equal. f_equal.
      destruct (Nat.ltb_spec k (b + n)), (Nat.ltb_spec k (b + S n)); try done; lia.
Qed.

Lemma septet_bits_snoc offset s x k :
  septet_bits offset (s ++ [x]) k =
    septet_bits offset s k ||
    ((offset + length s * 7 <=? k) && (k <? offset + length s * 7 + 7) &&
     Z.testbit x (Z.of_nat (k - (offset + length s * 7)))).
Proof.
  unfold septet_bits. rewrite length_app. cbn [length].
  destruct (Nat.leb_spec offset k) as [Hk|Hk]; cbn [andb].
  2:{ destruct (Nat.leb_spec (offset + length s * 7) k); [lia|done]. }
  destruct (Nat.ltb_spec k (offset + 7 * length s)) as [Hk2|Hk2].
  - destruct (Nat.ltb_spec k (offset + 7 * (length s + 1))); [|lia].
    destruct (Nat.leb_spec (offset + length s * 7) k); [lia|]. cbn [andb].
    rewrite orb_false_r, lookup_app_l; [done|]. apply Nat.Div0.div_lt_upper_bound. lia.
  - destruct (Nat.leb_spec (offset + length s * 7) k); [|lia]. cbn [andb orb].
    replace (offset + 7 * (length s + 1)) with (offset + length s * 7 + 7) by lia.
    destruct (Nat.ltb_spec k (offset + length s * 7 + 7)); cbn [andb]; [|done].
    set (r := k - (offset + length s * 7)).
    replace (k - offset) with (r + length s * 7) by lia.
    rewrite Nat.div_add, Nat.Div0.mod_add by lia.
    rewrite Nat.div_small, Nat.mod_small, Nat.add_0_l, list_lookup_middle by lia. done.
Qed.

Lemma write_septets_ok {E} (out : list Z) offset s :
  offset + 7 * length s ≤ 8 * length out → bytes_ok out →
  ∃ out', write_septets (E:=E) out offset s = Ok out' ∧ written out (septet_bits offset s) out'.
Proof.
  intros Hlen Hb. unfold write_septets.
  induction s as [|x s IH] using rev_ind.
  { exists out. split; [done|]. split_and!; [done..|]. intros k. unfold septet_bits. simpl.
    destruct (Nat.leb_spec offset k), (Nat.ltb_spec k (offset + 0)); simpl; try lia;
      by rewrite orb_false_r. }
  rewrite length_app in Hlen. simpl in Hlen.
  destruct IH as (out1 & Hf & Hl & Hby & Hbits); [lia|].
  rewrite imap_app, foldM_app, Hf. simpl. rewrite Nat.add_0_r.
  destruct (write_septet_ok (E:=E) out1 (offset + length s * 7) x)
    as (out2 & Hw & Hl2 & Hby2 & Hbits2); [lia|done|].
  rewrite Hw. simpl. exists out2. split; [done|]. split_and!; [lia|done|]. intros k.
  by rewrite Hbits2, Hbits, septet_bits_snoc, orb_assoc.
Qed.

Lemma bit_at_zeros n k : bit_at (replicate n 0%Z) k = false.
Proof.
  unfold bit_at. destruct (replicate n 0%Z !! (k / 8)) as [z|] eqn:Hz; simpl; [|apply Z.bits_0].
  apply lookup_replicate in Hz as [-> _]. apply Z.bits_0.
Qed.
Lemma bytes_ok_zeros n : bytes_ok (replicate n 0%Z).
Proof. apply Forall_replicate. unfold is_byte. lia. Qed.

(** ** Reading septets *)

Lemma z7_bits a b :
  (0 ≤ a < 128)%Z → (0 ≤ b < 128)%Z →
  (∀ j, j < 7 → Z.testbit a (Z.of_nat j) = Z.testbit b (Z.of_nat j)) → a = b.
Proof.
  intros Ha Hb Hj. apply Z.bits_inj'. intros n Hn.
  destruct (decide (n < 7)%Z) as [Hlt|Hge].
  - rewrite <-(Z2Nat.id n) by done. apply Hj. lia.
  - assert (∀ z, (0 ≤ z < 128)%Z → Z.testbit z n = false) as Hz; [|by rewrite !Hz].
    intros z Hz. rewrite <-(Z.mod_small z (2 ^ 7)) by (simpl; lia).
    apply Z.mod_pow2_bits_high. lia.
Qed.

Lemma land_7f_range z : (0 ≤ Z.land z 0x7f < 128)%Z.
Proof.
  change 0x7f%Z with (Z.ones 7). rewrite Z.land_ones by lia.
  change (2 ^ 7)%Z with 128%Z. apply Z.mod_pos_bound. lia.
Qed.
Lemma land_7f_bit z j : j < 7 → Z.testbit (Z.land z 0x7f) (Z.of_nat j) = Z.testbit z (Z.of_nat j).
Proof.
  intros. change 0x7f%Z with (Z.ones 7). rewrite Z.land_spec, Z.ones_spec_low, andb_true_r by lia.
  done.
Qed.
Lemma lor_7f_range a b :
  (0 ≤ a < 128)%Z → (0 ≤ b < 128)%Z → (0 ≤ Z.lor a b < 128)%Z.
Proof.
  intros Ha Hb. rewrite <-(Z.mod_small a 128), <-(Z.mod_small b 128) by lia.
  change 128%Z with (2 ^ 7)%Z. rewrite <-!Z.land_ones, <-Z.land_lor_distr_l by lia.
  apply land_7f_range.
Qed.

Lemma bit_at_split o j :
  (o mod 8 + j < 8 → (o + j) / 8 = o / 8 ∧ (o + j) mod 8 = o mod 8 + j) ∧
  (8 ≤ o mod 8 + j → j < 8 → (o + j) / 8 = o / 8 + 1 ∧ (o + j) mod 8 = o mod 8 + j - 8).
Proof.
  pose proof (Nat.div_mod_eq o 8) as Ho. pose proof (Nat.mod_upper_bound o 8 ltac:(lia)).
  split; intros; split; symmetry.
  - apply (Nat.div_unique _ _ _ (o mod 8 + j)); lia.
  - apply (Nat.mod_unique _ _ (o / 8)); lia.
  - apply (Nat.div_unique _ _ _ (o mod 8 + j - 8)); lia.
  - apply (Nat.mod_unique _ _ (o / 8 + 1)); lia.
Qed.

Lemma read_septet_ok {E} data o :
  o + 7 ≤ 8 * length data → bytes_ok data →
  ∃ v, read_septet (E:=E) data o = Ok v ∧ (0 ≤ v < 128)%Z ∧
    ∀ j, j < 7 → Z.testbit v (Z.of_nat j) = bit_at data (o + j).
Proof.
  intros Hlen Hb. unfold read_septet.
  pose proof (Nat.div_mod_eq o 8) as Ho. pose proof (Nat.mod_upper_bound o 8 ltac:(lia)) as Hs.
  destruct (idx_lt (E:=E) data (o / 8)) as (x & Hx & ->); [lia|]. simpl.
  set (s := o mod 8) in *. set (q := o / 8) in *.
  assert (is_byte x) as Hxb by by eapply bytes_ok_lookup.
  destruct (Nat.ltb_spec 1 s) as [Hs1|Hs1]; simpl.
  - destruct (idx_lt (E:=E) data (q + 1)) as (y & Hy & ->); [lia|].
    rewrite (proj2 (Nat.ltb_lt (q + 1) (length data))) by lia. simpl.
    assert (is_byte y) as Hyb by by eapply bytes_ok_lookup.
    pose proof (lor_7f_range _ _ (land_7f_range (Z.shiftr x (Z.of_nat s)))
      (land_7f_range (u16 (Z.shiftl y (8 - Z.of_nat s))))) as Hr.
    eexists. split; [done|]. rewrite (wrap_small 8) by (simpl; lia).
    split; [done|]. intros j Hj.
    rewrite Z.lor_spec, !land_7f_bit, Z.shiftr_spec by lia.
    unfold wrap. rewrite Z.mod_pow2_bits_low, Z.shiftl_spec by lia. unfold bit_at.
    destruct (decide (s + j < 8)) as [Hlt|Hge].
    + destruct (proj1 (bit_at_split o j)) as [-> ->]; [done|]. fold s q. rewrite Hx. simpl.
      rewrite (Z.testbit_neg_r y), orb_false_r by lia. f_equal. lia.
    + destruct (proj2 (bit_at_split o j)) as [-> ->]; [lia..|]. fold s q. rewrite Hy. simpl.
      rewrite byte_high_bit by (done || lia). simpl. f_equal. lia.
  - pose proof (land_7f_range (Z.shiftr x (Z.of_nat s))) as Hr.
    eexists. split; [done|]. rewrite (wrap_small 8) by (simpl; lia).
    split; [done|]. intros j Hj. rewrite land_7f_bit, Z.shiftr_spec by lia. unfold bit_at.
    destruct (proj1 (bit_at_split o j)) as [-> ->]; [lia|]. fold s q. rewrite Hx. simpl.
    f_equal. lia.
Qed.

(** The decoder reads back any septets whose bits are in the buffer. *)
Lemma decode_bits {E} data o s :
  o + 7 * length s ≤ 8 * length data → bytes_ok data → Forall (λ v, (0 ≤ v < 128)%Z) s →
  (∀ k, o ≤ k < o + 7 * length s → bit_at data k = septet_bits o s k) →
  decode_gsm7_text_from_bit_offset (E:=E) data (length s) o =
    Ok (foldl decode_septet ([], false) s).1.
Proof.
  intros Hlen Hb Hs Hbits. unfold decode_gsm7_text_from_bit_offset.
  destruct (Nat.leb_spec (length data * 8) o) as [Hle|Hlt].
  { destruct s; [done|]. cbn [length] in Hlen. lia. }
  rewrite Nat.min_l by (apply Nat.div_le_lower_bound; lia).
  set (f := λ st index, _).
  assert (∀ n, n ≤ length s →
    foldM f ([], false) (seq 0 n) = Ok (foldl decode_septet ([], false) (take n s))) as Hn.
  { induction n as [|n IH]; intros Hn; [by rewrite take_0|].
    destruct (lookup_lt_is_Some_2 s n) as [v Hv]; [lia|].
    rewrite seq_S, foldM_app, IH by lia. simpl.
    erewrite take_S_r by done. rewrite foldl_app. simpl.
    assert (read_septet data (o + n * 7) = Ok (E:=E) v) as Hrd.
    { destruct (read_septet_ok (E:=E) data (o + n * 7)) as (w & -> & Hw & Hj); [lia|done|].
      f_equal. apply z7_bits; [done|by apply (Forall_lookup_1 _ _ _ _ Hs Hv)|].
      intros j Hj7. rewrite Hj, Hbits by lia. unfold septet_bits.
      replace (o + n * 7 + j - o) with (j + n * 7) by lia.
      rewrite Nat.div_add, Nat.Div0.mod_add, Nat.div_small, Nat.mod_small by lia.
      rewrite Nat.add_0_l, Hv. simpl.
      rewrite (proj2 (Nat.leb_le o _)), (proj2 (Nat.ltb_lt _ (o + 7 * length s))) by lia. done. }
    unfold f. by rewrite Hrd. }
  rewrite Hn by lia. simpl. by rewrite firstn_all.
Qed.

(** ** Tables *)

Lemma gsm7_basic_table c v :
  gsm7_basic_value c = Some v → gsm7_basic_char v = c ∧ v ≠ 0x1b%Z ∧ (0 ≤ v < 128)%Z.
Proof.
  unfold gsm7_basic_value.
  repeat match goal with
  | |- context [if (?a =? ?b)%Z then _ else _] => destruct (Z.eqb_spec a b) as [->|?];
      [by intros [= <-]|]
  | |- context [if ?r || ?r' || ?r'' then _ else _] => destruct (r || r' || r'') eqn:Hr
  end; [|done].
  intros [= <-]. rewrite !orb_true_iff, !in_range_true in Hr.
  change (ch " ") with 32%Z in Hr. change (ch "?") with 63%Z in Hr.
  change (ch "A") with 65%Z in Hr. change (ch "Z") with 90%Z in Hr.
  change (ch "a") with 97%Z in Hr. change (ch "z") with 122%Z in Hr.
  rewrite (wrap_small 8) by (simpl; lia). split; [|lia].
  assert (forallb (λ v, negb (in_range 32 63 v || in_range 65 90 v || in_range 97 122 v)
    || (gsm7_basic_char v =? v)%Z) (Z.of_nat <$> seq 0 128) = true) as Hall by by vm_compute.
  rewrite List.forallb_forall in Hall. specialize (Hall c).
  rewrite orb_true_iff, negb_true_iff, !orb_false_iff, !in_range_false, Z.eqb_eq in Hall.
  destruct Hall; [|lia|done]. apply in_map_iff. exists (Z.to_nat c).
  rewrite in_seq. lia.
Qed.

Lemma gsm7_extension_table c v :
  gsm7_extension_value c = Some v → gsm7_extension_char v = Some c ∧ (0 ≤ v < 128)%Z.
Proof.
  unfold gsm7_extension_value.
  repeat match goal with
  | |- context [if (?a =? ?b)%Z then _ else _] => destruct (Z.eqb_spec a b) as [->|?];
      [by intros [= <-]|]
  end; done.
Qed.

Lemma gsm7_char_septets_decode c s out :
  gsm7_char_septets c = Some s →
  foldl decode_septet (out, false) s = (out ++ [c], false) ∧ Forall (λ v, (0 ≤ v < 128)%Z) s
  ∧ 1 ≤ length s ≤ 2.
Proof.
  unfold gsm7_char_septets. destruct (gsm7_basic_value c) as [v|] eqn:Hv.
  - apply gsm7_basic_table in Hv as (Hc & Hne & Hr). intros [= <-]. simpl.
    destruct (Z.eqb_spec v 27) as [|]; [done|]. rewrite Hc. split; [done|]. split; [|simpl; lia]. by apply Forall_singleton.
  - destruct (gsm7_extension_value c) as [w|] eqn:Hw; simpl; [|done].
    apply gsm7_extension_table in Hw as (Hc & Hr). intros [= <-]. simpl. rewrite Hc.
    split; [done|]. split; [|simpl; lia]. apply Forall_cons. split; [lia|]. by apply Forall_singleton.
Qed.

Lemma gsm7_septets_decode t s out :
  gsm7_septets t = Some s →
  foldl decode_septet (out, false) s = (out ++ t, false) ∧ Forall (λ v, (0 ≤ v < 128)%Z) s.
Proof.
  revert s out. induction t as [|c t IH]; intros s out; simpl.
  { intros [= <-]. by rewrite app_nil_r. }
  destruct (gsm7_char_septets c) as [s1|] eqn:H1; simpl; [|done].
  destruct (gsm7_septets t) as [s2|] eqn:H2; simpl; [|done]. intros [= <-].
  destruct (gsm7_char_septets_decode c s1 out H1) as (Hf & HF & _).
  destruct (IH s2 (out ++ [c]) eq_refl) as (Hf2 & HF2).
  rewrite foldl_app, Hf, Hf2, <-app_assoc. split; [done|]. by apply Forall_app.
Qed.

Lemma gsm7_septets_app t1 t2 :
  gsm7_septets (t1 ++ t2) = (s1 ← gsm7_septets t1; s2 ← gsm7_septets t2; Some (s1 ++ s2)).
Proof.
  induction t1 as [|c t1 IH]; simpl; [by destruct (gsm7_septets t2)|]. rewrite IH.
  destruct (gsm7_char_septets c); simpl; [|done].
  destruct (gsm7_septets t1); simpl; [|done].
  destruct (gsm7_septets t2); simpl; [|done]. by rewrite app_assoc.
Qed.

(** ** Packing never fails, and decodes back *)

Lemma div_ceil_le n d : d ≠ 0 → n ≤ d * div_ceil n d.
Proof.
  intros. unfold div_ceil. pose proof (Nat.div_mod_eq (n + d - 1) d).
  pose proof (Nat.mod_upper_bound (n + d - 1) d). lia.
Qed.
Lemma div_ceil_lt n d : d ≠ 0 → d * div_ceil n d < n + d.
Proof. intros. unfold div_ceil. pose proof (Nat.div_mod_eq (n + d - 1) d). lia. Qed.
Lemma div_ceil_mono n m d : n ≤ m → div_ceil n d ≤ div_ceil m d.
Proof. intros. unfold div_ceil. apply Nat.Div0.div_le_mono. lia. Qed.

Lemma encode_gsm7_user_data_ok {E} t s :
  gsm7_septets t = Some s →
  ∃ out, encode_gsm7_user_data (E:=E) t = Some (Ok (out, length s)) ∧
    length out = div_ceil (length s * 7) 8 ∧ bytes_ok out ∧
    ∀ k, bit_at out k = septet_bits 0 s k.
Proof.
  intros Hs. unfold encode_gsm7_user_data. rewrite Hs. simpl.
  pose proof (div_ceil_le (length s * 7) 8 ltac:(done)) as Hle.
  destruct (write_septets_ok (E:=E) (replicate (div_ceil (length s * 7) 8) 0%Z) 0 s)
    as (out & -> & Hl & Hb & Hbits).
  { rewrite length_replicate. lia. }
  { apply bytes_ok_zeros. }
  exists out. simpl. rewrite length_replicate in Hl. split_and!; [done..|].
  intros k. by rewrite Hbits, bit_at_zeros.
Qed.

Lemma bit_at_app_l l k i : i < 8 * length l → bit_at (l ++ k) i = bit_at l i.
Proof.
  intros. unfold bit_at. rewrite lookup_app_l; [done|]. apply Nat.Div0.div_lt_upper_bound. lia.
Qed.
Lemma bit_at_zeros_tail l n i : 8 * length l ≤ i → bit_at (l ++ replicate n 0%Z) i = false.
Proof.
  intros. unfold bit_at. rewrite lookup_app_r by (apply Nat.div_le_lower_bound; lia).
  destruct (replicate n 0%Z !! _) as [z|] eqn:Hz; simpl; [|apply Z.bits_0].
  apply lookup_replicate in Hz as [-> _]. apply Z.bits_0.
Qed.

Lemma pack_gsm7_with_udh_ok {E} udh s :
  bytes_ok udh →
  ∃ out, pack_gsm7_with_udh (E:=E) udh s = Ok out ∧
    length out = div_ceil (div_ceil (length udh * 8) 7 * 7 + length s * 7) 8 ∧ bytes_ok out ∧
    take (length udh) out = udh ∧
    ∀ k, div_ceil (length udh * 8) 7 * 7 ≤ k →
      bit_at out k = septet_bits (div_ceil (length udh * 8) 7 * 7) s k.
Proof.
  intros Hudh. unfold pack_gsm7_with_udh. set (o := div_ceil (length udh * 8) 7 * 7).
  pose proof (div_ceil_le (length udh * 8) 7 ltac:(done)) as Hle.
  pose proof (div_ceil_le (o + length s * 7) 8 ltac:(done)) as Hle2.
  set (n := div_ceil (o + length s * 7) 8) in *. unfold copy_to_front.
  rewrite length_replicate, (proj2 (Nat.leb_le (length udh) n)) by lia. simpl.
  rewrite drop_replicate.
  destruct (write_septets_ok (E:=E) (udh ++ replicate (n - length udh) 0%Z) o s)
    as (out & -> & Hl & Hb & Hbits).
  { rewrite length_app, length_replicate. lia. }
  { apply bytes_ok_app. split; [done|apply bytes_ok_zeros]. }
  rewrite length_app, length_replicate in Hl. exists out. split; [done|].
  split; [lia|]. split; [done|]. split.
  - apply list_eq_same_length with (length udh);
      [done|rewrite length_take; lia|]. intros i x y Hi Hx Hy.
    rewrite lookup_take in Hx. case_decide; [|done].
    pose proof (bytes_ok_lookup _ _ _ Hb Hx) as Hbx.
    pose proof (bytes_ok_lookup _ _ _ Hudh Hy) as Hby.
    apply Z.bits_inj'. intros j Hj. destruct (decide (j < 8)%Z) as [Hj8|].
    2:{ by rewrite !byte_high_bit by (done || lia). }
    specialize (Hbits (i * 8 + Z.to_nat j)).
    rewrite bit_at_app_l in Hbits by lia.
    unfold septet_bits in Hbits. rewrite (proj2 (Nat.leb_gt o _)) in Hbits by lia.
    unfold bit_at in Hbits. rewrite (Nat.add_comm (i * 8)), Nat.div_add, Nat.Div0.mod_add in Hbits by lia.
    rewrite Nat.div_small, Nat.mod_small, Nat.add_0_l, Hx, Hy in Hbits by lia. simpl in Hbits.
    rewrite Z2Nat.id, orb_false_r in Hbits by lia. done.
  - intros k Hk. rewrite Hbits, bit_at_zeros_tail by lia. done.
Qed.

(** ** Reading never goes out of range, whatever the buffer holds *)

Lemma no_panic_read_septet {E} data o :
  o + 7 ≤ 8 * length data → no_panic (read_septet (E:=E) data o).
Proof.
  intros Hlen. unfold read_septet. pose proof (Nat.div_mod_eq o 8).
  pose proof (Nat.mod_upper_bound o 8). np.
Qed.

Lemma no_panic_decode_gsm7_text_from_bit_offset {E} data n o :
  no_panic (decode_gsm7_text_from_bit_offset (E:=E) data n o).
Proof.
  unfold decode_gsm7_text_from_bit_offset. case_match; bool_prop; [done|].
  apply no_panic_bind; [|done].
  apply (foldM_inv (λ _, True)); [done|]. intros st i _ Hi%elem_of_seq. split; [|done].
  apply no_panic_bind; [|done]. apply no_panic_read_septet.
  pose proof (Nat.div_mod_eq (length data * 8 - o) 7). nia.
Qed.
#[export] Hint Resolve no_panic_decode_gsm7_text_from_bit_offset : rust.

Lemma no_panic_decode_gsm7_user_data {E} data udl h :
  no_panic (decode_gsm7_user_data (E:=E) data udl h).
Proof. unfold decode_gsm7_user_data, decode_gsm7_text. np. Qed.
#[export] Hint Resolve no_panic_decode_gsm7_user_data : rust.
