(* ===== verification/SmsCodec.v ===== *)
(** * SMS transfer layer: RP-DATA, SMS-SUBMIT, SMS-DELIVER and modem PDUs

    Models the codec half of [connectivity/core/sms_codec.rs]: building
    mobile-originated submissions (one part or concatenated), parsing
    mobile-terminated RP-DATA, modem deliver PDUs and status reports.  The
    message counter and the clock are explicit arguments; calendar arithmetic is
    the [Chrono] interface of the external [chrono] crate. *)
From Stdlib Require Import Ascii String ZArith Lia.
From stdpp Require Import prelude.
From S2P Require Import Prelude Text Gsm7.

Inductive SmsEncodingError :=
| EmptyRecipient | EmptyText | InvalidAddress | TextTooLong | BodyTooLong.
#[export] Instance SmsEncodingError_eq_dec : EqDecision SmsEncodingError.
Proof. solve_decision. Defined.

Abbreviation sms := (res SmsEncodingError).

Inductive RpduAckState := RpNone | RpAcked | RpError.
#[export] Instance RpduAckState_eq_dec : EqDecision RpduAckState.
Proof. solve_decision. Defined.

Record MoSmsSubmission := mkMoSmsSubmission {
  mo_trace_id : str;
  mo_message_id : str;
  mo_rp_message_reference : Z;
  mo_part_index : Z;
  mo_part_count : Z;
  mo_body : list Z;
  mo_body_bytes : nat;
  mo_text_utf16_units : nat;
}.

Record MtSmsDeliver := mkMtSmsDeliver {
  mt_rp_message_reference : Z;
  mt_originator : str;
  mt_text : str;
  mt_user_data_bytes : nat;
  mt_service_center_timestamp : str;
  mt_segment_reference : option Z;
  mt_segment_sequence : Z;
  mt_segment_total : Z;
}.

Definition is_duplicate_delivery (a b : MtSmsDeliver) : bool :=
  str_eqb (mt_originator a) (mt_originator b)
  && str_eqb (mt_text a) (mt_text b)
  && str_eqb (mt_service_center_timestamp a) (mt_service_center_timestamp b)
  && bool_decide (mt_segment_reference a = mt_segment_reference b)
  && (mt_segment_sequence a =? mt_segment_sequence b)%Z
  && (mt_segment_total a =? mt_segment_total b)%Z.

(** ** The [chrono] crate *)
Class Chrono := {
  FixedOffset : Type;
  DateTime : Type;
  (** [FixedOffset::east_opt] *)
  east_opt : Z → option FixedOffset;
  (** [offset.with_ymd_and_hms(..).single()] *)
  with_ymd_and_hms : FixedOffset → Z → Z → Z → Z → Z → Z → option DateTime;
  (** [t.with_timezone(&Utc).to_rfc3339_opts(SecondsFormat::Secs, true)] *)
  to_utc_rfc3339 : DateTime → str;
}.

(** ** Alphabets *)
Inductive SmsAlphabet := AlphaGsm7 | AlphaBinary | AlphaUcs2.
#[export] Instance SmsAlphabet_eq_dec : EqDecision SmsAlphabet.
Proof. solve_decision. Defined.

Definition sms_alphabet_for_dcs (dcs : Z) : SmsAlphabet :=
  let group := Z.shiftr dcs 4 in
  (if in_range 0x0 0x3 group then
     if negb (Z.land dcs 0x20 =? 0) then AlphaBinary
     else let m := Z.land (Z.shiftr dcs 2) 0x03 in
          if m =? 0x00 then AlphaGsm7
          else if m =? 0x01 then AlphaBinary
          else if m =? 0x02 then AlphaUcs2
          else AlphaBinary
   else if (group =? 0x0c) || (group =? 0x0d) then AlphaGsm7
   else if group =? 0x0e then AlphaUcs2
   else if (group =? 0x0f) && (Z.land dcs 0x04 =? 0) then AlphaGsm7
   else AlphaBinary)%Z.

(** ** Addresses *)
Record NormalizedAddressDigits := { digits_of : str; international : bool }.

Definition normalized_address_digits (address : str) : sms NormalizedAddressDigits :=
  let trimmed := trim address in
  '(ds, intl) ← foldM (λ '(ds, intl) '(index, c),
      if (c =? ch "+")%Z && (index =? 0) then Ok (ds, true)
      else if is_ascii_digit c then Ok (ds ++ [c], intl)
      else if existsb (Z.eqb c) [ch " "; ch "-"; ch "("; ch ")"] then Ok (ds, intl)
      else Err InvalidAddress) ([], false) (imap pair trimmed);
  fail_if (bool_decide (ds = []) || (20 <? length ds)) InvalidAddress;;
  Ok {| digits_of := ds; international := intl |}.

Fixpoint encode_semi_octets (digits : str) : list Z :=
  match digits with
  | [] => []
  | [first] => [Z.lor (first - ch "0") (Z.shiftl 0x0f 4)]%Z
  | first :: second :: rest =>
    (Z.lor (first - ch "0") (Z.shiftl (second - ch "0") 4))%Z :: encode_semi_octets rest
  end.

Definition encode_address_value (address : str) : sms (list Z) :=
  normalized ← normalized_address_digits address;
  Ok ((if international normalized then 0x91%Z else 0x81%Z)
      :: encode_semi_octets (digits_of normalized)).

Definition address_value_octets (address_length_semi_octets : nat) : nat :=
  div_ceil address_length_semi_octets 2.
Definition address_type_is_alphanumeric (ton_npi : Z) : bool := (Z.land ton_npi 0x70 =? 0x50)%Z.
Definition address_type_is_international (ton_npi : Z) : bool := (Z.land ton_npi 0x70 =? 0x10)%Z.

Definition address_nibble_char (nibble : Z) : Z :=
  (if in_range 0x00 0x09 nibble then ch "0" + nibble
   else if nibble =? 0x0a then ch "*"
   else if nibble =? 0x0b then ch "#"
   else if nibble =? 0x0c then ch "a"
   else if nibble =? 0x0d then ch "b"
   else if nibble =? 0x0e then ch "c"
   else ch " ")%Z.

(** [flat_map(|b| [b & 0x0f, b >> 4])] *)
Definition nibbles (value : list Z) : list Z :=
  value ≫= λ byte, [Z.land byte 0x0f; Z.shiftr byte 4].

Definition decode_address_value {E}
    (ton_npi : Z) (value : list Z) (address_length_semi_octets : nat) : res E str :=
  if address_type_is_alphanumeric ton_npi then
    let septet_count := address_length_semi_octets * 4 / 7 in
    decode_gsm7_text value septet_count
  else
    let out := if address_type_is_international ton_npi then [ch "+"] else [] in
    Ok (foldl (λ out nibble,
          if (address_length_semi_octets <=? length (trim_start_matches (Z.eqb (ch "+")) out))
             || (nibble =? 0x0f)%Z
          then out else out ++ [address_nibble_char nibble]) out (nibbles value)).

(** ** Time stamps *)
Definition swapped_bcd (value : Z) : option Z :=
  let tens := Z.land value 0x0f in
  let units := Z.shiftr value 4 in
  if ((tens <=? 9) && (units <=? 9))%Z then Some (tens * 10 + units)%Z else None.

Definition decode_service_center_timestamp `{Chrono} (data : list Z) : option str :=
  match data with
  | [year; month; day; hour; minute; second; timezone] =>
    year ← swapped_bcd year;
    let year := (if 90 <=? year then 1900 + year else 2000 + year)%Z in
    month ← swapped_bcd month;
    day ← swapped_bcd day;
    hour ← swapped_bcd hour;
    minute ← swapped_bcd minute;
    second ← swapped_bcd second;
    let timezone_low := Z.land timezone 0x0f in
    let timezone_high := Z.shiftr timezone 4 in
    if ((9 <? timezone_high) || (9 <? Z.land timezone_low 0x07))%Z then None
    else
      let quarter_hours := u8 (Z.land timezone_low 0x07 * 10 + timezone_high) in
      let direction := (if Z.land timezone_low 0x08 =? 0 then 1 else -1)%Z in
      source_offset ← east_opt (direction * quarter_hours * 15 * 60)%Z;
      timestamp ← with_ymd_and_hms source_offset year month day hour minute second;
      Some (to_utc_rfc3339 timestamp)
  | _ => None
  end.

Definition hex_lower (data : list Z) : str := data ≫= fmt_byte.

(** ** User-data header *)
Record SmsSegmentInfo := mkSegment {
  seg_reference : option Z;
  seg_sequence : Z;
  seg_total : Z;
}.
Definition SmsSegmentInfo_single : SmsSegmentInfo := mkSegment None 1 1.

Record SmsUserDataHeader := mkHeader {
  segment : SmsSegmentInfo;
  header_octets : nat;
}.
Definition SmsUserDataHeader_empty : SmsUserDataHeader := mkHeader SmsSegmentInfo_single 0.

(** The [match (iei, value)] of the loop. *)
Definition segment_of_element (iei : Z) (value : list Z) : option SmsSegmentInfo :=
  match iei, value with
  | 0x00%Z, [reference; total; sequence] =>
    if (negb (total =? 0) && negb (sequence =? 0) && (sequence <=? total))%Z
    then Some (mkSegment (Some reference) sequence total) else None
  | 0x08%Z, [reference_hi; reference_lo; total; sequence] =>
    if (negb (total =? 0) && negb (sequence =? 0) && (sequence <=? total))%Z
    then Some (mkSegment (Some (reference_hi * 256 + reference_lo)%Z) sequence total) else None
  | _, _ => None
  end.

(** The [while offset + 2 <= header.len()] loop; it advances by at least two
    octets, so [length header] rounds are enough: running out of fuel is a
    [Panic], which the theorems exclude. *)
Fixpoint udh_loop (fuel : nat) (header : list Z) (offset : nat) (seg : SmsSegmentInfo)
    : sms SmsSegmentInfo :=
  match fuel with
  | 0 => Panic
  | S fuel =>
    if offset + 2 <=? length header then
      iei ← idx header offset;
      len ← idx header (offset + 1);
      let len := Z.to_nat len in
      let offset := offset + 2 in
      fail_if (length header <? offset + len) BodyTooLong;;
      value ← slice header offset (offset + len);
      let seg := default seg (segment_of_element iei value) in
      udh_loop fuel header (offset + len) seg
    else Ok seg
  end.

Definition parse_user_data_header (user_data : list Z) : sms SmsUserDataHeader :=
  match user_data with
  | [] => Err BodyTooLong
  | header_len :: rest =>
    let header_total := 1 + Z.to_nat header_len in
    fail_if (length user_data <? header_total) BodyTooLong;;
    header ← slice rest 0 (Z.to_nat header_len);
    seg ← udh_loop (S (length header)) header 0 SmsSegmentInfo_single;
    Ok (mkHeader seg header_total)
  end.

(** ** Text payloads *)
Fixpoint be_units (l : list Z) : list Z :=
  match l with
  | hi :: lo :: l => (hi * 256 + lo)%Z :: be_units l
  | _ => []
  end.
Definition u16_to_be_bytes (u : Z) : list Z := [u / 256; u mod 256]%Z.

Definition decode_ucs2_text (user_data : list Z) (octets : nat) : sms str :=
  let len := length user_data `min` octets in
  fail_if (negb (len mod 2 =? 0)) BodyTooLong;;
  data ← slice user_data 0 len;
  ok_or BodyTooLong (from_utf16 (be_units data)).

Definition decode_binary_user_data
    (user_data : list Z) (udl_octets header_octets : nat) : sms str :=
  user_data ← ok_or BodyTooLong (get_range user_data 0 (length user_data `min` udl_octets));
  payload ← ok_or BodyTooLong (get_from user_data header_octets);
  Ok (lit "0x" ++ hex_lower payload).

Definition encode_ucs2_user_data (text : str) : sms (list Z) :=
  let units := encode_utf16 text in
  fail_if (bool_decide (units = [])) EmptyText;;
  fail_if (70 <? length units) TextTooLong;;
  Ok (units ≫= u16_to_be_bytes).

(** ** SMS-SUBMIT *)
Record EncodedSubmitUserData := mkEncoded {
  enc_dcs : Z;
  enc_user_data_length : Z;
  enc_user_data : list Z;
}.

Definition encode_submit_user_data (text : str) : sms EncodedSubmitUserData :=
  match encode_gsm7_user_data text with
  | Some r =>
    '(user_data, septets) ← r;
    fail_if (160 <? septets) TextTooLong;;
    udl ← u8_try_from TextTooLong septets;
    Ok (mkEncoded 0x00 udl user_data)
  | None =>
    user_data ← encode_ucs2_user_data text;
    fail_if (140 <? length user_data) TextTooLong;;
    udl ← u8_try_from TextTooLong (length user_data);
    Ok (mkEncoded 0x08 udl user_data)
  end.

Definition push_len_prefixed (out value : list Z) : sms (list Z) :=
  len ← u8_try_from BodyTooLong (length value);
  Ok (out ++ [len] ++ value).

Definition build_sms_submit_tpdu_encoded
    (recipient : str) (message_reference first_octet : Z) (encoded : EncodedSubmitUserData)
    : sms (list Z) :=
  destination ← encode_address_value recipient;
  recipient_digits ← normalized_address_digits recipient;
  n ← u8_try_from InvalidAddress (length (digits_of recipient_digits));
  Ok ([first_octet; message_reference; n] ++ destination
      ++ [0x00%Z; enc_dcs encoded; enc_user_data_length encoded] ++ enc_user_data encoded).

Definition build_sms_submit_tpdu (recipient text : str) (message_reference : Z) : sms (list Z) :=
  encoded ← encode_submit_user_data text;
  build_sms_submit_tpdu_encoded recipient message_reference 0x01 encoded.

(** The RP-DATA body both builders assemble. *)
Definition rp_data_body (reference : Z) (sc_address tpdu : list Z) : sms (list Z) :=
  let body := [0x00%Z; reference; 0x00%Z] in
  body ← push_len_prefixed body sc_address;
  push_len_prefixed body tpdu.

Definition is_cr_lf (c : Z) : bool := ((c =? 13) || (c =? 10))%Z.

(** [SMS_MESSAGE_COUNTER.fetch_add(n)]: the old value and the new counter. *)
Definition fetch_add (counter n : Z) : Z * Z := (counter, u64 (counter + n)).

Definition sms_id (prefix : str) (timestamp counter : Z) : str :=
  prefix ++ fmt_hex timestamp ++ lit "-" ++ fmt_hex counter.

Section submissions.
(** [SystemTime::now()] in milliseconds since the epoch. *)
Context (timestamp : Z).

(** The result carries the new value of [SMS_MESSAGE_COUNTER]. *)
Definition build_single_part_mo_submission (counter0 : Z) (recipient text service_center : str)
    : Z * sms MoSmsSubmission :=
  let text := trim_end_matches is_cr_lf text in
  if bool_decide (trim recipient = []) then (counter0, Err EmptyRecipient)
  else if bool_decide (text = []) then (counter0, Err EmptyText)
  else
    let '(counter, counter1) := fetch_add counter0 1 in
    let rp_message_reference := u8 (Z.land counter 0xff) in
    let message_id := sms_id (lit "vowifi-sms-") timestamp counter in
    let trace_id := sms_id (lit "vowifi-sms-trace-") timestamp counter in
    (counter1,
      tpdu ← build_sms_submit_tpdu recipient text rp_message_reference;
      sc_address ← encode_address_value service_center;
      body ← rp_data_body rp_message_reference sc_address tpdu;
      Ok {| mo_trace_id := trace_id; mo_message_id := message_id;
            mo_rp_message_reference := rp_message_reference;
            mo_part_index := 1; mo_part_count := 1; mo_body := body;
            mo_body_bytes := length body;
            mo_text_utf16_units := length (encode_utf16 text) |}).

(** One round of the part loop. *)
Definition build_concatenated_part (recipient full_text : str) (gsm7 : bool)
    (concat_reference part_count : Z) (message_id trace_id : str) (sc_address : list Z)
    (index : nat) (part : str) : sms MoSmsSubmission :=
  sequence ← u8_try_from TextTooLong (index + 1);
  let reference := u8 (concat_reference + u8 (sequence - 1)) in
  let udh := [0x05%Z; 0x00%Z; 0x03%Z; concat_reference; part_count; sequence] in
  encoded ← (if gsm7 then
      septets ← ok_or TextTooLong (gsm7_septets part);
      udl ← u8_try_from TextTooLong (7 + length septets);
      user_data ← pack_gsm7_with_udh udh septets;
      Ok (mkEncoded 0x00 udl user_data)
    else
      let user_data := udh ++ (encode_utf16 part ≫= u16_to_be_bytes) in
      udl ← u8_try_from TextTooLong (length user_data);
      Ok (mkEncoded 0x08 udl user_data));
  tpdu ← build_sms_submit_tpdu_encoded recipient reference 0x41 encoded;
  body ← rp_data_body reference sc_address tpdu;
  Ok {| mo_trace_id := trace_id; mo_message_id := message_id;
        mo_rp_message_reference := reference;
        mo_part_index := sequence; mo_part_count := part_count; mo_body := body;
        mo_body_bytes := length body;
        mo_text_utf16_units := length (encode_utf16 full_text) |}.

Definition build_concatenated_submissions (counter0 : Z) (recipient service_center full_text : str)
    (parts : list str) (gsm7 : bool) : Z * sms (list MoSmsSubmission) :=
  match u8_try_from TextTooLong (length parts) with
  | Ok part_count =>
    if (part_count <? 2)%Z then (counter0, Err TextTooLong)
    else
      let '(counter, counter1) := fetch_add counter0 part_count in
      let concat_reference := u8 (Z.land counter 0xff) in
      let message_id := sms_id (lit "ims-sms-") timestamp counter in
      let trace_id := sms_id (lit "ims-sms-trace-") timestamp counter in
      (counter1,
        sc_address ← encode_address_value service_center;
        collectM (λ '(index, part),
          build_concatenated_part recipient full_text gsm7 concat_reference part_count
            message_id trace_id sc_address index part) (imap pair parts))
  | Err e => (counter0, Err e)
  | Panic => (counter0, Panic)
  end.

(** The greedy splitter both [split_gsm7_text] and [split_ucs2_text] run, with
    the width of a character as a parameter. *)
Definition split_step (width : Z → option nat) (max : nat)
    (st : list str * str * nat) (c : Z) : sms (list str * str * nat) :=
  let '(parts, current, used) := st in
  w ← ok_or TextTooLong (width c);
  let '(parts, current, used) :=
    if (max <? used + w) && negb (bool_decide (current = []))
    then (parts ++ [current], [], 0) else (parts, current, used) in
  Ok (parts, current ++ [c], used + w).
Definition split_text (width : Z → option nat) (text : str) (max : nat) : sms (list str) :=
  '(parts, current, _) ← foldM (split_step width max) ([], [], 0) text;
  Ok (if bool_decide (current = []) then parts else parts ++ [current]).

Definition gsm7_width (c : Z) : option nat :=
  match gsm7_basic_value c with
  | Some _ => Some 1
  | None => match gsm7_extension_value c with Some _ => Some 2 | None => None end
  end.
Definition split_gsm7_text (text : str) (max_septets : nat) : sms (list str) :=
  split_text gsm7_width text max_septets.
Definition split_ucs2_text (text : str) (max_units : nat) : sms (list str) :=
  split_text (λ c, Some (len_utf16 c)) text max_units.

Definition build_mo_submissions (counter0 : Z) (recipient text service_center : str)
    : Z * sms (list MoSmsSubmission) :=
  let text := trim_end_matches is_cr_lf text in
  let single :=
    let '(counter1, r) := build_single_part_mo_submission counter0 recipient text service_center in
    (counter1, submission ← r; Ok [submission]) in
  let concatenated (parts : sms (list str)) gsm7 :=
    match parts with
    | Ok parts => build_concatenated_submissions counter0 recipient service_center text parts gsm7
    | Err e => (counter0, Err e)
    | Panic => (counter0, Panic)
    end in
  if bool_decide (trim recipient = []) then (counter0, Err EmptyRecipient)
  else if bool_decide (text = []) then (counter0, Err EmptyText)
  else
    match gsm7_septets text with
    | Some septets =>
      if length septets <=? 160 then single
      else concatenated (split_gsm7_text text 153) true
    | None =>
      if length (encode_utf16 text) <=? 70 then single
      else concatenated (split_ucs2_text text 67) false
    end.

(** The closure of [build_modem_submit_pdus]: from an RP-DATA body to the
    modem PDU, with the status-report request bit set. *)
Definition modem_pdu_of_body (body : list Z) : sms (list Z) :=
  b2 ← ok_or BodyTooLong (body !! 2);
  let offset := 3 + Z.to_nat b2 in
  sc_length ← ok_or BodyTooLong (body !! offset);
  let sc_length := Z.to_nat sc_length in
  let offset := offset + 1 in
  sc ← ok_or BodyTooLong (get_range body offset (offset + sc_length));
  let offset := offset + sc_length in
  tpdu_length ← ok_or BodyTooLong (body !! offset);
  let tpdu_length := Z.to_nat tpdu_length in
  let offset := offset + 1 in
  tpdu ← ok_or BodyTooLong (get_range body offset (offset + tpdu_length));
  update_at (λ b, Z.lor b 0x20) ([u8 (Z.of_nat sc_length)] ++ sc ++ tpdu) (1 + sc_length).

Definition build_modem_submit_pdus (counter0 : Z) (recipient text smsc : str)
    : Z * sms (list (list Z)) :=
  let '(counter1, r) := build_mo_submissions counter0 recipient text smsc in
  (counter1, submissions ← r; collectM (λ s, modem_pdu_of_body (mo_body s)) submissions).
End submissions.

(** ** RP acknowledgements *)
Definition classify_rp_ack {E} (body : list Z) (expected_reference : Z) : res E RpduAckState :=
  if length body <? 2 then Ok RpNone
  else
    b1 ← idx body 1;
    if negb (b1 =? expected_reference)%Z then Ok RpNone
    else
      b0 ← idx body 0;
      Ok (if (b0 =? 0x03)%Z then RpAcked
          else if (b0 =? 0x05)%Z then RpError
          else RpNone).

Definition build_network_rp_ack (reference : Z) : list Z := [0x02%Z; reference].

(** The header and the text of TP-UD: the [header] and [text] bindings of
    [parse_sms_deliver_tpdu]. *)
Definition decode_user_data (user_data_header_present : bool) (dcs : Z) (udl : nat)
    (raw_user_data : list Z) : sms (SmsUserDataHeader * str) :=
  header ← (if user_data_header_present then parse_user_data_header raw_user_data
            else Ok SmsUserDataHeader_empty);
  text ← match sms_alphabet_for_dcs dcs with
    | AlphaUcs2 =>
      user_data ← ok_or BodyTooLong (get_range raw_user_data 0 (length raw_user_data `min` udl));
      payload ← ok_or BodyTooLong (get_from user_data (header_octets header));
      decode_ucs2_text payload (length payload)
    | AlphaGsm7 => decode_gsm7_user_data raw_user_data udl (header_octets header)
    | AlphaBinary => decode_binary_user_data raw_user_data udl (header_octets header)
    end;
  Ok (header, text).

(** ** SMS-DELIVER *)
Section deliver.
Context `{Chrono}.

Definition parse_sms_deliver_tpdu (reference : Z) (tpdu : list Z) : sms MtSmsDeliver :=
  fail_if (length tpdu <? 2) BodyTooLong;;
  first_octet ← idx tpdu 0;
  let user_data_header_present := negb (Z.land first_octet 0x40 =? 0)%Z in
  let offset := 1 in
  originator_address_length ← idx tpdu offset;
  let originator_address_length := Z.to_nat originator_address_length in
  let offset := offset + 1 in
  fail_if (length tpdu <=? offset) BodyTooLong;;
  ton_npi ← idx tpdu offset;
  let offset := offset + 1 in
  let originator_octets := address_value_octets originator_address_length in
  fail_if (length tpdu <? offset + originator_octets + 3 + 7) BodyTooLong;;
  address ← slice tpdu offset (offset + originator_octets);
  originator ← decode_address_value ton_npi address originator_address_length;
  let offset := offset + originator_octets in
  let offset := offset + 1 in
  dcs ← idx tpdu offset;
  let offset := offset + 1 in
  let scts_end := offset + 7 in
  fail_if (length tpdu <? scts_end) BodyTooLong;;
  scts ← slice tpdu offset scts_end;
  let service_center_timestamp :=
    default (hex_lower scts) (decode_service_center_timestamp scts) in
  let offset := scts_end in
  fail_if (length tpdu <=? offset) BodyTooLong;;
  udl ← idx tpdu offset;
  let udl := Z.to_nat udl in
  let offset := offset + 1 in
  fail_if (length tpdu <? offset) BodyTooLong;;
  raw_user_data ← slice_from tpdu offset;
  '(header, text) ← decode_user_data user_data_header_present dcs udl raw_user_data;
  Ok {| mt_rp_message_reference := reference;
        mt_originator := originator;
        mt_text := text;
        mt_user_data_bytes := length raw_user_data;
        mt_service_center_timestamp := service_center_timestamp;
        mt_segment_reference := seg_reference (segment header);
        mt_segment_sequence := seg_sequence (segment header);
        mt_segment_total := seg_total (segment header) |}.

Definition parse_mt_rp_user_data (reference : Z) (body : list Z) (length_offset : nat)
    : sms MtSmsDeliver :=
  fail_if (length body <=? length_offset) BodyTooLong;;
  user_data_len ← idx body length_offset;
  let user_data_len := Z.to_nat user_data_len in
  let user_data_offset := length_offset + 1 in
  fail_if ((user_data_len =? 0) || (length body <? user_data_offset + user_data_len)) BodyTooLong;;
  tpdu ← slice body user_data_offset (user_data_offset + user_data_len);
  parse_sms_deliver_tpdu reference tpdu.

Definition parse_mt_rp_data (body : list Z) : sms MtSmsDeliver :=
  fail_if (length body <? 5) BodyTooLong;;
  b0 ← idx body 0;
  fail_if (negb (b0 =? 0x01)%Z) BodyTooLong;;
  reference ← idx body 1;
  let offset := 2 in
  origin_len ← idx body offset;
  let origin_len := Z.to_nat origin_len in
  let offset := offset + 1 in
  fail_if (length body <? offset + origin_len) BodyTooLong;;
  let offset := offset + origin_len in
  fail_if (length body <=? offset) BodyTooLong;;
  or_else (parse_mt_rp_user_data reference body offset) (
    destination_len ← idx body offset;
    let destination_end := offset + 1 + Z.to_nat destination_len in
    fail_if (length body <=? destination_end) BodyTooLong;;
    parse_mt_rp_user_data reference body destination_end).

(** *** Modem deliver PDUs *)
Record ModemDeliver := { md_message : MtSmsDeliver; md_assembly_key : str }.

(** The element loop over the user-data header; every round advances by at
    least two octets. *)
Fixpoint modem_udh_loop (fuel : nat) (header : list Z) (offset : nat) (concat : bool)
    (metadata : list Z) : sms (list Z) :=
  match fuel with
  | 0 => Panic
  | S fuel =>
    if offset <? length header then
      pair ← ok_or BodyTooLong (get_range header offset (offset + 2));
      iei ← idx pair 0;
      len ← idx pair 1;
      let len := Z.to_nat len in
      value ← ok_or BodyTooLong (get_range header (offset + 2) (offset + 2 + len));
      let metadata := metadata ++ pair in
      '(metadata, concat) ←
        (if ((iei =? 0) || (iei =? 8))%Z then
           fail_if (concat || negb (len =? (if (iei =? 0)%Z then 3 else 4))) BodyTooLong;;
           total ← idx value (len - 2);
           sequence ← idx value (len - 1);
           fail_if ((total =? 0) || (sequence =? 0) || (total <? sequence))%Z BodyTooLong;;
           prefix ← slice value 0 (len - 1);
           Ok (metadata ++ prefix ++ [0%Z], true)
         else Ok (metadata ++ value, concat));
      modem_udh_loop fuel header (offset + (2 + len)) concat metadata
    else Ok metadata
  end.

Definition parse_modem_deliver (pdu : list Z) : sms ModemDeliver :=
  first ← ok_or BodyTooLong (head pdu);
  let start := 1 + Z.to_nat first in
  tpdu ← ok_or BodyTooLong (get_from pdu start);
  fail_if (length tpdu <? 3) BodyTooLong;;
  t0 ← idx tpdu 0;
  fail_if (negb (Z.land t0 3 =? 0)%Z) BodyTooLong;;
  t1 ← idx tpdu 1;
  fail_if ((t1 =? 0) || (40 <? t1))%Z BodyTooLong;;
  let offset := 3 + address_value_octets (Z.to_nat t1) in
  fixed ← ok_or BodyTooLong (get_range tpdu offset (offset + 10));
  scts ← slice fixed 2 9;
  ok_or BodyTooLong (decode_service_center_timestamp scts);;
  dcs ← idx fixed 1;
  udl ← idx fixed 9;
  let udl := Z.to_nat udl in
  data ← slice_from tpdu (offset + 10);
  expected ← match sms_alphabet_for_dcs dcs with
    | AlphaGsm7 => if udl <=? 160 then Ok (div_ceil (udl * 7) 8) else Err BodyTooLong
    | AlphaBinary | AlphaUcs2 => if udl <=? 140 then Ok udl else Err BodyTooLong
    end;
  fail_if (negb (length data =? expected)) BodyTooLong;;
  t2 ← idx tpdu 2;
  f0 ← idx fixed 0;
  let metadata := [t2; f0; dcs] in
  metadata ← (if negb (Z.land t0 0x40 =? 0)%Z then
      d0 ← ok_or BodyTooLong (head data);
      let end_ := 1 + Z.to_nat d0 in
      header ← ok_or BodyTooLong (get_range data 1 end_);
      fail_if (bool_decide (sms_alphabet_for_dcs dcs = AlphaGsm7)
               && (udl <? div_ceil (end_ * 8) 7)) BodyTooLong;;
      modem_udh_loop (S (length header)) header 0 false metadata
    else Ok metadata);
  message ← parse_sms_deliver_tpdu 0 tpdu;
  Ok {| md_message := message; md_assembly_key := hex_lower metadata |}.

Definition parse_modem_deliver_pdu (pdu : list Z) : sms MtSmsDeliver :=
  md_message <$> parse_modem_deliver pdu.

(** *** Status reports *)
Record ModemStatusReport := {
  sr_reference : Z;
  sr_recipient : str;
  sr_service_center_timestamp : str;
  sr_discharge_timestamp : str;
  sr_status : Z;
}.

(** [discharge < scts] on strings. *)
Fixpoint str_ltb (s t : str) : bool :=
  match s, t with
  | _, [] => false
  | [], _ :: _ => true
  | a :: s, b :: t => ((a <? b) || ((a =? b) && str_ltb s t))%Z
  end.

(** The optional PI/PID/DCS/UDL tail. *)
Definition check_report_tail (rest : list Z) : sms unit :=
  match rest with
  | [] => Ok tt
  | pi :: tail =>
    fail_if (negb (Z.land pi 0xf8 =? 0)%Z) BodyTooLong;;
    let offset := 0 in
    offset ← (if negb (Z.land pi 1 =? 0)%Z then
        ok_or BodyTooLong (tail !! offset);; Ok (offset + 1) else Ok offset);
    '(dcs, offset) ← (if negb (Z.land pi 2 =? 0)%Z then
        v ← ok_or BodyTooLong (tail !! offset); Ok (v, offset + 1) else Ok (0%Z, offset));
    if negb (Z.land pi 4 =? 0)%Z then
      udl ← ok_or BodyTooLong (tail !! offset);
      let udl := Z.to_nat udl in
      let offset := offset + 1 in
      let bytes := if bool_decide (sms_alphabet_for_dcs dcs = AlphaGsm7)
                   then div_ceil (udl * 7) 8 else udl in
      fail_if ((140 <? bytes) || negb (length tail =? offset + bytes)) BodyTooLong
    else fail_if (negb (length tail =? offset)) BodyTooLong
  end.

Definition parse_modem_status_report (pdu : list Z) : sms ModemStatusReport :=
  first ← ok_or BodyTooLong (head pdu);
  let start := 1 + Z.to_nat first in
  tpdu ← ok_or BodyTooLong (get_from pdu start);
  fail_if (length tpdu <? 4) BodyTooLong;;
  t0 ← idx tpdu 0;
  fail_if (negb (Z.land t0 3 =? 2)%Z) BodyTooLong;;
  t2 ← idx tpdu 2;
  t3 ← idx tpdu 3;
  let digits := Z.to_nat t2 in
  fail_if (negb (Z.land t0 0x20 =? 0)%Z || (digits =? 0) || (20 <? digits)
           || negb ((t3 =? 0x81) || (t3 =? 0x91))%Z) BodyTooLong;;
  let address_end := 4 + address_value_octets digits in
  address ← ok_or BodyTooLong (get_range tpdu 4 address_end);
  foldM (λ _ '(index, nibble),
    fail_if (((index <? digits) && (9 <? nibble)%Z)
             || ((index =? digits) && negb (nibble =? 15)%Z)) InvalidAddress)
    tt (imap pair (nibbles address));;
  scts ← ok_or BodyTooLong
    (get_range tpdu address_end (address_end + 7) ≫= decode_service_center_timestamp);
  discharge ← ok_or BodyTooLong
    (get_range tpdu (address_end + 7) (address_end + 14) ≫= decode_service_center_timestamp);
  status ← ok_or BodyTooLong (tpdu !! (address_end + 14));
  fail_if (str_ltb discharge scts) BodyTooLong;;
  check_report_tail (default [] (get_from tpdu (address_end + 15)));;
  reference ← idx tpdu 1;
  recipient ← decode_address_value t3 address digits;
  Ok {| sr_reference := reference; sr_recipient := recipient;
        sr_service_center_timestamp := scts; sr_discharge_timestamp := discharge;
        sr_status := status |}.
End deliver.

(** * No input makes a parser panic *)
Section no_panic.
Context `{Chrono}.

Lemma no_panic_udh_loop fuel header offset seg :
  length header - offset < fuel → no_panic (udh_loop fuel header offset seg).
Proof.
  revert offset seg. induction fuel as [|fuel IH]; intros offset seg Hf; [lia|]. simpl.
  np. apply IH. lia.
Qed.

Lemma no_panic_parse_user_data_header data : no_panic (parse_user_data_header data).
Proof.
  unfold parse_user_data_header. np; cbn [length] in *.
  - apply no_panic_slice; lia.
  - apply no_panic_udh_loop. lia.
Qed.

Lemma no_panic_decode_ucs2_text data n : no_panic (decode_ucs2_text data n).
Proof. unfold decode_ucs2_text. np. Qed.
Lemma no_panic_decode_binary_user_data data n h : no_panic (decode_binary_user_data data n h).
Proof. unfold decode_binary_user_data. np. Qed.
Lemma no_panic_decode_address_value {E} t v n : no_panic (decode_address_value (E:=E) t v n).
Proof. unfold decode_address_value, decode_gsm7_text. np. Qed.
#[local] Hint Resolve no_panic_parse_user_data_header no_panic_decode_ucs2_text
  no_panic_decode_binary_user_data no_panic_decode_address_value : rust.

Lemma no_panic_decode_user_data p dcs udl raw : no_panic (decode_user_data p dcs udl raw).
Proof. unfold decode_user_data. np. Qed.
#[local] Hint Resolve no_panic_decode_user_data : rust.

Lemma no_panic_parse_sms_deliver_tpdu r tpdu : no_panic (parse_sms_deliver_tpdu r tpdu).
Proof. unfold parse_sms_deliver_tpdu. np. Qed.
#[local] Hint Resolve no_panic_parse_sms_deliver_tpdu : rust.

Lemma no_panic_parse_mt_rp_user_data r body o : no_panic (parse_mt_rp_user_data r body o).
Proof. unfold parse_mt_rp_user_data. np. Qed.
#[local] Hint Resolve no_panic_parse_mt_rp_user_data : rust.

Lemma no_panic_modem_udh_loop fuel header offset concat metadata :
  length header - offset < fuel →
  no_panic (modem_udh_loop fuel header offset concat metadata).
Proof.
  revert offset concat metadata.
  induction fuel as [|fuel IH]; intros offset concat metadata Hf; [lia|]. simpl.
  np; first [by apply IH; lia|repeat case_match; eauto with rust].
Qed.

Lemma no_panic_parse_modem_deliver pdu : no_panic (parse_modem_deliver pdu).
Proof.
  unfold parse_modem_deliver. np. apply no_panic_modem_udh_loop. lia.
Qed.

Lemma no_panic_check_report_tail rest : no_panic (check_report_tail rest).
Proof. unfold check_report_tail. np. Qed.
#[local] Hint Resolve no_panic_check_report_tail : rust.

Lemma no_panic_parse_modem_status_report pdu : no_panic (parse_modem_status_report pdu).
Proof.
  unfold parse_modem_status_report. np.
  apply (foldM_inv (λ _, True)); [done|]. intros ? [? ?] _ _. split; [apply no_panic_fail_if|done].
Qed.
End no_panic.
