(* ===== verification/SmsSubmit.v ===== *)
(** * Mobile-originated SMS: what is sent is the text

    Theorems about the builders of [SmsCodec]: the splitter cuts the text at
    character boundaries into parts that fit, building never panics, and the
    code's own user-data decoder reads the text back from the built parts. *)
From Stdlib Require Import Ascii String ZArith Lia.
From stdpp Require Import prelude.
From S2P Require Import Prelude Text Gsm7 SmsCodec.

(** ** The splitter *)
Section splitter.
Context (width : Z → option nat) (max : nat).

Definition text_width (t : str) : nat := sum_list ((λ c, default 0 (width c)) <$> t).

Lemma text_width_app s t : text_width (s ++ t) = text_width s + text_width t.
Proof. unfold text_width. by rewrite fmap_app, sum_list_with_app. Qed.

Definition fits (p : str) : Prop := p ≠ [] ∧ text_width p ≤ max.

Context (Hmax : ∀ c w, width c = Some w → w ≤ max).

(** The parts are full and the current one is the rest of what was read. *)
Definition split_inv (read : str) (st : list str * str * nat) : Prop :=
  let '(parts, current, used) := st in
  concat parts ++ current = read ∧ Forall fits parts ∧
  used = text_width current ∧ used ≤ max.

Lemma split_step_inv read st c st' :
  split_inv read st → split_step width max st c = Ok st' → split_inv (read ++ [c]) st'.
Proof.
  destruct st as [[parts current] used]. intros (Hc & HF & Hu & Hle) Hs.
  unfold split_step in Hs. rust_inv. rename x into w.
  assert (text_width [c] = w) as Hw.
  { unfold text_width. simpl. rewrite H. simpl. lia. }
  assert (w ≤ max) by eauto.
  destruct (max <? used + w) eqn:Hlt; simpl in Hs;
    [destruct (bool_decide_reflect (current = [])) as [->|Hne]; simpl in Hs|];
    injection Hs as <-; unfold split_inv.
  - bool_prop. rewrite Hu in Hlt. change (text_width []) with 0 in Hlt. lia.
  - rewrite concat_app. simpl. rewrite app_nil_r, Hc. split_and!; [done| |by rewrite Hw|lia].
    apply Forall_app. split; [done|]. apply Forall_singleton. split; [done|]. by rewrite <-Hu.
  - bool_prop. rewrite app_assoc, Hc, text_width_app, Hw, Hu. split_and!; [done..|lia].
Qed.

Lemma split_fold_inv text read st st' :
  split_inv read st → foldM (split_step width max) st text = Ok st' →
  split_inv (read ++ text) st'.
Proof.
  revert read st. induction text as [|c text IH]; intros read st Hi Hf; simpl in Hf.
  { injection Hf as <-. by rewrite app_nil_r. }
  rust_inv. rewrite (cons_middle c), app_assoc. eapply IH; [|done]. by eapply split_step_inv.
Qed.

(** Cutting loses nothing, and every part fits. *)
Lemma split_text_ok text parts :
  split_text width text max = Ok parts → concat parts = text ∧ Forall fits parts.
Proof.
  unfold split_text. intros Hs. apply bind_Ok in Hs as ([[ps cur] used] & Hf & Hs).
  apply (split_fold_inv _ []) in Hf; [|split_and!; [done..|unfold text_width; simpl; lia]].
  destruct Hf as (Hc & HF & Hu & Hle). simpl in Hc. injection Hs as <-.
  case_bool_decide as Hcur; [by rewrite Hcur, app_nil_r in Hc|].
  rewrite concat_app. simpl. rewrite app_nil_r. split; [done|].
  apply Forall_app. split; [done|]. apply Forall_singleton. split; [done|lia].
Qed.

Lemma split_text_total text :
  Forall (λ c, is_Some (width c)) text → ∃ parts, split_text width text max = Ok parts.
Proof.
  intros HF. unfold split_text.
  assert (∀ st, ∃ st', foldM (split_step width max) st text = Ok st') as Hf.
  { induction HF as [|c text [w Hw] _ IH]; intros st; simpl; [by eexists|].
    destruct st as [[ps cur] used]. unfold split_step at 2. rewrite Hw. simpl.
    destruct (if _ && _ then _ else _) as [[ps' cur'] used']. simpl. apply IH. }
  destruct (Hf ([], [], 0)) as ([[ps cur] used] & ->). simpl. by eexists.
Qed.

Lemma text_width_concat parts :
  Forall fits parts → text_width (concat parts) ≤ max * length parts.
Proof.
  induction 1 as [|p parts [_ Hp] _ IH]; simpl; [unfold text_width; simpl; lia|].
  rewrite text_width_app. lia.
Qed.

Lemma split_text_at_least_two text parts :
  split_text width text max = Ok parts → max < text_width text → 2 ≤ length parts.
Proof.
  intros [Hc HF]%split_text_ok Hlt. apply text_width_concat in HF. rewrite Hc in HF. nia.
Qed.
End splitter.

Lemma no_panic_split_text width text max : no_panic (split_text width text max).
Proof.
  unfold split_text. apply no_panic_bind; [|by intros [[??]?] _].
  apply (foldM_inv (λ _, True)); [done|]. intros [[ps cur] used] c _ _. split; [|done].
  unfold split_step. np.
Qed.

Lemma gsm7_width_septets c : gsm7_width c = length <$> gsm7_char_septets c.
Proof.
  unfold gsm7_width, gsm7_char_septets. destruct (gsm7_basic_value c); [done|].
  by destruct (gsm7_extension_value c).
Qed.

Lemma gsm7_text_width t s : gsm7_septets t = Some s → text_width gsm7_width t = length s.
Proof.
  revert s. induction t as [|c t IH]; intros s; simpl; [by intros [= <-]|].
  destruct (gsm7_char_septets c) as [s1|] eqn:H1; simpl; [|done].
  destruct (gsm7_septets t) as [s2|]; simpl; [|done]. intros [= <-].
  change (c :: t) with ([c] ++ t). rewrite text_width_app, (IH s2), length_app by done.
  unfold text_width. simpl. rewrite gsm7_width_septets, H1. simpl. lia.
Qed.

Lemma gsm7_septets_part t1 t2 s :
  gsm7_septets (t1 ++ t2) = Some s →
  ∃ s1 s2, gsm7_septets t1 = Some s1 ∧ gsm7_septets t2 = Some s2 ∧ s = s1 ++ s2.
Proof.
  rewrite gsm7_septets_app. destruct (gsm7_septets t1) as [s1|]; simpl; [|done].
  destruct (gsm7_septets t2) as [s2|]; simpl; [|done]. intros [= <-]. eauto.
Qed.

Lemma gsm7_septets_concat parts s :
  gsm7_septets (concat parts) = Some s → Forall (λ p, is_Some (gsm7_septets p)) parts.
Proof.
  revert s. induction parts as [|p parts IH]; intros s; simpl; [constructor|].
  intros (s1 & s2 & H1 & H2 & _)%gsm7_septets_part. constructor; eauto.
Qed.

Lemma utf16_text_width t : text_width (λ c, Some (len_utf16 c)) t = length (encode_utf16 t).
Proof.
  induction t as [|c t IH]; [done|].
  rewrite encode_utf16_cons, length_app, length_encode_utf16_char, <-IH. done.
Qed.

Lemma gsm7_width_le c w : gsm7_width c = Some w → 1 ≤ w ≤ 2.
Proof. unfold gsm7_width. repeat case_match; intros [= <-]; lia. Qed.
Lemma len_utf16_le c : 1 ≤ len_utf16 c ≤ 2.
Proof. unfold len_utf16. case_match; lia. Qed.

Lemma gsm7_septets_widths t s :
  gsm7_septets t = Some s → Forall (λ c, is_Some (gsm7_width c)) t.
Proof.
  revert s. induction t as [|c t IH]; intros s; simpl; [constructor|].
  destruct (gsm7_char_septets c) as [s1|] eqn:H1; simpl; [|done].
  destruct (gsm7_septets t) as [s2|]; simpl; [|done]. intros [= <-].
  constructor; [|by eapply IH]. rewrite gsm7_width_septets, H1. simpl. by eexists.
Qed.

(** ** Addresses *)
Definition digits_ok (n : NormalizedAddressDigits) : Prop :=
  Forall (λ c, is_ascii_digit c = true) (digits_of n) ∧ 1 ≤ length (digits_of n) ≤ 20.

Lemma no_panic_normalized_address_digits a : no_panic (normalized_address_digits a).
Proof.
  unfold normalized_address_digits. apply no_panic_bind.
  - apply (foldM_inv (λ _, True)); [done|]. intros [ds i] [n c] _ _. split; [np|done].
  - intros [ds i] _. np.
Qed.
#[export] Hint Resolve no_panic_normalized_address_digits : rust.

Lemma normalized_address_digits_ok a n : normalized_address_digits a = Ok n → digits_ok n.
Proof.
  unfold normalized_address_digits. intros ([ds i] & Hf & Hs)%bind_Ok.
  assert (Forall (λ c, is_ascii_digit c = true) ds) as HF.
  { refine (proj2 (foldM_inv (λ st, Forall (λ c, is_ascii_digit c = true) st.1) _ _ _ _ _) _ Hf);
      [constructor|].
    intros [ds' i'] [k c] Hds _. split; [np|]. intros st' Hst. simpl in *.
    repeat case_match; try discriminate; injection Hst as <-; simpl; try done.
    apply Forall_app. by split; [|apply Forall_singleton]. }
  apply bind_Ok in Hs as (? & Hg & [= <-]). apply fail_if_Ok in Hg. bool_prop.
  case_bool_decide as Hds; [done|]. split; [done|]. simpl. destruct ds; [done|simpl in *; lia].
Qed.

Lemma length_encode_semi_octets ds : length (encode_semi_octets ds) = div_ceil (length ds) 2.
Proof.
  assert (∀ n ds, length ds ≤ n → length (encode_semi_octets ds) = div_ceil (length ds) 2) as Hn;
    [|by eapply Hn].
  clear ds. induction n as [|n IH]; intros ds Hl; [destruct ds; [done|simpl in Hl; lia]|].
  destruct ds as [|a [|b ds]]; [done|done|]. simpl in *. rewrite IH by lia. unfold div_ceil.
  replace (S (S (length ds)) + 2 - 1) with (length ds + 2 - 1 + 1 * 2) by lia.
  rewrite Nat.div_add by lia. lia.
Qed.

Lemma encode_address_value_length a v :
  encode_address_value a = Ok v → 2 ≤ length v ≤ 11.
Proof.
  unfold encode_address_value. intros (n & Hn & [= <-])%bind_Ok.
  apply normalized_address_digits_ok in Hn as [_ Hl]. simpl. rewrite length_encode_semi_octets.
  pose proof (div_ceil_le (length (digits_of n)) 2 ltac:(done)).
  pose proof (div_ceil_lt (length (digits_of n)) 2 ltac:(done)). lia.
Qed.

Lemma no_panic_encode_address_value a : no_panic (encode_address_value a).
Proof. unfold encode_address_value. np. Qed.
#[export] Hint Resolve no_panic_encode_address_value : rust.

(** ** Layouts of TS 23.040 / TS 24.011 *)
Definition submit_tpdu_layout (first_octet reference digits : Z) (dest : list Z) (dcs udl : Z)
    (ud : list Z) : list Z :=
  [first_octet; reference; digits] ++ dest ++ [0%Z; dcs; udl] ++ ud.
Definition rp_data_layout (reference : Z) (sc_address tpdu : list Z) : list Z :=
  [0%Z; reference; 0%Z; Z.of_nat (length sc_address)] ++ sc_address
  ++ [Z.of_nat (length tpdu)] ++ tpdu.

Lemma rp_data_body_ok reference sc tpdu :
  length sc ≤ 255 → length tpdu ≤ 255 →
  rp_data_body reference sc tpdu = Ok (rp_data_layout reference sc tpdu).
Proof.
  intros H1 H2. unfold rp_data_body, push_len_prefixed.
  rewrite (u8_try_from_le _ (length sc)) by done. simpl. by rewrite u8_try_from_le.
Qed.

Lemma build_sms_submit_tpdu_encoded_ok recipient reference first enc nd dest :
  normalized_address_digits recipient = Ok nd → encode_address_value recipient = Ok dest →
  build_sms_submit_tpdu_encoded recipient reference first enc =
    Ok (submit_tpdu_layout first reference (Z.of_nat (length (digits_of nd))) dest
          (enc_dcs enc) (enc_user_data_length enc) (enc_user_data enc)).
Proof.
  intros Hn Hd. unfold build_sms_submit_tpdu_encoded. rewrite Hn, Hd. simpl.
  apply normalized_address_digits_ok in Hn as [_ Hl]. by rewrite u8_try_from_le by lia.
Qed.

(** The submission [s] is an RP-DATA body around an SMS-SUBMIT for [recipient]
    whose user data fits a short message and decodes, with the decoder of the
    receiving side, to [part] with the segment information [seg]. *)
Definition carries (recipient service_center : str) (udhi : bool) (s : MoSmsSubmission)
    (seg : SmsSegmentInfo) (part : str) : Prop :=
  ∃ nd dest sc_address dcs udl ud hdr,
    normalized_address_digits recipient = Ok nd ∧
    encode_address_value recipient = Ok dest ∧
    encode_address_value service_center = Ok sc_address ∧
    mo_body s = rp_data_layout (mo_rp_message_reference s) sc_address
      (submit_tpdu_layout (if udhi then 0x41 else 0x01) (mo_rp_message_reference s)
         (Z.of_nat (length (digits_of nd))) dest dcs (Z.of_nat udl) ud) ∧
    mo_body_bytes s = length (mo_body s) ∧
    length ud ≤ 140 ∧
    decode_user_data udhi dcs udl ud = Ok (hdr, part) ∧ segment hdr = seg.

(** ** User data round trips *)
Lemma be_units_to_bytes units :
  Forall (λ u, (0 ≤ u < 65536)%Z) units →
  be_units (units ≫= u16_to_be_bytes) = units ∧ length (units ≫= u16_to_be_bytes) = 2 * length units.
Proof.
  induction 1 as [|u units Hu _ [IH1 IH2]]; [done|]. rewrite bind_cons. simpl. rewrite IH1, IH2.
  split; [|simpl; lia]. f_equal. pose proof (Z.div_mod u 256). lia.
Qed.

Lemma decode_ucs2_encode t :
  Forall is_char t →
  let data := encode_utf16 t ≫= u16_to_be_bytes in
  decode_ucs2_text data (length data) = Ok t.
Proof.
  intros Ht data. pose proof (encode_utf16_units t Ht) as [Hu Hl]%be_units_to_bytes.
  fold data in Hu, Hl. unfold decode_ucs2_text. rewrite Nat.min_id, Hl.
  rewrite (Nat.mul_comm 2), Nat.Div0.mod_mul. simpl. unfold slice, get_range.
  rewrite Nat.mul_comm, <-Hl, Nat.leb_refl, Nat.sub_0_r. simpl. rewrite drop_0, firstn_all.
  by rewrite Hu, utf16_roundtrip.
Qed.

Lemma decode_gsm7_encode t s out :
  gsm7_septets t = Some s → encode_gsm7_user_data (E:=SmsEncodingError) t = Some (Ok (out, length s)) →
  decode_gsm7_user_data (E:=SmsEncodingError) out (length s) 0 = Ok t.
Proof.
  intros Hs He. destruct (encode_gsm7_user_data_ok (E:=SmsEncodingError) t s Hs)
    as (out' & He' & Hl & Hb & Hbits).
  rewrite He in He'. injection He' as <-. unfold decode_gsm7_user_data, decode_gsm7_text. simpl.
  destruct (gsm7_septets_decode t s [] Hs) as [Hdec HF].
  rewrite decode_bits with (s := s); [by rewrite Hdec| |done..].
  pose proof (div_ceil_le (length s * 7) 8). lia.
Qed.

Lemma decode_gsm7_pack t s udh out :
  gsm7_septets t = Some s → bytes_ok udh → udh ≠ [] →
  pack_gsm7_with_udh (E:=SmsEncodingError) udh s = Ok out →
  decode_gsm7_user_data (E:=SmsEncodingError) out
    (div_ceil (length udh * 8) 7 + length s) (length udh) = Ok t.
Proof.
  intros Hs Hudh Hne Hp.
  destruct (pack_gsm7_with_udh_ok (E:=SmsEncodingError) udh s Hudh)
    as (out' & Hp' & Hl & Hb & _ & Hbits).
  rewrite Hp in Hp'. injection Hp' as <-. unfold decode_gsm7_user_data.
  destruct (Nat.eqb_spec (length udh) 0); [by destruct udh|].
  destruct (gsm7_septets_decode t s [] Hs) as [Hdec HF].
  destruct (Nat.leb_spec (div_ceil (length udh * 8) 7 + length s) (div_ceil (length udh * 8) 7)).
  { destruct s; [|simpl in *; lia]. simpl in Hdec. by injection Hdec as <-. }
  rewrite Nat.add_sub_swap, Nat.sub_diag, Nat.add_0_l by lia.
  rewrite decode_bits with (s := s); [by rewrite Hdec| |done..|].
  - pose proof (div_ceil_le (div_ceil (length udh * 8) 7 * 7 + length s * 7) 8). lia.
  - intros k Hk. apply Hbits. lia.
Qed.

(** ** One part *)
Lemma div_ceil_le_mul n k d : d ≠ 0 → n ≤ d * k → div_ceil n d ≤ k.
Proof. intros. pose proof (div_ceil_lt n d). nia. Qed.

(** The user data of a single SMS-SUBMIT decodes to the text. *)
Lemma encode_submit_user_data_ok t enc :
  Forall is_char t → encode_submit_user_data t = Ok enc →
  ∃ udl hdr, enc_user_data_length enc = Z.of_nat udl ∧ length (enc_user_data enc) ≤ 140 ∧
    decode_user_data false (enc_dcs enc) udl (enc_user_data enc) = Ok (hdr, t) ∧
    segment hdr = SmsSegmentInfo_single.
Proof.
  intros Ht He. unfold encode_submit_user_data in He.
  destruct (gsm7_septets t) as [s|] eqn:Hs.
  - destruct (encode_gsm7_user_data_ok (E:=SmsEncodingError) t s Hs) as (out & Hout & Hl & _ & _).
    rewrite Hout in He. simpl in He. rust_inv. bool_prop. subst.
    exists (length s), SmsUserDataHeader_empty. simpl. split_and!; [done| | |done].
    + rewrite Hl. apply div_ceil_le_mul; lia.
    + unfold decode_user_data. simpl. change (sms_alphabet_for_dcs 0) with AlphaGsm7. simpl.
      by rewrite (decode_gsm7_encode t s out Hs Hout).
  - unfold encode_gsm7_user_data in He. rewrite Hs in He. simpl in He.
    unfold encode_ucs2_user_data in He. rust_inv. bool_prop. subst.
    set (data := encode_utf16 t ≫= u16_to_be_bytes) in *.
    exists (length data), SmsUserDataHeader_empty. simpl. split_and!; [done|done| |done].
    unfold decode_user_data. simpl. change (sms_alphabet_for_dcs 8) with AlphaUcs2. simpl.
    rewrite Nat.min_id. unfold get_range. rewrite Nat.leb_refl, Nat.sub_0_r. simpl.
    rewrite drop_0, firstn_all. unfold get_from. simpl. rewrite drop_0.
    unfold data. by rewrite decode_ucs2_encode.
Qed.

Lemma length_submit_tpdu_layout first reference n dest dcs udl ud :
  length (submit_tpdu_layout first reference n dest dcs udl ud) = 6 + length dest + length ud.
Proof. unfold submit_tpdu_layout. rewrite !length_app. simpl. lia. Qed.

(** What the two builders share once the user data is encoded. *)
Lemma rp_data_of_encoded recipient sc first reference enc sc_address tpdu body :
  encode_address_value sc = Ok sc_address → length (enc_user_data enc) ≤ 140 →
  build_sms_submit_tpdu_encoded recipient reference first enc = Ok tpdu →
  rp_data_body reference sc_address tpdu = Ok body →
  ∃ nd dest, normalized_address_digits recipient = Ok nd ∧
    encode_address_value recipient = Ok dest ∧
    body = rp_data_layout reference sc_address
      (submit_tpdu_layout first reference (Z.of_nat (length (digits_of nd))) dest
         (enc_dcs enc) (enc_user_data_length enc) (enc_user_data enc)).
Proof.
  intros Hsc Hl Ht Hb. pose proof (encode_address_value_length _ _ Hsc).
  assert (∃ dest, encode_address_value recipient = Ok dest) as [dest Hd].
  { unfold build_sms_submit_tpdu_encoded in Ht. rust_inv. eauto. }
  pose proof (encode_address_value_length _ _ Hd).
  pose proof Hd as Hd'. unfold encode_address_value in Hd'. apply bind_Ok in Hd' as (nd & Hn & _).
  exists nd, dest. split; [done|]. split; [done|].
  rewrite (build_sms_submit_tpdu_encoded_ok _ _ _ _ nd dest) in Ht by done. injection Ht as <-.
  rewrite rp_data_body_ok in Hb; [by injection Hb as <-|lia|].
  rewrite length_submit_tpdu_layout. lia.
Qed.

Lemma u8_land_ff z : u8 (Z.land z 0xff) = u8 z.
Proof.
  unfold wrap. change 0xff%Z with (Z.ones 8). rewrite Z.land_ones by lia.
  apply Z.mod_mod. done.
Qed.

Lemma build_single_part_carries ts ctr recipient text sc ctr' s :
  Forall is_char text →
  build_single_part_mo_submission ts ctr recipient text sc = (ctr', Ok s) →
  ctr' = u64 (ctr + 1) ∧
  carries recipient sc false s SmsSegmentInfo_single (trim_end_matches is_cr_lf text) ∧
  mo_rp_message_reference s = u8 ctr ∧ mo_part_index s = 1%Z ∧ mo_part_count s = 1%Z.
Proof.
  intros Ht Hb. unfold build_single_part_mo_submission in Hb.
  apply (Forall_trim_end_matches _ is_cr_lf) in Ht. set (t := trim_end_matches is_cr_lf text) in *.
  case_bool_decide; [done|]. case_bool_decide; [done|]. simpl in Hb. injection Hb as <- Hb.
  split; [done|].
  unfold build_sms_submit_tpdu in Hb. rust_inv. subst s. simpl.
  destruct (encode_submit_user_data_ok t x2) as (udl & hdr & Hudl & Hl & Hdec & Hseg); [done..|].
  rewrite !u8_land_ff in *. split; [|done].
  edestruct (rp_data_of_encoded recipient sc) as (nd & dest & Hn & Hd & Hbody); [done..|].
  unfold carries. simpl. rewrite Hbody, Hudl. by eexists nd, dest, x0, _, udl, _, hdr.
Qed.

(** ** Concatenated parts *)
Lemma parse_concat_udh reference total sequence rest :
  (1 ≤ sequence ≤ total)%Z →
  parse_user_data_header ([5; 0; 3; reference; total; sequence]%Z ++ rest) =
    Ok (mkHeader (mkSegment (Some reference) sequence total) 6).
Proof.
  intros Hs. simpl. unfold slice, get_range. simpl.
  destruct (Z.eqb_spec total 0); [lia|]. destruct (Z.eqb_spec sequence 0); [lia|].
  by destruct (Z.leb_spec sequence total); [|lia].
Qed.

Lemma decode_concat_gsm7 part s udh ud reference total sequence :
  udh = [5; 0; 3; reference; total; sequence]%Z →
  (1 ≤ sequence ≤ total)%Z → bytes_ok udh → gsm7_septets part = Some s →
  pack_gsm7_with_udh (E:=SmsEncodingError) udh s = Ok ud →
  length ud = div_ceil (49 + length s * 7) 8 ∧
  decode_user_data true 0x00 (7 + length s) ud =
    Ok (mkHeader (mkSegment (Some reference) sequence total) 6, part).
Proof.
  intros Hu Hs Hb Hp Hud.
  destruct (pack_gsm7_with_udh_ok (E:=SmsEncodingError) udh s Hb) as (ud' & Hud' & Hl & _ & Ht & _).
  rewrite Hud in Hud'. injection Hud' as <-. subst udh. split; [done|].
  unfold decode_user_data. change (sms_alphabet_for_dcs 0) with AlphaGsm7.
  rewrite <-(take_drop 6 ud) at 1. cbn [length] in Ht. rewrite Ht, parse_concat_udh by done.
  pose proof (decode_gsm7_pack part s _ ud Hp Hb ltac:(done) Hud) as Hdec.
  cbn [length] in Hdec. change (div_ceil (6 * 8) 7) with 7 in Hdec.
  cbn [mbind res_bind header_octets]. by rewrite Hdec.
Qed.

Lemma decode_concat_ucs2 part udh ud reference total sequence :
  udh = [5; 0; 3; reference; total; sequence]%Z →
  (1 ≤ sequence ≤ total)%Z → Forall is_char part →
  ud = udh ++ (encode_utf16 part ≫= u16_to_be_bytes) →
  length ud = 6 + 2 * length (encode_utf16 part) ∧
  decode_user_data true 0x08 (length ud) ud =
    Ok (mkHeader (mkSegment (Some reference) sequence total) 6, part).
Proof.
  intros Hu Hs Hp Hud. pose proof (encode_utf16_units part Hp) as [_ Hl]%be_units_to_bytes.
  split; [rewrite Hud, length_app, Hl, Hu; done|].
  unfold decode_user_data. change (sms_alphabet_for_dcs 8) with AlphaUcs2.
  assert (parse_user_data_header ud = Ok (mkHeader (mkSegment (Some reference) sequence total) 6))
    as -> by (rewrite Hud, Hu; by apply parse_concat_udh).
  cbn [mbind res_bind header_octets]. rewrite Nat.min_id.
  assert (get_range ud 0 (length ud) = Some ud) as ->.
  { unfold get_range. by rewrite Nat.leb_refl, Nat.sub_0_r, drop_0, firstn_all. }
  cbn [mbind res_bind ok_or].
  assert (get_from ud 6 = Some (encode_utf16 part ≫= u16_to_be_bytes)) as ->.
  { rewrite Hud. apply get_from_app. by rewrite Hu. }
  simpl. by rewrite decode_ucs2_encode.
Qed.

Lemma is_byte_u8 z : is_byte (u8 z).
Proof. by apply (wrap_range 8). Qed.

(** One round of the loop of [build_concatenated_submissions]. *)
Lemma build_concatenated_part_ok recipient full (gsm7 : bool) cref n mid tid sc sc_address i part s :
  is_byte cref → (Z.of_nat i < n ≤ 255)%Z → encode_address_value sc = Ok sc_address →
  (if gsm7 then (text_width gsm7_width part ≤ 153) else
     Forall is_char part ∧ length (encode_utf16 part) ≤ 67) →
  build_concatenated_part recipient full gsm7 cref n mid tid sc_address i part = Ok s →
  carries recipient sc true s (mkSegment (Some cref) (Z.of_nat i + 1) n) part ∧
  mo_rp_message_reference s = u8 (cref + Z.of_nat i) ∧
  mo_part_index s = (Z.of_nat i + 1)%Z ∧ mo_part_count s = n.
Proof.
  intros Hcref Hi Hsc Hfit Hb. unfold build_concatenated_part in Hb. rust_inv.
  rename x into sequence, x0 into enc, x1 into tpdu, x2 into body.
  assert (sequence = Z.of_nat i + 1)%Z as Hseq by lia. clear H.
  set (udh := [5; 0; 3; cref; n; sequence]%Z) in *.
  assert (bytes_ok udh) as Hudh.
  { unfold udh, bytes_ok. repeat (apply Forall_cons; split; [try done; unfold is_byte; lia|]).
    constructor. }
  assert (∃ udl, enc_user_data_length enc = Z.of_nat udl ∧ length (enc_user_data enc) ≤ 140 ∧
    decode_user_data true (enc_dcs enc) udl (enc_user_data enc) =
      Ok (mkHeader (mkSegment (Some cref) sequence n) 6, part)) as (udl & Hudl & Hlen & Hdec).
  { destruct gsm7.
    - rust_inv. subst enc. cbn [enc_user_data_length enc_user_data enc_dcs].
      rename x into sept, x1 into ud. rewrite (gsm7_text_width part sept) in Hfit by done.
      destruct (decode_concat_gsm7 part sept udh ud cref n sequence) as [Hl Hd];
        [done|lia|done..|].
      exists (7 + length sept). split_and!; [done| |done].
      rewrite Hl. apply div_ceil_le_mul; lia.
    - destruct Hfit as [Hchars Hfit]. rust_inv. subst enc.
      cbn [enc_user_data_length enc_user_data enc_dcs].
      destruct (decode_concat_ucs2 part udh (udh ++ (encode_utf16 part ≫= u16_to_be_bytes))
        cref n sequence) as [Hl Hd]; [done|lia|done..|].
      eexists. split_and!; [done| |exact Hd]. fold udh. change (length (udh ++ (encode_utf16 part ≫= u16_to_be_bytes)) ≤ 140). lia. }
  edestruct (rp_data_of_encoded recipient sc) as (nd & dest & Hn & Hd & Hbody); [done..|].
  assert (u8 (cref + u8 (sequence - 1)) = u8 (cref + Z.of_nat i)) as Href.
  { unfold wrap. rewrite Zplus_mod_idemp_r. do 2 f_equal. lia. }
  subst s. cbn [mo_rp_message_reference mo_part_index mo_part_count]. split; [|done].
  rewrite <-Hseq. unfold carries. cbn [mo_rp_message_reference mo_body mo_body_bytes].
  rewrite Hbody, Hudl. by eexists nd, dest, sc_address, _, udl, _, _.
Qed.

(** ** All parts *)
Lemma imap_pair_lookup {A} (l : list A) i x : imap pair l !! i = Some x ↔ ∃ a, l !! i = Some a ∧ x = (i, a).
Proof.
  rewrite list_lookup_imap. destruct (l !! i); simpl; split;
    [intros [= <-]; eauto|by intros (?&[= <-]&->)|done|by intros (?&?&?)].
Qed.

Lemma build_concatenated_carries ts ctr recipient sc full parts (gsm7 : bool) ctr' subs :
  Forall (λ part, if gsm7 then text_width gsm7_width part ≤ 153
                  else Forall is_char part ∧ length (encode_utf16 part) ≤ 67) parts →
  build_concatenated_submissions ts ctr recipient sc full parts gsm7 = (ctr', Ok subs) →
  length parts = length subs ∧ (2 ≤ length parts ≤ 255) ∧ ctr' = u64 (ctr + Z.of_nat (length subs)) ∧
  ∀ i s part, subs !! i = Some s → parts !! i = Some part →
    carries recipient sc true s
      (mkSegment (Some (u8 ctr)) (Z.of_nat i + 1) (Z.of_nat (length subs))) part ∧
    mo_rp_message_reference s = u8 (ctr + Z.of_nat i) ∧
    mo_part_index s = (Z.of_nat i + 1)%Z ∧ mo_part_count s = Z.of_nat (length subs).
Proof.
  intros Hfit Hb. unfold build_concatenated_submissions in Hb.
  destruct (u8_try_from TextTooLong (length parts)) as [n|e|] eqn:Hn; [|done..].
  apply (u8_try_from_Ok (E:=SmsEncodingError)) in Hn as [-> Hn].
  destruct (Z.ltb_spec (Z.of_nat (length parts)) 2) as [|H2]; [done|]. injection Hb as <- Hb.
  rust_inv. rename x into sc_address. apply collectM_Ok in Hb.
  pose proof (Forall2_length _ _ _ Hb) as Hlen. rewrite length_imap in Hlen.
  split; [done|]. split; [lia|]. split; [by rewrite <-Hlen|].
  intros i s part Hs Hp. rewrite u8_land_ff in Hb.
  destruct (Forall2_lookup_r _ _ _ _ _ Hb Hs) as ([i' part'] & Hi & Hbuild).
  apply imap_pair_lookup in Hi as (p & Hp' & [= <- <-]).
  rewrite Hp in Hp'. injection Hp' as <-.
  apply lookup_lt_Some in Hs as Hlt. rewrite Hlen in Hbuild.
  eapply build_concatenated_part_ok in Hbuild as (Hc & Hr & Hi & Hcnt);
    [|apply is_byte_u8|lia|done|by apply (Forall_lookup_1 _ _ _ _ Hfit Hp)].
  split_and!; [done| |done..]. rewrite Hr. unfold wrap. by rewrite Zplus_mod_idemp_l.
Qed.

(** The segment information of part [i] of [n]. *)
Definition expected_segment (ctr : Z) (n i : nat) : SmsSegmentInfo :=
  if n =? 1 then SmsSegmentInfo_single
  else mkSegment (Some (u8 ctr)) (Z.of_nat i + 1) (Z.of_nat n).

Section build.
Context (ts ctr : Z) (recipient sc : str).

Lemma single_of_build text ctr' subs :
  Forall is_char text →
  (let '(c, r) := build_single_part_mo_submission ts ctr recipient text sc in
   (c, submission ← r; Ok [submission])) = (ctr', Ok subs) →
  trim_end_matches is_cr_lf text = text →
  ∃ s, subs = [s] ∧ ctr' = u64 (ctr + 1) ∧ carries recipient sc false s SmsSegmentInfo_single text ∧
    mo_rp_message_reference s = u8 ctr ∧ mo_part_index s = 1%Z ∧ mo_part_count s = 1%Z.
Proof.
  intros Ht Hb Htrim.
  destruct (build_single_part_mo_submission ts ctr recipient text sc) as [c r] eqn:Hs.
  injection Hb as <- Hb. apply bind_Ok in Hb as (s & -> & [= <-]).
  apply build_single_part_carries in Hs as (Hc & Hs); [|done]. rewrite Htrim in Hs. by exists s.
Qed.

(** The parts [build_mo_submissions] sends: the whole text, or its cuts. *)
Lemma build_mo_submissions_parts text ctr' subs :
  Forall is_char text → build_mo_submissions ts ctr recipient text sc = (ctr', Ok subs) →
  ∃ parts, concat parts = trim_end_matches is_cr_lf text ∧ length parts = length subs ∧
    1 ≤ length subs ≤ 255 ∧ ctr' = u64 (ctr + Z.of_nat (length subs)) ∧
    ∀ i s part, subs !! i = Some s → parts !! i = Some part →
      carries recipient sc (negb (length subs =? 1)) s (expected_segment ctr (length subs) i) part ∧
      mo_rp_message_reference s = u8 (ctr + Z.of_nat i) ∧
      mo_part_index s = (Z.of_nat i + 1)%Z ∧ mo_part_count s = Z.of_nat (length subs).
Proof.
  intros Ht Hb. unfold build_mo_submissions in Hb.
  pose proof (trim_end_matches_idemp is_cr_lf text) as Hidem.
  apply (Forall_trim_end_matches _ is_cr_lf) in Ht. set (t := trim_end_matches is_cr_lf text) in *.
  case_bool_decide; [done|]. case_bool_decide as Hne; [done|].
  assert (∀ s part, carries recipient sc false s SmsSegmentInfo_single t ∧
    mo_rp_message_reference s = u8 ctr ∧ mo_part_index s = 1%Z ∧ mo_part_count s = 1%Z →
    ∀ i s', [s] !! i = Some s' → [t] !! i = Some part →
      carries recipient sc false s' (expected_segment ctr 1 i) part ∧
      mo_rp_message_reference s' = u8 (ctr + Z.of_nat i) ∧
      mo_part_index s' = (Z.of_nat i + 1)%Z ∧ mo_part_count s' = 1%Z) as Hone.
  { intros s part Hc [|i] s' Hs Hp; [|done]. injection Hs as <-. injection Hp as <-.
    change (Z.of_nat 0) with 0%Z. by rewrite Z.add_0_r. }
  assert (∀ parts (gsm7 : bool),
    concat parts = t →
    Forall (λ part, if gsm7 then text_width gsm7_width part ≤ 153
                    else Forall is_char part ∧ length (encode_utf16 part) ≤ 67) parts →
    build_concatenated_submissions ts ctr recipient sc t parts gsm7 = (ctr', Ok subs) →
    ∃ parts, concat parts = t ∧ length parts = length subs ∧ 1 ≤ length subs ≤ 255 ∧
    ctr' = u64 (ctr + Z.of_nat (length subs)) ∧
    ∀ i s part, subs !! i = Some s → parts !! i = Some part →
      carries recipient sc (negb (length subs =? 1)) s (expected_segment ctr (length subs) i) part ∧
      mo_rp_message_reference s = u8 (ctr + Z.of_nat i) ∧
      mo_part_index s = (Z.of_nat i + 1)%Z ∧ mo_part_count s = Z.of_nat (length subs)) as Hmany.
  { intros parts gsm7 Hc Hfit Hcon.
    destruct (build_concatenated_carries _ _ _ _ _ _ _ _ _ Hfit Hcon) as (Hl & Hr & Hctr & Hall).
    exists parts. split_and!; [done..|lia|lia|done|]. unfold expected_segment.
    destruct (Nat.eqb_spec (length subs) 1); [lia|]. exact Hall. }
  destruct (gsm7_septets t) as [sept|] eqn:Hs.
  - destruct (length sept <=? 160).
    + apply single_of_build in Hb as (s & -> & -> & Hb); [|done..]. exists [t].
      simpl. rewrite app_nil_r. split_and!; [done..|lia|lia|done|]. intros i s' part. by eapply Hone.
    + destruct (split_gsm7_text t 153) as [parts| |] eqn:Hsp; [|done..].
      apply split_text_ok in Hsp as [Hc HF].
      * apply (Hmany parts true); [done| |done]. eapply Forall_impl; [exact HF|]. by intros ? [].
      * intros c w ?%gsm7_width_le. lia.
  - destruct (length (encode_utf16 t) <=? 70).
    + apply single_of_build in Hb as (s & -> & -> & Hb); [|done..]. exists [t].
      simpl. rewrite app_nil_r. split_and!; [done..|lia|lia|done|]. intros i s' part. by eapply Hone.
    + destruct (split_ucs2_text t 67) as [parts| |] eqn:Hsp; [|done..].
      apply split_text_ok in Hsp as [Hc HF].
      * apply (Hmany parts false); [done| |done].
        rewrite <-Hc in Ht. apply Forall_concat in Ht.
        rewrite Forall_forall in HF, Ht |- *. intros p Hp. split; [by apply Ht|].
        rewrite <-utf16_text_width. by apply HF.
      * intros c w [= <-]. pose proof (len_utf16_le c). lia.
Qed.
End build.

(** ** The splitter is greedy: only the last part can be short *)
Section greedy.
Context (width : Z → option nat) (max : nat).
Context (Hw : ∀ c w, width c = Some w → 1 ≤ w ≤ 2) (Hmax : 2 ≤ max).

Definition full (p : str) : Prop := max ≤ text_width width p + 1.

Definition full_inv (st : list str * str * nat) : Prop :=
  Forall full st.1.1 ∧ st.2 = text_width width st.1.2.

Lemma split_step_full st c st' :
  full_inv st → split_step width max st c = Ok st' → full_inv st' ∧ 1 ≤ st'.2.
Proof.
  destruct st as [[parts current] used]. intros [HF Hu] Hs. simpl in *.
  unfold split_step in Hs. rust_inv. rename x into w.
  assert (text_width width [c] = w) as Hc.
  { unfold text_width. simpl. rewrite H. simpl. lia. }
  pose proof (Hw c w H). unfold full_inv.
  destruct ((max <? used + w) && negb (bool_decide (current = []))) eqn:Hb;
    injection Hs as <-; simpl.
  - bool_prop. rewrite Hc. split_and!; [|done|lia]. apply Forall_app. split; [done|].
    apply Forall_singleton. unfold full. lia.
  - rewrite text_width_app, Hc, Hu. split_and!; [done..|lia].
Qed.

Lemma split_fold_full l st st' :
  full_inv st → l ≠ [] → foldM (split_step width max) st l = Ok st' →
  full_inv st' ∧ 1 ≤ st'.2.
Proof.
  revert st. induction l as [|c l IH]; intros st Hi Hne Hf; [done|]. simpl in Hf.
  rust_inv. edestruct split_step_full as [Hi' Hu']; [done..|].
  destruct l as [|c' l]; [by injection Hf as <-|]. by eapply IH.
Qed.

Lemma full_concat ps : Forall full ps → length ps * (max - 1) ≤ text_width width (concat ps).
Proof.
  induction 1 as [|p ps Hp _ IH]; simpl; [lia|]. rewrite text_width_app. unfold full in Hp. lia.
Qed.

Lemma split_text_count text parts :
  text ≠ [] → split_text width text max = Ok parts →
  (length parts - 1) * (max - 1) < text_width width text.
Proof.
  intros Hne Hs.
  destruct (split_text_ok width max ltac:(intros c w ?%Hw; lia) text parts Hs) as [Hc _].
  unfold split_text in Hs. apply bind_Ok in Hs as ([[ps cur] used] & Hf & Hs).
  injection Hs as Hs.
  apply split_fold_full in Hf as [[HF Hu] H1]; [|by split|done]. simpl in *.
  assert (cur ≠ []) as Hcur by (intros ->; unfold text_width in Hu; simpl in Hu; lia).
  rewrite bool_decide_eq_false_2 in Hs by done. subst parts.
  rewrite <-Hc, length_app. simpl. rewrite Nat.add_sub, concat_app, text_width_app. simpl.
  rewrite app_nil_r. apply full_concat in HF. lia.
Qed.

(** Nor can the text be cut into fewer parts: whatever pieces a prefix is cut into,
    the splitter is not behind, in parts or, with as many, in the width in use. *)
Definition ahead (read : str) (st : list str * str * nat) : Prop :=
  ∀ q last, concat q ++ last = read → Forall (λ p, text_width width p ≤ max) (q ++ [last]) →
    length st.1.1 < length q ∨ length st.1.1 = length q ∧ st.2 ≤ text_width width last.

Lemma split_step_ahead read st c st' : full_inv st →
  ahead read st → split_step width max st c = Ok st' → ahead (read ++ [c]) st'.
Proof.
  destruct st as [[parts current] used]. intros [_ Hu] Ha Hs. unfold split_step in Hs. rust_inv. rename x into w.
  assert (text_width width [c] = w) as Hc by (unfold text_width; simpl; rewrite H; simpl; lia).
  pose proof (Hw c w H). simpl in Hu.
  assert (∀ q last, concat q ++ last = read → Forall (λ p, text_width width p ≤ max) (q ++ [last ++ [c]]) →
    length st'.1.1 < length q ∨ length st'.1.1 = length q ∧ st'.2 ≤ text_width width (last ++ [c])) as Hone.
  { intros q last Hq [HF Hl]%Forall_app. rewrite Forall_singleton in Hl. rewrite text_width_app, Hc in *.
    assert (Forall (λ p, text_width width p ≤ max) (q ++ [last])) as HF'.
    { apply Forall_app. split; [done|]. apply Forall_singleton. lia. }
    specialize (Ha q last Hq HF'). simpl in Ha.
    destruct (Nat.ltb_spec max (used + w)); destruct (bool_decide_reflect (current = [])) as [->|];
      simpl in Hs; injection Hs as <-; simpl; rewrite ?length_app; simpl; try lia;
      change (text_width width []) with 0 in Hu; lia. }
  intros q. induction q as [|p q IH] using rev_ind; intros last.
  - destruct last as [|x last _] using rev_ind; [by destruct read|].
    rewrite app_assoc. intros [Hq <-]%app_inj_tail. by apply Hone.
  - destruct last as [|x last _] using rev_ind.
    + rewrite app_nil_r, concat_app. simpl. rewrite app_nil_r. intros Hq [HF _]%Forall_app.
      destruct (IH p Hq HF); rewrite length_app; simpl; lia.
    + rewrite app_assoc. intros [Hq <-]%app_inj_tail. by apply Hone.
Qed.

Lemma split_fold_ahead l read st st' : full_inv st → ahead read st →
  foldM (split_step width max) st l = Ok st' → ahead (read ++ l) st'.
Proof.
  revert read st. induction l as [|c l IH]; intros read st Hi Ha Hf; simpl in Hf.
  { injection Hf as <-. by rewrite app_nil_r. }
  rust_inv. rewrite (cons_middle c), app_assoc. eapply IH; [|by eapply split_step_ahead|done].
  by eapply split_step_full.
Qed.

Lemma split_text_fewest text parts q : split_text width text max = Ok parts →
  concat q = text → Forall (λ p, text_width width p ≤ max) q → length parts ≤ length q.
Proof.
  unfold split_text. intros Hs Hq HF. apply bind_Ok in Hs as ([[ps cur] used] & Hf & <-%Ok_inj).
  assert (full_inv ([], [], 0)) as H0 by done.
  pose proof (split_fold_ahead _ [] _ _ H0 ltac:(intros [|??] ? _ _; simpl; lia) Hf) as Ha.
  destruct q as [|p q _] using rev_ind.
  { simpl in Hq. subst text. by injection Hf as <- <- <-. }
  rewrite concat_app in Hq. simpl in Hq. rewrite app_nil_r in Hq. specialize (Ha q p Hq HF). simpl in Ha.
  rewrite length_app. simpl. case_bool_decide; rewrite ?length_app; simpl; lia.
Qed.
End greedy.

(** ** Building succeeds *)
Lemma encode_submit_user_data_total t :
  t ≠ [] →
  (∀ s, gsm7_septets t = Some s → length s ≤ 160) →
  (gsm7_septets t = None → length (encode_utf16 t) ≤ 70) →
  ∃ enc, encode_submit_user_data t = Ok enc.
Proof.
  intros Hne Hg Hu. unfold encode_submit_user_data.
  destruct (gsm7_septets t) as [s|] eqn:Hs.
  - destruct (encode_gsm7_user_data_ok (E:=SmsEncodingError) t s Hs) as (out & -> & _).
    specialize (Hg s eq_refl). cbn [mbind res_bind].
    destruct (Nat.ltb_spec 160 (length s)); [lia|]. simpl. rewrite u8_try_from_le by lia. simpl. eauto.
  - unfold encode_gsm7_user_data. rewrite Hs. simpl. specialize (Hu eq_refl).
    unfold encode_ucs2_user_data.
    rewrite bool_decide_eq_false_2.
    2:{ destruct t as [|c t]; [done|]. rewrite encode_utf16_cons. unfold encode_utf16_char.
        by case_match. }
    simpl. destruct (Nat.ltb_spec 70 (length (encode_utf16 t))); [lia|]. simpl.
    assert (length (encode_utf16 t ≫= u16_to_be_bytes) = 2 * length (encode_utf16 t)) as Hl.
    { generalize (encode_utf16 t) as l. induction l as [|u l IH]; [done|].
      rewrite bind_cons, length_app, IH. simpl. lia. }
    destruct (Nat.ltb_spec 140 (length (encode_utf16 t ≫= u16_to_be_bytes))); [lia|].
    simpl. rewrite u8_try_from_le by lia. simpl. eauto.
Qed.

Lemma rp_data_total recipient sc first reference enc dest sc_address :
  encode_address_value recipient = Ok dest → encode_address_value sc = Ok sc_address →
  length (enc_user_data enc) ≤ 140 →
  ∃ tpdu body, build_sms_submit_tpdu_encoded recipient reference first enc = Ok tpdu ∧
    rp_data_body reference sc_address tpdu = Ok body.
Proof.
  intros Hd Hsc Hl. pose proof (encode_address_value_length _ _ Hd).
  pose proof (encode_address_value_length _ _ Hsc).
  pose proof Hd as Hd'. unfold encode_address_value in Hd'. apply bind_Ok in Hd' as (nd & Hn & _).
  rewrite (build_sms_submit_tpdu_encoded_ok _ _ _ _ nd dest) by done.
  eexists _, _. split; [done|]. apply rp_data_body_ok; [lia|].
  rewrite length_submit_tpdu_layout. lia.
Qed.

Lemma build_single_part_total ts ctr recipient text sc dest sc_address :
  Forall is_char text →
  encode_address_value recipient = Ok dest → encode_address_value sc = Ok sc_address →
  trim recipient ≠ [] → trim_end_matches is_cr_lf text = text → text ≠ [] →
  (∀ s, gsm7_septets text = Some s → length s ≤ 160) →
  (gsm7_septets text = None → length (encode_utf16 text) ≤ 70) →
  ∃ ctr' s, build_single_part_mo_submission ts ctr recipient text sc = (ctr', Ok s).
Proof.
  intros Hch Hd Hsc Hr Ht Hne Hg Hu. unfold build_single_part_mo_submission.
  rewrite Ht, !bool_decide_eq_false_2 by done. simpl. unfold build_sms_submit_tpdu.
  destruct (encode_submit_user_data_total text) as [enc Henc]; [done..|].
  destruct (encode_submit_user_data_ok text enc) as (udl & hdr & _ & Hl & _); [done..|].
  destruct (rp_data_total recipient sc 0x01 (u8 (Z.land ctr 255)) enc dest sc_address)
    as (tpdu & body & Htp & Hb); [done..|].
  rewrite Henc. cbn [mbind res_bind]. rewrite Htp. cbn [mbind res_bind]. rewrite Hsc.
  cbn [mbind res_bind]. rewrite Hb. cbn [mbind res_bind]. eauto.
Qed.

Lemma build_concatenated_part_total recipient full (gsm7 : bool) cref n mid tid sc sc_address dest i part :
  is_byte cref → (Z.of_nat i < n ≤ 255)%Z →
  encode_address_value recipient = Ok dest → encode_address_value sc = Ok sc_address →
  (if gsm7 then is_Some (gsm7_septets part) ∧ text_width gsm7_width part ≤ 153 else
     Forall is_char part ∧ length (encode_utf16 part) ≤ 67) →
  ∃ s, build_concatenated_part recipient full gsm7 cref n mid tid sc_address i part = Ok s.
Proof.
  intros Hcref Hi Hd Hsc Hfit. unfold build_concatenated_part.
  rewrite (u8_try_from_le TextTooLong (i + 1)) by lia.
  cbn [mbind res_bind].
  set (sequence := Z.of_nat (i + 1)). set (udh := [5; 0; 3; cref; n; sequence]%Z).
  set (enc_r := if gsm7 then _ else _).
  assert (∃ enc, enc_r = Ok enc ∧ length (enc_user_data enc) ≤ 140) as (enc & -> & Hl).
  { unfold enc_r. destruct gsm7.
    - destruct Hfit as [[s Hs] Hw]. rewrite Hs. cbn [ok_or mbind res_bind].
      rewrite (gsm7_text_width part s Hs) in Hw.
      rewrite u8_try_from_le by lia. cbn [mbind res_bind].
      destruct (pack_gsm7_with_udh_ok (E:=SmsEncodingError) udh s) as (ud & Hud & Hlen & _).
      { unfold udh, bytes_ok. repeat (apply Forall_cons; split; [try done; unfold is_byte; lia|]).
        constructor. }
      rewrite Hud. cbn [mbind res_bind]. eexists. split; [done|]. cbn [enc_user_data].
      rewrite Hlen. change (div_ceil (length udh * 8) 7) with 7. apply div_ceil_le_mul; lia.
    - destruct Hfit as [Hch Hw]. pose proof (encode_utf16_units part Hch) as [_ Hlen]%be_units_to_bytes.
      assert (length (udh ++ (encode_utf16 part ≫= u16_to_be_bytes)) ≤ 140) as Hl.
      { rewrite length_app, Hlen. simpl. lia. }
      rewrite u8_try_from_le by lia.
      cbn [mbind res_bind]. eexists. split; [done|]. exact Hl. }
  cbn [mbind res_bind].
  destruct (rp_data_total recipient sc 0x41 (u8 (cref + u8 (sequence - 1))) enc dest sc_address)
    as (tpdu & body & -> & Hb); [done..|].
  cbn [mbind res_bind]. rewrite Hb. cbn [mbind res_bind]. eauto.
Qed.

Lemma build_concatenated_total ts ctr recipient sc full parts (gsm7 : bool) dest sc_address :
  encode_address_value recipient = Ok dest → encode_address_value sc = Ok sc_address →
  Forall (λ part, if gsm7 then is_Some (gsm7_septets part) ∧ text_width gsm7_width part ≤ 153
                  else Forall is_char part ∧ length (encode_utf16 part) ≤ 67) parts →
  2 ≤ length parts ≤ 255 →
  ∃ ctr' subs, build_concatenated_submissions ts ctr recipient sc full parts gsm7 = (ctr', Ok subs).
Proof.
  intros Hd Hsc Hfit Hl. unfold build_concatenated_submissions.
  rewrite u8_try_from_le by lia.
  destruct (Z.ltb_spec (Z.of_nat (length parts)) 2); [lia|]. simpl. rewrite Hsc. simpl.
  set (f := λ '(index, part), _).
  assert (∀ l, (∀ x, x ∈ l → ∃ s, f x = Ok s) → ∃ subs, collectM (E:=SmsEncodingError) f l = Ok subs)
    as Hcol.
  { induction l as [|x l IH]; intros Hx; simpl; [eauto|].
    destruct (Hx x) as [s Hs]; [by constructor|]. rewrite Hs. simpl.
    destruct IH as [subs ->]; [intros; apply Hx; by constructor|]. simpl. eauto. }
  destruct (Hcol (imap pair parts)) as [subs ->]; [|eauto].
  intros [i part] (k & Hk)%list_elem_of_lookup. apply imap_pair_lookup in Hk as (p & Hp & [= -> ->]).
  unfold f. eapply build_concatenated_part_total;
    [rewrite u8_land_ff; apply is_byte_u8|apply lookup_lt_Some in Hp; lia|done..|].
  by apply (Forall_lookup_1 _ _ _ _ Hfit Hp).
Qed.

(** ** The modem wrapper *)
Lemma modem_pdu_of_layout reference sc first tl :
  length sc ≤ 255 → length tl ≤ 254 →
  modem_pdu_of_body (rp_data_layout reference sc (first :: tl)) =
    Ok ([Z.of_nat (length sc)] ++ sc ++ Z.lor first 0x20 :: tl).
Proof.
  intros Hsc Htl. unfold modem_pdu_of_body, rp_data_layout.
  set (hd := [0; reference; 0; Z.of_nat (length sc)]%Z).
  set (tl' := [Z.of_nat (length (first :: tl))] ++ first :: tl).
  set (n := Z.of_nat (length (first :: tl))) in *.
  assert (∀ k, k = 4 + length sc → (hd ++ sc ++ tl') !! k = Some n) as Hn.
  { intros k ->. rewrite app_assoc. apply list_lookup_middle. rewrite length_app. done. }
  assert (∀ a b, a = 5 + length sc → b = a + length (first :: tl) →
    get_range (hd ++ sc ++ tl') a b = Some (first :: tl)) as Htpdu.
  { intros a b -> ->. replace (hd ++ sc ++ tl') with ((hd ++ sc ++ [n]) ++ (first :: tl) ++ [])
      by (unfold tl'; by rewrite app_nil_r, <-!app_assoc).
    apply get_range_app; rewrite ?length_app; simpl; lia. }
  change ((hd ++ sc ++ tl') !! 2) with (Some 0%Z). cbn [ok_or mbind res_bind].
  change ((hd ++ sc ++ tl') !! (3 + Z.to_nat 0)) with (Some (Z.of_nat (length sc))).
  cbn [ok_or mbind res_bind]. rewrite Nat2Z.id.
  rewrite (get_range_app hd sc tl') by done. cbn [ok_or mbind res_bind].
  rewrite Hn by lia. cbn [ok_or mbind res_bind]. unfold n. rewrite !Nat2Z.id.
  rewrite Htpdu by (simpl; lia). cbn [ok_or mbind res_bind]. rewrite (wrap_small 8) by (simpl; lia).
  change ([Z.of_nat (length sc)] ++ sc ++ ?l) with ((Z.of_nat (length sc) :: sc) ++ l).
  unfold update_at. rewrite idx_app by done. cbn [mbind res_bind]. f_equal.
  change (1 + length sc) with (length (Z.of_nat (length sc) :: sc)).
  rewrite <-(Nat.add_0_r (length _)), insert_app_r. done.
Qed.

Lemma encode_address_value_nonblank a v : encode_address_value a = Ok v → trim a ≠ [].
Proof.
  unfold encode_address_value, normalized_address_digits. intros (n & Hn & _)%bind_Ok Ht.
  by rewrite Ht in Hn.
Qed.

(** What a part of a concatenated message holds: 153 septets or 67 UTF-16 units. *)
Definition fits_a_part (gsm7 : bool) (p : str) : Prop :=
  if gsm7 then ∃ s, gsm7_septets p = Some s ∧ length s ≤ 153 else length (encode_utf16 p) ≤ 67.
(** A text can be sent when it can be cut, at whatever places, into at most 255 parts. *)
Definition sendable (t : str) : Prop :=
  ∃ pieces, concat pieces = t ∧ length pieces ≤ 255 ∧
    Forall (fits_a_part (bool_decide (is_Some (gsm7_septets t)))) pieces.

(** The splitter decides it: its parts fit, and no other cut has fewer. *)
Lemma split_gsm7_sendable t s : gsm7_septets t = Some s →
  ∃ parts, split_gsm7_text t 153 = Ok parts ∧ Forall (fits_a_part true) parts ∧
    (sendable t ↔ length parts ≤ 255).
Proof.
  intros Hs. unfold split_gsm7_text.
  destruct (split_text_total gsm7_width 153 t) as [parts Hp]; [by eapply gsm7_septets_widths|].
  destruct (split_text_ok gsm7_width 153 ltac:(intros c w ?%gsm7_width_le; lia) t parts Hp) as [Hc HF].
  assert (Forall (fits_a_part true) parts) as Hfit.
  { rewrite <-Hc in Hs. apply gsm7_septets_concat in Hs. rewrite Forall_forall in Hs, HF |- *.
    intros p Hin. destruct (Hs p Hin) as [s' Hs']. exists s'. split; [done|].
    rewrite <-(gsm7_text_width p s' Hs'). by apply HF. }
  exists parts. unfold sendable. rewrite bool_decide_eq_true_2 by eauto. split_and!; [done..|]. split.
  - intros (q & Hq & Hl & Hf). etrans; [|exact Hl].
    apply (split_text_fewest gsm7_width 153 gsm7_width_le ltac:(lia) t parts q Hp Hq).
    eapply Forall_impl; [exact Hf|]. intros p (s' & Hs' & ?). by rewrite (gsm7_text_width p s' Hs').
  - by exists parts.
Qed.
Lemma split_ucs2_sendable t : gsm7_septets t = None →
  ∃ parts, split_ucs2_text t 67 = Ok parts ∧ Forall (fits_a_part false) parts ∧
    (sendable t ↔ length parts ≤ 255).
Proof.
  intros Hs. unfold split_ucs2_text.
  assert (∀ c w, Some (len_utf16 c) = Some w → 1 ≤ w ≤ 2) as Hw by (intros c w [= <-]; apply len_utf16_le).
  destruct (split_text_total (λ c, Some (len_utf16 c)) 67 t) as [parts Hp]; [apply Forall_true; eauto|].
  destruct (split_text_ok _ 67 ltac:(intros c w ?%Hw; lia) t parts Hp) as [Hc HF].
  assert (∀ l, Forall (λ p, text_width (λ c, Some (len_utf16 c)) p ≤ 67) l ↔ Forall (fits_a_part false) l) as Hfit.
  { intros l. apply Forall_iff. intros p. by rewrite utf16_text_width. }
  assert (Forall (fits_a_part false) parts) as Hparts.
  { apply Hfit. eapply Forall_impl; [exact HF|]. by intros p []. }
  exists parts. unfold sendable. rewrite bool_decide_eq_false_2 by (rewrite Hs; by intros []).
  split_and!; [done..|]. split.
  - intros (q & Hq & Hl & Hf). etrans; [|exact Hl].
    apply (split_text_fewest _ 67 Hw ltac:(lia) t parts q Hp Hq). by apply Hfit.
  - by exists parts.
Qed.

(** What fits one message fits two parts. *)
Lemma short_sendable t :
  match gsm7_septets t with Some s => length s ≤ 160 | None => length (encode_utf16 t) ≤ 70 end → sendable t.
Proof.
  intros Hl. destruct (decide (t = [])) as [->|Hne].
  { exists []. split_and!; [done|simpl; lia|constructor]. }
  destruct (gsm7_septets t) as [s|] eqn:Hs.
  - destruct (split_gsm7_sendable t s Hs) as (parts & Hp & _ & ->).
    pose proof (split_text_count gsm7_width 153 gsm7_width_le ltac:(lia) t parts Hne Hp) as Hn.
    rewrite (gsm7_text_width t s Hs) in Hn. lia.
  - destruct (split_ucs2_sendable t Hs) as (parts & Hp & _ & ->).
    assert (∀ c w, Some (len_utf16 c) = Some w → 1 ≤ w ≤ 2) as Hw by (intros c w [= <-]; apply len_utf16_le).
    pose proof (split_text_count _ 67 Hw ltac:(lia) t parts Hne Hp) as Hn.
    rewrite utf16_text_width in Hn. lia.
Qed.

(** Success needs a text that can be sent, and such a text is built. *)
Lemma built_sendable ts ctr recipient text sc ctr' subs :
  build_mo_submissions ts ctr recipient text sc = (ctr', Ok subs) →
  trim_end_matches is_cr_lf text ≠ [] ∧ sendable (trim_end_matches is_cr_lf text).
Proof.
  unfold build_mo_submissions. set (t := trim_end_matches is_cr_lf text).
  case_bool_decide; [done|]. case_bool_decide as Hne; [done|]. intros Hb. split; [done|].
  assert (∀ parts gsm7, build_concatenated_submissions ts ctr recipient sc t parts gsm7 = (ctr', Ok subs) →
    length parts ≤ 255) as Hcount.
  { intros parts gsm7. unfold build_concatenated_submissions.
    destruct (u8_try_from TextTooLong (length parts)) as [n|e|] eqn:Hn; [|done..].
    apply (u8_try_from_Ok (E:=SmsEncodingError)) in Hn as [_ Hn]. intros _. lia. }
  destruct (gsm7_septets t) as [s|] eqn:Hs.
  - destruct (Nat.leb_spec (length s) 160); [apply short_sendable; by rewrite Hs|].
    destruct (split_gsm7_sendable t s Hs) as (parts & Hp & _ & ->). rewrite Hp in Hb. by eapply Hcount.
  - destruct (Nat.leb_spec (length (encode_utf16 t)) 70); [apply short_sendable; by rewrite Hs|].
    destruct (split_ucs2_sendable t Hs) as (parts & Hp & _ & ->). rewrite Hp in Hb. by eapply Hcount.
Qed.
Lemma sendable_built ts ctr recipient text sc dest sc_address :
  Forall is_char text → trim_end_matches is_cr_lf text ≠ [] →
  encode_address_value recipient = Ok dest → encode_address_value sc = Ok sc_address →
  sendable (trim_end_matches is_cr_lf text) →
  ∃ ctr' subs, build_mo_submissions ts ctr recipient text sc = (ctr', Ok subs).
Proof.
  intros Ht Hne Hd Hsc Hsend. pose proof (encode_address_value_nonblank _ _ Hd) as Hr.
  unfold build_mo_submissions. pose proof (trim_end_matches_idemp is_cr_lf text) as Hidem.
  apply (Forall_trim_end_matches _ is_cr_lf) in Ht. set (t := trim_end_matches is_cr_lf text) in *.
  rewrite !bool_decide_eq_false_2 by done.
  assert ((∀ s, gsm7_septets t = Some s → length s ≤ 160) →
    (gsm7_septets t = None → length (encode_utf16 t) ≤ 70) →
    ∃ ctr' subs, (let '(c, r) := build_single_part_mo_submission ts ctr recipient t sc in
     (c, submission ← r; Ok [submission])) = (ctr', Ok subs)) as Hone.
  { intros Hg Hu. edestruct (build_single_part_total ts ctr recipient t sc) as (c & s & ->);
      [done..|]. simpl. eauto. }
  destruct (gsm7_septets t) as [s|] eqn:Hs.
  - destruct (Nat.leb_spec (length s) 160); [apply Hone; [by intros ? [= <-]|done]|].
    destruct (split_gsm7_sendable t s Hs) as (parts & Hp & Hfit & Hn). rewrite Hp. apply Hn in Hsend.
    eapply build_concatenated_total; [done..| |].
    + eapply Forall_impl; [exact Hfit|]. intros p (s' & Hs' & ?). split; [by exists s'|].
      by rewrite (gsm7_text_width p s' Hs').
    + pose proof (split_text_at_least_two gsm7_width 153 ltac:(intros c w ?%gsm7_width_le; lia) t parts Hp) as H2.
      rewrite (gsm7_text_width t s Hs) in H2. lia.
  - destruct (Nat.leb_spec (length (encode_utf16 t)) 70); [by apply Hone|].
    destruct (split_ucs2_sendable t Hs) as (parts & Hp & Hfit & Hn). rewrite Hp.
    assert (∀ c w, Some (len_utf16 c) = Some w → w ≤ 67) as Hw by (intros c w [= <-]; pose proof (len_utf16_le c); lia).
    destruct (split_text_ok _ 67 Hw t parts Hp) as [Hc _].
    eapply build_concatenated_total; [done..| |].
    + rewrite <-Hc in Ht. apply Forall_concat in Ht. rewrite Forall_forall in Ht, Hfit |- *.
      intros p Hin. split; [by apply Ht|by apply Hfit].
    + pose proof (split_text_at_least_two _ 67 Hw t parts Hp) as H2. rewrite utf16_text_width in H2.
      apply Hn in Hsend. lia.
Qed.

(** * Properties *)

(** C2: end to end, the parts that [build_mo_submissions] puts on the wire are the
    text.  On success the message counter advances by the number of parts; part
    [i] is an RP-DATA/SMS-SUBMIT for the recipient with at most 140 octets of
    user data, numbered [i + 1] of [n] under one concatenation reference with
    consecutive RP references; and the user-data decoder of the receiving side
    returns pieces that concatenate to the text (trailing line ends dropped). *)
Theorem mo_submissions_carry_text ts ctr recipient text sc ctr' subs :
  Forall is_char text → build_mo_submissions ts ctr recipient text sc = (ctr', Ok subs) →
  ∃ parts, concat parts = trim_end_matches is_cr_lf text ∧ length parts = length subs ∧
    1 ≤ length subs ≤ 255 ∧ ctr' = u64 (ctr + Z.of_nat (length subs)) ∧
    ∀ i s part, subs !! i = Some s → parts !! i = Some part →
      carries recipient sc (negb (length subs =? 1)) s (expected_segment ctr (length subs) i) part ∧
      mo_rp_message_reference s = u8 (ctr + Z.of_nat i) ∧
      mo_part_index s = (Z.of_nat i + 1)%Z ∧ mo_part_count s = Z.of_nat (length subs).
Proof. apply build_mo_submissions_parts. Qed.

Lemma mo_submissions_carry_text_witness :
  ∃ parts, concat parts = lit "hello" ∧ length parts = 1.
Proof.
  destruct (mo_submissions_carry_text 0 7 (lit "+1234") (lit "hello") (lit "+12345") 8
    (match snd (build_mo_submissions 0 7 (lit "+1234") (lit "hello") (lit "+12345")) with
     | Ok subs => subs | _ => [] end))
    as (parts & Hc & Hl & _).
  - apply (bool_decide_unpack _). vm_compute. exact I.
  - vm_compute. reflexivity.
  - exists parts. split; [exact Hc|]. rewrite Hl. vm_compute. reflexivity.
Defined.

(** C3: building succeeds exactly when it can.  For valid scalar values the result is a
    list of submissions if and only if both addresses can be encoded, the text is not
    only line ends, and there is some way to cut it into at most 255 parts of the size
    its alphabet allows: the places where the code cuts never cost a text, up to the
    longest one that fits 255 parts. *)
Theorem mo_submissions_succeed ts ctr recipient text sc : Forall is_char text →
  (∃ ctr' subs, build_mo_submissions ts ctr recipient text sc = (ctr', Ok subs)) ↔
  (∃ dest, encode_address_value recipient = Ok dest) ∧ (∃ sc_address, encode_address_value sc = Ok sc_address) ∧
  trim_end_matches is_cr_lf text ≠ [] ∧ sendable (trim_end_matches is_cr_lf text).
Proof.
  intros Ht. split.
  - intros (ctr' & subs & Hb). destruct (build_mo_submissions_parts _ _ _ _ _ _ _ Ht Hb) as (parts & _ & Hl & Hn & _ & Hall).
    destruct subs as [|s subs]; [simpl in Hn; lia|]. destruct parts as [|part parts]; [done|].
    destruct (Hall 0 s part eq_refl eq_refl) as [(nd & dest & sca & dcs & udl & ud & hdr & _ & Hd & Hsc & _) _].
    split; [by exists dest|]. split; [by exists sca|]. exact (built_sendable _ _ _ _ _ _ _ Hb).
  - intros ([dest Hd] & [sca Hsc] & Hne & Hs). by eapply sendable_built.
Qed.

(** The longest text of the basic alphabet: 255 parts of 153 characters. *)
Definition longest_text : str := concat (replicate 255 (replicate 153 97%Z)).
Lemma longest_text_sendable : sendable longest_text.
Proof.
  exists (replicate 255 (replicate 153 97%Z)). split; [done|]. split; [rewrite length_replicate; lia|].
  assert (is_Some (gsm7_septets longest_text)) as Hg by (apply (bool_decide_unpack _); vm_compute; exact I).
  rewrite bool_decide_eq_true_2 by exact Hg.
  apply Forall_replicate. exists (replicate 153 97%Z). split; [vm_compute; reflexivity|rewrite length_replicate; lia].
Qed.
Lemma mo_submissions_succeed_witness :
  Forall is_char longest_text ∧ ∃ ctr' subs, build_mo_submissions 0 7 (lit "+1234") longest_text (lit "+12345") =
    (ctr', Ok subs).
Proof.
  assert (Forall is_char longest_text) as Hc by (apply (bool_decide_unpack _); vm_compute; exact I).
  split; [exact Hc|]. apply (mo_submissions_succeed 0 7 (lit "+1234") longest_text (lit "+12345") Hc).
  split; [eexists; vm_compute; reflexivity|]. split; [eexists; vm_compute; reflexivity|].
  assert (trim_end_matches is_cr_lf longest_text = longest_text) as Ht by (apply (bool_decide_unpack _); vm_compute; exact I).
  rewrite Ht. split; [apply (bool_decide_unpack _); vm_compute; exact I|exact longest_text_sendable].
Defined.

(** The modem leg sends the same TPDUs: whenever the RP-DATA submissions are
    built, [build_modem_submit_pdus] succeeds too, and each PDU is the
    length-prefixed service centre address followed by the submission's TPDU with
    only the status-report bit of its first octet added. *)
Theorem modem_submit_pdus_request_reports ts ctr recipient text sc ctr' subs :
  Forall is_char text → build_mo_submissions ts ctr recipient text sc = (ctr', Ok subs) →
  ∃ pdus, build_modem_submit_pdus ts ctr recipient text sc = (ctr', Ok pdus) ∧
    length pdus = length subs ∧
    ∀ i s pdu, subs !! i = Some s → pdus !! i = Some pdu →
      ∃ sc_address first tl,
        encode_address_value sc = Ok sc_address ∧
        mo_body s = rp_data_layout (mo_rp_message_reference s) sc_address (first :: tl) ∧
        pdu = Z.of_nat (length sc_address) :: sc_address ++ Z.lor first 0x20 :: tl ∧
        Z.land first 0x20 = 0%Z.
Proof.
  intros Ht Hb. unfold build_modem_submit_pdus. rewrite Hb.
  destruct (build_mo_submissions_parts ts ctr recipient sc text ctr' subs Ht Hb)
    as (parts & _ & Hlen & _ & _ & Hall).
  set (good (s : MoSmsSubmission) (pdu : list Z) := ∃ sc_address first tl,
    encode_address_value sc = Ok sc_address ∧
    mo_body s = rp_data_layout (mo_rp_message_reference s) sc_address (first :: tl) ∧
    pdu = Z.of_nat (length sc_address) :: sc_address ++ Z.lor first 0x20 :: tl ∧
    Z.land first 0x20 = 0%Z).
  assert (∀ s, s ∈ subs → ∃ pdu, modem_pdu_of_body (mo_body s) = Ok pdu ∧ good s pdu) as Hone.
  { intros s (i & Hs)%list_elem_of_lookup.
    destruct (lookup_lt_is_Some_2 parts i) as [part Hp];
      [rewrite Hlen; by eapply lookup_lt_Some|].
    destruct (Hall i s part Hs Hp) as [(nd & dest & sc_address & dcs & udl & ud & hdr &
      _ & Hd & Hsc & Hbody & _ & Hud & _) _].
    pose proof (encode_address_value_length _ _ Hd). pose proof (encode_address_value_length _ _ Hsc).
    rewrite Hbody. unfold submit_tpdu_layout. cbn [app].
    rewrite modem_pdu_of_layout; [|lia|]; [eexists; split; [done|]|].
    - eexists sc_address, _, _. split_and!; [done|rewrite Hbody; done|done|].
      by destruct (negb _).
    - cbn [length]. rewrite length_app. cbn [length]. lia. }
  clear -Hone. assert (∃ pdus, collectM (λ s, modem_pdu_of_body (mo_body s)) subs = Ok pdus ∧
    Forall2 good subs pdus) as (pdus & Hcol & HF).
  { induction subs as [|s subs IH]; [by exists []|]. simpl.
    destruct (Hone s) as (pdu & -> & Hg); [by constructor|]. simpl.
    destruct IH as (pdus & -> & HF); [intros; apply Hone; by constructor|].
    eexists. split; [done|]. by constructor. }
  exists pdus. cbn [mbind res_bind]. rewrite Hcol. split; [done|].
  split; [symmetry; by eapply Forall2_length|]. intros i s pdu Hs Hp.
  by apply (Forall2_lookup_lr _ _ _ _ _ _ HF Hs Hp).
Qed.

Lemma modem_submit_pdus_request_reports_witness :
  ∃ pdus, build_modem_submit_pdus 0 7 (lit "+1234") (lit "hello") (lit "+12345") =
    (8%Z, Ok pdus) ∧ length pdus = 1.
Proof.
  destruct (modem_submit_pdus_request_reports 0 7 (lit "+1234") (lit "hello") (lit "+12345") 8
    (match snd (build_mo_submissions 0 7 (lit "+1234") (lit "hello") (lit "+12345")) with
     | Ok subs => subs | _ => [] end))
    as (pdus & Hb & Hl & _).
  - apply (bool_decide_unpack _). vm_compute. exact I.
  - vm_compute. reflexivity.
  - exists pdus. split; [exact Hb|]. rewrite Hl. vm_compute. reflexivity.
Defined.
