(* ===== verification/SmsDeliver.v ===== *)
(** * Mobile-terminated SMS: parsing what the network delivers

    Theorems about the parsers of [SmsCodec]: they are total on arbitrary
    input, numeric addresses survive the semi-octet encoding, and a well-formed
    RP-DATA / SMS-DELIVER is parsed into exactly its fields. *)
From Stdlib Require Import Ascii String ZArith Lia.
From stdpp Require Import prelude.
From S2P Require Import Prelude Text Gsm7 SmsCodec SmsSubmit.

(** ** Semi-octet addresses *)
Definition address_text (nd : NormalizedAddressDigits) : str :=
  (if international nd then [ch "+"] else []) ++ digits_of nd.

Lemma digit_nibble c :
  is_ascii_digit c = true →
  (0 ≤ c - ch "0" ≤ 9)%Z ∧ address_nibble_char (c - ch "0") = c ∧ c ≠ ch "+".
Proof.
  intros Hc%in_range_true. change (ch "0") with 48%Z in *. change (ch "9") with 57%Z in Hc.
  unfold address_nibble_char. rewrite (proj2 (in_range_true 0 9 (c - 48))) by lia.
  change (ch "0") with 48%Z. change (ch "+") with 43%Z. split_and!; lia.
Qed.

(** One octet of two semi-octets, taken apart. *)
Lemma semi_octet a b :
  (0 ≤ a < 16)%Z → (0 ≤ b < 16)%Z →
  Z.land (Z.lor a (Z.shiftl b 4)) 0x0f = a ∧ Z.shiftr (Z.lor a (Z.shiftl b 4)) 4 = b.
Proof.
  intros Ha Hb.
  assert (a mod 2 ^ 4 = a)%Z as Ha4 by (apply Z.mod_small; simpl; lia).
  assert (Z.shiftr a 4 = 0)%Z as Ha0.
  { rewrite Z.shiftr_div_pow2 by lia. apply Z.div_small. simpl. lia. }
  split.
  - change 0x0f%Z with (Z.ones 4). rewrite Z.land_lor_distr_l, !Z.land_ones, Ha4 by lia.
    rewrite Z.shiftl_mul_pow2, Z.mod_mul, Z.lor_0_r by lia. done.
  - rewrite Z.shiftr_lor, Ha0, Z.lor_0_l, Z.shiftr_shiftl_l by lia. apply Z.shiftl_0_r.
Qed.

(** The loop body of [decode_address_value]. *)
Definition push_nibble (n : nat) (out : str) (nibble : Z) : str :=
  if (n <=? length (trim_start_matches (Z.eqb (ch "+")) out)) || (nibble =? 0x0f)%Z
  then out else out ++ [address_nibble_char nibble].

Lemma push_digit n intl ds c :
  Forall (λ c, is_ascii_digit c = true) ds → is_ascii_digit c = true → length ds < n →
  push_nibble n ((if intl : bool then [ch "+"] else []) ++ ds) (c - ch "0") =
    (if intl then [ch "+"] else []) ++ ds ++ [c].
Proof.
  intros Hds Hc Hn. destruct (digit_nibble c Hc) as (Hr & Hch & _). unfold push_nibble.
  assert (trim_start_matches (Z.eqb (ch "+")) ((if intl then [ch "+"] else []) ++ ds) = ds) as ->.
  { assert (trim_start_matches (Z.eqb (ch "+")) ds = ds) as Ht.
    { destruct Hds as [|d ds Hd _]; [done|]. destruct (digit_nibble d Hd) as (_ & _ & Hne).
      cbn [trim_start_matches]. by rewrite (proj2 (Z.eqb_neq (ch "+") d)) by congruence. }
    destruct intl; exact Ht. }
  destruct (Nat.leb_spec n (length ds)); [lia|]. simpl.
  destruct (Z.eqb_spec (c - ch "0") 15); [lia|]. by rewrite Hch, <-app_assoc.
Qed.

Lemma push_digits n intl ds rest :
  Forall (λ c, is_ascii_digit c = true) (ds ++ rest) → length (ds ++ rest) ≤ n →
  foldl (push_nibble n) ((if intl : bool then [ch "+"] else []) ++ ds)
    (nibbles (encode_semi_octets rest)) = (if intl then [ch "+"] else []) ++ ds ++ rest.
Proof.
  revert ds. assert (∀ k rest ds, length rest ≤ k →
    Forall (λ c, is_ascii_digit c = true) (ds ++ rest) → length (ds ++ rest) ≤ n →
    foldl (push_nibble n) ((if intl : bool then [ch "+"] else []) ++ ds)
      (nibbles (encode_semi_octets rest)) = (if intl then [ch "+"] else []) ++ ds ++ rest) as Hk;
    [|intros; by eapply Hk].
  clear rest. induction k as [|k IH]; intros rest ds Hl HF Hn.
  { destruct rest; [|simpl in Hl; lia]. by rewrite app_nil_r. }
  destruct rest as [|a [|b rest]]; [by rewrite app_nil_r| |].
  - rewrite Forall_app, Forall_singleton in HF. destruct HF as [Hds Ha]. rewrite length_app in Hn. simpl in Hn.
    destruct (digit_nibble a Ha) as (Hr & _).
    unfold nibbles. simpl. destruct (semi_octet (a - ch "0") 15) as [-> ->]; [lia..|].
    rewrite push_digit by (done || lia). unfold push_nibble. by rewrite orb_true_r.
  - rewrite Forall_app, !Forall_cons in HF. destruct HF as (Hds & Ha & Hb & Hrest).
    rewrite length_app in Hn. simpl in Hn, Hl.
    destruct (digit_nibble a Ha) as (Hra & _). destruct (digit_nibble b Hb) as (Hrb & _).
    unfold nibbles. simpl. destruct (semi_octet (a - ch "0") (b - ch "0")) as [-> ->]; [lia..|].
    rewrite push_digit by (done || lia).
    rewrite push_digit; [|apply Forall_app; by split; [|apply Forall_singleton]|done|
      rewrite length_app; simpl; lia].
    fold (nibbles (encode_semi_octets rest)).
    rewrite IH; [by rewrite <-!app_assoc|lia| |rewrite !length_app; simpl; lia].
    rewrite <-!app_assoc. apply Forall_app. split; [done|]. by repeat constructor.
Qed.

Definition address_type (nd : NormalizedAddressDigits) : Z :=
  if international nd then 0x91%Z else 0x81%Z.

Lemma decode_encode_digits {E} nd :
  digits_ok nd →
  decode_address_value (E:=E) (address_type nd) (encode_semi_octets (digits_of nd))
    (length (digits_of nd)) = Ok (address_text nd).
Proof.
  intros [HF Hl]. unfold decode_address_value, address_type, address_text. f_equal.
  destruct (international nd); simpl; f_equal.
  - apply (push_digits (length (digits_of nd)) true []); [done|simpl; lia].
  - apply (push_digits (length (digits_of nd)) false []); [done|simpl; lia].
Qed.

(** ** SMS-DELIVER and network RP-DATA layouts *)
Definition deliver_tpdu_layout (first : Z) (nd : NormalizedAddressDigits) (pid dcs : Z)
    (scts : list Z) (udl : nat) (ud : list Z) : list Z :=
  [first; Z.of_nat (length (digits_of nd)); address_type nd]
  ++ encode_semi_octets (digits_of nd) ++ [pid; dcs] ++ scts ++ [Z.of_nat udl] ++ ud.

(** Network-to-MS RP-DATA: an RP originator and an empty RP destination. *)
Definition rp_deliver_layout (reference : Z) (oa tpdu : list Z) : list Z :=
  [1%Z; reference; Z.of_nat (length oa)] ++ oa ++ [0%Z; Z.of_nat (length tpdu)] ++ tpdu.

Section deliver.
Context `{Chrono}.

Definition delivered (reference : Z) (nd : NormalizedAddressDigits) (scts ud : list Z)
    (hdr : SmsUserDataHeader) (text : str) : MtSmsDeliver :=
  {| mt_rp_message_reference := reference;
     mt_originator := address_text nd;
     mt_text := text;
     mt_user_data_bytes := length ud;
     mt_service_center_timestamp := default (hex_lower scts) (decode_service_center_timestamp scts);
     mt_segment_reference := seg_reference (segment hdr);
     mt_segment_sequence := seg_sequence (segment hdr);
     mt_segment_total := seg_total (segment hdr) |}.

Lemma parse_deliver_layout reference first nd pid dcs scts udl ud hdr text :
  digits_ok nd → length scts = 7 →
  decode_user_data (negb (Z.land first 0x40 =? 0)%Z) dcs udl ud = Ok (hdr, text) →
  parse_sms_deliver_tpdu reference (deliver_tpdu_layout first nd pid dcs scts udl ud) =
    Ok (delivered reference nd scts ud hdr text).
Proof.
  intros Hnd Hscts Hud. unfold parse_sms_deliver_tpdu.
  set (addr := encode_semi_octets (digits_of nd)).
  set (tpdu := deliver_tpdu_layout first nd pid dcs scts udl ud).
  assert (length addr = address_value_octets (length (digits_of nd))) as Haddr
    by apply length_encode_semi_octets.
  assert (length tpdu = 13 + length addr + length ud) as Hlen.
  { unfold tpdu, deliver_tpdu_layout. rewrite !length_app, Hscts. simpl. fold addr. lia. }
  destruct (Nat.ltb_spec (length tpdu) 2) as [|_]; [lia|]. cbn [fail_if mbind res_bind].
  change (idx tpdu 0) with (Ok (E:=SmsEncodingError) first). cbn [mbind res_bind].
  change (idx tpdu 1) with (Ok (E:=SmsEncodingError) (Z.of_nat (length (digits_of nd)))).
  cbn [mbind res_bind]. rewrite Nat2Z.id.
  destruct (Nat.leb_spec (length tpdu) (1 + 1)) as [|_]; [lia|]. cbn [fail_if mbind res_bind].
  change (idx tpdu (1 + 1)) with (Ok (E:=SmsEncodingError) (address_type nd)).
  cbn [mbind res_bind]. rewrite <-Haddr.
  destruct (Nat.ltb_spec (length tpdu) (1 + 1 + 1 + length addr + 3 + 7)) as [|_]; [lia|].
  cbn [fail_if mbind res_bind].
  set (h := [first; Z.of_nat (length (digits_of nd)); address_type nd]).
  assert (slice (E:=SmsEncodingError) tpdu (1 + 1 + 1) (1 + 1 + 1 + length addr) = Ok addr) as ->.
  { apply (slice_app h addr); done. }
  cbn [mbind res_bind]. unfold addr at 1. rewrite decode_encode_digits by done. fold addr.
  cbn [mbind res_bind].
  assert (idx (E:=SmsEncodingError) tpdu (1 + 1 + 1 + length addr + 1) = Ok dcs) as ->.
  { unfold tpdu, deliver_tpdu_layout. fold addr h.
    change ([pid; dcs] ++ ?l) with ([pid] ++ dcs :: l). rewrite !app_assoc.
    apply idx_app. rewrite !length_app. simpl. lia. }
  cbn [mbind res_bind].
  destruct (Nat.ltb_spec (length tpdu) (1 + 1 + 1 + length addr + 1 + 1 + 7)) as [|_]; [lia|].
  cbn [fail_if mbind res_bind].
  assert (slice (E:=SmsEncodingError) tpdu (1 + 1 + 1 + length addr + 1 + 1)
    (1 + 1 + 1 + length addr + 1 + 1 + 7) = Ok scts) as ->.
  { unfold tpdu, deliver_tpdu_layout. fold addr h. rewrite (app_assoc addr), (app_assoc h).
    apply slice_app; [rewrite !length_app; simpl|]; lia. }
  cbn [mbind res_bind].
  destruct (Nat.leb_spec (length tpdu) (1 + 1 + 1 + length addr + 1 + 1 + 7)) as [|_]; [lia|].
  cbn [fail_if mbind res_bind].
  assert (idx (E:=SmsEncodingError) tpdu (1 + 1 + 1 + length addr + 1 + 1 + 7) = Ok (Z.of_nat udl))
    as ->.
  { unfold tpdu, deliver_tpdu_layout. fold addr h. rewrite !app_assoc.
    rewrite <-(app_assoc _ [Z.of_nat udl]). apply idx_app. rewrite !length_app. simpl. lia. }
  cbn [mbind res_bind]. rewrite Nat2Z.id.
  destruct (Nat.ltb_spec (length tpdu) (1 + 1 + 1 + length addr + 1 + 1 + 7 + 1)) as [|_]; [lia|].
  cbn [fail_if mbind res_bind]. fold addr.
  assert (slice_from (E:=SmsEncodingError) tpdu (1 + 1 + 1 + length addr + 1 + 1 + 7 + 1) = Ok ud)
    as ->.
  { unfold slice_from, tpdu, deliver_tpdu_layout. fold addr h. rewrite !app_assoc.
    rewrite get_from_app; [done|]. rewrite !length_app. simpl. lia. }
  cbn [mbind res_bind]. rewrite Hud. done.
Qed.
End deliver.

(** * Properties *)
Section properties.
Context `{Chrono}.

(** C1: no input, however malformed, makes a receiving parser panic or loop:
    RP-DATA bodies from the network, modem deliver PDUs and modem status
    reports all end in a value or an error. *)
Theorem sms_parsers_never_panic pdu :
  no_panic (parse_mt_rp_data pdu) ∧ no_panic (parse_modem_deliver pdu) ∧
  no_panic (parse_modem_status_report pdu).
Proof.
  split_and!; [|apply no_panic_parse_modem_deliver|apply no_panic_parse_modem_status_report].
  unfold parse_mt_rp_data. np; apply no_panic_parse_mt_rp_user_data.
Qed.

(** C31: a well-formed network RP-DATA is parsed into exactly its fields.  For
    every numeric originator, protocol identifier, coding scheme, time stamp
    and user data that the user-data decoder accepts, [parse_mt_rp_data]
    returns the originator's digits (with [+] when international), the decoded
    text, the segment information of the header and the RP reference. *)
Theorem mt_rp_data_parsed reference oa originator nd first pid dcs scts udl ud hdr text :
  normalized_address_digits originator = Ok nd →
  decode_user_data (negb (Z.land first 0x40 =? 0)%Z) dcs udl ud = Ok (hdr, text) →
  length scts = 7 →
  parse_mt_rp_data (rp_deliver_layout reference oa
      (deliver_tpdu_layout first nd pid dcs scts udl ud)) =
    Ok (delivered reference nd scts ud hdr text).
Proof.
  intros Hnd Hud Hscts. apply normalized_address_digits_ok in Hnd.
  set (tpdu := deliver_tpdu_layout first nd pid dcs scts udl ud).
  set (body := rp_deliver_layout reference oa tpdu).
  assert (13 ≤ length tpdu) as Htl.
  { unfold tpdu, deliver_tpdu_layout. rewrite !length_app, Hscts. simpl. lia. }
  assert (length body = 5 + length oa + length tpdu) as Hbl.
  { unfold body, rp_deliver_layout. rewrite !length_app. simpl. lia. }
  unfold parse_mt_rp_data.
  destruct (Nat.ltb_spec (length body) 5) as [|_]; [lia|]. cbn [fail_if mbind res_bind].
  change (idx body 0) with (Ok (E:=SmsEncodingError) 1%Z). cbn [mbind res_bind Z.eqb Pos.eqb negb fail_if].
  change (idx body 1) with (Ok (E:=SmsEncodingError) reference). cbn [mbind res_bind].
  change (idx body 2) with (Ok (E:=SmsEncodingError) (Z.of_nat (length oa))). cbn [mbind res_bind].
  rewrite Nat2Z.id.
  destruct (Nat.ltb_spec (length body) (2 + 1 + length oa)) as [|_]; [lia|]. cbn [fail_if mbind res_bind].
  destruct (Nat.leb_spec (length body) (2 + 1 + length oa)) as [|_]; [lia|]. cbn [fail_if mbind res_bind].
  set (h := [1%Z; reference; Z.of_nat (length oa)]).
  assert (idx (E:=SmsEncodingError) body (2 + 1 + length oa) = Ok 0%Z) as Hda.
  { unfold body, rp_deliver_layout. fold h. rewrite app_assoc. simpl ([_; _] ++ _).
    apply idx_app. rewrite length_app. done. }
  unfold parse_mt_rp_user_data at 1.
  destruct (Nat.leb_spec (length body) (2 + 1 + length oa)) as [|_]; [lia|]. cbn [fail_if mbind res_bind].
  rewrite Hda. cbn [mbind res_bind]. change (Z.to_nat 0) with 0. cbn [mbind res_bind fail_if orb Nat.eqb or_else].
  destruct (Nat.leb_spec (length body) (2 + 1 + length oa + 1 + 0)) as [|_]; [lia|].
  cbn [fail_if mbind res_bind]. unfold parse_mt_rp_user_data.
  destruct (Nat.leb_spec (length body) (2 + 1 + length oa + 1 + 0)) as [|_]; [lia|].
  cbn [fail_if mbind res_bind].
  assert (idx (E:=SmsEncodingError) body (2 + 1 + length oa + 1 + 0) = Ok (Z.of_nat (length tpdu))) as ->.
  { unfold body, rp_deliver_layout. fold h. change ([0%Z; ?n] ++ ?l) with ([0%Z] ++ n :: l).
    rewrite !app_assoc. apply idx_app. rewrite !length_app. simpl. lia. }
  cbn [mbind res_bind]. rewrite Nat2Z.id. destruct (Nat.eqb_spec (length tpdu) 0); [lia|].
  destruct (Nat.ltb_spec (length body) (2 + 1 + length oa + 1 + 0 + 1 + length tpdu)) as [|_]; [lia|].
  cbn [orb fail_if mbind res_bind].
  assert (slice (E:=SmsEncodingError) body (2 + 1 + length oa + 1 + 0 + 1)
    (2 + 1 + length oa + 1 + 0 + 1 + length tpdu) = Ok tpdu) as ->.
  { replace body with ((h ++ oa ++ [0%Z; Z.of_nat (length tpdu)]) ++ tpdu ++ [])
      by (unfold body, rp_deliver_layout; fold h; by rewrite app_nil_r, <-!app_assoc).
    apply slice_app; rewrite ?length_app; simpl; lia. }
  cbn [mbind res_bind]. by apply parse_deliver_layout.
Qed.

(** Two deliveries are duplicates exactly when everything but the RP
    reference and the raw user-data length agrees; so retransmission of the
    same message under a new reference is always recognised. *)
Theorem duplicate_delivery_ignores_reference a b :
  is_duplicate_delivery a b = true ↔
    (mt_originator a, mt_text a, mt_service_center_timestamp a, mt_segment_reference a,
     mt_segment_sequence a, mt_segment_total a) =
    (mt_originator b, mt_text b, mt_service_center_timestamp b, mt_segment_reference b,
     mt_segment_sequence b, mt_segment_total b).
Proof.
  unfold is_duplicate_delivery. rewrite !andb_true_iff, !str_eqb_eq, bool_decide_eq_true, !Z.eqb_eq.
  split; [intros [[[[[-> ->] ->] ->] ->] ->]|intros [= -> -> -> -> -> ->]]; done.
Qed.
End properties.

(** A calendar that keeps the fields of the time stamp. *)
Definition field_calendar : Chrono := {|
  FixedOffset := Z;
  DateTime := list Z;
  east_opt := λ seconds, if (Z.abs seconds <? 86400)%Z then Some seconds else None;
  with_ymd_and_hms := λ _ y mo d h mi s,
    if (1 <=? mo)%Z && (mo <=? 12)%Z && (1 <=? d)%Z && (d <=? 28)%Z
    then Some [y; mo; d; h; mi; s] else None;
  to_utc_rfc3339 := λ t, t ≫= fmt_dec;
|}.

Lemma mt_rp_data_parsed_witness :
  let nd := {| digits_of := lit "12345"; international := true |} in
  res_ok (parse_mt_rp_data (H := field_calendar) (rp_deliver_layout 9 [0x91; 0x21]%Z
    (deliver_tpdu_layout 4 nd 0 0 [0x52; 0x10; 0x20; 0x30; 0x40; 0x50; 0]%Z 5
      [0xe8; 0x32; 0x9b; 0xfd; 0x06]%Z))) ≫= (λ d, Some (mt_originator d, mt_text d)) =
  Some (lit "+12345", lit "hello").
Proof.
  intros nd. set (hdr := match decode_user_data false 0 5 [0xe8; 0x32; 0x9b; 0xfd; 0x06]%Z with
    | Ok (hdr, _) => hdr | _ => SmsUserDataHeader_empty end).
  pose proof (mt_rp_data_parsed (H := field_calendar) 9 [0x91; 0x21]%Z (lit "+12345") nd 4 0 0
    [0x52; 0x10; 0x20; 0x30; 0x40; 0x50; 0]%Z 5 [0xe8; 0x32; 0x9b; 0xfd; 0x06]%Z hdr (lit "hello"))
    as Hp.
  rewrite Hp; [reflexivity|vm_compute; reflexivity|vm_compute; reflexivity|reflexivity].
Defined.
