(* ===== verification/SmsRuntime.v ===== *)
(** * The SMS delivery state machine

    Models the runtime half of [connectivity/core/sms_codec.rs]: delivery
    records and their aggregate state, and [SmsRuntimeStateMachine] with every
    operation that changes it.  A [Step] relation collects the operations; the
    invariant of the reachable states is proved by rule induction. *)
From Stdlib Require Import Ascii String ZArith Lia.
From stdpp Require Import prelude.
From S2P Require Import Prelude Text SmsCodec.

Inductive SmsDirection := MobileOriginated | MobileTerminated.
Inductive SipMessageState :=
| SipQueued | SipSubmitted | SipProvisional | SipAccepted | SipRejected | SipTimeout.
Inductive SmsDeliveryState :=
| DlvQueued | DlvSubmitted | DlvAccepted | DlvDelivered | DlvReceived | DlvFailed.
Inductive SmsTransportKind := Tcp | Udp.

#[export] Instance SmsDirection_eq_dec : EqDecision SmsDirection.
Proof. solve_decision. Defined.
#[export] Instance SipMessageState_eq_dec : EqDecision SipMessageState.
Proof. solve_decision. Defined.
#[export] Instance SmsDeliveryState_eq_dec : EqDecision SmsDeliveryState.
Proof. solve_decision. Defined.

Definition SmsDirection_as_str (d : SmsDirection) : str :=
  match d with
  | MobileOriginated => lit "mobile_originated"
  | MobileTerminated => lit "mobile_terminated"
  end.
Definition SipMessageState_as_str (s : SipMessageState) : str :=
  match s with
  | SipQueued => lit "queued"
  | SipSubmitted => lit "submitted"
  | SipProvisional => lit "provisional"
  | SipAccepted => lit "accepted"
  | SipRejected => lit "rejected"
  | SipTimeout => lit "timeout"
  end.
Definition RpduAckState_as_str (s : RpduAckState) : str :=
  match s with
  | RpNone => lit "none"
  | RpAcked => lit "acked"
  | RpError => lit "error"
  end.
Definition SmsDeliveryState_as_str (s : SmsDeliveryState) : str :=
  match s with
  | DlvQueued => lit "queued"
  | DlvSubmitted => lit "submitted"
  | DlvAccepted => lit "accepted"
  | DlvDelivered => lit "delivered"
  | DlvReceived => lit "received"
  | DlvFailed => lit "failed"
  end.
Definition SmsTransportKind_as_str (t : SmsTransportKind) : str :=
  match t with Tcp => lit "tcp" | Udp => lit "udp" end.

Record SmsPartState := mkPart {
  part_reference : Z;
  part_sequence : Z;
  part_total : Z;
  part_received : bool;
}.

Record SmsDeliveryRecord := mkRecord {
  rec_trace_id : str;
  rec_message_id : str;
  rec_direction : SmsDirection;
  rec_sip_state : SipMessageState;
  rec_rpdu_ack : RpduAckState;
  rec_delivery_reported : bool;
  rec_failure_cause : option str;
  rec_retry_count : Z;
  rec_parts : list SmsPartState;
}.

(** Field updates ([self.mo.sip_state = ..]). *)
Definition set_sip_state (s : SipMessageState) (r : SmsDeliveryRecord) : SmsDeliveryRecord :=
  mkRecord (rec_trace_id r) (rec_message_id r) (rec_direction r) s (rec_rpdu_ack r)
    (rec_delivery_reported r) (rec_failure_cause r) (rec_retry_count r) (rec_parts r).
Definition set_rpdu_ack (a : RpduAckState) (r : SmsDeliveryRecord) : SmsDeliveryRecord :=
  mkRecord (rec_trace_id r) (rec_message_id r) (rec_direction r) (rec_sip_state r) a
    (rec_delivery_reported r) (rec_failure_cause r) (rec_retry_count r) (rec_parts r).
Definition set_delivery_reported (b : bool) (r : SmsDeliveryRecord) : SmsDeliveryRecord :=
  mkRecord (rec_trace_id r) (rec_message_id r) (rec_direction r) (rec_sip_state r) (rec_rpdu_ack r)
    b (rec_failure_cause r) (rec_retry_count r) (rec_parts r).
Definition set_failure_cause (c : option str) (r : SmsDeliveryRecord) : SmsDeliveryRecord :=
  mkRecord (rec_trace_id r) (rec_message_id r) (rec_direction r) (rec_sip_state r) (rec_rpdu_ack r)
    (rec_delivery_reported r) c (rec_retry_count r) (rec_parts r).
Definition set_parts (ps : list SmsPartState) (r : SmsDeliveryRecord) : SmsDeliveryRecord :=
  mkRecord (rec_trace_id r) (rec_message_id r) (rec_direction r) (rec_sip_state r) (rec_rpdu_ack r)
    (rec_delivery_reported r) (rec_failure_cause r) (rec_retry_count r) ps.

(** [1..=total] on [u8]. *)
Definition one_to (total : Z) : list Z := Z.of_nat <$> seq 1 (Z.to_nat total).

Definition parts_complete (r : SmsDeliveryRecord) : bool :=
  match rec_parts r with
  | [] => false
  | part0 :: _ =>
    let total := part_total part0 in
    negb (total =? 0)%Z
    && forallb (λ part, part_total part =? total)%Z (rec_parts r)
    && forallb (λ seq, existsb (λ part, (part_sequence part =? seq)%Z && part_received part)
         (rec_parts r)) (one_to total)
  end.

Definition aggregate_state (r : SmsDeliveryRecord) : SmsDeliveryState :=
  if bool_decide (is_Some (rec_failure_cause r))
     || bool_decide (rec_sip_state r = SipRejected ∨ rec_sip_state r = SipTimeout)
     || bool_decide (rec_rpdu_ack r = RpError)
  then DlvFailed
  else if bool_decide (rec_direction r = MobileTerminated) then
    if parts_complete r || bool_decide (length (rec_parts r) = 0) then DlvReceived
    else DlvSubmitted
  else if rec_delivery_reported r then DlvDelivered
  else if bool_decide (rec_rpdu_ack r = RpAcked) || bool_decide (rec_sip_state r = SipAccepted)
  then DlvAccepted
  else match rec_sip_state r with
    | SipQueued => DlvQueued
    | SipSubmitted | SipProvisional => DlvSubmitted
    | SipAccepted => DlvAccepted
    | SipRejected | SipTimeout => DlvFailed
    end.

Definition delivery_api_status (s : SmsDeliveryState) : str :=
  match s with
  | DlvQueued | DlvSubmitted => lit "pending"
  | DlvAccepted | DlvDelivered => lit "sent"
  | DlvReceived => lit "received"
  | DlvFailed => lit "failed"
  end.
Definition api_status (r : SmsDeliveryRecord) : str := delivery_api_status (aggregate_state r).

Record MoSmsSipOutcome := {
  outcome_trace_id : str;
  outcome_message_id : str;
  outcome_sip_status : Z;
  outcome_rpdu_ack : RpduAckState;
  outcome_delivery_state : SmsDeliveryState;
  outcome_failure_cause : option str;
  outcome_mt_deliveries : list MtSmsDeliver;
}.
Definition outcome_api_status (o : MoSmsSipOutcome) : str :=
  delivery_api_status (outcome_delivery_state o).

(** ** Summaries (their constant redaction labels are left out) *)
Record SmsRpduSummary := mkRpduSummary {
  rpdu_direction : str;
  rpdu_kind : str;
  rpdu_user_data_bytes : nat;
  rpdu_segment_reference_present : bool;
  rpdu_segment_reference : option Z;
  rpdu_segment_sequence : option Z;
  rpdu_segment_total : option Z;
  rpdu_values_redacted : bool;
}.
Record SmsSipMessageSummary := mkSipSummary {
  sipsum_direction : str;
  sipsum_method : str;
  sipsum_transport : str;
  sipsum_sip_state : str;
  sipsum_sip_status : option Z;
  sipsum_content_type : str;
  sipsum_body_bytes : nat;
}.
Record SmsAckPlan := mkAckPlan {
  ack_kind : str;
  ack_transport : str;
  ack_sip_response_code : Z;
  ack_rp_ack_present : bool;
  ack_failure_cause : option str;
}.
Record SmsReassemblyState := mkReassembly {
  ra_key_scope : str;
  ra_reference : Z;
  ra_expected_parts : Z;
  ra_received_parts : Z;
  ra_complete : bool;
  ra_duplicate_parts : Z;
  ra_last_sequence : option Z;
}.
Record SmsDeliveryPublicRecord := mkPublic {
  pub_trace_id : str;
  pub_message_id : str;
  pub_direction : str;
  pub_state : str;
  pub_api_status : str;
  pub_sip_state : str;
  pub_rpdu_ack : str;
  pub_delivery_reported : bool;
  pub_failure_cause : option str;
  pub_retry_count : Z;
  pub_parts : list SmsPartState;
  pub_parts_complete : bool;
}.

Definition from_record (r : SmsDeliveryRecord) : SmsDeliveryPublicRecord :=
  {| pub_trace_id := rec_trace_id r;
     pub_message_id := rec_message_id r;
     pub_direction := SmsDirection_as_str (rec_direction r);
     pub_state := SmsDeliveryState_as_str (aggregate_state r);
     pub_api_status := api_status r;
     pub_sip_state := SipMessageState_as_str (rec_sip_state r);
     pub_rpdu_ack := RpduAckState_as_str (rec_rpdu_ack r);
     pub_delivery_reported := rec_delivery_reported r;
     pub_failure_cause := rec_failure_cause r;
     pub_retry_count := rec_retry_count r;
     pub_parts := rec_parts r;
     pub_parts_complete := parts_complete r |}.

Inductive SmsRuntimeError :=
| InvalidPart (sequence total : Z)
| ErrSipRejected (code : Z)
| InconsistentState (reason : str).

Definition SmsRuntimeError_fmt (e : SmsRuntimeError) : str :=
  match e with
  | InvalidPart sequence total =>
    lit "invalid SMS part sequence=" ++ fmt_dec sequence ++ lit " total=" ++ fmt_dec total
  | ErrSipRejected code => lit "SIP MESSAGE rejected code=" ++ fmt_dec code
  | InconsistentState reason => lit "inconsistent SMS state: " ++ reason
  end.

(** The fields of [CarrierProfile] the machine reads. *)
Record SmsCarrierProfile := {
  profile_id : str;
  profile_plmn : str;
  profile_sms_receiver_transport : str;
}.

Record SmsRuntimeStateMachine := mkMachine {
  sm_profile : SmsCarrierProfile;
  sm_receiver_transport : SmsTransportKind;
  sm_subscribe_reg_ready : bool;
  sm_mo : SmsDeliveryRecord;
  sm_mt : SmsDeliveryRecord;
  sm_last_sip_message : option SmsSipMessageSummary;
  sm_last_rpdu : option SmsRpduSummary;
  sm_last_ack : option SmsAckPlan;
  sm_reassembly : option SmsReassemblyState;
}.

Definition machine_new (profile : SmsCarrierProfile) : SmsRuntimeStateMachine :=
  {| sm_profile := profile;
     sm_receiver_transport :=
       if str_eqb (profile_sms_receiver_transport profile) (lit "udp") then Udp else Tcp;
     sm_subscribe_reg_ready := false;
     sm_mo := mkRecord (lit "sms-mo-dry-run") (lit "mo-dry-run-0001") MobileOriginated SipQueued
                RpNone false None 0 [];
     sm_mt := mkRecord (lit "sms-mt-dry-run") (lit "mt-dry-run-0001") MobileTerminated SipQueued
                RpNone false None 0 [];
     sm_last_sip_message := None;
     sm_last_rpdu := None;
     sm_last_ack := None;
     sm_reassembly := None |}.

Definition mark_subscribe_reg_ready (m : SmsRuntimeStateMachine) : SmsRuntimeStateMachine :=
  mkMachine (sm_profile m) (sm_receiver_transport m) true (sm_mo m) (sm_mt m)
    (sm_last_sip_message m) (sm_last_rpdu m) (sm_last_ack m) (sm_reassembly m).

Definition queue_mo_text (user_data_bytes : nat) (m : SmsRuntimeStateMachine)
    : SmsRuntimeStateMachine * SmsRpduSummary :=
  let rpdu := mkRpduSummary (lit "mobile_originated") (lit "rp_data") user_data_bytes false
    None None None true in
  (mkMachine (sm_profile m) (sm_receiver_transport m) (sm_subscribe_reg_ready m)
     (set_sip_state SipQueued (sm_mo m)) (sm_mt m)
     (sm_last_sip_message m) (Some rpdu) (sm_last_ack m) (sm_reassembly m), rpdu).

Definition submit_mo_sip_message (m : SmsRuntimeStateMachine)
    : SmsRuntimeStateMachine * SmsSipMessageSummary :=
  let mo := set_sip_state SipSubmitted (sm_mo m) in
  let summary := mkSipSummary (lit "outbound") (lit "MESSAGE")
    (SmsTransportKind_as_str (sm_receiver_transport m))
    (SipMessageState_as_str (rec_sip_state mo)) None (lit "application/vnd.3gpp.sms")
    (default 0 (rpdu_user_data_bytes <$> sm_last_rpdu m)) in
  (mkMachine (sm_profile m) (sm_receiver_transport m) (sm_subscribe_reg_ready m)
     mo (sm_mt m) (Some summary) (sm_last_rpdu m) (sm_last_ack m) (sm_reassembly m), summary).

Definition accept_mo_sip_response (sip_status : Z) (m : SmsRuntimeStateMachine)
    : SmsRuntimeStateMachine * res SmsRuntimeError SmsSipMessageSummary :=
  if negb ((200 <=? sip_status) && (sip_status <? 300))%Z then
    let mo := set_failure_cause (Some (lit "sip_" ++ fmt_dec sip_status))
      (set_sip_state SipRejected (sm_mo m)) in
    (mkMachine (sm_profile m) (sm_receiver_transport m) (sm_subscribe_reg_ready m)
       mo (sm_mt m) (sm_last_sip_message m) (sm_last_rpdu m) (sm_last_ack m) (sm_reassembly m),
     Err (ErrSipRejected sip_status))
  else
    let mo := set_sip_state SipAccepted (sm_mo m) in
    let summary := mkSipSummary (lit "inbound") (lit "MESSAGE")
      (SmsTransportKind_as_str (sm_receiver_transport m))
      (SipMessageState_as_str (rec_sip_state mo)) (Some sip_status)
      (lit "application/vnd.3gpp.sms") 0 in
    (mkMachine (sm_profile m) (sm_receiver_transport m) (sm_subscribe_reg_ready m)
       mo (sm_mt m) (Some summary) (sm_last_rpdu m) (sm_last_ack m) (sm_reassembly m),
     Ok summary).

Definition accept_mo_rp_ack (m : SmsRuntimeStateMachine) : SmsRuntimeStateMachine * SmsAckPlan :=
  let ack := mkAckPlan (lit "rp_ack") (SmsTransportKind_as_str (sm_receiver_transport m))
    200 true None in
  (mkMachine (sm_profile m) (sm_receiver_transport m) (sm_subscribe_reg_ready m)
     (set_rpdu_ack RpAcked (sm_mo m)) (sm_mt m)
     (sm_last_sip_message m) (sm_last_rpdu m) (Some ack) (sm_reassembly m), ack).

Definition mark_mo_delivery_reported (m : SmsRuntimeStateMachine) : SmsRuntimeStateMachine :=
  mkMachine (sm_profile m) (sm_receiver_transport m) (sm_subscribe_reg_ready m)
    (set_delivery_reported true (sm_mo m)) (sm_mt m)
    (sm_last_sip_message m) (sm_last_rpdu m) (sm_last_ack m) (sm_reassembly m).

Definition same_part (reference sequence : Z) (part : SmsPartState) : bool :=
  ((part_reference part =? reference) && (part_sequence part =? sequence))%Z.

Definition receive_mt_part (reference sequence total : Z) (user_data_bytes : nat)
    (m : SmsRuntimeStateMachine) : SmsRuntimeStateMachine * res SmsRuntimeError SmsAckPlan :=
  if ((sequence =? 0) || (total =? 0) || (total <? sequence))%Z
  then (m, Err (InvalidPart sequence total))
  else
    let mt := set_rpdu_ack RpAcked (set_sip_state SipAccepted (sm_mt m)) in
    let mt := if negb (existsb (same_part reference sequence) (rec_parts mt))
              then set_parts (rec_parts mt ++ [mkPart reference sequence total true]) mt else mt in
    let duplicate_parts :=
      u8 (Z.of_nat (length (filter (λ p, same_part reference sequence p = true) (rec_parts mt)) - 1)) in
    let received_parts :=
      u8 (Z.of_nat (length (filter
        (λ p, ((part_reference p =? reference)%Z && part_received p) = true) (rec_parts mt)))) in
    let complete := parts_complete mt in
    let last_rpdu := mkRpduSummary (lit "mobile_terminated") (lit "rp_data") user_data_bytes true
      (Some reference) (Some sequence) (Some total) true in
    let last_sip_message := mkSipSummary (lit "inbound") (lit "MESSAGE")
      (SmsTransportKind_as_str (sm_receiver_transport m))
      (SipMessageState_as_str (rec_sip_state mt)) None (lit "application/vnd.3gpp.sms")
      user_data_bytes in
    let reassembly := mkReassembly (lit "sender_destination_dcs_reference") reference total
      received_parts complete duplicate_parts (Some sequence) in
    let ack := mkAckPlan (if complete then lit "rp_ack_complete" else lit "rp_ack_part")
      (SmsTransportKind_as_str (sm_receiver_transport m)) 200 true None in
    (mkMachine (sm_profile m) (sm_receiver_transport m) (sm_subscribe_reg_ready m)
       (sm_mo m) mt (Some last_sip_message) (Some last_rpdu) (Some ack) (Some reassembly), Ok ack).

Definition assert_state_consistency (m : SmsRuntimeStateMachine) : res SmsRuntimeError unit :=
  if bool_decide (rec_rpdu_ack (sm_mo m) = RpAcked) && str_eqb (api_status (sm_mo m)) (lit "pending")
  then Err (InconsistentState (lit "mo_rp_ack_must_not_remain_pending"))
  else if parts_complete (sm_mt m) && negb (str_eqb (api_status (sm_mt m)) (lit "received"))
  then Err (InconsistentState (lit "complete_mt_reassembly_must_be_received"))
  else Ok tt.

Record SmsRuntimePublicState := mkPublicState {
  ps_profile_id : str;
  ps_plmn : str;
  ps_sms_ready : bool;
  ps_receiver_transport : str;
  ps_subscribe_reg_ready : bool;
  ps_pending_delivery_count : Z;
  ps_mo : SmsDeliveryPublicRecord;
  ps_mt : SmsDeliveryPublicRecord;
  ps_last_sip_message : option SmsSipMessageSummary;
  ps_last_rpdu : option SmsRpduSummary;
  ps_last_ack : option SmsAckPlan;
  ps_reassembly : option SmsReassemblyState;
}.

Definition snapshot (m : SmsRuntimeStateMachine) : SmsRuntimePublicState :=
  let mo_public := from_record (sm_mo m) in
  let mt_public := from_record (sm_mt m) in
  let pending_delivery_count :=
    (Z.b2z (str_eqb (pub_api_status mo_public) (lit "pending"))
     + Z.b2z (str_eqb (pub_api_status mt_public) (lit "pending")))%Z in
  {| ps_profile_id := profile_id (sm_profile m);
     ps_plmn := profile_plmn (sm_profile m);
     ps_sms_ready := sm_subscribe_reg_ready m
       && str_eqb (pub_api_status mo_public) (lit "sent")
       && str_eqb (pub_api_status mt_public) (lit "received");
     ps_receiver_transport := SmsTransportKind_as_str (sm_receiver_transport m);
     ps_subscribe_reg_ready := sm_subscribe_reg_ready m;
     ps_pending_delivery_count := pending_delivery_count;
     ps_mo := mo_public;
     ps_mt := mt_public;
     ps_last_sip_message := sm_last_sip_message m;
     ps_last_rpdu := sm_last_rpdu m;
     ps_last_ack := sm_last_ack m;
     ps_reassembly := sm_reassembly m |}.

(** [r.expect(..)] *)
Definition expect {E F A} (r : res E A) : res F A :=
  match r with Ok a => Ok a | _ => Panic end.

Definition build_dry_run_sms_snapshot {E} (profile : SmsCarrierProfile) : res E SmsRuntimePublicState :=
  let m := machine_new profile in
  let m := mark_subscribe_reg_ready m in
  let m := fst (queue_mo_text 23 m) in
  let m := fst (submit_mo_sip_message m) in
  let '(m, r) := accept_mo_sip_response 202 m in
  expect r;;
  let m := fst (accept_mo_rp_ack m) in
  let m := mark_mo_delivery_reported m in
  let '(m, r) := receive_mt_part 42 1 2 134 m in
  expect r;;
  let '(m, r) := receive_mt_part 42 2 2 118 m in
  expect r;;
  expect (assert_state_consistency m);;
  Ok (snapshot m).

(** ** Reachable states *)
Inductive Step : SmsRuntimeStateMachine → SmsRuntimeStateMachine → Prop :=
| step_ready m : Step m (mark_subscribe_reg_ready m)
| step_queue m n : Step m (fst (queue_mo_text n m))
| step_submit m : Step m (fst (submit_mo_sip_message m))
| step_response m status : Step m (fst (accept_mo_sip_response status m))
| step_rp_ack m : Step m (fst (accept_mo_rp_ack m))
| step_reported m : Step m (mark_mo_delivery_reported m)
| step_part m reference sequence total n :
    (0 ≤ sequence < 256)%Z → (0 ≤ total < 256)%Z →
    Step m (fst (receive_mt_part reference sequence total n m)).

Definition Reachable (profile : SmsCarrierProfile) : SmsRuntimeStateMachine → Prop :=
  rtc Step (machine_new profile).

(** The segments of one message arriving in any order, with repetitions. *)
Definition receive_all (reference total : Z) (seqs : list Z) (m : SmsRuntimeStateMachine)
    : SmsRuntimeStateMachine :=
  foldl (λ m s, fst (receive_mt_part reference s total 0 m)) m seqs.

(** * The invariant *)
Definition part_ok (p : SmsPartState) : Prop :=
  part_received p = true ∧ (1 ≤ part_sequence p ≤ part_total p)%Z ∧ (part_total p ≤ 255)%Z.

Definition part_key (p : SmsPartState) : Z * Z := (part_reference p, part_sequence p).

Definition mt_clean (r : SmsDeliveryRecord) : Prop :=
  rec_failure_cause r = None
  ∧ (rec_sip_state r = SipQueued ∨ rec_sip_state r = SipAccepted)
  ∧ rec_rpdu_ack r ≠ RpError.

Record machine_inv (m : SmsRuntimeStateMachine) : Prop := {
  inv_mo_direction : rec_direction (sm_mo m) = MobileOriginated;
  inv_mt_direction : rec_direction (sm_mt m) = MobileTerminated;
  inv_mt_clean : mt_clean (sm_mt m);
  inv_parts_ok : Forall part_ok (rec_parts (sm_mt m));
  inv_parts_nodup : NoDup (part_key <$> rec_parts (sm_mt m));
  inv_mo_parts : rec_parts (sm_mo m) = [];
}.

(** * Lemmas *)
Lemma str_eqb_spec s t : reflect (s = t) (str_eqb s t).
Proof. apply iff_reflect. symmetry. apply str_eqb_eq. Qed.

Lemma same_part_true reference sequence p :
  same_part reference sequence p = true ↔ part_key p = (reference, sequence).
Proof.
  unfold same_part, part_key. rewrite andb_true_iff, !Z.eqb_eq. split; [|by intros [= -> ->]].
  by intros [-> ->].
Qed.

Lemma existsb_same_part reference sequence ps :
  existsb (same_part reference sequence) ps = true ↔ (reference, sequence) ∈ (part_key <$> ps).
Proof.
  rewrite existsb_exists, list_elem_of_fmap. split.
  - intros (p & Hp & Hk%same_part_true). exists p. by rewrite list_elem_of_In.
  - intros (p & Hk & Hp). exists p. rewrite <-list_elem_of_In. split; [done|].
    by apply same_part_true.
Qed.

(** What the accepted segment leaves behind. *)
Lemma receive_mt_part_accepted reference sequence total n m :
  (1 ≤ sequence ≤ total)%Z →
  let ps := rec_parts (sm_mt m) in
  let m' := fst (receive_mt_part reference sequence total n m) in
  rec_parts (sm_mt m') =
    (if existsb (same_part reference sequence) ps then ps
     else ps ++ [mkPart reference sequence total true])
  ∧ sm_mo m' = sm_mo m
  ∧ rec_direction (sm_mt m') = rec_direction (sm_mt m)
  ∧ rec_failure_cause (sm_mt m') = rec_failure_cause (sm_mt m)
  ∧ rec_sip_state (sm_mt m') = SipAccepted ∧ rec_rpdu_ack (sm_mt m') = RpAcked.
Proof.
  intros Hs. cbv zeta. unfold receive_mt_part.
  rewrite (proj2 (Z.eqb_neq sequence 0)), (proj2 (Z.eqb_neq total 0)), (proj2 (Z.ltb_ge total sequence))
    by lia. simpl.
  by destruct (existsb (same_part reference sequence) (rec_parts (sm_mt m))).
Qed.

Lemma receive_mt_part_rejected reference sequence total n m :
  (0 ≤ sequence)%Z → ¬ (1 ≤ sequence ≤ total)%Z →
  receive_mt_part reference sequence total n m = (m, Err (InvalidPart sequence total)).
Proof.
  intros H0 Hs. unfold receive_mt_part.
  destruct (Z.eqb_spec sequence 0); simpl; [done|].
  destruct (Z.eqb_spec total 0); simpl; [done|].
  destruct (Z.ltb_spec total sequence); [done|lia].
Qed.

Lemma NoDup_fmap_snoc {A B} (f : A → B) (l : list A) x :
  NoDup (f <$> l) → f x ∉ (f <$> l) → NoDup (f <$> l ++ [x]).
Proof.
  intros Hl Hx. rewrite fmap_app. apply NoDup_app. split; [done|]. split.
  - intros y Hy. simpl. by intros [->|?%not_elem_of_nil]%elem_of_cons.
  - simpl. apply NoDup_singleton.
Qed.

Lemma NoDup_new_part reference sequence total ps :
  existsb (same_part reference sequence) ps = false → NoDup (part_key <$> ps) →
  NoDup (part_key <$> ps ++ [mkPart reference sequence total true]).
Proof.
  intros Hex Hnd. apply NoDup_fmap_snoc; [done|]. intros Hin.
  apply (existsb_same_part reference sequence) in Hin. congruence.
Qed.

Lemma machine_inv_part reference sequence total n m :
  (0 ≤ sequence < 256)%Z → (0 ≤ total < 256)%Z → machine_inv m →
  machine_inv (fst (receive_mt_part reference sequence total n m)).
Proof.
  intros Hs Ht Hm. destruct (decide (1 ≤ sequence ≤ total)%Z) as [Hok|Hbad].
  2: { by rewrite receive_mt_part_rejected by lia. }
  destruct (receive_mt_part_accepted reference sequence total n m Hok)
    as (Hps & Hmo & Hdir & Hfail & Hsip & Hack).
  destruct Hm as [? ? (? & ? & ?) Hparts Hnd ?].
  split; [by rewrite Hmo|by rewrite Hdir| | | |by rewrite Hmo].
  - unfold mt_clean. rewrite Hfail, Hsip, Hack. split_and!; [done|by right|done].
  - rewrite Hps. destruct (existsb _ _); [done|]. apply Forall_app. split; [done|].
    repeat constructor; simpl; lia.
  - rewrite Hps. destruct (existsb _ _) eqn:Hex; [done|]. by apply NoDup_new_part.
Qed.

Lemma machine_inv_new profile : machine_inv (machine_new profile).
Proof.
  split; simpl; try done.
  all: unfold mt_clean; simpl; first [by constructor|split_and!; by auto].
Qed.

Lemma machine_inv_step m m' : Step m m' → machine_inv m → machine_inv m'.
Proof.
  intros []; intros Hm; [..|by apply machine_inv_part].
  all: destruct Hm; try (split; done).
  unfold accept_mo_sip_response. case_match; split; done.
Qed.

Lemma machine_inv_reachable profile m : Reachable profile m → machine_inv m.
Proof.
  unfold Reachable. intros Hr. pose proof (machine_inv_new profile) as Hm.
  induction Hr as [|? ? ? Hstep _ IH]; [done|]. by eapply IH, machine_inv_step.
Qed.

Lemma one_to_elem total s : s ∈ one_to total ↔ (1 ≤ s ≤ total)%Z.
Proof.
  unfold one_to. rewrite list_elem_of_fmap. split.
  - intros (k & -> & Hk%elem_of_seq). lia.
  - intros Hs. exists (Z.to_nat s). rewrite elem_of_seq. lia.
Qed.

Lemma forallb_Forall {A} (f : A → bool) l : forallb f l = true ↔ Forall (λ x, f x = true) l.
Proof.
  rewrite forallb_forall, Forall_forall. by setoid_rewrite list_elem_of_In.
Qed.

(** [parts_complete] on the segments of one message. *)
Lemma parts_complete_single r reference total :
  (1 ≤ total)%Z →
  Forall (λ p, part_reference p = reference ∧ part_total p = total ∧ part_received p = true)
    (rec_parts r) →
  parts_complete r = true ↔ ∀ s, (1 ≤ s ≤ total)%Z → (reference, s) ∈ (part_key <$> rec_parts r).
Proof.
  intros Ht Hps. unfold parts_complete. destruct (rec_parts r) as [|p ps] eqn:Hr.
  { split; [done|]. intros Hall. specialize (Hall 1%Z ltac:(lia)). by apply not_elem_of_nil in Hall. }
  pose proof Hps as [(_ & -> & _) _]%Forall_cons. rewrite <-Hr in *.
  rewrite !andb_true_iff, !forallb_Forall, negb_true_iff, Z.eqb_neq.
  split.
  - intros [[_ _] Hall] s Hs. rewrite Forall_forall in Hall.
    specialize (Hall s (proj2 (one_to_elem _ _) Hs)).
    apply existsb_exists in Hall as (q & Hq%list_elem_of_In & [Hqs%Z.eqb_eq _]%andb_true_iff).
    apply list_elem_of_fmap. exists q. split; [|done].
    rewrite Forall_forall in Hps. destruct (Hps q Hq) as (Hqr & _). unfold part_key. congruence.
  - intros Hall. split_and!; [lia| |].
    + eapply Forall_impl; [exact Hps|]. intros q (_ & -> & _). apply Z.eqb_refl.
    + apply Forall_forall. intros s Hs%one_to_elem. apply existsb_exists.
      apply Hall, list_elem_of_fmap in Hs as (q & Hk & Hq). exists q.
      rewrite <-list_elem_of_In. split; [done|]. rewrite Forall_forall in Hps.
      destruct (Hps q Hq) as (_ & _ & ->). injection Hk as _ ->. by rewrite Z.eqb_refl.
Qed.

Lemma receive_all_parts reference total seqs m :
  Forall (λ s, 1 ≤ s ≤ total)%Z seqs →
  let ps := rec_parts (sm_mt m) in
  Forall (λ p, part_reference p = reference ∧ part_total p = total ∧ part_received p = true) ps →
  NoDup (part_key <$> ps) →
  let ps' := rec_parts (sm_mt (receive_all reference total seqs m)) in
  Forall (λ p, part_reference p = reference ∧ part_total p = total ∧ part_received p = true) ps'
  ∧ NoDup (part_key <$> ps')
  ∧ ∀ s, (reference, s) ∈ (part_key <$> ps') ↔ (reference, s) ∈ (part_key <$> ps) ∨ s ∈ seqs.
Proof.
  cbv zeta. revert m. induction seqs as [|s seqs IH]; intros m Hs Hps Hnd; simpl.
  { split_and!; [done..|]. intros s. rewrite elem_of_nil. tauto. }
  apply Forall_cons in Hs as [Hs Hseqs].
  destruct (receive_mt_part_accepted reference s total 0 m Hs) as (Hps' & _).
  destruct (IH (fst (receive_mt_part reference s total 0 m)) Hseqs) as (H1 & H2 & H3).
  - rewrite Hps'. destruct (existsb _ _); [done|]. apply Forall_app. split; [done|].
    by repeat constructor.
  - rewrite Hps'. destruct (existsb _ _) eqn:Hex; [done|]. by apply NoDup_new_part.
  - split_and!; [done..|]. intros k. rewrite (H3 k), Hps', elem_of_cons.
    destruct (existsb _ _) eqn:Hex.
    + apply existsb_same_part in Hex. split; [tauto|]. intros [?|[->|?]]; tauto.
    + rewrite fmap_app, elem_of_app. simpl. rewrite list_elem_of_singleton.
      change (part_key (mkPart reference s total true)) with (reference, s).
      split; [intros [[?|[= ->]]|?]; tauto|]. intros [?|[->|?]]; tauto.
Qed.

Lemma duplicate_parts_zero reference sequence ps :
  NoDup (part_key <$> ps) → (reference, sequence) ∈ (part_key <$> ps) →
  length (filter (λ p, same_part reference sequence p = true) ps) = 1.
Proof.
  induction ps as [|p ps IH]; simpl.
  { by intros _ ?%not_elem_of_nil. }
  rewrite NoDup_cons, elem_of_cons. intros [Hp Hnd] Hin.
  destruct (decide (part_key p = (reference, sequence))) as [Hk|Hk].
  - rewrite filter_cons_True by by apply same_part_true. simpl. f_equal.
    destruct (filter _ ps) as [|q qs] eqn:Hf; [done|].
    assert (q ∈ filter (λ p, same_part reference sequence p = true) ps) as Hq.
    { rewrite Hf. apply list_elem_of_here. }
    apply list_elem_of_filter in Hq as [Hqk%same_part_true Hq].
    destruct Hp. rewrite Hk, <-Hqk. by apply list_elem_of_fmap_2.
  - rewrite filter_cons_False by (rewrite same_part_true; done). apply IH; [done|].
    destruct Hin as [Heq|?]; [by destruct Hk|done].
Qed.

Lemma mo_failure_step m m' c :
  Step m m' → rec_failure_cause (sm_mo m) = Some c → is_Some (rec_failure_cause (sm_mo m')).
Proof.
  intros [] Hc; simpl; try (by rewrite Hc); try (by rewrite Hc; eauto).
  - unfold accept_mo_sip_response. case_match; simpl; [done|by rewrite Hc].
  - destruct (decide (1 ≤ sequence ≤ total)%Z) as [Hok|Hbad].
    + destruct (receive_mt_part_accepted reference sequence total n m0 Hok) as (_ & -> & _).
      by rewrite Hc.
    + rewrite receive_mt_part_rejected by lia. simpl. by rewrite Hc.
Qed.

Lemma aggregate_failed r c : rec_failure_cause r = Some c → aggregate_state r = DlvFailed.
Proof. unfold aggregate_state. intros ->. by rewrite bool_decide_true by eauto. Qed.

Lemma aggregate_mt_complete r :
  mt_clean r → rec_direction r = MobileTerminated → parts_complete r = true →
  aggregate_state r = DlvReceived.
Proof.
  intros (Hf & Hs & Ha) Hd Hc. unfold aggregate_state. rewrite Hf, Hd, Hc.
  rewrite bool_decide_false by (by intros [? ?]).
  rewrite bool_decide_false by (destruct Hs as [-> | ->]; by intros []).
  by rewrite bool_decide_false, bool_decide_true.
Qed.

Lemma aggregate_mo_acked r :
  rec_direction r = MobileOriginated → rec_rpdu_ack r = RpAcked →
  aggregate_state r ≠ DlvQueued ∧ aggregate_state r ≠ DlvSubmitted.
Proof.
  intros Hd Ha. unfold aggregate_state. rewrite Hd, Ha.
  destruct (_ || _ || _); [done|]. by destruct (rec_delivery_reported r), (rec_sip_state r).
Qed.

(** * Properties *)

(** Segments of one concatenated message that arrive in any order and any
    number of times make the inbound record complete exactly when every
    segment number has arrived, and the record then counts as received. *)
Theorem reassembly_complete_iff profile reference total seqs :
  (1 ≤ total ≤ 255)%Z → Forall (λ s, 1 ≤ s ≤ total)%Z seqs →
  let r := sm_mt (receive_all reference total seqs (machine_new profile)) in
  (parts_complete r = true ↔ ∀ s, (1 ≤ s ≤ total)%Z → s ∈ seqs)
  ∧ (parts_complete r = true → aggregate_state r = DlvReceived).
Proof.
  intros Ht Hs. cbv zeta.
  destruct (receive_all_parts reference total seqs (machine_new profile) Hs) as (H1 & _ & H3);
    [constructor..|].
  rewrite (parts_complete_single _ reference total) by (try done; lia). split.
  { setoid_rewrite H3. simpl. split; intros Hall s Hr; specialize (Hall s Hr); [|by right].
    destruct Hall as [?%not_elem_of_nil|?]; done. }
  rewrite <-(parts_complete_single _ reference total) by (try done; lia).
  assert (machine_inv (receive_all reference total seqs (machine_new profile))) as [].
  { unfold receive_all. clear H1 H3. generalize (machine_inv_new profile).
    generalize (machine_new profile). induction Hs as [|s seqs Hs _ IH]; intros m Hm; simpl; [done|].
    apply IH, machine_inv_part; [lia..|done]. }
  by apply aggregate_mt_complete.
Qed.

Lemma reassembly_complete_iff_witness :
  parts_complete (sm_mt (receive_all 7 3 [3; 1; 3; 2]
    (machine_new (Build_SmsCarrierProfile (lit "p") (lit "00101") (lit "tcp")))))%Z = true.
Proof.
  apply (reassembly_complete_iff (Build_SmsCarrierProfile (lit "p") (lit "00101") (lit "tcp"))
           7%Z 3%Z [3; 1; 3; 2]%Z); [lia|repeat constructor; lia|].
  intros s Hs. assert (s = 1 ∨ s = 2 ∨ s = 3)%Z as [->|[->| ->]] by lia;
    repeat (first [apply list_elem_of_here|apply list_elem_of_further]).
Defined.

(** C39: in every reachable state of the machine the record invariant holds
    (segments are distinct, numbered within their total, the inbound record
    never fails) and the consistency assertion of the code passes. *)
Theorem reachable_states_consistent profile m :
  Reachable profile m → machine_inv m ∧ assert_state_consistency m = Ok tt.
Proof.
  intros Hm%machine_inv_reachable. split; [done|]. destruct Hm as [Hmo Hmt Hclean _ _ _].
  unfold assert_state_consistency, api_status.
  case_bool_decide as Hack; simpl.
  - pose proof (aggregate_mo_acked _ Hmo Hack) as [? ?].
    destruct (aggregate_state (sm_mo m)) eqn:?; try done; simpl;
      (destruct (parts_complete (sm_mt m)) eqn:Hc; [|done]);
      by rewrite (aggregate_mt_complete _ Hclean Hmt Hc).
  - destruct (parts_complete (sm_mt m)) eqn:Hc; [|done].
    by rewrite (aggregate_mt_complete _ Hclean Hmt Hc).
Qed.

Lemma reachable_states_consistent_witness :
  let p := Build_SmsCarrierProfile (lit "p") (lit "00101") (lit "udp") in
  assert_state_consistency (fst (receive_mt_part 9 1 1 12
    (fst (accept_mo_rp_ack (machine_new p))))) = Ok tt.
Proof.
  intros p. apply (reachable_states_consistent p).
  apply (rtc_l _ _ _ _ (step_rp_ack _)). apply rtc_once. apply step_part; lia.
Defined.

(** One inbound segment, on every branch: an impossible numbering is an
    error that leaves the machine as it was; a valid one is acknowledged with
    200, is appended unless the same reference and sequence was seen, leaves
    the outbound record alone, and the reported number of duplicates is 0. *)
Theorem inbound_segment_effect profile m reference sequence total n :
  Reachable profile m → (0 ≤ sequence < 256)%Z → (0 ≤ total < 256)%Z →
  let '(m', r) := receive_mt_part reference sequence total n m in
  if bool_decide (1 ≤ sequence ≤ total)%Z then
    let known := bool_decide ((reference, sequence) ∈ part_key <$> rec_parts (sm_mt m)) in
    rec_parts (sm_mt m') =
      rec_parts (sm_mt m) ++ (if known then [] else [mkPart reference sequence total true])
    ∧ sm_mo m' = sm_mo m
    ∧ (∃ ack, r = Ok ack ∧ sm_last_ack m' = Some ack ∧ ack_sip_response_code ack = 200%Z)
    ∧ (∃ ra, sm_reassembly m' = Some ra ∧ ra_duplicate_parts ra = 0%Z)
  else m' = m ∧ r = Err (InvalidPart sequence total).
Proof.
  intros Hm Hs Ht. case_bool_decide as Hok.
  2: { by rewrite receive_mt_part_rejected by lia. }
  pose proof (machine_inv_part reference sequence total n m Hs Ht (machine_inv_reachable _ _ Hm)) as Hinv.
  destruct (receive_mt_part_accepted reference sequence total n m Hok) as (Hps & Hmo & _).
  destruct (receive_mt_part reference sequence total n m) as [m' r] eqn:Hr. simpl in *.
  split_and!; [..|done| |].
  - rewrite Hps. destruct (existsb _ _) eqn:Hex.
    + rewrite bool_decide_true by by apply existsb_same_part. by rewrite app_nil_r.
    + rewrite bool_decide_false; [done|]. rewrite <-existsb_same_part. congruence.
  - revert Hr. unfold receive_mt_part.
    rewrite (proj2 (Z.eqb_neq sequence 0)), (proj2 (Z.eqb_neq total 0)),
      (proj2 (Z.ltb_ge total sequence)) by lia.
    simpl. intros [= <- <-]. eauto.
  - assert ((reference, sequence) ∈ part_key <$> rec_parts (sm_mt m')) as Hin.
    { rewrite Hps. destruct (existsb _ _) eqn:Hex; [by apply existsb_same_part|].
      rewrite fmap_app. apply elem_of_app. right. by apply list_elem_of_singleton. }
    pose proof (duplicate_parts_zero _ _ _ (inv_parts_nodup _ Hinv) Hin) as Hone.
    revert Hr Hone. unfold receive_mt_part.
    rewrite (proj2 (Z.eqb_neq sequence 0)), (proj2 (Z.eqb_neq total 0)),
      (proj2 (Z.ltb_ge total sequence)) by lia.
    simpl. intros [= <- _]. simpl. intros ->. eauto.
Qed.

Lemma inbound_segment_effect_witness :
  let m := machine_new (Build_SmsCarrierProfile (lit "p") (lit "00101") (lit "udp")) in
  rec_parts (sm_mt (fst (receive_mt_part 42 1 2 134 m))) = [mkPart 42 1 2 true].
Proof.
  intros m.
  apply (inbound_segment_effect (sm_profile m) m 42 1 2 134); [apply rtc_refl|lia..].
Defined.

(** A non-2xx answer to the SIP MESSAGE fails the outbound record for
    good: whatever the machine does afterwards, its state stays failed. *)
Theorem mo_rejection_is_final status m m' :
  ¬ (200 ≤ status < 300)%Z → rtc Step (fst (accept_mo_sip_response status m)) m' →
  snd (accept_mo_sip_response status m) = Err (ErrSipRejected status)
  ∧ aggregate_state (sm_mo m') = DlvFailed.
Proof.
  intros Hst Hr.
  assert ((200 <=? status) && (status <? 300) = false)%Z as Hb.
  { destruct (Z.leb_spec 200 status), (Z.ltb_spec status 300); simpl; (done || lia). }
  split; [unfold accept_mo_sip_response; by rewrite Hb|].
  assert (is_Some (rec_failure_cause (sm_mo m'))) as [c Hc]; [|by eapply aggregate_failed].
  assert (is_Some (rec_failure_cause (sm_mo (fst (accept_mo_sip_response status m))))) as Hc.
  { unfold accept_mo_sip_response. rewrite Hb. by eexists. }
  induction Hr as [|? ? ? Hstep _ IH]; [done|]. apply IH.
  destruct Hc as [c Hc]. by eapply mo_failure_step.
Qed.

Lemma mo_rejection_is_final_witness :
  let m := machine_new (Build_SmsCarrierProfile (lit "p") (lit "00101") (lit "udp")) in
  aggregate_state (sm_mo (fst (accept_mo_rp_ack (fst (accept_mo_sip_response 403 m))))) = DlvFailed.
Proof.
  intros m. apply (mo_rejection_is_final 403 m); [lia|]. apply rtc_once, step_rp_ack.
Defined.

(** The dry run of the machine never panics on its [expect]s and ends in
    a state that is ready, with no delivery pending. *)
Theorem dry_run_snapshot_ready (E : Type) profile :
  ∃ s, build_dry_run_sms_snapshot (E:=E) profile = Ok s
    ∧ ps_sms_ready s = true ∧ ps_pending_delivery_count s = 0%Z.
Proof.
  destruct profile as [pid plmn transport].
  unfold build_dry_run_sms_snapshot, machine_new. simpl profile_sms_receiver_transport.
  destruct (str_eqb transport (lit "udp")); eexists; (split; [vm_compute; reflexivity|]);
    split; reflexivity.
Qed.

(** The completeness of the inbound record does not look at the
    reference: after one complete message, the first segment alone of a second
    message with the same total is already reported as complete. *)
Theorem completeness_ignores_reference profile :
  let m := receive_all 7 2 [1; 2]%Z (machine_new profile) in
  let '(m', r) := receive_mt_part 8 1 2 0 m in
  sm_reassembly m' = Some (mkReassembly (lit "sender_destination_dcs_reference") 8 2 1 true 0 (Some 1%Z))
  ∧ ack_kind <$> sm_last_ack m' = Some (lit "rp_ack_complete").
Proof. split; vm_compute; reflexivity. Qed.
