(* ===== verification/Routing.v ===== *)
(** * Path policies and the SMS and voice routers

    Models the access-path policies of [platform/config.rs], the pure planners
    [services/orchestrator/sms_router.rs] and [voice_router.rs], and the send
    loop of [api/handlers.rs] that walks the paths under the cost guard.  The
    live parts of a path (modem and IMS I/O, the database) are parameters of the
    loop; the line profile may change between any two reads. *)
From Stdlib Require Import Ascii String ZArith Lia.
From stdpp Require Import prelude sorting.
From S2P Require Import Prelude Text.

(** ** Access paths and their policies *)
Inductive AccessPathKind := Vowifi | CellularIms | Cs.
#[export] Instance AccessPathKind_eq_dec : EqDecision AccessPathKind.
Proof. solve_decision. Defined.

Definition AccessPathKind_as_str (k : AccessPathKind) : str :=
  match k with
  | Vowifi => lit "vowifi"
  | CellularIms => lit "cellular_ims"
  | Cs => lit "cs"
  end.
Definition transport_tag (k : AccessPathKind) : str :=
  match k with
  | Vowifi => lit "vowifi_ims"
  | CellularIms => lit "cellular_ims"
  | Cs => lit "modem"
  end.
Definition is_ims (k : AccessPathKind) : bool :=
  match k with Vowifi | CellularIms => true | Cs => false end.

Inductive MidFlightDisablePolicy := AutoSwitch | FailMidFlight.
Definition MidFlightDisablePolicy_as_str (p : MidFlightDisablePolicy) : str :=
  match p with AutoSwitch => lit "auto_switch" | FailMidFlight => lit "fail" end.

Record PathLayerConfig := mkLayer { layer_kind : AccessPathKind; layer_enabled : bool }.

Definition default_sms_path_order : list PathLayerConfig :=
  [mkLayer Vowifi true; mkLayer CellularIms true; mkLayer Cs true].

Record SmsPathPolicy := mkSmsPolicy {
  sms_priority : list PathLayerConfig;
  force_vowifi_send : bool;
  dedupe_enabled : bool;
  cs_fallback_receiver : bool;
  mid_flight_disable : MidFlightDisablePolicy;
  dedup_retention_days : Z;
  message_retention_limit : Z;
}.

Definition default_sms_dedup_retention_days : Z := 30.
Definition default_sms_message_retention_limit : Z := 10000.
Definition SmsPathPolicy_default : SmsPathPolicy :=
  mkSmsPolicy default_sms_path_order false true true AutoSwitch
    default_sms_dedup_retention_days default_sms_message_retention_limit.

(** [n.clamp(lo, hi)] *)
Definition clamp (lo hi n : Z) : Z := if (n <? lo)%Z then lo else if (hi <? n)%Z then hi else n.

Definition sms_enabled_layers (p : SmsPathPolicy) : list AccessPathKind :=
  take (if force_vowifi_send p then 1 else 3) [Vowifi; CellularIms; Cs].
Definition sms_enabled_ims_layers (p : SmsPathPolicy) : list AccessPathKind := [Vowifi; CellularIms].
Definition sms_is_enabled (p : SmsPathPolicy) (kind : AccessPathKind) : bool := true.
Definition sms_normalized (p : SmsPathPolicy) : SmsPathPolicy :=
  mkSmsPolicy default_sms_path_order (force_vowifi_send p) true true AutoSwitch
    (clamp 1 3650 (dedup_retention_days p)) (clamp 100 100000 (message_retention_limit p)).

Definition default_voice_path_order : list PathLayerConfig :=
  [mkLayer Vowifi true; mkLayer CellularIms true].
Record VoicePathPolicy := mkVoicePolicy {
  voice_priority : list PathLayerConfig;
  gateway_mode : bool;
}.
Definition VoicePathPolicy_default : VoicePathPolicy := mkVoicePolicy default_voice_path_order true.
Definition voice_enabled_layers (p : VoicePathPolicy) : list AccessPathKind :=
  layer_kind <$> filter (λ l, layer_enabled l = true) (voice_priority p).

(** [seen.contains(&k)] *)
Definition contains (l : list AccessPathKind) (k : AccessPathKind) : bool := bool_decide (k ∈ l).

(** The first loop of [VoicePathPolicy::normalized]: (seen, deduped). *)
Definition dedupe_layer (st : list AccessPathKind * list PathLayerConfig) (layer : PathLayerConfig)
    : list AccessPathKind * list PathLayerConfig :=
  let '(seen, deduped) := st in
  if is_ims (layer_kind layer) && negb (contains seen (layer_kind layer))
  then (seen ++ [layer_kind layer], deduped ++ [layer]) else st.
Definition add_missing (seen : list AccessPathKind) (deduped : list PathLayerConfig)
    (kind : AccessPathKind) : list PathLayerConfig :=
  if contains seen kind then deduped else deduped ++ [mkLayer kind true].
Definition voice_normalized (p : VoicePathPolicy) : VoicePathPolicy :=
  let '(seen, deduped) := foldl dedupe_layer ([], []) (voice_priority p) in
  let deduped := foldl (add_missing seen) deduped [Vowifi; CellularIms] in
  mkVoicePolicy deduped (gateway_mode p).

(** ** SMS planning *)
Inductive SmsSendOrigin := OriginLocal | OriginTrunk.
#[export] Instance SmsSendOrigin_eq_dec : EqDecision SmsSendOrigin.
Proof. solve_decision. Defined.

Record SmsSendGuard := mkGuard { guard_origin : SmsSendOrigin; initially_vowifi_only : bool }.

Definition guard_new (policy : SmsPathPolicy) (trunk_vowifi_only : bool) (origin : SmsSendOrigin)
    : SmsSendGuard :=
  mkGuard origin (force_vowifi_send policy
    || (bool_decide (origin = OriginTrunk) && trunk_vowifi_only)).

Definition guard_allows (g : SmsSendGuard) (kind : AccessPathKind) (current_policy : SmsPathPolicy)
    (current_trunk_vowifi_only : bool) : bool :=
  bool_decide (kind = Vowifi)
  || negb (initially_vowifi_only g || force_vowifi_send current_policy
           || (bool_decide (guard_origin g = OriginTrunk) && current_trunk_vowifi_only)).

Inductive SkipReason := SkipDisabled | SkipNotReady | SkipDisabledMidFlight.
Inductive AttemptOutcome := Sent | AttemptFailed | DisabledMidFlight.
Inductive RouteDecision :=
| Delivered (kind : AccessPathKind)
| TryNext (next : AccessPathKind)
| Exhausted (attempted : list AccessPathKind).

Record LegSendReadiness := mkSendReadiness { leg_kind : AccessPathKind; leg_ready : bool }.

Definition plan_candidates (policy : SmsPathPolicy) (readiness : list LegSendReadiness)
    : list AccessPathKind :=
  let ready_for kind := existsb (λ r, bool_decide (leg_kind r = kind) && leg_ready r) readiness in
  filter (λ kind, ready_for kind = true) (sms_enabled_layers policy).

Record SendRouter := mkRouter {
  candidates : list AccessPathKind;
  cursor : nat;
  attempted : list AccessPathKind;
}.

Definition router_new (policy : SmsPathPolicy) (readiness : list LegSendReadiness) : SendRouter :=
  mkRouter (plan_candidates policy readiness) 0 [].
Definition candidate_count (r : SendRouter) : nat := length (candidates r).
Definition router_current (r : SendRouter) : option AccessPathKind := candidates r !! cursor r.
Definition planned (r : SendRouter) : list AccessPathKind := candidates r.

Definition advance (r : SendRouter) : SendRouter * RouteDecision :=
  let r := mkRouter (candidates r) (cursor r + 1) (attempted r) in
  (r, match router_current r with
      | Some next => TryNext next
      | None => Exhausted (attempted r)
      end).

Definition record (outcome : AttemptOutcome) (r : SendRouter) : SendRouter * RouteDecision :=
  match router_current r with
  | None => (r, Exhausted (attempted r))
  | Some current =>
    let r := mkRouter (candidates r) (cursor r) (attempted r ++ [current]) in
    match outcome with
    | Sent => (r, Delivered current)
    | AttemptFailed | DisabledMidFlight => advance r
    end
  end.

(** The walk the router is made for: read [current], send, [record], until the
    decision is not [TryNext]. *)
Fixpoint drive (fuel : nat) (send : AccessPathKind → AttemptOutcome) (r : SendRouter)
    : option (SendRouter * RouteDecision) :=
  match fuel with
  | 0 => None
  | S fuel =>
    match router_current r with
    | None => Some (record AttemptFailed r)
    | Some kind =>
      match record (send kind) r with
      | (r, TryNext _) => drive fuel send r
      | done => Some done
      end
    end
  end.

(** ** Voice planning *)
Record VoiceLegReadiness := mkVoiceReadiness {
  voice_kind : AccessPathKind;
  feature_enabled : bool;
  voice_registered : bool;
  media_gateway_ready : bool;
}.
Inductive VoiceRouteRejection :=
| PolicyDisabled | FeatureDisabled | NotRegistered | MediaGatewayUnavailable.
Record RejectedVoiceLeg := mkRejected { rej_kind : AccessPathKind; rej_reason : VoiceRouteRejection }.
Record VoiceRoutePlan := mkPlan {
  plan_gateway_mode : bool;
  plan_candidate_kinds : list AccessPathKind;
  plan_rejected : list RejectedVoiceLeg;
}.

(** Why a layer cannot carry the call: the body of the loop. *)
Definition voice_layer_rejection (gateway : bool) (readiness : list VoiceLegReadiness)
    (layer : PathLayerConfig) : option VoiceRouteRejection :=
  if negb (layer_enabled layer) then Some PolicyDisabled
  else match List.find (λ state, bool_decide (voice_kind state = layer_kind layer)) readiness with
    | None => Some FeatureDisabled
    | Some state =>
      if negb (feature_enabled state) then Some FeatureDisabled
      else if negb (voice_registered state) then Some NotRegistered
      else if gateway && negb (media_gateway_ready state) then Some MediaGatewayUnavailable
      else None
    end.
Definition plan_layer (gateway : bool) (readiness : list VoiceLegReadiness)
    (st : list AccessPathKind * list RejectedVoiceLeg) (layer : PathLayerConfig)
    : list AccessPathKind * list RejectedVoiceLeg :=
  let '(candidates, rejected) := st in
  match voice_layer_rejection gateway readiness layer with
  | Some reason => (candidates, rejected ++ [mkRejected (layer_kind layer) reason])
  | None => (candidates ++ [layer_kind layer], rejected)
  end.
Definition voice_rank (k : AccessPathKind) : nat :=
  match k with Vowifi => 0 | CellularIms => 1 | Cs => 2 end.

Definition plan_voice_route (policy : VoicePathPolicy) (readiness : list VoiceLegReadiness)
    : VoiceRoutePlan :=
  let policy := voice_normalized policy in
  let '(candidates, rejected) :=
    foldl (plan_layer (gateway_mode policy) readiness) ([], []) (voice_priority policy) in
  mkPlan (gateway_mode policy) (sort_by_key voice_rank candidates) rejected.

(** ** The send loop of the SMS handlers *)
Section send_loop.
Context {A : Type}.

(** The outside of the loop: the [n]-th read of the line profile (its SMS policy
    and the trunk's VoWiFi-only switch) and the I/O of a path.  [prepare] is
    everything before the last cost check, [submit] hands the message to the
    network, [persist] stores the sent message. *)
Record SendWorld := mkWorld {
  profile_at : nat → SmsPathPolicy * bool;
  prepare : AccessPathKind → res str unit;
  submit : AccessPathKind → res str A;
  persist : AccessPathKind → res str unit;
  cs_native : bool;
}.

(** The profile reads so far and the submissions: path, number of reads before
    it, and whether the network took the message. *)
Record SendLog := mkLog { reads : nat; submissions : list (AccessPathKind * nat * bool) }.

Context (w : SendWorld).

Definition check_sms_send_cost_guard (path : AccessPathKind) (guard : SmsSendGuard) (l : SendLog)
    : SendLog * res str unit :=
  let '(policy, trunk) := profile_at w (reads l) in
  (mkLog (S (reads l)) (submissions l),
   if guard_allows guard path policy trunk then Ok tt else Err (lit "sms_vowifi_only_required")).

Definition do_submit (path : AccessPathKind) (l : SendLog) : SendLog * res str A :=
  let r := submit w path in
  (mkLog (reads l) (submissions l ++ [(path, reads l, match r with Ok _ => true | _ => false end)]), r).

Definition send_sms_over_vowifi_path (l : SendLog) : SendLog * res str A :=
  match prepare w Vowifi with
  | Ok _ => do_submit Vowifi l
  | Err e => (l, Err e)
  | Panic => (l, Panic)
  end.

(** Continue with [k] after a step that may fail. *)
Definition and_then {B C} (x : SendLog * res str B) (k : B → SendLog → SendLog * res str C)
    : SendLog * res str C :=
  match x with
  | (l, Ok b) => k b l
  | (l, Err e) => (l, Err e)
  | (l, Panic) => (l, Panic)
  end.

Definition send_sms_over_cellular_ims_path (guard : SmsSendGuard) (l : SendLog)
    : SendLog * res str A :=
  and_then (check_sms_send_cost_guard CellularIms guard l) (λ _ l,
  and_then (l, prepare w CellularIms) (λ _ l,
  and_then (check_sms_send_cost_guard CellularIms guard l) (λ _ l,
  and_then (do_submit CellularIms l) (λ data l,
  and_then (l, persist w CellularIms) (λ _ l, (l, Ok data)))))).

Definition send_sms_over_cs_path (guard : SmsSendGuard) (l : SendLog) : SendLog * res str A :=
  and_then (l, prepare w Cs) (λ _ l,
  and_then (check_sms_send_cost_guard Cs guard l) (λ _ l,
  and_then (do_submit Cs l) (λ data l,
  if cs_native w then (l, Ok data)
  else and_then (l, persist w Cs) (λ _ l, (l, Ok data))))).

Definition send_over (path : AccessPathKind) (guard : SmsSendGuard) (l : SendLog)
    : SendLog * res str A :=
  match path with
  | Vowifi => send_sms_over_vowifi_path l
  | CellularIms => send_sms_over_cellular_ims_path guard l
  | Cs => send_sms_over_cs_path guard l
  end.

(** The [for path in paths] loop: [Some r] is an early return, otherwise the
    failures collected so far. *)
Fixpoint send_paths (paths : list AccessPathKind) (guard : SmsSendGuard) (failures : list str)
    (l : SendLog) : SendLog * list str * option (res str A) :=
  match paths with
  | [] => (l, failures, None)
  | path :: paths =>
    match check_sms_send_cost_guard path guard l with
    | (l, Err reason) => (l, failures ++ [reason], None)
    | (l, Panic) => (l, failures, Some Panic)
    | (l, Ok _) =>
      match send_over path guard l with
      | (l, Ok data) => (l, failures, Some (Ok data))
      | (l, Err reason) =>
        send_paths paths guard (failures ++ [AccessPathKind_as_str path ++ lit ":" ++ reason]) l
      | (l, Panic) => (l, failures, Some Panic)
      end
    end
  end.

(** [failures.join("; ")] *)
Fixpoint join (sep : str) (l : list str) : str :=
  match l with
  | [] => []
  | [s] => s
  | s :: l => s ++ sep ++ join sep l
  end.

(** [send_sms_on_line_with_origin] for a line that resolves. *)
Definition send_sms_on_line_with_origin (origin : SmsSendOrigin) : SendLog * res str A :=
  let '(policy, trunk) := profile_at w 0 in
  let guard := guard_new policy trunk origin in
  let paths := filter (λ path, guard_allows guard path policy trunk = true) (sms_enabled_layers policy) in
  match send_paths paths guard [] (mkLog 1 []) with
  | (l, _, Some r) => (l, r)
  | (l, failures, None) =>
    let '(l, r) := check_sms_send_cost_guard CellularIms guard l in
    let failures := match r with
      | Err reason => if bool_decide (reason ∈ failures) then failures else failures ++ [reason]
      | _ => failures
      end in
    (l, Err (if bool_decide (failures = []) then lit "no enabled SMS path" else join (lit "; ") failures))
  end.
End send_loop.

(** The layer the policy asks for: the first one of the kind, or an enabled one. *)
Definition wanted_layer (p : VoicePathPolicy) (k : AccessPathKind) : PathLayerConfig :=
  default (mkLayer k true)
    (List.find (λ l, bool_decide (layer_kind l = k)) (voice_priority p)).

(** * Lemmas on the voice policy *)
Definition dedupe_inv (ls : list PathLayerConfig)
    (st : list AccessPathKind * list PathLayerConfig) : Prop :=
  st.1 = layer_kind <$> st.2 ∧ NoDup st.1 ∧
  ∀ l, l ∈ st.2 ↔ is_ims (layer_kind l) = true
    ∧ List.find (λ l', bool_decide (layer_kind l' = layer_kind l)) ls = Some l.

Lemma find_snoc {B} (f : B → bool) l x :
  List.find f (l ++ [x]) =
    match List.find f l with Some y => Some y | None => if f x then Some x else None end.
Proof. induction l as [|y l IH]; simpl; [done|]. by destruct (f y). Qed.

Lemma contains_true l k : contains l k = true ↔ k ∈ l.
Proof. apply bool_decide_eq_true. Qed.
Lemma contains_false l k : contains l k = false ↔ k ∉ l.
Proof. apply bool_decide_eq_false. Qed.

Lemma dedupe_inv_snoc ls layer st :
  dedupe_inv ls st → dedupe_inv (ls ++ [layer]) (dedupe_layer st layer).
Proof.
  destruct st as [seen ded]. intros (Hs & Hnd & Hin). simpl in *.
  assert (layer_kind layer ∈ seen →
    is_Some (List.find (λ l', bool_decide (layer_kind l' = layer_kind layer)) ls)) as Hfound.
  { subst seen. intros (l & Hk & Hl)%list_elem_of_fmap. apply Hin in Hl as [_ Hf].
    rewrite Hk, Hf. eauto. }
  unfold dedupe_layer.
  destruct (is_ims (layer_kind layer)) eqn:Hims; simpl;
    [destruct (contains seen (layer_kind layer)) eqn:Hc; simpl|].
  - apply contains_true, Hfound in Hc as [y Hy]. split_and!; [done..|]. simpl. intros l.
    rewrite Hin, find_snoc. split; [by intros [? ->]|]. intros [Hi Hf]. split; [done|].
    revert Hf. case_match eqn:Hl; [done|]. case_bool_decide as Hk; [|done].
    rewrite <-Hk, Hy in Hl. done.
  - apply contains_false in Hc.
    assert (List.find (λ l', bool_decide (layer_kind l' = layer_kind layer)) ls = None) as Hnone.
    { destruct (List.find _ ls) as [y|] eqn:Hf; [|done]. destruct Hc. subst seen.
      pose proof (find_some _ _ Hf) as [_ Hk%bool_decide_eq_true]. apply list_elem_of_fmap.
      exists y. split; [done|]. apply Hin. by rewrite Hk. }
    split_and!; simpl; [by rewrite fmap_app, Hs|..].
    { apply NoDup_app. split_and!; [done| |apply NoDup_singleton].
      by intros x Hx ->%list_elem_of_singleton. }
    intros l. rewrite elem_of_app, Hin, list_elem_of_singleton, find_snoc. split.
    + intros [[Hi ->]| ->]; [done|]. rewrite Hnone. by rewrite bool_decide_true.
    + intros [Hi Hf]. revert Hf. case_match eqn:Hl; [intros [= ->]; by left|].
      case_bool_decide; [intros [= ->]; by right|done].
  - split_and!; [done..|]. simpl. intros l. rewrite Hin, find_snoc. split.
    + by intros [? ->].
    + intros [Hi Hf]. split; [done|]. revert Hf. case_match; [done|].
      case_bool_decide as Hk; [intros [= ->]; congruence|done].
Qed.

Lemma dedupe_fold ls : dedupe_inv ls (foldl dedupe_layer ([], []) ls).
Proof.
  induction ls as [|l ls IH] using rev_ind; simpl.
  { split_and!; simpl; [done|constructor|]. intros l. rewrite elem_of_nil. split; [by intros []|by intros [? ?]]. }
  rewrite foldl_snoc. by apply dedupe_inv_snoc.
Qed.

Lemma elem_of_ims k : k ∈ [Vowifi; CellularIms] ↔ is_ims k = true.
Proof. rewrite !elem_of_cons, elem_of_nil. destruct k; simpl; intuition congruence. Qed.
Lemma NoDup_ims : NoDup [Vowifi; CellularIms].
Proof. by apply (bool_decide_unpack _). Qed.

Lemma foldl_add_missing seen ded ks :
  foldl (add_missing seen) ded ks =
    ded ++ ((λ k, mkLayer k true) <$> filter (λ k, k ∉ seen) ks).
Proof.
  revert ded. induction ks as [|k ks IH]; intros ded; simpl; [by rewrite app_nil_r|].
  rewrite IH. unfold add_missing. destruct (contains seen k) eqn:Hc.
  - apply contains_true in Hc. by rewrite filter_cons_False by tauto.
  - apply contains_false in Hc. by rewrite filter_cons_True, <-app_assoc by done.
Qed.

(** Normalisation keeps exactly the wanted layer of each IMS kind. *)
Lemma voice_normalized_layers p :
  NoDup (layer_kind <$> voice_priority (voice_normalized p)) ∧
  ∀ l, l ∈ voice_priority (voice_normalized p) ↔
    is_ims (layer_kind l) = true ∧ l = wanted_layer p (layer_kind l).
Proof.
  pose proof (dedupe_fold (voice_priority p)) as Hd. unfold voice_normalized.
  destruct (foldl dedupe_layer ([], []) (voice_priority p)) as [seen ded].
  destruct Hd as (Hs & Hnd & Hin). cbn [fst snd] in *. subst seen.
  assert (∀ k, is_ims k = true → k ∉ (layer_kind <$> ded) →
    List.find (λ l', bool_decide (layer_kind l' = k)) (voice_priority p) = None) as Hnone.
  { intros k Hk Hnk. destruct (List.find _ _) as [y|] eqn:Hf; [|done]. destruct Hnk.
    pose proof (find_some _ _ Hf) as [_ <-%bool_decide_eq_true]. apply list_elem_of_fmap_2, Hin.
    done. }
  rewrite foldl_add_missing.
  set (extra := filter (λ k, k ∉ layer_kind <$> ded) [Vowifi; CellularIms]).
  assert (NoDup extra) as Hnde by apply NoDup_filter, NoDup_ims.
  assert (∀ k, k ∈ extra ↔ is_ims k = true ∧ k ∉ (layer_kind <$> ded)) as Hex.
  { intros k. unfold extra. rewrite list_elem_of_filter, elem_of_ims. tauto. }
  clearbody extra. cbn [voice_priority]. split.
  - rewrite fmap_app, <-list_fmap_compose. simpl.
    assert (layer_kind ∘ (λ k, mkLayer k true) <$> extra = extra) as ->
      by (clear; induction extra as [|? ? IH]; [done|]; by rewrite fmap_cons, IH).
    apply NoDup_app. split_and!; [done| |done]. intros k Hk [_ Hn]%Hex. done.
  - intros l. rewrite elem_of_app, Hin, list_elem_of_fmap. unfold wanted_layer. split.
    + intros [[Hi ->]|(k & -> & [Hi Hn]%Hex)]; [done|]. simpl. by rewrite Hnone.
    + intros [Hi Hl]. destruct (decide (layer_kind l ∈ layer_kind <$> ded)) as [Hk|Hk].
      * left. split; [done|]. apply list_elem_of_fmap in Hk as (y & Hy & [_ Hf]%Hin).
        rewrite <-Hy in Hf. rewrite Hf in Hl. simpl in Hl. by subst y.
      * right. rewrite (Hnone _ Hi Hk) in Hl. simpl in Hl.
        exists (layer_kind l). split; [done|]. by apply Hex.
Qed.

Lemma wanted_layer_kind p k : layer_kind (wanted_layer p k) = k.
Proof.
  unfold wanted_layer. destruct (List.find _ _) eqn:Hf; simpl; [|done].
  by apply find_some in Hf as [_ ?%bool_decide_eq_true].
Qed.

Lemma voice_normalized_kinds p :
  layer_kind <$> voice_priority (voice_normalized p) ≡ₚ [Vowifi; CellularIms].
Proof.
  destruct (voice_normalized_layers p) as [Hnd Hin].
  apply NoDup_Permutation; [done|apply NoDup_ims|]. intros k.
  rewrite list_elem_of_fmap, elem_of_ims. split.
  - by intros (l & -> & [Hi _]%Hin).
  - intros Hk. exists (wanted_layer p k). assert (layer_kind (wanted_layer p k) = k) as Hw by apply wanted_layer_kind.
    by rewrite Hin, Hw.
Qed.

Lemma plan_fold gw readiness ls c r :
  foldl (plan_layer gw readiness) (c, r) ls =
    (c ++ (layer_kind <$> filter (λ l, voice_layer_rejection gw readiness l = None) ls),
     r ++ omap (λ l, mkRejected (layer_kind l) <$> voice_layer_rejection gw readiness l) ls).
Proof.
  revert c r. induction ls as [|l ls IH]; intros c r; simpl; [by rewrite !app_nil_r|].
  destruct (voice_layer_rejection gw readiness l) as [reason|] eqn:Hl; simpl; rewrite IH.
  - by rewrite filter_cons_False, <-app_assoc by (by rewrite Hl).
  - by rewrite filter_cons_True, <-app_assoc by done.
Qed.

Lemma plan_split {R} (f : PathLayerConfig → option R) (mk : AccessPathKind → R → RejectedVoiceLeg) ls :
  (∀ k r, rej_kind (mk k r) = k) →
  (layer_kind <$> filter (λ l, f l = None) ls)
    ++ (rej_kind <$> omap (λ l, mk (layer_kind l) <$> f l) ls) ≡ₚ layer_kind <$> ls.
Proof.
  intros Hmk. induction ls as [|l ls IH]; [done|]. rewrite fmap_cons. cbn [omap list_omap].
  destruct (f l) eqn:Hl; simpl.
  - rewrite filter_cons_False by (by rewrite Hl). by rewrite <-Permutation_middle, Hmk, IH.
  - rewrite filter_cons_True by done. simpl. by rewrite IH.
Qed.

(** * Lemmas on the router *)
Definition is_sent (o : AttemptOutcome) : bool := match o with Sent => true | _ => false end.

(** The legs a walk tries: up to and including the first that sends. *)
Fixpoint tried (send : AccessPathKind → AttemptOutcome) (ks : list AccessPathKind)
    : list AccessPathKind :=
  match ks with
  | [] => []
  | k :: ks => k :: (if is_sent (send k) then [] else tried send ks)
  end.
Definition walk_result (send : AccessPathKind → AttemptOutcome) (ks : list AccessPathKind)
    : RouteDecision :=
  match List.find (λ k, is_sent (send k)) ks with
  | Some k => Delivered k
  | None => Exhausted ks
  end.

Lemma drive_spec send rest before :
  ∃ r', drive (S (length rest)) send (mkRouter (before ++ rest) (length before) before) =
      Some (r', match List.find (λ k, is_sent (send k)) rest with
                | Some k => Delivered k | None => Exhausted (before ++ rest) end)
    ∧ attempted r' = before ++ tried send rest.
Proof.
  revert before. induction rest as [|k rest IH]; intros before.
  { exists (mkRouter (before ++ []) (length before) before). simpl.
    unfold router_current, record, router_current. simpl. rewrite !app_nil_r.
    by rewrite lookup_ge_None_2 by lia. }
  cbn [drive length]. unfold record, router_current. cbn [candidates cursor].
  rewrite list_lookup_middle by done. cbn [candidates cursor attempted tried List.find].
  destruct (is_sent (send k)) eqn:Hk.
  { destruct (send k); try done. eexists. split; [done|]. done. }
  destruct (IH (before ++ [k])) as (r' & Hd & Hr). rewrite length_app in Hd. simpl in Hd.
  rewrite <-!app_assoc in Hd. simpl in Hd.
  assert ((match advance (mkRouter (before ++ k :: rest) (length before) (before ++ [k])) with
           | (r, TryNext _) => drive (S (length rest)) send r
           | done => Some done
           end) = Some (r', match List.find (λ k, is_sent (send k)) rest with
                | Some k => Delivered k | None => Exhausted (before ++ k :: rest) end)) as Hadv.
  { unfold advance, router_current. cbn [candidates cursor attempted].
    destruct ((before ++ k :: rest) !! (length before + 1)) eqn:Hl; [done|].
    apply lookup_ge_None in Hl. rewrite length_app in Hl. destruct rest; simpl in Hl; [|lia].
    cbn [drive length] in Hd. unfold record, router_current in Hd.
    cbn [candidates cursor attempted] in Hd.
    rewrite lookup_ge_None_2 in Hd by (rewrite length_app; simpl; lia). by simplify_eq/=. }
  exists r'. rewrite Hr, <-app_assoc. destruct (send k); by rewrite ?Hadv.
Qed.

Lemma plan_candidates_sublist policy readiness :
  plan_candidates policy readiness `sublist_of` [Vowifi; CellularIms; Cs].
Proof.
  unfold plan_candidates. etransitivity; [apply sublist_filter|]. apply sublist_take.
Qed.

Lemma plan_candidates_elem policy readiness k :
  k ∈ plan_candidates policy readiness ↔
    k ∈ sms_enabled_layers policy ∧ ∃ r, r ∈ readiness ∧ leg_kind r = k ∧ leg_ready r = true.
Proof.
  unfold plan_candidates. rewrite list_elem_of_filter, existsb_exists, (comm (∧)).
  f_equiv. f_equiv. intros r. rewrite list_elem_of_In, andb_true_iff, bool_decide_eq_true. done.
Qed.

(** * Lemmas on the send loop *)
Section send_loop_lemmas.
Context {A : Type} (w : @SendWorld A) (guard : SmsSendGuard).

Definition allowed_at (path : AccessPathKind) (n : nat) : Prop :=
  1 ≤ n ∧ guard_allows guard path (profile_at w (n - 1)).1 (profile_at w (n - 1)).2 = true.
Definition submission_ok (s : AccessPathKind * nat * bool) : Prop := allowed_at s.1.1 s.1.2.
Definition accepted (ss : list (AccessPathKind * nat * bool)) := filter (λ s, s.2 = true) ss.
Definition persist_ok : Prop := ∀ p, persist w p = Ok tt.

Lemma check_guard_spec path l l' r :
  check_sms_send_cost_guard w path guard l = (l', r) →
  submissions l' = submissions l ∧ reads l' = S (reads l) ∧ r ≠ Panic ∧
    (∀ u, r = Ok u → allowed_at path (reads l')).
Proof.
  unfold check_sms_send_cost_guard, allowed_at. destruct (profile_at w (reads l)) as [policy trunk] eqn:Hp.
  intros [= <- <-]. simpl. rewrite Nat.sub_0_r, Hp. simpl.
  split_and!; [done..|by case_match|]. intros u. case_match; [|done]. split; [lia|done].
Qed.

(** What one path adds to the log. *)
Definition path_effect (path : AccessPathKind) (l l' : SendLog) (r : res str A) : Prop :=
  (submissions l' = submissions l ∧ ∀ d, r ≠ Ok d) ∨
  ∃ n ok, submissions l' = submissions l ++ [(path, n, ok)] ∧ allowed_at path n ∧
    (∀ d, r = Ok d → ok = true) ∧ (persist_ok → ok = true → ∃ d, r = Ok d).

Lemma do_submit_spec path l l' r :
  do_submit w path l = (l', r) → allowed_at path (reads l) →
  submissions l' = submissions l ++ [(path, reads l, match r with Ok _ => true | _ => false end)].
Proof. unfold do_submit. by intros [= <- <-]. Qed.

Lemma submit_persist_effect path (native : bool) l l' r :
  allowed_at path (reads l) →
  and_then (do_submit w path l) (λ data l,
    if native then (l, Ok data) else and_then (l, persist w path) (λ _ l, (l, Ok data))) = (l', r) →
  path_effect path l l' r.
Proof.
  intros Ha. unfold do_submit, path_effect. destruct (submit w path) as [d|e|]; simpl.
  - intros Hr. right. exists (reads l), true.
    destruct native; [by simplify_eq; split_and!; eauto|]. simpl in Hr.
    destruct (persist w path) as [u|e|] eqn:Hp; simplify_eq; simpl; split_and!; eauto;
      intros Hok; specialize (Hok path); congruence.
  - intros ?; simplify_eq. right. by exists (reads l), false.
  - intros ?; simplify_eq. right. by exists (reads l), false.
Qed.

Lemma send_over_effect path l l' r :
  allowed_at path (reads l) → send_over w path guard l = (l', r) → path_effect path l l' r.
Proof.
  intros Ha. destruct path; simpl.
  - unfold send_sms_over_vowifi_path. intros Hr. destruct (prepare w Vowifi);
      [|by left; simplify_eq..].
    apply (submit_persist_effect Vowifi true); [done|].
    destruct (do_submit w Vowifi l) as [? []]; simplify_eq; done.
  - unfold send_sms_over_cellular_ims_path.
    destruct (check_sms_send_cost_guard w CellularIms guard l) as [l1 r1] eqn:H1.
    apply check_guard_spec in H1 as (Hs1 & _ & _ & _). simpl.
    destruct r1; [|intros ?; simplify_eq; by left..]. simpl.
    destruct (prepare w CellularIms); [|intros ?; simplify_eq; by left..]. simpl.
    destruct (check_sms_send_cost_guard w CellularIms guard l1) as [l2 r2] eqn:H2.
    apply check_guard_spec in H2 as (Hs2 & _ & _ & Hok). simpl.
    destruct r2; [|intros ?; simplify_eq; left; split; [congruence|done]..].
    intros Hr. apply (submit_persist_effect CellularIms false) in Hr; [|by eapply Hok].
    unfold path_effect in *. by rewrite Hs2, Hs1 in Hr.
  - unfold send_sms_over_cs_path. simpl.
    destruct (prepare w Cs); [|intros ?; simplify_eq; by left..]. simpl.
    destruct (check_sms_send_cost_guard w Cs guard l) as [l1 r1] eqn:H1.
    apply check_guard_spec in H1 as (Hs1 & _ & _ & Hok). simpl.
    destruct r1; [|intros ?; simplify_eq; by left..].
    intros Hr. apply submit_persist_effect in Hr; [|by eapply Hok].
    unfold path_effect in *. by rewrite Hs1 in Hr.
Qed.

(** What the loop adds to the log. *)
Definition loop_effect (paths : list AccessPathKind) (l l' : SendLog) (r : option (res str A)) : Prop :=
  ∃ new, submissions l' = submissions l ++ new ∧ Forall submission_ok new ∧
    ((λ s, s.1.1) <$> new) `sublist_of` paths ∧
    (∀ d, r = Some (Ok d) → accepted new ≠ []) ∧
    (persist_ok → length (accepted new) = match r with Some (Ok _) => 1 | _ => 0 end).

Lemma send_paths_effect paths failures l l' failures' r :
  send_paths w paths guard failures l = (l', failures', r) → loop_effect paths l l' r.
Proof.
  revert failures l. induction paths as [|path paths IH]; intros failures l; simpl.
  { intros; simplify_eq. exists []. by rewrite app_nil_r. }
  destruct (check_sms_send_cost_guard w path guard l) as [l1 r1] eqn:H1.
  apply check_guard_spec in H1 as (Hs1 & _ & Hnp & Hok).
  destruct r1 as [u|e|]; [|intros; simplify_eq; exists []; rewrite app_nil_r;
    split_and!; [done|done|apply sublist_nil_l|done..]|done].
  destruct (send_over w path guard l1) as [l2 r2] eqn:H2.
  apply send_over_effect in H2; [|by eapply Hok]. unfold path_effect in H2. rewrite Hs1 in H2.
  intros Hr. destruct H2 as [(Hs2 & Hne)|(n & ok & Hs2 & Ha & Hacc & Hper)].
  - destruct r2 as [d|e|]; [by destruct (Hne d)| |].
    + apply IH in Hr as (new & Hn & HF & Hsub & H3 & H4). rewrite Hs2 in Hn.
      exists new. split_and!; [done..|by constructor|done|done].
    + simplify_eq. exists []. rewrite app_nil_r. split_and!; [done|done|apply sublist_nil_l|done..].
  - destruct r2 as [d|e|].
    + simplify_eq. exists [(path, n, ok)]. rewrite (Hacc d eq_refl). split_and!; [by rewrite Hs2, (Hacc d eq_refl)
        |by constructor| |done|done]. simpl. constructor. apply sublist_nil_l.
    + apply IH in Hr as (new & Hn & HF & Hsub & H3 & H4). rewrite Hs2, <-app_assoc in Hn.
      exists ((path, n, ok) :: new). split_and!; [done|by constructor|by constructor| |].
      * intros d' Hd'. unfold accepted. intros Hnil. apply (H3 d' Hd').
        rewrite filter_cons in Hnil. by case_decide.
      * intros Hp. unfold accepted. rewrite filter_cons. simpl. case_decide as Hk; [|by apply H4].
        by destruct (Hper Hp Hk).
    + simplify_eq. exists [(path, n, ok)]. split_and!; [done|by constructor| |done|].
      * simpl. constructor. apply sublist_nil_l.
      * intros Hp. unfold accepted. rewrite filter_cons. simpl. case_decide as Hk; [|done].
        by destruct (Hper Hp Hk).
Qed.
End send_loop_lemmas.

(** A VoWiFi-only restriction in force for a message of this origin. *)
Definition restricted (origin : SmsSendOrigin) (profile : SmsPathPolicy * bool) : bool :=
  force_vowifi_send profile.1 || (bool_decide (origin = OriginTrunk) && profile.2).

Lemma guard_allows_restricted origin p0 t0 path p t :
  path ≠ Vowifi → guard_allows (guard_new p0 t0 origin) path p t = true →
  restricted origin (p0, t0) = false ∧ restricted origin (p, t) = false.
Proof.
  unfold guard_allows, guard_new, restricted. simpl. intros Hp.
  rewrite (bool_decide_false (path = Vowifi)) by done. simpl.
  by destruct (force_vowifi_send p0), (force_vowifi_send p), (bool_decide _), t0, t.
Qed.

Lemma send_effect {A} (w : @SendWorld A) origin :
  let '(policy, trunk) := profile_at w 0 in
  ∃ r, loop_effect w (guard_new policy trunk origin)
    (filter (λ path, guard_allows (guard_new policy trunk origin) path policy trunk = true)
       (sms_enabled_layers policy))
    (mkLog 1 []) (send_sms_on_line_with_origin w origin).1 r ∧
  match r with
  | Some r => (send_sms_on_line_with_origin w origin).2 = r
  | None => ∃ e, (send_sms_on_line_with_origin w origin).2 = Err e
  end.
Proof.
  unfold send_sms_on_line_with_origin. destruct (profile_at w 0) as [policy trunk].
  destruct (send_paths _ _ _ _ _) as [[l failures] r] eqn:Hs.
  apply send_paths_effect in Hs. exists r. destruct r; simpl; [done|].
  destruct (check_sms_send_cost_guard w CellularIms _ l) as [l' r'] eqn:Hc.
  apply check_guard_spec in Hc as (Hsub & _). simpl. split; [|eauto].
  unfold loop_effect in *. by rewrite Hsub.
Qed.

(** * Properties *)

(** The cost guard is never bypassed.  Whatever the paths do and however the
    line profile changes between two reads, a message is handed to the cellular
    IMS or circuit-switched network only if no VoWiFi-only restriction was in
    force when sending started nor at the profile read right before that
    submission. *)
Theorem sms_cost_guard_holds {A} (w : @SendWorld A) origin :
  Forall (λ '(path, n, _), path ≠ Vowifi →
      1 ≤ n ∧ restricted origin (profile_at w 0) = false
      ∧ restricted origin (profile_at w (n - 1)) = false)
    (submissions (send_sms_on_line_with_origin w origin).1).
Proof.
  pose proof (send_effect w origin) as He. destruct (profile_at w 0) as [policy trunk] eqn:Hp0.
  destruct He as (r & (new & -> & HF & _) & _). simpl. eapply Forall_impl; [exact HF|].
  intros [[path n] ok] [Hn Ha] Hne. simpl in *. split; [done|].
  destruct (profile_at w (n - 1)) as [p t]. by apply (guard_allows_restricted origin) in Ha.
Qed.

(** C40: the paths are tried in the fixed order VoWiFi, cellular IMS, CS, each at
    most once; and when storing a sent message does not fail, the network
    accepts the message exactly once if the send reports success and never if
    it reports an error. *)
Theorem sms_sent_at_most_once {A} (w : @SendWorld A) origin :
  let '(log, r) := send_sms_on_line_with_origin w origin in
  ((λ s, s.1.1) <$> submissions log) `sublist_of` [Vowifi; CellularIms; Cs] ∧
  ((∀ p, persist w p = Ok tt) →
    length (filter (λ s, s.2 = true) (submissions log)) = match r with Ok _ => 1 | _ => 0 end).
Proof.
  pose proof (send_effect w origin) as He. destruct (profile_at w 0) as [policy trunk].
  destruct He as (r & (new & Hn & _ & Hsub & _ & Hcount) & Hr). simpl in Hn.
  destruct (send_sms_on_line_with_origin w origin) as [log r']. simpl in *. rewrite Hn. split.
  - etransitivity; [exact Hsub|]. etransitivity; [apply sublist_filter|]. apply sublist_take.
  - intros Hp. specialize (Hcount Hp). unfold accepted in Hcount. rewrite Hcount.
    destruct r as [r|]; [by subst|]. by destruct Hr as [e ->].
Qed.

(** A failure to store a message that cellular IMS already accepted is
    treated like a failure to send: the loop goes on and the circuit-switched
    network gets the same message too. *)
Theorem store_failure_sends_twice :
  let w := mkWorld (A := unit) (λ _, (SmsPathPolicy_default, false))
    (λ p, if bool_decide (p = Vowifi) then Err (lit "disabled") else Ok tt) (λ _, Ok tt)
    (λ p, if bool_decide (p = CellularIms) then Err (lit "database is locked") else Ok tt) false in
  submissions (send_sms_on_line_with_origin w OriginLocal).1 =
    [(CellularIms, 5, true); (Cs, 7, true)].
Proof. vm_compute. reflexivity. Qed.

(** The walk of the router, for any policy, readiness and send results: it
    ends within one round per candidate; it delivers on the first candidate that
    sends and otherwise is exhausted after trying every candidate once, in
    order; the candidates are the enabled and ready legs in the fixed order. *)
Theorem router_walk policy readiness send :
  let cs := plan_candidates policy readiness in
  (∃ r', drive (S (length cs)) send (router_new policy readiness) = Some (r', walk_result send cs)
    ∧ attempted r' = tried send cs)
  ∧ cs `sublist_of` [Vowifi; CellularIms; Cs]
  ∧ ∀ k, k ∈ cs ↔ (force_vowifi_send policy = true → k = Vowifi)
      ∧ ∃ r, r ∈ readiness ∧ leg_kind r = k ∧ leg_ready r = true.
Proof.
  cbv zeta. split; [apply (drive_spec send _ [])|]. split; [apply plan_candidates_sublist|].
  intros k. rewrite plan_candidates_elem. f_equiv. unfold sms_enabled_layers.
  destruct (force_vowifi_send policy); simpl; rewrite !elem_of_cons, elem_of_nil;
    destruct k; intuition congruence.
Qed.

(** Voice planning is a partition: after normalisation each IMS leg is either
    a candidate or rejected, never both; it is rejected for exactly the reason
    its layer gives (first saved layer of the kind, enabled when there is none)
    and a CS leg never appears; candidates are VoWiFi first whatever order the
    policy saved. *)
Theorem voice_plan_correct policy readiness :
  let plan := plan_voice_route policy readiness in
  plan_gateway_mode plan = gateway_mode policy
  ∧ plan_candidate_kinds plan ++ (rej_kind <$> plan_rejected plan) ≡ₚ [Vowifi; CellularIms]
  ∧ key_sorted voice_rank (plan_candidate_kinds plan)
  ∧ ∀ k, is_ims k = true →
      match voice_layer_rejection (gateway_mode policy) readiness (wanted_layer policy k) with
      | None => k ∈ plan_candidate_kinds plan
      | Some reason => mkRejected k reason ∈ plan_rejected plan
      end.
Proof.
  assert (gateway_mode (voice_normalized policy) = gateway_mode policy) as Hgw.
  { unfold voice_normalized. by destruct (foldl _ _ _). }
  unfold plan_voice_route. rewrite plan_fold, Hgw. simpl.
  split; [done|]. split; [|split; [apply sort_by_key_sorted|]].
  - rewrite sort_by_key_perm, (plan_split _ mkRejected) by done. apply voice_normalized_kinds.
  - intros k Hk. destruct (voice_normalized_layers policy) as [_ Hin].
    assert (layer_kind (wanted_layer policy k) = k) as Hw by apply wanted_layer_kind.
    assert (wanted_layer policy k ∈ voice_priority (voice_normalized policy)) as Hl
      by (by rewrite Hin, Hw).
    case_match eqn:Hr.
    + apply list_elem_of_omap. exists (wanted_layer policy k). by rewrite Hr, Hw.
    + rewrite sort_by_key_perm. apply list_elem_of_fmap. exists (wanted_layer policy k).
      by rewrite list_elem_of_filter.
Qed.
