(* ===== verification/ImsAccess.v ===== *)
(** * IMS access selection and the layered access-path state

    Models [connectivity/core/ims_access.rs] (which access may register) and
    [services/orchestrator/ims_access.rs] (the stage of each access path, the
    registration set and the voice selection built from observations).  The
    diagnostics members of the built state, always their default value there,
    are left out. *)
From Stdlib Require Import Ascii String ZArith Lia.
From stdpp Require Import prelude.
From S2P Require Import Prelude Text Routing.

(** ** Registration admission ([connectivity/core/ims_access.rs]) *)
Inductive ImsAccess := Cellular | Wlan.
#[export] Instance ImsAccess_eq_dec : EqDecision ImsAccess.
Proof. solve_decision. Defined.
Definition ImsAccess_as_str (a : ImsAccess) : str :=
  match a with Cellular => lit "cellular" | Wlan => lit "wlan" end.
Definition reg_id (a : ImsAccess) : Z := match a with Cellular => 1 | Wlan => 2 end.

Inductive ImsAccessPreference := Concurrent | WlanPreferred | CellularPreferred.
#[export] Instance ImsAccessPreference_eq_dec : EqDecision ImsAccessPreference.
Proof. solve_decision. Defined.
Definition ImsAccessPreference_as_str (p : ImsAccessPreference) : str :=
  match p with
  | Concurrent => lit "concurrent"
  | WlanPreferred => lit "wlan_preferred"
  | CellularPreferred => lit "cellular_preferred"
  end.

Inductive ConcurrentRegistrationSupport :=
| ClientIncomplete | NotNegotiated | NotSupported | Negotiated.
#[export] Instance ConcurrentRegistrationSupport_eq_dec : EqDecision ConcurrentRegistrationSupport.
Proof. solve_decision. Defined.
Definition CURRENT_CONCURRENT_SUPPORT : ConcurrentRegistrationSupport := NotNegotiated.

Record ImsAccessInputs := mkInputs {
  cellular_enabled : bool;
  wlan_enabled : bool;
  cellular_available : bool;
  wlan_available : bool;
  cellular_registered : bool;
  wlan_registered : bool;
  device_identity_spoofed : bool;
  preference : ImsAccessPreference;
  concurrent_support : ConcurrentRegistrationSupport;
  multiple_registration_blocked_in : bool;
}.

Record ImsAccessDecision := mkDecision {
  cellular_registers : bool;
  wlan_registers : bool;
  decision_code : str;
}.
Definition decision_none (code : str) : ImsAccessDecision := mkDecision false false code.
Definition cellular_only (code : str) : ImsAccessDecision := mkDecision true false code.
Definition wlan_only (code : str) : ImsAccessDecision := mkDecision false true code.
Definition both (code : str) : ImsAccessDecision := mkDecision true true code.

Definition permits (d : ImsAccessDecision) (a : ImsAccess) : bool :=
  match a with Cellular => cellular_registers d | Wlan => wlan_registers d end.
Definition legs_to_release (d : ImsAccessDecision) (cellular_up wlan_up : bool) : list ImsAccess :=
  (if cellular_up && negb (cellular_registers d) then [Cellular] else [])
  ++ (if wlan_up && negb (wlan_registers d) then [Wlan] else []).
Definition effective_mode (d : ImsAccessDecision) : str :=
  match cellular_registers d, wlan_registers d with
  | true, true => lit "concurrent"
  | true, false | false, true => lit "single_registration"
  | false, false => lit "none"
  end.

Definition decide_access (i : ImsAccessInputs) : ImsAccessDecision :=
  let cellular := cellular_enabled i && (cellular_available i || cellular_registered i) in
  let wlan := wlan_enabled i && (wlan_available i || wlan_registered i) in
  if device_identity_spoofed i then
    if wlan then wlan_only (lit "ims_access_wlan_only_spoofed_device_identity")
    else decision_none (lit "ims_access_none_spoofed_identity_requires_wlan")
  else match preference i with
    | Concurrent =>
      match cellular, wlan with
      | true, true =>
        if bool_decide (concurrent_support i = Negotiated) && negb (multiple_registration_blocked_in i)
        then both (lit "ims_access_concurrent_negotiated")
        else if multiple_registration_blocked_in i
        then wlan_only (lit "ims_access_single_wlan_multi_flow_blocked")
        else wlan_only (lit "ims_access_single_wlan_preferred")
      | true, false => cellular_only (lit "ims_access_cellular_only_available")
      | false, true => wlan_only (lit "ims_access_wlan_only_available")
      | false, false => decision_none (lit "ims_access_none_available")
      end
    | WlanPreferred =>
      if wlan then wlan_only (lit "ims_access_wlan_preferred")
      else if cellular then cellular_only (lit "ims_access_cellular_fallback")
      else decision_none (lit "ims_access_none_available")
    | CellularPreferred =>
      if cellular then cellular_only (lit "ims_access_cellular_preferred")
      else if wlan then wlan_only (lit "ims_access_wlan_fallback")
      else decision_none (lit "ims_access_none_available")
    end.

Definition call_blocks_access_switch (state : str) : bool :=
  negb (bool_decide (state ∈ [lit "terminated"; lit "ended"; lit "failed"; lit "released";
    lit "disconnected"; lit "cancelled"; lit "rejected"; lit "completed"])).

(** ** Access paths ([services/orchestrator/ims_access.rs]) *)
Inductive AccessFamily := ThreeGpp | NonThreeGpp.
Inductive AccessPathStage :=
| StDisabled | StDown | StTransportUp | StSignalingReady | StRegistered | StDegraded.
#[export] Instance AccessPathStage_eq_dec : EqDecision AccessPathStage.
Proof. solve_decision. Defined.
Definition AccessPathStage_as_str (s : AccessPathStage) : str :=
  match s with
  | StDisabled => lit "disabled"
  | StDown => lit "down"
  | StTransportUp => lit "transport_up"
  | StSignalingReady => lit "signaling_ready"
  | StRegistered => lit "registered"
  | StDegraded => lit "degraded"
  end.
Definition can_signal (s : AccessPathStage) : bool := bool_decide (s = StRegistered).

Record ImsAccessPath := mkPath {
  path_kind : AccessPathKind;
  path_family : AccessFamily;
  path_configured : bool;
  path_stage : AccessPathStage;
  path_registered : bool;
  path_pcscf : option str;
  path_degraded_reason : option str;
}.

Inductive ThreeGppRat := RatUnknown | Lte | NrNsa | NrSa.
Inductive BearerDomain := DomainUnknown | Eps | FiveGs.
Record PduSessionInfo := mkPdu {
  session_id : option Z; dnn : option str; s_nssai : option str; ssc_mode : option Z;
}.
Record QosFlowInfo := mkQos {
  qfi : option Z; five_qi : option Z; arp_priority : option Z;
  gbr_uplink_bps : option Z; gbr_downlink_bps : option Z;
  mbr_uplink_bps : option Z; mbr_downlink_bps : option Z;
}.

Record ThreeGppObservation := mkThree {
  t_configured : bool;
  t_radio_available : bool;
  t_bearer_up : bool;
  t_signaling_ready : bool;
  t_pcscf : option str;
  t_registered : bool;
  t_registration_mode : option str;
  t_degraded_reason : option str;
  t_media_gateway_ready : bool;
  t_rat : ThreeGppRat;
  t_bearer_domain : BearerDomain;
  t_pdu_session : option PduSessionInfo;
  t_qos_flows : list QosFlowInfo;
  t_vonr_capable : option bool;
}.
Record NonThreeGppObservation := mkNon {
  n_configured : bool;
  n_epdg_host : option str;
  n_epdg_ready : bool;
  n_ike_ready : bool;
  n_child_sa_ready : bool;
  n_esp_ready : bool;
  n_pcscf : option str;
  n_registered : bool;
  n_degraded_reason : option str;
  n_media_gateway_ready : bool;
}.

Definition is_some {A} (o : option A) : bool := match o with Some _ => true | None => false end.

Definition three_stage (o : ThreeGppObservation) : AccessPathStage :=
  if negb (t_configured o) then StDisabled
  else if negb (t_radio_available o) then StDown
  else if is_some (t_degraded_reason o) then StDegraded
  else if t_registered o && t_bearer_up o && t_signaling_ready o then StRegistered
  else if t_bearer_up o && t_signaling_ready o && is_some (t_pcscf o) then StSignalingReady
  else if t_bearer_up o && t_radio_available o then StTransportUp
  else StDown.

Definition tunnel_up (o : NonThreeGppObservation) : bool :=
  n_epdg_ready o && n_ike_ready o && n_child_sa_ready o && n_esp_ready o.

Definition non_three_stage (o : NonThreeGppObservation) : AccessPathStage :=
  if negb (n_configured o) then StDisabled
  else
    let tunnel_up := tunnel_up o in
    if negb tunnel_up then StDown
    else if is_some (n_degraded_reason o) then StDegraded
    else if n_registered o then StRegistered
    else if is_some (n_pcscf o) then StSignalingReady
    else StTransportUp.

Record ThreeGppAccess := mkThreeAccess {
  ta_path : ImsAccessPath;
  ta_radio_available : bool;
  ta_bearer_up : bool;
  ta_registration_mode : option str;
  ta_rat : ThreeGppRat;
  ta_bearer_domain : BearerDomain;
  ta_pdu_session : option PduSessionInfo;
  ta_qos_flows : list QosFlowInfo;
  ta_vonr_capable : option bool;
}.
Record NonThreeGppAccess := mkNonAccess {
  na_path : ImsAccessPath;
  na_epdg_host : option str;
  na_epdg_ready : bool;
  na_ike_ready : bool;
  na_child_sa_ready : bool;
  na_esp_ready : bool;
  na_tunnel_up : bool;
}.
Record ImsRegistrationState := mkRegistration { registered_over : list AccessPathKind }.
Definition is_registered (r : ImsRegistrationState) : bool :=
  negb (bool_decide (registered_over r = [])).
Definition is_registered_over (r : ImsRegistrationState) (k : AccessPathKind) : bool :=
  contains (registered_over r) k.
Record VoiceAccessSelection := mkSelection {
  voice_active : option AccessPathKind;
  voice_candidates : list AccessPathKind;
  voice_rejected : list RejectedVoiceLeg;
  voice_gateway_mode : bool;
}.
Record ImsSubsystemState := mkSubsystem {
  subsystem_line_id : str;
  registration : ImsRegistrationState;
  three_gpp : ThreeGppAccess;
  non_three_gpp : NonThreeGppAccess;
  voice : VoiceAccessSelection;
}.

Definition three_path (o : ThreeGppObservation) : ImsAccessPath :=
  let stage := three_stage o in
  mkPath CellularIms ThreeGpp (t_configured o) stage (bool_decide (stage = StRegistered))
    (t_pcscf o) (t_degraded_reason o).
Definition non_three_path (o : NonThreeGppObservation) : ImsAccessPath :=
  let stage := non_three_stage o in
  mkPath Vowifi NonThreeGpp (n_configured o) stage (bool_decide (stage = StRegistered))
    (n_pcscf o) (n_degraded_reason o).

Definition build (line_id : str) (policy : VoicePathPolicy) (t : ThreeGppObservation)
    (n : NonThreeGppObservation) : ImsSubsystemState :=
  let tp := three_path t in
  let np := non_three_path n in
  let registered_over :=
    (if path_registered np then [Vowifi] else []) ++ (if path_registered tp then [CellularIms] else []) in
  let plan := plan_voice_route policy
    [mkVoiceReadiness Vowifi (path_configured np) (path_registered np) (n_media_gateway_ready n);
     mkVoiceReadiness CellularIms (path_configured tp) (path_registered tp) (t_media_gateway_ready t)] in
  {| subsystem_line_id := line_id;
     registration := mkRegistration registered_over;
     three_gpp := mkThreeAccess tp (t_radio_available t) (t_bearer_up t) (t_registration_mode t)
       (t_rat t) (t_bearer_domain t) (t_pdu_session t) (t_qos_flows t) (t_vonr_capable t);
     non_three_gpp := mkNonAccess np (n_epdg_host n) (n_epdg_ready n) (n_ike_ready n)
       (n_child_sa_ready n) (n_esp_ready n) (tunnel_up n);
     voice := mkSelection (head (plan_candidate_kinds plan)) (plan_candidate_kinds plan)
       (plan_rejected plan) (plan_gateway_mode plan) |}.

Definition ThreeGppObservation_default : ThreeGppObservation :=
  mkThree false false false false None false None None false RatUnknown DomainUnknown None [] None.
Definition NonThreeGppObservation_default : NonThreeGppObservation :=
  mkNon false None false false false false None false None false.
Definition ImsSubsystemState_default : ImsSubsystemState :=
  build [] VoicePathPolicy_default ThreeGppObservation_default NonThreeGppObservation_default.

(** * Lemmas *)
Definition usable (i : ImsAccessInputs) (a : ImsAccess) : bool :=
  match a with
  | Cellular => cellular_enabled i && (cellular_available i || cellular_registered i)
                && negb (device_identity_spoofed i)
  | Wlan => wlan_enabled i && (wlan_available i || wlan_registered i)
  end.

Lemma three_registered_bearer o :
  path_registered (three_path o) = true →
  t_configured o = true ∧ t_radio_available o = true ∧ t_degraded_reason o = None ∧
  t_registered o = true ∧ t_bearer_up o = true ∧ t_signaling_ready o = true.
Proof.
  destruct o as [[] [] [] [] [|] [] ? [] ? ? ? ? ? ?]; intros H; try (vm_compute in H; discriminate);
    by split_and!.
Qed.

Lemma non_three_registered_tunnel o :
  path_registered (non_three_path o) = true →
  n_configured o = true ∧ tunnel_up o = true ∧ n_degraded_reason o = None ∧ n_registered o = true.
Proof.
  destruct o as [[] ? [] [] [] [] [|] [] [] ?]; intros H; try (vm_compute in H; discriminate);
    by split_and!.
Qed.

Lemma elem_of_candidates policy readiness k :
  k ∈ plan_candidate_kinds (plan_voice_route policy readiness) →
  is_ims k = true ∧ voice_layer_rejection (gateway_mode policy) readiness (wanted_layer policy k) = None.
Proof.
  intros Hk. unfold plan_voice_route in Hk. rewrite plan_fold in Hk. simpl in Hk.
  rewrite sort_by_key_perm in Hk. apply list_elem_of_fmap in Hk as (l & -> & Hl).
  apply list_elem_of_filter in Hl as [Hr Hl].
  assert (gateway_mode (voice_normalized policy) = gateway_mode policy) as Hgw.
  { unfold voice_normalized. by destruct (foldl _ _ _). }
  apply voice_normalized_layers in Hl as [Hi Hl]. rewrite Hgw in Hr. by rewrite <-Hl.
Qed.

(** * Properties *)

(** The registration decision.  Only a usable access registers (enabled,
    and available or holding a lease; cellular never under a spoofed identity);
    if some access is usable one registers; both register only when concurrency
    was asked for, was negotiated, and is not blocked; and the legs to release
    are exactly the live ones that may not register. *)
Theorem access_decision_sound i cellular_up wlan_up :
  let d := decide_access i in
  (∀ a, permits d a = true → usable i a = true)
  ∧ ((∃ a, usable i a = true) → ∃ a, permits d a = true)
  ∧ (permits d Cellular && permits d Wlan = true ↔
       usable i Cellular = true ∧ usable i Wlan = true ∧ preference i = Concurrent
       ∧ concurrent_support i = Negotiated ∧ multiple_registration_blocked_in i = false)
  ∧ (∀ a, a ∈ legs_to_release d cellular_up wlan_up ↔
       (match a with Cellular => cellular_up | Wlan => wlan_up end) = true ∧ permits d a = false).
Proof.
  cbv zeta.
  assert ((∀ a, permits (decide_access i) a = true → usable i a = true)
    ∧ ((∃ a, usable i a = true) → ∃ a, permits (decide_access i) a = true)
    ∧ (permits (decide_access i) Cellular && permits (decide_access i) Wlan = true ↔
       usable i Cellular = true ∧ usable i Wlan = true ∧ preference i = Concurrent
       ∧ concurrent_support i = Negotiated ∧ multiple_registration_blocked_in i = false)) as Hall.
  { unfold decide_access, usable.
    generalize (cellular_enabled i && (cellular_available i || cellular_registered i)) as c.
    generalize (wlan_enabled i && (wlan_available i || wlan_registered i)) as w. intros w c.
    destruct (device_identity_spoofed i), c, w, (preference i); simpl;
      try (destruct (multiple_registration_blocked_in i), (concurrent_support i); simpl);
      (split; [intros []; done|split; [|intuition discriminate]]);
      intros [[] Ha]; first [discriminate|by exists Cellular|by exists Wlan]. }
  destruct Hall as (H1 & H2 & H3). split_and!; [done..|].
  intros a. unfold legs_to_release, permits. generalize (decide_access i).
  intros [c w code]. simpl.
  destruct c, w, cellular_up, wlan_up, a; simpl; rewrite ?elem_of_cons, ?elem_of_nil;
    intuition discriminate.
Qed.

(** A valid lease keeps its eligibility.  For an access that is enabled and
    registered, the decision does not depend on whether a fresh attempt would
    be available, so a failing refresh alone never moves the registration. *)
Theorem lease_keeps_registration i available :
  (cellular_registered i = true →
    decide_access i = decide_access (mkInputs (cellular_enabled i) (wlan_enabled i) available
      (wlan_available i) (cellular_registered i) (wlan_registered i) (device_identity_spoofed i)
      (preference i) (concurrent_support i) (multiple_registration_blocked_in i)))
  ∧ (wlan_registered i = true →
    decide_access i = decide_access (mkInputs (cellular_enabled i) (wlan_enabled i)
      (cellular_available i) available (cellular_registered i) (wlan_registered i)
      (device_identity_spoofed i) (preference i) (concurrent_support i)
      (multiple_registration_blocked_in i))).
Proof.
  unfold decide_access. simpl.
  split; intros ->; by rewrite !orb_true_r.
Qed.

(** The built IMS state.  Its registration set is a function of the two
    observations alone (the voice policy cannot change it) in which each path
    contributes its own entry only; a path counts as registered only while its
    transport is up; the active voice access is the first candidate, is
    registered, and is VoWiFi whenever VoWiFi is a candidate. *)
Theorem ims_state_layers line_id policy t n :
  let s := build line_id policy t n in
  (∀ policy', registration (build line_id policy' t n) = registration s)
  ∧ (∀ k, is_registered_over (registration s) k = true ↔
      (k = Vowifi ∧ path_registered (non_three_path n) = true)
      ∨ (k = CellularIms ∧ path_registered (three_path t) = true))
  ∧ (path_registered (non_three_path n) = true → tunnel_up n = true)
  ∧ (path_registered (three_path t) = true → t_bearer_up t = true ∧ t_signaling_ready t = true)
  ∧ (∀ k, voice_active (voice s) = Some k → is_registered_over (registration s) k = true)
  ∧ (Vowifi ∈ voice_candidates (voice s) → voice_active (voice s) = Some Vowifi).
Proof.
  cbv zeta. split; [done|]. split; [|split; [|split; [|split]]].
  - intros k. unfold is_registered_over. rewrite contains_true. simpl.
    rewrite elem_of_app.
    destruct (bool_decide (non_three_stage n = StRegistered)),
      (bool_decide (three_stage t = StRegistered));
      rewrite ?list_elem_of_singleton, ?elem_of_nil; intuition discriminate.
  - by intros (_ & ? & _)%non_three_registered_tunnel.
  - by intros (_ & _ & _ & _ & ? & ?)%three_registered_bearer.
  - intros k Hk. unfold is_registered_over. rewrite contains_true.
    apply head_Some_elem_of in Hk. apply elem_of_candidates in Hk as [Hi Hr].
    revert Hr. unfold voice_layer_rejection. rewrite wanted_layer_kind.
    destruct (layer_enabled _); [|done]. simpl. destruct k; [..|done]; simpl.
    + destruct (n_configured n), (bool_decide (non_three_stage n = StRegistered)) eqn:Hn; try done.
      intros _. apply list_elem_of_here.
    + destruct (t_configured t), (bool_decide (three_stage t = StRegistered)) eqn:Hn; try done.
      intros _. apply elem_of_app. right. apply list_elem_of_here.
  - simpl. unfold plan_voice_route. rewrite plan_fold. simpl.
    set (cs := sort_by_key _ _). intros Hv.
    pose proof (sort_by_key_sorted voice_rank (layer_kind <$> filter (λ l, voice_layer_rejection
      (gateway_mode (voice_normalized policy)) [mkVoiceReadiness Vowifi (n_configured n)
        (bool_decide (non_three_stage n = StRegistered)) (n_media_gateway_ready n);
       mkVoiceReadiness CellularIms (t_configured t) (bool_decide (three_stage t = StRegistered))
        (t_media_gateway_ready t)] l = None) (voice_priority (voice_normalized policy)))) as Hsorted.
    fold cs in Hsorted. destruct cs as [|c cs]; [by apply not_elem_of_nil in Hv|].
    destruct Hsorted as [Hle _]. simpl. apply elem_of_cons in Hv as [->|Hv]; [done|].
    specialize (Hle _ Hv). destruct c; simpl in Hle; [done|lia..].
Qed.
