(* ===== verification/RadioIntent.v ===== *)
(** * Saved radio and data intents

    Models [services/orchestrator/radio_intent.rs] and the radio state and
    error types of [hardware/cellular/radio.rs]: what a restored line profile
    asks for, when data or a native call may start, and how the airplane
    intent is shown.  [unreachable!()] is a [Panic]. *)
From Stdlib Require Import Ascii String ZArith Lia.
From stdpp Require Import prelude.
From S2P Require Import Prelude Text.

Inductive RadioState := RadioOn | RadioOff | TurningOn | TurningOff | RadioUnknown.
#[export] Instance RadioState_eq_dec : EqDecision RadioState.
Proof. solve_decision. Defined.
Definition airplane_enabled (s : RadioState) : option bool :=
  match s with
  | RadioOff => Some true
  | RadioOn => Some false
  | TurningOn | TurningOff | RadioUnknown => None
  end.

Inductive RadioError := Absent | Unsupported (r : str) | Unavailable (r : str) | RadioFailed (r : str).
Definition RadioError_reason (e : RadioError) : str :=
  match e with
  | Absent => lit "radio_device_absent"
  | Unsupported r | Unavailable r | RadioFailed r => r
  end.

(** The members of [LineProfileConfig] the decisions read. *)
Record LineProfileConfig := mkLine {
  line_enabled : bool;
  airplane_mode_enabled : bool;
  data_connection_enabled : bool;
}.

Inductive RuntimeRestorePlan :=
| Offline | NoCellularRadio | ApplyAirplane | StopData | StartData | LeaveUnchanged.

Definition runtime_restore_plan (present has_radio : bool) (profile : LineProfileConfig)
    : RuntimeRestorePlan :=
  if negb has_radio then NoCellularRadio
  else if negb present then Offline
  else if airplane_mode_enabled profile then ApplyAirplane
  else if negb (line_enabled profile) then StopData
  else if data_connection_enabled profile then StartData
  else LeaveUnchanged.

Inductive DataStartPurpose := SavedIntent | TemporaryAutomation.
#[export] Instance DataStartPurpose_eq_dec : EqDecision DataStartPurpose.
Proof. solve_decision. Defined.

Definition data_start_admission (present has_radio : bool) (current : LineProfileConfig)
    (purpose : DataStartPurpose) : res str unit :=
  if negb has_radio then Err (lit "line_has_no_baseband")
  else if negb present then Err (lit "line_not_present")
  else if negb (line_enabled current) then Err (lit "line_disabled")
  else if airplane_mode_enabled current then Err (lit "line_airplane_mode_enabled")
  else if bool_decide (purpose = SavedIntent) && negb (data_connection_enabled current)
  then Err (lit "line_data_not_requested")
  else Ok tt.

Definition native_call_radio_admission (airplane_requested : bool)
    (observation : RadioState + RadioError) : res str unit :=
  if airplane_requested then Err (lit "cs_blocked_by_airplane_mode")
  else match observation with
    | inl RadioOn => Ok tt
    | inl (RadioOff | TurningOff) => Err (lit "cs_blocked_by_airplane_mode")
    | _ => Err (lit "airplane_mode_state_unavailable")
    end.

Record AirplaneIntentView := mkView {
  view_radio_state : RadioState;
  view_observed : option bool;
  view_error : option str;
  view_phase : str;
  view_stage : str;
  legacy_enabled : bool;
  legacy_powered : bool;
  legacy_online : bool;
}.

(** The match on a known state. *)
Definition airplane_phase {E} (state : RadioState) (requested : bool) : res E (str * str) :=
  match state, requested with
  | RadioOff, true => Ok (lit "enabled", ulit "移动射频已关闭")
  | RadioOn, false => Ok (lit "disabled", ulit "移动射频已开启（不代表已驻网或数据已连接）")
  | RadioOff, false => Ok (lit "disabling", ulit "期望开启移动射频，当前仍关闭")
  | RadioOn, true => Ok (lit "enabling", ulit "期望关闭移动射频，当前仍开启")
  | TurningOff, _ => Ok (lit "enabling", ulit "移动射频正在关闭，等待确认")
  | TurningOn, _ => Ok (lit "disabling", ulit "移动射频正在开启，等待确认")
  | RadioUnknown, _ => Panic
  end.

Definition airplane_intent_view {E} (requested : bool) (observation : RadioState + RadioError)
    : res E AirplaneIntentView :=
  '(state, error, phase, stage) ←
    match observation with
    | inr Absent => Ok (RadioUnknown, Some (RadioError_reason Absent), lit "offline",
        ulit "设备离线，射频状态未知；配置将在设备恢复后应用")
    | inr (Unsupported reason) => Ok (RadioUnknown, Some reason, lit "unsupported",
        ulit "此线路不支持蜂窝射频控制")
    | inr error => Ok (RadioUnknown, Some (RadioError_reason error), lit "unknown",
        ulit "无法读取射频状态，尚未确认飞行模式")
    | inl RadioUnknown => Ok (RadioUnknown, Some (lit "radio_state_unknown"), lit "unknown",
        ulit "射频状态未知，尚未确认飞行模式")
    | inl state => '(phase, stage) ← airplane_phase state requested; Ok (state, None, phase, stage)
    end;
  Ok (mkView state (airplane_enabled state) error phase stage
        (requested || bool_decide (state = RadioOff ∨ state = TurningOff))
        (negb (bool_decide (state = RadioUnknown))) (bool_decide (state = RadioOn))).

(** * Properties *)

Lemma native_call_admission_iff requested observation :
  native_call_radio_admission requested observation = Ok tt ↔
    requested = false ∧ observation = inl RadioOn.
Proof.
  unfold native_call_radio_admission.
  destruct requested, observation as [[]|[]]; intuition congruence.
Qed.
Lemma airplane_view_phases {E} requested observation :
  ∃ v, airplane_intent_view (E:=E) requested observation = Ok v ∧
    (view_phase v = lit "enabled" ↔ requested = true ∧ observation = inl RadioOff) ∧
    (view_phase v = lit "disabled" ↔ requested = false ∧ observation = inl RadioOn).
Proof.
  destruct requested, observation as [[]|[]]; eexists; (split; [reflexivity|]);
    cbn -[lit ulit]; split_and!; try split; intros H;
    try (vm_compute in H; discriminate H); try (destruct H; congruence); by split_and?.
Qed.

(** Saved intents fail closed.  A restored line starts data exactly when
    the admission check for the saved intent passes, never under a saved airplane
    mode; a native call is admitted only when airplane mode was not requested and
    the radio was observed on, so every error refuses it; the airplane view never
    reaches its [unreachable!()] and claims a mode as reached exactly when the
    radio was observed in the matching stable state. *)
Theorem radio_intents_fail_closed {E} present has_radio profile requested observation :
  (runtime_restore_plan present has_radio profile = StartData ↔
    data_start_admission present has_radio profile SavedIntent = Ok tt) ∧
  (∀ purpose, data_start_admission present has_radio profile purpose = Ok tt →
    airplane_mode_enabled profile = false) ∧
  (native_call_radio_admission requested observation = Ok tt ↔
    requested = false ∧ observation = inl RadioOn) ∧
  ∃ v, airplane_intent_view (E:=E) requested observation = Ok v ∧
    (view_phase v = lit "enabled" ↔ requested = true ∧ observation = inl RadioOff) ∧
    (view_phase v = lit "disabled" ↔ requested = false ∧ observation = inl RadioOn).
Proof.
  split_and!; [..|apply native_call_admission_iff|apply airplane_view_phases];
    unfold runtime_restore_plan, data_start_admission;
    destruct present, has_radio, profile as [[] [] []]; simpl; try (by split); by intros [].
Qed.
