(* ===== verification/Dedup.v ===== *)
(** * Cross-transport SMS fingerprints

    Models [services/orchestrator/dedup.rs].  The hexadecimal form of the MD5
    crate's digest is a parameter: the fingerprint relies on it being free of
    colons, and on the absence of a collision between the texts compared. *)
From Stdlib Require Import Ascii String ZArith Lia.
From stdpp Require Import prelude.
From S2P Require Import Prelude Text SmsCodec.

Record MessageFingerprintInput := mkFingerprintInput {
  fp_service_center_timestamp : str;
  fp_originator : str;
  fp_text : str;
  fp_segment_reference : option Z;
  fp_segment_sequence : Z;
  fp_segment_total : Z;
}.

Section dedup.
(** [format!("{:x}", md5::compute(bytes))] *)
Context (md5_hex : list Z → str).

Definition message_fingerprint (input : MessageFingerprintInput) : str :=
  let text_hash := md5_hex (utf8_encode (fp_text input)) in
  let seg_ref := match fp_segment_reference input with
                 | Some r => fmt_hex4 r
                 | None => lit "none"
                 end in
  lit "smsfp1:" ++ fp_originator input ++ lit ":" ++ fp_service_center_timestamp input ++ lit ":"
    ++ text_hash ++ lit ":" ++ seg_ref ++ lit ":" ++ fmt_dec (fp_segment_sequence input) ++ lit ":"
    ++ fmt_dec (fp_segment_total input).
End dedup.

(** The input for one delivery. *)
Definition fingerprint_input (d : MtSmsDeliver) : MessageFingerprintInput :=
  mkFingerprintInput (mt_service_center_timestamp d) (mt_originator d) (mt_text d)
    (mt_segment_reference d) (mt_segment_sequence d) (mt_segment_total d).

(** * Lemmas *)
Lemma no_colon_split (a b x y : str) :
  ch ":" ∉ a → ch ":" ∉ b → a ++ lit ":" ++ x = b ++ lit ":" ++ y → a = b ∧ x = y.
Proof.
  change (lit ":") with [ch ":"].
  revert b. induction a as [|c a IH]; intros [|d b] Ha Hb; simpl; intros Heq.
  - by injection Heq.
  - injection Heq as Heq _. destruct Hb. rewrite <-Heq. apply list_elem_of_here.
  - injection Heq as Heq _. destruct Ha. rewrite Heq. apply list_elem_of_here.
  - injection Heq as -> Heq. apply not_elem_of_cons in Ha as [_ Ha], Hb as [_ Hb].
    by destruct (IH b Ha Hb Heq) as [-> ->].
Qed.

Lemma no_colon_split_end (a b x y : str) :
  ch ":" ∉ x → ch ":" ∉ y → a ++ lit ":" ++ x = b ++ lit ":" ++ y → a = b ∧ x = y.
Proof.
  intros Hx Hy Heq. apply (f_equal reverse) in Heq. rewrite !reverse_app, <-!app_assoc in Heq.
  change (reverse (lit ":")) with (lit ":") in Heq.
  apply no_colon_split in Heq as [H1 H2]; [|by rewrite elem_of_reverse..].
  by apply (inj reverse) in H1, H2.
Qed.

Lemma fmt_dec_no_colon n : (0 ≤ n)%Z → ch ":" ∉ fmt_dec n.
Proof. intros. apply (fmt_no_colon 10); lia. Qed.

Definition seg_ref_text (r : option Z) : str :=
  match r with Some r => fmt_hex4 r | None => lit "none" end.

Lemma fmt_hex4_inj r r' : (0 ≤ r)%Z → (0 ≤ r')%Z → fmt_hex4 r = fmt_hex4 r' → r = r'.
Proof.
  intros Hr Hr' Heq. unfold fmt_hex4 in Heq.
  assert (from_digits 16 (digits 16 r) = from_digits 16 (digits 16 r')) as Hd.
  { assert (∀ n l k, Forall (λ d, (0 ≤ d < 16)%Z) l → Forall (λ d, (0 ≤ d < 16)%Z) k →
      replicate n (ch "0") ++ (digit_char <$> l) = digit_char <$> k →
      from_digits 16 l = from_digits 16 k) as Hpad.
    { intros n l k Hl Hk Hlk. assert (ch "0" = digit_char 0) as Hz by reflexivity.
      rewrite Hz, <-fmap_replicate, <-fmap_app in Hlk. apply map_digit_char_inj in Hlk; [|..].
      - rewrite <-Hlk. clear. unfold from_digits. rewrite foldl_app. f_equal.
        induction n as [|n IH]; simpl; [done|]. exact IH.
      - apply Forall_app. split; [|done]. apply Forall_replicate. lia.
      - done. }
    pose proof (digits_lt16 16 r ltac:(lia) Hr) as F1. pose proof (digits_lt16 16 r' ltac:(lia) Hr') as F2.
    unfold fmt_hex in Heq.
    set (n := 4 - length (digit_char <$> digits 16 r)) in Heq.
    set (m := 4 - length (digit_char <$> digits 16 r')) in Heq.
    destruct (decide (n ≤ m)) as [Hnm|Hnm].
    - symmetry. apply (Hpad (m - n)); [done..|]. replace m with (n + (m - n)) in Heq by lia.
      rewrite replicate_add, <-app_assoc in Heq. by apply app_inv_head in Heq.
    - apply (Hpad (n - m)); [done..|]. replace n with (m + (n - m)) in Heq by lia.
      rewrite replicate_add, <-app_assoc in Heq. by apply app_inv_head in Heq. }
  pose proof (digits_spec 16 r ltac:(lia) Hr). pose proof (digits_spec 16 r' ltac:(lia) Hr').
  intuition congruence.
Qed.

Lemma hex_char_range d : (0 ≤ d < 16)%Z → (48 ≤ digit_char d ≤ 102)%Z ∧ digit_char d ≠ ch ":".
Proof.
  intros Hd. split; [|by apply digit_char_ne_colon]. unfold digit_char.
  change (ch "0") with 48%Z. change (ch "a") with 97%Z. destruct (Z.ltb_spec d 10); lia.
Qed.

Lemma fmt_hex4_chars r : (0 ≤ r)%Z → Forall (λ c, (48 ≤ c ≤ 102)%Z ∧ c ≠ ch ":") (fmt_hex4 r).
Proof.
  intros Hr. unfold fmt_hex4. apply Forall_app. split.
  - apply Forall_replicate. split; [change (ch "0") with 48%Z; lia|done].
  - unfold fmt_hex. pose proof (digits_lt16 16 r ltac:(lia) Hr) as HF.
    induction HF as [|d l Hd _ IH]; constructor; [by apply hex_char_range|done].
Qed.

Lemma seg_ref_text_no_colon r : (∀ v, r = Some v → (0 ≤ v)%Z) → ch ":" ∉ seg_ref_text r.
Proof.
  intros Hr Hin. destruct r as [v|]; simpl in Hin.
  - pose proof (fmt_hex4_chars v (Hr v eq_refl)) as HF. rewrite Forall_forall in HF.
    by destruct (HF _ Hin).
  - revert Hin. by apply (bool_decide_unpack _).
Qed.

Lemma seg_ref_text_inj r r' :
  (∀ v, r = Some v → (0 ≤ v)%Z) → (∀ v, r' = Some v → (0 ≤ v)%Z) →
  seg_ref_text r = seg_ref_text r' → r = r'.
Proof.
  assert (∀ v, (0 ≤ v)%Z → fmt_hex4 v ≠ lit "none") as Hnone.
  { intros v Hv Heq. pose proof (fmt_hex4_chars v Hv) as HF. rewrite Heq in HF.
    apply Forall_cons in HF as [[HF _] _]. vm_compute in HF. destruct HF. congruence. }
  intros Hr Hr' Heq. destruct r as [v|], r' as [v'|]; simpl in Heq; [|by edestruct Hnone; eauto..|done].
  f_equal. apply fmt_hex4_inj; eauto.
Qed.

Lemma fingerprint_fields_inj (p o t h r s n o' t' h' r' s' n' : str) :
  ch ":" ∉ o → ch ":" ∉ o' → ch ":" ∉ h → ch ":" ∉ h' → ch ":" ∉ r → ch ":" ∉ r' →
  ch ":" ∉ s → ch ":" ∉ s' → ch ":" ∉ n → ch ":" ∉ n' →
  p ++ o ++ lit ":" ++ t ++ lit ":" ++ h ++ lit ":" ++ r ++ lit ":" ++ s ++ lit ":" ++ n =
    p ++ o' ++ lit ":" ++ t' ++ lit ":" ++ h' ++ lit ":" ++ r' ++ lit ":" ++ s' ++ lit ":" ++ n' →
  o = o' ∧ t = t' ∧ h = h' ∧ r = r' ∧ s = s' ∧ n = n'.
Proof.
  intros ?????????? Heq. apply app_inv_head in Heq.
  apply no_colon_split in Heq as [-> Heq]; [|done..].
  assert (∀ t h r s n : str, t ++ lit ":" ++ h ++ lit ":" ++ r ++ lit ":" ++ s ++ lit ":" ++ n =
    (((t ++ lit ":" ++ h) ++ lit ":" ++ r) ++ lit ":" ++ s) ++ lit ":" ++ n) as Hassoc
    by (intros; by rewrite <-!app_assoc).
  rewrite !Hassoc in Heq.
  do 3 (apply no_colon_split_end in Heq as [Heq ->]; [|done..]).
  by apply no_colon_split_end in Heq as [-> ->].
Qed.

(** The members of a delivery are values of their Rust types. *)
Definition delivery_typed (d : MtSmsDeliver) : Prop :=
  (∀ v, mt_segment_reference d = Some v → (0 ≤ v)%Z)
  ∧ (0 ≤ mt_segment_sequence d)%Z ∧ (0 ≤ mt_segment_total d)%Z.

(** * Properties *)
Section properties.
Context (md5_hex : list Z → str).
Hypothesis md5_hex_no_colon : ∀ bytes, ch ":" ∉ md5_hex bytes.

(** Cross-leg and single-leg deduplication agree: for two deliveries with
    phone-number originators (no colon) and no MD5 collision between their
    texts, the fingerprints are equal exactly when [is_duplicate_delivery]
    holds.  The time stamp may contain colons. *)
Theorem fingerprint_iff_duplicate a b :
  delivery_typed a → delivery_typed b →
  ch ":" ∉ mt_originator a → ch ":" ∉ mt_originator b →
  (md5_hex (utf8_encode (mt_text a)) = md5_hex (utf8_encode (mt_text b)) → mt_text a = mt_text b) →
  message_fingerprint md5_hex (fingerprint_input a) = message_fingerprint md5_hex (fingerprint_input b)
    ↔ is_duplicate_delivery a b = true.
Proof.
  intros (Ha1 & Ha2 & Ha3) (Hb1 & Hb2 & Hb3) Hoa Hob Hmd5.
  unfold is_duplicate_delivery. rewrite !andb_true_iff, !str_eqb_eq, bool_decide_eq_true, !Z.eqb_eq.
  split.
  - intros Heq. apply fingerprint_fields_inj in Heq as (Ho & Ht & Hm & Hr & Hs & Hn);
      [|done|done|done|done|by apply seg_ref_text_no_colon..|by apply fmt_dec_no_colon
       |by apply fmt_dec_no_colon|by apply fmt_dec_no_colon|by apply fmt_dec_no_colon].
    apply fmt_dec_inj in Hs, Hn; [|done..]. apply seg_ref_text_inj in Hr; [|done..].
    rewrite (Hmd5 Hm). done.
  - intros (((((Ho & Ht) & Hc) & Hr) & Hs) & Hn).
    unfold message_fingerprint, fingerprint_input. simpl. by rewrite Ho, Ht, Hc, Hr, Hs, Hn.
Qed.
End properties.

Lemma fingerprint_iff_duplicate_witness :
  let d reference := mkMtSmsDeliver reference (lit "+8613800138000") (lit "hi") 2
    (lit "2026-08-04T13:30:00Z") (Some 7%Z) 1 2 in
  let md5_hex bytes := bytes ≫= (λ b, fmt_dec (Z.abs b)) in
  message_fingerprint md5_hex (fingerprint_input (d 1%Z)) =
  message_fingerprint md5_hex (fingerprint_input (d 9%Z)).
Proof.
  intros d md5_hex. apply (fingerprint_iff_duplicate md5_hex).
  - intros bytes. unfold md5_hex. induction bytes as [|x bytes IH]; [by apply not_elem_of_nil|].
    rewrite bind_cons, not_elem_of_app. split; [apply fmt_dec_no_colon; lia|done].
  - split; [|split; simpl; lia]. intros v [= <-]. lia.
  - split; [|split; simpl; lia]. intros v [= <-]. lia.
  - apply (bool_decide_unpack _). vm_compute. exact I.
  - apply (bool_decide_unpack _). vm_compute. exact I.
  - done.
  - vm_compute. reflexivity.
Defined.
