(* ===== verification/SipFrame.v ===== *)
(** * SIP framing and header access

    Models [connectivity/core/sip_frame.rs] (without [sip_host], which only
    formats an address) and the receive loop of the stream channel
    ([EpdgSipChannel] in [modems/ims/vowifi/channel.rs]) that cuts a TCP stream
    into SIP messages.  [usize] has 64 bits; the release build wraps on
    overflow. *)
From Stdlib Require Import Ascii String ZArith Lia.
From stdpp Require Import prelude.
From S2P Require Import Prelude Text.

(** [ImsError::new(code)] *)
Abbreviation ims := (res str).

(** [buf.windows(p.len()).position(|w| w == p)] *)
Fixpoint find_sub (p buf : list Z) : option nat :=
  if bool_decide (take (length p) buf = p) then Some 0
  else match buf with
       | [] => None
       | _ :: buf => S <$> find_sub p buf
       end.

(** [s.contains(p)] *)
Definition contains_str (s p : str) : bool := bool_decide (is_Some (find_sub p s)).

Definition CR : Z := 13.
Definition LF : Z := 10.
Definition crlf : list Z := [CR; LF].

Definition parse_status (frame : list Z) : ims Z :=
  line_end ← ok_or (lit "sip_status_line_missing")
    match find_sub crlf frame with
    | Some i => Some i
    | None => find_char (Z.eqb LF) frame
    end;
  line ← ok_or (lit "sip_status_line_invalid") (from_utf8 (take line_end frame));
  match split_whitespace line with
  | version :: rest =>
    if negb (str_eqb version (lit "SIP/2.0")) then Err (lit "sip_status_line_invalid")
    else ok_or (lit "sip_status_code_invalid")
           match rest with v :: _ => parse_unsigned u16_max v | [] => None end
  | [] => Err (lit "sip_status_line_invalid")
  end.

Definition find_header_end (buf : list Z) : option nat :=
  match find_sub (crlf ++ crlf) buf with
  | Some i => Some (i + 4)
  | None => i ← find_sub [LF; LF] buf; Some (i + 2)
  end.

Definition body (frame : list Z) : list Z :=
  match find_header_end frame with
  | Some off => if off <=? length frame then drop off frame else []
  | None => []
  end.

Fixpoint find_map {A B} (f : A → option B) (l : list A) : option B :=
  match l with
  | [] => None
  | a :: l => match f a with Some b => Some b | None => find_map f l end
  end.

Definition content_length_of_line (line : str) : option Z :=
  '(name, value) ← split_once (ch ":") line;
  if eq_ignore_ascii_case name (lit "content-length")
  then parse_unsigned u64_max (trim value) else None.

Definition complete_frame_len (buf : list Z) : option nat :=
  header_end ← find_header_end buf;
  let headers := from_utf8_lossy (take header_end buf) in
  match find_map content_length_of_line (lines headers) with
  | Some len =>
    let end_ := u64 (Z.of_nat header_end + len) in
    if (end_ <=? Z.of_nat (length buf))%Z then Some (Z.to_nat end_) else None
  | None => Some header_end
  end.

Definition is_complete (buf : list Z) : bool := bool_decide (is_Some (complete_frame_len buf)).

Definition is_request (frame method_ : list Z) : bool :=
  starts_with frame method_ && bool_decide (frame !! length method_ = Some 32%Z).

(** One physical line of the header loop: (values, current value). *)
Definition header_line (header_name : str) (st : list str * option str) (line : str)
    : list str * option str :=
  let '(values, current) := st in
  if starts_with line (lit " ") || starts_with line [9%Z] then
    match current with
    | Some value =>
      let continuation := trim line in
      (values, Some (if negb (bool_decide (continuation = [])) then value ++ lit " " ++ continuation
                     else value))
    | None => st
    end
  else
    let values := match current with Some value => values ++ [value] | None => values end in
    (values,
     '(name, value) ← split_once (ch ":") line;
     if eq_ignore_ascii_case (trim name) header_name then Some (trim value) else None).

Definition header_values (frame : list Z) (header_name : str) : list str :=
  let headers := match find_header_end frame with
                 | Some e => from_utf8_lossy (take e frame)
                 | None => from_utf8_lossy frame
                 end in
  let '(values, current) := foldl (header_line header_name) ([], None) (lines headers) in
  match current with Some value => values ++ [value] | None => values end.

Definition header_value (frame : list Z) (header_name : str) : option str :=
  head (header_values frame header_name).

Definition uri_from_header_value (value : str) : option str :=
  match find_char (Z.eqb (ch "<")) value with
  | Some start =>
    let rest := drop (start + 1) value in
    e ← find_char (Z.eqb (ch ">")) rest;
    Some (take e rest)
  | None =>
    let trimmed := trim value in
    let e := default (length trimmed) (find_char (λ c, (c =? ch ";") || (c =? ch " "))%Z trimmed) in
    Some (take e trimmed)
  end.

Definition header_uri (frame : list Z) (header_name : str) : option str :=
  value ← header_value frame header_name; uri_from_header_value value.

(** [s.replace(c, with)] *)
Definition replace (c : Z) (with_ s : str) : str := s ≫= λ d, if (d =? c)%Z then with_ else [d].
Definition backslash : Z := 92.
Definition quote : Z := 34.
Definition quote_param (value : str) : str :=
  replace quote [backslash; quote] (replace backslash [backslash; backslash] value).

(** ** The stream channel *)
Definition MAX_PENDING_BYTES : Z := 64 * 1024.

(** [discard_keepalive_frames]: the number of pongs and what is left. *)
Fixpoint discard_crlf (pending : list Z) : nat * list Z :=
  match pending with
  | 13%Z :: 10%Z :: pending => let '(n, p) := discard_crlf pending in (S n, p)
  | _ => (0, pending)
  end.
Definition discard_keepalive_frames (pending : list Z) : nat * list Z :=
  let '(n, pending) := discard_crlf pending in
  (n, trim_start_matches (Z.eqb LF) pending).

(** [recv_fresh] without the clock and the outbound flow: [reads] are the
    results of the following reads of the stream, [None] once it is silent. *)
Fixpoint recv_fresh (reads : list (list Z)) (pending : list Z)
    : ims (list Z) * list (list Z) * list Z :=
  let '(_, pending) := discard_keepalive_frames pending in
  match complete_frame_len pending with
  | Some n =>
    if n <=? length pending then (Ok (take n pending), reads, drop n pending)
    else (Panic, reads, pending)
  | None =>
    match reads with
    | [] => (Err (lit "ims_channel_read_timeout"), [], pending)
    | chunk :: reads =>
      if bool_decide (chunk = []) then (Err (lit "ims_outbound_flow_failed"), reads, pending)
      else
        let pending := pending ++ chunk in
        if (MAX_PENDING_BYTES <? Z.of_nat (length pending))%Z
        then (Err (lit "ims_channel_frame_too_large"), reads, pending)
        else recv_fresh reads pending
    end
  end.

(** Receiving [n] messages in a row. *)
Fixpoint recv_many (n : nat) (reads : list (list Z)) (pending : list Z) : list (ims (list Z)) :=
  match n with
  | 0 => []
  | S n => let '(r, reads, pending) := recv_fresh reads pending in r :: recv_many n reads pending
  end.

(** ** Well-formed messages *)
Definition render_lines (ls : list str) : list Z := ls ≫= (λ l, l ++ crlf).
Definition message (ls : list str) (payload : list Z) : list Z := render_lines ls ++ crlf ++ payload.

(** A header line: ASCII, not empty, no line break. *)
Definition line_ok (l : str) : Prop :=
  l ≠ [] ∧ Forall (λ c, is_ascii c ∧ c ≠ CR ∧ c ≠ LF) l.

(** The header block announces the payload. *)
Definition announces (ls : list str) (payload : list Z) : Prop :=
  ls ≠ [] ∧ Forall line_ok ls ∧
  find_map content_length_of_line ls = Some (Z.of_nat (length payload)) ∧
  (Z.of_nat (length (message ls payload)) < 2 ^ 64)%Z.

#[export] Instance line_ok_dec l : Decision (line_ok l).
Proof. unfold line_ok. apply _. Defined.
#[export] Instance announces_dec ls payload : Decision (announces ls payload).
Proof. unfold announces. apply _. Defined.

(** * Lemmas *)
Lemma find_sub_None p s : find_sub p s = None ↔ ∀ j, take (length p) (drop j s) ≠ p ∨ length s < j.
Proof.
  induction s as [|c s IH]; simpl.
  - case_bool_decide as Hp.
    + split; [done|]. intros Hj. destruct (Hj 0) as [Hj0|?]; [|lia]. by destruct Hj0.
    + split; [|done]. intros _ [|j]; [by left|right; simpl; lia].
  - case_bool_decide as Hp.
    + split; [done|]. intros Hj. destruct (Hj 0) as [Hj0|?]; [|lia]. by destruct Hj0.
    + rewrite fmap_None, IH. split.
      * intros Hj [|j]; [by left|]. simpl. destruct (Hj j); [by left|right; lia].
      * intros Hj j. destruct (Hj (S j)) as [?|?]; [by left|right; simpl in *; lia].
Qed.

Lemma find_sub_Some p s i :
  find_sub p s = Some i →
  take (length p) (drop i s) = p ∧ i ≤ length s ∧ ∀ j, j < i → take (length p) (drop j s) ≠ p.
Proof.
  revert i. induction s as [|c s IH]; intros i; simpl; case_bool_decide as Hp.
  - intros [= <-]. split_and!; [done|simpl; lia|intros; lia].
  - done.
  - intros [= <-]. split_and!; [done|simpl; lia|intros; lia].
  - intros (j & Hj & ->)%fmap_Some. destruct (IH j Hj) as (H1 & H2 & H3). split_and!; [done|simpl; lia|].
    intros [|k] Hk; [done|]. apply H3. lia.
Qed.

(** A prefix that ends before the first occurrence does not contain one. *)
Lemma find_sub_take p s n :
  p ≠ [] → (∀ i, find_sub p s = Some i → n < i + length p) → find_sub p (take n s) = None.
Proof.
  intros Hp Hn. destruct (find_sub p (take n s)) as [j|] eqn:Hj; [|done]. exfalso.
  apply find_sub_Some in Hj as (Hat & Hle & _).
  assert (j + length p ≤ length (take n s)) as Hlen.
  { apply (f_equal length) in Hat. rewrite length_take, length_drop in Hat.
    assert (0 < length p) by (destruct p; [done|simpl; lia]). lia. }
  rewrite length_take in Hlen.
  assert (take (length p) (drop j s) = p) as Hats.
  { rewrite <-Hat at 2. rewrite <-(take_drop n s) at 1.
    rewrite drop_app, take_app. rewrite length_drop, length_take.
    replace (length p - (n `min` length s - j)) with 0 by lia. rewrite take_0, app_nil_r. done. }
  destruct (find_sub p s) as [i|] eqn:Hi.
  - specialize (Hn i eq_refl). apply find_sub_Some in Hi as (_ & _ & Hmin).
    apply (Hmin j); [lia|done].
  - rewrite find_sub_None in Hi. destruct (Hi j) as [?|?]; [done|]. lia.
Qed.

Lemma find_sub_cons p c s :
  take (length p) (c :: s) ≠ p → find_sub p (c :: s) = S <$> find_sub p s.
Proof. intros Hp. cbn [find_sub]. by rewrite bool_decide_false. Qed.

Lemma find_sub_cons_ne p c s a : p = a :: tail p → c ≠ a → find_sub p (c :: s) = S <$> find_sub p s.
Proof. intros -> Hc. simpl. rewrite bool_decide_false; [done|]. intros [= ?]. congruence. Qed.

(** Skipping a line. *)
Lemma find_sub_line p a l s :
  p = a :: tail p → Forall (λ c, c ≠ a) l → find_sub p (l ++ s) = Nat.add (length l) <$> find_sub p s.
Proof.
  intros Hp. induction 1 as [|c l Hc _ IH]; simpl app.
  - by destruct (find_sub p s).
  - rewrite (find_sub_cons_ne _ _ _ _ Hp Hc), IH. by destruct (find_sub p s).
Qed.

Lemma line_ok_no_cr l : line_ok l → Forall (λ c, c ≠ CR) l.
Proof. intros [_ HF]. eapply Forall_impl; [exact HF|]. by intros ? (?&?&?). Qed.
Lemma line_ok_no_lf l : line_ok l → Forall (λ c, c ≠ LF) l.
Proof. intros [_ HF]. eapply Forall_impl; [exact HF|]. by intros ? (?&?&?). Qed.
Lemma line_ok_ascii l : line_ok l → Forall is_ascii l.
Proof. intros [_ HF]. eapply Forall_impl; [exact HF|]. by intros ? (?&?&?). Qed.

Lemma line_ok_head l : line_ok l → ∃ c t, l = c :: t ∧ c ≠ CR ∧ c ≠ LF.
Proof. intros [Hne HF]. destruct l as [|c t]; [done|]. inversion HF as [|?? (_&?&?)]. by exists c, t. Qed.

Lemma render_lines_cons l ls : render_lines (l :: ls) = l ++ crlf ++ render_lines ls.
Proof. unfold render_lines. by rewrite bind_cons, <-app_assoc. Qed.

Lemma find_term_skip c s :
  c ≠ CR → find_sub (crlf ++ crlf) (crlf ++ c :: s) =
    Nat.add 2 <$> find_sub (crlf ++ crlf) (c :: s).
Proof.
  intros Hc. change (crlf ++ c :: s) with (CR :: LF :: c :: s).
  rewrite find_sub_cons by (intros [= ?]; done). rewrite find_sub_cons by (intros [= ?]; done).
  by destruct (find_sub _ _).
Qed.

Lemma find_term ls r :
  ls ≠ [] → Forall line_ok ls →
  find_sub (crlf ++ crlf) (render_lines ls ++ crlf ++ r) = Some (length (render_lines ls) - 2).
Proof.
  intros Hne HF. induction HF as [|l ls Hl HF IH]; [done|].
  rewrite render_lines_cons, <-!app_assoc.
  rewrite (find_sub_line _ CR) by (done || by apply line_ok_no_cr).
  rewrite !length_app. destruct HF as [|l' ls' Hl' HF'].
  - simpl. f_equal. lia.
  - destruct (line_ok_head l' Hl') as (c & t & -> & Hc & _).
    assert (∃ s', render_lines ((c :: t) :: ls') ++ crlf ++ r = c :: s') as [s' Hs'].
    { rewrite render_lines_cons. by eexists. }
    assert (2 ≤ length (render_lines ((c :: t) :: ls'))) as Hlen.
    { rewrite render_lines_cons, !length_app. simpl. lia. }
    specialize (IH ltac:(done)). rewrite Hs' in IH |- *.
    rewrite find_term_skip, IH by done. cbn [fmap option_fmap option_map].
    change (length crlf) with 2. f_equal. lia.
Qed.

Lemma find_lflf_crlf s : (∀ c t, s = c :: t → c ≠ LF) → find_sub [LF; LF] (crlf ++ s) = Nat.add 2 <$> find_sub [LF; LF] s.
Proof.
  intros Hs. change (crlf ++ s) with (CR :: LF :: s).
  rewrite find_sub_cons by (intros [= ?]; done).
  rewrite find_sub_cons; [by destruct (find_sub _ _)|].
  destruct s as [|c t]; [done|]. simpl. intros [= ->]. by apply (Hs LF t).
Qed.

Lemma find_lflf ls : Forall line_ok ls → find_sub [LF; LF] (render_lines ls ++ crlf) = None.
Proof.
  induction 1 as [|l ls Hl HF IH]; [reflexivity|].
  rewrite render_lines_cons, <-!app_assoc.
  rewrite (find_sub_line _ LF) by (done || by apply line_ok_no_lf).
  rewrite find_lflf_crlf, IH; [done|]. intros c t Ht. destruct HF as [|l' ls' Hl' _].
  - by injection Ht as <- _.
  - destruct (line_ok_head l' Hl') as (d & t' & -> & _ & Hd). rewrite render_lines_cons in Ht.
    by injection Ht as <- _.
Qed.

Lemma length_render ls : ls ≠ [] → Forall line_ok ls → 2 ≤ length (render_lines ls).
Proof.
  intros Hne HF. destruct HF; [done|]. rewrite render_lines_cons, !length_app. simpl. lia.
Qed.

Lemma find_header_end_message ls payload rest :
  ls ≠ [] → Forall line_ok ls →
  find_header_end (message ls payload ++ rest) = Some (length (render_lines ls) + 2).
Proof.
  intros Hne HF. unfold find_header_end, message. rewrite <-!app_assoc, find_term by done.
  pose proof (length_render ls Hne HF). f_equal. lia.
Qed.

Lemma find_header_end_prefix ls payload n :
  ls ≠ [] → Forall line_ok ls → n < length (render_lines ls) + 2 →
  find_header_end (take n (message ls payload)) = None.
Proof.
  intros Hne HF Hn. pose proof (length_render ls Hne HF). unfold find_header_end, message.
  rewrite find_sub_take; [|done|].
  2: { intros i. rewrite find_term by done. intros [= <-]. change (length (crlf ++ crlf)) with 4. lia. }
  rewrite app_assoc, take_app_le by (rewrite length_app; simpl; lia).
  rewrite find_sub_take; [done|done|]. intros i. by rewrite find_lflf.
Qed.

Lemma strip_cr_line acc : strip_cr (acc ++ [CR]) = acc.
Proof. unfold strip_cr. rewrite reverse_app. simpl. apply reverse_involutive. Qed.

Lemma lines_from_line acc l s :
  Forall (λ c, c ≠ LF) l → lines_from acc (l ++ LF :: s) = strip_cr (acc ++ l) :: lines_from [] s.
Proof.
  intros Hl. revert acc. induction Hl as [|c l Hc _ IH]; intros acc; simpl.
  { by rewrite app_nil_r. }
  rewrite (proj2 (Z.eqb_neq c 10)) by done. by rewrite IH, <-app_assoc.
Qed.

Lemma lines_render ls s : Forall line_ok ls → lines (render_lines ls ++ s) = ls ++ lines s.
Proof.
  unfold lines. induction 1 as [|l ls Hl _ IH]; [done|].
  rewrite render_lines_cons, <-!app_assoc. change (crlf ++ ?x) with ([CR] ++ LF :: x).
  rewrite (app_assoc l), lines_from_line.
  - rewrite app_nil_l, strip_cr_line, IH. done.
  - apply Forall_app. split; [by apply line_ok_no_lf|]. by apply Forall_singleton.
Qed.

Lemma render_ascii ls : Forall line_ok ls → Forall is_ascii (render_lines ls).
Proof.
  induction 1 as [|l ls Hl _ IH]; [constructor|]. rewrite render_lines_cons.
  apply Forall_app. split; [by apply line_ok_ascii|]. apply Forall_app. split; [|done].
  by apply (bool_decide_unpack _).
Qed.

Lemma find_map_app {A B} (f : A → option B) l k b :
  find_map f l = Some b → find_map f (l ++ k) = Some b.
Proof. induction l as [|a l IH]; simpl; [done|]. destruct (f a); [done|apply IH]. Qed.

(** The header block as text. *)
Lemma header_text ls payload rest :
  ls ≠ [] → Forall line_ok ls →
  lines (from_utf8_lossy (take (length (render_lines ls) + 2) (message ls payload ++ rest))) = ls ++ [[]].
Proof.
  intros Hne HF. unfold message. rewrite <-!app_assoc, (app_assoc (render_lines ls)).
  rewrite take_app_length' by (rewrite length_app; simpl; lia).
  rewrite from_utf8_lossy_ascii; [by rewrite lines_render|].
  apply Forall_app. split; [by apply render_ascii|]. by apply (bool_decide_unpack _).
Qed.

(** ** Headers of a well-formed message *)
(** The value of a header line of that name. *)
Definition header_field (header_name line : str) : option str :=
  '(name, value) ← split_once (ch ":") line;
  if eq_ignore_ascii_case (trim name) header_name then Some (trim value) else None.
Lemma header_field_split n l : header_field n l =
  match split_once (ch ":") l with
  | Some (name, value) => if eq_ignore_ascii_case (trim name) n then Some (trim value) else None
  | None => None
  end.
Proof. unfold header_field. by destruct (split_once _ l) as [[? ?]|]. Qed.
(** Not a continuation of the line before. *)
Definition unfolded (l : str) : Prop := head_not (λ c, (c =? ch " ") || (c =? 9))%Z l.

Lemma unfolded_start l : unfolded l → starts_with l (lit " ") || starts_with l [9%Z] = false.
Proof.
  intros Hl. unfold starts_with. destruct l as [|c l]; [done|]. cbn in Hl |- *.
  apply orb_false_iff in Hl as [H1%Z.eqb_neq H2%Z.eqb_neq].
  rewrite !bool_decide_false; [done|congruence..].
Qed.
Lemma header_lines_fold n ls values current :
  Forall unfolded ls →
  let '(values', current') := foldl (header_line n) (values, current) ls in
  values' ++ option_list current' = values ++ option_list current ++ omap (header_field n) ls.
Proof.
  intros Hls. revert values current. induction Hls as [|l ls Hl _ IH]; intros values current; simpl foldl.
  { cbn. by rewrite app_nil_r. }
  pose proof (unfolded_start l Hl) as Hs.
  cbn [header_line]. rewrite Hs.
  fold (header_field n l). specialize (IH match current with Some v => values ++ [v] | None => values end
    (header_field n l)). destruct (foldl _ _ _) as [values' current']. rewrite IH. cbn [omap list_omap].
  destruct current, (header_field n l); simpl; by rewrite <-?app_assoc.
Qed.

Lemma header_values_message ls payload n :
  ls ≠ [] → Forall line_ok ls → Forall unfolded ls →
  header_values (message ls payload) n = omap (header_field n) ls.
Proof.
  intros Hne Hok Hun. unfold header_values.
  rewrite <-(app_nil_r (message ls payload)), find_header_end_message by done.
  rewrite header_text by done.
  pose proof (header_lines_fold n (ls ++ [[]]) [] None) as Hfold.
  destruct (foldl _ _ _) as [values current]. rewrite omap_app in Hfold. simpl in Hfold.
  rewrite app_nil_r in Hfold. rewrite <-Hfold; [by destruct current; simpl; rewrite ?app_nil_r|].
  apply Forall_app. split; [done|]. by constructor.
Qed.

Lemma length_message ls payload :
  length (message ls payload) = length (render_lines ls) + 2 + length payload.
Proof. unfold message. rewrite !length_app. simpl. lia. Qed.

Lemma take_message ls payload n :
  length (render_lines ls) + 2 ≤ n →
  take n (message ls payload) = message ls (take (n - (length (render_lines ls) + 2)) payload).
Proof.
  intros Hn. unfold message. rewrite !app_assoc, take_app_ge by (rewrite length_app; simpl; lia).
  f_equal. f_equal. rewrite length_app. simpl. lia.
Qed.

Lemma complete_frame_len_message ls payload rest :
  announces ls payload →
  complete_frame_len (message ls payload ++ rest) = Some (length (message ls payload)).
Proof.
  intros (Hne & HF & Hcl & Hsz). unfold complete_frame_len.
  rewrite find_header_end_message by done. cbn [mbind option_bind].
  rewrite header_text by done. rewrite (find_map_app _ _ _ _ Hcl).
  rewrite length_message in *. rewrite wrap_small by lia.
  rewrite (proj2 (Z.leb_le _ _)) by (rewrite length_app, length_message; lia).
  f_equal. lia.
Qed.

Lemma complete_frame_len_prefix ls payload n :
  announces ls payload → n < length (message ls payload) →
  complete_frame_len (take n (message ls payload)) = None.
Proof.
  intros (Hne & HF & Hcl & Hsz) Hn. unfold complete_frame_len.
  destruct (decide (n < length (render_lines ls) + 2)) as [Hh|Hh].
  { by rewrite find_header_end_prefix. }
  rewrite length_message in *.
  set (k := n - (length (render_lines ls) + 2)).
  rewrite take_message by lia. fold k.
  rewrite <-(app_nil_r (message _ _)), find_header_end_message by done. cbn [mbind option_bind].
  rewrite header_text by done. rewrite (find_map_app _ _ _ _ Hcl).
  rewrite wrap_small by lia.
  rewrite (proj2 (Z.leb_gt _ _)); [done|].
  rewrite app_nil_r, length_message, length_take. lia.
Qed.

(** ** The receive loop *)
Definition keepalives (k : nat) : list Z := concat (replicate k crlf).

Lemma discard_crlf_ne c t : c ≠ CR → discard_crlf (c :: t) = (0, c :: t).
Proof. intros Hc. unfold discard_crlf. repeat case_match; simplify_eq; done. Qed.

Lemma discard_spec c t s pending k :
  c ≠ CR → c ≠ LF → pending ++ s = keepalives k ++ c :: t →
  ∃ j k' p', discard_keepalive_frames pending = (j, p') ∧ p' ++ s = keepalives k' ++ c :: t
    ∧ (k' = 0 ∨ p' = [] ∨ p' = [CR]).
Proof.
  intros Hcr Hlf. revert pending. induction k as [|k IH]; intros pending Heq.
  - destruct pending as [|d p]; [by exists 0, 0, []; auto|].
    simpl in Heq. injection Heq as -> Heq.
    exists 0, 0, (c :: p). unfold discard_keepalive_frames. rewrite discard_crlf_ne by done.
    cbn [trim_start_matches]. rewrite (proj2 (Z.eqb_neq LF c)) by done. split_and!; [done| |by left].
    simpl. by rewrite Heq.
  - change (keepalives (S k)) with (CR :: LF :: keepalives k) in Heq.
    destruct pending as [|d [|e p]]; simpl in Heq.
    + exists 0, (S k), []. split_and!; [done|exact Heq|by auto].
    + injection Heq as -> Heq. exists 0, (S k), [CR]. split_and!; [done| |by auto].
      simpl. by rewrite Heq.
    + injection Heq as -> -> Heq. destruct (IH p Heq) as (j & k' & p' & Hd & Hp & Hk).
      exists (S j), k', p'. split_and!; [|done..]. revert Hd. unfold discard_keepalive_frames. simpl.
      destruct (discard_crlf p) as [n q]. by intros [= <- <-].
Qed.

Lemma length_discard_crlf n p : length p ≤ n → length (discard_crlf p).2 ≤ length p.
Proof.
  revert p. induction n as [|n IH]; intros [|c p] Hn; simpl in Hn; [simpl; lia|lia|simpl; lia|].
  destruct (decide (c = CR)) as [->|Hc]; [|by rewrite discard_crlf_ne].
  destruct p as [|d p]; [done|]. destruct (decide (d = LF)) as [->|Hd].
  - simpl. specialize (IH p ltac:(simpl in Hn; lia)). destruct (discard_crlf p). simpl in *. lia.
  - assert (discard_crlf (CR :: d :: p) = (0, CR :: d :: p)) as ->; [|done].
    unfold discard_crlf. repeat case_match; simplify_eq; done.
Qed.

Lemma length_trim_start p s : length (trim_start_matches p s) ≤ length s.
Proof. induction s as [|c s IH]; simpl; [lia|]. case_match; simpl; lia. Qed.

Lemma length_discard p : length (discard_keepalive_frames p).2 ≤ length p.
Proof.
  pose proof (length_discard_crlf (length p) p ltac:(lia)). unfold discard_keepalive_frames.
  destruct (discard_crlf p) as [n q]. simpl in *. pose proof (length_trim_start (Z.eqb LF) q). lia.
Qed.

Lemma recv_fresh_message ls payload rest reads pending k :
  announces ls payload → Forall (λ c, c ≠ []) reads →
  pending ++ concat reads = keepalives k ++ message ls payload ++ rest →
  (Z.of_nat (length (pending ++ concat reads)) ≤ MAX_PENDING_BYTES)%Z →
  ∃ reads' pending', recv_fresh reads pending = (Ok (message ls payload), reads', pending')
    ∧ pending' ++ concat reads' = rest ∧ Forall (λ c, c ≠ []) reads'.
Proof.
  intros Ha. assert (∃ c t, message ls payload = c :: t ∧ c ≠ CR ∧ c ≠ LF) as (c & t & Hm & Hcr & Hlf).
  { destruct Ha as (Hne & HF & _). destruct HF as [|l ls Hl]; [done|].
    destruct (line_ok_head l Hl) as (c & t & -> & ? & ?). unfold message.
    rewrite render_lines_cons. by eexists c, _. }
  revert pending k. induction reads as [|chunk reads IH]; intros pending k Hr Heq Hsz;
    rewrite Hm in Heq; simpl app in Heq;
    apply (discard_spec _ _ _ _ _ Hcr Hlf) in Heq as Hd; destruct Hd as (j & k' & p' & Hd & Hp & Hk);
    cbn [recv_fresh]; rewrite Hd; cbn iota;
    assert (length p' ≤ length pending) as Hlen by
      (apply (f_equal snd) in Hd; simpl in Hd; subst p'; apply length_discard).
  - simpl in Hp. rewrite app_nil_r in Hp. assert (k' = 0) as ->.
    { destruct Hk as [->|[->| ->]]; [done|by destruct k'|].
      destruct k' as [|[|k']]; [done|by injection Hp..]. }
    simpl in Hp. rewrite Hp. change (c :: t ++ rest) with ((c :: t) ++ rest). rewrite <-Hm.
    rewrite complete_frame_len_message by done.
    rewrite (proj2 (Nat.leb_le _ _)) by (rewrite length_app; lia).
    rewrite take_app_length, drop_app_length. exists [], rest. by rewrite app_nil_r.
  - destruct (decide (k' = 0 ∧ length (message ls payload) ≤ length p')) as [[-> Hfull]|Hpart].
    + simpl in Hp. change (c :: t ++ rest) with ((c :: t) ++ rest) in Hp. rewrite <-Hm in Hp.
      assert (p' = message ls payload ++ drop (length (message ls payload)) p') as Hsplit.
      { rewrite <-(take_drop (length (message ls payload)) p') at 1. f_equal.
        pose proof (f_equal (take (length (message ls payload))) Hp) as Ht.
        by rewrite take_app_length, take_app_le in Ht by lia. }
      set (x := drop (length (message ls payload)) p') in *. rewrite Hsplit.
      rewrite complete_frame_len_message by done.
      rewrite (proj2 (Nat.leb_le _ _)) by (rewrite length_app; lia).
      rewrite take_app_length, drop_app_length. exists (chunk :: reads), x. split_and!; [done| |done].
      rewrite Hsplit, <-app_assoc in Hp. by apply app_inv_head in Hp.
    + assert (complete_frame_len p' = None) as ->.
      { destruct (decide (k' = 0)) as [->|Hk0].
        - assert (length p' < length (message ls payload)) as Hlt by lia.
          assert (p' = take (length p') (message ls payload)) as ->.
          { simpl in Hp. change (c :: t ++ rest) with ((c :: t) ++ rest) in Hp. rewrite <-Hm in Hp.
            apply (f_equal (take (length p'))) in Hp. rewrite take_app_length, take_app_le in Hp by lia.
            done. }
          by apply complete_frame_len_prefix.
        - destruct Hk as [?|[-> | ->]]; [done|reflexivity..]. }
      apply Forall_cons in Hr as [Hc Hr]. rewrite bool_decide_false by done.
      rewrite concat_cons, !length_app in Hsz. rewrite (proj2 (Z.ltb_ge _ _)) by (rewrite length_app; lia).
      apply (IH (p' ++ chunk) k'); [done| |rewrite !length_app; lia].
      rewrite Hm, <-app_assoc. exact Hp.
Qed.

Definition stream (ms : list (nat * (list str * list Z))) : list Z :=
  ms ≫= λ '(k, (ls, payload)), keepalives k ++ message ls payload.

Lemma recv_many_stream ms reads pending :
  Forall (λ m, announces m.2.1 m.2.2) ms → Forall (λ c, c ≠ []) reads →
  pending ++ concat reads = stream ms →
  (Z.of_nat (length (pending ++ concat reads)) ≤ MAX_PENDING_BYTES)%Z →
  recv_many (length ms) reads pending = (λ m, Ok (message m.2.1 m.2.2)) <$> ms.
Proof.
  intros Hms. revert reads pending. induction Hms as [|[k [ls payload]] ms Ha Hms IH];
    intros reads pending Hr Heq Hsz; [done|]. simpl in Ha.
  change (stream ((k, (ls, payload)) :: ms)) with ((keepalives k ++ message ls payload) ++ stream ms) in Heq.
  rewrite <-app_assoc in Heq.
  destruct (recv_fresh_message ls payload (stream ms) reads pending k Ha Hr Heq Hsz)
    as (reads' & pending' & Hrecv & Hrest & Hr').
  simpl. rewrite Hrecv. f_equal. apply IH; [done..|]. rewrite Hrest.
  rewrite Heq, !length_app in Hsz. lia.
Qed.

Lemma complete_frame_len_le buf n : complete_frame_len buf = Some n → n ≤ length buf.
Proof.
  unfold complete_frame_len. intros (he & Hhe & Hn)%bind_Some.
  case_match; [case_match; [|done]; bool_prop; simplify_eq; lia|]. simplify_eq.
  unfold find_header_end in Hhe. destruct (find_sub (crlf ++ crlf) buf) as [i|] eqn:Hi.
  - apply find_sub_Some in Hi as (Hat & _ & _). apply (f_equal length) in Hat.
    rewrite length_take, length_drop in Hat. change (length (crlf ++ crlf)) with 4 in Hat.
    injection Hhe as <-. lia.
  - apply bind_Some in Hhe as (i & Hj & [= <-]). apply find_sub_Some in Hj as (Hat & _ & _).
    apply (f_equal length) in Hat. rewrite length_take, length_drop in Hat.
    change (length [LF; LF]) with 2 in Hat. lia.
Qed.

(** A quoted string read back: [None] at an unescaped quote. *)
Fixpoint unquote (s : str) : option str :=
  match s with
  | [] => Some []
  | c :: s =>
    if (c =? quote)%Z then None
    else if (c =? backslash)%Z then
      match s with
      | d :: s => r ← unquote s; Some (d :: r)
      | [] => None
      end
    else r ← unquote s; Some (c :: r)
  end.

Lemma replace_cons c w d s : replace c w (d :: s) = (if (d =? c)%Z then w else [d]) ++ replace c w s.
Proof. done. Qed.
Lemma replace_app c w s t : replace c w (s ++ t) = replace c w s ++ replace c w t.
Proof. unfold replace. by rewrite bind_app. Qed.

Lemma quote_param_cons c v :
  quote_param (c :: v) =
    (if (c =? backslash)%Z then [backslash; backslash]
     else if (c =? quote)%Z then [backslash; quote] else [c]) ++ quote_param v.
Proof.
  unfold quote_param. rewrite replace_cons, replace_app. f_equal.
  destruct (Z.eqb_spec c backslash); [reflexivity|]. rewrite replace_cons. apply app_nil_r.
Qed.

(** * Properties *)

(** Framing does not depend on how TCP cuts the stream.  A stream of
    messages, each announcing its payload length and preceded by any number of
    CRLF keep-alives, is received message by message, in order and unchanged,
    whatever non-empty chunks it arrives in (up to the buffer bound). *)
Theorem stream_framing ms reads :
  Forall (λ m, announces m.2.1 m.2.2) ms → Forall (λ c, c ≠ []) reads →
  concat reads = stream ms → (Z.of_nat (length (concat reads)) ≤ MAX_PENDING_BYTES)%Z →
  recv_many (length ms) reads [] = (λ m, Ok (message m.2.1 m.2.2)) <$> ms.
Proof. intros Hms Hr Heq Hsz. by apply recv_many_stream. Qed.

Lemma stream_framing_witness :
  let m := ([lit "SIP/2.0 200 OK"; lit "Content-Length: 2"], lit "hi") in
  let bytes := stream [(1, m); (0, m)] in
  recv_many 2 [take 3 bytes; take 50 (drop 3 bytes); drop 53 bytes] [] =
    [Ok (message m.1 m.2); Ok (message m.1 m.2)].
Proof.
  intros m bytes. assert (announces m.1 m.2) as Hm.
  { apply (bool_decide_unpack _). vm_compute. exact I. }
  apply (stream_framing [(1, m); (0, m)]).
  - constructor; [exact Hm|]. constructor; [exact Hm|constructor].
  - apply (bool_decide_unpack _). vm_compute. exact I.
  - reflexivity.
  - vm_compute. discriminate.
Defined.

(** [complete_frame_len] waits for exactly the whole message: for a message
    that announces its payload, every proper prefix asks for more bytes, and
    with any bytes following it the answer is its length; its [body] is the
    payload. *)
Theorem frame_len_exact ls payload rest :
  announces ls payload →
  (∀ n, n < length (message ls payload) → complete_frame_len (take n (message ls payload)) = None)
  ∧ complete_frame_len (message ls payload ++ rest) = Some (length (message ls payload))
  ∧ body (message ls payload) = payload.
Proof.
  intros Ha. split; [by intros; apply complete_frame_len_prefix|].
  split; [by apply complete_frame_len_message|]. destruct Ha as (Hne & HF & _).
  unfold body. rewrite <-(app_nil_r (message ls payload)) at 1.
  rewrite find_header_end_message by done.
  rewrite (proj2 (Nat.leb_le _ _)) by (rewrite length_message; lia).
  unfold message. rewrite app_assoc, drop_app_length'; [done|]. rewrite length_app. simpl. lia.
Qed.

Lemma frame_len_exact_witness :
  body (message [lit "SIP/2.0 200 OK"; lit "l: x"; lit "CONTENT-LENGTH:  3 "] (lit "abc")) = lit "abc".
Proof.
  apply (frame_len_exact [lit "SIP/2.0 200 OK"; lit "l: x"; lit "CONTENT-LENGTH:  3 "] (lit "abc") []).
  apply (bool_decide_unpack _). vm_compute. exact I.
Defined.

(** Whatever bytes a peer sends, the frame length never exceeds the buffer,
    so the receive loop's [drain] cannot panic, and it always ends. *)
Theorem recv_never_panics reads pending : no_panic (recv_fresh reads pending).1.1.
Proof.
  revert pending. induction reads as [|chunk reads IH]; intros pending; cbn [recv_fresh];
    destruct (discard_keepalive_frames pending) as [j p];
    (destruct (complete_frame_len p) as [n|] eqn:Hn;
      [apply complete_frame_len_le in Hn; by rewrite (proj2 (Nat.leb_le _ _))|]); [done|].
  case_bool_decide; [done|]. case_match; [done|]. apply IH.
Qed.

(** A Content-Length close to 2^64 wraps the sum with the header length: the
    message is then reported complete with length 0, and the channel returns
    empty frames for ever without consuming anything. *)
Theorem content_length_overflow_stalls reads n :
  let bytes := message [lit "SIP/2.0 200 OK"; lit "Content-Length: 18446744073709551560"] [] in
  complete_frame_len bytes = Some 0 ∧
  recv_many n reads bytes = replicate n (Ok []).
Proof.
  cbv zeta. split; [vm_compute; reflexivity|].
  set (bytes := message _ _). induction n as [|n IH]; [done|].
  assert (recv_fresh reads bytes = (Ok [], reads, bytes)) as Hr.
  { destruct reads; vm_compute; reflexivity. }
  simpl. by rewrite Hr, IH.
Qed.

(** A quoted parameter always reads back: escaping leaves no quote that
    could end the string early, whatever the value. *)
Theorem quote_param_roundtrip value : unquote (quote_param value) = Some value.
Proof.
  induction value as [|c v IH]; [done|]. rewrite quote_param_cons.
  destruct (Z.eqb_spec c backslash) as [->|Hb]; [simpl; by rewrite IH|].
  destruct (Z.eqb_spec c quote) as [->|Hq]; simpl; [by rewrite IH|].
  rewrite (proj2 (Z.eqb_neq c quote)), (proj2 (Z.eqb_neq c backslash)) by done. by rewrite IH.
Qed.
