(* ===== verification/RetryAfter.v ===== *)
(** * The Retry-After header

    Models the bounded RFC 3261 Retry-After parser of
    [connectivity/core/ims_failure.rs]: the header scan with its folding and
    limits, and [RetryAfterParser].  A parser state is the bytes left to read.
    [Ipv6Addr::from_str], which one parameter form uses, is written out. *)
From Stdlib Require Import Ascii String ZArith Lia.
From stdpp Require Import prelude.
From S2P Require Import Prelude Text SipFrame.

Inductive RetryAfterInvalid :=
| HeadersTooLarge | TooManyHeaders | ValueTooLarge | Duplicate | Syntax | Overflow.
Inductive RetryAfter :=
| RetryAbsent
| DelaySeconds (seconds : Z)
| RetryInvalid (reason : RetryAfterInvalid).
#[export] Instance RetryAfterInvalid_eq_dec : EqDecision RetryAfterInvalid.
Proof. solve_decision. Defined.
#[export] Instance RetryAfter_eq_dec : EqDecision RetryAfter.
Proof. solve_decision. Defined.
Definition RetryAfter_seconds (r : RetryAfter) : option Z :=
  match r with DelaySeconds s => Some s | RetryAbsent | RetryInvalid _ => None end.

Definition MAX_RETRY_AFTER_HEADERS_BYTES : Z := 32768.
Definition MAX_RETRY_AFTER_HEADERS : nat := 128.
Definition MAX_RETRY_AFTER_VALUE_BYTES : Z := 1024.
Definition MAX_RETRY_AFTER_PARAMETERS : nat := 16.
Definition MAX_RETRY_AFTER_COMMENT_DEPTH : nat := 4.

(** ** [Ipv6Addr::from_str]: what a reader leaves, [None] when it fails *)
Definition hex_value (c : Z) : option Z :=
  if in_range (ch "0") (ch "9") c then Some (c - ch "0")%Z
  else if in_range (ch "a") (ch "f") c then Some (c - ch "a" + 10)%Z
  else if in_range (ch "A") (ch "F") c then Some (c - ch "A" + 10)%Z
  else None.
(** At most [n] digits of the radix. *)
Fixpoint read_digits (radix : Z) (n : nat) (s : list Z) : list Z * list Z :=
  match n, s with
  | S n, c :: s' =>
    match hex_value c with
    | Some d => if (d <? radix)%Z then let '(ds, r) := read_digits radix n s' in (d :: ds, r) else ([], s)
    | None => ([], s)
    end
  | _, _ => ([], s)
  end.
Definition digits_value (radix : Z) (ds : list Z) : Z := foldl (λ a d, (a * radix + d)%Z) 0%Z ds.
(** [read_number]: one digit more than [max_digits] makes it fail. *)
Definition read_number (radix : Z) (max_digits : nat) (allow_zero_prefix : bool) (max : Z)
    (s : list Z) : option (Z * list Z) :=
  let '(ds, rest) := read_digits radix (S max_digits) s in
  if bool_decide (ds = []) then None
  else if max_digits <? length ds then None
  else if negb allow_zero_prefix && bool_decide (head ds = Some 0%Z) && (1 <? length ds) then None
  else if (max <? digits_value radix ds)%Z then None
  else Some (digits_value radix ds, rest).
Definition read_char (c : Z) (s : list Z) : option (list Z) :=
  match s with d :: s => if (d =? c)%Z then Some s else None | [] => None end.
Definition read_separator (sep : Z) (i : nat) (s : list Z) : option (list Z) :=
  if i =? 0 then Some s else read_char sep s.
Fixpoint read_ipv4_from (i n : nat) (s : list Z) : option (list Z) :=
  match n with
  | 0 => Some s
  | S n =>
    s ← read_separator (ch ".") i s;
    '(_, s) ← read_number 10 3 false 255 s;
    read_ipv4_from (S i) n s
  end.
Definition read_ipv4_addr (s : list Z) : option (list Z) := read_ipv4_from 0 4 s.
(** [read_groups]: groups read, whether they end in an IPv4 address, the rest. *)
Fixpoint read_groups (left_ i : nat) (s : list Z) : nat * bool * list Z :=
  match left_ with
  | 0 => (i, false, s)
  | S left' =>
    match (if 0 <? left' then s1 ← read_separator (ch ":") i s; read_ipv4_addr s1 else None) with
    | Some rest => (i + 2, true, rest)
    | None =>
      match (s1 ← read_separator (ch ":") i s; read_number 16 4 true 65535 s1) with
      | Some (_, rest) => read_groups left' (S i) rest
      | None => (i, false, s)
      end
    end
  end.
Definition is_ipv6_addr (s : list Z) : bool :=
  match read_groups 8 0 s with
  | (head_size, head_ipv4, rest) =>
    if head_size =? 8 then bool_decide (rest = [])
    else if head_ipv4 then false
    else match (r ← read_char (ch ":") rest; read_char (ch ":") r) with
      | None => false
      | Some rest =>
        let '(_, _, rest) := read_groups (8 - (head_size + 1)) 0 rest in bool_decide (rest = [])
      end
  end.

(** ** [RetryAfterParser] *)
Abbreviation retry := (res RetryAfterInvalid).

Definition peek (s : list Z) : option Z := head s.
Definition skip_whitespace (s : list Z) : list Z :=
  trim_start_matches (λ c, (c =? ch " ") || (c =? 9))%Z s.

Fixpoint seconds_loop (seconds : Z) (s : list Z) : retry (Z * list Z) :=
  match s with
  | c :: s' =>
    if is_ascii_digit c then
      let v := (seconds * 10 + (c - ch "0"))%Z in
      if (u32_max <? v)%Z then Err Overflow else seconds_loop v s'
    else Ok (seconds, s)
  | [] => Ok (seconds, [])
  end.
Definition seconds (s : list Z) : retry (Z * list Z) :=
  '(v, rest) ← seconds_loop 0 s;
  if length s =? length rest then Err Syntax else Ok (v, rest).

Definition is_ascii_alphanumeric (c : Z) : bool :=
  is_ascii_digit c || in_range (ch "a") (ch "z") c || in_range (ch "A") (ch "Z") c.
Definition is_token_byte (c : Z) : bool :=
  is_ascii_alphanumeric c
  || existsb (Z.eqb c) [ch "-"; ch "."; ch "!"; ch "%"; ch "*"; ch "_"; ch "+"; ch "`"; ch "'"; ch "~"].
Fixpoint token (s : list Z) : list Z * list Z :=
  match s with
  | c :: s' => if is_token_byte c then let '(t, r) := token s' in (c :: t, r) else ([], s)
  | [] => ([], [])
  end.

(** The loop of [quoted], after the opening character. *)
Fixpoint quoted_loop (fuel : nat) (comment : bool) (depth : nat) (s : list Z) : retry (list Z) :=
  match fuel with
  | 0 => Panic
  | S fuel =>
    match s with
    | [] => Err Syntax
    | byte :: s =>
      if (byte =? ch "\")%Z then
        match s with
        | [] => Err Syntax
        | escaped :: s =>
          if (escaped =? 9)%Z || in_range 32 126 escaped then quoted_loop fuel comment depth s
          else Err Syntax
        end
      else if (byte =? ch "(")%Z && comment then
        if MAX_RETRY_AFTER_COMMENT_DEPTH <? S depth then Err Syntax
        else quoted_loop fuel comment (S depth) s
      else if (byte =? ch ")")%Z && comment then
        if depth - 1 =? 0 then Ok s else quoted_loop fuel comment (depth - 1) s
      else if (byte =? quote)%Z && negb comment then Ok s
      else if (byte =? 9)%Z || in_range 32 126 byte || in_range 128 255 byte
      then quoted_loop fuel comment depth s
      else Err Syntax
    end
  end.
Definition quoted (comment : bool) (s : list Z) : retry (list Z) :=
  quoted_loop (S (length s)) comment 1 (tail s).

(** The value after [=], for a parameter that is not [duration]. *)
Definition parameter_value (s : list Z) : retry (list Z) :=
  if bool_decide (peek s = Some quote) then quoted false s
  else if bool_decide (peek s = Some (ch "[")) then
    let s := tail s in
    let n := default (length s) (find_char (Z.eqb (ch "]")) s) in
    host ← ok_or Syntax (from_utf8 (take n s));
    let s := drop n s in
    if negb (is_ipv6_addr (utf8_encode host)) || negb (bool_decide (peek s = Some (ch "]")))
    then Err Syntax
    else Ok (tail s)
  else
    let '(t, s) := token s in
    if bool_decide (t = []) then Err Syntax else Ok s.

(** The [while self.peek() == Some(b';')] loop. *)
Fixpoint parameters_loop (fuel : nat) (parameters : list (list Z)) (s : list Z) : retry (list Z) :=
  match fuel with
  | 0 => Panic
  | S fuel =>
    if bool_decide (peek s = Some (ch ";")) then
      let s := skip_whitespace (tail s) in
      let '(name, s) := token s in
      if bool_decide (name = []) || (MAX_RETRY_AFTER_PARAMETERS <=? length parameters)
         || existsb (λ old, eq_ignore_ascii_case old name) parameters
      then Err Syntax
      else
        let parameters := parameters ++ [name] in
        let s := skip_whitespace s in
        let duration := eq_ignore_ascii_case name (lit "duration") in
        if bool_decide (peek s = Some (ch "=")) then
          let s := skip_whitespace (tail s) in
          s ← (if duration then '(_, s) ← seconds s; Ok s else parameter_value s);
          parameters_loop fuel parameters (skip_whitespace s)
        else if duration then Err Syntax
        else parameters_loop fuel parameters s
    else Ok s
  end.

Definition retry_after_parse (value : str) : retry Z :=
  '(seconds, s) ← seconds (utf8_encode value);
  let s := skip_whitespace s in
  s ← (if bool_decide (peek s = Some (ch "(")) then s ← quoted true s; Ok (skip_whitespace s) else Ok s);
  s ← parameters_loop (S (length s)) [] s;
  if negb (bool_decide (s = [])) then Err Syntax else Ok seconds.

(** ** The header scan *)
Definition trim_matches (p : Z → bool) (s : str) : str := trim_end_matches p (trim_start_matches p s).
Definition is_sp_tab (c : Z) : bool := ((c =? ch " ") || (c =? 9))%Z.
Definition byte_len (s : str) : Z := Z.of_nat (length (utf8_encode s)).
(** [line.strip_suffix('\r').unwrap_or(line)] is [strip_cr]. *)

Fixpoint scan_headers (index : nat) (ls : list str) (value : option str) (current : bool)
    : retry (option str) :=
  match ls with
  | [] => Ok value
  | line :: ls =>
    if MAX_RETRY_AFTER_HEADERS <=? index then Err TooManyHeaders
    else
      let line := strip_cr line in
      if existsb (Z.eqb CR) line then Err Syntax
      else if bool_decide (line = []) then Ok value
      else if match line with c :: _ => is_sp_tab c | [] => false end then
        if current then
          let continuation := trim_matches is_sp_tab line in
          match value with
          | None => Panic
          | Some value =>
            if (MAX_RETRY_AFTER_VALUE_BYTES <? byte_len value + 1 + byte_len continuation)%Z
            then Err ValueTooLarge
            else scan_headers (S index) ls (Some (value ++ lit " " ++ continuation)) current
          end
        else scan_headers (S index) ls value current
      else
        match split_once (ch ":") line with
        | None => Err Syntax
        | Some (name, field) =>
          let current := eq_ignore_ascii_case (trim_end_matches is_sp_tab name) (lit "Retry-After") in
          if current then
            match value with
            | Some _ => Err Duplicate
            | None =>
              let field := trim_matches is_sp_tab field in
              if (MAX_RETRY_AFTER_VALUE_BYTES <? byte_len field)%Z then Err ValueTooLarge
              else scan_headers (S index) ls (Some field) current
            end
          else scan_headers (S index) ls value current
        end
  end.

Definition retry_after_field (frame : list Z) : retry (option str) :=
  let bounded := take (Z.to_nat (MAX_RETRY_AFTER_HEADERS_BYTES + 1)) frame in
  match find_header_end bounded with
  | None => Err (if (MAX_RETRY_AFTER_HEADERS_BYTES <? Z.of_nat (length frame))%Z
                 then HeadersTooLarge else Syntax)
  | Some end_ =>
    if (MAX_RETRY_AFTER_HEADERS_BYTES <? Z.of_nat end_)%Z then Err HeadersTooLarge
    else
      headers ← ok_or Syntax (from_utf8 (take end_ bounded));
      scan_headers 0 (drop 1 (split LF headers)) None false
  end.

Definition parse_retry_after {E} (frame : list Z) : res E RetryAfter :=
  match retry_after_field frame with
  | Err reason => Ok (RetryInvalid reason)
  | Panic => Panic
  | Ok None => Ok RetryAbsent
  | Ok (Some value) =>
    match retry_after_parse value with
    | Ok seconds => Ok (DelaySeconds seconds)
    | Err reason => Ok (RetryInvalid reason)
    | Panic => Panic
    end
  end.

(** * Lemmas: every reader shortens its input and none panics *)
Lemma length_skip_whitespace s : length (skip_whitespace s) ≤ length s.
Proof. apply length_trim_start. Qed.

Lemma length_token s : length (token s).2 ≤ length s.
Proof.
  induction s as [|c s IH]; simpl; [lia|]. destruct (is_token_byte c); simpl; [|lia].
  destruct (token s). simpl in *. lia.
Qed.

Lemma seconds_loop_spec v s :
  (0 ≤ v ≤ u32_max)%Z →
  no_panic (seconds_loop v s) ∧
  ∀ v' r, seconds_loop v s = Ok (v', r) → (0 ≤ v' ≤ u32_max)%Z ∧ length r ≤ length s.
Proof.
  revert v. induction s as [|c s IH]; intros v Hv; simpl.
  { split; [done|]. intros v' r [= <- <-]. simpl. lia. }
  destruct (is_ascii_digit c) eqn:Hc; [|split; [done|intros v' r [= <- <-]; simpl; lia]].
  apply in_range_true in Hc. change (ch "0") with 48%Z in *.
  case_match eqn:Hov; [done|]. bool_prop. destruct (IH (v * 10 + (c - 48))%Z) as [Hnp Hok]; [lia|].
  split; [done|]. intros v' r Hr. apply Hok in Hr. lia.
Qed.

Lemma seconds_spec s :
  no_panic (seconds s) ∧
  ∀ v r, seconds s = Ok (v, r) → (0 ≤ v ≤ u32_max)%Z ∧ length r ≤ length s.
Proof.
  destruct (seconds_loop_spec 0 s) as [Hnp Hok]; [done|]. unfold seconds.
  destruct (seconds_loop 0 s) as [[v r]|e|]; simpl; [|done..].
  split; [by case_match|]. intros v' r'. case_match; [done|]. intros [= <- <-]. by apply Hok.
Qed.

Lemma quoted_loop_spec fuel comment depth s :
  length s < fuel →
  no_panic (quoted_loop fuel comment depth s) ∧
  ∀ r, quoted_loop fuel comment depth s = Ok r → length r ≤ length s.
Proof.
  revert depth s. induction fuel as [|fuel IH]; intros depth s Hf; [lia|]. cbn [quoted_loop].
  destruct s as [|b s]; [done|]. simpl in Hf.
  assert (∀ d t, length t ≤ length s → no_panic (quoted_loop fuel comment d t) ∧
    ∀ r, quoted_loop fuel comment d t = Ok r → length r ≤ length (b :: s)) as Hrec.
  { intros d t Ht. destruct (IH d t) as [? Hr]; [lia|]. split; [done|]. intros r ?%Hr. simpl. lia. }
  repeat case_match; subst; try done; try (apply Hrec; simpl; lia);
    (split; [done|]; intros r [= <-]; simpl; lia).
Qed.

Lemma quoted_spec comment s :
  no_panic (quoted comment s) ∧ ∀ r, quoted comment s = Ok r → length r ≤ length s.
Proof.
  unfold quoted. destruct (quoted_loop_spec (S (length s)) comment 1 (tail s)) as [? Hr].
  { destruct s; simpl; lia. }
  split; [done|]. intros r ?%Hr. destruct s; simpl in *; lia.
Qed.

Lemma parameter_value_spec s :
  no_panic (parameter_value s) ∧ ∀ r, parameter_value s = Ok r → length r ≤ length s.
Proof.
  unfold parameter_value. case_bool_decide; [apply quoted_spec|]. case_bool_decide.
  - split; [np; by case_match|]. intros r Hr. rust_inv. case_match; [done|].
    injection Hr as <-. destruct s; [simpl; lia|]. cbn [tail].
    match goal with |- context [tail ?l] => destruct l eqn:Hl end; simpl; [lia|].
    apply (f_equal length) in Hl. rewrite length_drop in Hl. simpl in Hl. lia.
  - pose proof (length_token s). destruct (token s) as [t r]. simpl in *.
    case_bool_decide; [done|]. split; [done|]. by intros ? [= <-].
Qed.

Lemma parameters_loop_spec fuel ps s :
  length s < fuel → no_panic (parameters_loop fuel ps s).
Proof.
  revert ps s. induction fuel as [|fuel IH]; intros ps s Hf; [lia|]. cbn [parameters_loop].
  case_bool_decide as Hp; [|done].
  assert (length (tail s) < fuel) as Ht by (destruct s; simpl in *; [done|lia]).
  pose proof (length_skip_whitespace (tail s)). pose proof (length_token (skip_whitespace (tail s))).
  destruct (token (skip_whitespace (tail s))) as [name t]. simpl in *.
  case_match eqn:Hname; [done|]. clear Hname. pose proof (length_skip_whitespace t).
  case_bool_decide; [|destruct (eq_ignore_ascii_case name (lit "duration")); [done|apply IH; lia]].
  set (v := skip_whitespace (tail (skip_whitespace t))).
  assert (length v < fuel) as Hv.
  { unfold v. pose proof (length_skip_whitespace (tail (skip_whitespace t))).
    destruct (skip_whitespace t); simpl in *; lia. }
  apply no_panic_bind.
  - destruct (eq_ignore_ascii_case name (lit "duration")); [|apply parameter_value_spec]. destruct (seconds_spec v) as [Hnp _].
    destruct (seconds v) as [[]| |]; done.
  - intros r Hr. apply IH. pose proof (length_skip_whitespace r).
    assert (length r ≤ length v); [|lia]. revert Hr.
    destruct (eq_ignore_ascii_case name (lit "duration")); [|apply parameter_value_spec].
    destruct (seconds_spec v) as [_ Hok]. destruct (seconds v) as [[a b]| |]; simpl; [|done..].
    intros [= <-]. by eapply Hok.
Qed.

Lemma retry_after_parse_spec value :
  no_panic (retry_after_parse value) ∧
  ∀ n, retry_after_parse value = Ok n → (0 ≤ n ≤ u32_max)%Z.
Proof.
  unfold retry_after_parse. destruct (seconds_spec (utf8_encode value)) as [Hnp Hok].
  destruct (seconds (utf8_encode value)) as [[n s]| |]; cbn [mbind res_bind]; [|done..]. split.
  - apply no_panic_bind.
    + case_bool_decide; [|done]. apply no_panic_bind; [apply quoted_spec|done].
    + intros r _. apply no_panic_bind; [apply parameters_loop_spec; lia|]. intros ? _. by case_match.
  - intros n' Hn. rust_inv. case_match; [done|]. injection Hn as <-. by eapply Hok.
Qed.

Lemma scan_headers_no_panic index ls value current :
  (current = true → is_Some value) → no_panic (scan_headers index ls value current).
Proof.
  revert index value current. induction ls as [|line ls IH]; intros index value current Hc; [done|].
  cbn [scan_headers]. destruct (MAX_RETRY_AFTER_HEADERS <=? index); [done|].
  destruct (existsb _ _); [done|]. case_bool_decide; [done|].
  destruct (match strip_cr line with c :: _ => is_sp_tab c | [] => false end).
  { destruct current; [|by apply IH]. destruct (Hc eq_refl) as [v ->].
    destruct (_ <? _)%Z; [done|]. by apply IH. }
  destruct (split_once _ _) as [[name field]|]; [|done].
  destruct (eq_ignore_ascii_case _ _); [|by apply IH]. destruct value; [done|].
  destruct (_ <? _)%Z; [done|]. by apply IH.
Qed.

Lemma retry_after_field_no_panic frame : no_panic (retry_after_field frame).
Proof.
  unfold retry_after_field. case_match; [|done]. case_match; [done|].
  apply no_panic_bind; [auto with rust|]. intros. by apply scan_headers_no_panic.
Qed.

(** A value that is only a number. *)
Lemma seconds_loop_digits v ds :
  Forall (λ d, (0 ≤ d < 10)%Z) ds → (0 ≤ v)%Z → (foldl (λ a d, (a * 10 + d)%Z) v ds ≤ u32_max)%Z →
  seconds_loop v (digit_char <$> ds) = Ok (foldl (λ a d, (a * 10 + d)%Z) v ds, []).
Proof.
  intros Hds. revert v. induction Hds as [|d ds Hd Hds IH]; intros v Hv Hm; [done|]. simpl in *.
  assert (∀ l a, Forall (λ d, (0 ≤ d < 10)%Z) l → (0 ≤ a)%Z → (a ≤ foldl (λ a d, (a * 10 + d)%Z) a l)%Z)
    as Hmono.
  { clear. intros l. induction l as [|x l IH]; intros a HF Ha; simpl; [lia|].
    apply Forall_cons in HF as [Hx HF]. specialize (IH (a * 10 + x)%Z HF ltac:(lia)). lia. }
  assert (is_ascii_digit (digit_char d) = true ∧ digit_char d - ch "0" = d)%Z as [-> ->].
  { unfold is_ascii_digit, digit_char. rewrite in_range_true. change (ch "0") with 48%Z.
    change (ch "9") with 57%Z. destruct (Z.ltb_spec d 10); lia. }
  specialize (Hmono ds (v * 10 + d)%Z Hds ltac:(lia)).
  destruct (Z.ltb_spec u32_max (v * 10 + d)); [lia|]. apply IH; lia.
Qed.

Lemma digit_chars_ascii ds : Forall (λ d, (0 ≤ d < 10)%Z) ds → Forall is_ascii (digit_char <$> ds).
Proof.
  induction 1 as [|d ds Hd _ IH]; constructor; [|done]. unfold is_ascii, digit_char.
  change (ch "0") with 48%Z. destruct (Z.ltb_spec d 10); lia.
Qed.

Lemma retry_after_parse_dec n : (0 ≤ n ≤ u32_max)%Z → retry_after_parse (fmt_dec n) = Ok n.
Proof.
  intros Hn. destruct (digits_spec 10 n) as (Hv & HF & Hne); [lia..|].
  unfold retry_after_parse, fmt_dec. rewrite utf8_encode_ascii by by apply digit_chars_ascii.
  unfold seconds. unfold from_digits in Hv.
  rewrite seconds_loop_digits by (done || lia). cbn [mbind res_bind]. rewrite Hv.
  rewrite length_fmap. destruct (digits 10 n); [done|]. reflexivity.
Qed.

(** A header line that is not Retry-After and not a continuation. *)
Definition plain_header (l : str) : Prop :=
  match l with c :: _ => is_sp_tab c = false | [] => False end ∧
  ∃ name field, split_once (ch ":") l = Some (name, field)
    ∧ eq_ignore_ascii_case (trim_end_matches is_sp_tab name) (lit "Retry-After") = false.
Definition retry_after_line (n : Z) : str := lit "Retry-After: " ++ fmt_dec n.

Lemma split_line l s : Forall (λ c, c ≠ LF) l → split LF (l ++ LF :: s) = l :: split LF s.
Proof.
  induction 1 as [|c l Hc _ IH]; [done|]. simpl app. cbn [split]. rewrite (proj2 (Z.eqb_neq c LF)) by done.
  by rewrite IH.
Qed.

Lemma split_render ls s :
  Forall line_ok ls → split LF (render_lines ls ++ s) = ((λ l, l ++ [CR]) <$> ls) ++ split LF s.
Proof.
  induction 1 as [|l ls Hl _ IH]; [done|].
  rewrite render_lines_cons, <-!app_assoc. change (crlf ++ ?x) with ([CR] ++ LF :: x).
  rewrite (app_assoc l), split_line, IH; [done|].
  apply Forall_app. split; [by apply line_ok_no_lf|]. by apply Forall_singleton.
Qed.

Lemma retry_after_field_message start ls payload :
  Forall line_ok (start :: ls) →
  (Z.of_nat (length (render_lines (start :: ls))) + 2 ≤ MAX_RETRY_AFTER_HEADERS_BYTES)%Z →
  retry_after_field (message (start :: ls) payload) =
    scan_headers 0 (((λ l, l ++ [CR]) <$> ls) ++ [[CR]; []]) None false.
Proof.
  intros HF Hsz. unfold retry_after_field.
  rewrite take_message by (unfold MAX_RETRY_AFTER_HEADERS_BYTES in *; lia).
  rewrite <-(app_nil_r (message _ _)), find_header_end_message by done.
  rewrite (proj2 (Z.ltb_ge _ _)) by lia. unfold message at 1. rewrite <-!app_assoc, (app_assoc (render_lines _)).
  rewrite take_app_length' by (rewrite length_app; simpl; lia).
  rewrite <-(utf8_encode_ascii (render_lines (start :: ls) ++ crlf)), utf8_roundtrip.
  - cbn [ok_or mbind res_bind]. rewrite split_render by done. done.
  - apply ascii_is_char, Forall_app. split; [by apply render_ascii|]. by apply (bool_decide_unpack _).
  - apply Forall_app. split; [by apply render_ascii|]. by apply (bool_decide_unpack _).
Qed.

Lemma existsb_no_cr l : line_ok l → existsb (Z.eqb CR) l = false.
Proof.
  intros Hl%line_ok_no_cr. induction Hl as [|c l Hc _ IH]; [done|]. cbn [existsb].
  by rewrite (proj2 (Z.eqb_neq CR c)), IH.
Qed.

Lemma scan_plain index l ls value current :
  line_ok l → plain_header l → index < MAX_RETRY_AFTER_HEADERS →
  scan_headers index ((l ++ [CR]) :: ls) value current = scan_headers (S index) ls value false.
Proof.
  intros Hl [Hc (name & field & Hs & Hn)] Hi. cbn [scan_headers].
  rewrite (proj2 (Nat.leb_gt _ _)) by done. rewrite strip_cr_line, existsb_no_cr by done.
  destruct l as [|c l]; [done|]. rewrite bool_decide_false by done. by rewrite Hc, Hs, Hn.
Qed.

Lemma scan_plains index pre ls value current :
  Forall line_ok pre → Forall plain_header pre → index + length pre ≤ MAX_RETRY_AFTER_HEADERS →
  ∃ current', scan_headers index (((λ l, l ++ [CR]) <$> pre) ++ ls) value current =
    scan_headers (index + length pre) ls value current' ∧ (pre = [] → current' = current).
Proof.
  intros HF. revert index current. induction HF as [|l pre Hl HF IH]; intros index current HP Hi.
  { exists current. simpl. by rewrite Nat.add_0_r. }
  apply Forall_cons in HP as [Hp HP]. simpl in Hi. rewrite fmap_cons. simpl app.
  rewrite scan_plain by (done || lia).
  destruct (IH (S index) false HP ltac:(lia)) as (current' & -> & _). exists current'.
  split; [f_equal; simpl; lia|done].
Qed.

Lemma scan_end index value current :
  index < MAX_RETRY_AFTER_HEADERS → scan_headers index [[CR]; []] value current = Ok value.
Proof. intros Hi. cbn [scan_headers]. by rewrite (proj2 (Nat.leb_gt _ _)) by done. Qed.

Lemma trim_fmt_dec n : (0 ≤ n)%Z → trim_matches is_sp_tab (lit " " ++ fmt_dec n) = fmt_dec n.
Proof.
  intros Hn. assert (Forall (λ c, is_sp_tab c = false) (fmt_dec n)) as HF.
  { destruct (digits_spec 10 n) as (_ & HF & _); [lia..|]. unfold fmt_dec.
    induction HF as [|d ds Hd _ IH]; constructor; [|done]. unfold is_sp_tab, digit_char.
    change (ch "0") with 48%Z. change (ch " ") with 32%Z.
    destruct (Z.ltb_spec d 10); [|lia]. apply orb_false_iff. rewrite !Z.eqb_neq. lia. }
  assert (∀ s, Forall (λ c, is_sp_tab c = false) s → trim_start_matches is_sp_tab s = s) as Htrim.
  { intros s Hs. destruct Hs as [|c s Hc _]; [done|]. cbn [trim_start_matches]. by rewrite Hc. }
  unfold trim_matches, trim_end_matches.
  change (trim_start_matches is_sp_tab (lit " " ++ fmt_dec n)) with (trim_start_matches is_sp_tab (fmt_dec n)).
  rewrite (Htrim (fmt_dec n)), Htrim, reverse_involutive; [done|by apply Forall_reverse|done].
Qed.

Lemma length_fmt_dec_u32 n : (0 ≤ n ≤ u32_max)%Z → (byte_len (fmt_dec n) ≤ 64)%Z.
Proof.
  intros Hn. unfold byte_len, fmt_dec. destruct (digits_spec 10 n) as (_ & HF & _); [lia..|].
  rewrite utf8_encode_ascii by by apply digit_chars_ascii. rewrite length_fmap.
  assert (∀ fuel b m, length (digits_fuel fuel b m) ≤ fuel) as Hlen.
  { induction fuel as [|fuel IH]; intros b m; simpl; [lia|]. case_match; simpl; [lia|].
    rewrite length_app. specialize (IH b (m / b)%Z). simpl. lia. }
  unfold digits. pose proof (Hlen (S (Z.to_nat (Z.log2 n))) 10%Z n).
  assert (Z.log2 n ≤ 31)%Z; [|lia].
  destruct (decide (n = 0)%Z) as [->|]; [done|].
  apply Z.log2_le_pow2 || idtac. pose proof (Z.log2_lt_pow2 n 32). unfold u32_max in *. lia.
Qed.

Lemma scan_retry_after index n ls current :
  (0 ≤ n ≤ u32_max)%Z → index < MAX_RETRY_AFTER_HEADERS → line_ok (retry_after_line n) →
  scan_headers index ((retry_after_line n ++ [CR]) :: ls) None current =
    scan_headers (S index) ls (Some (fmt_dec n)) true.
Proof.
  intros Hn Hi Hok. cbn [scan_headers]. rewrite (proj2 (Nat.leb_gt _ _)) by done.
  rewrite strip_cr_line, existsb_no_cr by done.
  assert (split_once (ch ":") (retry_after_line n) = Some (lit "Retry-After", lit " " ++ fmt_dec n)) as ->
    by reflexivity.
  rewrite bool_decide_false by done.
  change (match retry_after_line n with c :: _ => is_sp_tab c | [] => false end) with false.
  cbn iota.
  change (eq_ignore_ascii_case (trim_end_matches is_sp_tab (lit "Retry-After")) (lit "Retry-After"))
    with true. cbn iota.
  rewrite trim_fmt_dec by lia. pose proof (length_fmt_dec_u32 n Hn).
  rewrite (proj2 (Z.ltb_ge _ _)) by (unfold MAX_RETRY_AFTER_VALUE_BYTES; lia). done.
Qed.

Lemma retry_after_line_ok n : (0 ≤ n)%Z → line_ok (retry_after_line n).
Proof.
  intros Hn. split; [done|]. unfold retry_after_line. apply Forall_app. split.
  { by apply (bool_decide_unpack _). }
  unfold fmt_dec. destruct (digits_spec 10 n) as (_ & HF & _); [lia..|].
  induction HF as [|d ds Hd _ IH]; constructor; [|done]. unfold is_ascii, digit_char, CR, LF.
  change (ch "0") with 48%Z. destruct (Z.ltb_spec d 10); lia.
Qed.

Lemma parse_retry_after_returns {E} frame : ∃ r, parse_retry_after (E:=E) frame = Ok r.
Proof.
  unfold parse_retry_after. pose proof (retry_after_field_no_panic frame) as Hf.
  destruct (retry_after_field frame) as [[value|]|e|]; [|by eexists..|done].
  destruct (retry_after_parse_spec value) as [Hnp _].
  by destruct (retry_after_parse value) as [n|e|]; [eexists..|].
Qed.

(** * Properties *)

(** The parser is total: no frame, however malformed, makes it panic (its
    folding [expect] is never reached without a field) and an accepted delay is
    a [u32]. *)
Theorem retry_after_total {E} frame :
  ∃ r, parse_retry_after (E:=E) frame = Ok r ∧
    ∀ n, r = DelaySeconds n → (0 ≤ n ≤ u32_max)%Z.
Proof.
  unfold parse_retry_after. pose proof (retry_after_field_no_panic frame) as Hf.
  destruct (retry_after_field frame) as [[value|]|e|]; [|by eexists..|done].
  destruct (retry_after_parse_spec value) as [Hnp Hok].
  destruct (retry_after_parse value) as [n|e|] eqn:Hp; [|by eexists|done].
  eexists. split; [done|]. intros ? [= <-]. by apply Hok.
Qed.

(** A single Retry-After header is read back whatever headers surround it:
    a well-formed response with the header [Retry-After: n] gives [n] seconds,
    and the same response without it gives [Absent]. *)
Theorem retry_after_roundtrip {E} start pre post n payload :
  let ls := start :: pre ++ retry_after_line n :: post in
  Forall line_ok (start :: pre ++ post) → Forall plain_header (pre ++ post) →
  length (pre ++ post) + 2 ≤ MAX_RETRY_AFTER_HEADERS →
  (Z.of_nat (length (render_lines ls)) + 2 ≤ MAX_RETRY_AFTER_HEADERS_BYTES)%Z →
  (0 ≤ n ≤ u32_max)%Z →
  parse_retry_after (E:=E) (message ls payload) = Ok (DelaySeconds n)
  ∧ parse_retry_after (E:=E) (message (start :: pre ++ post) payload) = Ok RetryAbsent.
Proof.
  cbv zeta. intros HF HP Hl Hsz Hn. pose proof HF as HF'.
  apply Forall_cons in HF as [Hs [Hpre Hpost]%Forall_app].
  pose proof HP as [HPpre HPpost]%Forall_app. rewrite length_app in Hl.
  pose proof (retry_after_line_ok n ltac:(lia)) as Hok. split.
  - unfold parse_retry_after. rewrite retry_after_field_message; [|by constructor; [|apply Forall_app; split; [|constructor]]|done].
    replace (((λ l, l ++ [CR]) <$> (pre ++ retry_after_line n :: post)) ++ [[CR]; []])
      with (((λ l, l ++ [CR]) <$> pre) ++ (retry_after_line n ++ [CR]) ::
        ((λ l, l ++ [CR]) <$> post) ++ [[CR]; []])
      by (rewrite fmap_app, fmap_cons, <-app_assoc; reflexivity).
    destruct (scan_plains 0 pre (((retry_after_line n ++ [CR]) ::
      ((λ l, l ++ [CR]) <$> post) ++ [[CR]; []])) None false Hpre HPpre ltac:(lia)) as (c & -> & _).
    rewrite scan_retry_after by (done || lia).
    destruct (scan_plains (S (0 + length pre)) post [[CR]; []] (Some (fmt_dec n)) true Hpost HPpost ltac:(lia))
      as (c' & -> & _).
    rewrite scan_end by lia. by rewrite retry_after_parse_dec.
  - unfold parse_retry_after. rewrite retry_after_field_message; [|done|].
    2: { rewrite !render_lines_cons in *. unfold render_lines in *. rewrite !bind_app, bind_cons in *.
         rewrite !length_app in *. lia. }
    destruct (scan_plains 0 (pre ++ post) [[CR]; []] None false) as (c & -> & _);
      [by apply Forall_app|done|rewrite length_app; lia|].
    by rewrite scan_end by (rewrite length_app; lia).
Qed.

Lemma retry_after_roundtrip_witness :
  parse_retry_after (E:=unit) (message [lit "SIP/2.0 503 Busy"; lit "Via: x"; retry_after_line 120;
    lit "Content-Length: 0"] []) = Ok (DelaySeconds 120).
Proof.
  apply (retry_after_roundtrip (lit "SIP/2.0 503 Busy") [lit "Via: x"] [lit "Content-Length: 0"] 120 []).
  - apply (bool_decide_unpack _). vm_compute. exact I.
  - constructor; [|constructor; [|constructor]]; (split; [reflexivity|]); eexists _, _; by split.
  - apply Nat.leb_le. vm_compute. reflexivity.
  - vm_compute. discriminate.
  - vm_compute. split; discriminate.
Defined.
