(* ===== verification/Register.v ===== *)
(** * The REGISTER exchange

    Models [connectivity/core/register.rs]: the transaction key, the budgets of
    challenge and 423 rounds, the failure metadata, the receive loop with its
    timers and the exchange driver, over any channel and authenticator.  Time is
    in milliseconds.  The loops carry fuel: running out of it is a [Panic],
    which the properties exclude. *)
From Stdlib Require Import Ascii String ZArith Lia.
From stdpp Require Import prelude sorting.
From S2P Require Import Prelude Text SipFrame RetryAfter.

Definition REGISTER_T1 : Z := 500.
Definition REGISTER_T2 : Z := 4000.
Definition REGISTER_TIMEOUT : Z := 32000.
Definition MAX_AUTH_ROUNDS : Z := 2.
Definition MAX_REGISTER_IGNORED_FRAMES : Z := 32.
Definition MAX_MIN_EXPIRES_ROUNDS : Z := 2.
Definition MIN_EXPIRES_CAP : Z := 86400.
Definition MAX_REGISTER_PROVISIONAL_RESPONSES : Z := 4.

(** ** Lease negotiation *)
Inductive RegisterMinExpiresFailure := MinInvalid | MinUnsupported | MinExhausted | MinNegotiated.
#[export] Instance RegisterMinExpiresFailure_eq_dec : EqDecision RegisterMinExpiresFailure.
Proof. solve_decision. Defined.

Definition min_expires_error (f : RegisterMinExpiresFailure) (authenticated : bool) : str :=
  match authenticated, f with
  | false, MinInvalid => lit "ims_register_initial_min_expires_invalid"
  | false, MinUnsupported => lit "ims_register_initial_min_expires_unsupported"
  | false, (MinExhausted | MinNegotiated) => lit "ims_register_initial_min_expires_exhausted"
  | true, MinInvalid => lit "ims_register_authenticated_min_expires_invalid"
  | true, MinUnsupported => lit "ims_register_authenticated_min_expires_unsupported"
  | true, (MinExhausted | MinNegotiated) => lit "ims_register_authenticated_min_expires_exhausted"
  end.

Definition parse_min_expires (response : list Z) : res RegisterMinExpiresFailure Z :=
  match header_values response (lit "Min-Expires") with
  | [v] =>
    let value := trim v in
    if bool_decide (value = []) || negb (forallb is_ascii_digit value) then Err MinInvalid
    else
      parsed ← ok_or MinInvalid (parse_unsigned u32_max value);
      if (parsed =? 0)%Z then Err MinInvalid
      else if (MIN_EXPIRES_CAP <? parsed)%Z then Err MinUnsupported
      else Ok parsed
  | _ => Err MinInvalid
  end.

Record RegisterNegotiationBudget := mkBudget {
  observed : bool;
  rounds : Z;
  minimum : option Z;
}.
Definition budget_default : RegisterNegotiationBudget := mkBudget false 0 None.
Definition permits_candidate_expansion (b : RegisterNegotiationBudget) : bool := negb (observed b).

Definition negotiate (response : list Z) (b : RegisterNegotiationBudget)
    : RegisterNegotiationBudget * res RegisterMinExpiresFailure Z :=
  let b := mkBudget true (rounds b) (minimum b) in
  if (MAX_MIN_EXPIRES_ROUNDS <=? rounds b)%Z then (b, Err MinExhausted)
  else match parse_min_expires response with
    | Err e => (b, Err e)
    | Panic => (b, Panic)
    | Ok m =>
      if match minimum b with Some previous => (m <=? previous)%Z | None => false end
      then (b, Err MinInvalid)
      else (mkBudget true (rounds b + 1) (Some m), Ok m)
    end.

(** ** The transaction key *)
Record RegisterTransactionKey := mkKey { key_call_id : str; key_cseq : Z }.

Definition register_call_id (frame : list Z) : option str :=
  match header_value frame (lit "Call-ID") with
  | Some v => Some v
  | None => header_value frame (lit "i")
  end.
Definition register_cseq (frame : list Z) : option Z :=
  value ← header_value frame (lit "CSeq");
  match split_whitespace value with
  | number :: rest =>
    number ← parse_unsigned u32_max number;
    match rest with
    | [method_] => if eq_ignore_ascii_case method_ (lit "REGISTER") then Some number else None
    | _ => None
    end
  | [] => None
  end.

Definition from_register_request (request : list Z) : option RegisterTransactionKey :=
  if negb (is_request request (lit "REGISTER")) then None
  else
    call_id ← register_call_id request;
    cseq ← register_cseq request;
    Some (mkKey call_id cseq).
Definition matches_response (k : RegisterTransactionKey) (response : list Z) : bool :=
  starts_with response (lit "SIP/2.0")
  && bool_decide (register_call_id response = Some (key_call_id k))
  && bool_decide (register_cseq response = Some (key_cseq k)).

(** ** Statuses *)
Definition one_of (l : list Z) (z : Z) : bool := existsb (Z.eqb z) l.
Definition status_permits_register_variant_fallback (status : Z) : bool :=
  one_of [400; 415; 420; 421; 494]%Z status.
Definition status_is_terminal_register_failure (status : Z) : bool :=
  in_range 300 399 status
  || one_of [403; 405; 406; 409; 413; 414; 416; 422; 432; 433; 436; 437; 438;
             481; 482; 483; 484; 485; 486; 487; 488; 489; 493; 505; 513; 580]%Z status
  || in_range 600 699 status.

(** ** Failures *)
Record RegisterResult := mkResult {
  res_response : list Z;
  res_authenticated : bool;
  res_auth_rounds : Z;
  res_received_at : Z;
}.
Record RegisterFailure := mkFailure {
  fail_error : str;
  fail_response : option (list Z);
  fail_auth_rounds : Z;
}.

Inductive RegisterFailureStage := StageInitial | StageAuthentication | StageAuthenticated.
#[export] Instance RegisterFailureStage_eq_dec : EqDecision RegisterFailureStage.
Proof. solve_decision. Defined.
Inductive RegisterFailureKind :=
| TemporaryEndpoint | Transport | FlowFailed | IdentityRejected | AuthenticationRejected
| Negotiation | TerminalResponse | LocalFailure.
#[export] Instance RegisterFailureKind_eq_dec : EqDecision RegisterFailureKind.
Proof. solve_decision. Defined.
Record RegisterFailureMetadata := mkMetadata {
  md_sip_status : option Z;
  md_stage : RegisterFailureStage;
  md_kind : RegisterFailureKind;
  md_retry_after : RetryAfter;
  md_min_expires : option RegisterMinExpiresFailure;
}.
Definition is_temporary (m : RegisterFailureMetadata) : bool :=
  bool_decide (md_kind m = TemporaryEndpoint) || bool_decide (md_kind m = Transport).
Definition permits_variant_fallback (m : RegisterFailureMetadata) : bool :=
  bool_decide (md_min_expires m = None)
  && bool_decide (md_stage m = StageInitial)
  && bool_decide (md_kind m = Negotiation)
  && bool_decide (md_retry_after m = RetryAbsent)
  && match md_sip_status m with Some s => status_permits_register_variant_fallback s | None => false end.

Definition code_in (code : str) (codes : list str) : bool := existsb (str_eqb code) codes.
(** [code.ends_with(p)] *)
Definition ends_with (code p : str) : bool := starts_with (reverse code) (reverse p).

Definition failure_sip_status (f : RegisterFailure) : option Z :=
  response ← fail_response f;
  status ← res_ok (parse_status response);
  if in_range 100 699 status then Some status else None.
Definition failure_stage (f : RegisterFailure) : RegisterFailureStage :=
  if starts_with (fail_error f) (lit "ims_register_authenticated_")
     || str_eqb (fail_error f) (lit "ims_register_auth_rejected") then StageAuthenticated
  else if (0 <? fail_auth_rounds f)%Z then StageAuthentication else StageInitial.
Definition transport_codes : list str :=
  [lit "ims_register_initial_send_failed"; lit "ims_register_initial_receive_failed";
   lit "ims_register_authenticated_send_failed"; lit "ims_register_authenticated_receive_failed"].
Definition final_response_codes : list str :=
  [lit "ims_register_initial_unexpected_status"; lit "ims_register_authenticated_unexpected_status";
   lit "ims_register_auth_rejected"; lit "ims_register_initial_min_expires_invalid";
   lit "ims_register_initial_min_expires_exhausted"; lit "ims_register_initial_min_expires_unsupported";
   lit "ims_register_authenticated_min_expires_invalid"; lit "ims_register_authenticated_min_expires_exhausted";
   lit "ims_register_authenticated_min_expires_unsupported"].
Definition flow_codes : list str :=
  [lit "ims_outbound_flow_failed"; lit "ims_outbound_keepalive_timeout";
   lit "ims_outbound_keepalive_send_failed"; lit "ims_outbound_stun_error";
   lit "ims_outbound_mapping_changed"].

(** The match on the status of a final response. *)
Definition final_response_kind (stage : RegisterFailureStage) (sip_status : option Z)
    : RegisterFailureKind :=
  match sip_status with
  | None => LocalFailure
  | Some s =>
    if one_of [408; 500; 502; 503; 504]%Z s then TemporaryEndpoint
    else if one_of [402; 403; 404; 604]%Z s then IdentityRejected
    else if one_of [401; 407]%Z s then AuthenticationRejected
    else if (s =? 430)%Z then FlowFailed
    else if (s =? 423)%Z then Negotiation
    else if bool_decide (stage = StageInitial) && status_permits_register_variant_fallback s
    then Negotiation
    else if in_range 300 699 s then TerminalResponse
    else LocalFailure
  end.
Definition failure_kind (f : RegisterFailure) : RegisterFailureKind :=
  let code := fail_error f in
  if starts_with code (lit "digest_response_auth_") then AuthenticationRejected
  else if code_in code transport_codes then Transport
  else if code_in code flow_codes then FlowFailed
  else if code_in code final_response_codes
  then final_response_kind (failure_stage f) (failure_sip_status f)
  else LocalFailure.
Definition failure_min_expires (f : RegisterFailure) : option RegisterMinExpiresFailure :=
  let code := fail_error f in
  if contains_str code (lit "_min_expires_") then
    if ends_with code (lit "_invalid") then Some MinInvalid
    else if ends_with code (lit "_unsupported") then Some MinUnsupported
    else if ends_with code (lit "_exhausted") then Some MinExhausted
    else None
  else if bool_decide (failure_sip_status f = Some 423%Z) then Some MinNegotiated
  else None.

Definition metadata {E} (f : RegisterFailure) : res E RegisterFailureMetadata :=
  retry_after ← match fail_response f with
                | Some response => parse_retry_after response
                | None => Ok RetryAbsent
                end;
  Ok (mkMetadata (failure_sip_status f) (failure_stage f) (failure_kind f) retry_after
        (failure_min_expires f)).

Definition failure_metadata {E} (b : RegisterNegotiationBudget) (f : RegisterFailure)
    : res E RegisterFailureMetadata :=
  m ← metadata f;
  Ok (if observed b && bool_decide (md_min_expires m = None)
      then mkMetadata (md_sip_status m) (md_stage m) (md_kind m) (md_retry_after m) (Some MinNegotiated)
      else m).

Inductive UnregisterResult := Confirmed | AlreadyExpired | Rejected | AccessLost.

(** ** Interfaces

    [ImsChannel] is the part of the trait the exchange uses, [Clock] is tokio's
    timer, [RegisterAuthenticator] is the trait of the access adapters.  The
    operations are free: a channel may answer anything and take any time. *)
Class ImsChannel (C : Type) := {
  send_sip : list Z → C → C * ims unit;
  recv_sip_fresh : Z → C → C * ims (list Z);
  requeue : list Z → C → C;
  route_is_udp : C → bool;
}.
Class Clock (C : Type) := {
  now : C → C * Z;
  sleep : Z → C → C;
  system_time : C → Z;
}.
Class RegisterAuthenticator (C A : Type) := {
  validate_request : A → list Z → ims unit;
  validate_success : A → list Z → ims unit;
  exchange_authenticated : list Z → Z → C → A → C * A * ims (option (list Z));
  prepare_authenticated_channel : list Z → C → A → C * A * ims unit;
  authenticated_request : list Z → Z → A → A * ims (list Z);
  rebuild_register_with_min_expires : list Z → Z → Z → bool → A → A * ims (list Z);
}.

Definition preserve_flow_error (error fallback : str) : str :=
  if starts_with error (lit "ims_outbound_") || starts_with error (lit "cellular_ims_tls_")
     || code_in error [lit "cellular_ims_channel_stream_frame_invalid";
                       lit "cellular_ims_channel_stream_response_owner_missing";
                       lit "cellular_ims_channel_stream_budget_exhausted"]
  then error else fallback.
Definition is_register_read_retryable (error : str) : bool :=
  code_in error [lit "ims_channel_read_timeout"; lit "cellular_ims_channel_read_timeout";
                 lit "ims_register_read_timeout"; lit "ims_channel_read_failed";
                 lit "cellular_ims_channel_read_retryable"].

(** ** The receive loop *)
Record RecvState := mkRecv {
  retransmit_interval : Z;
  next_retransmit : Z;
  provisional_count : Z;
  ignored_frames : Z;
}.
(** [n.saturating_add(1)] on a [u8] *)
Definition saturating_inc (n : Z) : Z := sat_add u8_max n 1.

Section transaction.
Context {C : Type} `{ImsChannel C, Clock C}.
Context (expected_transaction : option RegisterTransactionKey).
Context (receive_error provisional_exhausted_error : str).

Definition transaction_matches (response : list Z) : bool :=
  match expected_transaction with
  | Some expected => matches_response expected response
  | None => starts_with response (lit "SIP/2.0")
  end.

(** What the loop does with a frame: skip it, return it or count it. *)
Definition on_frame (continue : RecvState → C → C * ims (list Z)) (st : RecvState)
    (response : list Z) (c : C) : C * ims (list Z) :=
  if negb (transaction_matches response) then
    let ignored := saturating_inc (ignored_frames st) in
    let c := requeue response c in
    if (MAX_REGISTER_IGNORED_FRAMES <? ignored)%Z then (c, Err receive_error)
    else continue
           (mkRecv (retransmit_interval st) (next_retransmit st) (provisional_count st) ignored) c
  else
  match parse_status response with
  | Panic => (c, Panic)
  | Err e => (c, Err e)
  | Ok status =>
    if negb (in_range 100 199 status) then (c, Ok response)
    else
      let provisional := saturating_inc (provisional_count st) in
      if (MAX_REGISTER_PROVISIONAL_RESPONSES <? provisional)%Z
      then (c, Err provisional_exhausted_error)
      else continue
             (mkRecv (retransmit_interval st) (next_retransmit st) provisional (ignored_frames st)) c
  end.

(** [retransmit] is the request and the send error on UDP. *)
Fixpoint recv_loop (fuel : nat) (retransmit : option (list Z * str)) (deadline : Z)
    (st : RecvState) (c : C) : C * ims (list Z) :=
  match fuel with
  | 0 => (c, Panic)
  | S fuel =>
    let '(c, t) := now c in
    if (deadline <=? t)%Z then (c, Err receive_error)
    else
    let udp := bool_decide (is_Some retransmit) in
    if udp && (next_retransmit st <=? t)%Z then
      match retransmit with
      | None => (c, Panic)
      | Some (request, send_error) =>
        match send_sip request c with
        | (c, Err e) => (c, Err (preserve_flow_error e send_error))
        | (c, Panic) => (c, Panic)
        | (c, Ok _) =>
          let interval := Z.min (retransmit_interval st * 2) REGISTER_T2 in
          recv_loop fuel retransmit deadline
            (mkRecv interval (t + interval) (provisional_count st) (ignored_frames st)) c
        end
      end
    else
    let wait_until := if udp then Z.min deadline (next_retransmit st) else deadline in
    let remaining := sat_sub wait_until t in
    if (remaining =? 0)%Z then recv_loop fuel retransmit deadline st c
    else
    match recv_sip_fresh remaining c with
    | (c, Panic) => (c, Panic)
    | (c, Err error) =>
      if udp && is_register_read_retryable error then
        let '(c, t) := now c in
        let wait := sat_sub (Z.min deadline (next_retransmit st)) t in
        recv_loop fuel retransmit deadline st (if (wait =? 0)%Z then c else sleep wait c)
      else (c, Err (preserve_flow_error error receive_error))
    | (c, Ok response) => on_frame (recv_loop fuel retransmit deadline) st response c
    end
  end.

(** Enough for the retransmissions, the errors that wait for one, the ignored
    frames and the provisional responses of one transaction. *)
Definition RECV_FUEL : nat := 64.

Definition recv_final_register_response_loop (retransmit : option (list Z * str))
    (timeout_budget : Z) (c : C) : C * ims (list Z) :=
  let '(c, t) := now c in
  let deadline := (t + timeout_budget)%Z in
  let '(c, t) := now c in
  recv_loop RECV_FUEL retransmit deadline (mkRecv REGISTER_T1 (t + REGISTER_T1) 0 0) c.
End transaction.

Section driver.
Context {C A : Type} `{ImsChannel C, Clock C, RegisterAuthenticator C A}.

Definition send_register_and_receive (request : list Z)
    (send_error receive_error provisional_exhausted_error : str) (c : C) : C * ims (list Z) :=
  let expected := from_register_request request in
  match send_sip request c with
  | (c, Err e) => (c, Err (preserve_flow_error e send_error))
  | (c, Panic) => (c, Panic)
  | (c, Ok _) =>
    recv_final_register_response_loop expected receive_error provisional_exhausted_error
      (if route_is_udp c then Some (request, send_error) else None) REGISTER_TIMEOUT c
  end.

(** Steps on the channel and the authenticator. *)
Definition step (R : Type) : Type := C * A → C * A * ims R.
Definition step_bind {R S} (m : step R) (k : R → step S) : step S := λ s,
  match m s with
  | (s, Ok r) => k r s
  | (s, Err e) => (s, Err e)
  | (s, Panic) => (s, Panic)
  end.
Definition step_res {R} (r : ims R) : step R := λ s, (s, r).
Definition step_auth {R} (f : A → A * ims R) : step R := λ '(c, a), let '(a, r) := f a in ((c, a), r).
Definition step_chan {R} (f : C → C * ims R) : step R := λ '(c, a), let '(c, r) := f c in ((c, a), r).
Definition step_both {R} (f : C → A → C * A * ims R) : step R := λ '(c, a), f c a.
Definition step_get {R} (f : A → ims R) : step R := λ '(c, a), ((c, a), f a).

(** The errors of an initial and of an authenticated request. *)
Definition stage_errors (authenticated : bool) : str * str * str :=
  if authenticated
  then (lit "ims_register_authenticated_send_failed", lit "ims_register_authenticated_receive_failed",
        lit "ims_register_authenticated_unexpected_status")
  else (lit "ims_register_initial_send_failed", lit "ims_register_initial_receive_failed",
        lit "ims_register_initial_unexpected_status").
Definition send_stage (authenticated : bool) (request : list Z) : step (list Z) :=
  let '(send_error, receive_error, unexpected) := stage_errors authenticated in
  step_chan (send_register_and_receive request send_error receive_error unexpected).

(** The body of the 401/407 arm: the next response. *)
Definition challenge_round (response : list Z) (cseq : Z) : step (list Z) :=
  step_bind (step_both (exchange_authenticated response cseq)) (λ access_response,
  match access_response with
  | Some access_response => step_res (Ok access_response)
  | None =>
    step_bind (step_both (prepare_authenticated_channel response)) (λ _,
    step_bind (step_auth (authenticated_request (C:=C) response cseq)) (λ request,
    step_bind (step_get (λ a, validate_request (C:=C) a request)) (λ _,
    send_stage true request)))
  end).

(** The body of the 423 arm, after the floor was negotiated. *)
Definition min_expires_round (response : list Z) (cseq min_expires : Z) (authenticated : bool)
    : step (list Z) :=
  step_bind (step_auth (rebuild_register_with_min_expires (C:=C) response cseq min_expires authenticated))
    (λ request,
  step_bind (step_get (λ a, validate_request (C:=C) a request)) (λ _,
  send_stage authenticated request)).

Record World := mkWorld { w_chan_auth : C * A; w_budget : RegisterNegotiationBudget }.

Definition with_observed (b : RegisterNegotiationBudget) : RegisterNegotiationBudget :=
  mkBudget true (rounds b) (minimum b).

(** Go on with the next response, or stop with the failure of the round. *)
Definition continue_with (response : list Z) (auth_rounds : Z)
    (k : list Z → World → World * res RegisterFailure RegisterResult)
    (budget : RegisterNegotiationBudget) (r : C * A * ims (list Z))
    : World * res RegisterFailure RegisterResult :=
  match r with
  | (s, Ok response') => k response' (mkWorld s budget)
  | (s, Err e) => (mkWorld s budget, Err (mkFailure e (Some response) auth_rounds))
  | (s, Panic) => (mkWorld s budget, Panic)
  end.

(** [min_expires] of the 423 arm. *)
Definition negotiate_min_expires (allow : bool) (response : list Z) (b : RegisterNegotiationBudget)
    : RegisterNegotiationBudget * res RegisterMinExpiresFailure Z :=
  let b := with_observed b in
  if allow then negotiate response b else (b, Err MinUnsupported).

Fixpoint exchange_loop (fuel : nat) (allow_min_expires : bool) (auth_rounds : Z)
    (response : list Z) (w : World) : World * res RegisterFailure RegisterResult :=
  match fuel with
  | 0 => (w, Panic)
  | S fuel =>
    let fail e := Err (mkFailure e (Some response) auth_rounds) in
    let authenticated := (0 <? auth_rounds)%Z in
    let budget := w_budget w in
    match parse_status response with
    | Panic => (w, Panic)
    | Err e => (w, fail e)
    | Ok status =>
      if in_range 200 299 status then
        match validate_success (C:=C) (w_chan_auth w).2 response with
        | Ok _ => (w, Ok (mkResult response authenticated auth_rounds (system_time (w_chan_auth w).1)))
        | Err e => (w, fail e)
        | Panic => (w, Panic)
        end
      else if one_of [401; 407]%Z status then
        if (auth_rounds <? MAX_AUTH_ROUNDS)%Z then
          let auth_rounds := (auth_rounds + 1)%Z in
          let cseq := (auth_rounds + rounds budget + 1)%Z in
          continue_with response auth_rounds (exchange_loop fuel allow_min_expires auth_rounds)
            budget (challenge_round response cseq (w_chan_auth w))
        else (w, fail (lit "ims_register_auth_rejected"))
      else if (status =? 423)%Z then
        match negotiate_min_expires allow_min_expires response budget with
        | (budget, Panic) => (mkWorld (w_chan_auth w) budget, Panic)
        | (budget, Err reason) =>
          (mkWorld (w_chan_auth w) budget, fail (min_expires_error reason authenticated))
        | (budget, Ok min_expires) =>
          let cseq := (auth_rounds + rounds budget + 1)%Z in
          continue_with response auth_rounds (exchange_loop fuel allow_min_expires auth_rounds)
            budget (min_expires_round response cseq min_expires authenticated (w_chan_auth w))
        end
      else (w, fail (if authenticated then lit "ims_register_authenticated_unexpected_status"
                     else lit "ims_register_initial_unexpected_status"))
    end
  end.

(** Two challenge rounds and two 423 rounds, and the last response. *)
Definition EXCHANGE_FUEL : nat := 5.

Definition run_register_exchange (initial_request : list Z) (allow_min_expires : bool) (w : World)
    : World * res RegisterFailure RegisterResult :=
  let expires :=
    value ← header_value initial_request (lit "Expires"); parse_unsigned u32_max (trim value) in
  let w := mkWorld (w_chan_auth w)
             (mkBudget (observed (w_budget w)) (rounds (w_budget w)) expires) in
  match step_bind (step_get (λ a, validate_request (C:=C) a initial_request))
          (λ _, send_stage false initial_request) (w_chan_auth w) with
  | (s, Err e) => (mkWorld s (w_budget w), Err (mkFailure e None 0))
  | (s, Panic) => (mkWorld s (w_budget w), Panic)
  | (s, Ok response) =>
    exchange_loop EXCHANGE_FUEL allow_min_expires 0 response (mkWorld s (w_budget w))
  end.

Definition run_register_observed_with_budget (initial_request : list Z) (w : World)
    : World * res RegisterFailure RegisterResult :=
  if negb (permits_candidate_expansion (w_budget w))
  then (w, Err (mkFailure (min_expires_error MinExhausted false) None 0))
  else
    let unregister := existsb (λ value, str_eqb (trim value) (lit "0"))
                        (header_values initial_request (lit "Expires")) in
    run_register_exchange initial_request (negb unregister) w.

Definition run_register_observed (initial_request : list Z) (s : C * A)
    : World * res RegisterFailure RegisterResult :=
  run_register_observed_with_budget initial_request (mkWorld s budget_default).

Definition run_register (initial_request : list Z) (s : C * A) : World * ims RegisterResult :=
  let '(w, r) := run_register_observed initial_request s in (w, map_err fail_error r).

Definition run_unregister_observed (initial_request : list Z) (s : C * A)
    : World * res RegisterFailure RegisterResult :=
  run_register_exchange initial_request false (mkWorld s budget_default).

Definition run_unregister {E} (initial_request : list Z) (s : C * A) : World * res E UnregisterResult :=
  let '(w, r) := run_unregister_observed initial_request s in
  (w, match r with
      | Ok _ => Ok Confirmed
      | Err f => Ok (if bool_decide (is_Some (fail_response f)) then Rejected else AccessLost)
      | Panic => Panic
      end).
End driver.

(** * What a channel and a clock are relied on for

    Time never runs backwards, sleeping takes at least the time asked for, and
    the operations of a channel return. *)
Class ChannelLaws (C : Type) `{ImsChannel C, Clock C} := {
  time : C → Z;
  now_time c : (time c ≤ (now c).2 ≤ time (now c).1)%Z;
  sleep_time d c : (0 ≤ d)%Z → (time c + d ≤ time (sleep d c))%Z;
  send_time frame c : (time c ≤ time (send_sip frame c).1)%Z;
  recv_time d c : (time c ≤ time (recv_sip_fresh d c).1)%Z;
  requeue_time frame c : (time c ≤ time (requeue frame c))%Z;
  send_no_panic frame c : no_panic (send_sip frame c).2;
  recv_no_panic d c : no_panic (recv_sip_fresh d c).2;
}.

(** ** A channel that keeps a log of what crosses it *)
Inductive ChannelEvent := EvSent (frame : list Z) | EvReceived (frame : list Z) | EvRequeued (frame : list Z).
Record Traced (C : Type) := mkTraced { tr_chan : C; tr_log : list ChannelEvent }.
Arguments mkTraced {C}.
Arguments tr_chan {C}.
Arguments tr_log {C}.

Definition sent_frames (l : list ChannelEvent) : list (list Z) :=
  omap (λ e, match e with EvSent f => Some f | _ => None end) l.
Definition received_frames (l : list ChannelEvent) : list (list Z) :=
  omap (λ e, match e with EvReceived f => Some f | _ => None end) l.
Definition requeued_frames (l : list ChannelEvent) : list (list Z) :=
  omap (λ e, match e with EvRequeued f => Some f | _ => None end) l.

#[export] Instance traced_channel {C} `{ImsChannel C} : ImsChannel (Traced C) := {
  send_sip frame c := let '(c', r) := send_sip frame (tr_chan c) in
    (mkTraced c' (tr_log c ++ [EvSent frame]), r);
  recv_sip_fresh d c := let '(c', r) := recv_sip_fresh d (tr_chan c) in
    (mkTraced c' (tr_log c ++ match r with Ok frame => [EvReceived frame] | _ => [] end), r);
  requeue frame c := mkTraced (requeue frame (tr_chan c)) (tr_log c ++ [EvRequeued frame]);
  route_is_udp c := route_is_udp (tr_chan c);
}.
#[export] Instance traced_clock {C} `{Clock C} : Clock (Traced C) := {
  now c := let '(c', t) := now (tr_chan c) in (mkTraced c' (tr_log c), t);
  sleep d c := mkTraced (sleep d (tr_chan c)) (tr_log c);
  system_time c := system_time (tr_chan c);
}.

(** * Lemmas *)
Lemma no_panic_parse_status frame : no_panic (parse_status frame).
Proof.
  unfold parse_status. apply no_panic_bind; [apply no_panic_ok_or|]. intros n _.
  apply no_panic_bind; [apply no_panic_ok_or|]. intros line _.
  destruct (split_whitespace line) as [|v rest]; [done|].
  destruct (negb _); [done|apply no_panic_ok_or].
Qed.

(** At most [n] retransmissions fit in [d] milliseconds from the next one. *)
Fixpoint fits (n : nat) (interval d : Z) : Prop :=
  match n with
  | 0 => (d ≤ 0)%Z
  | S n => (d ≤ 0)%Z ∨
           let interval := Z.min (interval * 2) REGISTER_T2 in fits n interval (d - interval)
  end.
Lemma fits_le n i d d' : (d' ≤ d)%Z → fits n i d → fits n i d'.
Proof.
  revert i d d'. induction n as [|n IH]; simpl; intros i d d' Hd; [lia|].
  intros [?|Hf]; [left; lia|]. right. eapply IH; [|done]. lia.
Qed.
Lemma fits_timer_e : fits 10 REGISTER_T1 (REGISTER_TIMEOUT - REGISTER_T1).
Proof. repeat (first [left; vm_compute; discriminate|right]). vm_compute. discriminate. Qed.

Section traced_loop.
Context {C : Type} `{ImsChannel C, Clock C, !ChannelLaws C}.
Context (expected : option RegisterTransactionKey) (receive_error provisional_error : str).
Implicit Types (c : Traced C) (st : RecvState).

(** What a run of the loop adds to the log: at most [n] retransmissions. *)
Definition loop_log (retransmit : option (list Z * str)) (n : nat) (ev : list ChannelEvent) : Prop :=
  Forall (λ f, fst <$> retransmit = Some f) (sent_frames ev) ∧
  length (sent_frames ev) ≤ n ∧
  requeued_frames ev = filter (λ f, transaction_matches expected f = false) (received_frames ev).
(** A successful run returns the last frame it received, the final response of
    the transaction. *)
Definition loop_result (ev : list ChannelEvent) (r : ims (list Z)) : Prop :=
  ∀ response, r = Ok response →
    last (received_frames ev) = Some response ∧
    transaction_matches expected response = true ∧
    ∃ status, parse_status response = Ok status ∧ in_range 100 199 status = false.

Definition loop_measure (n : nat) (deadline : Z) st c : nat :=
  2 * n + Z.to_nat (33 - ignored_frames st) + Z.to_nat (5 - provisional_count st)
  + (if (time (tr_chan c) <? Z.min deadline (next_retransmit st))%Z then 1 else 0).

Lemma now_traced c c1 t : now c = (c1, t) →
  tr_log c1 = tr_log c ∧ (time (tr_chan c) ≤ t ≤ time (tr_chan c1))%Z.
Proof.
  simpl. pose proof (now_time (tr_chan c)) as Ht. destruct (now (tr_chan c)) as [c' t'].
  intros [= <- <-]. by split.
Qed.
Lemma sleep_traced d c : (0 ≤ d)%Z →
  tr_log (sleep d c) = tr_log c ∧ (time (tr_chan c) + d ≤ time (tr_chan (sleep d c)))%Z.
Proof. intros Hd. split; [done|]. simpl. by apply sleep_time. Qed.
Lemma send_traced f c c1 r : send_sip f c = (c1, r) →
  tr_log c1 = tr_log c ++ [EvSent f] ∧ (time (tr_chan c) ≤ time (tr_chan c1))%Z ∧ no_panic r.
Proof.
  simpl. pose proof (send_time f (tr_chan c)) as Ht. pose proof (send_no_panic f (tr_chan c)) as Hp.
  destruct (send_sip f (tr_chan c)) as [c' r']. by intros [= <- <-].
Qed.
Lemma recv_traced d c c1 r : recv_sip_fresh d c = (c1, r) →
  tr_log c1 = tr_log c ++ (match r with Ok frame => [EvReceived frame] | _ => [] end) ∧
  (time (tr_chan c) ≤ time (tr_chan c1))%Z ∧ no_panic r.
Proof.
  simpl. pose proof (recv_time d (tr_chan c)) as Ht. pose proof (recv_no_panic d (tr_chan c)) as Hp.
  destruct (recv_sip_fresh d (tr_chan c)) as [c' r']. by intros [= <- <-].
Qed.
Lemma requeue_traced f c :
  tr_log (requeue f c) = tr_log c ++ [EvRequeued f] ∧
  (time (tr_chan c) ≤ time (tr_chan (requeue f c)))%Z.
Proof. split; [done|]. simpl. apply requeue_time. Qed.

#[local] Arguments now : simpl never.
#[local] Arguments sleep : simpl never.
#[local] Arguments send_sip : simpl never.
#[local] Arguments recv_sip_fresh : simpl never.
#[local] Arguments requeue : simpl never.

Lemma loop_log_nil retransmit n : loop_log retransmit n [].
Proof. repeat split; simpl; [constructor|lia]. Qed.
Lemma loop_log_sent request e n ev :
  loop_log (Some (request, e)) n ev → loop_log (Some (request, e)) (S n) (EvSent request :: ev).
Proof. intros (HF & Hl & Hr). repeat split; simpl; [by constructor|lia|done]. Qed.
Lemma loop_log_received retransmit n f ev :
  transaction_matches expected f = true →
  loop_log retransmit n ev → loop_log retransmit n (EvReceived f :: ev).
Proof.
  intros Hm (HF & Hl & Hr). repeat split; [done..|]. simpl. rewrite filter_cons_False by congruence. done.
Qed.
Lemma loop_log_skipped retransmit n f ev :
  transaction_matches expected f = false →
  loop_log retransmit n ev → loop_log retransmit n (EvReceived f :: EvRequeued f :: ev).
Proof.
  intros Hm (HF & Hl & Hr). repeat split; [done..|]. simpl. rewrite filter_cons_True by done.
  unfold requeued_frames, received_frames in *. simpl. by rewrite Hr.
Qed.
Lemma loop_result_Err ev e : loop_result ev (Err e).
Proof. by intros ? [=]. Qed.
Lemma loop_result_sent request ev r : loop_result ev r → loop_result (EvSent request :: ev) r.
Proof. done. Qed.
Lemma loop_result_received f ev r : loop_result ev r → loop_result (EvReceived f :: ev) r.
Proof.
  intros Hr response Heq. destruct (Hr _ Heq) as (Hl & Hm). split; [|done].
  change (received_frames (EvReceived f :: ev)) with (f :: received_frames ev).
  by rewrite last_cons, Hl.
Qed.

Definition loop_post (retransmit : option (list Z * str)) (n : nat) c (enough : Prop)
    (out : Traced C * ims (list Z)) : Prop :=
  ∃ ev, tr_log out.1 = tr_log c ++ ev ∧ loop_log retransmit n ev ∧ loop_result ev out.2 ∧
    (enough → no_panic out.2).

Lemma loop_post_stop retransmit n c c1 enough r :
  tr_log c1 = tr_log c → no_panic r → (∀ v, r ≠ Ok v) → loop_post retransmit n c enough (c1, r).
Proof.
  intros Hl Hp Hr. exists []. cbn [fst snd]. rewrite app_nil_r. split; [done|].
  split; [apply loop_log_nil|]. split; [|done]. intros v ->. by destruct (Hr v).
Qed.
Lemma loop_post_end retransmit n c c1 enough r ev :
  tr_log c1 = tr_log c ++ ev → loop_log retransmit n ev → loop_result ev r → no_panic r →
  loop_post retransmit n c enough (c1, r).
Proof. intros. exists ev. by split_and!. Qed.
Lemma loop_post_fail retransmit n c c1 enough e ev :
  tr_log c1 = tr_log c ++ ev → loop_log retransmit n ev → loop_post retransmit n c enough (c1, Err e).
Proof. intros. eapply loop_post_end; [done..|apply loop_result_Err|done]. Qed.
(** Going on from [c1], which has logged [ev] since [c]. *)
Lemma loop_post_step retransmit n n1 c c1 (enough enough1 : Prop) out ev :
  tr_log c1 = tr_log c ++ ev → (enough → enough1) →
  (∀ ev', loop_log retransmit n1 ev' → loop_log retransmit n (ev ++ ev')) →
  (∀ ev' r, loop_result ev' r → loop_result (ev ++ ev') r) →
  loop_post retransmit n1 c1 enough1 out → loop_post retransmit n c enough out.
Proof.
  intros Hl He Hlog Hres (ev' & Hl' & Hlog' & Hres' & Hp). exists (ev ++ ev').
  rewrite Hl', Hl, <-app_assoc. split; [done|]. split; [by apply Hlog|]. split; [by apply Hres|].
  intros. by apply Hp, He.
Qed.

Lemma saturating_inc_small n : (0 ≤ n < 255)%Z → saturating_inc n = (n + 1)%Z.
Proof. unfold saturating_inc, sat_add, u8_max. lia. Qed.

(** The counters stay below their limits. *)
Definition counters_ok st : Prop :=
  (0 ≤ ignored_frames st ≤ 32 ∧ 0 ≤ provisional_count st ≤ 4)%Z.

Lemma on_frame_spec (continue : RecvState → Traced C → Traced C * ims (list Z))
    retransmit n deadline fuel st c c2 response :
  counters_ok st →
  (∀ st' c', counters_ok st' → retransmit_interval st' = retransmit_interval st →
    next_retransmit st' = next_retransmit st →
    loop_post retransmit n c' (loop_measure n deadline st' c' < fuel) (continue st' c')) →
  tr_log c2 = tr_log c ++ [EvReceived response] →
  (time (tr_chan c) ≤ time (tr_chan c2))%Z →
  loop_post retransmit n c (loop_measure n deadline st c < S fuel)
    (on_frame expected receive_error provisional_error continue st response c2).
Proof.
  intros [Hi Hpc] IH Hl2 Ht2. unfold on_frame. rewrite !saturating_inc_small by lia.
  destruct (transaction_matches expected response) eqn:Hm; simpl negb; cbv iota.
  - assert (loop_log retransmit n [EvReceived response]) as Hlog
      by (apply loop_log_received; [done|apply loop_log_nil]).
    pose proof (no_panic_parse_status response) as Hnp.
    destruct (parse_status response) as [status|e|] eqn:Hst; [|by eapply loop_post_fail|done].
    destruct (in_range 100 199 status) eqn:Hrange; simpl negb; cbv iota.
    2: { eapply loop_post_end; [done..| |done]. intros v [= <-]. eauto. }
    destruct (Z.ltb_spec MAX_REGISTER_PROVISIONAL_RESPONSES (provisional_count st + 1)) as [|Hlim];
      [by eapply loop_post_fail|]. unfold MAX_REGISTER_PROVISIONAL_RESPONSES in Hlim.
    eapply (loop_post_step _ _ n _ c2 _ _ _ [EvReceived response]); [done| | | |].
    4: { apply IH; [split; simpl; lia|done..]. }
    { unfold loop_measure. simpl. intros. repeat case_match; lia. }
    { intros. by apply loop_log_received. }
    { intros. by apply loop_result_received. }
  - destruct (requeue_traced response c2) as [Hl3 Ht3]. rewrite Hl2, <-app_assoc in Hl3. simpl in Hl3.
    destruct (Z.ltb_spec MAX_REGISTER_IGNORED_FRAMES (ignored_frames st + 1)) as [|Hlim].
    { eapply loop_post_fail; [done|]. apply loop_log_skipped; [done|apply loop_log_nil]. }
    unfold MAX_REGISTER_IGNORED_FRAMES in Hlim.
    eapply (loop_post_step _ _ n _ (requeue response c2) _ _ _ [EvReceived response; EvRequeued response]);
      [done| | | |].
    4: { apply IH; [split; simpl; lia|done..]. }
    { unfold loop_measure. simpl in *. intros. repeat case_match; lia. }
    { intros. by apply loop_log_skipped. }
    { intros. by apply loop_result_received. }
Qed.

Lemma recv_loop_spec fuel retransmit deadline n st c :
  counters_ok st →
  (is_Some retransmit → fits n (retransmit_interval st) (deadline - next_retransmit st)) →
  loop_post retransmit n c (loop_measure n deadline st c < fuel)
    (recv_loop expected receive_error provisional_error fuel retransmit deadline st c).
Proof.
  revert n st c. induction fuel as [|fuel IH]; intros n st c Hc Hfit; cbn [recv_loop].
  { exists []. rewrite app_nil_r. split; [done|]. split; [apply loop_log_nil|]. split; [done|lia]. }
  destruct (now c) as [c1 t] eqn:Hnow. apply now_traced in Hnow as [Hl1 [Ht1 Ht1']].
  destruct (Z.leb_spec deadline t); [by apply loop_post_stop|].
  destruct (bool_decide (is_Some retransmit) && (next_retransmit st <=? t)%Z) eqn:Hdue.
  - (* the retransmission is due *)
    apply andb_true_iff in Hdue as [[[request send_error] ->]%bool_decide_eq_true Hdue%Z.leb_le].
    specialize (Hfit ltac:(done)). destruct n as [|n]; simpl in Hfit; [lia|].
    destruct Hfit as [?|Hfit]; [lia|].
    destruct (send_sip request c1) as [c2 r] eqn:Hs. apply send_traced in Hs as (Hl2 & Ht2 & Hp).
    eapply (loop_post_step _ _ n _ c2 _ _ _ [EvSent request]); [by rewrite Hl2, Hl1| | | |].
    2: { intros ev' ?. by apply loop_log_sent. }
    2: { intros ev' r'. apply loop_result_sent. }
    2: { destruct r as [[]|e|]; [|by apply loop_post_stop|done]. apply IH; [done|].
         intros _. simpl. eapply fits_le; [|done]. lia. }
    unfold loop_measure. simpl. intros. repeat case_match; lia.
  - (* waiting for a frame *)
    set (wait_until := if bool_decide (is_Some retransmit) then _ else _).
    assert (t < wait_until)%Z as Hw.
    { subst wait_until. destruct (bool_decide (is_Some retransmit)); [|done].
      apply Z.leb_gt in Hdue. lia. }
    destruct (Z.eqb_spec (sat_sub wait_until t) 0); [unfold sat_sub in *; lia|].
    destruct (recv_sip_fresh _ c1) as [c2 r] eqn:Hr. apply recv_traced in Hr as (Hl2 & Ht2 & Hp).
    rewrite Hl1 in Hl2. destruct r as [response|e|]; [|rewrite app_nil_r in Hl2|done].
    + (* a frame *)
      apply on_frame_spec; [done| |exact Hl2|lia].
      intros st1 c3 Hc3 Hi3 Hn3. apply IH; [done|]. by rewrite Hi3, Hn3.
    + (* an error *)
      destruct (bool_decide (is_Some retransmit) && is_register_read_retryable e) eqn:He;
        [|by apply loop_post_stop].
      apply andb_true_iff in He as [Hudp _]. subst wait_until. rewrite Hudp in Hw.
      destruct (now c2) as [c3 t3] eqn:Hnow. apply now_traced in Hnow as [Hl3 [Ht3 Ht3']].
      set (c4 := if (sat_sub _ t3 =? 0)%Z then _ else _).
      assert (tr_log c4 = tr_log c ∧
        (Z.min deadline (next_retransmit st) ≤ time (tr_chan c4))%Z) as [Hl4 Ht4].
      { subst c4. destruct (Z.eqb_spec (sat_sub (Z.min deadline (next_retransmit st)) t3) 0) as [Hz|Hz];
          unfold sat_sub in *; [split; [congruence|lia]|].
        edestruct sleep_traced as [Hl4 Ht4]; [|split; [rewrite Hl4; congruence|]]; [|etrans; [|exact Ht4]]; lia. }
      eapply (loop_post_step _ _ n _ c4 _ _ _ []); [by rewrite app_nil_r| |done|done|by apply IH].
      unfold loop_measure. intros. repeat case_match; lia.
Qed.
End traced_loop.

(** The log observes the channel without changing what it does. *)
Section erasure.
Context {C : Type} `{ImsChannel C, Clock C}.
Context (expected : option RegisterTransactionKey) (receive_error provisional_error : str).

Definition erase {R} (out : Traced C * R) : C * R := (tr_chan out.1, out.2).

Lemma on_frame_erase (k : RecvState → Traced C → Traced C * ims (list Z))
    (k' : RecvState → C → C * ims (list Z)) st response c :
  (∀ st c, erase (k st c) = k' st (tr_chan c)) →
  erase (on_frame expected receive_error provisional_error k st response c) =
  on_frame expected receive_error provisional_error k' st response (tr_chan c).
Proof.
  intros Hk. unfold on_frame. destruct (negb (transaction_matches expected response)).
  - destruct (_ <? _)%Z; [done|]. by rewrite Hk.
  - destruct (parse_status response) as [status|e|]; [|done..].
    destruct (negb _); [done|]. destruct (_ <? _)%Z; [done|]. by rewrite Hk.
Qed.

Lemma recv_loop_erase fuel retransmit deadline st (c : Traced C) :
  erase (recv_loop expected receive_error provisional_error fuel retransmit deadline st c) =
  recv_loop expected receive_error provisional_error fuel retransmit deadline st (tr_chan c).
Proof.
  revert st c. induction fuel as [|fuel IH]; intros st c; [done|]. cbn [recv_loop].
  unfold now at 1, traced_clock at 1. destruct (now (tr_chan c)) as [c1 t].
  destruct (deadline <=? t)%Z; [done|].
  destruct (bool_decide (is_Some retransmit) && _).
  - destruct retransmit as [[request send_error]|]; [|done].
    unfold send_sip at 1, traced_channel at 1. cbn [tr_chan].
    destruct (send_sip request c1) as [c2 [[]|e|]]; [|done..]. by rewrite IH.
  - destruct (_ =? 0)%Z; [by rewrite IH|].
    unfold recv_sip_fresh at 1, traced_channel at 1. cbn [tr_chan].
    destruct (recv_sip_fresh _ c1) as [c2 [response|e|]]; [by apply on_frame_erase| |done].
    destruct (_ && is_register_read_retryable e); [|done].
    unfold now at 1, traced_clock at 1. cbn [tr_chan]. destruct (now c2) as [c3 t3].
    rewrite IH. by destruct (_ =? 0)%Z.
Qed.

Lemma recv_final_erase retransmit budget (c : Traced C) :
  erase (recv_final_register_response_loop expected receive_error provisional_error retransmit budget c) =
  recv_final_register_response_loop expected receive_error provisional_error retransmit budget (tr_chan c).
Proof.
  unfold recv_final_register_response_loop. generalize RECV_FUEL as fuel. intros fuel.
  unfold now at 1, traced_clock at 1. destruct (now (tr_chan c)) as [c1 t].
  unfold now at 1, traced_clock at 1. cbn [tr_chan]. destruct (now c1) as [c2 t2].
  by rewrite recv_loop_erase.
Qed.
End erasure.

Section transaction_lemmas.
Context {C : Type} `{ImsChannel C, Clock C, !ChannelLaws C}.

Lemma recv_final_spec expected receive_error provisional_error retransmit n (c : Traced C) :
  (is_Some retransmit → fits n REGISTER_T1 (REGISTER_TIMEOUT - REGISTER_T1)) → n ≤ 10 →
  loop_post expected retransmit n c True
    (recv_final_register_response_loop expected receive_error provisional_error retransmit
       REGISTER_TIMEOUT c).
Proof.
  intros Hfit Hn. unfold recv_final_register_response_loop.
  destruct (now c) as [c1 t1] eqn:H1. apply now_traced in H1 as [Hl1 Ht1].
  destruct (now c1) as [c2 t2] eqn:H2. apply now_traced in H2 as [Hl2 Ht2].
  eapply (loop_post_step _ _ _ n _ c2 _ _ _ []); [by rewrite app_nil_r, Hl2| |done|done|].
  2: { apply recv_loop_spec; [unfold counters_ok; simpl; lia|]. intros Hs. simpl.
       eapply fits_le; [|by apply Hfit]. lia. }
  intros _. unfold loop_measure, RECV_FUEL. cbn [ignored_frames provisional_count].
  case_match; simpl; lia.
Qed.

Lemma send_register_and_receive_spec request send_error receive_error provisional_error (c : Traced C) n :
  (∀ c : C, route_is_udp c = true → n = 10) → n = 0 ∨ n = 10 →
  let '(c', r) := send_register_and_receive request send_error receive_error provisional_error c in
  ∃ ev, tr_log c' = tr_log c ++ EvSent request :: ev ∧
    Forall (eq request) (sent_frames ev) ∧ length (sent_frames ev) ≤ n ∧
    requeued_frames ev = filter (λ f, transaction_matches (from_register_request request) f = false)
                           (received_frames ev) ∧
    loop_result (from_register_request request) ev r ∧ no_panic r.
Proof.
  intros Hudp Hn. unfold send_register_and_receive.
  destruct (send_sip request c) as [c1 r1] eqn:Hs. apply send_traced in Hs as (Hl1 & Ht1 & Hp1).
  assert (∀ e, ∃ ev, tr_log c1 = tr_log c ++ EvSent request :: ev ∧
    Forall (eq request) (sent_frames ev) ∧ length (sent_frames ev) ≤ n ∧
    requeued_frames ev = filter (λ f, transaction_matches (from_register_request request) f = false)
                           (received_frames ev) ∧
    loop_result (from_register_request request) ev (Err e) ∧ no_panic (A:=list Z) (Err e)) as Hstop.
  { intros e. exists []. split_and!; [done|constructor|simpl; lia|done|by intros ? [=]|done]. }
  destruct r1 as [[]|e|]; [|by apply Hstop|done].
  set (retransmit := if route_is_udp c1 then _ else _).
  assert (is_Some retransmit → n = 10) as Hret.
  { subst retransmit. destruct (route_is_udp c1) eqn:Hu; [|by intros [? [=]]]. intros _. by apply (Hudp (tr_chan c1)). }
  pose proof (recv_final_spec (from_register_request request) receive_error provisional_error
                retransmit n c1) as Hspec.
  destruct Hspec as (ev & Hl & (Hsent & Hlen & Hreq) & Hres & Hp);
    [intros ->%Hret; apply fits_timer_e|lia|].
  destruct (recv_final_register_response_loop _ _ _ retransmit _ c1) as [c' r]. simpl in *.
  exists ev. split_and!; [by rewrite Hl, Hl1, <-app_assoc| |done..|by apply Hp].
  eapply Forall_impl; [exact Hsent|]. intros f. subst retransmit.
  cbn. destruct (route_is_udp (tr_chan c1)); [by intros [= ->]|done].
Qed.

Lemma send_register_and_receive_no_panic request send_error receive_error provisional_error (c : C) :
  no_panic (send_register_and_receive request send_error receive_error provisional_error c).2.
Proof.
  unfold send_register_and_receive. pose proof (send_no_panic request c) as Hp.
  destruct (send_sip request c) as [c1 r]. destruct r as [[]|e|]; [|done..].
  change c1 with (tr_chan (mkTraced c1 [])) at 2. rewrite <-recv_final_erase.
  edestruct recv_final_spec as (ev & _ & _ & _ & Hp'); [intros _; apply fits_timer_e|done|].
  by apply Hp'.
Qed.
End transaction_lemmas.

(** The methods of an authenticator return. *)
Class AuthenticatorLaws (C A : Type) `{RegisterAuthenticator C A} : Prop := {
  validate_request_returns a r : no_panic (validate_request (C:=C) a r);
  validate_success_returns a r : no_panic (validate_success (C:=C) a r);
  exchange_returns r n (c : C) (a : A) : no_panic (exchange_authenticated r n c a).2;
  prepare_returns r (c : C) (a : A) : no_panic (prepare_authenticated_channel r c a).2;
  authenticated_request_returns r n a : no_panic (authenticated_request (C:=C) r n a).2;
  rebuild_returns r n m b a : no_panic (rebuild_register_with_min_expires (C:=C) r n m b a).2;
}.

Section driver_lemmas.
Context {C A : Type} `{ImsChannel C, Clock C, !ChannelLaws C, RegisterAuthenticator C A,
                       !AuthenticatorLaws C A}.

Definition step_returns {R} (m : step (C:=C) (A:=A) R) : Prop := ∀ s, no_panic (m s).2.

Lemma step_bind_returns {R S} (m : step R) (k : R → step S) :
  step_returns m → (∀ r, step_returns (k r)) → step_returns (step_bind m k).
Proof.
  intros Hm Hk s. unfold step_bind. specialize (Hm s). destruct (m s) as [s' [r|e|]]; [apply Hk|done..].
Qed.
Lemma send_stage_returns authenticated request : step_returns (send_stage authenticated request).
Proof.
  intros [c a]. unfold send_stage, step_chan. destruct (stage_errors authenticated) as [[send recv] unexp].
  pose proof (send_register_and_receive_no_panic request send recv unexp c) as Hp.
  by destruct (send_register_and_receive _ _ _ _ c).
Qed.
Lemma step_auth_returns {R} (f : A → A * ims R) :
  (∀ a, no_panic (f a).2) → step_returns (step_auth f).
Proof. intros Hf [c a]. unfold step_auth. specialize (Hf a). by destruct (f a). Qed.
Lemma challenge_round_returns response cseq : step_returns (challenge_round response cseq).
Proof.
  apply step_bind_returns; [intros [c a]; apply exchange_returns|]. intros [access_response|]; [done|].
  apply step_bind_returns; [intros [c a]; apply prepare_returns|]. intros _.
  apply step_bind_returns; [apply step_auth_returns; intros; apply authenticated_request_returns|].
  intros request. apply step_bind_returns; [intros [c a]; apply validate_request_returns|].
  intros _. apply send_stage_returns.
Qed.
Lemma min_expires_round_returns response cseq m authenticated :
  step_returns (min_expires_round response cseq m authenticated).
Proof.
  apply step_bind_returns; [apply step_auth_returns; intros; apply rebuild_returns|].
  intros request. apply step_bind_returns; [intros [c a]; apply validate_request_returns|].
  intros _. apply send_stage_returns.
Qed.

Lemma no_panic_parse_min_expires response : no_panic (parse_min_expires response).
Proof.
  unfold parse_min_expires. destruct (header_values _ _) as [|v [|]]; [done| |done].
  destruct (_ || _); [done|]. apply no_panic_bind; [apply no_panic_ok_or|]. intros n _.
  by destruct (n =? 0)%Z, (MIN_EXPIRES_CAP <? n)%Z.
Qed.
Lemma parse_min_expires_range response n :
  parse_min_expires response = Ok n → (1 ≤ n ≤ MIN_EXPIRES_CAP)%Z.
Proof.
  unfold parse_min_expires. destruct (header_values _ _) as [|v [|]]; [done| |done].
  destruct (bool_decide _ || _); [done|]. intros (p & Hp%ok_or_Ok & Hn)%bind_Ok.
  apply parse_unsigned_range in Hp; [|done]. revert Hn.
  destruct (Z.eqb_spec p 0); [done|]. destruct (Z.ltb_spec MIN_EXPIRES_CAP p); [done|].
  intros [= <-]. lia.
Qed.

(** What a 423 does to the budget. *)
Lemma negotiate_min_expires_spec allow response b b' r :
  negotiate_min_expires allow response b = (b', r) →
  observed b' = true ∧ no_panic r ∧
  (rounds b' = rounds b ∧ minimum b' = minimum b ∧ (∃ e, r = Err e) ∨
   allow = true ∧ (rounds b < MAX_MIN_EXPIRES_ROUNDS)%Z ∧ rounds b' = (rounds b + 1)%Z ∧
   ∃ m, r = Ok m ∧ minimum b' = Some m ∧ (1 ≤ m ≤ MIN_EXPIRES_CAP)%Z ∧
        ∀ previous, minimum b = Some previous → (previous < m)%Z).
Proof.
  unfold negotiate_min_expires, negotiate, with_observed. cbn [rounds minimum].
  destruct allow; [|intros [= <- <-]; split_and!; [done..|left; eauto]].
  destruct (Z.leb_spec MAX_MIN_EXPIRES_ROUNDS (rounds b));
    [intros [= <- <-]; split_and!; [done..|left; eauto]|].
  pose proof (no_panic_parse_min_expires response) as Hnp.
  destruct (parse_min_expires response) as [m|e|] eqn:Hm;
    [|intros [= <- <-]; split_and!; [done..|left; eauto]|done].
  destruct (match minimum b with Some _ => _ | None => _ end) eqn:Hprev; intros [= <- <-];
    (split_and!; [done..|]); [left; by eauto|]. right. split_and!; [done..|].
  exists m. apply parse_min_expires_range in Hm. split_and!; [done..|lia|lia|].
  intros previous Hb. rewrite Hb in Hprev. lia.
Qed.

(** How the budget may evolve during an exchange. *)
Definition budget_le (allow : bool) (b b' : RegisterNegotiationBudget) : Prop :=
  (observed b = true → observed b' = true) ∧
  (rounds b ≤ rounds b' ≤ Z.max (rounds b) MAX_MIN_EXPIRES_ROUNDS)%Z ∧
  (allow = false → rounds b' = rounds b) ∧
  (∀ m, minimum b = Some m → ∃ m', minimum b' = Some m' ∧ (m ≤ m')%Z).
Lemma budget_le_refl allow b : budget_le allow b b.
Proof. split_and!; [done|lia|lia|done|]. eauto with lia. Qed.
Lemma budget_le_trans allow b1 b2 b3 : budget_le allow b1 b2 → budget_le allow b2 b3 → budget_le allow b1 b3.
Proof.
  intros (Ho & Hr & Hf & Hm) (Ho' & Hr' & Hf' & Hm'). split_and!; [by auto|lia|lia|..].
  - intros Ha. by rewrite Hf', Hf.
  - intros m (m2 & H2 & ?)%Hm. apply Hm' in H2 as (m3 & ? & ?). eauto with lia.
Qed.
Lemma negotiate_budget_le allow response b b' r :
  negotiate_min_expires allow response b = (b', r) → budget_le allow b b'.
Proof.
  intros (Ho & _ & [(Hr & Hm & _)|(-> & Hlt & Hr & m & _ & Hm & _ & Hprev)])%negotiate_min_expires_spec;
    (split_and!; [done|rewrite Hr; unfold MAX_MIN_EXPIRES_ROUNDS in *; lia..|try done|]).
  - rewrite Hm. eauto with lia.
  - intros previous Hb. apply Hprev in Hb. eauto with lia.
Qed.

(** An accepted registration: a final 2xx the authenticator validated. *)
Definition accepted_by (a : A) (v : RegisterResult) : Prop :=
  (∃ status, parse_status (res_response v) = Ok status ∧ (200 ≤ status ≤ 299)%Z) ∧
  validate_success (C:=C) a (res_response v) = Ok tt ∧
  (0 ≤ res_auth_rounds v ≤ MAX_AUTH_ROUNDS)%Z ∧
  res_authenticated v = (0 <? res_auth_rounds v)%Z.
Definition exchange_post (allow : bool) (b : RegisterNegotiationBudget) (enough : Prop)
    (out : World (C:=C) (A:=A) * res RegisterFailure RegisterResult) : Prop :=
  budget_le allow b (w_budget out.1) ∧
  (∀ v, out.2 = Ok v → accepted_by (w_chan_auth out.1).2 v) ∧
  (∀ f, out.2 = Err f → (0 ≤ fail_auth_rounds f ≤ MAX_AUTH_ROUNDS)%Z ∧
     (failure_sip_status f = Some 423%Z → observed (w_budget out.1) = true)) ∧
  (enough → no_panic out.2).

Lemma exchange_post_fail allow b w enough f :
  budget_le allow b (w_budget w) → (0 ≤ fail_auth_rounds f ≤ MAX_AUTH_ROUNDS)%Z →
  (failure_sip_status f = Some 423%Z → observed (w_budget w) = true) →
  exchange_post allow b enough (w, Err f).
Proof. intros. split_and!; [done|done| |done]. by intros ? [= <-]. Qed.

Lemma exchange_post_le allow b b' enough enough' out :
  budget_le allow b b' → (enough → enough') → exchange_post allow b' enough' out →
  exchange_post allow b enough out.
Proof.
  intros Hb He (Hb' & Hok & Hf & Hp). split_and!; [by eapply budget_le_trans|done|done|tauto].
Qed.

(** One more round: its failure keeps the response, its success goes on. *)
Lemma continue_with_spec allow b enough response auth_rounds k budget (m : step (list Z)) s :
  step_returns m → budget_le allow b budget → (0 ≤ auth_rounds ≤ MAX_AUTH_ROUNDS)%Z →
  (parse_status response = Ok 423%Z → observed budget = true) →
  (∀ response' s', exchange_post allow b enough (k response' (mkWorld s' budget))) →
  exchange_post allow b enough (continue_with response auth_rounds k budget (m s)).
Proof.
  intros Hm Hb Ha H423 Hk. specialize (Hm s). unfold continue_with.
  destruct (m s) as [s' [response'|e|]]; [apply Hk| |done].
  apply exchange_post_fail; [done..|]. unfold failure_sip_status. simpl.
  destruct (parse_status response) as [status|e'|]; simpl; [|done..].
  case_match; [|done]. intros [= ->]. by apply H423.
Qed.

Definition exchange_measure (auth_rounds : Z) (b : RegisterNegotiationBudget) : nat :=
  Z.to_nat (MAX_AUTH_ROUNDS - auth_rounds) + Z.to_nat (MAX_MIN_EXPIRES_ROUNDS - rounds b).

Lemma exchange_loop_spec fuel allow auth_rounds response w :
  (0 ≤ auth_rounds ≤ MAX_AUTH_ROUNDS)%Z →
  exchange_post allow (w_budget w) (exchange_measure auth_rounds (w_budget w) < fuel)
    (exchange_loop fuel allow auth_rounds response w).
Proof.
  revert auth_rounds response w. induction fuel as [|fuel IH]; intros auth_rounds response [s b] Ha;
    cbn [exchange_loop w_budget w_chan_auth].
  { split_and!; [apply budget_le_refl|done|done|lia]. }
  assert (∀ e status, parse_status response = Ok status → status ≠ 423%Z →
    exchange_post allow b (exchange_measure auth_rounds b < S fuel)
      (mkWorld s b, Err (mkFailure e (Some response) auth_rounds))) as Hfail.
  { intros e status Hst Hne. apply exchange_post_fail; [apply budget_le_refl|done|].
    unfold failure_sip_status. simpl. rewrite Hst. simpl. case_match; [|done]. by intros [= ?]. }
  pose proof (no_panic_parse_status response) as Hnp.
  destruct (parse_status response) as [status|e|] eqn:Hst; [|..|done].
  2: { apply exchange_post_fail; [apply budget_le_refl|done|].
       unfold failure_sip_status. simpl. by rewrite Hst. }
  destruct (in_range 200 299 status) eqn:H2xx; [apply in_range_true in H2xx|].
  { pose proof (validate_success_returns (C:=C) s.2 response).
    destruct (validate_success _ response) as [[]|e|] eqn:Hv; [|by eapply Hfail; [done|lia]|done].
    split_and!; [apply budget_le_refl| |done|done]. intros v [= <-].
      split_and!; [by exists status|exact Hv|simpl; lia|simpl; lia|done]. }
  destruct (one_of [401; 407]%Z status) eqn:Hauth.
  { assert (status ≠ 423%Z) by (intros ->; done).
    destruct (Z.ltb_spec auth_rounds MAX_AUTH_ROUNDS); [|by eapply Hfail].
    apply continue_with_spec; [apply challenge_round_returns|apply budget_le_refl|lia|congruence|].
    intros response' s'. eapply exchange_post_le; [apply budget_le_refl| |apply (IH _ _ (mkWorld s' _)); lia].
    unfold exchange_measure. cbn [w_budget]. lia. }
  destruct (Z.eqb_spec status 423) as [->|Hne]; [|by eapply Hfail].
  destruct (negotiate_min_expires allow response b) as [b' r] eqn:Hneg.
  pose proof (negotiate_budget_le _ _ _ _ _ Hneg) as Hle.
  apply negotiate_min_expires_spec in Hneg as (Ho & Hp & Hcase).
  destruct r as [m|e|]; [|by apply exchange_post_fail|done].
  destruct Hcase as [(_ & _ & e & [=])|(_ & Hlt & Hr & _)].
  apply continue_with_spec; [apply min_expires_round_returns|done..|].
  intros response' s'. eapply exchange_post_le; [exact Hle| |by apply (IH _ _ (mkWorld s' _))].
  unfold exchange_measure. cbn [w_budget]. rewrite Hr. lia.
Qed.

Lemma run_register_exchange_spec request allow w :
  (0 ≤ rounds (w_budget w))%Z →
  let '(w', r) := run_register_exchange request allow w in
  no_panic r ∧
  (observed (w_budget w) = true → observed (w_budget w') = true) ∧
  (rounds (w_budget w) ≤ rounds (w_budget w') ≤ Z.max (rounds (w_budget w)) MAX_MIN_EXPIRES_ROUNDS)%Z ∧
  (allow = false → rounds (w_budget w') = rounds (w_budget w)) ∧
  (∀ v, r = Ok v → accepted_by (w_chan_auth w').2 v) ∧
  (∀ f, r = Err f → (0 ≤ fail_auth_rounds f ≤ MAX_AUTH_ROUNDS)%Z ∧
     (failure_sip_status f = Some 423%Z → observed (w_budget w') = true)).
Proof.
  intros Hr. unfold run_register_exchange. set (expires := (value ← header_value _ _; _)).
  cbn [w_chan_auth w_budget]. set (b := mkBudget _ _ expires).
  set (first := step_bind _ _). assert (step_returns first) as Hs.
  { apply step_bind_returns; [intros [c a]; apply validate_request_returns|].
    intros _. apply send_stage_returns. }
  specialize (Hs (w_chan_auth w)). destruct (first (w_chan_auth w)) as [s [response|e|]]; [| |done].
  - pose proof (exchange_loop_spec EXCHANGE_FUEL allow 0 response (mkWorld s b) ltac:(done))
      as (Hle & Hok & Hf & Hp).
    destruct (exchange_loop _ _ _ _ _) as [w' r]. destruct Hle as (? & ? & ? & _). simpl in *.
    split_and!; [|done|lia|lia|done..]. apply Hp. unfold exchange_measure, EXCHANGE_FUEL.
    change (rounds b) with (rounds (w_budget w)).
    unfold MAX_AUTH_ROUNDS, MAX_MIN_EXPIRES_ROUNDS. lia.
  - split_and!; [done|done|simpl; lia|simpl; lia|done|done|]. intros f [= <-]. simpl. split; [done|done].
Qed.
End driver_lemmas.

(** The floors accepted from a sequence of 423 responses. *)
Fixpoint negotiate_all (responses : list (list Z)) (b : RegisterNegotiationBudget)
    : RegisterNegotiationBudget * list Z :=
  match responses with
  | [] => (b, [])
  | response :: responses =>
    let '(b, r) := negotiate response b in
    let '(b, floors) := negotiate_all responses b in
    (b, match r with Ok m => m :: floors | _ => floors end)
  end.

Lemma negotiate_spec response b :
  let '(b', r) := negotiate response b in
  observed b' = true ∧
  (rounds b' = rounds b ∧ minimum b' = minimum b ∧ (∀ m, r ≠ Ok m) ∨
   (rounds b < MAX_MIN_EXPIRES_ROUNDS)%Z ∧ rounds b' = (rounds b + 1)%Z ∧
   ∃ m, r = Ok m ∧ minimum b' = Some m ∧ (1 ≤ m ≤ MIN_EXPIRES_CAP)%Z ∧
        ∀ previous, minimum b = Some previous → (previous < m)%Z).
Proof.
  assert (negotiate response b = negotiate_min_expires true response b) as -> by reflexivity.
  destruct (negotiate_min_expires true response b) as [b' r] eqn:Hn.
  apply negotiate_min_expires_spec in Hn as (Ho & _ & [(? & ? & e & ->)|(_ & ? & ? & Hm)]);
    (split; [done|]); [left|right]; split_and!; done.
Qed.

Lemma negotiate_all_spec responses b :
  let '(b', floors) := negotiate_all responses b in
  (observed b = true ∨ responses ≠ [] → observed b' = true) ∧
  (rounds b' = rounds b + Z.of_nat (length floors))%Z ∧
  (rounds b ≤ MAX_MIN_EXPIRES_ROUNDS → rounds b' ≤ MAX_MIN_EXPIRES_ROUNDS)%Z ∧
  Forall (λ m, 1 ≤ m ≤ MIN_EXPIRES_CAP)%Z floors ∧
  StronglySorted Z.lt floors ∧
  (∀ previous, minimum b = Some previous → Forall (Z.lt previous) floors).
Proof.
  revert b. induction responses as [|response responses IH]; intros b; simpl.
  { split_and!; [tauto|simpl; lia|done|constructor|constructor|constructor]. }
  pose proof (negotiate_spec response b) as Hn. destruct (negotiate response b) as [b1 r].
  destruct Hn as [Ho Hcase]. specialize (IH b1). destruct (negotiate_all responses b1) as [b' floors].
  destruct IH as (Ho' & Hr' & Hmax & Hrange & Hsort & Hprev).
  destruct Hcase as [(Hr & Hm & Hne)|(Hlt & Hr & m & -> & Hm & Hmr & Hmp)].
  - assert (match r with Ok m => m :: floors | _ => floors end = floors) as ->
      by (destruct r; [by edestruct Hne|done..]).
    rewrite Hr in *. split_and!; [auto|done..|]. by rewrite <-Hm.
  - split_and!; [auto|simpl; lia|intros; apply Hmax; unfold MAX_MIN_EXPIRES_ROUNDS in *; lia|by constructor|..].
    + constructor; [done|]. by apply Hprev.
    + intros previous Hp. apply Hmp in Hp. constructor; [done|].
      eapply Forall_impl; [by apply Hprev|]. simpl. lia.
Qed.

(** ** The fallback gate *)
Lemma code_in_elem code codes : code_in code codes = true ↔ code ∈ codes.
Proof.
  unfold code_in. rewrite existsb_exists. split.
  - intros (x & Hx & ->%str_eqb_eq). by apply list_elem_of_In.
  - intros Hc%list_elem_of_In. exists code. by rewrite str_eqb_refl.
Qed.

(** The codes of final responses, but one, name a later stage or a refused lease. *)
Definition code_excluded (code : str) : bool :=
  starts_with code (lit "ims_register_authenticated_") || str_eqb code (lit "ims_register_auth_rejected")
  || (contains_str code (lit "_min_expires_")
      && (ends_with code (lit "_invalid") || ends_with code (lit "_unsupported")
          || ends_with code (lit "_exhausted"))).
Lemma final_codes_excluded code :
  code_in code final_response_codes = true →
  code = lit "ims_register_initial_unexpected_status" ∨ code_excluded code = true.
Proof.
  assert (Forall (λ c, (str_eqb c (lit "ims_register_initial_unexpected_status") || code_excluded c) = true)
            final_response_codes) as Hall by (apply (bool_decide_unpack _); vm_compute; exact I).
  rewrite Forall_forall in Hall. intros Hc%code_in_elem%Hall%orb_true_iff.
  destruct Hc as [?%str_eqb_eq|?]; [by left|by right].
Qed.

(** Only one error code can lead to a compatibility retry. *)
Lemma negotiation_code f :
  failure_kind f = Negotiation → failure_stage f = StageInitial → failure_min_expires f = None →
  fail_error f = lit "ims_register_initial_unexpected_status".
Proof.
  unfold failure_kind, failure_stage, failure_min_expires. generalize (fail_error f) as code.
  intros code. destruct (starts_with code (lit "digest_response_auth_")); [done|].
  destruct (code_in code transport_codes); [done|]. destruct (code_in code flow_codes); [done|].
  destruct (code_in code final_response_codes) eqn:Hc; [|done]. intros _.
  apply final_codes_excluded in Hc as [?|Hc]; [done|]. unfold code_excluded in Hc.
  destruct (starts_with code _); [done|]. destruct (str_eqb code _); [done|].
  destruct (contains_str code _); [|done].
  destruct (ends_with code (lit "_invalid")); [done|].
  by destruct (ends_with code (lit "_unsupported")), (ends_with code (lit "_exhausted")).
Qed.

Lemma unexpected_status_kind f status :
  fail_error f = lit "ims_register_initial_unexpected_status" →
  failure_sip_status f = Some status → status_permits_register_variant_fallback status = true →
  (fail_auth_rounds f ≤ 0)%Z →
  failure_kind f = Negotiation ∧ failure_stage f = StageInitial ∧ failure_min_expires f = None.
Proof.
  intros He Hst Hs Ha. unfold failure_kind, failure_min_expires.
  assert (failure_stage f = StageInitial) as Hstage.
  { unfold failure_stage. rewrite He. replace (0 <? fail_auth_rounds f)%Z with false by lia. reflexivity. }
  rewrite Hst, He, Hstage. unfold final_response_kind, status_permits_register_variant_fallback, one_of in *.
  cbn [existsb] in *. rewrite !orb_true_iff, !Z.eqb_eq in Hs.
  destruct Hs as [->|[->|[->|[->|[->|[=]]]]]]; vm_compute; done.
Qed.

(** ** A scripted channel and authenticator

    The inbox holds the frames that arrive and the pauses between them. *)
Record Script := mkScript { sc_time : Z; sc_udp : bool; sc_inbox : list (Z * list Z) }.
#[export] Instance script_channel : ImsChannel Script := {
  send_sip frame c := (c, Ok tt);
  recv_sip_fresh d c :=
    match sc_inbox c with
    | (pause, frame) :: inbox =>
      if (pause <=? d)%Z
      then (mkScript (sc_time c + Z.max 0 pause) (sc_udp c) inbox, Ok frame)
      else (mkScript (sc_time c + Z.max 0 d) (sc_udp c) ((pause - d, frame)%Z :: inbox),
            Err (lit "ims_channel_read_timeout"))
    | [] => (mkScript (sc_time c + Z.max 0 d) (sc_udp c) [], Err (lit "ims_channel_read_timeout"))
    end;
  requeue frame c := c;
  route_is_udp c := sc_udp c;
}.
#[export] Instance script_clock : Clock Script := {
  now c := (c, sc_time c);
  sleep d c := mkScript (sc_time c + d) (sc_udp c) (sc_inbox c);
  system_time c := sc_time c;
}.
#[export] Instance script_laws : ChannelLaws Script.
Proof.
  refine {| time := sc_time |}; simpl; try (intros; lia); try done.
  - intros d c. destruct (sc_inbox c) as [|[pause frame] inbox]; simpl; [lia|].
    case_match; simpl; lia.
  - intros d c. destruct (sc_inbox c) as [|[pause frame] inbox]; [done|]. by case_match.
Defined.

(** An authenticator that answers a challenge with a fixed request. *)
Record Fixed := mkFixed { fx_request : list Z }.
#[export] Instance fixed_authenticator {C} : RegisterAuthenticator C Fixed := {
  validate_request a r := Ok tt;
  validate_success a r := Ok tt;
  exchange_authenticated r n c a := (c, a, Ok None);
  prepare_authenticated_channel r c a := (c, a, Ok tt);
  authenticated_request r n a := (a, Ok (fx_request a));
  rebuild_register_with_min_expires r n m b a := (a, Ok (fx_request a));
}.
#[export] Instance fixed_laws {C} : AuthenticatorLaws C Fixed.
Proof. by constructor. Qed.

Definition frame_of (ls : list str) : list Z := message ls [].
Definition example_request : list Z :=
  frame_of [lit "REGISTER sip:ims SIP/2.0"; lit "Call-ID: a"; lit "CSeq: 1 REGISTER"].
Definition example_response (status : str) : list Z :=
  frame_of [lit "SIP/2.0 " ++ status; lit "Call-ID: a"; lit "CSeq: 1 REGISTER"].
Definition example_script (udp : bool) : Script :=
  mkScript 0 udp [(100, frame_of [lit "NOTIFY sip:ue SIP/2.0"; lit "Call-ID: b"; lit "CSeq: 7 NOTIFY"]);
                  (2000, example_response (lit "100 Trying"));
                  (600, example_response (lit "401 Unauthorized"));
                  (1000, example_response (lit "200 OK"))]%Z.

(** * Properties *)

(** C11: a REGISTER transaction over any channel ends with an answer.  The same
    request is transmitted at least once and at most eleven times, once only off
    UDP; every frame that is not a response of this transaction is handed back, in
    order; a returned frame is the last one received, belongs to the transaction
    and is final. *)
Theorem register_transaction_bounded {C} `{!ImsChannel C, !Clock C, !ChannelLaws C}
    request send_error receive_error provisional_error (c : C) :
  let '(c', r) := send_register_and_receive request send_error receive_error provisional_error
                    (mkTraced c []) in
  let l := tr_log c' in
  no_panic r ∧
  Forall (eq request) (sent_frames l) ∧ 1 ≤ length (sent_frames l) ≤ 11 ∧
  ((∀ c : C, route_is_udp c = false) → sent_frames l = [request]) ∧
  requeued_frames l =
    filter (λ f, transaction_matches (from_register_request request) f = false) (received_frames l) ∧
  ∀ response, r = Ok response →
    last (received_frames l) = Some response ∧
    transaction_matches (from_register_request request) response = true ∧
    ∃ status, parse_status response = Ok status ∧ in_range 100 199 status = false.
Proof.
  pose proof (send_register_and_receive_spec request send_error receive_error provisional_error
                (mkTraced c []) 10 ltac:(done) ltac:(by right)) as Hspec.
  pose proof (send_register_and_receive_spec request send_error receive_error provisional_error
                (mkTraced c []) 0) as Htcp.
  destruct (send_register_and_receive _ _ _ _ _) as [c' r].
  destruct Hspec as (ev & Hl & Hall & Hlen & Hreq & Hres & Hp). cbn [tr_log app] in *. rewrite Hl.
  change (sent_frames (EvSent request :: ev)) with (request :: sent_frames ev).
  split_and!; [done|by constructor|simpl; lia|simpl; lia| |done|done].
  intros Hno. destruct Htcp as (ev' & Hl' & _ & Hlen' & _);
    [intros c0 Hc0; by rewrite Hno in Hc0|by left|].
  rewrite Hl in Hl'. injection Hl' as <-. by destruct (sent_frames ev); [|simpl in Hlen'; lia].
Qed.

Lemma register_transaction_bounded_witness :
  let '(c', r) := send_register_and_receive example_request (lit "s") (lit "r") (lit "p")
                    (mkTraced (example_script true) []) in
  r = Ok (example_response (lit "401 Unauthorized")) ∧ length (sent_frames (tr_log c')) ≤ 11.
Proof.
  pose proof (register_transaction_bounded example_request (lit "s") (lit "r") (lit "p")
                (example_script true)) as Hw.
  assert ((send_register_and_receive example_request (lit "s") (lit "r") (lit "p")
             (mkTraced (example_script true) [])).2 = Ok (example_response (lit "401 Unauthorized"))) as Hr
    by (vm_compute; reflexivity).
  destruct (send_register_and_receive _ _ _ _ _) as [c' r].
  split; [exact Hr|]. apply Hw.
Defined.

(** C19: the exchange always ends, after at most two challenge rounds and two
    423 rounds, with a registration or a failure.  A registration is a 2xx
    response the authenticator validated, marked authenticated exactly when a
    challenge was answered. *)
Theorem register_exchange_outcome {C A}
    `{!ImsChannel C, !Clock C, !ChannelLaws C, !RegisterAuthenticator C A, !AuthenticatorLaws C A}
    request (s : C * A) :
  let '(w, r) := run_register_observed request s in
  (0 ≤ rounds (w_budget w) ≤ MAX_MIN_EXPIRES_ROUNDS)%Z ∧
  match r with
  | Ok v => accepted_by (C:=C) (w_chan_auth w).2 v
  | Err f => (0 ≤ fail_auth_rounds f ≤ MAX_AUTH_ROUNDS)%Z ∧
             (failure_sip_status f = Some 423%Z → permits_candidate_expansion (w_budget w) = false)
  | Panic => False
  end.
Proof.
  unfold run_register_observed, run_register_observed_with_budget. cbn [w_budget observed].
  change (negb (permits_candidate_expansion budget_default)) with false. cbv iota.
  set (allow := negb _).
  pose proof (run_register_exchange_spec (C:=C) (A:=A) request allow (mkWorld s budget_default)
                ltac:(done)) as Hspec.
  destruct (run_register_exchange _ _ _) as [w r].
  destruct Hspec as (Hp & _ & Hr & _ & Hok & Hf). cbn [w_budget rounds budget_default] in Hr.
  split; [unfold MAX_MIN_EXPIRES_ROUNDS in *; lia|].
  destruct r as [v|f|]; [by apply Hok| |done].
  destruct (Hf f eq_refl) as [Ha Ho]. split; [done|]. intros H423%Ho.
  unfold permits_candidate_expansion. by rewrite H423.
Qed.

Lemma register_exchange_outcome_witness :
  let '(w, r) := run_register_observed example_request (example_script true, mkFixed example_request) in
  accepted_by (C:=Script) (w_chan_auth w).2
    (mkResult (example_response (lit "200 OK")) true 1 3700)
  ∧ r = Ok (mkResult (example_response (lit "200 OK")) true 1 3700).
Proof.
  pose proof (register_exchange_outcome example_request (example_script true, mkFixed example_request)) as Hw.
  destruct (run_register_observed _ _) as [w r] eqn:Hr. vm_compute in Hr. injection Hr as <- <-.
  destruct Hw as [_ Hw]. split; [exact Hw|vm_compute; reflexivity].
Defined.

(** Whatever 423 responses arrive, the accepted lease floors strictly
    increase, start above the offered lease, stay between one second and a day,
    and at most two are accepted; after the first 423 no other candidate may be
    tried. *)
Theorem lease_negotiation_bounded responses offered :
  let '(b, floors) := negotiate_all responses (mkBudget false 0 offered) in
  StronglySorted Z.lt (match offered with Some e => [e] | None => [] end ++ floors) ∧
  Forall (λ m, 1 ≤ m ≤ MIN_EXPIRES_CAP)%Z floors ∧ length floors ≤ 2 ∧
  (responses ≠ [] → permits_candidate_expansion b = false).
Proof.
  pose proof (negotiate_all_spec responses (mkBudget false 0 offered)) as Hspec.
  destruct (negotiate_all _ _) as [b floors]. destruct Hspec as (Ho & Hr & Hmax & Hrange & Hsort & Hprev).
  cbn [rounds minimum] in *. unfold MAX_MIN_EXPIRES_ROUNDS in *.
  split_and!; [|done|lia|].
  - destruct offered as [e|]; simpl; [|done]. constructor; [done|by apply Hprev].
  - intros Hne. unfold permits_candidate_expansion. by rewrite Ho by tauto.
Qed.

(** The compatibility ladder.  The metadata of a failure is always derived,
    and a different request shape may be tried exactly when no 423 was seen, no
    challenge was answered, the last response is one of the five header
    compatibility statuses and it carries no Retry-After at all. *)
Theorem variant_fallback_gate {E} budget f :
  ∃ m, failure_metadata (E:=E) budget f = Ok m ∧
    (permits_variant_fallback m = true ↔
      permits_candidate_expansion budget = true ∧
      fail_error f = lit "ims_register_initial_unexpected_status" ∧
      (fail_auth_rounds f ≤ 0)%Z ∧
      ∃ response status, fail_response f = Some response ∧ parse_status response = Ok status ∧
        status_permits_register_variant_fallback status = true ∧
        parse_retry_after (E:=E) response = Ok RetryAbsent).
Proof.
  assert (∃ r, match fail_response f with Some response => parse_retry_after (E:=E) response
               | None => Ok RetryAbsent end = Ok r) as [r Hr].
  { destruct (fail_response f) as [response|]; [|by eexists]. apply parse_retry_after_returns. }
  eexists. split; [unfold failure_metadata, metadata; rewrite Hr; reflexivity|].
  unfold permits_candidate_expansion, permits_variant_fallback. cbn [md_min_expires].
  destruct (observed budget); cbn [andb negb].
  { split; [|by intros [? _]]. rewrite !andb_true_iff, !bool_decide_eq_true.
    destruct (decide (failure_min_expires f = None)) as [Hn|Hn].
    - rewrite bool_decide_true by done. by intros [[[[[=] _] _] _] _].
    - rewrite bool_decide_false by done. simpl. tauto. }
  cbn [md_min_expires md_stage md_kind md_retry_after md_sip_status].
  rewrite !andb_true_iff, !bool_decide_eq_true. split.
  - intros [[[[Hmin Hstage] Hkind] ->] Hst]. split; [done|].
    pose proof (negotiation_code f Hkind Hstage Hmin) as He. split; [done|].
    split. { revert Hstage. unfold failure_stage. rewrite He. cbn [orb].
             change (starts_with _ (lit "ims_register_authenticated_")) with false.
             change (str_eqb _ (lit "ims_register_auth_rejected")) with false. cbn [orb].
             destruct (Z.ltb_spec 0 (fail_auth_rounds f)); [done|lia]. }
    revert Hst Hr. unfold failure_sip_status. destruct (fail_response f) as [response|]; [|done]. simpl.
    destruct (parse_status response) as [status|e|] eqn:Hs; simpl; [|done..].
    destruct (in_range 100 699 status); [|done]. eauto 7.
  - intros (_ & He & Ha & response & status & Hresp & Hst & Hs & Habs).
    rewrite Hresp in Hr. rewrite Hr in Habs. injection Habs as ->.
    assert (failure_sip_status f = Some status) as Hsip.
    { unfold failure_sip_status. rewrite Hresp. simpl. rewrite Hst. simpl.
      unfold status_permits_register_variant_fallback, one_of in Hs. cbn [existsb] in Hs.
      rewrite !orb_true_iff, !Z.eqb_eq in Hs. destruct (in_range 100 699 status) eqn:Hin; [done|].
      apply in_range_false in Hin. lia. }
    destruct (unexpected_status_kind f status He Hsip Hs Ha) as (-> & -> & ->). by rewrite Hsip.
Qed.

(** Deregistration.  It always ends; [Confirmed] means a validated 2xx,
    [Rejected] that some response was received but none of those; no lease floor
    is ever negotiated for it. *)
Theorem unregister_outcome {C A}
    `{!ImsChannel C, !Clock C, !ChannelLaws C, !RegisterAuthenticator C A, !AuthenticatorLaws C A}
    {E} request (s : C * A) :
  let '(w, out) := run_unregister (E:=E) request s in
  rounds (w_budget w) = 0%Z ∧
  ∃ r, out = Ok r ∧ r ≠ AlreadyExpired ∧
    (r = Confirmed → ∃ v, accepted_by (C:=C) (w_chan_auth w).2 v ∧
       run_unregister_observed request s = (w, Ok v)) ∧
    (r = Rejected → ∃ f response, fail_response f = Some response ∧
       run_unregister_observed request s = (w, Err f)) ∧
    (r = AccessLost → ∃ f, fail_response f = None ∧ run_unregister_observed request s = (w, Err f)).
Proof.
  unfold run_unregister. unfold run_unregister_observed.
  pose proof (run_register_exchange_spec (C:=C) (A:=A) request false (mkWorld s budget_default)
                ltac:(done)) as Hspec.
  destruct (run_register_exchange _ _ _) as [w r].
  destruct Hspec as (Hp & _ & _ & Hr & Hok & _). split; [by apply Hr|].
  destruct r as [v|f|]; [..|done].
  - exists Confirmed. split_and!; [done..|eauto|done|done].
  - destruct (fail_response f) as [response|] eqn:Hf; eexists; (split; [reflexivity|]);
      [rewrite bool_decide_true by eauto|rewrite bool_decide_false by (by intros [? ?])];
      split_and!; try done; intros _; eauto.
Qed.

Lemma unregister_outcome_witness :
  let '(w, out) := run_unregister (E:=unit) example_request (example_script false, mkFixed example_request) in
  out = Ok Confirmed ∧ rounds (w_budget w) = 0%Z.
Proof.
  pose proof (unregister_outcome (E:=unit) example_request (example_script false, mkFixed example_request)) as Hw.
  assert ((run_unregister (E:=unit) example_request (example_script false, mkFixed example_request)).2
          = Ok Confirmed) as Hr by (vm_compute; reflexivity).
  destruct (run_unregister _ _) as [w out]. split; [exact Hr|apply Hw].
Defined.
