(* ===== verification/RegisterRetry.v ===== *)
(** * The REGISTER retry policy

    Models [connectivity/core/register_retry.rs]: the waits of the P-CSCF
    endpoints of one subscription, shared by the cellular and the WiFi owner.
    Instants and durations are in nanoseconds; the last representable instant is
    a parameter, since [checked_add] depends on the platform's clock. *)
From Stdlib Require Import ZArith Lia.
From stdpp Require Import prelude.
From S2P Require Import Prelude RetryAfter Register.
Local Open Scope Z_scope.

Definition from_secs (n : Z) : Z := n * 1000000000.
Definition MAX_ENDPOINT_RETRY_ENTRIES : nat := 32.
Definition MAX_ENDPOINT_RETRY_DELAY : Z := from_secs 86400.
Definition TEMPORARY_ENDPOINT_DELAY : Z := from_secs 30.
Definition TRANSPORT_RETRY_DELAY : Z := from_secs 5.
Definition MIN_ENDPOINT_RETRY_DELAY : Z := from_secs 1.

(** [std::net::SocketAddr]: an IPv6 address is a 128-bit number. *)
Inductive SocketAddr :=
| SockV4 (ip port : Z)
| SockV6 (ip port flowinfo scope_id : Z).
#[export] Instance SocketAddr_eq_dec : EqDecision SocketAddr.
Proof. solve_decision. Defined.
(** [Ipv6Addr::to_ipv4_mapped]: [::ffff:a.b.c.d] *)
Definition to_ipv4_mapped (ip : Z) : option Z :=
  if Z.shiftr ip 32 =? 65535 then Some (Z.land ip 4294967295) else None.
Definition canonical_endpoint (endpoint : SocketAddr) : SocketAddr :=
  match endpoint with
  | SockV6 ip port _ scope_id =>
    match to_ipv4_mapped ip with
    | Some ipv4 => SockV4 ipv4 port
    | None => SockV6 ip port 0 scope_id
    end
  | address => address
  end.

Inductive RetryStopReason :=
| InvalidRetryAfter | RetryAfterTooLong | CapacityExceeded | ClockOverflow | OwnershipUncertain.
#[export] Instance RetryStopReason_eq_dec : EqDecision RetryStopReason.
Proof. solve_decision. Defined.
Inductive RetryAdmission :=
| Allowed
| Deferred (not_before : Z)
| Stopped (reason : RetryStopReason).
#[export] Instance RetryAdmission_eq_dec : EqDecision RetryAdmission.
Proof. solve_decision. Defined.
Definition is_allowed (a : RetryAdmission) : bool := bool_decide (a = Allowed).
Definition saturating_duration_since (later earlier : Z) : Z := sat_sub later earlier.
Definition remaining (a : RetryAdmission) (now : Z) : option Z :=
  match a with
  | Deferred not_before => Some (saturating_duration_since not_before now)
  | Allowed | Stopped _ => None
  end.
Definition is_stopped (a : RetryAdmission) : bool := match a with Stopped _ => true | _ => false end.

Definition merge_admission (first second : RetryAdmission) : RetryAdmission :=
  match first, second with
  | Stopped r, _ => Stopped r
  | _, Stopped r => Stopped r
  | Deferred old, Deferred new => Deferred (Z.max old new)
  | Deferred t, _ => Deferred t
  | _, Deferred t => Deferred t
  | Allowed, Allowed => Allowed
  end.

Record EndpointRetryEntry := mkEntry { entry_endpoint : SocketAddr; entry_admission : RetryAdmission }.
Record EndpointRetryState := mkRetry {
  entries : list EndpointRetryEntry;
  stopped : option RetryStopReason;
  restart : option RetryAdmission;
  registration_event_wait : option RetryAdmission;
  unregister_wait : option RetryAdmission;
}.
Definition retry_default : EndpointRetryState := mkRetry [] None None None None.
Definition set_entries (es : list EndpointRetryEntry) (s : EndpointRetryState) : EndpointRetryState :=
  mkRetry es (stopped s) (restart s) (registration_event_wait s) (unregister_wait s).
Definition set_stopped (r : RetryStopReason) (s : EndpointRetryState) : EndpointRetryState :=
  mkRetry (entries s) (Some r) (restart s) (registration_event_wait s) (unregister_wait s).

Definition keep_entry (now : Z) (e : EndpointRetryEntry) : bool :=
  match entry_admission e with
  | Deferred not_before => now <? not_before
  | Stopped _ => true
  | Allowed => false
  end.
Definition prune (now : Z) (s : EndpointRetryState) : EndpointRetryState :=
  set_entries (filter (λ e, keep_entry now e = true) (entries s)) s.

Definition find_entry (endpoint : SocketAddr) (es : list EndpointRetryEntry) : option EndpointRetryEntry :=
  List.find (λ e, bool_decide (entry_endpoint e = endpoint)) es.
Definition check (endpoint : SocketAddr) (now : Z) (s : EndpointRetryState)
    : EndpointRetryState * RetryAdmission :=
  let endpoint := canonical_endpoint endpoint in
  let s := prune now s in
  (s, match stopped s with
      | Some reason => Stopped reason
      | None => match find_entry endpoint (entries s) with
                | Some e => entry_admission e
                | None => Allowed
                end
      end).

(** The merge of a new admission into an entry. *)
Definition merge_entry (old new : RetryAdmission) : RetryAdmission :=
  match old, new with
  | Stopped r, _ => Stopped r
  | _, Stopped r => Stopped r
  | Deferred old, Deferred new => Deferred (Z.max old new)
  | _, other => other
  end.
(** [if let Some(entry) = entries.iter_mut().find(..) { .. return entry.admission }] *)
Fixpoint update_entry (endpoint : SocketAddr) (admission : RetryAdmission)
    (es : list EndpointRetryEntry) : option (list EndpointRetryEntry * RetryAdmission) :=
  match es with
  | [] => None
  | e :: es =>
    if bool_decide (entry_endpoint e = endpoint) then
      let a := merge_entry (entry_admission e) admission in
      Some (mkEntry (entry_endpoint e) a :: es, a)
    else '(es, a) ← update_entry endpoint admission es; Some (e :: es, a)
  end.
Definition record (endpoint : SocketAddr) (admission : RetryAdmission) (now : Z)
    (s : EndpointRetryState) : EndpointRetryState * RetryAdmission :=
  let s := prune now s in
  match update_entry endpoint admission (entries s) with
  | Some (es, a) => (set_entries es s, a)
  | None =>
    if (MAX_ENDPOINT_RETRY_ENTRIES <=? length (entries s))%nat
    then (set_stopped CapacityExceeded s, Stopped CapacityExceeded)
    else (set_entries (entries s ++ [mkEntry endpoint admission]) s, admission)
  end.

Section retry.
(** The last instant of the clock. *)
Context (instant_max : Z).

Definition checked_add (now delay : Z) : option Z :=
  if instant_max <? now + delay then None else Some (now + delay).

Definition defer_delay (endpoint : SocketAddr) (delay now : Z) (s : EndpointRetryState)
    : EndpointRetryState * RetryAdmission :=
  let '(s, current) := check endpoint now s in
  if is_stopped current then (s, current)
  else if MAX_ENDPOINT_RETRY_DELAY <? delay then record endpoint (Stopped RetryAfterTooLong) now s
  else
    let delay := Z.max delay MIN_ENDPOINT_RETRY_DELAY in
    match checked_add now delay with
    | None => (set_stopped ClockOverflow s, Stopped ClockOverflow)
    | Some not_before => record endpoint (Deferred not_before) now s
    end.

(** The delay a failure asks for: nothing, or an invalid header, or a delay. *)
Definition failure_retry_after (f : RegisterFailureMetadata) : RetryAfter :=
  if bool_decide (md_kind f = Transport) then RetryAbsent else md_retry_after f.
Definition observe_failure (endpoint : SocketAddr) (f : RegisterFailureMetadata) (now : Z)
    (s : EndpointRetryState) : EndpointRetryState * RetryAdmission :=
  let endpoint := canonical_endpoint endpoint in
  let '(s, current) := check endpoint now s in
  if is_stopped current then (s, current)
  else match failure_retry_after f with
    | RetryInvalid _ => record endpoint (Stopped InvalidRetryAfter) now s
    | DelaySeconds seconds => defer_delay endpoint (from_secs seconds) now s
    | RetryAbsent =>
      match md_kind f with
      | TemporaryEndpoint => defer_delay endpoint TEMPORARY_ENDPOINT_DELAY now s
      | Transport => defer_delay endpoint TRANSPORT_RETRY_DELAY now s
      | _ => (s, current)
      end
    end.

(** ** The restart gate *)
Definition expire_slot (now : Z) (slot : option RetryAdmission) : option RetryAdmission :=
  match slot with
  | Some (Deferred not_before) => if not_before <=? now then None else slot
  | _ => slot
  end.
Definition unwrap_allowed (slot : option RetryAdmission) : RetryAdmission := default Allowed slot.
Definition restart_admission (now : Z) (s : EndpointRetryState) : EndpointRetryState * RetryAdmission :=
  let s := mkRetry (entries s) (stopped s) (expire_slot now (restart s))
             (expire_slot now (registration_event_wait s)) (expire_slot now (unregister_wait s)) in
  (s, merge_admission (merge_admission (unwrap_allowed (restart s))
         (unwrap_allowed (registration_event_wait s))) (unwrap_allowed (unregister_wait s))).

Definition deferred_until (e : EndpointRetryEntry) : option Z :=
  match entry_admission e with Deferred not_before => Some not_before | _ => None end.
(** [iter.min()] *)
Definition minimum_of (l : list Z) : option Z :=
  match l with [] => None | x :: l => Some (foldl Z.min x l) end.
Definition set_restart (a : option RetryAdmission) (s : EndpointRetryState) : EndpointRetryState :=
  mkRetry (entries s) (stopped s) a (registration_event_wait s) (unregister_wait s).
Definition pause_restart (now : Z) (s : EndpointRetryState) : EndpointRetryState * RetryAdmission :=
  let s := prune now s in
  let admission :=
    match stopped s with
    | Some reason => Stopped reason
    | None =>
      match minimum_of (omap deferred_until (entries s)) with
      | Some not_before => Deferred not_before
      | None => match entries s with e :: _ => entry_admission e | [] => Allowed end
      end
    end in
  restart_admission now (set_restart (Some admission) s).
Definition registered (s : EndpointRetryState) : EndpointRetryState := set_restart None s.

Definition set_event_wait (a : RetryAdmission) (s : EndpointRetryState) : EndpointRetryState :=
  mkRetry (entries s) (stopped s) (restart s) (Some a) (unregister_wait s).
Definition set_unregister_wait (a : RetryAdmission) (s : EndpointRetryState) : EndpointRetryState :=
  mkRetry (entries s) (stopped s) (restart s) (registration_event_wait s) (Some a).

Definition observe_unregister_failure (endpoint : SocketAddr) (f : RegisterFailureMetadata)
    (now : Z) (s : EndpointRetryState) : EndpointRetryState * RetryAdmission :=
  let '(s, admission) := observe_failure endpoint f now s in
  let '(s, previous) := restart_admission now s in
  restart_admission now (set_unregister_wait (merge_admission previous admission) s).

Definition observe_registration_event (endpoint : SocketAddr) (retry_after_seconds : option Z)
    (now : Z) (s : EndpointRetryState) : EndpointRetryState * RetryAdmission :=
  let endpoint := canonical_endpoint endpoint in
  let delay := match retry_after_seconds with
               | Some seconds => from_secs seconds
               | None => TEMPORARY_ENDPOINT_DELAY
               end in
  let '(s, admission) := defer_delay endpoint delay now s in
  let '(s, _) := restart_admission now s in
  let s := set_event_wait
             (merge_admission (unwrap_allowed (registration_event_wait s)) admission) s in
  restart_admission now s.

(** ** Refreshing a binding *)
Inductive RefreshRetryDecision :=
| RefreshRetryAfter (wait : Z)
| RetainUntilExpiry (lifetime : Z)
| InvalidateBinding.
Definition refresh_wait_decision (admission : RetryAdmission) (now remaining_old_lifetime : Z)
    : option RefreshRetryDecision :=
  if remaining_old_lifetime =? 0 then Some InvalidateBinding
  else match admission with
    | Allowed => None
    | Deferred not_before =>
      let wait := saturating_duration_since not_before now in
      if wait =? 0 then None
      else if wait <? remaining_old_lifetime then Some (RefreshRetryAfter wait)
      else Some (RetainUntilExpiry remaining_old_lifetime)
    | Stopped _ => Some (RetainUntilExpiry remaining_old_lifetime)
    end.
Definition observe_refresh_failure (endpoint : SocketAddr) (f : RegisterFailureMetadata)
    (now remaining_old_lifetime : Z) (s : EndpointRetryState)
    : EndpointRetryState * RefreshRetryDecision :=
  let '(s, admission) := observe_failure endpoint f now s in
  (s, if negb (is_temporary f) || (remaining_old_lifetime =? 0) then InvalidateBinding
      else default (RetainUntilExpiry remaining_old_lifetime)
             (refresh_wait_decision admission now remaining_old_lifetime)).
End retry.

(** * The operations as a transition system *)
Inductive RetryOp :=
| OpCheck (endpoint : SocketAddr)
| OpFailure (endpoint : SocketAddr) (f : RegisterFailureMetadata)
| OpUnregisterFailure (endpoint : SocketAddr) (f : RegisterFailureMetadata)
| OpRefreshFailure (endpoint : SocketAddr) (f : RegisterFailureMetadata) (lifetime : Z)
| OpRegistrationEvent (endpoint : SocketAddr) (retry_after_seconds : option Z)
| OpPauseRestart
| OpRestartAdmission
| OpRegistered.

Section runs.
Context (instant_max : Z).

Definition retry_step (op : RetryOp) (now : Z) (s : EndpointRetryState) : EndpointRetryState :=
  match op with
  | OpCheck endpoint => (check endpoint now s).1
  | OpFailure endpoint f => (observe_failure instant_max endpoint f now s).1
  | OpUnregisterFailure endpoint f => (observe_unregister_failure instant_max endpoint f now s).1
  | OpRefreshFailure endpoint f lifetime =>
    (observe_refresh_failure instant_max endpoint f now lifetime s).1
  | OpRegistrationEvent endpoint secs => (observe_registration_event instant_max endpoint secs now s).1
  | OpPauseRestart => (pause_restart now s).1
  | OpRestartAdmission => (restart_admission now s).1
  | OpRegistered => registered s
  end.
(** Operations at their times. *)
Definition retry_run (ops : list (Z * RetryOp)) (s : EndpointRetryState) : EndpointRetryState :=
  foldl (λ s '(now, op), retry_step op now s) s ops.
End runs.

(** An admission that refuses an attempt before [t]. *)
Definition blocks (t : Z) (a : RetryAdmission) : Prop :=
  match a with
  | Stopped _ => True
  | Deferred not_before => t ≤ not_before
  | Allowed => False
  end.
(** The endpoint may not be tried before [t]. *)
Definition blocked (endpoint : SocketAddr) (t : Z) (s : EndpointRetryState) : Prop :=
  is_Some (stopped s) ∨
  ∃ e, e ∈ entries s ∧ entry_endpoint e = canonical_endpoint endpoint ∧ blocks t (entry_admission e).
(** No new pass may start before [t] because of an unregistration. *)
Definition gated (t : Z) (s : EndpointRetryState) : Prop :=
  ∃ a, unregister_wait s = Some a ∧ blocks t a.

Definition entry_ok (now : Z) (e : EndpointRetryEntry) : Prop :=
  canonical_endpoint (entry_endpoint e) = entry_endpoint e ∧
  match entry_admission e with
  | Allowed => False
  | Deferred not_before => not_before ≤ now + MAX_ENDPOINT_RETRY_DELAY
  | Stopped _ => True
  end.
Record retry_inv (now : Z) (s : EndpointRetryState) : Prop := {
  inv_nodup : NoDup (entry_endpoint <$> entries s);
  inv_length : (length (entries s) ≤ MAX_ENDPOINT_RETRY_ENTRIES)%nat;
  inv_entries : Forall (entry_ok now) (entries s);
}.

(** * Lemmas *)
Lemma canonical_idemp endpoint :
  canonical_endpoint (canonical_endpoint endpoint) = canonical_endpoint endpoint.
Proof.
  destruct endpoint as [|ip port flow scope]; [done|]. cbn [canonical_endpoint].
  destruct (to_ipv4_mapped ip) eqn:Hm; cbn [canonical_endpoint]; [done|by rewrite Hm].
Qed.

Lemma blocks_merge t a b : blocks t a ∨ blocks t b → blocks t (merge_admission a b).
Proof. destruct a, b; cbn [blocks merge_admission merge_entry]; intros [?|?]; (lia || done). Qed.
Lemma blocks_merge_entry t a b : b ≠ Allowed → blocks t a ∨ blocks t b → blocks t (merge_entry a b).
Proof. destruct a, b; cbn [blocks merge_entry]; intros ? [?|?]; (lia || done). Qed.
Lemma blocks_not_allowed t a : blocks t a → a ≠ Allowed.
Proof. by intros Hb ->. Qed.

Lemma entry_ok_later now now' e : now ≤ now' → entry_ok now e → entry_ok now' e.
Proof. intros Hle [Hc Ha]. split; [done|]. destruct (entry_admission e); [done|lia|done]. Qed.
Lemma retry_inv_later now now' s : now ≤ now' → retry_inv now s → retry_inv now' s.
Proof.
  intros Hle [H1 H2 H3]. split; [done..|]. eapply Forall_impl; [done|].
  intros e. by apply entry_ok_later.
Qed.
Lemma retry_inv_same now s s' : entries s' = entries s → retry_inv now s → retry_inv now s'.
Proof. intros Heq [H1 H2 H3]. split; by rewrite Heq. Qed.

(** What an operation at [now] keeps: the invariant and every wait that is not over. *)
Definition keeps (now : Z) (s s' : EndpointRetryState) : Prop :=
  (retry_inv now s → retry_inv now s' ∧
    ∀ t, now < t → (∀ endpoint, blocked endpoint t s → blocked endpoint t s')
                   ∧ (gated t s → gated t s')).
Lemma keeps_refl now s : keeps now s s.
Proof. by intros ?. Qed.
Lemma keeps_trans now s1 s2 s3 : keeps now s1 s2 → keeps now s2 s3 → keeps now s1 s3.
Proof.
  intros H12 H23 Hinv. destruct (H12 Hinv) as [Hinv2 Hb12]. destruct (H23 Hinv2) as [Hinv3 Hb23].
  split; [done|]. intros t Ht. destruct (Hb12 t Ht) as [??], (Hb23 t Ht) as [??]. by split; auto.
Qed.
(** An operation that leaves the entries alone. *)
Lemma keeps_slots now s s' :
  entries s' = entries s → (is_Some (stopped s) → is_Some (stopped s')) →
  (∀ t, now < t → gated t s → gated t s') → keeps now s s'.
Proof.
  intros He Hs Hg Hinv. split; [by eapply retry_inv_same|]. intros t Ht. split; [|by apply Hg].
  intros endpoint [?|(e & Hin & ?)]; [left; auto|]. right. exists e. by rewrite He.
Qed.

Lemma keeps_prune now s : keeps now s (prune now s).
Proof.
  intros [Hnd Hlen Hall]. split.
  - split; simpl.
    + eapply sublist_NoDup; [exact Hnd|]. apply fmap_sublist, sublist_filter.
    + etrans; [apply length_filter|done].
    + rewrite Forall_forall in *. intros e [_ Hin]%list_elem_of_filter. by apply Hall.
  - intros t Ht. split; [|done]. intros endpoint [?|(e & Hin & He & Hb)]; [by left|]. right. exists e.
    split_and!; [|done..]. simpl. apply list_elem_of_filter. split; [|done]. unfold keep_entry.
    destruct (entry_admission e); simpl in *; [done|lia|done].
Qed.

(** ** Recording an admission *)
Lemma update_entry_None endpoint a es :
  update_entry endpoint a es = None ↔ endpoint ∉ entry_endpoint <$> es.
Proof.
  induction es as [|e es IH]; simpl.
  { split; [intros _; apply not_elem_of_nil|done]. }
  rewrite not_elem_of_cons. case_bool_decide as He.
  { split; [done|]. intros [Hne _]. by destruct Hne. }
  destruct (update_entry endpoint a es) as [[es' a']|]; simpl.
  - split; [done|]. by intros [_ Hn%IH].
  - split; [|done]. intros _. split; [congruence|by apply IH].
Qed.
Lemma update_entry_Some endpoint a es es' a' :
  update_entry endpoint a es = Some (es', a') →
  ∃ l1 e l2, es = l1 ++ e :: l2 ∧ entry_endpoint e = endpoint ∧
    a' = merge_entry (entry_admission e) a ∧ es' = l1 ++ mkEntry endpoint a' :: l2.
Proof.
  revert es' a'. induction es as [|e es IH]; simpl; intros es' a'; [done|].
  case_bool_decide as He.
  - intros [= <- <-]. exists [], e, es. by rewrite He.
  - destruct (update_entry endpoint a es) as [[es1 a1]|]; simpl; [|done]. intros [= <- <-].
    destruct (IH _ _ eq_refl) as (l1 & e1 & l2 & -> & ? & ? & ->). by exists (e :: l1), e1, l2.
Qed.

Lemma merge_entry_ok now endpoint old new :
  new ≠ Allowed → entry_ok now (mkEntry endpoint old) → entry_ok now (mkEntry endpoint new) →
  entry_ok now (mkEntry endpoint (merge_entry old new)).
Proof.
  intros Hne [Hc Ho] [_ Hn]. split; [done|]. cbn [entry_admission] in *.
  destruct old, new; cbn [merge_entry]; (done || lia).
Qed.

Lemma keeps_record now endpoint a s :
  a ≠ Allowed → entry_ok now (mkEntry endpoint a) → keeps now s (record endpoint a now s).1.
Proof.
  intros Hne Hok. eapply keeps_trans; [apply keeps_prune|]. unfold record.
  generalize (prune now s) as s1. clear s. intros s [Hnd Hlen Hall].
  destruct (update_entry endpoint a (entries s)) as [[es a']|] eqn:Hu.
  - apply update_entry_Some in Hu as (l1 & e & l2 & Hes & He & -> & ->). rewrite Hes in *.
    assert (entry_ok now (mkEntry endpoint (merge_entry (entry_admission e) a))) as Hm.
    { apply Forall_app in Hall as [_ [Hall _]%Forall_cons]. destruct e. simpl in *. subst.
      by apply merge_entry_ok. }
    split; [split; simpl|].
    + rewrite fmap_app, fmap_cons in *. by rewrite He in Hnd.
    + rewrite length_app in *. done.
    + apply Forall_app in Hall as [? [_ ?]%Forall_cons]. apply Forall_app. by split; [|constructor].
    + intros t Ht. split; [|done]. intros ep [?|(e0 & Hin & He0 & Hb)]; [by left|]. right. simpl.
      rewrite Hes, elem_of_app, elem_of_cons in Hin. destruct Hin as [Hin|[->|Hin]].
      1,3: exists e0; rewrite elem_of_app, elem_of_cons; tauto.
      eexists. split; [apply elem_of_app; right; apply list_elem_of_here|]. simpl.
      split; [congruence|]. apply blocks_merge_entry; [done|by left].
  - apply update_entry_None in Hu. destruct (Nat.leb_spec MAX_ENDPOINT_RETRY_ENTRIES (length (entries s))).
    { apply (keeps_slots now s (set_stopped CapacityExceeded s)); [done|by eexists|done|by split]. }
    split; [split; simpl|].
    + rewrite fmap_app. apply NoDup_app. split_and!; [done| |apply NoDup_singleton].
      by intros x Hx ->%list_elem_of_singleton.
    + rewrite length_app. cbn [length]. lia.
    + apply Forall_app. by split; [|constructor].
    + intros t Ht. split; [|done]. intros ep [?|(e0 & Hin & ?)]; [by left|]. right. exists e0.
      split; [|done]. simpl. apply elem_of_app. by left.
Qed.

(** The wait an operation reports is in the state it leaves. *)
Definition reflects (now : Z) (endpoint : SocketAddr)
    (out : EndpointRetryState * RetryAdmission) : Prop :=
  ∀ t, now < t → blocks t out.2 → blocked endpoint t out.1.

Lemma find_entry_Some endpoint es e :
  find_entry endpoint es = Some e → e ∈ es ∧ entry_endpoint e = endpoint.
Proof.
  intros Hf. apply find_some in Hf as [Hin He%bool_decide_eq_true]. split; [|done].
  by apply list_elem_of_In.
Qed.
Lemma find_entry_NoDup es e :
  NoDup (entry_endpoint <$> es) → e ∈ es → find_entry (entry_endpoint e) es = Some e.
Proof.
  induction es as [|e' es IH]; simpl; intros Hnd Hin; [by apply elem_of_nil in Hin|].
  apply NoDup_cons in Hnd as [Hn Hnd]. unfold find_entry in *. simpl.
  apply elem_of_cons in Hin as [->|Hin]; [by rewrite bool_decide_true|].
  rewrite bool_decide_false; [by apply IH|]. intros Heq. destruct Hn. rewrite Heq.
  by apply list_elem_of_fmap_2.
Qed.

Lemma keeps_check now endpoint s : keeps now s (check endpoint now s).1.
Proof. apply keeps_prune. Qed.
Lemma check_reflects now endpoint s : reflects now endpoint (check endpoint now s).
Proof.
  intros t Ht Hb. unfold check in *. cbn [fst snd] in *. unfold blocked. simpl stopped in *.
  destruct (stopped s) as [reason|]; [by left|]. right.
  destruct (find_entry _ _) as [e|] eqn:Hf; [|done]. apply find_entry_Some in Hf as [? ?]. by exists e.
Qed.
(** A blocked endpoint is refused. *)
Lemma check_blocked now t endpoint s :
  retry_inv now s → now < t → blocked endpoint t s → blocks t (check endpoint now s).2.
Proof.
  intros Hinv Ht Hb. destruct (keeps_prune now s Hinv) as [[Hnd _ _] Hk].
  destruct (Hk t Ht) as [Hk1 _]. apply Hk1 in Hb. unfold check. cbn [snd].
  destruct Hb as [[reason ->]|(e & Hin & He & Hb)]; [done|].
  destruct (stopped (prune now s)); [done|]. rewrite <-He. by rewrite (find_entry_NoDup _ _ Hnd Hin).
Qed.

Lemma record_spec now endpoint a s :
  a ≠ Allowed → canonical_endpoint endpoint = endpoint →
  reflects now endpoint (record endpoint a now s) ∧
  (∀ t, blocks t a → blocks t (record endpoint a now s).2).
Proof.
  intros Hne Hc. unfold reflects, record. generalize (prune now s) as s1. clear s. intros s.
  destruct (update_entry endpoint a (entries s)) as [[es a']|] eqn:Hu; cbn [fst snd].
  - apply update_entry_Some in Hu as (l1 & e & l2 & Hes & He & -> & ->). split.
    + intros t _ Hb. right. eexists. split; [simpl; apply elem_of_app; right; apply list_elem_of_here|].
      simpl. by rewrite Hc.
    + intros t Hb. apply blocks_merge_entry; [done|by right].
  - destruct (Nat.leb_spec MAX_ENDPOINT_RETRY_ENTRIES (length (entries s))); cbn [fst snd].
    { split; [|done]. intros t _ _. left. by eexists. }
    split; [|done]. intros t _ Hb. right. eexists.
    split; [simpl; apply elem_of_app; right; apply list_elem_of_here|]. simpl. by rewrite Hc.
Qed.

Section op_lemmas.
Context (instant_max : Z).

Lemma defer_delay_spec now endpoint delay s :
  canonical_endpoint endpoint = endpoint →
  let out := defer_delay instant_max endpoint delay now s in
  keeps now s out.1 ∧ reflects now endpoint out ∧
  blocks (now + Z.max delay MIN_ENDPOINT_RETRY_DELAY) out.2.
Proof.
  intros Hc. unfold defer_delay.
  pose proof (keeps_check now endpoint s) as Hk. pose proof (check_reflects now endpoint s) as Hr.
  destruct (check endpoint now s) as [s1 current]. cbn [fst snd] in Hk.
  destruct (is_stopped current) eqn:Hst; [by destruct current|].
  destruct (Z.ltb_spec MAX_ENDPOINT_RETRY_DELAY delay).
  { destruct (record_spec now endpoint (Stopped RetryAfterTooLong) s1) as [Hr1 Hb1]; [done..|].
    split_and!; [|done|by apply Hb1].
    eapply keeps_trans; [exact Hk|]. by apply keeps_record. }
  unfold checked_add. set (d := Z.max delay MIN_ENDPOINT_RETRY_DELAY).
  destruct (instant_max <? now + d); cbn [fst snd].
  { split_and!; [|intros t _ _; left; by eexists|done].
    eapply keeps_trans; [exact Hk|]. by apply keeps_slots; [|eexists|]. }
  destruct (record_spec now endpoint (Deferred (now + d)) s1) as [Hr1 Hb1]; [done..|].
  split_and!; [|done|apply Hb1; simpl; lia].
  eapply keeps_trans; [exact Hk|]. apply keeps_record; [done|]. split; [done|]. cbn [entry_admission].
  unfold MIN_ENDPOINT_RETRY_DELAY, MAX_ENDPOINT_RETRY_DELAY, from_secs in *. lia.
Qed.

(** The wait a failure asks for; an invalid header asks for any wait. *)
Definition asks_wait (f : RegisterFailureMetadata) (d : Z) : Prop :=
  match failure_retry_after f with
  | RetryInvalid _ => True
  | DelaySeconds n => d = Z.max (from_secs n) MIN_ENDPOINT_RETRY_DELAY
  | RetryAbsent =>
    md_kind f = TemporaryEndpoint ∧ d = TEMPORARY_ENDPOINT_DELAY ∨
    md_kind f = Transport ∧ d = TRANSPORT_RETRY_DELAY
  end.

Lemma observe_failure_spec now endpoint f s :
  let out := observe_failure instant_max endpoint f now s in
  keeps now s out.1 ∧ reflects now endpoint out ∧
  (∀ d, asks_wait f d → blocks (now + d) out.2).
Proof.
  unfold observe_failure. set (ep := canonical_endpoint endpoint).
  assert (canonical_endpoint ep = ep) as Hc by apply canonical_idemp.
  assert (∀ out, reflects now ep out → reflects now endpoint out) as Href.
  { intros out Hr t Ht Hb. destruct (Hr t Ht Hb) as [?|(e & ? & He & ?)]; [by left|].
    right. exists e. by rewrite He, Hc. }
  pose proof (keeps_check now ep s) as Hk. pose proof (check_reflects now ep s) as Hr.
  destruct (check ep now s) as [s1 current]. cbn [fst snd] in Hk.
  destruct (is_stopped current) eqn:Hst; [destruct current; (split_and!; [done|by apply Href|done..])|].
  assert (∀ delay, let out := defer_delay instant_max ep delay now s1 in
    keeps now s out.1 ∧ reflects now endpoint out ∧
    blocks (now + Z.max delay MIN_ENDPOINT_RETRY_DELAY) out.2) as Hdefer.
  { intros delay. destruct (defer_delay_spec now ep delay s1 Hc) as (? & ? & ?).
    split_and!; [by eapply keeps_trans|by apply Href|done]. }
  unfold asks_wait. destruct (failure_retry_after f) as [|n|reason].
  - destruct (md_kind f);
      try (split_and!; [done|by apply Href|by intros d [[[=] _]|[[=] _]]]).
    + destruct (Hdefer TEMPORARY_ENDPOINT_DELAY) as (? & ? & ?).
      by split_and!; [..|intros d [[_ ->]|[[=] _]]].
    + destruct (Hdefer TRANSPORT_RETRY_DELAY) as (? & ? & ?).
      by split_and!; [..|intros d [[[=] _]|[_ ->]]].
  - destruct (Hdefer (from_secs n)) as (? & ? & ?). by split_and!; [..|intros d ->].
  - destruct (record_spec now ep (Stopped InvalidRetryAfter) s1) as [Hr1 Hb1]; [done..|].
    split_and!; [|by apply Href|by intros d _; apply Hb1].
    eapply keeps_trans; [exact Hk|]. by apply keeps_record.
Qed.

Lemma expire_slot_blocks now t slot a :
  now < t → slot = Some a → blocks t a → expire_slot now slot = Some a.
Proof.
  intros Ht -> Hb. destruct a; cbn [expire_slot blocks] in *; [done| |done].
  by destruct (Z.leb_spec not_before now); [lia|].
Qed.
Lemma restart_admission_spec now s :
  keeps now s (restart_admission now s).1 ∧
  (∀ t, now < t → gated t s → blocks t (restart_admission now s).2).
Proof.
  split.
  - apply keeps_slots; [done..|]. intros t Ht (a & Ha & Hb). exists a. split; [|done].
    by eapply expire_slot_blocks.
  - intros t Ht (a & Ha & Hb). apply blocks_merge. right. cbn [unregister_wait].
    by rewrite (expire_slot_blocks now t _ a Ht Ha Hb).
Qed.

Lemma observe_unregister_failure_spec now endpoint f s :
  let out := observe_unregister_failure instant_max endpoint f now s in
  keeps now s out.1 ∧
  (∀ d, asks_wait f d → 0 < d → gated (now + d) out.1 ∧ blocks (now + d) out.2).
Proof.
  unfold observe_unregister_failure.
  pose proof (observe_failure_spec now endpoint f s) as (Hk1 & Hr1 & Hb1).
  destruct (observe_failure instant_max endpoint f now s) as [s1 admission]. cbn [fst snd] in *.
  pose proof (restart_admission_spec now s1) as [Hk2 Hb2].
  destruct (restart_admission now s1) as [s2 previous] eqn:Hs2. cbn [fst snd] in *.
  set (s3 := set_unregister_wait (merge_admission previous admission) s2).
  pose proof (restart_admission_spec now s3) as [Hk4 Hb4].
  assert (∀ t, blocks t previous ∨ blocks t admission → gated t s3) as Hg.
  { intros t Hb. eexists. split; [done|]. by apply blocks_merge. }
  split.
  - eapply keeps_trans; [exact Hk1|]. eapply keeps_trans; [exact Hk2|].
    eapply keeps_trans; [|exact Hk4]. apply keeps_slots; [done..|]. intros t Ht Hgate. apply Hg. left.
    destruct Hgate as (a & Ha & Hb). injection Hs2 as <- <-. apply blocks_merge. right.
    cbn [unregister_wait] in Ha. by rewrite Ha.
  - intros d Hd Hpos. assert (gated (now + d) s3) as Hg3 by (apply Hg; right; by apply Hb1).
    split; [|apply Hb4; [lia|done]]. destruct Hg3 as (a & Ha & Hb). exists a. split; [|done].
    by eapply expire_slot_blocks; [|exact Ha|exact Hb]; lia.
Qed.

Lemma keeps_event now endpoint secs s :
  keeps now s (observe_registration_event instant_max endpoint secs now s).1.
Proof.
  unfold observe_registration_event. set (delay := match secs with Some _ => _ | None => _ end).
  destruct (defer_delay_spec now (canonical_endpoint endpoint) delay s (canonical_idemp _)) as (Hk1 & _).
  destruct (defer_delay _ _ _ _ _) as [s1 admission]. cbn [fst] in Hk1.
  pose proof (restart_admission_spec now s1) as [Hk2 _].
  destruct (restart_admission now s1) as [s2 x]. cbn [fst] in Hk2.
  eapply keeps_trans; [exact Hk1|]. eapply keeps_trans; [exact Hk2|].
  eapply keeps_trans; [|apply restart_admission_spec]. by apply keeps_slots.
Qed.

Lemma keeps_pause now s : keeps now s (pause_restart now s).1.
Proof.
  unfold pause_restart. set (a := match stopped (prune now s) with Some _ => _ | None => _ end).
  pose proof (restart_admission_spec now (set_restart (Some a) (prune now s))) as [Hk _].
  eapply keeps_trans; [apply keeps_prune|]. eapply keeps_trans; [|exact Hk]. by apply keeps_slots.
Qed.

Lemma keeps_step op now s : keeps now s (retry_step instant_max op now s).
Proof.
  destruct op as [endpoint|endpoint f|endpoint f|endpoint f lifetime|endpoint secs| | |];
    cbn [retry_step].
  - apply keeps_check.
  - by destruct (observe_failure_spec now endpoint f s).
  - by destruct (observe_unregister_failure_spec now endpoint f s).
  - unfold observe_refresh_failure. destruct (observe_failure_spec now endpoint f s) as (Hk & _).
    by destruct (observe_failure instant_max endpoint f now s).
  - apply keeps_event.
  - apply keeps_pause.
  - by destruct (restart_admission_spec now s).
  - by apply keeps_slots.
Qed.
End op_lemmas.

(** The times of a run do not go back. *)
Fixpoint ordered_from (t : Z) (ops : list (Z * RetryOp)) : Prop :=
  match ops with
  | [] => True
  | (now, _) :: ops => t ≤ now ∧ ordered_from now ops
  end.
Fixpoint end_time (t : Z) (ops : list (Z * RetryOp)) : Z :=
  match ops with [] => t | (now, _) :: ops => end_time now ops end.

Lemma retry_run_keeps instant_max t0 ops s :
  retry_inv t0 s → ordered_from t0 ops →
  let t1 := end_time t0 ops in
  t0 ≤ t1 ∧ retry_inv t1 (retry_run instant_max ops s) ∧
  ∀ t, t1 < t → (∀ endpoint, blocked endpoint t s → blocked endpoint t (retry_run instant_max ops s))
                ∧ (gated t s → gated t (retry_run instant_max ops s)).
Proof.
  revert t0 s. induction ops as [|[now op] ops IH]; intros t0 s Hinv Hord; simpl.
  { split_and!; [lia|done|by intros]. }
  destruct Hord as [Hle Hord]. assert (retry_inv now s) as Hinv' by by eapply retry_inv_later.
  destruct (keeps_step instant_max op now s Hinv') as [Hinv1 Hk].
  destruct (IH now _ Hinv1 Hord) as (Hend & Hinv2 & Hk2). split_and!; [lia|exact Hinv2|].
  intros t Ht. destruct (Hk t ltac:(lia)) as [Hb Hg]. destruct (Hk2 t Ht) as [Hb2 Hg2].
  split; [intros endpoint ?; by apply Hb2, Hb|intros ?; by apply Hg2, Hg].
Qed.
Lemma retry_inv_default t : retry_inv t retry_default.
Proof. split; simpl; [apply NoDup_nil_2|lia|constructor]. Qed.


(** The blocked endpoint of one address is the same for its mapped form. *)
Lemma blocked_canonical e e' t s :
  canonical_endpoint e = canonical_endpoint e' → blocked e t s → blocked e' t s.
Proof. unfold blocked. by intros ->. Qed.

Lemma retry_run_app instant_max ops1 ops2 s :
  retry_run instant_max (ops1 ++ ops2) s = retry_run instant_max ops2 (retry_run instant_max ops1 s).
Proof. apply foldl_app. Qed.
Lemma end_time_app t ops1 ops2 : end_time t (ops1 ++ ops2) = end_time (end_time t ops1) ops2.
Proof. revert t. induction ops1 as [|[now op] ops1 IH]; intros t; [done|]. apply IH. Qed.
Lemma ordered_from_app t ops1 ops2 :
  ordered_from t (ops1 ++ ops2) ↔ ordered_from t ops1 ∧ ordered_from (end_time t ops1) ops2.
Proof.
  revert t. induction ops1 as [|[now op] ops1 IH]; intros t; simpl; [tauto|]. rewrite IH. tauto.
Qed.

(** After an operation at [now] in a run, what it blocked is still blocked. *)
Lemma retry_run_after instant_max t0 ops1 now op ops2 (P : Z → EndpointRetryState → Prop) t :
  ordered_from t0 (ops1 ++ (now, op) :: ops2) →
  end_time t0 (ops1 ++ (now, op) :: ops2) < t →
  (∀ s, P t (retry_step instant_max op now s)) →
  (∀ s s', (∀ endpoint, blocked endpoint t s → blocked endpoint t s') → (gated t s → gated t s') →
     P t s → P t s') →
  P t (retry_run instant_max (ops1 ++ (now, op) :: ops2) retry_default) ∧
  retry_inv (end_time t0 (ops1 ++ (now, op) :: ops2))
    (retry_run instant_max (ops1 ++ (now, op) :: ops2) retry_default).
Proof.
  intros [Hord1 [Hle Hord2]]%ordered_from_app Hend HP Hmono.
  rewrite retry_run_app, end_time_app in *. cbn [end_time] in *.
  change (retry_run instant_max ((now, op) :: ops2)) with
    (λ s, retry_run instant_max ops2 (retry_step instant_max op now s)). cbv beta.
  destruct (retry_run_keeps instant_max t0 ops1 retry_default (retry_inv_default t0) Hord1)
    as (_ & Hinv & _).
  destruct (keeps_step instant_max op now _ (retry_inv_later _ now _ Hle Hinv)) as [Hinv1 _].
  destruct (retry_run_keeps instant_max now ops2 _ Hinv1 Hord2) as (_ & Hinv2 & Hk).
  destruct (Hk t Hend) as [Hb Hg]. split; [|exact Hinv2]. by eapply Hmono; [..|apply HP].
Qed.

(** * Properties *)

(** C20: a requested wait is honoured.  Once a failure asked for a wait of [d],
    no later operation — successes, other endpoints, shorter waits, capacity or
    clock limits — lets the endpoint, in any spelling of its address, be tried
    before [d] has passed; an invalid Retry-After refuses it for good. *)
Theorem retry_wait_honoured instant_max t0 ops1 now endpoint f d ops2 t endpoint' :
  ordered_from t0 (ops1 ++ (now, OpFailure endpoint f) :: ops2) →
  asks_wait f d →
  end_time t0 (ops1 ++ (now, OpFailure endpoint f) :: ops2) ≤ t < now + d →
  canonical_endpoint endpoint' = canonical_endpoint endpoint →
  let a := (check endpoint' t
              (retry_run instant_max (ops1 ++ (now, OpFailure endpoint f) :: ops2) retry_default)).2 in
  a ≠ Allowed ∧ ∀ not_before, a = Deferred not_before → now + d ≤ not_before.
Proof.
  intros Hord Hd [Hend Ht] Hcan. cbv zeta.
  assert (now ≤ t) as Hnow.
  { apply ordered_from_app in Hord as [_ Hord]. simpl in Hord. destruct Hord as [_ Hord].
    rewrite end_time_app in Hend. simpl in Hend. revert Hend Hord. clear. revert now.
    induction ops2 as [|[n o] ops2 IH]; simpl; intros now Hend; [done|].
    intros [Hle Hord]. specialize (IH n Hend Hord). lia. }
  destruct (retry_run_after instant_max t0 ops1 now (OpFailure endpoint f) ops2
              (λ t s, blocked endpoint t s) (now + d)) as [Hb Hinv]; [done|lia|..].
  - intros s. destruct (observe_failure_spec instant_max now endpoint f s) as (_ & Hr & Hb).
    apply Hr; [lia|]. by apply Hb.
  - eauto.
  - assert (blocks (now + d) (check endpoint' t (retry_run instant_max
      (ops1 ++ (now, OpFailure endpoint f) :: ops2) retry_default)).2) as Hbl.
    { eapply check_blocked; [exact (retry_inv_later _ _ _ Hend Hinv)|lia|].
      eapply blocked_canonical; [symmetry; exact Hcan|exact Hb]. }
    split; [by eapply blocks_not_allowed|]. intros nb Ha. by rewrite Ha in Hbl.
Qed.

Definition example_failure : RegisterFailureMetadata :=
  mkMetadata (Some 503) StageInitial TemporaryEndpoint (DelaySeconds 120) None.
Lemma retry_wait_honoured_witness :
  let ops := [(0, OpRestartAdmission); (1, OpFailure (SockV4 3221225985 5060) example_failure);
              (from_secs 60, OpRegistered)] in
  (check (SockV6 (Z.lor (Z.shiftl 65535 32) 3221225985) 5060 7 0) (from_secs 100)
     (retry_run (2 ^ 80) ops retry_default)).2 ≠ Allowed.
Proof.
  apply (retry_wait_honoured (2 ^ 80) 0 [(0, OpRestartAdmission)] 1 (SockV4 3221225985 5060)
           example_failure (from_secs 120) [(from_secs 60, OpRegistered)]).
  - apply (bool_decide_unpack _). vm_compute. exact I.
  - vm_compute. reflexivity.
  - vm_compute. split; [discriminate|reflexivity].
  - vm_compute. reflexivity.
Defined.

(** The wait learned from a failed deregistration gates every new pass.
    Whatever happens to the endpoints and however many registrations succeed
    afterwards, a restart is refused until the wait is over. *)
Theorem unregister_wait_gates_restart instant_max t0 ops1 now endpoint f d ops2 t :
  ordered_from t0 (ops1 ++ (now, OpUnregisterFailure endpoint f) :: ops2) →
  asks_wait f d → 0 < d →
  end_time t0 (ops1 ++ (now, OpUnregisterFailure endpoint f) :: ops2) ≤ t < now + d →
  let s := retry_run instant_max (ops1 ++ (now, OpUnregisterFailure endpoint f) :: ops2) retry_default in
  let a := (restart_admission t s).2 in
  a ≠ Allowed ∧ ∀ not_before, a = Deferred not_before → now + d ≤ not_before.
Proof.
  intros Hord Hd Hpos [Hend Ht]. cbv zeta.
  destruct (retry_run_after instant_max t0 ops1 now (OpUnregisterFailure endpoint f) ops2
              (λ t s, gated t s) (now + d)) as [Hg _]; [done|lia|..].
  - intros s. destruct (observe_unregister_failure_spec instant_max now endpoint f s) as [_ Hg].
    by apply Hg.
  - eauto.
  - set (s := retry_run _ _ _) in *. destruct (restart_admission_spec t s) as [_ Hb].
    specialize (Hb (now + d) Ht Hg). split; [by eapply blocks_not_allowed|].
    intros nb Ha. by rewrite Ha in Hb.
Qed.

Lemma unregister_wait_gates_restart_witness :
  let s := retry_run (2 ^ 80) [(1, OpUnregisterFailure (SockV4 1 5060) example_failure);
                               (2, OpRegistered); (3, OpPauseRestart)] retry_default in
  (restart_admission (from_secs 119) s).2 ≠ Allowed.
Proof.
  apply (unregister_wait_gates_restart (2 ^ 80) 0 [] 1 (SockV4 1 5060) example_failure (from_secs 120)
           [(2, OpRegistered); (3, OpPauseRestart)]).
  - apply (bool_decide_unpack _). vm_compute. exact I.
  - vm_compute. reflexivity.
  - vm_compute. reflexivity.
  - vm_compute. split; [discriminate|reflexivity].
Defined.

(** The retry state stays bounded.  In every reachable state the entries
    are at most 32, for distinct canonical addresses, none of them allows an
    attempt, and no deferral lies more than a day ahead. *)
Theorem retry_state_bounded instant_max t0 ops :
  ordered_from t0 ops →
  let s := retry_run instant_max ops retry_default in
  (length (entries s) ≤ 32)%nat ∧
  NoDup (entry_endpoint <$> entries s) ∧
  ∀ e, e ∈ entries s →
    canonical_endpoint (entry_endpoint e) = entry_endpoint e ∧
    is_allowed (entry_admission e) = false ∧
    ∀ wait, remaining (entry_admission e) (end_time t0 ops) = Some wait → 0 ≤ wait ≤ from_secs 86400.
Proof.
  intros Hord. cbv zeta.
  destruct (retry_run_keeps instant_max t0 ops _ (retry_inv_default t0) Hord) as (_ & [Hnd Hl Hall] & _).
  split; [exact Hl|]. split; [exact Hnd|]. rewrite Forall_forall in Hall.
  intros e [Hc Ha]%Hall. split; [done|].
  destruct (entry_admission e) as [|nb|r]; [done| |by split].
  split; [done|]. intros wait [= <-]. unfold saturating_duration_since, sat_sub.
  unfold MAX_ENDPOINT_RETRY_DELAY in Ha. assert (0 ≤ from_secs 86400) by done. lia.
Qed.

Lemma retry_state_bounded_witness :
  (length (entries (retry_run (2 ^ 80)
    [(0, OpFailure (SockV4 1 5060) example_failure); (5, OpFailure (SockV4 2 5060) example_failure)]%Z
    retry_default)) ≤ 32)%nat.
Proof.
  apply (retry_state_bounded (2 ^ 80) 0).
  apply (bool_decide_unpack _). vm_compute. exact I.
Defined.

(** A failed refresh never outlives the old binding: it is retried strictly
    before the lease ends, kept exactly until then, or dropped, and dropped only
    when the failure was not temporary or the lease was over. *)
Theorem refresh_never_outlives_binding instant_max endpoint f now lifetime s :
  match (observe_refresh_failure instant_max endpoint f now lifetime s).2 with
  | RefreshRetryAfter wait => is_temporary f = true ∧ 0 < wait < lifetime
  | RetainUntilExpiry l => is_temporary f = true ∧ l = lifetime ∧ lifetime ≠ 0
  | InvalidateBinding => is_temporary f = false ∨ lifetime = 0
  end.
Proof.
  unfold observe_refresh_failure. destruct (observe_failure instant_max endpoint f now s) as [s1 a].
  cbn [snd]. destruct (is_temporary f); cbn [negb orb]; [|by left].
  unfold refresh_wait_decision, saturating_duration_since, sat_sub.
  destruct (Z.eqb_spec lifetime 0) as [->|Hl]; [by right|].
  destruct a as [|nb|r]; cbn [default]; [done| |done].
  destruct (Z.eqb_spec (Z.max 0 (nb - now)) 0); cbn [default]; [done|].
  destruct (Z.ltb_spec (Z.max 0 (nb - now)) lifetime); [|done]. split; [done|]. lia.
Qed.
