(* ===== verification/Coordinator.v ===== *)
(** * The registration coordinator

    Models [connectivity/core/ims_registration_coordinator.rs] and the
    [FlowLease] of [connectivity/core/outbound.rs]: one object per line that every
    registration path shares.  A flow lease is shared by its owner and the
    coordinator: the leases live in a store, the coordinator keeps the identity
    of one per access (a [Weak] pointer), and dropping the owner's [Arc] removes
    it from the store.  Instants are in nanoseconds; each method reads the clock
    once.  The locks are modelled by what each task holds. *)
From Stdlib Require Import Ascii String ZArith Lia.
From stdpp Require Import prelude gmap.
From S2P Require Import Prelude Text Routing ImsAccess RegisterRetry.
Local Open Scope Z_scope.

(** ** Flow leases *)
Record LeaseState := mkLease {
  ls_expires : Z;
  ls_offered : bool;
  ls_negotiated : bool;
  ls_healthy : bool;
  ls_healthy_until : Z;
  ls_failed : bool;
}.
Record FlowLease := mkFlow { fl_instance : str; fl_state : LeaseState }.
Record FlowLeaseStatus := mkStatus {
  binding_live : bool;
  outbound_offered : bool;
  outbound_negotiated : bool;
  transport_validated : bool;
  expires_in_seconds : Z;
}.
(** [Duration::as_secs] *)
Definition as_secs (d : Z) : Z := d / 1000000000.
Definition live (now : Z) (f : FlowLease) : bool :=
  negb (ls_failed (fl_state f)) && (now <? ls_expires (fl_state f)).
Definition flow_status (now : Z) (f : FlowLease) : FlowLeaseStatus :=
  let s := fl_state f in
  let binding_live := live now f in
  mkStatus binding_live (ls_offered s) (binding_live && ls_negotiated s)
    (binding_live && ls_negotiated s && ls_healthy s && (now <? ls_healthy_until s))
    (as_secs (saturating_duration_since (ls_expires s) now)).
Definition proven (now : Z) (f : FlowLease) : bool :=
  let s := fl_state f in
  ls_negotiated s && ls_healthy s && negb (ls_failed s) && (now <? ls_expires s)
  && (now <? ls_healthy_until s).
Definition invalidate (f : FlowLease) : FlowLease :=
  let s := fl_state f in
  mkFlow (fl_instance f)
    (mkLease (ls_expires s) (ls_offered s) (ls_negotiated s) false (ls_healthy_until s) true).
Definition acknowledge (healthy_until : Z) (f : FlowLease) : FlowLease :=
  let s := fl_state f in
  mkFlow (fl_instance f)
    (mkLease (ls_expires s) (ls_offered s) (ls_negotiated s) true healthy_until (ls_failed s)).

(** The leases with a living owner. *)
Definition Leases := gmap nat FlowLease.
(** [weak.upgrade()] *)
Definition upgrade (h : Leases) (w : option nat) : option FlowLease := i ← w; h !! i.
Definition upgrade_with (h : Leases) (w : option nat) (p : FlowLease → bool) : bool :=
  match upgrade h w with Some f => p f | None => false end.

(** ** The observation *)
Record OutboundResponseEvidence := mkEvidence {
  require_outbound : bool;
  flow_timer_seconds : option Z;
}.
(** An array indexed by [flow_index]. *)
Record PerAccess (A : Type) := mkPer { on_cellular : A; on_wlan : A }.
Arguments mkPer {A}.
Arguments on_cellular {A}.
Arguments on_wlan {A}.
Definition per_get {A} (a : ImsAccess) (p : PerAccess A) : A :=
  match a with Cellular => on_cellular p | Wlan => on_wlan p end.
Definition per_set {A} (a : ImsAccess) (x : A) (p : PerAccess A) : PerAccess A :=
  match a with Cellular => mkPer x (on_wlan p) | Wlan => mkPer (on_cellular p) x end.
Definition opposite (a : ImsAccess) : ImsAccess := match a with Cellular => Wlan | Wlan => Cellular end.

Record Observation := mkObservation {
  applied : ImsAccessDecision;
  switch_deferred_for_call : bool;
  evidence : PerAccess (option OutboundResponseEvidence);
  flows : PerAccess (option nat);
  recovery : PerAccess (Z * option Z);
  outbound_rejected_until : PerAccess (option Z);
}.
Definition initial_decision : ImsAccessDecision := decision_none (lit "ims_access_not_reconciled").
Definition observation_default : Observation :=
  mkObservation initial_decision false (mkPer None None) (mkPer None None)
    (mkPer (0, None) (0, None)) (mkPer None None).

Definition set_applied (d : ImsAccessDecision) (o : Observation) : Observation :=
  mkObservation d false (evidence o) (flows o) (recovery o) (outbound_rejected_until o).
Definition attach_flow (a : ImsAccess) (flow : option nat) (o : Observation) : Observation :=
  mkObservation (applied o) (switch_deferred_for_call o) (evidence o) (per_set a flow (flows o))
    (recovery o) (outbound_rejected_until o).
Definition set_recovery (a : ImsAccess) (r : Z * option Z) (o : Observation) : Observation :=
  mkObservation (applied o) (switch_deferred_for_call o) (evidence o) (flows o)
    (per_set a r (recovery o)) (outbound_rejected_until o).
Definition defer_switch_for_call (o : Observation) : Observation :=
  mkObservation (applied o) true (evidence o) (flows o) (recovery o) (outbound_rejected_until o).
Definition observe_response (a : ImsAccess) (outbound_required : bool) (flow_timer : option Z)
    (o : Observation) : Observation :=
  mkObservation (applied o) (switch_deferred_for_call o)
    (per_set a (Some (mkEvidence outbound_required flow_timer)) (evidence o)) (flows o)
    (recovery o) (outbound_rejected_until o).
Definition reject_outbound (now : Z) (a : ImsAccess) (o : Observation) : Observation :=
  mkObservation (applied o) (switch_deferred_for_call o) (evidence o) (flows o) (recovery o)
    (per_set a (Some (now + from_secs 1800)) (outbound_rejected_until o)).

(** [until.is_none_or(|until| now >= until)] *)
Definition is_over (now : Z) (until : option Z) : bool :=
  match until with None => true | Some u => u <=? now end.

(** ** Questions asked of the observation *)
Section questions.
Context (now : Z) (h : Leases) (o : Observation).

Definition multiple_registration_blocked : bool :=
  negb (is_over now (on_cellular (outbound_rejected_until o)))
  || negb (is_over now (on_wlan (outbound_rejected_until o))).

Definition support_from_observation : ConcurrentRegistrationSupport :=
  let statuses := flow_status now <$>
    omap (upgrade h) [on_cellular (flows o); on_wlan (flows o)] in
  if existsb outbound_negotiated statuses then Negotiated
  else if existsb (λ s, binding_live s && outbound_offered s) statuses then NotSupported
  else CURRENT_CONCURRENT_SUPPORT.

Definition binding_instance (a : ImsAccess) : option str :=
  f ← upgrade h (per_get a (flows o));
  if live now f then Some (fl_instance f) else None.
Definition registration_instance (proposed : str) : str :=
  match binding_instance Wlan with
  | Some i => i
  | None => default proposed (binding_instance Cellular)
  end.

Definition may_offer_outbound (a : ImsAccess) : bool :=
  is_over now (per_get a (outbound_rejected_until o)).
Definition additional_flow_requires_outbound (a : ImsAccess) : bool :=
  upgrade_with h (per_get (opposite a) (flows o)) (live now).
Definition instance_matches (instance : str) : bool :=
  forallb (λ f, str_eqb (fl_instance f) instance)
    (filter (λ f, live now f = true) (omap (upgrade h) [on_cellular (flows o); on_wlan (flows o)])).

Definition recovery_ready (a : ImsAccess) : bool := is_over now (per_get a (recovery o)).2.
Definition flow_creation_ready (a : ImsAccess) : bool :=
  recovery_ready a && (negb (additional_flow_requires_outbound a) || may_offer_outbound a).
Definition additional_flow_ready (a : ImsAccess) : bool :=
  if negb (recovery_ready a) then false
  else match upgrade h (per_get (opposite a) (flows o)) with
    | Some flow =>
      if live now flow then proven now flow && is_over now (per_get a (outbound_rejected_until o))
      else true
    | None => true
    end.
Definition registration_candidate_ready (a : ImsAccess) (preference : ImsAccessPreference) : bool :=
  if bool_decide (preference = Concurrent) && bool_decide (support_from_observation = Negotiated)
     && negb multiple_registration_blocked
  then additional_flow_ready a
  else recovery_ready a.

(** The checks of [admit], once it holds its locks. *)
Definition admit_check (decision : ImsAccessDecision) (a : ImsAccess) : res str unit :=
  if negb (permits decision a) then Err (lit "ims_access_registration_parked")
  else
    let existing := upgrade_with h (per_get a (flows o)) (live now) in
    if negb existing && negb (recovery_ready a) then Err (lit "ims_outbound_recovery_backoff")
    else if negb existing && negb (additional_flow_ready a)
    then Err (lit "ims_outbound_additional_flow_not_supported")
    else if negb existing && cellular_registers decision && wlan_registers decision
            && (negb (bool_decide (support_from_observation = Negotiated))
                || multiple_registration_blocked)
    then Err (lit "ims_access_registration_parked")
    else Ok tt.

(** The jitter is the [u32] drawn by [random_fraction]; the product is exact
    here and truncated to nanoseconds. *)
Definition recovery_upper (failures : Z) (another : bool) : Z :=
  Z.min (Z.shiftl 1 (Z.min failures 6) * (if another then 90 else 30)) 1800.
Definition recovery_delay (upper random : Z) : Z :=
  from_secs upper * (u32_max + random) / (2 * u32_max).
Definition flow_failed (a : ImsAccess) (random : Z) : Observation :=
  let another := upgrade_with h (per_get (opposite a) (flows o)) (proven now) in
  let failures := sat_add u32_max (per_get a (recovery o)).1 1 in
  set_recovery a
    (failures, Some (now + recovery_delay (recovery_upper failures another) random)) o.
Definition flow_healthy (a : ImsAccess) : Observation := set_recovery a (0, None) o.

(** [invalidate_outbound_flows]: on the shared leases. *)
Definition invalidate_outbound_flows : Leases :=
  let inv h w := match w with Some i => alter invalidate i h | None => h end in
  inv (inv h (on_cellular (flows o))) (on_wlan (flows o)).
End questions.

Record ImsRegistrationPolicyStatus := mkPolicyStatus {
  requested : ImsAccessPreference;
  effective : str;
  status_concurrent_support : ConcurrentRegistrationSupport;
  status_blocked : bool;
  status_desired : ImsAccessDecision;
  status_applied : ImsAccessDecision;
  status_switch_deferred : bool;
  status_evidence : PerAccess (option OutboundResponseEvidence);
  status_flows : PerAccess (option FlowLeaseStatus);
}.
Definition coordinator_status (now : Z) (h : Leases) (o : Observation)
    (preference : ImsAccessPreference) (desired : ImsAccessDecision) : ImsRegistrationPolicyStatus :=
  mkPolicyStatus preference (effective_mode (applied o)) (support_from_observation now h o)
    (multiple_registration_blocked now o) desired (applied o) (switch_deferred_for_call o) (evidence o)
    (mkPer (flow_status now <$> upgrade h (on_cellular (flows o)))
           (flow_status now <$> upgrade h (on_wlan (flows o)))).

(** ** Tasks and locks

    A task inside the coordinator is at one of these points; what it holds of
    the [host_activity] lock, the [register_lock] and the [admission] lock
    follows from the point. *)
Inductive TaskPoint :=
| HostActivity                     (** the guard of [host_activity()] *)
| AdmitActivity (a : ImsAccess)    (** [admit]: waiting for the register lock *)
| AdmitRegister (a : ImsAccess)    (** [admit]: waiting for the admission *)
| AdmitDecision (a : ImsAccess)    (** [admit]: about to check *)
| Registering (a : ImsAccess)      (** the [RegistrationPermit] is held *)
| PublishTail (d : ImsAccessDecision) (** [publish]: the admission is written *)
| Observing.                       (** the [NativeImsObservationPermit] is held *)
#[export] Instance TaskPoint_eq_dec : EqDecision TaskPoint.
Proof. intros x y. unfold Decision. repeat decide equality. Defined.

Definition reads_activity (p : TaskPoint) : bool :=
  match p with HostActivity | AdmitActivity _ | AdmitRegister _ | AdmitDecision _ | Registering _ => true
  | _ => false end.
Definition writes_activity (p : TaskPoint) : bool := match p with Observing => true | _ => false end.
Definition holds_register (p : TaskPoint) : bool :=
  match p with AdmitRegister _ | AdmitDecision _ | Registering _ | Observing => true | _ => false end.
Definition reads_admission (p : TaskPoint) : bool :=
  match p with AdmitDecision _ | Registering _ => true | _ => false end.
Definition writes_admission (p : TaskPoint) : bool := match p with Observing => true | _ => false end.

Record System := mkSystem {
  sys_now : Z;
  sys_leases : Leases;
  sys_admission : ImsAccessDecision;
  sys_epoch : Z;
  sys_observation : Observation;
  sys_tasks : gmap nat TaskPoint;
}.
Definition system_default : System :=
  mkSystem 0 ∅ initial_decision 0 observation_default ∅.

Definition with_tasks (ts : gmap nat TaskPoint) (s : System) : System :=
  mkSystem (sys_now s) (sys_leases s) (sys_admission s) (sys_epoch s) (sys_observation s) ts.
Definition with_observation (o : Observation) (s : System) : System :=
  mkSystem (sys_now s) (sys_leases s) (sys_admission s) (sys_epoch s) o (sys_tasks s).
Definition with_admission (d : ImsAccessDecision) (s : System) : System :=
  mkSystem (sys_now s) (sys_leases s) d (sys_epoch s) (sys_observation s) (sys_tasks s).
(** [observation_epoch.fetch_add(1, ..)] *)
Definition bump_epoch (s : System) : System :=
  mkSystem (sys_now s) (sys_leases s) (sys_admission s) (u64 (sys_epoch s + 1)) (sys_observation s)
    (sys_tasks s).
Definition park_decision (a : ImsAccess) (d : ImsAccessDecision) : ImsAccessDecision :=
  match a with
  | Cellular => mkDecision false (wlan_registers d) (lit "ims_access_registration_parked")
  | Wlan => mkDecision (cellular_registers d) false (lit "ims_access_registration_parked")
  end.

(** No task holds the lock. *)
Definition free (holds : TaskPoint → bool) (s : System) : Prop :=
  ∀ t p, sys_tasks s !! t = Some p → holds p = false.
(** Task [t] goes to the point. *)
Definition goto (t : nat) (p : TaskPoint) (s : System) : System := with_tasks (<[t := p]> (sys_tasks s)) s.
Definition leave (t : nat) (s : System) : System := with_tasks (delete t (sys_tasks s)) s.
Definition at_point (t : nat) (p : TaskPoint) (s : System) : Prop := sys_tasks s !! t = Some p.

(** The updates that take no lock but the observation's own. *)
Inductive observation_update (s : System) : Observation → Prop :=
| UpdAttach a w : observation_update s (attach_flow a w (sys_observation s))
| UpdReject a : observation_update s (reject_outbound (sys_now s) a (sys_observation s))
| UpdFailed a random : 0 ≤ random ≤ u32_max →
    observation_update s (flow_failed (sys_now s) (sys_leases s) (sys_observation s) a random)
| UpdHealthy a : observation_update s (flow_healthy (sys_observation s) a)
| UpdDefer : observation_update s (defer_switch_for_call (sys_observation s))
| UpdResponse a required timer :
    observation_update s (observe_response a required timer (sys_observation s)).

Inductive sys_step (s : System) : System → Prop :=
| StepHost t : sys_tasks s !! t = None → free writes_activity s →
    sys_step s (bump_epoch (goto t HostActivity s))
| StepHostEnd t : at_point t HostActivity s → sys_step s (leave t s)
| StepAdmitActivity t a : sys_tasks s !! t = None → free writes_activity s →
    sys_step s (bump_epoch (goto t (AdmitActivity a) s))
| StepAdmitRegister t a : at_point t (AdmitActivity a) s → free holds_register s →
    sys_step s (goto t (AdmitRegister a) s)
| StepAdmitDecision t a : at_point t (AdmitRegister a) s → free writes_admission s →
    sys_step s (goto t (AdmitDecision a) s)
| StepAdmitOk t a : at_point t (AdmitDecision a) s →
    admit_check (sys_now s) (sys_leases s) (sys_observation s) (sys_admission s) a = Ok tt →
    sys_step s (goto t (Registering a) s)
| StepAdmitErr t a e : at_point t (AdmitDecision a) s →
    admit_check (sys_now s) (sys_leases s) (sys_observation s) (sys_admission s) a = Err e →
    sys_step s (leave t s)
| StepRegistered t a : at_point t (Registering a) s → sys_step s (leave t s)
| StepPublish t d : sys_tasks s !! t = None → free reads_admission s → free writes_admission s →
    sys_step s (with_admission d (goto t (PublishTail d) s))
| StepPublishTail t d : at_point t (PublishTail d) s →
    sys_step s (leave t (with_observation (set_applied d (sys_observation s)) (bump_epoch s)))
| StepPark a : free reads_admission s → free writes_admission s →
    let d := park_decision a (sys_admission s) in
    sys_step s (with_observation (set_applied d (sys_observation s)) (bump_epoch (with_admission d s)))
| StepObserve t : sys_tasks s !! t = None →
    free reads_activity s → free writes_activity s → free holds_register s →
    free reads_admission s → free writes_admission s →
    cellular_registers (sys_admission s) = false → wlan_registers (sys_admission s) = false →
    upgrade (sys_leases s) (on_cellular (flows (sys_observation s))) = None →
    upgrade (sys_leases s) (on_wlan (flows (sys_observation s))) = None →
    sys_step s (goto t Observing s)
| StepObserveEnd t : at_point t Observing s → sys_step s (leave t s)
| StepUpdate o : observation_update s o → sys_step s (with_observation o s)
| StepLeases h : sys_step s (mkSystem (sys_now s) h (sys_admission s) (sys_epoch s)
                              (sys_observation s) (sys_tasks s))
| StepTick t : sys_now s ≤ t → sys_step s (mkSystem t (sys_leases s) (sys_admission s) (sys_epoch s)
                              (sys_observation s) (sys_tasks s)).

Inductive sys_reachable : System → Prop :=
| reach_start : sys_reachable system_default
| reach_step s s' : sys_reachable s → sys_step s s' → sys_reachable s'.

(** * Lemmas *)
(** ** Exclusion *)
Record sys_inv (s : System) : Prop := {
  inv_register t1 p1 t2 p2 : at_point t1 p1 s → at_point t2 p2 s →
    holds_register p1 = true → holds_register p2 = true → t1 = t2;
  inv_observing t1 t2 p2 : at_point t1 Observing s → at_point t2 p2 s → t1 ≠ t2 →
    reads_activity p2 = false;
  inv_permit t a : at_point t (Registering a) s → permits (sys_admission s) a = true;
  inv_parked t : at_point t Observing s →
    cellular_registers (sys_admission s) = false ∧ wlan_registers (sys_admission s) = false;
}.

Lemma at_goto t p s t' p' :
  at_point t' p' (goto t p s) ↔ t' = t ∧ p' = p ∨ t' ≠ t ∧ at_point t' p' s.
Proof.
  unfold at_point, goto. simpl. rewrite lookup_insert_Some. intuition congruence.
Qed.
Lemma at_leave t s t' p' : at_point t' p' (leave t s) ↔ t' ≠ t ∧ at_point t' p' s.
Proof. unfold at_point, leave. simpl. rewrite lookup_delete_Some. intuition congruence. Qed.

(** The invariant looks at the tasks and the admission only. *)
Lemma sys_inv_same s s' :
  sys_tasks s' = sys_tasks s → sys_admission s' = sys_admission s → sys_inv s → sys_inv s'.
Proof.
  intros Ht Ha [H1 H2 H3 H4]. unfold at_point in *.
  split; unfold at_point; rewrite ?Ht, ?Ha; eauto.
Qed.
Lemma sys_inv_leave t s : sys_inv s → sys_inv (leave t s).
Proof.
  intros [H1 H2 H3 H4]. split.
  - intros t1 p1 t2 p2 [_ ?]%at_leave [_ ?]%at_leave. by eapply H1.
  - intros t1 t2 p2 [_ ?]%at_leave [_ ?]%at_leave. by eapply H2.
  - intros t1 a [_ ?]%at_leave. by eapply H3.
  - intros t1 [_ ?]%at_leave. by eapply H4.
Qed.

Lemma sys_inv_goto t p s :
  sys_inv s →
  (holds_register p = true → ∀ t' p', t' ≠ t → at_point t' p' s → holds_register p' = false) →
  (reads_activity p = true → ∀ t', t' ≠ t → ¬ at_point t' Observing s) →
  (∀ a, p = Registering a → permits (sys_admission s) a = true) →
  (p = Observing → (∀ t' p', t' ≠ t → at_point t' p' s → reads_activity p' = false) ∧
     cellular_registers (sys_admission s) = false ∧ wlan_registers (sys_admission s) = false) →
  sys_inv (goto t p s).
Proof.
  intros [H1 H2 H3 H4] Hreg Hact Hper Hobs. split.
  - intros t1 p1 t2 p2 Ht1 Ht2 Hp1 Hp2.
    apply at_goto in Ht1 as [[-> ->]|[Hn1 Ht1]], Ht2 as [[-> ->]|[Hn2 Ht2]]; [done|..].
    + by rewrite (Hreg Hp1 _ _ Hn2 Ht2) in Hp2.
    + by rewrite (Hreg Hp2 _ _ Hn1 Ht1) in Hp1.
    + by eapply H1.
  - intros t1 t2 p2 Ht1 Ht2 Hne.
    apply at_goto in Ht1 as [[-> <-]|[Hn1 Ht1]], Ht2 as [[-> ->]|[Hn2 Ht2]]; [done|..].
    + by eapply Hobs.
    + destruct (reads_activity p) eqn:Hp; [|done]. by destruct (Hact eq_refl _ Hn1).
    + by eapply H2.
  - intros t1 a [[-> Hp]|[_ Ht1]]%at_goto; [by apply Hper|by eapply H3].
  - intros t1 [[-> Hp]|[_ Ht1]]%at_goto; [by apply Hobs|by eapply H4].
Qed.

(** A writer excludes the readers of the same activity lock. *)
Lemma no_observer s : free writes_activity s → ∀ t, ¬ at_point t Observing s.
Proof. intros Hf t Ht. by apply Hf in Ht. Qed.
(** A task already reading the activity lock excludes an observer. *)
Lemma reader_excludes s t p :
  sys_inv s → at_point t p s → reads_activity p = true → ∀ t', t' ≠ t → ¬ at_point t' Observing s.
Proof. intros Hinv Ht Hp t' Hne Ht'. by rewrite (inv_observing s Hinv t' t p Ht' Ht Hne) in Hp. Qed.
(** A task holding the register lock excludes the others. *)
Lemma register_excludes s t p :
  sys_inv s → at_point t p s → holds_register p = true →
  ∀ t' p', t' ≠ t → at_point t' p' s → holds_register p' = false.
Proof.
  intros Hinv Ht Hp t' p' Hne Ht'. destruct (holds_register p') eqn:Hp'; [|done].
  by destruct Hne; eapply (inv_register s Hinv).
Qed.

(** Writing the admission: no task relies on it. *)
Lemma sys_inv_admission d s :
  free reads_admission s → free writes_admission s → sys_inv s → sys_inv (with_admission d s).
Proof.
  intros Hr Hw [H1 H2 H3 H4]. split; [done|done|..].
  - intros t a Ht. by apply Hr in Ht.
  - intros t Ht. by apply Hw in Ht.
Qed.

Lemma admit_check_permits now h o d a : admit_check now h o d a = Ok tt → permits d a = true.
Proof. unfold admit_check. by destruct (permits d a). Qed.

Lemma sys_inv_step s s' : sys_inv s → sys_step s s' → sys_inv s'.
Proof.
  intros Hinv Hstep. destruct Hstep as
    [t Hn Hf|t Ht|t a Hn Hf|t a Ht Hf|t a Ht Hf|t a Ht Hok|t a e Ht He|t a Ht|t d Hn Hr Hw|t d Ht
    |a Hr Hw|t Hn Hra Hwa Hg Hrd Hwd Hc Hwl Hfc Hfw|t Ht|o Ho|h|t Hle].
  - eapply sys_inv_same; [..|apply (sys_inv_goto t HostActivity s)]; try done.
    intros _ t' _. by apply no_observer.
  - by apply sys_inv_leave.
  - eapply sys_inv_same; [..|apply (sys_inv_goto t (AdmitActivity a) s)]; try done.
    intros _ t' _. by apply no_observer.
  - apply sys_inv_goto; try done.
    + intros _ t' p' _ Ht'. by eapply Hf.
    + intros _. by eapply reader_excludes.
  - apply sys_inv_goto; try done.
    + intros _. by eapply register_excludes.
    + intros _. by eapply reader_excludes.
  - apply sys_inv_goto; try done.
    + intros _. by eapply register_excludes.
    + intros _. by eapply reader_excludes.
    + intros a' [= ->]. by eapply admit_check_permits.
  - by apply sys_inv_leave.
  - by apply sys_inv_leave.
  - assert (free reads_admission (goto t (PublishTail d) s) ∧ free writes_admission (goto t (PublishTail d) s))
      as [??].
    { split; intros t' p' [[-> ->]|[_ Ht']]%at_goto; [done|by eapply Hr|done|by eapply Hw]. }
    apply sys_inv_admission; [done..|]. by apply sys_inv_goto.
  - apply sys_inv_leave. by eapply sys_inv_same; [..|exact Hinv].
  - eapply sys_inv_same; [..|apply (sys_inv_admission d s)]; done.
  - apply sys_inv_goto; try done.
    + intros _ t' p' _ Ht'. by eapply Hg.
    + intros _. split; [|done]. intros t' p' _ Ht'. by eapply Hra.
  - by apply sys_inv_leave.
  - by eapply sys_inv_same; [..|exact Hinv].
  - by eapply sys_inv_same; [..|exact Hinv].
  - by eapply sys_inv_same; [..|exact Hinv].
Qed.
Lemma sys_inv_reachable s : sys_reachable s → sys_inv s.
Proof.
  induction 1 as [|s s' _ IH Hstep]; [|by eapply sys_inv_step].
  split; unfold at_point; simpl; intros *; rewrite lookup_empty; done.
Qed.

(** ** Admission *)
Lemma upgrade_with_true h w p :
  upgrade_with h w p = true ↔ ∃ f, upgrade h w = Some f ∧ p f = true.
Proof.
  unfold upgrade_with. destruct (upgrade h w) as [f|]; split; [by eauto|by intros (?&[= <-]&?)|done|].
  by intros (?&?&?).
Qed.
(** What a second flow needs. *)
Definition second_flow_ok (now : Z) (h : Leases) (o : Observation) (a : ImsAccess) : Prop :=
  ∀ f, upgrade h (per_get (opposite a) (flows o)) = Some f → live now f = true →
    proven now f = true ∧ may_offer_outbound now o a = true.
Lemma additional_flow_ready_spec now h o a :
  additional_flow_ready now h o a = true ↔ recovery_ready now o a = true ∧ second_flow_ok now h o a.
Proof.
  unfold additional_flow_ready, second_flow_ok, may_offer_outbound.
  destruct (recovery_ready now o a); simpl; [|by split; [|intros []]].
  destruct (upgrade h _) as [f|]; [|by split].
  destruct (live now f) eqn:Hl; [|by split; [split; [done|]; intros ? [= <-]; congruence|]].
  rewrite andb_true_iff. split.
  - intros [? ?]. split; [done|]. by intros ? [= <-].
  - intros [_ Hf]. by apply Hf.
Qed.

(** ** Backoff *)
Lemma recovery_upper_range n (another : bool) :
  1 ≤ n → (if another then 180 else 60) ≤ recovery_upper n another ≤ 1800.
Proof.
  intros Hn. unfold recovery_upper. rewrite Z.shiftl_1_l.
  assert (2 ^ 1 ≤ 2 ^ Z.min n 6) by (apply Z.pow_le_mono_r; lia). destruct another; lia.
Qed.
Lemma recovery_upper_mono n m another : 0 ≤ n ≤ m → recovery_upper n another ≤ recovery_upper m another.
Proof.
  intros Hn. unfold recovery_upper. rewrite !Z.shiftl_1_l.
  assert (2 ^ Z.min n 6 ≤ 2 ^ Z.min m 6) by (apply Z.pow_le_mono_r; lia). destruct another; lia.
Qed.
Lemma recovery_delay_range upper random :
  0 ≤ upper → 0 ≤ random ≤ u32_max →
  from_secs upper / 2 ≤ recovery_delay upper random ≤ from_secs upper.
Proof.
  intros Hu Hr. unfold recovery_delay, from_secs, u32_max in *. split.
  - apply Z.div_le_lower_bound; [lia|].
    assert (upper * 1000000000 / 2 * 2 ≤ upper * 1000000000) by (rewrite Z.mul_comm; apply Z.mul_div_le; lia).
    nia.
  - apply Z.div_le_upper_bound; nia.
Qed.

Lemma per_get_set {A} a (x : A) p : per_get a (per_set a x p) = x.
Proof. by destruct a. Qed.
Lemma per_get_set_opposite {A} a (x : A) p : per_get (opposite a) (per_set a x p) = per_get (opposite a) p.
Proof. by destruct a. Qed.

(** * Properties *)

(** C21: registrations on a line exclude each other.  However the tasks of the
    coordinator interleave, at most one holds a registration permit, for an
    access the published decision permits; the decision does not change while it
    is held, and no modem observation runs beside it: an observer is alone and
    neither access may register. *)
Theorem coordinator_exclusion s :
  sys_reachable s →
  (∀ t a t' a', at_point t (Registering a) s → at_point t' (Registering a') s → t = t' ∧ a = a') ∧
  (∀ t a, at_point t (Registering a) s →
     permits (sys_admission s) a = true ∧ ∀ t', ¬ at_point t' Observing s) ∧
  (∀ t, at_point t Observing s →
     cellular_registers (sys_admission s) = false ∧ wlan_registers (sys_admission s) = false ∧
     ∀ t' p, t' ≠ t → at_point t' p s → reads_activity p = false) ∧
  (∀ s', sys_step s s' → sys_admission s' ≠ sys_admission s →
     ∀ t a, ¬ at_point t (Registering a) s).
Proof.
  intros Hinv%sys_inv_reachable. split_and!.
  - intros t a t' a' Ht Ht'. assert (t = t') as <- by by eapply (inv_register s Hinv).
    unfold at_point in *. split; congruence.
  - intros t a Ht. split; [by eapply inv_permit|]. intros t' Ht'.
    destruct (decide (t' = t)) as [->|Hne]; [unfold at_point in *; congruence|].
    by eapply (reader_excludes s t (Registering a)).
  - intros t Ht. destruct (inv_parked s Hinv t Ht). split_and!; [done..|].
    intros t' p Hne Ht'. by eapply (inv_observing s Hinv t t').
  - intros s' Hstep Hne t a Ht. destruct Hstep; simpl in Hne; try done.
    all: match goal with H : free reads_admission _ |- _ => by apply H in Ht end.
Qed.

(** A task publishes a decision, another one registers over cellular. *)
Definition example_published : System :=
  with_admission (cellular_only []) (goto 0 (PublishTail (cellular_only [])) system_default).
Definition example_parked : System :=
  leave 0 (with_observation (set_applied (cellular_only []) (sys_observation example_published))
             (bump_epoch example_published)).
Definition example_waiting : System := bump_epoch (goto 1 (AdmitActivity Cellular) example_parked).
Definition example_system : System :=
  goto 1 (Registering Cellular) (goto 1 (AdmitDecision Cellular)
    (goto 1 (AdmitRegister Cellular) example_waiting)).
Lemma example_reachable : sys_reachable example_system.
Proof.
  assert (∀ holds (s : System), sys_tasks s = ∅ → free holds s) as Hempty.
  { intros holds s He t p. rewrite He, lookup_empty. done. }
  assert (∀ holds p s, sys_tasks s = {[ 1%nat := p ]} → holds p = false → free holds s) as Hone.
  { intros holds p s He Hp t p'. rewrite He. by intros [<- <-]%lookup_singleton_Some. }
  unfold example_system.
  eapply reach_step; [|apply StepAdmitOk; reflexivity].
  eapply reach_step; [|apply StepAdmitDecision; [reflexivity|by eapply Hone]].
  eapply reach_step; [|apply StepAdmitRegister; [reflexivity|by eapply Hone]].
  eapply reach_step; [|apply StepAdmitActivity; [reflexivity|by apply Hempty]].
  eapply reach_step; [|apply StepPublishTail; reflexivity].
  eapply reach_step; [constructor|]. apply StepPublish; [reflexivity|by apply Hempty..].
Qed.
Lemma coordinator_exclusion_witness :
  permits (sys_admission example_system) Cellular = true ∧ ∀ t', ¬ at_point t' Observing example_system.
Proof.
  destruct (coordinator_exclusion example_system example_reachable) as (_ & H & _).
  apply (H 1%nat). reflexivity.
Defined.

(** What an access needs to register.  A live binding is always admitted
    when the decision permits it, whatever the backoff; a new flow also needs its
    recovery wait to be over, a proven opposite flow that did not lead to a
    refusal, and, when both accesses are to register, a negotiated and unblocked
    pair. *)
Theorem admission_gates_new_flows now h o decision a :
  admit_check now h o decision a = Ok tt ↔
    permits decision a = true ∧
    ((∃ f, upgrade h (per_get a (flows o)) = Some f ∧ live now f = true) ∨
     recovery_ready now o a = true ∧ second_flow_ok now h o a ∧
     (cellular_registers decision = true → wlan_registers decision = true →
        support_from_observation now h o = Negotiated ∧ multiple_registration_blocked now o = false)).
Proof.
  unfold admit_check. destruct (permits decision a); simpl; [|by split; [|intros []]].
  destruct (upgrade_with h (per_get a (flows o)) (live now)) eqn:Hex; simpl.
  { apply upgrade_with_true in Hex. tauto. }
  assert (¬ ∃ f, upgrade h (per_get a (flows o)) = Some f ∧ live now f = true) as Hno.
  { intros Hf%upgrade_with_true. congruence. }
  pose proof (additional_flow_ready_spec now h o a) as Hadd.
  destruct (recovery_ready now o a); simpl; [|split; [done|]; intros [_ [?|[[=] _]]]; done].
  destruct (additional_flow_ready now h o a); simpl.
  - destruct Hadd as [[_ Hsecond] _]; [done|].
    destruct (cellular_registers decision), (wlan_registers decision); simpl;
      try (split; [intros _; split; [done|]; right; split_and!; done|done]).
    case_bool_decide as Hs; simpl; [destruct (multiple_registration_blocked now o)|].
    + split; [done|]. intros [_ [?|(_ & _ & Hb)]]; [done|]. by destruct Hb.
    + split; [intros _|done]. split; [done|]. right. by split_and!.
    + split; [done|]. intros [_ [?|(_ & _ & Hb)]]; [done|]. by destruct Hb.
  - split; [done|]. intros [_ [?|(_ & Hsecond & _)]]; [done|].
    destruct Hadd as [_ Hb]. by discriminate Hb.
Qed.

(** The recovery backoff.  A failure counts, waits between half of the bound
    and the bound, which doubles from 60 or 180 seconds up to half an hour; the
    flow is not recreated before, is eligible after half an hour at most, leaves
    the other access alone, and a healthy flow clears the wait. *)
Theorem recovery_backoff now h o a random :
  0 ≤ random ≤ u32_max → 0 ≤ (per_get a (recovery o)).1 →
  let another := upgrade_with h (per_get (opposite a) (flows o)) (proven now) in
  let failures := Z.min u32_max ((per_get a (recovery o)).1 + 1) in
  let upper := recovery_upper failures another in
  let o' := flow_failed now h o a random in
  (per_get a (recovery o')).1 = failures ∧
  recovery_upper (failures - 1) another ≤ upper ∧
  (if another then 180 else 60) ≤ upper ≤ 1800 ∧
  (∀ t, t < now + from_secs upper / 2 → recovery_ready t o' a = false) ∧
  (∀ t, now + from_secs upper ≤ t → recovery_ready t o' a = true) ∧
  per_get (opposite a) (recovery o') = per_get (opposite a) (recovery o) ∧
  ∀ t, recovery_ready t (flow_healthy o' a) a = true.
Proof.
  intros Hr Hf. cbv zeta. set (another := upgrade_with _ _ _).
  set (failures := Z.min u32_max _).
  assert (1 ≤ failures) by (subst failures; unfold u32_max; lia).
  pose proof (recovery_upper_range failures another ltac:(done)) as Hup.
  assert (0 ≤ recovery_upper failures another) by (destruct another; lia).
  pose proof (recovery_delay_range (recovery_upper failures another) random ltac:(done) Hr) as Hd.
  assert (per_get a (recovery (flow_failed now h o a random)) =
    (failures, Some (now + recovery_delay (recovery_upper failures another) random))) as Hrec
    by apply per_get_set.
  split_and!; [by rewrite Hrec|apply recovery_upper_mono; lia|lia|lia|..].
  - intros t Ht. unfold recovery_ready. rewrite Hrec. simpl. lia.
  - intros t Ht. unfold recovery_ready. rewrite Hrec. simpl. lia.
  - apply per_get_set_opposite.
  - intros t. unfold recovery_ready, flow_healthy, set_recovery. cbn [recovery].
    by rewrite per_get_set.
Qed.

Lemma recovery_backoff_witness :
  recovery_ready (from_secs 29) (flow_failed 0 ∅ observation_default Wlan 7) Wlan = false.
Proof.
  apply (recovery_backoff 0 ∅ observation_default Wlan 7); [by split|done|by vm_compute].
Defined.
