(* ===== verification/Stun.v ===== *)
(** * The STUN binding codec

    Models the STUN part of [connectivity/core/outbound.rs]: [crc32],
    [binding_request] and [binding_response], the keep-alive probe of a UDP flow
    and the reader of its answer.  An early [return StunResponse::Ignore] of the
    reader is an [Err]. *)
From Stdlib Require Import ZArith Lia.
From stdpp Require Import prelude.
From S2P Require Import Prelude Text.
Local Open Scope Z_scope.

(** ** The codec *)
Definition COOKIE : list Z := [0x21; 0x12; 0xa4; 0x42].
Definition FINGERPRINT_XOR : Z := 0x5354554e.

(** [u16::from_be_bytes], [to_be_bytes] of a [u16] and of a [u32]. *)
Definition be16 (hi lo : Z) : Z := hi * 256 + lo.
Definition to_be16 (n : Z) : list Z := [n / 256; n mod 256].
Definition to_be32 (n : Z) : list Z := to_be16 (n / 65536) ++ to_be16 (n mod 65536).

(** One of the eight inner steps, one byte, and the whole slice. *)
Definition crc_bit (crc : Z) : Z :=
  Z.lxor (Z.shiftr crc 1) (Z.land 0xedb88320 (u32 (0 - Z.land crc 1))).
Definition crc_byte (crc byte : Z) : Z := Nat.iter 8 crc_bit (Z.lxor crc byte).
Definition crc32 (data : list Z) : Z := Z.lxor (foldl crc_byte u32_max data) u32_max.

Definition binding_request (id : list Z) : list Z :=
  let packet := [0; 1; 0; 8] ++ COOKIE ++ id in
  let fingerprint := Z.lxor (crc32 packet) FINGERPRINT_XOR in
  packet ++ [0x80; 0x28; 0; 4] ++ to_be32 fingerprint.

Inductive IpAddr := V4 (octets : list Z) | V6 (octets : list Z).
Record SocketAddr := mkSocket { addr_ip : IpAddr; addr_port : Z }.
#[export] Instance IpAddr_eq_dec : EqDecision IpAddr.
Proof. solve_decision. Defined.
#[export] Instance SocketAddr_eq_dec : EqDecision SocketAddr.
Proof. solve_decision. Defined.

Inductive StunResponse := StunIgnore | StunError | StunMapped (addr : SocketAddr).
#[export] Instance StunResponse_eq_dec : EqDecision StunResponse.
Proof. solve_decision. Defined.

(** The two variables of the attribute loop. *)
Definition Found : Type := option SocketAddr * option Z.

(** The arm of [XOR-MAPPED-ADDRESS]. *)
Definition mapped_address (id data : list Z) (found : Found) : res StunResponse Found :=
  fail_if (bool_decide (is_Some found.1) || (length data <? 4)%nat) StunIgnore;;
  d1 ← idx data 1;
  d2 ← idx data 2;
  d3 ← idx data 3;
  let port := Z.lxor (be16 d2 d3) 0x2112 in
  let mask := COOKIE ++ id in
  let octets := zip_with Z.lxor (drop 4 data) mask in
  ip ← (if (d1 =? 1) && (length data =? 8)%nat then Ok (V4 octets)
        else if (d1 =? 2) && (length data =? 20)%nat then Ok (V6 octets)
        else Err StunIgnore);
  Ok (Some (mkSocket ip port), found.2).

(** The arm of [ERROR-CODE]. *)
Definition error_attribute (data : list Z) (found : Found) : res StunResponse Found :=
  fail_if ((length data <? 4)%nat || bool_decide (is_Some found.2)) StunIgnore;;
  d2 ← idx data 2;
  fail_if (negb (Z.land d2 0xf8 =? 0) || negb (in_range 3 6 d2)) StunIgnore;;
  d3 ← idx data 3;
  fail_if (99 <? d3) StunIgnore;;
  Ok (found.1, Some (d2 * 100 + d3)).

(** The [match attr] of the loop. *)
Definition stun_attribute (packet id : list Z) (offset padded_end : nat) (attr : Z)
    (data : list Z) (found : Found) : res StunResponse Found :=
  if attr =? 0x0020 then mapped_address id data found
  else if attr =? 0x8028 then
    prefix ← slice packet 0 offset;
    fail_if (negb (length data =? 4)%nat || negb (padded_end =? length packet)%nat
             || negb (bool_decide (data = to_be32 (Z.lxor (crc32 prefix) FINGERPRINT_XOR))))
      StunIgnore;;
    Ok found
  else if attr =? 0x0009 then error_attribute data found
  else if (attr =? 0x0001) || (attr =? 0x000a) then Ok found
  else if 0x8000 <=? attr then Ok found
  else Err StunIgnore.

(** [(len + 3) & !3] *)
Definition padded (len : Z) : Z := Z.land (len + 3) (Z.lnot 3).

Fixpoint stun_walk (fuel : nat) (packet id : list Z) (offset : nat) (found : Found)
    : res StunResponse Found :=
  match fuel with
  | O => Panic
  | S fuel =>
    if (offset <? length packet)%nat then
      fail_if (length packet <? offset + 4)%nat StunIgnore;;
      t0 ← idx packet offset;
      t1 ← idx packet (offset + 1);
      l0 ← idx packet (offset + 2);
      l1 ← idx packet (offset + 3);
      let attr := be16 t0 t1 in
      let len := be16 l0 l1 in
      let end_ := (offset + 4 + Z.to_nat len)%nat in
      let padded_end := (offset + 4 + Z.to_nat (padded len))%nat in
      fail_if (length packet <? padded_end)%nat StunIgnore;;
      data ← slice packet (offset + 4) end_;
      found ← stun_attribute packet id offset padded_end attr data found;
      stun_walk fuel packet id padded_end found
    else Ok found
  end.

(** The checks before the loop; the kind of an accepted header. *)
Definition stun_header (packet id : list Z) : res StunResponse Z :=
  fail_if (length packet <? 20)%nat StunIgnore;;
  cookie ← slice packet 4 8;
  fail_if (negb (bool_decide (cookie = COOKIE))) StunIgnore;;
  transaction ← slice packet 8 20;
  fail_if (negb (bool_decide (transaction = id))) StunIgnore;;
  s0 ← idx packet 2;
  s1 ← idx packet 3;
  let size := be16 s0 s1 in
  fail_if (negb (size mod 4 =? 0) || negb (size + 20 =? Z.of_nat (length packet))) StunIgnore;;
  k0 ← idx packet 0;
  k1 ← idx packet 1;
  let kind := be16 k0 k1 in
  fail_if (negb (kind =? 0x0101) && negb (kind =? 0x0111)) StunIgnore;;
  Ok kind.

Definition binding_outcome (kind : Z) (found : Found) : StunResponse :=
  if kind =? 0x0111 then match found.2 with Some _ => StunError | None => StunIgnore end
  else match found.1 with Some addr => StunMapped addr | None => StunIgnore end.

Definition binding_response {E} (packet id : list Z) : res E StunResponse :=
  match
    kind ← stun_header packet id;
    found ← stun_walk (S (length packet)) packet id 20 (None, None);
    Ok (binding_outcome kind found)
  with
  | Ok r => Ok r
  | Err r => Ok r
  | Panic => Panic
  end.

(** ** The format (RFC 5389)

    A message is a header and a list of attributes, each padded to four bytes. *)
Record Attribute := mkAttr { attr_type : Z; attr_value : list Z; attr_pad : list Z }.
Definition attr_ok (a : Attribute) : Prop :=
  0 ≤ attr_type a < 65536 ∧ Z.of_nat (length (attr_value a)) < 65536 ∧
  Z.of_nat (length (attr_value a ++ attr_pad a)) = padded (Z.of_nat (length (attr_value a))) ∧
  bytes_ok (attr_value a ++ attr_pad a).
#[export] Instance attr_ok_dec a : Decision (attr_ok a).
Proof. unfold attr_ok. apply _. Defined.
Definition encode_attr (a : Attribute) : list Z :=
  to_be16 (attr_type a) ++ to_be16 (Z.of_nat (length (attr_value a))) ++ attr_value a ++ attr_pad a.
Definition encode_attrs (attrs : list Attribute) : list Z := attrs ≫= encode_attr.
Definition stun_prefix (kind size : Z) (id : list Z) : list Z :=
  to_be16 kind ++ to_be16 size ++ COOKIE ++ id.
Definition stun_message (kind : Z) (id : list Z) (attrs : list Attribute) : list Z :=
  stun_prefix kind (Z.of_nat (length (encode_attrs attrs))) id ++ encode_attrs attrs.

(** The values of the attributes a client must understand. *)
Definition ip_ok (ip : IpAddr) : Prop :=
  match ip with
  | V4 o => length o = 4%nat ∧ bytes_ok o
  | V6 o => length o = 16%nat ∧ bytes_ok o
  end.
Definition octets (ip : IpAddr) : list Z := match ip with V4 o | V6 o => o end.
Definition family (ip : IpAddr) : Z := match ip with V4 _ => 1 | V6 _ => 2 end.
Definition address_value (id : list Z) (addr : SocketAddr) (value : list Z) : Prop :=
  ip_ok (addr_ip addr) ∧ 0 ≤ addr_port addr < 65536 ∧
  ∃ reserved, value = reserved :: family (addr_ip addr) :: to_be16 (Z.lxor (addr_port addr) 0x2112)
    ++ zip_with Z.lxor (octets (addr_ip addr)) (COOKIE ++ id).
Definition error_value (code : Z) (value : list Z) : Prop :=
  ∃ r0 r1 class number reason, value = r0 :: r1 :: class :: number :: reason ∧
    3 ≤ class ≤ 6 ∧ number ≤ 99 ∧ code = class * 100 + number.
Definition fingerprint (prefix : list Z) : list Z :=
  to_be32 (Z.lxor (crc32 prefix) FINGERPRINT_XOR).

Definition of_type (t : Z) (attrs : list Attribute) : list (list Z) :=
  attr_value <$> filter (λ a, attr_type a = t) attrs.
Definition understood (t : Z) : Prop :=
  t = 0x0001 ∨ t = 0x0009 ∨ t = 0x000a ∨ t = 0x0020 ∨ 0x8000 ≤ t.

(** At most one attribute of a type, from a state where one may have been seen. *)
Definition slot {A} (P : A → list Z → Prop) (o o' : option A) (vs : list (list Z)) : Prop :=
  match o with
  | Some a => vs = [] ∧ o' = Some a
  | None =>
    match o', vs with
    | None, [] => True
    | Some a, [v] => P a v
    | _, _ => False
    end
  end.

(** The attributes after the bytes [prefix] are acceptable: no unknown mandatory
    one, at most one address and one error, and a fingerprint only at the end and
    over all the bytes before it. *)
Record acceptable (id prefix : list Z) (found : Found) (attrs : list Attribute) (found' : Found)
    : Prop := {
  acc_mapped : slot (address_value id) found.1 found'.1 (of_type 0x0020 attrs);
  acc_error : slot error_value found.2 found'.2 (of_type 0x0009 attrs);
  acc_understood : ∀ a, a ∈ attrs → understood (attr_type a);
  acc_fingerprint : ∀ l1 a l2, attrs = l1 ++ a :: l2 → attr_type a = 0x8028 →
    l2 = [] ∧ attr_value a = fingerprint (prefix ++ encode_attrs l1);
}.

(** ** Bits and bytes *)
Lemma lxor_bounded n a b : 0 ≤ n → 0 ≤ a < 2 ^ n → 0 ≤ b < 2 ^ n → 0 ≤ Z.lxor a b < 2 ^ n.
Proof.
  intros Hn Ha Hb. assert (0 ≤ Z.lxor a b) by (apply Z.lxor_nonneg; lia). split; [done|].
  destruct (decide (Z.lxor a b = 0)) as [->|]; [lia|].
  apply Z.log2_lt_pow2; [lia|].
  assert (∀ x, 0 ≤ x < 2 ^ n → x = 0 ∨ Z.log2 x < n) as Hlog.
  { intros x Hx. destruct (decide (x = 0)); [by left|]. right. apply Z.log2_lt_pow2; lia. }
  pose proof (Z.log2_lxor a b ltac:(lia) ltac:(lia)).
  destruct (Hlog a Ha) as [->|], (Hlog b Hb) as [->|]; simplify_eq; try lia.
  - rewrite Z.lxor_0_l in *. lia.
  - rewrite Z.lxor_0_r in *. lia.
Qed.
Lemma lxor_cancel_r a b c : Z.lxor a c = Z.lxor b c → a = b.
Proof.
  intros H%(f_equal (λ x, Z.lxor x c)). by rewrite !Z.lxor_assoc, Z.lxor_nilpotent, !Z.lxor_0_r in H.
Qed.
Lemma lxor_involutive a b : Z.lxor (Z.lxor a b) b = a.
Proof. by rewrite Z.lxor_assoc, Z.lxor_nilpotent, Z.lxor_0_r. Qed.

Lemma zip_lxor_involutive l k : (length l ≤ length k)%nat →
  zip_with Z.lxor (zip_with Z.lxor l k) k = l.
Proof.
  revert k. induction l as [|x l IH]; intros [|y k]; simpl; intros; try done; [lia|].
  rewrite lxor_involutive, IH; [done|lia].
Qed.
Lemma bytes_ok_zip_lxor l k : bytes_ok l → bytes_ok k → bytes_ok (zip_with Z.lxor l k).
Proof.
  unfold bytes_ok. intros Hl. revert k. induction Hl; intros k Hk; simpl; [constructor|].
  destruct Hk; constructor; [by apply (lxor_bounded 8)|eauto].
Qed.

Lemma be16_to_be16 n : be16 (n / 256) (n mod 256) = n.
Proof. unfold be16. pose proof (Z.div_mod n 256). lia. Qed.
Lemma to_be16_be16 a b : is_byte b → to_be16 (be16 a b) = [a; b].
Proof.
  unfold to_be16, be16, is_byte. intros.
  rewrite Z.div_add_l, Z.div_small, Z.add_0_r by lia.
  by rewrite (Z.add_comm (a * 256)), Z.mod_add, Z.mod_small by lia.
Qed.
Lemma be16_range a b : is_byte a → is_byte b → 0 ≤ be16 a b < 65536.
Proof. unfold be16, is_byte. lia. Qed.
Lemma bytes_ok_to_be16 n : 0 ≤ n < 65536 → bytes_ok (to_be16 n).
Proof.
  intros. assert (n / 256 < 256) by (apply Z.div_lt_upper_bound; lia).
  assert (0 ≤ n / 256) by (apply Z.div_pos; lia). pose proof (Z.mod_pos_bound n 256).
  unfold to_be16, bytes_ok, is_byte. repeat constructor; lia.
Qed.
Lemma to_be16_inj n m : to_be16 n = to_be16 m → n = m.
Proof. intros [= H1 H2]. rewrite <-(be16_to_be16 n), <-(be16_to_be16 m). by f_equal. Qed.
Lemma to_be32_inj n m : to_be32 n = to_be32 m → n = m.
Proof.
  unfold to_be32. intros [H1%to_be16_inj H2%to_be16_inj]%app_inj_1; [|done].
  rewrite (Z.div_mod n 65536), (Z.div_mod m 65536) by lia. lia.
Qed.

Lemma padded_spec n : 0 ≤ n → padded n = 4 * ((n + 3) / 4).
Proof.
  intros. unfold padded. rewrite <-Z.ldiff_land.
  change 3 with (Z.ones 2) at 2. rewrite Z.ldiff_ones_r by lia.
  rewrite Z.shiftl_mul_pow2, Z.shiftr_div_pow2 by lia. change (2 ^ 2) with 4. lia.
Qed.
Lemma padded_range n : 0 ≤ n → n ≤ padded n ≤ n + 3 ∧ padded n mod 4 = 0.
Proof.
  intros. rewrite padded_spec by done.
  pose proof (Z.div_mod (n + 3) 4 ltac:(lia)). pose proof (Z.mod_pos_bound (n + 3) 4 ltac:(lia)).
  split; [lia|]. by rewrite Z.mul_comm, Z.mod_mul.
Qed.

(** ** The checksum tells messages apart *)
Lemma crc_bit_spec c : crc_bit c = Z.lxor (c / 2) (if Z.odd c then 0xedb88320 else 0).
Proof.
  unfold crc_bit. rewrite Z.shiftr_div_pow2 by lia. change (2 ^ 1) with 2. f_equal.
  change 1 with (Z.ones 1). rewrite Z.land_ones, Zmod_odd by lia.
  by destruct (Z.odd c).
Qed.
Lemma crc_bit_range c : 0 ≤ c < 2 ^ 32 → 0 ≤ crc_bit c < 2 ^ 32.
Proof.
  intros Hc. rewrite crc_bit_spec. apply lxor_bounded; [lia| |by destruct (Z.odd c)].
  split; [apply Z.div_pos; lia|apply Z.div_lt_upper_bound; lia].
Qed.
(** The top bit of the polynomial keeps the bit that is shifted out. *)
Lemma crc_bit_top c : 0 ≤ c < 2 ^ 32 → Z.testbit (crc_bit c) 31 = Z.odd c.
Proof.
  intros Hc. rewrite crc_bit_spec, Z.lxor_spec.
  rewrite (Z.bits_above_log2 (c / 2) 31).
  - by destruct (Z.odd c).
  - apply Z.div_pos; lia.
  - destruct (decide (c / 2 = 0)) as [->|]; [done|].
    assert (0 ≤ c / 2) by (apply Z.div_pos; lia).
    apply Z.log2_lt_pow2; [lia|]. apply Z.div_lt_upper_bound; [lia|].
    change (2 * 2 ^ 31) with (2 ^ 32). lia.
Qed.
Lemma crc_bit_inj c d : 0 ≤ c < 2 ^ 32 → 0 ≤ d < 2 ^ 32 → crc_bit c = crc_bit d → c = d.
Proof.
  intros Hc Hd H. assert (Z.odd c = Z.odd d) as Hodd.
  { by rewrite <-(crc_bit_top c Hc), H, (crc_bit_top d Hd). }
  rewrite !crc_bit_spec, Hodd in H. apply lxor_cancel_r in H.
  rewrite (Z.div_mod c 2), (Z.div_mod d 2), H, !Zmod_odd, Hodd by lia. done.
Qed.
Lemma crc_bit_shift c y : 0 ≤ y → crc_bit (Z.lxor c (2 * y)) = Z.lxor (crc_bit c) y.
Proof.
  intros Hy. rewrite !crc_bit_spec.
  assert (∀ x, x / 2 = Z.shiftr x 1) as Hdiv by (intros; by rewrite Z.shiftr_div_pow2).
  rewrite !Hdiv, Z.shiftr_lxor, <-(Hdiv (2 * y)), (Z.mul_comm 2 y), Z.div_mul by lia.
  replace (Z.odd (Z.lxor c (y * 2))) with (Z.odd c).
  - rewrite !Z.lxor_assoc. f_equal. apply Z.lxor_comm.
  - rewrite <-!Z.bit0_odd, Z.lxor_spec, (Z.mul_comm y 2), Z.testbit_even_0. by destruct (Z.testbit c 0).
Qed.

Lemma crc_iter_range n c : 0 ≤ c < 2 ^ 32 → 0 ≤ Nat.iter n crc_bit c < 2 ^ 32.
Proof. intros Hc. induction n as [|n IH]; [done|]. by apply crc_bit_range. Qed.
Lemma crc_iter_inj n c d : 0 ≤ c < 2 ^ 32 → 0 ≤ d < 2 ^ 32 →
  Nat.iter n crc_bit c = Nat.iter n crc_bit d → c = d.
Proof.
  intros Hc Hd. induction n as [|n IH]; [done|]. intros H%crc_bit_inj; [by apply IH|..];
    by apply crc_iter_range.
Qed.
Lemma crc_iter_shift n c y : 0 ≤ y →
  Nat.iter n crc_bit (Z.lxor c (2 ^ Z.of_nat n * y)) = Z.lxor (Nat.iter n crc_bit c) y.
Proof.
  revert y. induction n as [|n IH]; intros y Hy.
  { change (2 ^ Z.of_nat 0) with 1. by rewrite Z.mul_1_l. }
  rewrite Nat2Z.inj_succ, Z.pow_succ_r by lia.
  replace (2 * 2 ^ Z.of_nat n * y) with (2 ^ Z.of_nat n * (2 * y)) by lia.
  rewrite !Nat.iter_succ, IH by lia. by apply crc_bit_shift.
Qed.

(** The bytes of a burst as one number, least significant first. *)
Fixpoint le_word (l : list Z) : Z := match l with [] => 0 | b :: l => b + 256 * le_word l end.
Lemma lxor_byte b y : is_byte b → Z.lxor b (256 * y) = b + 256 * y.
Proof.
  intros Hb. symmetry. apply Z.add_nocarry_lxor, Z.bits_inj'. intros n Hn.
  rewrite Z.land_spec, Z.bits_0. change 256 with (2 ^ 8). rewrite Z.mul_comm.
  destruct (decide (n < 8)).
  - rewrite Z.mul_pow2_bits_low by lia. apply andb_false_r.
  - unfold is_byte in Hb. destruct (decide (b = 0)) as [->|]; [by rewrite Z.bits_0|].
    rewrite (Z.bits_above_log2 b); [done|lia|].
    assert (Z.log2 b < 8) by (apply Z.log2_lt_pow2; lia). lia.
Qed.
Lemma le_word_range l : bytes_ok l → 0 ≤ le_word l < 2 ^ (8 * Z.of_nat (length l)).
Proof.
  induction 1 as [|b l Hb _ IH]; [done|]. cbn [le_word length].
  replace (8 * Z.of_nat (S (length l))) with (8 + 8 * Z.of_nat (length l)) by lia.
  rewrite Z.pow_add_r by lia. change (2 ^ 8) with 256. unfold is_byte in Hb. lia.
Qed.
Lemma le_word_inj l k : bytes_ok l → bytes_ok k → length l = length k → le_word l = le_word k → l = k.
Proof.
  unfold bytes_ok, is_byte. intros Hl. revert k.
  induction Hl as [|b l Hb Hl IH]; intros [|c k] Hk Hlen H; try done.
  inversion Hk; simplify_eq/=. f_equal; [lia|]. apply IH; [done..|lia].
Qed.

Lemma crc_fold_word c l : bytes_ok l →
  foldl crc_byte c l = Nat.iter (8 * length l) crc_bit (Z.lxor c (le_word l)).
Proof.
  intros Hl. revert c. induction Hl as [|b l Hb Hl IH]; intros c.
  { by rewrite Z.lxor_0_r. }
  cbn [foldl length le_word]. rewrite IH. unfold crc_byte.
  replace (8 * S (length l))%nat with (8 * length l + 8)%nat by lia.
  rewrite Nat.iter_add, <-(lxor_byte b) by done. f_equal.
  rewrite <-Z.lxor_assoc, <-(crc_iter_shift 8); [done|]. by apply le_word_range.
Qed.
Lemma crc_fold_range c l : bytes_ok l → 0 ≤ c < 2 ^ 32 → 0 ≤ foldl crc_byte c l < 2 ^ 32.
Proof.
  intros Hl. revert c. induction Hl as [|b l Hb Hl IH]; intros c Hc; [done|].
  apply IH, crc_iter_range, lxor_bounded; [lia|done|]. unfold is_byte in Hb. lia.
Qed.
Lemma crc_fold_inj l c d : bytes_ok l → 0 ≤ c < 2 ^ 32 → 0 ≤ d < 2 ^ 32 →
  foldl crc_byte c l = foldl crc_byte d l → c = d.
Proof.
  intros Hl. revert c d. induction Hl as [|b l Hb Hl IH]; intros c d Hc Hd H; [done|].
  assert (0 ≤ b < 2 ^ 32) by (unfold is_byte in Hb; lia).
  apply IH in H; [|by apply crc_iter_range, lxor_bounded..].
  apply crc_iter_inj in H; [|by apply lxor_bounded..]. by apply lxor_cancel_r in H.
Qed.

(** Two messages that differ in a burst of at most four bytes. *)
Lemma crc32_burst p m m' s :
  bytes_ok p → bytes_ok m → bytes_ok m' → bytes_ok s →
  length m = length m' → (length m ≤ 4)%nat →
  crc32 (p ++ m ++ s) = crc32 (p ++ m' ++ s) → m = m'.
Proof.
  intros Hp Hm Hm' Hs Hlen H4 H%lxor_cancel_r. rewrite !foldl_app in H.
  assert (0 ≤ u32_max < 2 ^ 32) as Hmax by done.
  pose proof (crc_fold_range _ p Hp Hmax) as Hc.
  apply crc_fold_inj in H; [|done|by apply crc_fold_range..].
  rewrite !crc_fold_word, <-Hlen in H by done.
  assert (∀ l, bytes_ok l → length l = length m → 0 ≤ le_word l < 2 ^ 32) as Hw.
  { intros l Hl He. pose proof (le_word_range l Hl).
    assert (2 ^ (8 * Z.of_nat (length l)) ≤ 2 ^ 32) by (apply Z.pow_le_mono_r; lia). lia. }
  apply crc_iter_inj in H; [|apply lxor_bounded; [lia|by rewrite <-crc_fold_word|by apply Hw]..].
  rewrite !(Z.lxor_comm _ (le_word _)) in H. apply lxor_cancel_r in H. by apply le_word_inj.
Qed.

(** ** One attribute *)
Lemma slot_none {A} (P : A → list Z → Prop) o o' : slot P o o' [] ↔ o' = o.
Proof. destruct o, o'; simpl; intuition congruence. Qed.
Lemma slot_app {A} (P : A → list Z → Prop) o o'' v vs :
  slot P o o'' (v ++ vs) ↔ ∃ o', slot P o o' v ∧ slot P o' o'' vs.
Proof.
  split.
  - destruct o as [a|]; simpl.
    + intros [[-> ->]%app_nil ->]. by exists (Some a).
    + destruct o'' as [b|], v as [|v [|? ?]]; simpl; try done; intros H.
      * exists None. split; [done|]. by destruct vs.
      * destruct vs; [|done]. by exists (Some b).
      * exists None. by destruct vs.
  - intros (o' & H1 & H2). destruct o as [a|]; simpl in *.
    + destruct H1 as [-> ->]. by destruct H2 as [-> ->].
    + destruct o' as [b|], v as [|v [|? ?]]; simpl in *; try done.
      destruct H2 as [-> ->]. done.
Qed.

(** The mask covers every address. *)
#[local] Opaque COOKIE.
Lemma mask_length id : length id = 12%nat → length (COOKIE ++ id) = 16%nat.
Proof. intros Hid. by rewrite length_app, Hid. Qed.
Lemma masked id o : length id = 12%nat → (length o ≤ 16)%nat →
  length (zip_with Z.lxor o (COOKIE ++ id)) = length o ∧
  zip_with Z.lxor (zip_with Z.lxor o (COOKIE ++ id)) (COOKIE ++ id) = o.
Proof.
  intros Hid Ho. rewrite length_zip_with, zip_lxor_involutive, mask_length by (rewrite ?mask_length; lia).
  split; [lia|done].
Qed.

Lemma mapped_address_of id addr value found : length id = 12%nat →
  address_value id addr value → found.1 = None → mapped_address id value found = Ok (Some addr, found.2).
Proof.
  intros Hid (Hip & Hport & reserved & ->) Hnone. destruct addr as [ip port]; simpl in *.
  unfold mapped_address. rewrite Hnone.
  destruct ip as [o|o], Hip as [Hlen _]; destruct (masked id o Hid ltac:(lia)) as [Hl Hz];
    simpl; rewrite Hl, Hlen; simpl; rewrite drop_0, be16_to_be16, lxor_involutive, Hz; done.
Qed.

(** The address that [octs] hides is written back as [octs]. *)
Lemma address_value_of id (v : list Z → IpAddr) d0 d1 d2 d3 octs :
  length id = 12%nat → (length octs ≤ 16)%nat → is_byte d2 → is_byte d3 →
  let o := zip_with Z.lxor octs (COOKIE ++ id) in
  ip_ok (v o) → family (v o) = d1 → octets (v o) = o →
  address_value id (mkSocket (v o) (Z.lxor (be16 d2 d3) 0x2112)) (d0 :: d1 :: d2 :: d3 :: octs).
Proof.
  intros Hid Hlen H2 H3 o Hok Hfam Hoct. pose proof (be16_range d2 d3 H2 H3).
  split; [done|]. split; [by apply (lxor_bounded 16)|]. exists d0. cbn [addr_ip addr_port].
  rewrite Hfam, Hoct, lxor_involutive, to_be16_be16 by done. subst o.
  by rewrite (proj2 (masked id octs Hid Hlen)).
Qed.

Lemma mapped_address_sound id data found f :
  length id = 12%nat → bytes_ok id → bytes_ok data → mapped_address id data found = Ok f →
  found.1 = None ∧ ∃ addr, address_value id addr data ∧ f = (Some addr, found.2).
Proof.
  intros Hid Hbid Hb. unfold mapped_address. destruct (found.1); [done|].
  destruct data as [|d0 [|d1 [|d2 [|d3 octs]]]]; try done. simpl. rewrite drop_0. intros Hm. split; [done|].
  unfold bytes_ok in Hb. rewrite !Forall_cons in Hb. destruct Hb as (_ & _ & H2 & H3 & Hocts).
  assert (bytes_ok (zip_with Z.lxor octs (COOKIE ++ id))) as Hbz.
  { apply bytes_ok_zip_lxor; [done|]. apply bytes_ok_app. split; [by apply (bool_decide_unpack _)|done]. }
  destruct ((d1 =? 1) && (length octs =? 4)%nat) eqn:H4; simpl in Hm; simplify_eq.
  { apply andb_true_iff in H4 as [->%Z.eqb_eq H4%Nat.eqb_eq]. eexists. split; [|done].
    apply (address_value_of id V4); [done|lia|done|done| |done|done].
    split; [|done]. rewrite (proj1 (masked id octs Hid ltac:(lia))). lia. }
  destruct ((d1 =? 2) && (length octs =? 16)%nat) eqn:H6; simpl in Hm; simplify_eq.
  apply andb_true_iff in H6 as [->%Z.eqb_eq H6%Nat.eqb_eq]. eexists. split; [|done].
  apply (address_value_of id V6); [done|lia|done|done| |done|done].
  split; [|done]. rewrite (proj1 (masked id octs Hid ltac:(lia))). lia.
Qed.

Lemma mapped_address_ignores id data found :
  match mapped_address id data found with Ok _ => True | Err e => e = StunIgnore | Panic => False end.
Proof.
  unfold mapped_address. destruct (found.1); [done|].
  destruct data as [|d0 [|d1 [|d2 [|d3 octs]]]]; try done. simpl. repeat case_match; simplify_eq/=; done.
Qed.

Lemma error_attribute_of code value found :
  error_value code value → found.2 = None → bytes_ok value →
  error_attribute value found = Ok (found.1, Some code).
Proof.
  intros (r0 & r1 & class & number & reason & -> & Hclass & Hnumber & ->) Hnone Hb.
  unfold error_attribute. rewrite Hnone. simpl.
  assert (class = 3 ∨ class = 4 ∨ class = 5 ∨ class = 6) as Hc by lia.
  assert ((99 <? number) = false) as -> by lia.
  by destruct Hc as [->|[->|[->| ->]]].
Qed.
Lemma error_attribute_sound data found f :
  error_attribute data found = Ok f →
  found.2 = None ∧ ∃ code, error_value code data ∧ f = (found.1, Some code).
Proof.
  unfold error_attribute. destruct data as [|d0 [|d1 [|d2 [|d3 reason]]]]; try done.
  destruct (found.2); [done|]. simpl. destruct (negb _ || _) eqn:Hc; simpl; [done|].
  destruct (99 <? d3) eqn:H99; simpl; [done|]. intros [= <-]. split; [done|].
  eexists. split; [|done]. exists d0, d1, d2, d3, reason.
  apply orb_false_iff in Hc as [_ Hc]. unfold in_range in Hc. split_and!; [done|lia..|done].
Qed.
Lemma error_attribute_ignores data found :
  match error_attribute data found with Ok _ => True | Err e => e = StunIgnore | Panic => False end.
Proof.
  unfold error_attribute. destruct data as [|d0 [|d1 [|d2 [|d3 reason]]]]; try done.
  destruct (found.2); simpl; [done|]. destruct (_ || _); simpl; [done|]. by destruct (99 <? d3).
Qed.

Lemma mapped_address_slot id data found :
  length id = 12%nat → bytes_ok id → bytes_ok data →
  match mapped_address id data found with
  | Ok f => slot (address_value id) found.1 f.1 [data] ∧ f.2 = found.2
  | Err e => e = StunIgnore ∧ ∀ o, ¬ slot (address_value id) found.1 o [data]
  | Panic => False
  end.
Proof.
  intros Hid Hbid Hb. pose proof (mapped_address_ignores id data found) as Hig.
  destruct (mapped_address id data found) as [f|e|] eqn:Hm; [| |done].
  - by apply mapped_address_sound in Hm as (-> & addr & Hv & ->).
  - split; [done|]. intros o Hs. destruct (found.1) eqn:Hf; simpl in Hs; [by destruct Hs|].
    destruct o as [addr|]; [|done]. by rewrite (mapped_address_of id addr data found) in Hm.
Qed.
Lemma error_attribute_slot data found : bytes_ok data →
  match error_attribute data found with
  | Ok f => f.1 = found.1 ∧ slot error_value found.2 f.2 [data]
  | Err e => e = StunIgnore ∧ ∀ o, ¬ slot error_value found.2 o [data]
  | Panic => False
  end.
Proof.
  intros Hb. pose proof (error_attribute_ignores data found) as Hig.
  destruct (error_attribute data found) as [f|e|] eqn:Hm; [| |done].
  - by apply error_attribute_sound in Hm as (-> & code & Hv & ->).
  - split; [done|]. intros o Hs. destruct (found.2) eqn:Hf; simpl in Hs; [by destruct Hs|].
    destruct o as [code|]; [|done]. by rewrite (error_attribute_of code data found) in Hm.
Qed.

(** One attribute as the walk accepts it; [last] says that nothing follows. *)
Definition accepts_attr (id prefix : list Z) (found : Found) (a : Attribute) (last : Prop)
    (found' : Found) : Prop :=
  slot (address_value id) found.1 found'.1 (of_type 0x0020 [a]) ∧
  slot error_value found.2 found'.2 (of_type 0x0009 [a]) ∧
  understood (attr_type a) ∧
  (attr_type a = 0x8028 → last ∧ attr_value a = fingerprint prefix).

#[local] Instance accepts_attr_proper id prefix found a :
  Proper (iff ==> eq ==> iff) (accepts_attr id prefix found a).
Proof. intros P Q HPQ f g ->. unfold accepts_attr. by rewrite HPQ. Qed.
Lemma of_type_one t a : of_type t [a] = if decide (attr_type a = t) then [attr_value a] else [].
Proof. unfold of_type. rewrite filter_cons. by case_decide. Qed.
Lemma of_type_cons t a attrs : of_type t (a :: attrs) = of_type t [a] ++ of_type t attrs.
Proof. unfold of_type. rewrite !filter_cons. by case_decide. Qed.
Lemma encode_attrs_cons a attrs : encode_attrs (a :: attrs) = encode_attr a ++ encode_attrs attrs.
Proof. done. Qed.

Lemma acceptable_nil id prefix found found' : acceptable id prefix found [] found' ↔ found' = found.
Proof.
  split.
  - intros [H1 H2 _ _]. apply slot_none in H1, H2. destruct found, found'; simpl in *. by subst.
  - intros ->. split; [by apply slot_none..| |].
    + intros a Ha. by apply elem_of_nil in Ha.
    + by intros [] ??.
Qed.
Lemma acceptable_cons id prefix found a attrs found'' :
  acceptable id prefix found (a :: attrs) found'' ↔
  ∃ found', accepts_attr id prefix found a (attrs = []) found' ∧
            acceptable id (prefix ++ encode_attr a) found' attrs found''.
Proof.
  split.
  - intros [H1 H2 H3 H4]. rewrite of_type_cons in H1, H2.
    apply slot_app in H1 as (o1 & H1 & H1'), H2 as (o2 & H2 & H2').
    exists (o1, o2). split.
    + split_and!; [done..|apply H3; by constructor|].
      intros Ht. destruct (H4 [] a attrs eq_refl Ht) as [-> ->]. by rewrite app_nil_r.
    + split; [done..|intros; apply H3; by constructor|].
      intros l1 b l2 -> Hb. destruct (H4 (a :: l1) b l2 eq_refl Hb) as [-> ->].
      by rewrite encode_attrs_cons, app_assoc.
  - intros (found' & (H1 & H2 & H3 & H4) & [H1' H2' H3' H4']).
    split; [rewrite of_type_cons; apply slot_app; eauto..| |].
    + intros b [->|Hb]%elem_of_cons; eauto.
    + intros [|c l1] b l2 [= <- ->] Hb.
      * destruct (H4 Hb) as [-> ->]. by rewrite app_nil_r.
      * destruct (H4' l1 b l2 eq_refl Hb) as [-> ->]. by rewrite encode_attrs_cons, app_assoc.
Qed.

(** The arms of the loop decide exactly that. *)
Lemma stun_attribute_spec id prefix a rest found :
  length id = 12%nat → bytes_ok id → bytes_ok (attr_value a) →
  let packet := prefix ++ encode_attr a ++ rest in
  let r := stun_attribute packet id (length prefix) (length (prefix ++ encode_attr a)) (attr_type a)
             (attr_value a) found in
  match r with
  | Ok found' => accepts_attr id prefix found a (rest = []) found'
  | Err e => e = StunIgnore ∧ ∀ found', ¬ accepts_attr id prefix found a (rest = []) found'
  | Panic => False
  end.
Proof.
  intros Hid Hbid Hb packet. unfold stun_attribute, accepts_attr.
  assert (∀ t, attr_type a ≠ t → of_type t [a] = []) as Hnot.
  { intros t Ht. rewrite of_type_one. by rewrite decide_False. }
  assert (∀ t, attr_type a = t → of_type t [a] = [attr_value a]) as His.
  { intros t Ht. rewrite of_type_one. by rewrite decide_True. }
  destruct (Z.eqb_spec (attr_type a) 0x20) as [H20|H20].
  { rewrite (His 0x20), (Hnot 0x9) by lia. pose proof (mapped_address_slot id (attr_value a) found) as Hs.
    destruct (mapped_address id (attr_value a) found) as [f|e|]; [| |by apply Hs].
    - destruct Hs as [Hs ->]; [done..|]. split_and!; [done|by apply slot_none|unfold understood; lia|lia].
    - destruct Hs as [-> Hs]; [done..|]. split; [done|]. intros f' (H & _). by eapply Hs. }
  destruct (Z.eqb_spec (attr_type a) 0x8028) as [H28|H28].
  { rewrite (Hnot 0x20), (Hnot 0x9) by lia.
    rewrite (slice_app [] prefix (encode_attr a ++ rest) 0 (length prefix) eq_refl eq_refl
      : slice packet 0 (length prefix) = Ok prefix).
    cbn [mbind res_bind]. destruct (negb _ || _ || _) eqn:Hc; simpl.
    - split; [done|]. intros f' (_ & _ & _ & H). destruct (H H28) as [-> Hv].
      rewrite Hv in Hc. subst packet. rewrite app_nil_r in Hc.
      by rewrite !Nat.eqb_refl, bool_decide_true in Hc.
    - apply orb_false_iff in Hc as [[_ Hl%negb_false_iff%Nat.eqb_eq]%orb_false_iff
        Hv%negb_false_iff%bool_decide_eq_true].
      split_and!; [by apply slot_none..|unfold understood; lia|]. intros _. split; [|done].
      subst packet. rewrite !length_app in Hl. apply nil_length_inv. lia. }
  destruct (Z.eqb_spec (attr_type a) 0x9) as [H9|H9].
  { rewrite (His 0x9), (Hnot 0x20) by lia. pose proof (error_attribute_slot (attr_value a) found Hb) as Hs.
    destruct (error_attribute (attr_value a) found) as [f|e|]; [| |done].
    - destruct Hs as [-> Hs]. split_and!; [by apply slot_none|done|unfold understood; lia|lia].
    - destruct Hs as [-> Hs]. split; [done|]. intros f' (_ & H & _). by eapply Hs. }
  rewrite (Hnot 0x20), (Hnot 0x9) by done.
  destruct ((attr_type a =? 1) || (attr_type a =? 10) || (32768 <=? attr_type a)) eqn:Hu.
  - assert (understood (attr_type a)) by (unfold understood; lia).
    destruct ((attr_type a =? 1) || (attr_type a =? 10)); [|destruct (32768 <=? attr_type a); [|done]].
    all: split_and!; [by apply slot_none..|done|lia].
  - apply orb_false_iff in Hu as [H1 H2]. rewrite H1, H2. split; [done|].
    intros f' (_ & _ & [?|[?|[?|[?|?]]]] & _); lia.
Qed.

(** ** The walk *)
Lemma length_encode_attr a : attr_ok a →
  length (encode_attr a) = (4 + Z.to_nat (padded (Z.of_nat (length (attr_value a)))))%nat.
Proof. intros (_ & _ & H & _). unfold encode_attr. rewrite !length_app in *. simpl. lia. Qed.

(** The head of a list of bytes is an attribute, or the walk stops there. *)
Lemma next_attribute l : bytes_ok l → l ≠ [] →
  (∃ a rest, attr_ok a ∧ l = encode_attr a ++ rest) ∨
  (length l < 4)%nat ∨
  (∃ t0 t1 l0 l1 rest, l = t0 :: t1 :: l0 :: l1 :: rest ∧
     (length rest < Z.to_nat (padded (be16 l0 l1)))%nat).
Proof.
  intros Hb Hne. destruct l as [|t0 [|t1 [|l0 [|l1 rest]]]]; [done|right; left; simpl; lia..|].
  unfold bytes_ok in Hb. rewrite !Forall_cons in Hb. destruct Hb as (B0 & B1 & B2 & B3 & Hrest).
  pose proof (be16_range l0 l1 B2 B3). pose proof (be16_range t0 t1 B0 B1).
  pose proof (padded_range (be16 l0 l1) ltac:(lia)) as [Hp _].
  destruct (decide (length rest < Z.to_nat (padded (be16 l0 l1)))%nat) as [|Hlen];
    [right; right; by repeat eexists|left].
  set (n := Z.to_nat (be16 l0 l1)). set (m := Z.to_nat (padded (be16 l0 l1))) in *.
  assert (Z.of_nat (length (take n rest)) = be16 l0 l1) as Hn by (rewrite length_take; lia).
  exists (mkAttr (be16 t0 t1) (take n rest) (take (m - n) (drop n rest))), (drop m rest).
  assert (take n rest ++ take (m - n) (drop n rest) = take m rest) as Htake.
  { replace m with (n + (m - n))%nat at 2 by lia. by rewrite take_take_drop. }
  split.
  - unfold attr_ok. cbn [attr_type attr_value attr_pad]. rewrite Hn, Htake, length_take.
    split_and!; [lia..|]. by apply bytes_ok_take.
  - unfold encode_attr. cbn [attr_type attr_value attr_pad].
    rewrite Hn, !to_be16_be16 by done. simpl. by rewrite Htake, take_drop.
Qed.

(** One round of the loop on an attribute. *)
Lemma stun_walk_attr fuel id prefix a rest found : attr_ok a →
  stun_walk (S fuel) (prefix ++ encode_attr a ++ rest) id (length prefix) found =
  (found ← stun_attribute (prefix ++ encode_attr a ++ rest) id (length prefix)
     (length (prefix ++ encode_attr a)) (attr_type a) (attr_value a) found;
   stun_walk fuel (prefix ++ encode_attr a ++ rest) id (length (prefix ++ encode_attr a)) found).
Proof.
  intros Ha. pose proof (length_encode_attr a Ha) as Hlen.
  set (packet := prefix ++ encode_attr a ++ rest).
  assert (length packet = length prefix + length (encode_attr a) + length rest)%nat as Hp
    by (subst packet; rewrite !length_app; lia).
  assert (∀ i x, encode_attr a !! i = Some x → idx (E:=StunResponse) packet (length prefix + i) = Ok x) as Hidx.
  { intros i x Hx. subst packet. apply idx_Ok. rewrite lookup_app_r, Nat.add_comm, Nat.add_sub by lia.
    by apply lookup_app_l_Some. }
  cbn [stun_walk]. rewrite (proj2 (Nat.ltb_lt _ _)) by lia.
  rewrite (proj2 (Nat.ltb_ge _ (length prefix + 4))) by lia. cbn [fail_if mbind res_bind].
  pose proof (Hidx 0%nat (attr_type a / 256) eq_refl) as H0. rewrite Nat.add_0_r in H0.
  rewrite H0, (Hidx 1%nat (attr_type a mod 256) eq_refl),
    (Hidx 2%nat (Z.of_nat (length (attr_value a)) / 256) eq_refl),
    (Hidx 3%nat (Z.of_nat (length (attr_value a)) mod 256) eq_refl).
  cbn [mbind res_bind]. rewrite !be16_to_be16, Nat2Z.id.
  replace (length prefix + 4 + Z.to_nat (padded (Z.of_nat (length (attr_value a)))))%nat
    with (length (prefix ++ encode_attr a)) by (rewrite length_app; lia).
  rewrite (proj2 (Nat.ltb_ge _ (length (prefix ++ encode_attr a)))) by (rewrite length_app; lia).
  cbn [fail_if mbind res_bind].
  replace (slice packet (length prefix + 4) _) with (Ok (E:=StunResponse) (attr_value a)); [done|].
  symmetry. subst packet. unfold encode_attr. rewrite <-!app_assoc.
  change (to_be16 ?t ++ to_be16 ?n ++ ?v) with ((to_be16 t ++ to_be16 n) ++ v).
  rewrite app_assoc. apply slice_app; rewrite ?length_app; simpl; lia.
Qed.

Lemma encode_attr_cons a rest :
  encode_attr a ++ rest = attr_type a / 256 :: attr_type a mod 256 ::
    Z.of_nat (length (attr_value a)) / 256 :: Z.of_nat (length (attr_value a)) mod 256 ::
    attr_value a ++ attr_pad a ++ rest.
Proof. unfold encode_attr. simpl. by rewrite <-app_assoc. Qed.
Lemma encode_attrs_nil attrs : encode_attrs attrs = [] ↔ attrs = [].
Proof. split; [|by intros ->]. destruct attrs as [|a attrs]; [done|]. by rewrite encode_attrs_cons, encode_attr_cons. Qed.
Lemma encode_attr_inj a b rest rest' : attr_ok a → attr_ok b →
  encode_attr a ++ rest = encode_attr b ++ rest' → a = b ∧ rest = rest'.
Proof.
  intros (_ & _ & Ha & _) (_ & _ & Hb & _). rewrite !encode_attr_cons. intros [= T0 T1 L0 L1 H].
  assert (length (attr_value a) = length (attr_value b)) as Hlen.
  { apply Nat2Z.inj. rewrite <-(be16_to_be16 (Z.of_nat (length (attr_value a)))), L0, L1.
    apply be16_to_be16. }
  apply app_inj_1 in H as [Hv H]; [|done]. rewrite !length_app in Ha, Hb. rewrite Hlen in Ha.
  apply app_inj_1 in H as [Hpad ->]; [|lia]. split; [|done]. destruct a, b; simpl in *; subst.
  f_equal. rewrite <-(be16_to_be16 attr_type0), T0, T1. apply be16_to_be16.
Qed.

(** Where no attribute starts, the walk stops and no encoding is possible. *)
Lemma stun_walk_stops fuel id prefix rest found :
  ((length rest < 4)%nat ∨
   ∃ t0 t1 l0 l1 rest', rest = t0 :: t1 :: l0 :: l1 :: rest' ∧
     (length rest' < Z.to_nat (padded (be16 l0 l1)))%nat) → rest ≠ [] →
  stun_walk (S fuel) (prefix ++ rest) id (length prefix) found = Err StunIgnore ∧
  ∀ attrs, Forall attr_ok attrs → rest ≠ encode_attrs attrs.
Proof.
  intros Hstop Hne. assert (0 < length rest)%nat by (destruct rest; [done|simpl; lia]).
  assert (length (prefix ++ rest) = length prefix + length rest)%nat as Hl by apply length_app.
  cbn [stun_walk]. rewrite (proj2 (Nat.ltb_lt _ _)) by lia.
  destruct Hstop as [Hshort|(t0 & t1 & l0 & l1 & rest' & -> & Hshort)].
  - rewrite (proj2 (Nat.ltb_lt (length (prefix ++ rest)) _)) by lia. split; [done|].
    intros [|a attrs] _ ->; [done|]. rewrite encode_attrs_cons, encode_attr_cons in Hshort.
    simpl in Hshort. lia.
  - simpl in Hl. rewrite (proj2 (Nat.ltb_ge (length (prefix ++ _)) _)) by lia.
    assert (∀ i x rest k, k = (length prefix + length i)%nat →
      idx (E:=StunResponse) (prefix ++ i ++ x :: rest) k = Ok x) as Hidx.
    { intros i x rest k ->. rewrite app_assoc. apply idx_app. by rewrite length_app. }
    cbn [fail_if mbind res_bind]. rewrite (idx_app prefix _ _ _ eq_refl). cbn [mbind res_bind].
    rewrite (Hidx [t0] t1 (l0 :: l1 :: rest') (length prefix + 1)%nat eq_refl : idx (prefix ++ t0 :: _) _ = _),
      (Hidx [t0; t1] l0 (l1 :: rest') (length prefix + 2)%nat eq_refl : idx (prefix ++ t0 :: _) _ = _),
      (Hidx [t0; t1; l0] l1 rest' (length prefix + 3)%nat eq_refl : idx (prefix ++ t0 :: _) _ = _).
    cbn [mbind res_bind]. rewrite (proj2 (Nat.ltb_lt _ (length prefix + 4 + _))) by lia. split; [done|].
    intros [|a attrs] Hok; [done|]. inversion Hok as [|?? (_ & _ & Hp & _) _]; subst.
    rewrite encode_attrs_cons, encode_attr_cons. intros [= -> -> -> -> ->].
    rewrite be16_to_be16, <-Hp, app_assoc, (length_app (_ ++ _)) in Hshort. lia.
Qed.

(** The value of an address or an error is read in one way only. *)
Lemma slot_fun {A} (P : A → list Z → Prop) o o1 o2 vs :
  (∀ a b v, P a v → P b v → a = b) → slot P o o1 vs → slot P o o2 vs → o1 = o2.
Proof.
  intros HP H1 H2. destruct o as [a|]; simpl in *.
  { destruct H1 as [_ ->], H2 as [_ ->]. done. }
  destruct o1, o2, vs as [|v [|? ?]]; try done. f_equal. eauto.
Qed.
Lemma accepts_attr_fun id prefix found a last f1 f2 : length id = 12%nat →
  accepts_attr id prefix found a last f1 → accepts_attr id prefix found a last f2 → f1 = f2.
Proof.
  intros Hid (H1 & H2 & _) (H1' & H2' & _). destruct f1, f2; simpl in *. f_equal.
  - eapply slot_fun, H1'; [|done]. intros x y v Hx Hy.
    apply (mapped_address_of id _ _ (None, None)) in Hx, Hy; [|done..]. congruence.
  - eapply slot_fun, H2'; [|done]. clear.
    intros x y v (? & ? & ? & ? & ? & -> & _ & _ & ->) (? & ? & ? & ? & ? & [=] & _ & _ & ->). by subst.
Qed.

(** The walk finds an acceptable list of attributes whenever there is one. *)
Lemma stun_walk_spec fuel id prefix rest found :
  length id = 12%nat → bytes_ok id → bytes_ok rest → (length rest < fuel)%nat →
  match stun_walk fuel (prefix ++ rest) id (length prefix) found with
  | Ok f => ∃ attrs, Forall attr_ok attrs ∧ rest = encode_attrs attrs ∧ acceptable id prefix found attrs f
  | Err e => e = StunIgnore ∧
      ∀ attrs f, Forall attr_ok attrs → rest = encode_attrs attrs → ¬ acceptable id prefix found attrs f
  | Panic => False
  end.
Proof.
  intros Hid Hbid. revert prefix rest found.
  induction fuel as [|fuel IH]; intros prefix rest found Hb Hfuel; [lia|].
  destruct (decide (rest = [])) as [->|Hne].
  { cbn [stun_walk]. rewrite app_nil_r, Nat.ltb_irrefl. exists []. by rewrite acceptable_nil. }
  destruct (next_attribute rest Hb Hne) as [(a & rest' & Ha & ->)|Hstop]; cycle 1.
  { destruct (stun_walk_stops fuel id prefix rest found Hstop Hne) as [-> Hno].
    split; [done|]. intros attrs f Hok Heq. by apply Hno in Heq. }
  apply bytes_ok_app in Hb as [Hba Hb]. rewrite stun_walk_attr by done.
  assert (bytes_ok (attr_value a)) as Hv by (destruct Ha as (_ & _ & _ & [? _]%bytes_ok_app); done).
  assert (∀ attrs, Forall attr_ok attrs → encode_attr a ++ rest' = encode_attrs attrs →
    ∃ attrs', attrs = a :: attrs' ∧ Forall attr_ok attrs' ∧ rest' = encode_attrs attrs') as Hcons.
  { intros [|b attrs] Hok; [by rewrite encode_attr_cons|]. inversion Hok; subst.
    rewrite encode_attrs_cons. intros [-> ->]%encode_attr_inj; eauto. }
  pose proof (stun_attribute_spec id prefix a rest' found Hid Hbid Hv) as Hattr. cbv zeta in Hattr.
  destruct (stun_attribute _ _ _ _ _ _ _) as [f1|e|]; cbn [mbind res_bind]; [| |done].
  - assert (length rest' < fuel)%nat as Hf.
    { rewrite length_app, length_encode_attr in Hfuel by done. lia. }
    specialize (IH (prefix ++ encode_attr a) rest' f1 Hb Hf). rewrite <-app_assoc in IH.
    destruct (stun_walk _ _ _ _ _) as [f2|e|]; [| |done].
    + destruct IH as (attrs & Hok & -> & Hacc). exists (a :: attrs). split_and!; [by constructor|done|].
      apply acceptable_cons. exists f1. by rewrite encode_attrs_nil in Hattr.
    + destruct IH as [-> Hno]. split; [done|]. intros attrs f Hok Heq.
      destruct (Hcons attrs Hok Heq) as (attrs' & -> & Hok' & ->).
      intros (f1' & Ha' & Hacc)%acceptable_cons. rewrite encode_attrs_nil in Hattr.
      rewrite (accepts_attr_fun _ _ _ _ _ _ _ Hid Hattr Ha') in Hno. by eapply Hno.
  - destruct Hattr as [-> Hno]. split; [done|]. intros attrs f Hok Heq.
    destruct (Hcons attrs Hok Heq) as (attrs' & -> & Hok' & ->).
    intros (f1 & Ha' & _)%acceptable_cons. apply (Hno f1). by rewrite encode_attrs_nil.
Qed.

(** ** The header *)
Lemma encode_attrs_size attrs : Forall attr_ok attrs → Z.of_nat (length (encode_attrs attrs)) mod 4 = 0.
Proof.
  induction 1 as [|a attrs Ha _ IH]; [done|]. rewrite encode_attrs_cons, length_app, length_encode_attr by done.
  pose proof (padded_range (Z.of_nat (length (attr_value a))) ltac:(lia)) as [Hr Hm].
  clear Ha. Z.to_euclidean_division_equations. lia.
Qed.
Lemma bytes_ok_encode_attrs attrs : Forall attr_ok attrs → bytes_ok (encode_attrs attrs).
Proof.
  induction 1 as [|a attrs (Ht & Hl & _ & Hb) _ IH]; [constructor|].
  rewrite encode_attrs_cons. unfold encode_attr.
  repeat (apply bytes_ok_app; split); try done; try (apply bytes_ok_to_be16; lia);
    by apply bytes_ok_app in Hb as [? ?].
Qed.

(** The fields of a header, and of the prefix of a message. *)
Lemma header_fields (packet : list Z) : (20 ≤ length packet)%nat → ∃ k0 k1 s0 s1 cookie transaction rest,
  packet = [k0; k1; s0; s1] ++ cookie ++ transaction ++ rest ∧
  length cookie = 4%nat ∧ length transaction = 12%nat.
Proof.
  intros Hlen. destruct packet as [|k0 [|k1 [|s0 [|s1 l]]]]; try (simpl in Hlen; lia).
  simpl in Hlen. exists k0, k1, s0, s1, (take 4 l), (take 12 (drop 4 l)), (drop 12 (drop 4 l)).
  rewrite !take_drop, !length_take, length_drop. split; [done|lia].
Qed.
Lemma stun_prefix_fields kind n id rest : stun_prefix kind n id ++ rest =
  [kind / 256; kind mod 256; n / 256; n mod 256] ++ COOKIE ++ id ++ rest.
Proof. unfold stun_prefix. by rewrite <-!app_assoc. Qed.
Lemma length_stun_prefix kind n id : length id = 12%nat → length (stun_prefix kind n id) = 20%nat.
Proof. intros Hid. unfold stun_prefix. by rewrite !length_app, Hid. Qed.

(** A header is accepted exactly when it is the prefix of a message. *)
Lemma stun_header_fields k0 k1 s0 s1 cookie transaction rest id :
  length cookie = 4%nat → length transaction = 12%nat →
  let size := be16 s0 s1 in
  let kind := be16 k0 k1 in
  stun_header ([k0; k1; s0; s1] ++ cookie ++ transaction ++ rest) id =
  if bool_decide (cookie = COOKIE ∧ transaction = id ∧ size = Z.of_nat (length rest) ∧
       size mod 4 = 0 ∧ (kind = 0x0101 ∨ kind = 0x0111))
  then Ok kind else Err StunIgnore.
Proof.
  intros Hc Ht size kind. set (packet := _ ++ _).
  assert (length packet = 20 + length rest)%nat as Hlen.
  { subst packet. rewrite !length_app, Hc, Ht. done. }
  unfold stun_header. rewrite (proj2 (Nat.ltb_ge _ _)) by lia. cbn [fail_if mbind res_bind].
  assert (slice packet 4 8 = Ok (E:=StunResponse) cookie) as ->.
  { apply (slice_app [k0; k1; s0; s1]); [done|by rewrite Hc]. }
  assert (slice packet 8 20 = Ok (E:=StunResponse) transaction) as ->.
  { apply (slice_app ([k0; k1; s0; s1] ++ cookie)); rewrite ?length_app, ?Hc, ?Ht; done. }
  cbn [mbind res_bind].
  change (idx packet 2) with (Ok (E:=StunResponse) s0). change (idx packet 3) with (Ok (E:=StunResponse) s1).
  change (idx packet 0) with (Ok (E:=StunResponse) k0). change (idx packet 1) with (Ok (E:=StunResponse) k1).
  cbn [mbind res_bind]. fold size kind. rewrite Hlen, Nat2Z.inj_add.
  change (Z.of_nat 20) with 20. clearbody size kind.
  destruct (bool_decide (cookie = COOKIE)) eqn:H1; cbn [negb fail_if mbind res_bind]; cycle 1.
  { rewrite bool_decide_false; [done|]. rewrite bool_decide_eq_false in H1. tauto. }
  destruct (bool_decide (transaction = id)) eqn:H2; cbn [negb fail_if mbind res_bind]; cycle 1.
  { rewrite bool_decide_false; [done|]. rewrite bool_decide_eq_false in H2. tauto. }
  apply bool_decide_eq_true in H1, H2.
  destruct (negb (size mod 4 =? 0) || _) eqn:H3; cbn [fail_if mbind res_bind].
  { rewrite bool_decide_false; [done|]. intros (_ & _ & ? & ? & ?). lia. }
  destruct (negb (kind =? 257) && _) eqn:H4; cbn [fail_if mbind res_bind].
  { rewrite bool_decide_false; [done|]. intros (_ & _ & ? & ? & ?). lia. }
  rewrite bool_decide_true; [done|]. split_and!; [done..|lia|lia|lia].
Qed.

(** ** The reader *)
(** [attrs] make a message of the kind with the found values. *)
Definition answers (id : list Z) (kind : Z) (attrs : list Attribute) (found : Found) : Prop :=
  Forall attr_ok attrs ∧ Z.of_nat (length (encode_attrs attrs)) < 65536 ∧
  acceptable id (stun_prefix kind (Z.of_nat (length (encode_attrs attrs))) id) (None, None) attrs found.

Lemma stun_message_inj kind kind' id attrs attrs' :
  Forall attr_ok attrs → Forall attr_ok attrs' →
  stun_message kind id attrs = stun_message kind' id attrs' → kind = kind' ∧ attrs = attrs'.
Proof.
  intros Hok Hok'. unfold stun_message. rewrite !stun_prefix_fields. intros [= K0 K1 _ _ H].
  split; [by rewrite <-(be16_to_be16 kind), <-(be16_to_be16 kind'), K0, K1|].
  apply app_inv_head in H.
  revert attrs' Hok' H. induction Hok as [|a attrs Ha Hok IH]; intros [|b attrs'] Hok' H; try done.
  inversion Hok'; subst. rewrite !encode_attrs_cons in H.
  apply encode_attr_inj in H as [-> H]; [|done..]. f_equal. by apply IH.
Qed.

(** The reader returns what the only possible list of attributes says. *)
Lemma binding_response_spec packet id : bytes_ok packet → length id = 12%nat → bytes_ok id →
  (∃ kind attrs found, (kind = 0x0101 ∨ kind = 0x0111) ∧ packet = stun_message kind id attrs ∧
     answers id kind attrs found ∧ ∀ E, binding_response (E:=E) packet id = Ok (binding_outcome kind found)) ∨
  ((∀ kind attrs found, kind = 0x0101 ∨ kind = 0x0111 → packet = stun_message kind id attrs →
      ¬ answers id kind attrs found) ∧ ∀ E, binding_response (E:=E) packet id = Ok StunIgnore).
Proof.
  intros Hb Hid Hbid. unfold binding_response.
  destruct (decide (length packet < 20)%nat) as [Hshort|Hlen].
  { right. split; [|intros; unfold stun_header; by rewrite (proj2 (Nat.ltb_lt _ _)) by lia].
    intros kind attrs found _ -> _. unfold stun_message in Hshort.
    rewrite length_app, length_stun_prefix in Hshort by done. lia. }
  destruct (header_fields packet ltac:(lia)) as (k0 & k1 & s0 & s1 & cookie & tr & rest & -> & Hc & Ht).
  rewrite stun_header_fields by done. simpl in Hb. unfold bytes_ok in Hb. rewrite !Forall_cons, !Forall_app in Hb.
  destruct Hb as (B0 & B1 & B2 & B3 & _ & _ & Hrest).
  case_bool_decide as Hh; cycle 1.
  { right. split; [|done]. intros kind attrs found Hkind Heq (Hok & Hsize & _). apply Hh.
    unfold stun_message in Heq. rewrite stun_prefix_fields in Heq. injection Heq as -> -> -> -> Heq.
    apply app_inj_1 in Heq as [-> Heq]; [|done]. apply app_inj_1 in Heq as [-> ->]; [|congruence].
    rewrite !be16_to_be16. split_and!; [done..|by apply encode_attrs_size|done]. }
  destruct Hh as (-> & -> & Hsize & Hmod & Hkind). cbn [mbind res_bind].
  assert ([k0; k1; s0; s1] ++ COOKIE ++ id ++ rest =
    stun_prefix (be16 k0 k1) (Z.of_nat (length rest)) id ++ rest) as Hp.
  { rewrite <-Hsize. unfold stun_prefix. rewrite !to_be16_be16 by done. by rewrite <-!app_assoc. }
  rewrite Hp. set (prefix := stun_prefix _ _ _) in *.
  pose proof (stun_walk_spec (S (length (prefix ++ rest))) id prefix rest (None, None) Hid Hbid) as Hwalk.
  rewrite (length_stun_prefix _ _ _ Hid : length prefix = 20%nat) in Hwalk.
  specialize (Hwalk ltac:(tauto) ltac:(rewrite length_app; lia)).
  destruct (stun_walk _ _ _ _ _) as [found|e|]; [left|right|done].
  - destruct Hwalk as (attrs & Hok & -> & Hacc). exists (be16 k0 k1), attrs, found.
    split_and!; [done..| |done]. split_and!; [done| |done]. pose proof (be16_range s0 s1 B2 B3). lia.
  - destruct Hwalk as [-> Hno]. split; [|done]. intros kind attrs found Hk Heq (Hok & _ & Hacc).
    subst prefix. rewrite <-Hp in Heq. unfold stun_message in Heq. rewrite stun_prefix_fields in Heq.
    injection Heq as -> -> _ _ ->%app_inv_head. rewrite !be16_to_be16 in Hno. by eapply Hno.
Qed.

Lemma acceptable_fun id prefix found attrs f1 f2 : length id = 12%nat →
  acceptable id prefix found attrs f1 → acceptable id prefix found attrs f2 → f1 = f2.
Proof.
  intros Hid. revert prefix found. induction attrs as [|a attrs IH]; intros prefix found.
  { by intros ->%acceptable_nil ->%acceptable_nil. }
  intros (g1 & H1 & H1')%acceptable_cons (g2 & H2 & H2')%acceptable_cons.
  rewrite (accepts_attr_fun _ _ _ _ _ _ _ Hid H1 H2) in H1'. eauto.
Qed.
Lemma bytes_ok_stun_prefix kind n id :
  kind = 0x0101 ∨ kind = 0x0111 → 0 ≤ n < 65536 → bytes_ok id → bytes_ok (stun_prefix kind n id).
Proof.
  intros Hk Hn Hid. unfold stun_prefix. rewrite !bytes_ok_app.
  split_and!; try (apply bytes_ok_to_be16; lia); [|done]. by apply (bool_decide_unpack _).
Qed.
Lemma bytes_ok_stun_message kind id attrs :
  kind = 0x0101 ∨ kind = 0x0111 → bytes_ok id → Forall attr_ok attrs →
  Z.of_nat (length (encode_attrs attrs)) < 65536 → bytes_ok (stun_message kind id attrs).
Proof.
  intros. apply bytes_ok_app. split; [|by apply bytes_ok_encode_attrs].
  apply bytes_ok_stun_prefix; [done|lia|done].
Qed.
(** On a message of the format the reader says what its attributes say. *)
Lemma binding_response_of {E} id kind attrs found : length id = 12%nat → bytes_ok id →
  kind = 0x0101 ∨ kind = 0x0111 → answers id kind attrs found →
  binding_response (E:=E) (stun_message kind id attrs) id = Ok (binding_outcome kind found).
Proof.
  intros Hid Hbid Hkind Ha. pose proof Ha as (Hok & Hsize & Hacc).
  destruct (binding_response_spec (stun_message kind id attrs) id)
    as [(kind' & attrs' & found' & _ & Heq & (Hok' & _ & Hacc') & ->)|[Hno _]]; [|done..| |].
  - by apply bytes_ok_stun_message.
  - apply stun_message_inj in Heq as [<- <-]; [|done..].
    by rewrite (acceptable_fun _ _ _ _ _ _ Hid Hacc Hacc').
  - exfalso. by eapply Hno.
Qed.
Lemma binding_outcome_mapped kind found addr : kind = 0x0101 ∨ kind = 0x0111 →
  binding_outcome kind found = StunMapped addr ↔ kind = 0x0101 ∧ found.1 = Some addr.
Proof. destruct found as [[?|] [?|]]; intros [-> | ->]; cbn; intuition congruence. Qed.
Lemma binding_outcome_error kind found : kind = 0x0101 ∨ kind = 0x0111 →
  binding_outcome kind found = StunError ↔ kind = 0x0111 ∧ is_Some found.2.
Proof. destruct found as [[?|] [?|]]; intros [-> | ->]; cbn; rewrite ?is_Some_alt; intuition congruence. Qed.

(** A value changed in place leaves the layout as it is. *)
Lemma attr_ok_burst t x m m' y pad : length m' = length m → bytes_ok m' →
  attr_ok (mkAttr t (x ++ m ++ y) pad) → attr_ok (mkAttr t (x ++ m' ++ y) pad).
Proof.
  unfold attr_ok. cbn [attr_type attr_value attr_pad]. rewrite !length_app, !bytes_ok_app. intros ->. tauto.
Qed.
Lemma encode_attrs_app l k : encode_attrs (l ++ k) = encode_attrs l ++ encode_attrs k.
Proof. apply bind_app. Qed.
Lemma encode_attrs_burst l1 t x m y pad l2 :
  encode_attrs (l1 ++ mkAttr t (x ++ m ++ y) pad :: l2) =
  (encode_attrs l1 ++ to_be16 t ++ to_be16 (Z.of_nat (length (x ++ m ++ y))) ++ x) ++ m ++
  (y ++ pad ++ encode_attrs l2).
Proof.
  rewrite encode_attrs_app, encode_attrs_cons. unfold encode_attr. cbn [attr_type attr_value attr_pad].
  by rewrite <-!app_assoc.
Qed.

Lemma crc32_attrs_burst prefix l1 t x m m' y pad l2 :
  bytes_ok prefix → Forall attr_ok (l1 ++ mkAttr t (x ++ m ++ y) pad :: l2) →
  length m' = length m → (length m ≤ 4)%nat → bytes_ok m' →
  crc32 (prefix ++ encode_attrs (l1 ++ mkAttr t (x ++ m ++ y) pad :: l2)) =
  crc32 (prefix ++ encode_attrs (l1 ++ mkAttr t (x ++ m' ++ y) pad :: l2)) → m' = m.
Proof.
  intros Hp Hb%bytes_ok_encode_attrs Hlen H4 Hm'. rewrite !encode_attrs_burst in *.
  assert (length (x ++ m' ++ y) = length (x ++ m ++ y)) as -> by (by rewrite !length_app, Hlen).
  apply bytes_ok_app in Hb as [Hl [Hm Hr]%bytes_ok_app]. rewrite (app_assoc prefix _ (m ++ _)), (app_assoc prefix _ (m' ++ _)). intros H.
  symmetry. eapply crc32_burst, H; [by apply bytes_ok_app|done..|lia].
Qed.

(** The probe is a message with a valid fingerprint, and a reflected probe is not
    an answer. *)
Lemma binding_request_message id :
  binding_request id =
  stun_message 0x0001 id [mkAttr 0x8028 (fingerprint (stun_prefix 0x0001 8 id)) []].
Proof.
  unfold binding_request, fingerprint.
  assert (stun_prefix 1 8 id = [0; 1; 0; 8] ++ COOKIE ++ id) as -> by done.
  set (c := to_be32 _). assert (length c = 4%nat) by done. clearbody c.
  destruct c as [|c0 [|c1 [|c2 [|c3 [|? ?]]]]]; try done.
Qed.
Lemma binding_request_not_answer {E} id id' : length id = 12%nat →
  binding_response (E:=E) (binding_request id) id' = Ok StunIgnore.
Proof.
  intros Hid. rewrite binding_request_message. unfold binding_response, stun_message.
  rewrite stun_prefix_fields, stun_header_fields by done.
  rewrite bool_decide_false; [done|]. intros (_ & _ & _ & _ & [H|H]); by vm_compute in H.
Qed.

(** * Properties *)

(** C36: the reader implements the format.  It reports an address exactly on the
    messages that are a success response to this transaction: a list of padded
    attributes, one of them the address under the mask, none mandatory and
    unknown, at most one error, and a fingerprint only at the end and over all the
    bytes before it.  It reports an error exactly on the error responses of that
    form; everything else is ignored, and no datagram makes it panic. *)
Theorem stun_reader_refines_format packet id :
  bytes_ok packet → bytes_ok id → length id = 12%nat →
  (∀ addr, binding_response (E:=Empty_set) packet id = Ok (StunMapped addr) ↔
     ∃ attrs code, packet = stun_message 0x0101 id attrs ∧ answers id 0x0101 attrs (Some addr, code)) ∧
  (binding_response (E:=Empty_set) packet id = Ok StunError ↔
     ∃ attrs addr code, packet = stun_message 0x0111 id attrs ∧
       answers id 0x0111 attrs (addr, Some code)) ∧
  ∃ r, binding_response (E:=Empty_set) packet id = Ok r.
Proof.
  intros Hb Hbid Hid.
  destruct (binding_response_spec packet id Hb Hid Hbid)
    as [(kind & attrs & [addr' code'] & Hk & -> & Ha & Hr)|[Hno Hr]]; rewrite Hr.
  - assert (∀ kind' attrs' found, kind' = 0x0101 ∨ kind' = 0x0111 →
      stun_message kind id attrs = stun_message kind' id attrs' → answers id kind' attrs' found →
      Ok (E:=Empty_set) (binding_outcome kind (addr', code')) = Ok (binding_outcome kind' found)) as Hout.
    { intros kind' attrs' found Hk' Heq Ha'. by rewrite <-Hr, Heq, (binding_response_of id kind' attrs' found). }
    split_and!; [intros addr|..|by eexists]; split.
    + intros [= [-> Hm]%binding_outcome_mapped]; [|done]. simpl in Hm. subst. eauto.
    + intros (attrs' & code & Heq & Ha'). apply (Hout _ _ _ (or_introl eq_refl) Heq Ha').
    + intros [= [-> [code Hm]]%binding_outcome_error]; [|done]. simpl in Hm. subst. eauto.
    + intros (attrs' & addr & code & Heq & Ha'). apply (Hout _ _ _ (or_intror eq_refl) Heq Ha').
  - split_and!; [intros addr|..|by eexists]; split; try done.
    + intros (attrs & code & Heq & Ha). by destruct (Hno _ _ _ (or_introl eq_refl) Heq Ha).
    + intros (attrs & addr & code & Heq & Ha). by destruct (Hno _ _ _ (or_intror eq_refl) Heq Ha).
Qed.

(** A response with an address and a fingerprint. *)
Definition example_id : list Z := [1; 2; 3; 4; 5; 6; 7; 8; 9; 10; 11; 12].
Definition example_addr : SocketAddr := mkSocket (V4 [192; 0; 2; 1]) 5060.
Definition example_mapped : Attribute := mkAttr 0x0020 [0; 1; 50; 214; 225; 18; 166; 67] [].
Definition example_fingerprint : Attribute :=
  mkAttr 0x8028 (fingerprint (stun_prefix 0x0101 20 example_id ++ encode_attr example_mapped)) [].
Definition example_attrs : list Attribute := [example_mapped; example_fingerprint].
Lemma example_answers : answers example_id 0x0101 example_attrs (Some example_addr, None).
Proof.
  split; [|split; [by apply (bool_decide_unpack _)|]].
  { apply (bool_decide_unpack _). vm_compute. exact I. }
  apply acceptable_cons. exists (Some example_addr, None). split.
  { split_and!; [|done|unfold understood; simpl; lia|done].
    split; [by split; [|apply (bool_decide_unpack _)]|]. split; [by split|]. by exists 0. }
  apply acceptable_cons. exists (Some example_addr, None). split; [|by apply acceptable_nil].
  split_and!; [by split..|unfold understood; simpl; lia|done].
Qed.
Lemma stun_reader_refines_format_witness :
  binding_response (E:=Empty_set) (stun_message 0x0101 example_id example_attrs) example_id
  = Ok (StunMapped example_addr).
Proof.
  apply (stun_reader_refines_format (stun_message 0x0101 example_id example_attrs) example_id).
  - apply (bool_decide_unpack _). vm_compute. exact I.
  - apply (bool_decide_unpack _). vm_compute. exact I.
  - reflexivity.
  - exists example_attrs, None. split; [reflexivity|exact example_answers].
Defined.

(** A damaged answer is never taken for an acknowledgement.  In a message
    that carries a valid fingerprint, a change of up to four consecutive bytes of
    any attribute value before the fingerprint makes the reader ignore it. *)
Theorem stun_fingerprint_detects_bursts id kind l1 t x m m' y pad l2 fp found :
  length id = 12%nat → bytes_ok id → kind = 0x0101 ∨ kind = 0x0111 → attr_type fp = 0x8028 →
  answers id kind (l1 ++ mkAttr t (x ++ m ++ y) pad :: l2 ++ [fp]) found →
  length m' = length m → (length m ≤ 4)%nat → bytes_ok m' → m' ≠ m →
  binding_response (E:=Empty_set)
    (stun_message kind id (l1 ++ mkAttr t (x ++ m' ++ y) pad :: l2 ++ [fp])) id = Ok StunIgnore.
Proof.
  intros Hid Hbid Hkind Hfp (Hok & Hsize & Hacc) Hlen H4 Hm' Hne.
  assert (Forall attr_ok (l1 ++ mkAttr t (x ++ m' ++ y) pad :: l2 ++ [fp])) as Hok'.
  { rewrite Forall_app, Forall_cons in *. split; [tauto|]. split; [by eapply attr_ok_burst, Hok|tauto]. }
  assert (∀ k, length (encode_attrs (l1 ++ mkAttr t (x ++ m' ++ y) pad :: k)) =
               length (encode_attrs (l1 ++ mkAttr t (x ++ m ++ y) pad :: k))) as Hsame.
  { intros k. rewrite !encode_attrs_burst, !length_app, Hlen. done. }
  destruct (binding_response_spec (stun_message kind id (l1 ++ mkAttr t (x ++ m' ++ y) pad :: l2 ++ [fp])) id)
    as [(kind' & attrs & found' & _ & Heq & (Hok'' & _ & Hacc') & _)|[_ ->]]; [|done..| |done].
  { apply bytes_ok_stun_message; [done..|]. by rewrite Hsame. }
  apply stun_message_inj in Heq as [<- <-]; [|done..]. exfalso. apply Hne.
  pose proof (acc_fingerprint _ _ _ _ _ Hacc (l1 ++ mkAttr t (x ++ m ++ y) pad :: l2) fp []) as [_ H1];
    [by rewrite <-app_assoc|done|].
  pose proof (acc_fingerprint _ _ _ _ _ Hacc' (l1 ++ mkAttr t (x ++ m' ++ y) pad :: l2) fp []) as [_ H2];
    [by rewrite <-app_assoc|done|].
  rewrite H1 in H2. apply to_be32_inj, lxor_cancel_r in H2. rewrite Hsame in H2.
  eapply crc32_attrs_burst, H2; [|by rewrite app_comm_cons, app_assoc, Forall_app in Hok; apply Hok|done..].
  apply bytes_ok_stun_prefix; [done|lia|done].
Qed.
Lemma stun_fingerprint_detects_bursts_witness :
  binding_response (E:=Empty_set)
    (stun_message 0x0101 example_id
       [mkAttr 0x0020 ([0; 1; 50; 214] ++ [225; 18; 166; 66] ++ []) []; example_fingerprint]) example_id
  = Ok StunIgnore.
Proof.
  apply (stun_fingerprint_detects_bursts example_id 0x0101 [] 0x0020 [0; 1; 50; 214] [225; 18; 166; 67]
           [225; 18; 166; 66] [] [] [] example_fingerprint (Some example_addr, None)).
  - reflexivity.
  - apply (bool_decide_unpack _). vm_compute. exact I.
  - left. reflexivity.
  - reflexivity.
  - exact example_answers.
  - reflexivity.
  - cbn. lia.
  - apply (bool_decide_unpack _). vm_compute. exact I.
  - discriminate.
Defined.

