(* ===== verification/RegisterResponse.v ===== *)
(** * The artifacts of a REGISTER response

    Models [connectivity/core/register_response.rs]: the lists and parameters of
    SIP headers, the Contact bindings of a 200 response and their expiry, the
    service route, the associated identities and the outbound answer.  A string is
    cut at character positions; the code's byte offsets are those of ASCII
    delimiters. *)
From Stdlib Require Import Ascii String ZArith Lia.
From stdpp Require Import prelude.
From S2P Require Import Prelude Text SipFrame RetryAfter.

(** ** Delimited lists *)
(** The scanner of [split_sip_delimited]: quotes, escapes, angle brackets. *)
Record SipScan := mkScan { in_quote : bool; escaped : bool; angle_depth : Z }.
Definition scan_start : SipScan := mkScan false false 0.
(** One character; [true] when it separates two elements. *)
Definition scan_char (delimiter : Z) (st : SipScan) (c : Z) : SipScan * bool :=
  let '(mkScan in_quote escaped angle_depth) := st in
  if escaped then (mkScan in_quote false angle_depth, false)
  else if (c =? backslash)%Z && in_quote then (mkScan in_quote true angle_depth, false)
  else if (c =? quote)%Z then (mkScan (negb in_quote) false angle_depth, false)
  else if (c =? ch "<")%Z && negb in_quote
  then (mkScan in_quote false (sat_add u16_max angle_depth 1), false)
  else if (c =? ch ">")%Z && negb in_quote then (mkScan in_quote false (sat_sub angle_depth 1), false)
  else (st, (c =? delimiter)%Z && negb in_quote && (angle_depth =? 0)%Z).

(** [current] is [value[start..index]]. *)
Fixpoint split_from (delimiter : Z) (st : SipScan) (current value : str) : list str :=
  match value with
  | [] => [current]
  | c :: value =>
    let '(st, cut) := scan_char delimiter st c in
    if cut then current :: split_from delimiter st [] value
    else split_from delimiter st (current ++ [c]) value
  end.
Definition split_sip_delimited (value : str) (delimiter : Z) : list str :=
  split_from delimiter scan_start [] value.
Definition split_sip_list (value : str) : list str := split_sip_delimited value (ch ",").
Definition split_sip_parameters (value : str) : list str := split_sip_delimited value (ch ";").

(** The positions of the brackets of a name-addr. *)
Fixpoint name_addr_from (index : nat) (quoted escaped : bool) (start : option nat) (value : str)
    : option (nat * nat) :=
  match value with
  | [] => None
  | c :: value =>
    if escaped then name_addr_from (S index) quoted false start value
    else if (c =? backslash)%Z && quoted then name_addr_from (S index) quoted true start value
    else if (c =? quote)%Z then name_addr_from (S index) (negb quoted) false start value
    else if (c =? ch "<")%Z && negb quoted then
      match start with
      | Some _ => None
      | None => name_addr_from (S index) quoted false (Some index) value
      end
    else if (c =? ch ">")%Z && negb quoted then s ← start; Some (s, index)
    else name_addr_from (S index) quoted false start value
  end.
Definition name_addr_range (value : str) : option (nat * nat) :=
  name_addr_from 0 false false None value.

(** ** Contacts *)
(** The value of one parameter, when its name is [wanted]. *)
Definition parameter_named (wanted parameter : str) : option str :=
  '(name, value) ← split_once (ch "=") parameter;
  if eq_ignore_ascii_case (trim name) wanted then
    Some (trim_end_matches (Z.eqb (ch ">")) (trim_start_matches (Z.eqb (ch "<"))
            (trim_matches (Z.eqb quote) (trim value))))
  else None.
Definition contact_parameter (contact wanted : str) : option str :=
  let parameters := match name_addr_range contact with
                    | Some (_, end_) => drop (end_ + 1) contact
                    | None => contact
                    end in
  match omap (parameter_named wanted) (drop 1 (split_sip_parameters parameters)) with
  | [value] => Some value
  | _ => None
  end.

Definition contact_bindings (response : list Z) : list str :=
  values ← header_values response (lit "Contact") ++ header_values response (lit "m");
  filter (λ contact, contact ≠ []) (trim <$> split_sip_list values).
Definition contact_expires (contact : str) : option Z :=
  contact_parameter contact (lit "expires") ≫= parse_unsigned u32_max.
Definition common_contact_expires (expiries : list (option Z)) : option Z * bool :=
  match expiries with
  | [] => (None, false)
  | first :: _ =>
    if length expiries =? 1 then (first, false)
    else if forallb (λ candidate, bool_decide (candidate = first)) expiries then (first, false)
    else (None, true)
  end.
Definition response_expires (response : list Z) : option Z :=
  value ← header_value response (lit "Expires"); parse_unsigned u32_max (trim value).

(** ** Routes and identities *)
Definition first_hop_outbound (response : list Z) : bool :=
  match header_values response (lit "Path") with
  | [] => true
  | paths =>
    match last (paths ≫= split_sip_list) with
    | None => false
    | Some last_ =>
      let uri := match name_addr_range last_ with
                 | Some (start, end_) => take (end_ - (start + 1)) (drop (start + 1) last_)
                 | None => trim last_
                 end in
      let uri := default [] (head (split (ch "?") uri)) in
      existsb (λ p, eq_ignore_ascii_case (trim p) (lit "ob")) (drop 1 (split (ch ";") uri))
    end
  end.

Definition push_supported_uri (uri : str) (uris : list str) : list str :=
  let uri := trim uri in
  let lower := to_ascii_lowercase <$> uri in
  if (starts_with lower (lit "sip:") || starts_with lower (lit "sips:") || starts_with lower (lit "tel:"))
     && negb (existsb (str_eqb uri) uris)
  then uris ++ [uri] else uris.
(** The bracketed URI of an entry, else [uri_from_header_value]. *)
Definition associated_uri (entry : str) : option str :=
  match (start ← find_char (Z.eqb (ch "<")) entry;
         end_ ← find_char (Z.eqb (ch ">")) (drop (start + 1) entry);
         Some (take end_ (drop (start + 1) entry))) with
  | Some uri => Some uri
  | None => uri_from_header_value entry
  end.
Definition collect_associated_uris (value : str) (uris : list str) : list str :=
  foldl (λ uris entry,
    match associated_uri (trim entry) with
    | Some uri => push_supported_uri uri uris
    | None => uris
    end) uris (split_sip_list value).

(** ** The artifacts *)
Record RegisterArtifacts := mkArtifacts {
  expires_seconds : option Z;
  outbound_required : bool;
  first_hop_ob : bool;
  own_binding_found : bool;
  artifacts_flow_timer : option Z;
  service_route : option str;
  service_route_count : nat;
  associated_uris : list str;
  contact_binding_count : nat;
  wildcard_contact_present : bool;
  contact_expiry_ambiguous : bool;
}.

Definition is_wildcard (contact : str) : bool := str_eqb (trim contact) (lit "*").
Definition flow_timer (response : list Z) : option Z :=
  match header_values response (lit "Flow-Timer") with
  | [value] =>
    seconds ← parse_unsigned u32_max (trim value);
    if (0 <? seconds)%Z then Some seconds else None
  | _ => None
  end.
Definition service_routes (response : list Z) : list str :=
  filter (λ route, route ≠ []) (trim <$> (header_values response (lit "Service-Route") ≫= split_sip_list)).

Definition artifacts_parse (response : list Z) : RegisterArtifacts :=
  let contacts := contact_bindings response in
  let contact_expiries := contact_expires <$> filter (λ c, is_wildcard c = false) contacts in
  let '(contact_expires, contact_expiry_ambiguous) := common_contact_expires contact_expiries in
  let service_routes := service_routes response in
  mkArtifacts
    (match contact_expires with Some e => Some e | None => response_expires response end)
    (existsb (λ tag, eq_ignore_ascii_case (trim tag) (lit "outbound"))
       (header_values response (lit "Require") ≫= split (ch ",")))
    (first_hop_outbound response)
    false
    (flow_timer response)
    (if bool_decide (service_routes = []) then None else Some (join (lit ", ") service_routes))
    (length service_routes)
    (foldl (λ uris value, collect_associated_uris value uris) []
       (header_values response (lit "P-Associated-URI")))
    (length contact_expiries)
    (existsb is_wildcard contacts)
    contact_expiry_ambiguous.

Definition with_binding (found ambiguous : bool) (expires : option Z) (a : RegisterArtifacts)
    : RegisterArtifacts :=
  mkArtifacts expires (outbound_required a) (first_hop_ob a) found (artifacts_flow_timer a)
    (service_route a) (service_route_count a) (associated_uris a) (contact_binding_count a)
    (wildcard_contact_present a) ambiguous.
Definition is_own_binding (instance : str) (reg_id : Z) (contact : str) : bool :=
  bool_decide (contact_parameter contact (lit "+sip.instance") = Some instance)
  && bool_decide (contact_parameter contact (lit "reg-id") ≫= parse_unsigned u32_max = Some reg_id).
Definition parse_for_binding (response : list Z) (instance : str) (reg_id : Z) : RegisterArtifacts :=
  let artifacts := artifacts_parse response in
  match filter (λ c, is_own_binding instance reg_id c = true) (contact_bindings response) with
  | [contact] =>
    with_binding true false
      (match contact_expires contact with Some e => Some e | None => response_expires response end)
      artifacts
  | _ =>
    with_binding (own_binding_found artifacts) (1 <? contact_binding_count artifacts)
      (response_expires response) artifacts
  end.
Definition default_associated_uri (a : RegisterArtifacts) : option str := head (associated_uris a).

(** * Lemmas *)

(** ** The scanner *)
(** The state after text in which nothing separates, [None] if something does. *)
Fixpoint scan (delimiter : Z) (st : SipScan) (s : str) : option SipScan :=
  match s with
  | [] => Some st
  | c :: s =>
    let '(st, cut) := scan_char delimiter st c in if cut then None else scan delimiter st s
  end.
(** One element of a list: nothing in it separates and every quote and bracket
    is closed. *)
Definition sealed (delimiter : Z) (s : str) : Prop := scan delimiter scan_start s = Some scan_start.
#[export] Instance SipScan_eq_dec : EqDecision SipScan.
Proof. solve_decision. Defined.
#[export] Instance sealed_dec delimiter s : Decision (sealed delimiter s).
Proof. unfold sealed. apply _. Defined.

Lemma scan_app delimiter st s t :
  scan delimiter st (s ++ t) = st' ← scan delimiter st s; scan delimiter st' t.
Proof.
  revert st. induction s as [|c s IH]; intros st; [done|]. cbn [app scan].
  destruct (scan_char delimiter st c) as [st' [|]]; [done|apply IH].
Qed.
Lemma split_from_scan delimiter st st' current s t :
  scan delimiter st s = Some st' →
  split_from delimiter st current (s ++ t) = split_from delimiter st' (current ++ s) t.
Proof.
  revert st current. induction s as [|c s IH]; intros st current; cbn [app scan split_from].
  { intros [= ->]. by rewrite app_nil_r. }
  destruct (scan_char delimiter st c) as [st1 [|]]; [done|]. intros Hs. rewrite (IH _ _ Hs).
  by rewrite <-app_assoc.
Qed.

(** The delimiters of the lists separate outside quotes and brackets. *)
Definition is_delimiter (delimiter : Z) : Prop :=
  scan_char delimiter scan_start delimiter = (scan_start, true).
Lemma comma_delimits : is_delimiter (ch ",").
Proof. done. Qed.
Lemma semicolon_delimits : is_delimiter (ch ";").
Proof. done. Qed.

Lemma split_sealed delimiter s :
  sealed delimiter s → split_sip_delimited s delimiter = [s].
Proof.
  intros Hs. unfold split_sip_delimited. rewrite <-(app_nil_r s) at 1.
  by rewrite (split_from_scan _ _ _ _ _ _ Hs).
Qed.
Lemma split_sealed_app delimiter s t : is_delimiter delimiter → sealed delimiter s →
  split_sip_delimited (s ++ delimiter :: t) delimiter = s :: split_sip_delimited t delimiter.
Proof.
  intros Hd Hs. unfold split_sip_delimited. rewrite (split_from_scan _ _ _ _ _ _ Hs).
  cbn [split_from]. by rewrite Hd.
Qed.

(** Text without quotes, brackets and the delimiter changes nothing. *)
Definition plain_char (delimiter c : Z) : bool :=
  negb ((c =? backslash) || (c =? quote) || (c =? ch "<") || (c =? ch ">") || (c =? delimiter))%Z.
Lemma scan_plain_text delimiter s depth : Forall (λ c, plain_char delimiter c = true) s →
  scan delimiter (mkScan false false depth) s = Some (mkScan false false depth).
Proof.
  induction 1 as [|c s Hc _ IH]; [done|]. cbn [scan scan_char].
  unfold plain_char in Hc. rewrite negb_true_iff, !orb_false_iff in Hc.
  destruct Hc as [[[[H1 H2] H3] H4] H5]. rewrite H1, H2, H3, H4, H5. apply IH.
Qed.
(** Inside brackets the delimiter is plain too. *)
Definition uri_char (c : Z) : bool :=
  negb ((c =? backslash) || (c =? quote) || (c =? ch "<") || (c =? ch ">"))%Z.
Lemma scan_uri delimiter s depth : Forall (λ c, uri_char c = true) s → (0 < depth)%Z →
  scan delimiter (mkScan false false depth) s = Some (mkScan false false depth).
Proof.
  intros Hs Hdepth. induction Hs as [|c s Hc _ IH]; [done|]. cbn [scan scan_char].
  unfold uri_char in Hc. rewrite negb_true_iff, !orb_false_iff in Hc.
  destruct Hc as [[[H1 H2] H3] H4]. rewrite H1, H2, H3, H4. cbn [andb].
  rewrite (proj2 (Z.eqb_neq depth 0)), !andb_false_r by lia. apply IH.
Qed.
(** Inside quotes everything but the quote and the escape is plain. *)
Definition quoted_char (c : Z) : bool := negb ((c =? backslash) || (c =? quote))%Z.
Lemma scan_quoted delimiter s depth : Forall (λ c, quoted_char c = true) s →
  scan delimiter (mkScan true false depth) s = Some (mkScan true false depth).
Proof.
  induction 1 as [|c s Hc _ IH]; [done|]. cbn [scan scan_char].
  unfold quoted_char in Hc. rewrite negb_true_iff, !orb_false_iff in Hc.
  destruct Hc as [H1 H2]. rewrite H1, H2. cbn [negb andb]. by rewrite !andb_false_r.
Qed.

Lemma split_from_not_nil delimiter st current s : split_from delimiter st current s ≠ [].
Proof.
  revert st current. induction s as [|c s IH]; intros st current; [done|]. cbn [split_from].
  by destruct (scan_char delimiter st c) as [st' [|]].
Qed.
Lemma scan_char_cut delimiter st c : (scan_char delimiter st c).2 = true → c = delimiter.
Proof.
  destruct st as [q e d]. unfold scan_char. repeat case_match; try done. simpl.
  intros [[Hc%Z.eqb_eq _]%andb_true_iff _]%andb_true_iff. done.
Qed.
Lemma split_from_join delimiter st current s :
  join [delimiter] (split_from delimiter st current s) = current ++ s.
Proof.
  revert st current. induction s as [|c s IH]; intros st current; cbn [split_from].
  { by rewrite app_nil_r. }
  pose proof (scan_char_cut delimiter st c) as Hcut.
  destruct (scan_char delimiter st c) as [st' [|]].
  - rewrite join_cons by apply split_from_not_nil. rewrite IH, (Hcut eq_refl). done.
  - by rewrite IH, <-app_assoc.
Qed.

(** ** A rendered binding *)
Record Binding := mkBinding { b_uri : str; b_instance : str; b_reg_id : Z; b_expires : Z }.
#[export] Instance Binding_eq_dec : EqDecision Binding.
Proof. solve_decision. Defined.
Definition quoted_instance (instance : str) : str := quote :: lit "<" ++ instance ++ lit ">" ++ [quote].
Definition instance_parameter (instance : str) : str := lit "+sip.instance=" ++ quoted_instance instance.
Definition reg_id_parameter (reg_id : Z) : str := lit "reg-id=" ++ fmt_dec reg_id.
Definition expires_parameter (expires : Z) : str := lit "expires=" ++ fmt_dec expires.
Definition render_binding (b : Binding) : str :=
  lit "<" ++ b_uri b ++ lit ">" ++
  ch ";" :: instance_parameter (b_instance b) ++
  ch ";" :: reg_id_parameter (b_reg_id b) ++
  ch ";" :: expires_parameter (b_expires b).
(** Printable ASCII without quotes, escapes and brackets. *)
Definition safe_char (c : Z) : bool := in_range 32 126 c && uri_char c.
Definition binding_ok (b : Binding) : Prop :=
  Forall (λ c, safe_char c = true) (b_uri b) ∧ Forall (λ c, safe_char c = true) (b_instance b) ∧
  (0 ≤ b_reg_id b ≤ u32_max)%Z ∧ (0 ≤ b_expires b ≤ u32_max)%Z.
#[export] Instance binding_ok_dec b : Decision (binding_ok b).
Proof. unfold binding_ok. apply _. Defined.

Lemma safe_uri_char s : Forall (λ c, safe_char c = true) s → Forall (λ c, uri_char c = true) s.
Proof. intros Hs. eapply Forall_impl; [exact Hs|]. by intros c [_ ?]%andb_true_iff. Qed.
Lemma uri_quoted_char s : Forall (λ c, uri_char c = true) s → Forall (λ c, quoted_char c = true) s.
Proof.
  intros Hs. eapply Forall_impl; [exact Hs|]. intros c. unfold uri_char, quoted_char.
  rewrite !negb_true_iff, !orb_false_iff. tauto.
Qed.
Lemma digits_plain delimiter n : (0 ≤ n)%Z → is_ascii_digit delimiter = false →
  Forall (λ c, plain_char delimiter c = true) (fmt_dec n).
Proof.
  intros Hn Hd. eapply Forall_impl; [by apply fmt_dec_digits|]. intros c Hc. cbv beta in Hc.
  unfold plain_char, is_ascii_digit in *. apply in_range_true in Hc.
  change (ch "0") with 48%Z in *. change (ch "9") with 57%Z in *.
  rewrite negb_true_iff, !orb_false_iff, !Z.eqb_neq. unfold backslash, quote.
  change (ch "<") with 60%Z. change (ch ">") with 62%Z. split_and!; try lia.
  intros ->. apply in_range_false in Hd. lia.
Qed.

Section parameters.
Context (delimiter : Z) (Hdelim : delimiter = ch "," ∨ delimiter = ch ";").

Lemma scan_instance_parameter depth instance : Forall (λ c, uri_char c = true) instance →
  scan delimiter (mkScan false false depth) (instance_parameter instance)
  = Some (mkScan false false depth).
Proof.
  intros Hi. unfold instance_parameter, quoted_instance. rewrite scan_app, scan_plain_text.
  2: { by destruct Hdelim as [-> | ->]; apply (bool_decide_unpack _). }
  cbn [mbind option_bind].
  change (scan delimiter (mkScan false false depth) (quote :: ?s))
    with (scan delimiter (mkScan true false depth) s).
  rewrite !app_assoc, scan_app, scan_quoted; [done|].
  apply Forall_app. split; [apply Forall_app; split|]; [by repeat constructor| |by repeat constructor].
  by apply uri_quoted_char.
Qed.
Lemma scan_number_parameter depth name n : (0 ≤ n)%Z →
  Forall (λ c, plain_char delimiter c = true) name →
  scan delimiter (mkScan false false depth) (name ++ fmt_dec n) = Some (mkScan false false depth).
Proof.
  intros Hn Hname. apply scan_plain_text, Forall_app. split; [done|].
  apply digits_plain; [done|by destruct Hdelim as [-> | ->]].
Qed.
End parameters.

Lemma sealed_instance_parameter instance : Forall (λ c, uri_char c = true) instance →
  sealed (ch ";") (instance_parameter instance).
Proof. intros. apply scan_instance_parameter; [by right|done]. Qed.
Lemma sealed_number_parameter name n : (0 ≤ n)%Z →
  Forall (λ c, plain_char (ch ";") c = true) name → sealed (ch ";") (name ++ fmt_dec n).
Proof. intros. apply scan_number_parameter; [by right|done..]. Qed.

(** A binding is one element of a Contact list, and its brackets are found. *)
Lemma binding_sealed b : binding_ok b → sealed (ch ",") (render_binding b).
Proof.
  intros (Hu & Hi & Hr & He). unfold sealed, render_binding. apply safe_uri_char in Hu, Hi.
  change (scan (ch ",") scan_start (lit "<" ++ ?s)) with (scan (ch ",") (mkScan false false 1) s).
  rewrite scan_app, scan_uri by (done || lia). cbn [mbind option_bind].
  change (scan (ch ",") (mkScan false false 1) (lit ">" ++ ch ";" :: ?s)) with (scan (ch ",") (mkScan false false 0) s).
  rewrite scan_app, scan_instance_parameter by (done || by left). cbn [mbind option_bind].
  change (scan (ch ",") (mkScan false false 0) (ch ";" :: ?s)) with (scan (ch ",") (mkScan false false 0) s).
  rewrite scan_app. unfold reg_id_parameter, expires_parameter.
  rewrite scan_number_parameter; [|by left|lia|by apply (bool_decide_unpack _)]. cbn [mbind option_bind].
  change (scan (ch ",") (mkScan false false 0) (ch ";" :: ?s)) with (scan (ch ",") (mkScan false false 0) s).
  apply scan_number_parameter; [by left|lia|by apply (bool_decide_unpack _)].
Qed.
Lemma name_addr_uri index start s t : Forall (λ c, uri_char c = true) s →
  name_addr_from index false false (Some start) (s ++ ch ">" :: t) = Some (start, index + length s).
Proof.
  intros Hs. revert index. induction Hs as [|c s Hc _ IH]; intros index.
  { cbn. by rewrite Nat.add_0_r. }
  cbn [app name_addr_from]. unfold uri_char in Hc. rewrite negb_true_iff, !orb_false_iff in Hc.
  destruct Hc as [[[H1 H2] H3] H4]. rewrite H1, H2, H3, H4. cbn [andb]. rewrite IH.
  do 2 f_equal. simpl. lia.
Qed.
Lemma binding_name_addr b : binding_ok b →
  name_addr_range (render_binding b) = Some (0, S (length (b_uri b))).
Proof.
  intros (Hu & _). unfold name_addr_range, render_binding.
  change (name_addr_from 0 false false None (lit "<" ++ ?s)) with (name_addr_from 1 false false (Some 0) s).
  change (lit ">" ++ ?s) with (ch ">" :: s). by rewrite name_addr_uri by by apply safe_uri_char.
Qed.

Lemma binding_parameters b : binding_ok b →
  split_sip_parameters (drop (S (length (b_uri b)) + 1) (render_binding b)) =
  [[]; instance_parameter (b_instance b); reg_id_parameter (b_reg_id b); expires_parameter (b_expires b)].
Proof.
  intros (Hu & Hi & Hr & He). apply safe_uri_char in Hi. unfold render_binding.
  rewrite app_assoc, (app_assoc (lit "<" ++ b_uri b)).
  rewrite drop_app_length' by (rewrite !length_app; simpl; lia). unfold split_sip_parameters.
  rewrite <-(app_nil_l (ch ";" :: instance_parameter _ ++ _)).
  rewrite split_sealed_app by done. rewrite split_sealed_app by (done || by apply sealed_instance_parameter).
  rewrite split_sealed_app; [|done|apply sealed_number_parameter; [lia|by apply (bool_decide_unpack _)]].
  rewrite split_sealed; [done|]. apply sealed_number_parameter; [lia|by apply (bool_decide_unpack _)].
Qed.

(** The value of each parameter. *)
Lemma parameter_named_number name n wanted : (0 ≤ n)%Z → Forall (λ c, (ch "=" =? c)%Z = false) name →
  parameter_named wanted (name ++ ch "=" :: fmt_dec n) =
  if eq_ignore_ascii_case (trim name) wanted then Some (fmt_dec n) else None.
Proof.
  intros Hn Hname. unfold parameter_named. rewrite split_once_app by done. cbn [mbind option_bind].
  destruct (eq_ignore_ascii_case (trim name) wanted); [|done]. f_equal.
  destruct (fmt_dec_ends _ n Hn digit_not_space) as [Hs He].
  destruct (fmt_dec_ends _ n Hn (λ c, digit_ne quote c eq_refl)) as [Hqs Hqe].
  destruct (fmt_dec_ends _ n Hn (λ c, digit_ne (ch "<") c eq_refl)) as [Hls _].
  destruct (fmt_dec_ends _ n Hn (λ c, digit_ne (ch ">") c eq_refl)) as [_ Hge].
  unfold trim_matches.
  by rewrite trim_id, (trim_start_matches_id (Z.eqb quote)), (trim_end_matches_id (Z.eqb quote)),
    trim_start_matches_id, trim_end_matches_id.
Qed.
Lemma parameter_named_instance instance wanted : Forall (λ c, uri_char c = true) instance →
  parameter_named wanted (instance_parameter instance) =
  if eq_ignore_ascii_case (lit "+sip.instance") wanted then Some instance else None.
Proof.
  intros Hi. unfold parameter_named, instance_parameter.
  change (lit "+sip.instance=" ++ ?s) with (lit "+sip.instance" ++ ch "=" :: s).
  rewrite split_once_app by (by apply (bool_decide_unpack _)). cbn [mbind option_bind].
  change (trim (lit "+sip.instance")) with (lit "+sip.instance").
  destruct (eq_ignore_ascii_case _ wanted); [|done]. f_equal.
  assert (∀ k, k = ch "<" ∨ k = ch ">" → Forall (λ c, (k =? c)%Z = false) instance) as Hne.
  { intros k Hk. eapply Forall_impl; [exact Hi|]. intros c. cbv beta. unfold uri_char.
    rewrite negb_true_iff, !orb_false_iff, !Z.eqb_neq. intros [[_ ?] ?].
    destruct Hk as [-> | ->]; by apply not_eq_sym. }
  set (x := lit "<" ++ instance ++ lit ">").
  assert (quoted_instance instance = quote :: x ++ [quote]) as ->.
  { unfold quoted_instance, x. by rewrite <-!app_assoc. }
  rewrite trim_id; [|done|by rewrite reverse_cons, reverse_app].
  unfold trim_matches. cbn [trim_start_matches]. rewrite Z.eqb_refl.
  rewrite (trim_start_matches_id (Z.eqb quote) (x ++ [quote])), trim_end_snoc by done.
  rewrite (trim_end_matches_id (Z.eqb quote) x); [|unfold x; by rewrite app_assoc, reverse_app]. unfold x.
  change (trim_start_matches (Z.eqb (ch "<")) (lit "<" ++ ?t)) with (trim_start_matches (Z.eqb (ch "<")) t).
  rewrite trim_start_matches_id by (destruct (Hne (ch "<") ltac:(by left)); done).
  change (lit ">") with [ch ">"]. rewrite trim_end_snoc by done. apply trim_end_matches_id, head_not_reverse, Hne.
  by right.
Qed.

(** The parameters a registrar echoes are read back. *)
Lemma contact_parameter_binding b wanted : binding_ok b →
  contact_parameter (render_binding b) wanted =
  match omap (parameter_named wanted)
    [instance_parameter (b_instance b); reg_id_parameter (b_reg_id b); expires_parameter (b_expires b)] with
  | [value] => Some value
  | _ => None
  end.
Proof.
  intros Hb. unfold contact_parameter. rewrite binding_name_addr by done. cbv iota beta.
  by rewrite binding_parameters.
Qed.
Lemma reg_id_named n wanted : (0 ≤ n)%Z →
  parameter_named wanted (reg_id_parameter n) =
  if eq_ignore_ascii_case (lit "reg-id") wanted then Some (fmt_dec n) else None.
Proof. intros Hn. apply (parameter_named_number (lit "reg-id")); [done|by apply (bool_decide_unpack _)]. Qed.
Lemma expires_named n wanted : (0 ≤ n)%Z →
  parameter_named wanted (expires_parameter n) =
  if eq_ignore_ascii_case (lit "expires") wanted then Some (fmt_dec n) else None.
Proof. intros Hn. apply (parameter_named_number (lit "expires")); [done|by apply (bool_decide_unpack _)]. Qed.
Lemma contact_parameters b : binding_ok b →
  contact_parameter (render_binding b) (lit "+sip.instance") = Some (b_instance b) ∧
  contact_parameter (render_binding b) (lit "reg-id") = Some (fmt_dec (b_reg_id b)) ∧
  contact_parameter (render_binding b) (lit "expires") = Some (fmt_dec (b_expires b)).
Proof.
  intros Hb. pose proof Hb as (_ & Hi%safe_uri_char & Hr & He).
  rewrite !contact_parameter_binding by done. cbn [omap list_omap].
  by rewrite !parameter_named_instance, !reg_id_named, !expires_named by (done || lia).
Qed.
Lemma binding_own instance reg_id b : binding_ok b →
  is_own_binding instance reg_id (render_binding b) =
  bool_decide (b_instance b = instance) && bool_decide (b_reg_id b = reg_id).
Proof.
  intros Hb. pose proof Hb as (_ & _ & Hr & _). unfold is_own_binding.
  destruct (contact_parameters b Hb) as (-> & -> & _). cbn [mbind option_bind].
  rewrite parse_unsigned_fmt by lia. f_equal; apply bool_decide_ext; split; congruence.
Qed.
Lemma binding_expires b : binding_ok b → contact_expires (render_binding b) = Some (b_expires b).
Proof.
  intros Hb. pose proof Hb as (_ & _ & _ & He). unfold contact_expires.
  destruct (contact_parameters b Hb) as (_ & _ & ->). cbn [mbind option_bind].
  apply parse_unsigned_fmt. lia.
Qed.

(** ** A rendered response *)
Inductive ResponseHeader := ContactHeader (bindings : list Binding) | OtherHeader (line : str).
Definition render_header (h : ResponseHeader) : str :=
  match h with
  | ContactHeader bs => lit "Contact: " ++ join (lit ", ") (render_binding <$> bs)
  | OtherHeader line => line
  end.
Definition header_ok (h : ResponseHeader) : Prop :=
  match h with
  | ContactHeader bs => bs ≠ [] ∧ Forall binding_ok bs
  | OtherHeader line => line_ok line ∧ unfolded line ∧
      header_field (lit "Contact") line = None ∧ header_field (lit "m") line = None
  end.
#[export] Instance unfolded_dec l : Decision (unfolded l).
Proof. unfold unfolded, head_not. destruct l; apply _. Defined.
#[export] Instance header_ok_dec h : Decision (header_ok h).
Proof. destruct h; apply _. Defined.
Definition header_bindings (h : ResponseHeader) : list Binding :=
  match h with ContactHeader bs => bs | OtherHeader _ => [] end.
Definition response_of (status : str) (headers : list ResponseHeader) : list Z :=
  message (status :: (render_header <$> headers)) [].

Lemma render_binding_ok b : binding_ok b → Forall (λ c, in_range 32 126 c = true) (render_binding b).
Proof.
  intros (Hu & Hi & Hr & He).
  assert (∀ s, Forall (λ c, safe_char c = true) s → Forall (λ c, in_range 32 126 c = true) s) as Hsafe.
  { intros s Hs. eapply Forall_impl; [exact Hs|]. by intros c [? _]%andb_true_iff. }
  assert (∀ n, (0 ≤ n)%Z → Forall (λ c, in_range 32 126 c = true) (fmt_dec n)) as Hdec.
  { intros n Hn. eapply Forall_impl; [by apply fmt_dec_digits|]. intros c Hc%in_range_true.
    apply in_range_true. change (ch "0") with 48%Z in Hc. change (ch "9") with 57%Z in Hc. lia. }
  unfold render_binding, instance_parameter, quoted_instance, reg_id_parameter, expires_parameter.
  repeat first [apply Forall_app; split|apply Forall_cons; split];
    first [by apply Hsafe|apply Hdec; lia|by apply (bool_decide_unpack _)|done].
Qed.
Lemma join_Forall (P : Z → Prop) sep l : Forall P sep → Forall (Forall P) l → Forall P (join sep l).
Proof.
  intros Hsep. induction 1 as [|x l Hx Hl IH]; [constructor|].
  destruct l as [|y l]; [done|]. rewrite join_cons by done. rewrite !Forall_app. done.
Qed.
(** A binding starts with a bracket and ends with a digit; so does a list. *)
Lemma binding_ends b : binding_ok b →
  head_not is_whitespace (render_binding b) ∧ head_not is_whitespace (reverse (render_binding b)) ∧
  render_binding b ≠ [].
Proof.
  intros (_ & _ & _ & He). destruct (fmt_dec_ends _ (b_expires b) ltac:(lia) digit_not_space) as [_ Hend].
  destruct (fmt_dec_digits (b_expires b) ltac:(lia)) as [_ Hne]. split_and!; [done| |done].
  assert (render_binding b = (lit "<" ++ b_uri b ++ lit ">" ++ ch ";" :: instance_parameter (b_instance b) ++
    ch ";" :: reg_id_parameter (b_reg_id b) ++ ch ";" :: lit "expires=") ++ fmt_dec (b_expires b)) as ->.
  { unfold render_binding, expires_parameter. by repeat (rewrite <-app_assoc || rewrite <-app_comm_cons). }
  by apply head_not_reverse_app.
Qed.
Lemma trim_binding b : binding_ok b → trim (render_binding b) = render_binding b.
Proof. intros Hb. destruct (binding_ends b Hb) as (? & ? & _). by apply trim_id. Qed.
Lemma bindings_ends bs : bs ≠ [] → Forall binding_ok bs →
  let s := join (lit ", ") (render_binding <$> bs) in
  head_not is_whitespace s ∧ head_not is_whitespace (reverse s) ∧ s ≠ [].
Proof.
  intros Hne Hok. cbv zeta. induction Hok as [|b bs Hb Hok IH]; [done|].
  pose proof (binding_ends b Hb) as (H1 & H2 & H3). rewrite fmap_cons. destruct bs as [|b' bs]; [done|].
  rewrite join_cons by done. destruct (IH ltac:(done)) as (_ & H4 & H5).
  split_and!; [|rewrite app_assoc; by apply head_not_reverse_app|];
    by destruct (render_binding b).
Qed.

Lemma contact_values bs pad : bs ≠ [] → Forall binding_ok bs → pad = [] ∨ pad = [ch " "] →
  trim <$> split_sip_list (pad ++ join (lit ", ") (render_binding <$> bs)) = render_binding <$> bs.
Proof.
  intros Hne Hok. revert pad. induction Hok as [|b bs Hb Hok IH]; intros pad Hpad; [done|].
  assert (sealed (ch ",") (pad ++ render_binding b)) as Hs.
  { unfold sealed. rewrite scan_app. destruct Hpad as [-> | ->]; by apply binding_sealed. }
  assert (trim (pad ++ render_binding b) = render_binding b) as Ht.
  { destruct Hpad as [-> | ->]; by apply trim_binding. }
  rewrite fmap_cons. destruct bs as [|b' bs].
  { unfold split_sip_list. simpl. rewrite split_sealed by done. simpl. by rewrite Ht. }
  rewrite join_cons by done. change (lit ", ") with ([ch ","; ch " "]) at 1.
  rewrite app_assoc. unfold split_sip_list. change ([ch ","; ch " "] ++ ?t) with (ch "," :: [ch " "] ++ t).
  rewrite split_sealed_app by done. rewrite fmap_cons, Ht. f_equal. apply IH; [done|by right].
Qed.

(** The lines of the response are well formed, and its Contact values are the
    bindings. *)
Lemma render_header_ok h : header_ok h → line_ok (render_header h) ∧ unfolded (render_header h).
Proof.
  destruct h as [bs|line]; [|by intros (? & ? & _)]. intros [Hne Hok]. split; [|done].
  split; [done|]. apply Forall_app. split; [by apply (bool_decide_unpack _)|].
  assert (∀ s, Forall (λ c, in_range 32 126 c = true) s → Forall (λ c, is_ascii c ∧ c ≠ CR ∧ c ≠ LF) s) as Hp.
  { intros s Hs. eapply Forall_impl; [exact Hs|]. intros c Hc%in_range_true.
    unfold is_ascii, CR, LF. lia. }
  apply join_Forall; [by apply (bool_decide_unpack _)|]. apply Forall_fmap. eapply Forall_impl; [exact Hok|].
  intros b Hb. by apply Hp, render_binding_ok.
Qed.
Lemma header_field_contact bs n : bs ≠ [] → Forall binding_ok bs →
  header_field n (render_header (ContactHeader bs)) =
  if eq_ignore_ascii_case (lit "Contact") n then Some (join (lit ", ") (render_binding <$> bs)) else None.
Proof.
  intros Hne Hok. unfold header_field, render_header.
  change (lit "Contact: " ++ ?t) with (lit "Contact" ++ ch ":" :: ch " " :: t).
  rewrite split_once_app by (by apply (bool_decide_unpack _)). cbn [mbind option_bind].
  change (trim (lit "Contact")) with (lit "Contact"). destruct (eq_ignore_ascii_case _ n); [|done].
  rewrite trim_space. destruct (bindings_ends bs Hne Hok) as (? & ? & _). by rewrite trim_id.
Qed.
Lemma contact_bindings_response status headers :
  line_ok status → unfolded status → header_field (lit "Contact") status = None →
  header_field (lit "m") status = None → Forall header_ok headers →
  contact_bindings (response_of status headers) = render_binding <$> (headers ≫= header_bindings).
Proof.
  intros Hl Hu Hc Hm Hok. unfold contact_bindings, response_of.
  assert (Forall line_ok (render_header <$> headers) ∧ Forall unfolded (render_header <$> headers)) as [Hls Hus].
  { split; apply Forall_fmap; (eapply Forall_impl; [exact Hok|]); intros h Hh; by apply render_header_ok. }
  rewrite !header_values_message by (done || by constructor). cbn [omap list_omap]. rewrite Hc, Hm.
  clear Hls Hus. assert (omap (header_field (lit "m")) (render_header <$> headers) = []) as ->.
  { induction Hok as [|h headers Hh Hok IH]; [done|]. rewrite fmap_cons. cbn [omap list_omap].
    replace (header_field (lit "m") (render_header h)) with (@None str); [done|].
    destruct h as [bs|line]; [destruct Hh; by rewrite header_field_contact|symmetry; apply Hh]. }
  rewrite app_nil_r. induction Hok as [|h headers Hh Hok IH]; [done|]. rewrite fmap_cons, bind_cons, fmap_app.
  cbn [omap list_omap]. destruct h as [bs|line].
  - destruct Hh as [Hne Hbs]. rewrite header_field_contact by done.
    change (eq_ignore_ascii_case (lit "Contact") (lit "Contact")) with true. cbv iota.
    rewrite bind_cons, IH. f_equal.
    pose proof (contact_values bs [] Hne Hbs (or_introl eq_refl)) as Hv. rewrite app_nil_l in Hv. rewrite Hv.
    clear -Hbs. induction Hbs as [|b bs Hb _ IH]; [done|]. rewrite fmap_cons, filter_cons_True, IH; [done|].
    by apply binding_ends.
  - destruct Hh as (_ & _ & Hnone & _). cbn [render_header]. by rewrite Hnone.
Qed.

Lemma filter_own instance reg_id bs : Forall binding_ok bs →
  filter (λ c, is_own_binding instance reg_id c = true) (render_binding <$> bs) =
  render_binding <$> filter (λ b, b_instance b = instance ∧ b_reg_id b = reg_id) bs.
Proof.
  induction 1 as [|b bs Hb _ IH]; [done|]. rewrite fmap_cons, !filter_cons, (binding_own _ _ _ Hb), IH.
  do 2 case_bool_decide; repeat case_decide; try done; tauto.
Qed.
Lemma filter_not_wildcard bs : Forall binding_ok bs →
  filter (λ c, is_wildcard c = false) (render_binding <$> bs) = render_binding <$> bs.
Proof.
  induction 1 as [|b bs Hb _ IH]; [done|]. rewrite fmap_cons, filter_cons_True, IH; [done|].
  unfold is_wildcard. rewrite trim_binding by done. by apply bool_decide_eq_false.
Qed.

(** * Properties *)

(** The lists of SIP headers.  Splitting loses nothing: the pieces joined by
    the delimiter are the value.  And a list of elements whose quotes and brackets
    are closed is read back element by element, whatever delimiters are inside. *)
Theorem sip_list_roundtrip delimiter :
  delimiter = ch "," ∨ delimiter = ch ";" →
  (∀ value, join [delimiter] (split_sip_delimited value delimiter) = value) ∧
  (∀ elements, elements ≠ [] → Forall (sealed delimiter) elements →
     split_sip_delimited (join [delimiter] elements) delimiter = elements).
Proof.
  intros Hd. split; [intros value; apply split_from_join|]. intros elements Hne Hs.
  assert (is_delimiter delimiter) as Hdel by (by destruct Hd as [-> | ->]).
  induction Hs as [|x l Hx Hl IH]; [done|]. destruct l as [|y l]; [by apply split_sealed|].
  rewrite join_cons by done. change ([delimiter] ++ ?t) with (delimiter :: t).
  rewrite split_sealed_app by done. by rewrite IH.
Qed.
Lemma sip_list_roundtrip_witness :
  let a := [quote] ++ lit "a, b" ++ [quote] ++ lit " <sip:x,y>" in
  split_sip_list (a ++ lit ",tel:1") = [a; lit "tel:1"].
Proof.
  intros a. destruct (sip_list_roundtrip (ch ",") (or_introl eq_refl)) as [_ H].
  apply (H [a; lit "tel:1"]); [discriminate|]. apply (bool_decide_unpack _). vm_compute. exact I.
Defined.

(** the lifetime of a binding is its own.  A 200 response lists every binding
    of the identity; among those of any header fields, exactly one with this
    instance and flow gives its own expiry, and with none or several of them no
    Contact's expiry is used, only the response's. *)
Theorem own_binding_lifetime status headers instance reg_id :
  line_ok status → unfolded status → header_field (lit "Contact") status = None →
  header_field (lit "m") status = None → Forall header_ok headers →
  let own := filter (λ b, b_instance b = instance ∧ b_reg_id b = reg_id) (headers ≫= header_bindings) in
  let response := response_of status headers in
  let a := parse_for_binding response instance reg_id in
  (own_binding_found a = true ↔ ∃ b, own = [b]) ∧
  (∀ b, own = [b] → expires_seconds a = Some (b_expires b)) ∧
  ((¬ ∃ b, own = [b]) → expires_seconds a = response_expires response) ∧
  contact_binding_count a = length (headers ≫= header_bindings).
Proof.
  intros Hl Hu Hc Hm Hok own response a.
  assert (Forall binding_ok (headers ≫= header_bindings)) as Hbs.
  { clear -Hok. induction Hok as [|h headers Hh _ IH]; [constructor|]. rewrite bind_cons.
    apply Forall_app. split; [|done]. destruct h; [by destruct Hh|constructor]. }
  pose proof (contact_bindings_response status headers Hl Hu Hc Hm Hok) as Hcb. fold response in Hcb.
  assert (own_binding_found (artifacts_parse response) = false ∧
    contact_binding_count (artifacts_parse response) = length (headers ≫= header_bindings)) as [Hfound Hcount].
  { unfold artifacts_parse. rewrite Hcb, filter_not_wildcard by done.
    destruct (common_contact_expires _). cbn. split; [done|]. by rewrite !length_fmap. }
  unfold a, parse_for_binding. rewrite Hcb, filter_own by done. fold own.
  destruct own as [|b [|b' own']] eqn:Hown; simpl.
  - rewrite Hfound. split_and!; [split; [done|by intros []]|done|done|done].
  - assert (binding_ok b) as Hb.
    { assert (b ∈ own) as [_ Hin]%list_elem_of_filter by (rewrite Hown; by constructor).
      rewrite Forall_forall in Hbs. by apply Hbs. }
    split_and!; [split; [by exists b|done]| |intros []; by exists b|done].
    intros ? [= <-]. by rewrite binding_expires.
  - rewrite Hfound. split_and!; [split; [done|by intros []]|done|done|done].
Qed.
Lemma own_binding_lifetime_witness :
  let own := mkBinding (lit "sip:me@10.0.0.2;transport=udp") (lit "urn:gsma:imei:1") 2 600 in
  let other := mkBinding (lit "sip:me@10.0.0.3") (lit "urn:gsma:imei:1") 1 7200 in
  let response := response_of (lit "SIP/2.0 200 OK") [ContactHeader [other; own]; OtherHeader (lit "Expires: 30")] in
  expires_seconds (parse_for_binding response (lit "urn:gsma:imei:1") 2) = Some 600%Z.
Proof.
  intros own other response.
  assert (line_ok (lit "SIP/2.0 200 OK")) as H1 by (apply (bool_decide_unpack _); vm_compute; exact I).
  assert (Forall header_ok [ContactHeader [other; own]; OtherHeader (lit "Expires: 30")]) as H2
    by (apply (bool_decide_unpack _); vm_compute; exact I).
  exact (proj1 (proj2 (own_binding_lifetime (lit "SIP/2.0 200 OK") _ (lit "urn:gsma:imei:1") 2
    H1 eq_refl eq_refl eq_refl H2)) own eq_refl).
Defined.
