(* ===== verification/Bytes.v ===== *)
(** * Big-endian integers

    The [to_be_bytes] and [from_be_bytes] of Rust's fixed-width integers, shared by
    the binary codecs of IKEv2, EAP-AKA and the virtual SIM: an integer of [n]
    bytes is a [Z] below [256 ^ n]. *)
From Stdlib Require Import ZArith Lia.
From stdpp Require Import prelude.
From S2P Require Import Prelude.
Local Open Scope Z_scope.

(** [z.to_be_bytes()] of an integer of [n] bytes. *)
Fixpoint be_bytes (n : nat) (z : Z) : list Z :=
  match n with
  | O => []
  | S n => be_bytes n (z / 256) ++ [z mod 256]
  end.

(** [uN::from_be_bytes(bytes)] *)
Definition of_be_bytes (bytes : list Z) : Z := foldl (λ acc b, acc * 256 + b) 0 bytes.

(** The same for a bind, by rewriting: the values stay as they are. *)
Lemma bind_ok {E A B} (a : A) (f : A → res E B) : (Ok a ≫= f) = f a.
Proof. done. Qed.

Lemma bytes_ok_cons b l : bytes_ok (b :: l) ↔ is_byte b ∧ bytes_ok l.
Proof. apply Forall_cons. Qed.
Lemma bytes_ok_snoc l b : bytes_ok (l ++ [b]) ↔ bytes_ok l ∧ is_byte b.
Proof. unfold bytes_ok. by rewrite Forall_app, Forall_singleton. Qed.

Lemma length_be_bytes n z : length (be_bytes n z) = n.
Proof. revert z. induction n as [|n IH]; intros z; simpl; [done|]. rewrite length_app, IH. simpl. lia. Qed.

Lemma bytes_ok_be_bytes n z : bytes_ok (be_bytes n z).
Proof.
  revert z. induction n as [|n IH]; intros z; simpl; [constructor|].
  apply bytes_ok_snoc; split; [apply IH|].
  pose proof (Z.mod_pos_bound z 256). unfold is_byte. lia.
Qed.

Lemma of_be_bytes_snoc l b : of_be_bytes (l ++ [b]) = of_be_bytes l * 256 + b.
Proof. unfold of_be_bytes. by rewrite foldl_app. Qed.

Lemma pow256_succ (n : nat) : 256 ^ Z.of_nat (S n) = 256 * 256 ^ Z.of_nat n.
Proof. rewrite Nat2Z.inj_succ, Z.pow_succ_r by lia. done. Qed.

Lemma pow256_pos (n : nat) : 0 < 256 ^ Z.of_nat n.
Proof. apply Z.pow_pos_nonneg; lia. Qed.

Lemma of_be_bytes_be n z : 0 ≤ z < 256 ^ Z.of_nat n → of_be_bytes (be_bytes n z) = z.
Proof.
  revert z. induction n as [|n IH]; intros z Hz; [simpl in *; unfold of_be_bytes; simpl; lia|].
  rewrite pow256_succ in Hz. simpl. rewrite of_be_bytes_snoc, IH.
  - pose proof (Z.div_mod z 256). lia.
  - split; [apply Z.div_pos; lia|]. apply Z.div_lt_upper_bound; lia.
Qed.

Lemma of_be_bytes_range l : bytes_ok l → 0 ≤ of_be_bytes l < 256 ^ Z.of_nat (length l).
Proof.
  induction l as [|b l IH] using rev_ind; [unfold of_be_bytes; simpl; lia|].
  intros [Hl Hb]%bytes_ok_snoc. rewrite of_be_bytes_snoc, length_app. simpl.
  rewrite Nat.add_1_r, pow256_succ. specialize (IH Hl). unfold is_byte in Hb. lia.
Qed.

Lemma be_bytes_of l : bytes_ok l → be_bytes (length l) (of_be_bytes l) = l.
Proof.
  induction l as [|b l IH] using rev_ind; [done|].
  intros [Hl Hb]%bytes_ok_snoc. unfold is_byte in Hb.
  rewrite of_be_bytes_snoc, length_app. simpl. rewrite Nat.add_1_r. simpl.
  rewrite Z.div_add_l, Z.div_small, Z.add_0_r, IH by (done || lia).
  by rewrite Z.add_comm, Z.mod_add, Z.mod_small by lia.
Qed.

Lemma be_bytes_of' n l : bytes_ok l → length l = n → be_bytes n (of_be_bytes l) = l.
Proof. intros Hl <-. by apply be_bytes_of. Qed.

Lemma be_bytes_inj n a b : 0 ≤ a < 256 ^ Z.of_nat n → 0 ≤ b < 256 ^ Z.of_nat n →
  be_bytes n a = be_bytes n b → a = b.
Proof. intros Ha Hb H. rewrite <-(of_be_bytes_be n a), <-(of_be_bytes_be n b); [by rewrite H|done..]. Qed.

Lemma of_be_bytes_inj l k : bytes_ok l → bytes_ok k → length l = length k →
  of_be_bytes l = of_be_bytes k → l = k.
Proof. intros Hl Hk Hlen H. by rewrite <-(be_bytes_of l), <-(be_bytes_of k), H, Hlen. Qed.

(** A byte read from, and a slice cut out of, a string of bytes. *)
Lemma idx_byte {E} l i b : bytes_ok l → idx (E:=E) l i = Ok b → is_byte b.
Proof. intros Hl Hi%idx_Ok. by apply (bytes_ok_lookup l i). Qed.
Lemma slice_bytes {E} l a b s : bytes_ok l → slice (E:=E) l a b = Ok s → bytes_ok s ∧ length s = (b - a)%nat.
Proof.
  intros Hl (?&?&->)%slice_Ok. split; [by apply bytes_ok_take, bytes_ok_drop|].
  rewrite length_take, length_drop. lia.
Qed.
Lemma slice_from_bytes {E} l a s : bytes_ok l → slice_from (E:=E) l a = Ok s → bytes_ok s.
Proof. intros Hl (?&->)%slice_from_Ok. by apply bytes_ok_drop. Qed.

Lemma be_bytes_S n z : be_bytes (S n) z = be_bytes n (z / 256) ++ [z mod 256].
Proof. done. Qed.
(** The comparison of two codes without an early exit: the differences or-ed together
    are zero exactly on equal codes. *)
Lemma fold_mismatch_zero l k : length l = length k →
  foldl (λ acc '(a, b), Z.lor acc (Z.lxor a b)) 0 (zip l k) = 0 ↔ l = k.
Proof.
  intros Hlen.
  assert (∀ acc, foldl (λ acc '(a, b), Z.lor acc (Z.lxor a b)) acc (zip l k) = 0 ↔ acc = 0 ∧ l = k) as ->.
  2:{ split; [by intros [_ ?]|done]. }
  revert k Hlen. induction l as [|x l IH]; intros [|y k] Hlen acc; try discriminate; cbn [zip zip_with foldl].
  { split; [done|by intros [? _]]. }
  rewrite IH by (simpl in Hlen; lia). rewrite Z.lor_eq_0_iff, Z.lxor_eq_0_iff. split.
  - intros [[-> ->] ->]. done.
  - by intros [-> [= -> ->]].
Qed.

(** Only the low bytes are written. *)
Lemma be_bytes_mod n z : be_bytes n (z mod 256 ^ Z.of_nat n) = be_bytes n z.
Proof.
  revert z. induction n as [|n IH]; intros z; [done|]. rewrite pow256_succ. cbn [be_bytes].
  pose proof (pow256_pos n). rewrite Z.rem_mul_r by lia.
  rewrite (Z.mul_comm 256 ((z / 256) mod _)), Z.div_add, Z.mod_add by lia.
  rewrite (Z.div_small (z mod 256)), Z.add_0_l, IH, Z.mod_mod by (try apply Z.mod_pos_bound; lia). done.
Qed.

(** Two bytes, spelled out. *)
Lemma be_bytes_2 n : be_bytes 2 n = [(n / 256) mod 256; n mod 256].
Proof. done. Qed.
Lemma of_be_bytes_2 n : 0 ≤ n < 65536 → of_be_bytes [(n / 256) mod 256; n mod 256] = n.
Proof. intros. rewrite <-be_bytes_2. by apply of_be_bytes_be. Qed.

#[global] Arguments be_bytes : simpl never.
#[global] Arguments of_be_bytes : simpl never.
