(* ===== verification/IkeCodec.v ===== *)
(** * The IKEv2 message codec

    Models [connectivity/modems/ims/vowifi/ike_codec.rs]: the header and the chain
    of generic payloads of an IKEv2 message (RFC 7296, section 3), as the client
    writes them and as it reads what an ePDG sends.  Theorems: what [encode]
    writes is read back, [decode] ends on every string of bytes without a panic,
    and what it accepts is a message [encode] can write again. *)
From Stdlib Require Import ZArith Lia.
From stdpp Require Import prelude.
From S2P Require Import Prelude Bytes.
Local Open Scope Z_scope.

Definition IKEV2_MAJOR_VERSION : Z := 2.
Definition IKE_HEADER_LEN : nat := 28.
Definition GENERIC_PAYLOAD_HEADER_LEN : nat := 4.

(** ** The codes *)
Inductive IkePayloadType :=
| NoNext | SecurityAssociation | KeyExchange | IdentificationInitiator
| IdentificationResponder | Certificate | CertificateRequest | Authentication | Nonce
| Notify | Delete | VendorId | TrafficSelectorInitiator | TrafficSelectorResponder
| Encrypted | Configuration | ExtensibleAuthentication | EncryptedFragment
| UnknownPayload (value : Z).
#[export] Instance IkePayloadType_eq_dec : EqDecision IkePayloadType.
Proof. solve_decision. Defined.

Definition payload_type_from_u8 (value : Z) : IkePayloadType :=
  match value with
  | 0 => NoNext
  | 33 => SecurityAssociation
  | 34 => KeyExchange
  | 35 => IdentificationInitiator
  | 36 => IdentificationResponder
  | 37 => Certificate
  | 38 => CertificateRequest
  | 39 => Authentication
  | 40 => Nonce
  | 41 => Notify
  | 42 => Delete
  | 43 => VendorId
  | 44 => TrafficSelectorInitiator
  | 45 => TrafficSelectorResponder
  | 46 => Encrypted
  | 47 => Configuration
  | 48 => ExtensibleAuthentication
  | 53 => EncryptedFragment
  | other => UnknownPayload other
  end.

Definition payload_type_as_u8 (t : IkePayloadType) : Z :=
  match t with
  | NoNext => 0
  | SecurityAssociation => 33
  | KeyExchange => 34
  | IdentificationInitiator => 35
  | IdentificationResponder => 36
  | Certificate => 37
  | CertificateRequest => 38
  | Authentication => 39
  | Nonce => 40
  | Notify => 41
  | Delete => 42
  | VendorId => 43
  | TrafficSelectorInitiator => 44
  | TrafficSelectorResponder => 45
  | Encrypted => 46
  | Configuration => 47
  | ExtensibleAuthentication => 48
  | EncryptedFragment => 53
  | UnknownPayload value => value
  end.

Inductive IkeExchangeType :=
| IkeSaInit | IkeAuth | CreateChildSa | Informational | SessionResume
| UnknownExchange (value : Z).
#[export] Instance IkeExchangeType_eq_dec : EqDecision IkeExchangeType.
Proof. solve_decision. Defined.

Definition exchange_type_from_u8 (value : Z) : IkeExchangeType :=
  match value with
  | 34 => IkeSaInit
  | 35 => IkeAuth
  | 36 => CreateChildSa
  | 37 => Informational
  | 38 => SessionResume
  | other => UnknownExchange other
  end.

Definition exchange_type_as_u8 (t : IkeExchangeType) : Z :=
  match t with
  | IkeSaInit => 34
  | IkeAuth => 35
  | CreateChildSa => 36
  | Informational => 37
  | SessionResume => 38
  | UnknownExchange value => value
  end.

Record IkeFlags := mkFlags { initiator : bool; response : bool; version : bool }.
#[export] Instance IkeFlags_eq_dec : EqDecision IkeFlags.
Proof. solve_decision. Defined.

Definition request_from_initiator : IkeFlags := mkFlags true false false.
Definition flags_from_u8 (value : Z) : IkeFlags :=
  mkFlags (negb (Z.land value 0x08 =? 0)) (negb (Z.land value 0x20 =? 0))
    (negb (Z.land value 0x10 =? 0)).
Definition flags_as_u8 (flags : IkeFlags) : Z :=
  let value := 0 in
  let value := if response flags then Z.lor value 0x20 else value in
  let value := if version flags then Z.lor value 0x10 else value in
  if initiator flags then Z.lor value 0x08 else value.

(** ** The message *)
Record IkeHeader := mkHeader {
  initiator_spi : Z;
  responder_spi : Z;
  next_payload : IkePayloadType;
  major_version : Z;
  minor_version : Z;
  exchange_type : IkeExchangeType;
  flags : IkeFlags;
  message_id : Z;
  hdr_length : Z;
}.
Record IkePayload := mkPayload { payload_type : IkePayloadType; critical : bool; body : list Z }.
Record IkeMessage := mkMessage { header : IkeHeader; payloads : list IkePayload }.
#[export] Instance IkeHeader_eq_dec : EqDecision IkeHeader.
Proof. solve_decision. Defined.
#[export] Instance IkePayload_eq_dec : EqDecision IkePayload.
Proof. solve_decision. Defined.
#[export] Instance IkeMessage_eq_dec : EqDecision IkeMessage.
Proof. solve_decision. Defined.

Inductive IkeCodecError :=
| TruncatedHeader
| TruncatedPayload
| InvalidMajorVersion (version : Z)
| InvalidMessageLength (declared actual : nat)
| InvalidPayloadLength (declared : nat)
| MessageTooLarge (length : nat).
#[export] Instance IkeCodecError_eq_dec : EqDecision IkeCodecError.
Proof. solve_decision. Defined.

(** [payloads.first().map(|payload| payload.payload_type).unwrap_or(NoNext)] *)
Definition first_type (payloads : list IkePayload) : IkePayloadType :=
  match payloads with p :: _ => payload_type p | [] => NoNext end.

Definition new_request (initiator_spi : Z) (exchange_type : IkeExchangeType) (message_id : Z)
    (payloads : list IkePayload) : IkeMessage :=
  mkMessage (mkHeader initiator_spi 0 (first_type payloads) IKEV2_MAJOR_VERSION 0 exchange_type
    request_from_initiator message_id 0) payloads.

Definition security_association (body : list Z) : IkePayload := mkPayload SecurityAssociation false body.
Definition key_exchange (body : list Z) : IkePayload := mkPayload KeyExchange false body.
Definition nonce (body : list Z) : IkePayload := mkPayload Nonce false body.

(** ** Writing *)
Definition payload_size (p : IkePayload) : nat := (GENERIC_PAYLOAD_HEADER_LEN + length (body p))%nat.
Definition total_len (payloads : list IkePayload) : nat :=
  (IKE_HEADER_LEN + sum_list_with payload_size payloads)%nat.

Definition encode_header (h : IkeHeader) (payloads : list IkePayload) : list Z :=
  be_bytes 8 (initiator_spi h) ++ be_bytes 8 (responder_spi h) ++
  [payload_type_as_u8 (first_type payloads);
   Z.lor (u8 (Z.shiftl (major_version h) 4)) (Z.land (minor_version h) 0x0f);
   exchange_type_as_u8 (exchange_type h);
   flags_as_u8 (flags h)] ++
  be_bytes 4 (message_id h) ++ be_bytes 4 (Z.of_nat (total_len payloads)).

(** The loop of [encode]: each payload names the type of the one after it. *)
Fixpoint encode_payloads (payloads : list IkePayload) : res IkeCodecError (list Z) :=
  match payloads with
  | [] => Ok []
  | p :: rest =>
    let next_payload := first_type rest in
    let payload_len := payload_size p in
    fail_if (u16_max <? Z.of_nat payload_len) (MessageTooLarge payload_len);;
    tail ← encode_payloads rest;
    Ok ([payload_type_as_u8 next_payload; if critical p then 0x80 else 0]
        ++ be_bytes 2 (Z.of_nat payload_len) ++ body p ++ tail)
  end.

Definition encode (m : IkeMessage) : res IkeCodecError (list Z) :=
  let total_len := total_len (payloads m) in
  fail_if (u32_max <? Z.of_nat total_len) (MessageTooLarge total_len);;
  tail ← encode_payloads (payloads m);
  Ok (encode_header (header m) (payloads m) ++ tail).

(** ** Reading *)
Definition decode_header (input : list Z) : res IkeCodecError IkeHeader :=
  fail_if (length input <? IKE_HEADER_LEN)%nat TruncatedHeader;;
  initiator_spi ← slice input 0 8;
  responder_spi ← slice input 8 16;
  next_payload ← idx input 16;
  version ← idx input 17;
  let major_version := Z.shiftr version 4 in
  let minor_version := Z.land version 0x0f in
  fail_if (negb (major_version =? IKEV2_MAJOR_VERSION)) (InvalidMajorVersion major_version);;
  exchange_type ← idx input 18;
  flags ← idx input 19;
  message_id ← slice input 20 24;
  length_ ← slice input 24 28;
  let declared := Z.to_nat (of_be_bytes length_) in
  fail_if (negb (declared =? length input)%nat) (InvalidMessageLength declared (length input));;
  Ok (mkHeader (of_be_bytes initiator_spi) (of_be_bytes responder_spi)
    (payload_type_from_u8 next_payload) major_version minor_version
    (exchange_type_from_u8 exchange_type) (flags_from_u8 flags) (of_be_bytes message_id)
    (of_be_bytes length_)).

(** The [while] loop: its variables are [payloads], [offset] and [current_type]. *)
Fixpoint decode_payloads (fuel : nat) (input : list Z) (payloads : list IkePayload) (offset : nat)
    (current_type : IkePayloadType) : res IkeCodecError (list IkePayload * nat) :=
  match fuel with
  | O => Panic
  | S fuel =>
    if decide (current_type = NoNext) then Ok (payloads, offset) else
    fail_if (length input - offset <? GENERIC_PAYLOAD_HEADER_LEN)%nat TruncatedPayload;;
    following ← idx input offset;
    flags ← idx input (offset + 1);
    let critical := negb (Z.land flags 0x80 =? 0) in
    payload_len ← slice input (offset + 2) (offset + 4);
    let payload_len := Z.to_nat (of_be_bytes payload_len) in
    fail_if (payload_len <? GENERIC_PAYLOAD_HEADER_LEN)%nat (InvalidPayloadLength payload_len);;
    let end_ := (offset + payload_len)%nat in
    fail_if (length input <? end_)%nat TruncatedPayload;;
    body ← slice input (offset + GENERIC_PAYLOAD_HEADER_LEN) end_;
    decode_payloads fuel input (payloads ++ [mkPayload current_type critical body]) end_
      (payload_type_from_u8 following)
  end.

Definition decode (input : list Z) : res IkeCodecError IkeMessage :=
  header ← decode_header input;
  '(payloads, offset) ← decode_payloads (S (length input)) input [] IKE_HEADER_LEN (next_payload header);
  fail_if (negb (offset =? length input)%nat) (InvalidMessageLength offset (length input));;
  Ok (mkMessage header payloads).

(** ** Well-formed messages *)

(** A code that is not spelled [Unknown] when it has a name of its own. *)
Definition payload_type_ok (t : IkePayloadType) : Prop :=
  is_byte (payload_type_as_u8 t) ∧ payload_type_from_u8 (payload_type_as_u8 t) = t.
Definition exchange_type_ok (t : IkeExchangeType) : Prop :=
  is_byte (exchange_type_as_u8 t) ∧ exchange_type_from_u8 (exchange_type_as_u8 t) = t.
Definition payload_ok (p : IkePayload) : Prop :=
  payload_type_ok (payload_type p) ∧ payload_type p ≠ NoNext ∧ bytes_ok (body p) ∧
  Z.of_nat (payload_size p) ≤ u16_max.
Definition header_ok (h : IkeHeader) : Prop :=
  0 ≤ initiator_spi h < 2 ^ 64 ∧ 0 ≤ responder_spi h < 2 ^ 64 ∧
  major_version h = IKEV2_MAJOR_VERSION ∧ 0 ≤ minor_version h < 16 ∧
  exchange_type_ok (exchange_type h) ∧ 0 ≤ message_id h < 2 ^ 32.
Definition message_ok (m : IkeMessage) : Prop :=
  header_ok (header m) ∧ Forall payload_ok (payloads m) ∧
  Z.of_nat (total_len (payloads m)) ≤ u32_max.
#[export] Instance payload_ok_dec p : Decision (payload_ok p).
Proof. unfold payload_ok, payload_type_ok. apply _. Defined.
#[export] Instance message_ok_dec m : Decision (message_ok m).
Proof. unfold message_ok, header_ok, exchange_type_ok. apply _. Defined.

(** The header with the two fields [encode] computes from the payloads. *)
Definition settled_header (h : IkeHeader) (payloads : list IkePayload) : IkeHeader :=
  mkHeader (initiator_spi h) (responder_spi h) (first_type payloads) (major_version h)
    (minor_version h) (exchange_type h) (flags h) (message_id h) (Z.of_nat (total_len payloads)).
Definition settled (m : IkeMessage) : IkeMessage :=
  mkMessage (settled_header (header m) (payloads m)) (payloads m).

(** ** Codes *)
Lemma payload_type_from_as v : payload_type_as_u8 (payload_type_from_u8 v) = v.
Proof. unfold payload_type_from_u8. by repeat case_match. Qed.
Lemma exchange_type_from_as v : exchange_type_as_u8 (exchange_type_from_u8 v) = v.
Proof. unfold exchange_type_from_u8. by repeat case_match. Qed.
Lemma payload_type_from_ok v : is_byte v → payload_type_ok (payload_type_from_u8 v).
Proof. intros. unfold payload_type_ok. by rewrite payload_type_from_as. Qed.
Lemma exchange_type_from_ok v : is_byte v → exchange_type_ok (exchange_type_from_u8 v).
Proof. intros. unfold exchange_type_ok. by rewrite exchange_type_from_as. Qed.
Lemma flags_from_as f : flags_from_u8 (flags_as_u8 f) = f.
Proof. by destruct f as [[] [] []]. Qed.
Lemma is_byte_flags f : is_byte (flags_as_u8 f).
Proof. destruct f as [[] [] []]; by apply (bool_decide_unpack _). Qed.
Lemma first_type_ok l : Forall payload_ok l → payload_type_ok (first_type l).
Proof. destruct 1 as [|p l (?&_)]; [by apply (bool_decide_unpack _)|done]. Qed.

(** The version byte: two nibbles. *)
Definition version_byte (minor : Z) : Z :=
  Z.lor (u8 (Z.shiftl IKEV2_MAJOR_VERSION 4)) (Z.land minor 0x0f).
Definition nibbles_ok (minor : Z) : Prop :=
  is_byte (version_byte minor) ∧ Z.shiftr (version_byte minor) 4 = IKEV2_MAJOR_VERSION ∧
  Z.land (version_byte minor) 0x0f = minor.
Lemma version_nibbles minor : 0 ≤ minor < 16 → nibbles_ok minor.
Proof.
  intros Hm. assert (Forall nibbles_ok (seqZ 0 16)) as Hall.
  { repeat (constructor; [split_and!; by apply (bool_decide_unpack _)|]). constructor. }
  rewrite Forall_forall in Hall. apply Hall, elem_of_seqZ. lia.
Qed.

(** ** Sizes *)
Lemma length_encode_header h l : length (encode_header h l) = IKE_HEADER_LEN.
Proof. unfold encode_header. by rewrite !length_app, !length_be_bytes. Qed.

Lemma encode_payloads_Ok l : Forall payload_ok l →
  ∃ bs, encode_payloads l = Ok bs ∧ bytes_ok bs ∧ length bs = sum_list_with payload_size l.
Proof.
  induction 1 as [|p l (Ht & Hn & Hb & Hs) Hl (bs & IH & Hbs & Hlen)]; [by exists []; repeat split; constructor|].
  cbn [encode_payloads]. rewrite (proj2 (Z.ltb_ge _ _) Hs). cbn [fail_if mbind res_bind]. rewrite IH.
  cbn [mbind res_bind app].
  eexists; split; [reflexivity|]. split.
  - apply bytes_ok_cons; split; [apply (first_type_ok l Hl)|].
    apply bytes_ok_cons; split; [by destruct (critical p); apply (bool_decide_unpack _)|].
    apply bytes_ok_app; split; [apply bytes_ok_be_bytes|]. by apply bytes_ok_app.
  - cbn [length app]. rewrite !length_app, length_be_bytes, Hlen.
    cbn [sum_list_with]. unfold payload_size at 2, GENERIC_PAYLOAD_HEADER_LEN. lia.
Qed.

Lemma bytes_ok_encode_header h l : header_ok h → Forall payload_ok l → bytes_ok (encode_header h l).
Proof.
  intros (_ & _ & Hmaj & Hm & (He & _) & _) Hl. unfold encode_header. rewrite Hmaj, !bytes_ok_app.
  split_and!; try apply bytes_ok_be_bytes. repeat (apply bytes_ok_cons; split); [..|constructor].
  - apply (first_type_ok l Hl).
  - by apply (version_nibbles (minor_version h)).
  - done.
  - apply is_byte_flags.
Qed.

(** ** Reading what was written *)
Lemma decode_header_encode h l tail :
  header_ok h → Forall payload_ok l → Z.of_nat (total_len l) ≤ u32_max →
  (IKE_HEADER_LEN + length tail)%nat = total_len l →
  decode_header (encode_header h l ++ tail) = Ok (settled_header h l).
Proof.
  intros (Hi & Hr & Hmaj & Hmin & (He & He') & Hid) Hl Htot Hlen.
  pose proof (first_type_ok l Hl) as (_ & Hft).
  pose proof (version_nibbles _ Hmin) as (_ & Hv1 & Hv2).
  unfold decode_header. rewrite length_app, length_encode_header, Hlen.
  rewrite (proj2 (Nat.ltb_ge _ _)) by (unfold total_len; lia). cbn [fail_if mbind res_bind].
  unfold encode_header. rewrite <-!app_assoc.
  set (i := be_bytes 8 (initiator_spi h)). set (r := be_bytes 8 (responder_spi h)).
  set (mid := be_bytes 4 (message_id h)). set (len := be_bytes 4 (Z.of_nat (total_len l))).
  assert (length i = 8 ∧ length r = 8 ∧ length mid = 4 ∧ length len = 4)%nat as (Li & Lr & Lm & Ll)
    by (unfold i, r, mid, len; by rewrite !length_be_bytes).
  cbn [app].
  match goal with |- context [slice (i ++ r ++ ?rest) 0 8] => set (rest0 := rest) end.
  rewrite (slice_app [] i (r ++ rest0) 0 8) by (simpl; lia). cbn [mbind res_bind].
  rewrite (slice_app i r rest0 8 16) by lia. cbn [mbind res_bind].
  rewrite (app_assoc i r). assert (length (i ++ r) = 16)%nat as Lir by (rewrite length_app; lia).
  set (p := i ++ r) in *. unfold rest0; clear rest0.
  rewrite (idx_app p _ _ 16) by done. cbn [mbind res_bind].
  match goal with |- context [idx (p ++ ?a :: ?b :: ?c :: ?d :: ?t) 17] =>
    change (a :: b :: c :: d :: t) with ([a; b; c; d] ++ t);
    set (q := [a; b; c; d]); rewrite (app_assoc p q);
    assert (length (p ++ q) = 20)%nat as Lpq by (rewrite length_app; simpl; lia);
    assert (∀ j x, (16 ≤ j < 20)%nat → q !! (j - 16)%nat = Some x →
        idx (E:=IkeCodecError) ((p ++ q) ++ t) j = Ok x) as Hq
      by (intros j x Hj Hx; apply idx_Ok; rewrite lookup_app_l by lia;
          rewrite lookup_app_r by lia; by rewrite Lir)
  end.
  rewrite (Hq 17%nat _ ltac:(lia) eq_refl), (Hq 18%nat _ ltac:(lia) eq_refl), (Hq 19%nat _ ltac:(lia) eq_refl).
  cbn [mbind res_bind]. rewrite Hmaj. fold (version_byte (minor_version h)). rewrite Hv1, Hv2, Z.eqb_refl.
  cbn [negb fail_if mbind res_bind].
  rewrite (slice_app (p ++ q) mid (len ++ tail) 20 24) by lia. cbn [mbind res_bind].
  rewrite (app_assoc (p ++ q) mid).
  rewrite (slice_app ((p ++ q) ++ mid) len tail 24 28) by (rewrite ?length_app in *; lia).
  cbn [mbind res_bind]. unfold u32_max in Htot.
  assert (∀ n z, 0 ≤ z < 2 ^ (8 * Z.of_nat n) → of_be_bytes (be_bytes n z) = z) as Hbe.
  { intros n z Hz. apply of_be_bytes_be. change 256 with (2 ^ 8). by rewrite <-Z.pow_mul_r by lia. }
  unfold i, r, mid, len. rewrite !Hbe by (simpl Z.of_nat; lia). rewrite Nat2Z.id.
  rewrite Nat.eqb_refl. cbn [negb fail_if mbind res_bind].
  unfold settled_header. by rewrite Hft, He', flags_from_as, Hmaj.
Qed.

(** One round of the loop on a payload that is there in full. *)
Lemma decode_payloads_step fuel prefix a c b tail acc t :
  t ≠ NoNext → Z.of_nat (GENERIC_PAYLOAD_HEADER_LEN + length b) < 65536 →
  let chunk := [a; c] ++ be_bytes 2 (Z.of_nat (GENERIC_PAYLOAD_HEADER_LEN + length b)) ++ b in
  decode_payloads (S fuel) (prefix ++ chunk ++ tail) acc (length prefix) t
  = decode_payloads fuel ((prefix ++ chunk) ++ tail)
      (acc ++ [mkPayload t (negb (Z.land c 0x80 =? 0)) b]) (length (prefix ++ chunk))
      (payload_type_from_u8 a).
Proof.
  intros Ht Hb chunk. unfold GENERIC_PAYLOAD_HEADER_LEN in *.
  set (n := be_bytes 2 (Z.of_nat (4 + length b))) in *.
  assert (length n = 2)%nat as Ln by (unfold n; by rewrite length_be_bytes).
  assert (length (prefix ++ chunk) = length prefix + (4 + length b))%nat as Hlen
    by (unfold chunk; rewrite !length_app, Ln; simpl; lia).
  cbn [decode_payloads]. unfold GENERIC_PAYLOAD_HEADER_LEN.
  rewrite decide_False by done. rewrite (app_assoc prefix chunk), Hlen.
  set (w := (prefix ++ chunk) ++ tail).
  assert (w = prefix ++ a :: (c :: n ++ b ++ tail)) as W1
    by (unfold w, chunk; by rewrite <-!app_assoc).
  assert (w = (prefix ++ [a]) ++ c :: (n ++ b ++ tail)) as W2 by (by rewrite W1, <-app_assoc).
  assert (w = (prefix ++ [a; c]) ++ n ++ (b ++ tail)) as W3 by (by rewrite W1, <-app_assoc).
  assert (w = (prefix ++ [a; c] ++ n) ++ b ++ tail) as W4 by (by rewrite W1, <-!app_assoc).
  assert (length w = length prefix + (4 + length b) + length tail)%nat as Lw
    by (unfold w; by rewrite length_app, Hlen).
  rewrite Lw, (proj2 (Nat.ltb_ge _ _)) by lia. cbn [fail_if mbind res_bind].
  rewrite W1, (idx_app prefix _ a (length prefix)) by done. rewrite <-W1. cbn [mbind res_bind].
  rewrite W2, (idx_app (prefix ++ [a]) _ c) by (rewrite length_app; simpl; lia). rewrite <-W2. cbn [mbind res_bind].
  rewrite W3, (slice_app (prefix ++ [a; c]) n) by (rewrite ?length_app, ?Ln; simpl; lia). rewrite <-W3. cbn [mbind res_bind].
  unfold n. rewrite of_be_bytes_be by (change (256 ^ Z.of_nat 2) with 65536; lia). rewrite Nat2Z.id.
  rewrite (proj2 (Nat.ltb_ge _ _)) by lia. rewrite (proj2 (Nat.ltb_ge _ _)) by lia.
  cbn [fail_if mbind res_bind].
  rewrite W4, (slice_app (prefix ++ [a; c] ++ n) b) by (rewrite ?length_app, ?Ln; simpl; lia). by rewrite <-W4.
Qed.

Lemma decode_payloads_encode l : ∀ fuel prefix acc bs,
  Forall payload_ok l → encode_payloads l = Ok bs → (length l < fuel)%nat →
  decode_payloads fuel (prefix ++ bs) acc (length prefix) (first_type l)
  = Ok (acc ++ l, length (prefix ++ bs)).
Proof.
  induction l as [|p l IH]; intros fuel prefix acc bs Hok Henc Hfuel;
    (destruct fuel as [|fuel]; [simpl in Hfuel; lia|]); cbn [encode_payloads] in Henc.
  { injection Henc as <-. simpl. by rewrite !app_nil_r. }
  apply Forall_cons in Hok as [(Ht & Hn & Hb & Hs) Hl]. unfold u16_max in *.
  rewrite (proj2 (Z.ltb_ge _ _) Hs) in Henc. cbn [fail_if mbind res_bind] in Henc.
  apply bind_Ok in Henc as (tail & Htail & <-%Ok_inj). cbn [first_type].
  set (a := payload_type_as_u8 (first_type l)). set (c := if critical p then _ else _).
  unfold payload_size in *.
  set (n := be_bytes 2 (Z.of_nat (GENERIC_PAYLOAD_HEADER_LEN + length (body p)))).
  replace ([a; c] ++ n ++ body p ++ tail) with (([a; c] ++ n ++ body p) ++ tail)
    by (by rewrite <-!app_assoc).
  unfold n.
  rewrite decode_payloads_step by (done || lia).
  assert (payload_type_from_u8 a = first_type l) as -> by apply (first_type_ok l Hl).
  rewrite (IH fuel _ _ tail Hl Htail) by (simpl in Hfuel; lia).
  rewrite <-!app_assoc. do 4 f_equal.
  destruct p as [t cr b]. unfold c. by destruct cr.
Qed.

Lemma sum_payload_size_length l : (length l ≤ sum_list_with payload_size l)%nat.
Proof.
  induction l as [|p l IH]; [done|]. cbn [length sum_list_with].
  assert (4 ≤ payload_size p)%nat by (unfold payload_size, GENERIC_PAYLOAD_HEADER_LEN; lia). lia.
Qed.

Lemma encode_Ok m : message_ok m → ∃ bs,
  encode m = Ok (encode_header (header m) (payloads m) ++ bs) ∧
  encode_payloads (payloads m) = Ok bs ∧ bytes_ok (encode_header (header m) (payloads m) ++ bs) ∧
  (IKE_HEADER_LEN + length bs)%nat = total_len (payloads m).
Proof.
  intros (Hh & Hl & Ht). destruct (encode_payloads_Ok _ Hl) as (bs & Hbs & Hok & Hlen).
  exists bs. unfold encode. rewrite (proj2 (Z.ltb_ge _ _) Ht). cbn [fail_if mbind res_bind].
  rewrite Hbs. cbn [mbind res_bind]. split_and!; try done.
  - apply bytes_ok_app. split; [by apply bytes_ok_encode_header|done].
  - by rewrite Hlen.
Qed.

Lemma decode_encoded m bytes : message_ok m → encode m = Ok bytes → decode bytes = Ok (settled m).
Proof.
  intros Hm He. destruct (encode_Ok m Hm) as (bs & He' & Hbs & _ & Hlen).
  rewrite He in He'. apply Ok_inj in He' as ->. destruct Hm as (Hh & Hl & Ht).
  unfold decode. rewrite decode_header_encode by done. cbn [mbind res_bind].
  cbn [next_payload settled_header].
  rewrite <-(length_encode_header (header m) (payloads m)).
  rewrite (decode_payloads_encode _ _ _ [] bs Hl Hbs).
  - cbn [mbind res_bind]. by rewrite Nat.eqb_refl.
  - pose proof (sum_payload_size_length (payloads m)). unfold total_len in Hlen.
    rewrite length_app, length_encode_header. lia.
Qed.

(** What a reader of [n] bytes is sure to be told: the shape of a decoded header. *)
Lemma decode_header_inv input h : bytes_ok input → decode_header input = Ok h →
  header_ok h ∧ payload_type_ok (next_payload h) ∧ hdr_length h = Z.of_nat (length input) ∧
  Z.of_nat (length input) ≤ u32_max ∧ (IKE_HEADER_LEN ≤ length input)%nat.
Proof.
  intros Hin H. unfold decode_header in H.
  apply bind_Ok in H as (? & Hlen%fail_if_Ok & H). apply Nat.ltb_ge in Hlen.
  apply bind_Ok in H as (i & (Hi & Li)%slice_bytes & H); [|done].
  apply bind_Ok in H as (r & (Hr & Lr)%slice_bytes & H); [|done].
  apply bind_Ok in H as (np & Hnp%idx_byte & H); [|done].
  apply bind_Ok in H as (v & Hv%idx_byte & H); [|done].
  apply bind_Ok in H as (? & Hmaj%fail_if_Ok & H). apply negb_false_iff, Z.eqb_eq in Hmaj.
  apply bind_Ok in H as (e & He%idx_byte & H); [|done].
  apply bind_Ok in H as (f & Hf%idx_byte & H); [|done].
  apply bind_Ok in H as (mid & (Hm & Lm)%slice_bytes & H); [|done].
  apply bind_Ok in H as (n & (Hn & Ln)%slice_bytes & H); [|done].
  apply bind_Ok in H as (? & Hd%fail_if_Ok & <-%Ok_inj). apply negb_false_iff, Nat.eqb_eq in Hd.
  assert (∀ l (k : nat), bytes_ok l → length l = k → 0 ≤ of_be_bytes l < 256 ^ Z.of_nat k) as Hrange
    by (intros l k Hl <-; by apply of_be_bytes_range).
  pose proof (Hrange n _ Hn Ln) as Rn. pose proof (Hrange i _ Hi Li) as Ri.
  pose proof (Hrange r _ Hr Lr) as Rr. pose proof (Hrange mid _ Hm Lm) as Rm.
  cbn [Nat.sub] in *. change (256 ^ Z.of_nat 8) with (2 ^ 64) in *.
  change (256 ^ Z.of_nat 4) with (2 ^ 32) in *.
  split_and!; cbn [initiator_spi responder_spi next_payload major_version minor_version exchange_type
    flags message_id hdr_length]; try done; try lia.
  - rewrite Hmaj. unfold header_ok.
    assert (0 ≤ Z.land v 0x0f < 16); [|by split_and!; try apply exchange_type_from_ok; cbn; tauto].
    change 15 with (Z.ones 4). rewrite Z.land_ones by lia. apply Z.mod_pos_bound. lia.
  - by apply payload_type_from_ok.
  - unfold u32_max. lia.
Qed.

Lemma no_panic_decode_header input : no_panic (decode_header input).
Proof. unfold decode_header, IKE_HEADER_LEN. np. Qed.

(** The loop: every round moves at least four bytes on, so its fuel is enough; what it
    returns is a chain of payloads as long as the bytes it read. *)
Lemma decode_payloads_inv fuel input : bytes_ok input → ∀ acc offset t,
  payload_type_ok t → (offset ≤ length input)%nat → (length input - offset < fuel)%nat →
  no_panic (decode_payloads fuel input acc offset t) ∧
  ∀ ps offset', decode_payloads fuel input acc offset t = Ok (ps, offset') →
    ∃ rest, ps = acc ++ rest ∧ Forall payload_ok rest ∧ first_type rest = t ∧
      offset' = (offset + sum_list_with payload_size rest)%nat.
Proof.
  intros Hin. induction fuel as [|fuel IH]; intros acc offset t Ht Hoff Hfuel; [lia|].
  cbn [decode_payloads]. destruct (decide (t = NoNext)) as [->|Hn].
  { split; [done|]. intros ps o' [= <- <-]. exists []. rewrite app_nil_r. simpl. repeat split; [constructor|lia]. }
  destruct (Nat.ltb_spec (length input - offset) GENERIC_PAYLOAD_HEADER_LEN) as [|Hr]; [done|].
  unfold GENERIC_PAYLOAD_HEADER_LEN in *. cbn [fail_if mbind res_bind].
  destruct (idx_lt (E:=IkeCodecError) input offset) as (a & Ha & ->); [lia|]. cbn [mbind res_bind].
  destruct (idx_lt (E:=IkeCodecError) input (offset + 1)) as (c & Hc & ->); [lia|]. cbn [mbind res_bind].
  destruct (slice input (offset + 2) (offset + 4)) as [n|?|] eqn:En; cbn [mbind res_bind];
    [|done|by destruct (no_panic_slice (E:=IkeCodecError) input (offset + 2) (offset + 4) ltac:(lia) ltac:(lia))].
  apply slice_bytes in En as [Hnb Hnl]; [|done].
  pose proof (of_be_bytes_range n Hnb) as Rn. rewrite Hnl in Rn.
  replace (offset + 4 - (offset + 2))%nat with 2%nat in Rn by lia.
  change (256 ^ Z.of_nat 2) with 65536 in Rn. set (len := Z.to_nat (of_be_bytes n)) in *.
  destruct (Nat.ltb_spec len 4) as [|Hlen]; [done|].
  destruct (Nat.ltb_spec (length input) (offset + len)) as [|Hend]; [done|].
  cbn [fail_if mbind res_bind].
  destruct (slice input (offset + 4) (offset + len)) as [b|?|] eqn:Eb; cbn [mbind res_bind];
    [|done|by destruct (no_panic_slice (E:=IkeCodecError) input (offset + 4) (offset + len) ltac:(lia) ltac:(lia))].
  apply slice_bytes in Eb as [Hb Hbl]; [|done].
  destruct (IH (acc ++ [mkPayload t (negb (Z.land c 128 =? 0)) b]) (offset + len)%nat
    (payload_type_from_u8 a)) as [Hnp Hok]; [|lia|lia|].
  { by apply payload_type_from_ok, (bytes_ok_lookup input offset). }
  split; [done|]. intros ps o' (rest & -> & Hrest & Hft & ->)%Hok.
  exists (mkPayload t (negb (Z.land c 128 =? 0)) b :: rest). rewrite <-app_assoc.
  assert (payload_size (mkPayload t (negb (Z.land c 128 =? 0)) b) = len) as Hsz
    by (unfold payload_size, GENERIC_PAYLOAD_HEADER_LEN; cbn [body]; lia).
  split_and!; [done| |done|cbn [sum_list_with]; lia].
  constructor; [|done]. unfold payload_ok. rewrite Hsz. cbn [payload_type body].
  split_and!; try done. unfold u16_max. lia.
Qed.

(** ** Properties *)

(** C18: What [encode] writes is what [decode] reads: a message whose fields fit
    their widths, whose version is 2 and whose payloads have real types and fit 16
    bits of length is written without an error, its length field is its length, and
    reading the bytes gives it back, with the next-payload and length fields that
    [encode] computes from the payloads. *)
Theorem ike_message_roundtrip m : message_ok m → ∃ bytes,
  encode m = Ok bytes ∧ bytes_ok bytes ∧ length bytes = total_len (payloads m) ∧
  decode bytes = Ok (settled m).
Proof.
  intros Hm. destruct (encode_Ok m Hm) as (bs & He & Hbs & Hok & Hlen).
  eexists; split; [done|]. split; [done|]. rewrite length_app, length_encode_header.
  split; [done|]. by apply decode_encoded.
Qed.

Lemma decode_message_inv input : bytes_ok input →
  no_panic (decode input) ∧
  ∀ m, decode input = Ok m →
    message_ok m ∧ settled m = m ∧ total_len (payloads m) = length input ∧
    ∃ bytes, encode m = Ok bytes ∧ length bytes = length input ∧ decode bytes = Ok m.
Proof.
  intros Hin. unfold decode.
  destruct (decode_header input) as [h|e|] eqn:Eh; cbn [mbind res_bind];
    [|done|by destruct (no_panic_decode_header input)].
  destruct (decode_header_inv input h Hin Eh) as (Hh & Hnp & Hl & Hmax & Hmin).
  destruct (decode_payloads_inv (S (length input)) input Hin [] IKE_HEADER_LEN (next_payload h) Hnp Hmin
    ltac:(lia)) as [Hpanic Hok].
  destruct (decode_payloads _ _ _ _ _) as [[ps o]|e|] eqn:Ep; cbn [mbind res_bind]; [|done|done].
  destruct (Hok ps o eq_refl) as (rest & -> & Hps & Hft & ->). cbn [app].
  destruct (Nat.eqb_spec (IKE_HEADER_LEN + sum_list_with payload_size rest) (length input)) as [Heq|];
    cbn [negb fail_if mbind res_bind]; [|done].
  split; [done|]. intros m <-%Ok_inj.
  assert (message_ok (mkMessage h rest)) as Hm.
  { split; [done|]. split; [done|]. cbn [payloads]. unfold total_len. rewrite Heq. done. }
  assert (settled (mkMessage h rest) = mkMessage h rest) as Hs.
  { unfold settled, settled_header; cbn [header payloads]. f_equal.
    unfold total_len. rewrite Heq, Hft, <-Hl. by destruct h. }
  split_and!; [done|done|done|].
  destruct (encode_Ok _ Hm) as (bs & He & Hbs & _ & Hlen).
  eexists; split; [exact He|]. cbn [header payloads] in *. rewrite length_app, length_encode_header.
  split; [unfold total_len in *; lia|]. pose proof (decode_encoded _ _ Hm He) as Hd. by rewrite Hs in Hd.
Qed.

(** [decode] never panics: on every string of bytes it returns a message or an
    error, its loop ends within the length of the input, and a message it returns
    has all its fields in range, the first payload's type and the exact length of the
    input in its header, and is one that [encode] writes and [decode] reads back to
    the same message (only reserved bits of the input are lost). *)
Theorem ike_decode_total input : bytes_ok input →
  no_panic (decode input) ∧
  ∀ m, decode input = Ok m →
    message_ok m ∧ settled m = m ∧ total_len (payloads m) = length input ∧
    ∃ bytes, encode m = Ok bytes ∧ length bytes = length input ∧ decode bytes = Ok m.
Proof. apply decode_message_inv. Qed.

(** ** Concrete messages *)
Definition sample_init_message : IkeMessage :=
  new_request 0x0102030405060708 IkeSaInit 0
    [security_association [1; 2; 3; 4]; key_exchange [5; 6; 7]; nonce (replicate 32 8)].

Lemma ike_message_roundtrip_witness : message_ok sample_init_message ∧ ∃ bytes,
  encode sample_init_message = Ok bytes ∧ bytes_ok bytes ∧
  length bytes = total_len (payloads sample_init_message) ∧
  decode bytes = Ok (settled sample_init_message).
Proof.
  assert (message_ok sample_init_message) as H by (apply (bool_decide_unpack _); vm_compute; exact I).
  split; [exact H|exact (ike_message_roundtrip sample_init_message H)].
Defined.

Definition empty_informational : list Z :=
  replicate 16 1 ++ [0; 0x20; 37; 0x08] ++ [0; 0; 0; 1] ++ [0; 0; 0; 28].
Lemma ike_decode_total_witness : bytes_ok empty_informational ∧ no_panic (decode empty_informational).
Proof.
  assert (bytes_ok empty_informational) as H by (apply (bool_decide_unpack _); vm_compute; exact I).
  split; [exact H|exact (proj1 (ike_decode_total empty_informational H))].
Defined.

(** The tests of the source, evaluated. *)
Example init_message_bytes : ∃ bytes, encode sample_init_message = Ok bytes ∧
  length bytes = 79%nat ∧ take 4 (drop 16 bytes) = [33; 0x20; 34; 0x08].
Proof. eexists. split; [vm_compute; reflexivity|]. split; reflexivity. Qed.
Example short_header : decode (replicate 27 0) = Err TruncatedHeader.
Proof. vm_compute. reflexivity. Qed.
