(* ===== verification/IkePayloads.v ===== *)
(** * IKEv2 payload bodies and proposals

    Models [connectivity/modems/ims/vowifi/ike_payloads.rs]: the bodies of the
    payloads the client sends (security association, key exchange, nonce, notify,
    identities, authentication, configuration request, traffic selectors), the
    reader of the security association an ePDG answers with, and the proposals a
    profile string such as [aes128-sha256-modp2048] stands for. *)
From Stdlib Require Import ZArith Lia Ascii String.
From stdpp Require Import prelude.
From S2P Require Import Prelude Text Bytes IkeCodec.
Local Open Scope Z_scope.

(** ** Codes *)
Definition ENCR_AES_CBC : Z := 12.
Definition PRF_HMAC_MD5 : Z := 1.
Definition PRF_HMAC_SHA1 : Z := 2.
Definition PRF_HMAC_SHA2_256 : Z := 5.
Definition PRF_HMAC_SHA2_384 : Z := 6.
Definition PRF_HMAC_SHA2_512 : Z := 7.
Definition AUTH_HMAC_MD5_96 : Z := 1.
Definition AUTH_HMAC_SHA1_96 : Z := 2.
Definition AUTH_HMAC_SHA2_256_128 : Z := 12.
Definition AUTH_HMAC_SHA2_384_192 : Z := 13.
Definition AUTH_HMAC_SHA2_512_256 : Z := 14.
Definition DH_MODP_768 : Z := 1.
Definition DH_MODP_1024 : Z := 2.
Definition DH_MODP_1536 : Z := 5.
Definition DH_MODP_2048 : Z := 14.
Definition DH_MODP_3072 : Z := 15.
Definition DH_MODP_4096 : Z := 16.
Definition DH_MODP_8192 : Z := 18.
Definition ESN_NO_EXTENDED_SEQUENCE_NUMBERS : Z := 0.
Definition IKE_ID_RFC822_ADDR : Z := 3.
Definition IKE_ID_FQDN : Z := 2.
Definition CFG_REQUEST : Z := 1.
Definition CFG_ATTR_INTERNAL_IP4_ADDRESS : Z := 1.
Definition CFG_ATTR_INTERNAL_IP4_DNS : Z := 3.
Definition CFG_ATTR_INTERNAL_IP6_ADDRESS : Z := 8.
Definition CFG_ATTR_INTERNAL_IP6_DNS : Z := 10.
Definition CFG_ATTR_INTERNAL_IP4_PCSCF : Z := 20.
Definition CFG_ATTR_INTERNAL_IP6_PCSCF : Z := 21.
Definition TS_IPV4_ADDR_RANGE : Z := 7.
Definition TS_IPV6_ADDR_RANGE : Z := 8.
Definition AUTH_METHOD_SHARED_KEY_MIC : Z := 2.

Inductive IkeProtocolId := ProtoIke | ProtoAh | ProtoEsp.
Definition protocol_id_as_u8 (p : IkeProtocolId) : Z :=
  match p with ProtoIke => 1 | ProtoAh => 2 | ProtoEsp => 3 end.
Inductive TransformType :=
| Encryption | Prf | Integrity | DiffieHellmanGroup | ExtendedSequenceNumbers.
Definition transform_type_as_u8 (t : TransformType) : Z :=
  match t with
  | Encryption => 1 | Prf => 2 | Integrity => 3 | DiffieHellmanGroup => 4
  | ExtendedSequenceNumbers => 5
  end.
Inductive TransformAttribute := KeyLength (bits : Z).
Inductive NotifyProtocolId := NotifyNone | NotifyIke | NotifyAh | NotifyEsp.
Definition notify_protocol_as_u8 (p : NotifyProtocolId) : Z :=
  match p with NotifyNone => 0 | NotifyIke => 1 | NotifyAh => 2 | NotifyEsp => 3 end.
#[export] Instance IkeProtocolId_eq_dec : EqDecision IkeProtocolId.
Proof. solve_decision. Defined.
#[export] Instance TransformType_eq_dec : EqDecision TransformType.
Proof. solve_decision. Defined.
#[export] Instance TransformAttribute_eq_dec : EqDecision TransformAttribute.
Proof. solve_decision. Defined.

Record TransformSpec := mkTransform {
  transform_type : TransformType;
  transform_id : Z;
  attributes : list TransformAttribute;
}.
Record ProposalSpec := mkProposal {
  number : Z;
  protocol_id : IkeProtocolId;
  spi : list Z;
  transforms : list TransformSpec;
}.
#[export] Instance TransformSpec_eq_dec : EqDecision TransformSpec.
Proof. solve_decision. Defined.
#[export] Instance ProposalSpec_eq_dec : EqDecision ProposalSpec.
Proof. solve_decision. Defined.

Record ParsedTransformAttribute := mkParsedAttribute { pa_attribute_type : Z; pa_value : Z }.
Record ParsedTransform := mkParsedTransform {
  pt_transform_type : Z;
  pt_transform_id : Z;
  pt_attributes : list ParsedTransformAttribute;
}.
Record ParsedProposal := mkParsedProposal {
  pp_number : Z;
  pp_protocol_id : Z;
  pp_spi_size : Z;
  pp_spi_present : bool;
  pp_spi : list Z;
  pp_transforms : list ParsedTransform;
}.

Inductive PayloadBuildError :=
| EmptyTransforms
| TooManyTransforms (count : nat)
| SpiTooLarge (length : nat)
| ProposalTooLarge (length : nat)
| TransformTooLarge (length : nat).

Inductive SaParseError :=
| TruncatedProposal
| TruncatedTransform
| InvalidProposalLength (declared : nat)
| InvalidTransformLength (declared : nat)
| InvalidAttributeLength (declared : nat)
| SpiExceedsProposal (spi_size proposal_len : nat)
| TransformCountMismatch (declared parsed : nat).

Inductive ProposalParseError :=
| EmptyProposal | MissingEncryption | MissingIntegrity | MissingPrf | MissingDhGroup
| UnsupportedToken (token : str).

(** ** Building the security association *)
Definition encode_attribute (a : TransformAttribute) : list Z :=
  match a with KeyLength bits => be_bytes 2 0x800e ++ be_bytes 2 bits end.

Definition encode_transform (t : TransformSpec) (has_more : bool) : res PayloadBuildError (list Z) :=
  let attributes_len := sum_list_with (λ a, match a with KeyLength _ => 4%nat end) (attributes t) in
  let transform_len := (8 + attributes_len)%nat in
  fail_if (u16_max <? Z.of_nat transform_len) (TransformTooLarge transform_len);;
  Ok ([if has_more then 3 else 0; 0] ++ be_bytes 2 (Z.of_nat transform_len)
      ++ [transform_type_as_u8 (transform_type t); 0] ++ be_bytes 2 (transform_id t)
      ++ (attributes t ≫= encode_attribute)).

Definition has_more {A} (rest : list A) : bool := match rest with [] => false | _ => true end.

Fixpoint encode_transforms (l : list TransformSpec) : res PayloadBuildError (list Z) :=
  match l with
  | [] => Ok []
  | t :: rest =>
    encoded ← encode_transform t (has_more rest);
    tail ← encode_transforms rest;
    Ok (encoded ++ tail)
  end.

Definition encode_proposal (p : ProposalSpec) (has_more : bool) : res PayloadBuildError (list Z) :=
  fail_if (bool_decide (transforms p = [])) EmptyTransforms;;
  fail_if (u8_max <? Z.of_nat (length (transforms p))) (TooManyTransforms (length (transforms p)));;
  fail_if (u8_max <? Z.of_nat (length (spi p))) (SpiTooLarge (length (spi p)));;
  transform_bytes ← encode_transforms (transforms p);
  let proposal_len := (8 + length (spi p) + length transform_bytes)%nat in
  fail_if (u16_max <? Z.of_nat proposal_len) (ProposalTooLarge proposal_len);;
  Ok ([if has_more then 2 else 0; 0] ++ be_bytes 2 (Z.of_nat proposal_len)
      ++ [number p; protocol_id_as_u8 (protocol_id p); Z.of_nat (length (spi p));
          Z.of_nat (length (transforms p))]
      ++ spi p ++ transform_bytes).

Fixpoint encode_proposals (l : list ProposalSpec) : res PayloadBuildError (list Z) :=
  match l with
  | [] => Ok []
  | p :: rest =>
    encoded ← encode_proposal p (has_more rest);
    tail ← encode_proposals rest;
    Ok (encoded ++ tail)
  end.

Definition build_sa_payload (proposals : list ProposalSpec) : res PayloadBuildError IkePayload :=
  body ← encode_proposals proposals;
  Ok (mkPayload SecurityAssociation false body).

(** ** The other payloads *)
Definition build_ke_payload (dh_group : Z) (public_value : list Z) : IkePayload :=
  mkPayload KeyExchange false (be_bytes 2 dh_group ++ be_bytes 2 0 ++ public_value).
Definition build_nonce_payload (nonce : list Z) : IkePayload := mkPayload Nonce false nonce.
Definition build_notify_payload (protocol : NotifyProtocolId) (spi : list Z) (notify_type : Z)
    (data : list Z) : res PayloadBuildError IkePayload :=
  fail_if (u8_max <? Z.of_nat (length spi)) (SpiTooLarge (length spi));;
  Ok (mkPayload Notify false
    ([notify_protocol_as_u8 protocol; Z.of_nat (length spi)] ++ be_bytes 2 notify_type ++ spi ++ data)).
Definition build_identification_initiator_payload (identity : str) : IkePayload :=
  mkPayload IdentificationInitiator false (IKE_ID_RFC822_ADDR :: [0; 0; 0] ++ utf8_encode identity).
Definition build_identification_responder_payload (fqdn : str) : IkePayload :=
  mkPayload IdentificationResponder false (IKE_ID_FQDN :: [0; 0; 0] ++ utf8_encode fqdn).
Definition build_device_identity_vendor_payload (imei : str) : IkePayload :=
  mkPayload VendorId false (utf8_encode imei).
Definition build_authentication_shared_key_payload (data : list Z) : IkePayload :=
  mkPayload Authentication false (AUTH_METHOD_SHARED_KEY_MIC :: [0; 0; 0] ++ data).

Definition requests_ipv4 (ip_stack : str) : bool :=
  bool_decide (ip_stack ∈ (lit <$> ["ipv4"; "ipv4v6"; "dual"; "dual_stack"]%string)).
Definition requests_ipv6 (ip_stack : str) : bool :=
  bool_decide (ip_stack ∈ (lit <$> ["ipv6"; "ipv4v6"; "dual"; "dual_stack"]%string)).

(** [value.len() as u16] wraps. *)
Definition push_config_attribute (body : list Z) (attribute_type : Z) (value : list Z) : list Z :=
  body ++ be_bytes 2 attribute_type ++ be_bytes 2 (u16 (Z.of_nat (length value))) ++ value.
Definition build_configuration_request_payload (ip_stack : str) : IkePayload :=
  let body := CFG_REQUEST :: [0; 0; 0] in
  let body := if requests_ipv4 ip_stack then
      push_config_attribute (push_config_attribute (push_config_attribute body
        CFG_ATTR_INTERNAL_IP4_ADDRESS []) CFG_ATTR_INTERNAL_IP4_DNS []) CFG_ATTR_INTERNAL_IP4_PCSCF []
    else body in
  let body := if requests_ipv6 ip_stack then
      push_config_attribute (push_config_attribute (push_config_attribute body
        CFG_ATTR_INTERNAL_IP6_ADDRESS []) CFG_ATTR_INTERNAL_IP6_DNS []) CFG_ATTR_INTERNAL_IP6_PCSCF []
    else body in
  mkPayload Configuration false body.

Definition push_ipv4_selector (body : list Z) : list Z :=
  body ++ [TS_IPV4_ADDR_RANGE; 0] ++ be_bytes 2 16 ++ be_bytes 2 0 ++ be_bytes 2 u16_max
  ++ [0; 0; 0; 0] ++ [255; 255; 255; 255].
Definition push_ipv6_selector (body : list Z) : list Z :=
  body ++ [TS_IPV6_ADDR_RANGE; 0] ++ be_bytes 2 40 ++ be_bytes 2 0 ++ be_bytes 2 u16_max
  ++ replicate 16 0 ++ replicate 16 0xff.
Definition build_traffic_selector_payload (t : IkePayloadType) (ip_stack : str) : IkePayload :=
  let '(selectors, selector_count) := ([], 0) in
  let '(selectors, selector_count) :=
    if requests_ipv4 ip_stack then (push_ipv4_selector selectors, sat_add u8_max selector_count 1)
    else (selectors, selector_count) in
  let '(selectors, selector_count) :=
    if requests_ipv6 ip_stack then (push_ipv6_selector selectors, sat_add u8_max selector_count 1)
    else (selectors, selector_count) in
  let '(selectors, selector_count) :=
    if bool_decide (selectors = []) then (push_ipv4_selector selectors, 1)
    else (selectors, selector_count) in
  mkPayload t false (selector_count :: [0; 0; 0] ++ selectors).
Definition build_traffic_selector_initiator_payload : str → IkePayload :=
  build_traffic_selector_payload TrafficSelectorInitiator.
Definition build_traffic_selector_responder_payload : str → IkePayload :=
  build_traffic_selector_payload TrafficSelectorResponder.

(** ** Reading a security association *)
Fixpoint parse_transform_attributes (fuel : nat) (input : list Z)
    : res SaParseError (list ParsedTransformAttribute) :=
  match fuel with
  | O => Panic
  | S fuel =>
    if bool_decide (input = []) then Ok [] else
    fail_if (length input <? 4)%nat (InvalidAttributeLength (length input));;
    attribute_type ← slice input 0 2;
    let attribute_type := of_be_bytes attribute_type in
    value ← slice input 2 4;
    let value := of_be_bytes value in
    if negb (Z.land attribute_type 0x8000 =? 0) then
      input ← slice_from input 4;
      rest ← parse_transform_attributes fuel input;
      Ok (mkParsedAttribute (Z.land attribute_type 0x7fff) value :: rest)
    else
      let len := Z.to_nat value in
      fail_if ((len <? 4) || (length input <? len))%nat (InvalidAttributeLength len);;
      input ← slice_from input len;
      rest ← parse_transform_attributes fuel input;
      Ok (mkParsedAttribute attribute_type (u16 (Z.of_nat len)) :: rest)
  end.

Fixpoint parse_transforms (fuel : nat) (input : list Z) : res SaParseError (list ParsedTransform) :=
  match fuel with
  | O => Panic
  | S fuel =>
    if bool_decide (input = []) then Ok [] else
    fail_if (length input <? 8)%nat TruncatedTransform;;
    transform_len ← slice input 2 4;
    let transform_len := Z.to_nat (of_be_bytes transform_len) in
    fail_if (transform_len <? 8)%nat (InvalidTransformLength transform_len);;
    fail_if (length input <? transform_len)%nat TruncatedTransform;;
    transform_type ← idx input 4;
    transform_id ← slice input 6 8;
    attribute_bytes ← slice input 8 transform_len;
    attributes ← parse_transform_attributes (S (length attribute_bytes)) attribute_bytes;
    input ← slice_from input transform_len;
    rest ← parse_transforms fuel input;
    Ok (mkParsedTransform transform_type (of_be_bytes transform_id) attributes :: rest)
  end.

Fixpoint parse_proposals (fuel : nat) (body : list Z) (offset : nat)
    : res SaParseError (list ParsedProposal) :=
  match fuel with
  | O => Panic
  | S fuel =>
    if (offset <? length body)%nat then
      fail_if (length body - offset <? 8)%nat TruncatedProposal;;
      proposal_len ← slice body (offset + 2) (offset + 4);
      let proposal_len := Z.to_nat (of_be_bytes proposal_len) in
      fail_if (proposal_len <? 8)%nat (InvalidProposalLength proposal_len);;
      let end_ := (offset + proposal_len)%nat in
      fail_if (length body <? end_)%nat TruncatedProposal;;
      number ← idx body (offset + 4);
      protocol_id ← idx body (offset + 5);
      spi_size ← idx body (offset + 6);
      transform_count ← idx body (offset + 7);
      let spi_start := (offset + 8)%nat in
      let transform_start := (spi_start + Z.to_nat spi_size)%nat in
      fail_if (end_ <? transform_start)%nat (SpiExceedsProposal (Z.to_nat spi_size) proposal_len);;
      spi ← slice body spi_start transform_start;
      transform_bytes ← slice body transform_start end_;
      transforms ← parse_transforms (S (length transform_bytes)) transform_bytes;
      fail_if (negb (length transforms =? Z.to_nat transform_count)%nat)
        (TransformCountMismatch (Z.to_nat transform_count) (length transforms));;
      rest ← parse_proposals fuel body end_;
      Ok (mkParsedProposal number protocol_id spi_size (0 <? spi_size) spi transforms :: rest)
    else Ok []
  end.
Definition parse_sa_payload (body : list Z) : res SaParseError (list ParsedProposal) :=
  parse_proposals (S (length body)) body 0.

(** ** Proposals of a profile *)
Definition transform_of (t : TransformType) (id : Z) : TransformSpec := mkTransform t id [].
Definition aes_cbc (bits : Z) : TransformSpec := mkTransform Encryption ENCR_AES_CBC [KeyLength bits].

(** [proposal.split('-').filter(|token| !token.is_empty())] *)
Definition profile_tokens (proposal : str) : list str :=
  filter (λ token, token ≠ []) (split (ch "-") proposal).

(** The arms of the two functions that name the encryption and the integrity. *)
Definition encryption_token (token : str) : option TransformSpec :=
  if str_eqb token (lit "aes128") then Some (aes_cbc 128)
  else if str_eqb token (lit "aes256") then Some (aes_cbc 256)
  else None.
Definition integrity_token (token : str) : option TransformSpec :=
  if str_eqb token (lit "md5") then Some (transform_of Integrity AUTH_HMAC_MD5_96)
  else if str_eqb token (lit "sha1") then Some (transform_of Integrity AUTH_HMAC_SHA1_96)
  else if str_eqb token (lit "sha256") then Some (transform_of Integrity AUTH_HMAC_SHA2_256_128)
  else if str_eqb token (lit "sha384") then Some (transform_of Integrity AUTH_HMAC_SHA2_384_192)
  else if str_eqb token (lit "sha512") then Some (transform_of Integrity AUTH_HMAC_SHA2_512_256)
  else None.
Definition prf_token (token : str) : option TransformSpec :=
  if str_eqb token (lit "prfmd5") then Some (transform_of Prf PRF_HMAC_MD5)
  else if str_eqb token (lit "prfsha1") then Some (transform_of Prf PRF_HMAC_SHA1)
  else if str_eqb token (lit "prfsha256") then Some (transform_of Prf PRF_HMAC_SHA2_256)
  else if str_eqb token (lit "prfsha384") then Some (transform_of Prf PRF_HMAC_SHA2_384)
  else if str_eqb token (lit "prfsha512") then Some (transform_of Prf PRF_HMAC_SHA2_512)
  else None.
Definition dh_token (token : str) : option TransformSpec :=
  if str_eqb token (lit "modp768") then Some (transform_of DiffieHellmanGroup DH_MODP_768)
  else if str_eqb token (lit "modp1024") then Some (transform_of DiffieHellmanGroup DH_MODP_1024)
  else if str_eqb token (lit "modp1536") then Some (transform_of DiffieHellmanGroup DH_MODP_1536)
  else if str_eqb token (lit "modp2048") then Some (transform_of DiffieHellmanGroup DH_MODP_2048)
  else if str_eqb token (lit "modp3072") then Some (transform_of DiffieHellmanGroup DH_MODP_3072)
  else if str_eqb token (lit "modp4096") then Some (transform_of DiffieHellmanGroup DH_MODP_4096)
  else if str_eqb token (lit "modp8192") then Some (transform_of DiffieHellmanGroup DH_MODP_8192)
  else None.

(** The four variables of the loop: a later token replaces an earlier one. *)
Record Choice := mkChoice {
  c_encryption : option TransformSpec;
  c_integrity : option TransformSpec;
  c_prf : option TransformSpec;
  c_dh_group : option TransformSpec;
}.
Definition no_choice : Choice := mkChoice None None None None.
Definition ike_choose (c : Choice) (token : str) : res ProposalParseError Choice :=
  match encryption_token token, integrity_token token, prf_token token, dh_token token with
  | Some t, _, _, _ => Ok (mkChoice (Some t) (c_integrity c) (c_prf c) (c_dh_group c))
  | _, Some t, _, _ => Ok (mkChoice (c_encryption c) (Some t) (c_prf c) (c_dh_group c))
  | _, _, Some t, _ => Ok (mkChoice (c_encryption c) (c_integrity c) (Some t) (c_dh_group c))
  | _, _, _, Some t => Ok (mkChoice (c_encryption c) (c_integrity c) (c_prf c) (Some t))
  | _, _, _, _ => Err (UnsupportedToken token)
  end.
Definition child_choose (c : Choice) (token : str) : res ProposalParseError Choice :=
  match encryption_token token, integrity_token token with
  | Some t, _ => Ok (mkChoice (Some t) (c_integrity c) (c_prf c) (c_dh_group c))
  | _, Some t => Ok (mkChoice (c_encryption c) (Some t) (c_prf c) (c_dh_group c))
  | _, _ =>
    if starts_with token (lit "prf") || starts_with token (lit "modp") then Ok c
    else Err (UnsupportedToken token)
  end.

Definition default_prf_for_integrity (integrity : TransformSpec) : res ProposalParseError TransformSpec :=
  let id := transform_id integrity in
  if id =? AUTH_HMAC_MD5_96 then Ok (transform_of Prf PRF_HMAC_MD5)
  else if id =? AUTH_HMAC_SHA1_96 then Ok (transform_of Prf PRF_HMAC_SHA1)
  else if id =? AUTH_HMAC_SHA2_256_128 then Ok (transform_of Prf PRF_HMAC_SHA2_256)
  else if id =? AUTH_HMAC_SHA2_384_192 then Ok (transform_of Prf PRF_HMAC_SHA2_384)
  else if id =? AUTH_HMAC_SHA2_512_256 then Ok (transform_of Prf PRF_HMAC_SHA2_512)
  else Err MissingPrf.

Definition ike_proposal_from_profile_string (proposal : str) (number : Z)
    : res ProposalParseError ProposalSpec :=
  let tokens := profile_tokens proposal in
  fail_if (bool_decide (tokens = [])) EmptyProposal;;
  c ← foldM ike_choose no_choice tokens;
  prf ← (match c_prf c with
         | Some t => Ok (Some t)
         | None =>
           integrity ← ok_or MissingIntegrity (c_integrity c);
           prf ← default_prf_for_integrity integrity;
           Ok (Some prf)
         end);
  encryption ← ok_or MissingEncryption (c_encryption c);
  prf ← ok_or MissingPrf prf;
  integrity ← ok_or MissingIntegrity (c_integrity c);
  dh_group ← ok_or MissingDhGroup (c_dh_group c);
  Ok (mkProposal number ProtoIke [] [encryption; prf; integrity; dh_group]).

Definition child_sa_proposal_from_profile_string (proposal : str) (number : Z) (spi : list Z)
    : res ProposalParseError ProposalSpec :=
  let tokens := profile_tokens proposal in
  fail_if (bool_decide (tokens = [])) EmptyProposal;;
  c ← foldM child_choose no_choice tokens;
  encryption ← ok_or MissingEncryption (c_encryption c);
  integrity ← ok_or MissingIntegrity (c_integrity c);
  Ok (mkProposal number ProtoEsp spi
    [encryption; integrity; transform_of ExtendedSequenceNumbers ESN_NO_EXTENDED_SEQUENCE_NUMBERS]).

(** [find(|transform| transform.transform_type == t)] *)
Definition find_transform (p : ProposalSpec) (t : TransformType) : option TransformSpec :=
  snd <$> list_find (λ s, transform_type s = t) (transforms p).
Definition ike_proposal_dh_group_from_profile_string (proposal : str) : res ProposalParseError Z :=
  p ← ike_proposal_from_profile_string proposal 1;
  ok_or MissingDhGroup (transform_id <$> find_transform p DiffieHellmanGroup).

(** ** What the reader recovers *)
Definition parsed_attribute (a : TransformAttribute) : ParsedTransformAttribute :=
  match a with KeyLength bits => mkParsedAttribute 14 bits end.
Definition parsed_transform (t : TransformSpec) : ParsedTransform :=
  mkParsedTransform (transform_type_as_u8 (transform_type t)) (transform_id t)
    (parsed_attribute <$> attributes t).
Definition parsed_proposal (p : ProposalSpec) : ParsedProposal :=
  mkParsedProposal (number p) (protocol_id_as_u8 (protocol_id p)) (Z.of_nat (length (spi p)))
    (bool_decide (spi p ≠ [])) (spi p) (parsed_transform <$> transforms p).

(** Fields within the widths of their types. *)
Definition attribute_ok (a : TransformAttribute) : Prop :=
  match a with KeyLength bits => 0 ≤ bits < 65536 end.
Definition transform_ok (t : TransformSpec) : Prop :=
  0 ≤ transform_id t < 65536 ∧ Forall attribute_ok (attributes t).
Definition proposal_ok (p : ProposalSpec) : Prop :=
  is_byte (number p) ∧ bytes_ok (spi p) ∧ Forall transform_ok (transforms p).
#[export] Instance attribute_ok_dec a : Decision (attribute_ok a).
Proof. destruct a. unfold attribute_ok. apply _. Defined.
#[export] Instance transform_ok_dec t : Decision (transform_ok t).
Proof. unfold transform_ok. apply _. Defined.
#[export] Instance proposal_ok_dec p : Decision (proposal_ok p).
Proof. unfold proposal_ok. apply _. Defined.

(** ** Reading what was written *)
Lemma parse_attributes_encode l : ∀ fuel, Forall attribute_ok l → (length l < fuel)%nat →
  parse_transform_attributes fuel (l ≫= encode_attribute) = Ok (parsed_attribute <$> l).
Proof.
  induction l as [|[bits] l IH]; intros [|fuel] Hl Hfuel; simpl in Hfuel; try lia; [done|].
  apply Forall_cons in Hl as [Hb Hl]. cbn [mbind list_bind encode_attribute].
  change (be_bytes 2 0x800e) with [0x80; 0x0e]. rewrite be_bytes_2. cbn [app].
  cbn [parse_transform_attributes]. rewrite bool_decide_eq_false_2 by done. cbn.
  change (of_be_bytes [0x80; 0x0e]) with 0x800e. cbn.
  fold (mbind (M:=list) encode_attribute l).
  rewrite IH by (done || lia). cbn. by rewrite of_be_bytes_2.
Qed.

Lemma length_encode_attributes l :
  length (l ≫= encode_attribute) = sum_list_with (λ a, match a with KeyLength _ => 4%nat end) l.
Proof. induction l as [|[bits] l IH]; [done|]. cbn [mbind list_bind sum_list_with] in *. by rewrite length_app, IH. Qed.
Lemma length_attributes l :
  (length l ≤ sum_list_with (λ a, match a with KeyLength _ => 4%nat end) l)%nat.
Proof. induction l as [|[bits] l IH]; simpl; lia. Qed.

Lemma encode_transform_Ok t m bs : encode_transform t m = Ok bs →
  bs = [if m then 3 else 0; 0] ++ be_bytes 2 (Z.of_nat (length bs))
      ++ [transform_type_as_u8 (transform_type t); 0] ++ be_bytes 2 (transform_id t)
      ++ (attributes t ≫= encode_attribute) ∧ Z.of_nat (length bs) ≤ u16_max.
Proof.
  unfold encode_transform. intros H. apply bind_Ok in H as (? & Hlen%fail_if_Ok & H).
  apply Z.ltb_ge in Hlen. apply Ok_inj in H.
  assert (length bs = 8 + sum_list_with (λ a, match a with KeyLength _ => 4%nat end) (attributes t))%nat as Hl.
  { rewrite <-H, !length_app, !length_be_bytes, length_encode_attributes. simpl. lia. }
  rewrite Hl. split; [by rewrite <-H|done].
Qed.

Lemma parse_transforms_step fuel t m bs tail : transform_ok t → encode_transform t m = Ok bs →
  parse_transforms (S fuel) (bs ++ tail)
  = (rest ← parse_transforms fuel tail; Ok (parsed_transform t :: rest)).
Proof.
  intros [Hid Ha] (Hbs & Hlen)%encode_transform_Ok. set (n := length bs) in *.
  unfold u16_max in Hlen.
  set (attrs := attributes t ≫= encode_attribute) in *.
  assert (n = 8 + length attrs)%nat as Hn.
  { unfold n. rewrite Hbs, !length_app, !length_be_bytes. simpl. lia. }
  rewrite !be_bytes_2 in Hbs.
  cbn [app] in Hbs.
  cbn [parse_transforms]. rewrite bool_decide_eq_false_2 by (rewrite Hbs; done).
  rewrite length_app. fold n. rewrite (proj2 (Nat.ltb_ge _ _)) by lia. cbn [fail_if mbind res_bind].
  assert (slice (E:=SaParseError) (bs ++ tail) 2 4
    = Ok [(Z.of_nat n / 256) mod 256; Z.of_nat n mod 256]) as -> by (by rewrite Hbs).
  cbn [mbind res_bind]. rewrite of_be_bytes_2, Nat2Z.id by lia.
  rewrite (proj2 (Nat.ltb_ge n 8)), (proj2 (Nat.ltb_ge (n + _) n)) by lia. cbn [fail_if mbind res_bind].
  assert (idx (E:=SaParseError) (bs ++ tail) 4 = Ok (transform_type_as_u8 (transform_type t))) as ->
    by (by rewrite Hbs).
  assert (slice (E:=SaParseError) (bs ++ tail) 6 8
    = Ok [(transform_id t / 256) mod 256; transform_id t mod 256]) as -> by (by rewrite Hbs).
  cbn [mbind res_bind].
  assert (slice (E:=SaParseError) (bs ++ tail) 8 n = Ok attrs) as ->.
  { rewrite Hbs. match goal with |- context [(?h :: ?a :: ?b :: ?c :: ?d :: ?e :: ?f :: ?g :: attrs) ++ tail] =>
      change ((h :: a :: b :: c :: d :: e :: f :: g :: attrs) ++ tail)
        with ([h; a; b; c; d; e; f; g] ++ attrs ++ tail) end.
    apply slice_app; simpl; lia. }
  cbn [mbind res_bind].
  assert (parse_transform_attributes (S (length attrs)) attrs = Ok (parsed_attribute <$> attributes t)) as ->.
  { apply parse_attributes_encode; [done|]. unfold attrs. rewrite length_encode_attributes.
    pose proof (length_attributes (attributes t)). lia. }
  cbn [mbind res_bind]. unfold slice_from. rewrite get_from_app by done. cbn [mbind res_bind].
  rewrite of_be_bytes_2 by done. done.
Qed.

Lemma parse_transforms_encode l : ∀ fuel bs, Forall transform_ok l → encode_transforms l = Ok bs →
  (length l < fuel)%nat → parse_transforms fuel bs = Ok (parsed_transform <$> l).
Proof.
  induction l as [|t l IH]; intros [|fuel] bs Hl Hbs Hfuel; simpl in Hfuel; try lia;
    cbn [encode_transforms] in Hbs; [by injection Hbs as <-|].
  apply Forall_cons in Hl as [Ht Hl].
  apply bind_Ok in Hbs as (b & Hb & H). apply bind_Ok in H as (tail & Htail & <-%Ok_inj).
  rewrite (parse_transforms_step _ _ _ _ _ Ht Hb), (IH _ tail Hl Htail) by lia. done.
Qed.

Lemma length_encode_transforms l bs : encode_transforms l = Ok bs → (length l ≤ length bs)%nat.
Proof.
  revert bs. induction l as [|t l IH]; intros bs H; [simpl; lia|]. cbn [encode_transforms] in H.
  apply bind_Ok in H as (b & (Hb & _)%encode_transform_Ok & H).
  apply bind_Ok in H as (tail & Htail & <-%Ok_inj). specialize (IH _ Htail).
  rewrite length_app. assert (0 < length b)%nat by (rewrite Hb; simpl; lia). simpl. lia.
Qed.

(** A proposal in the body, behind the bytes already read. *)
Lemma parse_proposals_step fuel prefix p m bs tail : proposal_ok p → encode_proposal p m = Ok bs →
  parse_proposals (S fuel) (prefix ++ bs ++ tail) (length prefix)
  = (rest ← parse_proposals fuel ((prefix ++ bs) ++ tail) (length (prefix ++ bs));
     Ok (parsed_proposal p :: rest)) ∧ (0 < length bs)%nat.
Proof.
  intros (Hnum & Hspi & Ht) H. unfold encode_proposal, u8_max, u16_max in H.
  apply bind_Ok in H as (u1 & _ & H).
  apply bind_Ok in H as (u2 & Hcount%fail_if_Ok%Z.ltb_ge & H).
  apply bind_Ok in H as (u3 & Hsize%fail_if_Ok%Z.ltb_ge & H).
  apply bind_Ok in H as (tb & Htb & H).
  apply bind_Ok in H as (u4 & Hlen%fail_if_Ok%Z.ltb_ge & H). apply Ok_inj in H.
  set (n := (8 + length (spi p) + length tb)%nat) in *.
  rewrite be_bytes_2 in H. cbn [app] in H.
  assert (length bs = n) as Hbs by (rewrite <-H; unfold n; simpl; rewrite length_app; lia).
  split; [|lia].
  assert (∀ i x, bs !! i = Some x → idx (E:=SaParseError) (prefix ++ bs ++ tail) (length prefix + i) = Ok x)
    as Hidx.
  { intros i x Hi. apply idx_Ok. rewrite lookup_app_r by lia.
    replace (length prefix + i - length prefix)%nat with i by lia. by apply lookup_app_l_Some. }
  assert (∀ a b c d s, bs = a ++ s ++ d → b = (length prefix + length a)%nat → c = (b + length s)%nat →
    slice (E:=SaParseError) (prefix ++ bs ++ tail) b c = Ok s) as Hslice.
  { intros a b c d s -> -> ->. rewrite <-!app_assoc, (app_assoc prefix a).
    apply slice_app; rewrite ?length_app; lia. }
  cbn [parse_proposals]. rewrite !length_app, Hbs.
  rewrite (proj2 (Nat.ltb_lt _ _)) by (unfold n; lia).
  rewrite (proj2 (Nat.ltb_ge (_ - _) 8)) by (unfold n; lia). cbn [fail_if mbind res_bind].
  match type of H with ?f :: ?z :: ?l0 :: ?l1 :: ?rest = bs =>
    rewrite (Hslice [f; z] _ _ rest [l0; l1]) by (done || simpl; lia);
    cbn [mbind res_bind]; rewrite of_be_bytes_2, Nat2Z.id by lia end.
  rewrite (proj2 (Nat.ltb_ge n 8)) by (unfold n; lia).
  rewrite (proj2 (Nat.ltb_ge _ (length prefix + n))) by lia.
  cbn [fail_if mbind res_bind].
  rewrite (Hidx 4%nat (number p)), (Hidx 5%nat (protocol_id_as_u8 (protocol_id p))),
    (Hidx 6%nat (Z.of_nat (length (spi p)))), (Hidx 7%nat (Z.of_nat (length (transforms p))))
    by (by rewrite <-H).
  cbn [mbind res_bind]. rewrite !Nat2Z.id.
  rewrite (proj2 (Nat.ltb_ge _ (_ + 8 + _))) by (unfold n; lia). cbn [fail_if mbind res_bind].
  match type of H with ?f :: ?z :: ?l0 :: ?l1 :: ?b4 :: ?b5 :: ?b6 :: ?b7 :: ?rest = bs =>
    rewrite (Hslice [f; z; l0; l1; b4; b5; b6; b7] (length prefix + 8)%nat
      (length prefix + 8 + length (spi p))%nat tb (spi p)) by done;
    rewrite (Hslice (f :: z :: l0 :: l1 :: b4 :: b5 :: b6 :: b7 :: spi p)
      (length prefix + 8 + length (spi p))%nat (length prefix + n)%nat [] tb)
      by (rewrite ?app_nil_r; solve [done | simpl; unfold n; lia]) end.
  cbn [mbind res_bind].
  rewrite (parse_transforms_encode _ _ tb Ht Htb) by (pose proof (length_encode_transforms _ _ Htb); lia).
  cbn [mbind res_bind]. rewrite length_fmap, Nat.eqb_refl. cbn [negb fail_if mbind res_bind].
  rewrite <-app_assoc. do 2 f_equal. unfold parsed_proposal.
  replace (0 <? Z.of_nat (length (spi p))) with (bool_decide (spi p ≠ [])); [done|].
  by destruct (spi p).
Qed.

Lemma parse_proposals_encode l : ∀ fuel prefix bs, Forall proposal_ok l →
  encode_proposals l = Ok bs → (length l < fuel)%nat →
  parse_proposals fuel (prefix ++ bs) (length prefix) = Ok (parsed_proposal <$> l).
Proof.
  induction l as [|p l IH]; intros [|fuel] prefix bs Hl Hbs Hfuel; simpl in Hfuel; try lia;
    cbn [encode_proposals] in Hbs.
  { apply Ok_inj in Hbs as <-. cbn [parse_proposals]. by rewrite app_nil_r, Nat.ltb_irrefl. }
  apply Forall_cons in Hl as [Hp Hl].
  apply bind_Ok in Hbs as (b & Hb & H). apply bind_Ok in H as (tail & Htail & <-%Ok_inj).
  rewrite (proj1 (parse_proposals_step _ _ _ _ _ _ Hp Hb)), (IH _ _ tail Hl Htail) by lia. done.
Qed.
Lemma length_encode_proposals l bs : Forall proposal_ok l → encode_proposals l = Ok bs →
  (length l ≤ length bs)%nat.
Proof.
  revert bs. induction l as [|p l IH]; intros bs Hl H; [simpl; lia|]. cbn [encode_proposals] in H.
  apply Forall_cons in Hl as [Hp Hl]. apply bind_Ok in H as (b & Hb & H).
  apply bind_Ok in H as (tail & Htail & <-%Ok_inj). specialize (IH _ Hl Htail).
  destruct (parse_proposals_step 0 [] p _ b [] Hp Hb) as [_ ?]. rewrite length_app. simpl. lia.
Qed.

(** ** The reader does not panic *)
Lemma no_panic_parse_attributes fuel : ∀ input, (length input < fuel)%nat →
  no_panic (parse_transform_attributes fuel input).
Proof.
  induction fuel as [|fuel IH]; intros input Hf; [lia|]. cbn [parse_transform_attributes].
  case_bool_decide as Hne; [done|]. destruct (Nat.ltb_spec (length input) 4) as [|H4]; [done|].
  cbn [fail_if mbind res_bind]. np_step; [np_step|]. np_step; [np_step|].
  set (a := of_be_bytes _). set (v := of_be_bytes _).
  destruct (negb (Z.land a 32768 =? 0)).
  - np_step; [np_step|]. np_step; [|np]. apply IH. rewrite length_drop. lia.
  - destruct (Nat.ltb_spec (Z.to_nat v) 4) as [|Hv]; [done|].
    destruct (Nat.ltb_spec (length input) (Z.to_nat v)); [done|]. cbn [orb fail_if mbind res_bind].
    np_step; [np_step|]. np_step; [|np]. apply IH. rewrite length_drop. lia.
Qed.

Lemma no_panic_parse_transforms fuel : ∀ input, (length input < fuel)%nat →
  no_panic (parse_transforms fuel input).
Proof.
  induction fuel as [|fuel IH]; intros input Hf; [lia|]. cbn [parse_transforms].
  case_bool_decide as Hne; [done|]. destruct (Nat.ltb_spec (length input) 8) as [|H8]; [done|].
  cbn [fail_if mbind res_bind]. np_step; [np_step|]. set (n := Z.to_nat _).
  destruct (Nat.ltb_spec n 8); [done|]. destruct (Nat.ltb_spec (length input) n); [done|].
  cbn [fail_if mbind res_bind]. do 3 (np_step; [np_step|]).
  np_step; [apply no_panic_parse_attributes; lia|].
  np_step; [np_step|]. np_step; [|np]. apply IH. rewrite length_drop. lia.
Qed.

Lemma no_panic_parse_proposals fuel body : ∀ offset, (length body - offset < fuel)%nat →
  no_panic (parse_proposals fuel body offset).
Proof.
  induction fuel as [|fuel IH]; intros offset Hf; [lia|]. cbn [parse_proposals].
  destruct (Nat.ltb_spec offset (length body)); [|done].
  destruct (Nat.ltb_spec (length body - offset) 8) as [|H8]; [done|].
  cbn [fail_if mbind res_bind]. np_step; [np_step|]. set (n := Z.to_nat _).
  destruct (Nat.ltb_spec n 8); [done|]. destruct (Nat.ltb_spec (length body) (offset + n)); [done|].
  cbn [fail_if mbind res_bind]. do 4 (np_step; [np_step|]).
  match goal with |- context [(offset + n <? ?s)%nat] =>
    destruct (Nat.ltb_spec (offset + n) s); [done|] end.
  cbn [fail_if mbind res_bind]. do 2 (np_step; [np_step|]).
  np_step; [apply no_panic_parse_transforms; lia|]. np_step; [np_step|].
  np_step; [|np]. apply IH. lia.
Qed.

(** ** Proposals of a profile *)
Definition key_length_ok (t : TransformSpec) : Prop :=
  t = aes_cbc 128 ∨ t = aes_cbc 256.
Definition known_ids (t : TransformType) : list Z :=
  match t with
  | Encryption => [12]
  | Prf => [1; 2; 5; 6; 7]
  | Integrity => [1; 2; 12; 13; 14]
  | DiffieHellmanGroup => [1; 2; 5; 14; 15; 16; 18]
  | ExtendedSequenceNumbers => [0]
  end.
(** A transform without attributes, of a type and with a known number. *)
Definition plain_transform (t : TransformType) (s : TransformSpec) : Prop :=
  ∃ id, s = transform_of t id ∧ id ∈ known_ids t.

Lemma encryption_token_known s t : encryption_token s = Some t → key_length_ok t.
Proof. unfold encryption_token, key_length_ok. repeat case_match; intros [= <-]; auto. Qed.
Lemma integrity_token_known s t : integrity_token s = Some t → plain_transform Integrity t.
Proof. unfold integrity_token. repeat case_match; intros [= <-]; eexists; (split; [done|]); by apply (bool_decide_unpack _). Qed.
Lemma prf_token_known s t : prf_token s = Some t → plain_transform Prf t.
Proof. unfold prf_token. repeat case_match; intros [= <-]; eexists; (split; [done|]); by apply (bool_decide_unpack _). Qed.
Lemma dh_token_known s t : dh_token s = Some t → plain_transform DiffieHellmanGroup t.
Proof. unfold dh_token. repeat case_match; intros [= <-]; eexists; (split; [done|]); by apply (bool_decide_unpack _). Qed.

Record choice_ok (c : Choice) : Prop := {
  ok_encryption : ∀ t, c_encryption c = Some t → key_length_ok t;
  ok_integrity : ∀ t, c_integrity c = Some t → plain_transform Integrity t;
  ok_prf : ∀ t, c_prf c = Some t → plain_transform Prf t;
  ok_dh : ∀ t, c_dh_group c = Some t → plain_transform DiffieHellmanGroup t;
}.
Lemma no_choice_ok : choice_ok no_choice.
Proof. by split. Qed.
Lemma ike_choose_ok c s : choice_ok c →
  no_panic (ike_choose c s) ∧ ∀ c', ike_choose c s = Ok c' → choice_ok c'.
Proof.
  intros [He Hi Hp Hd]. unfold ike_choose.
  destruct (encryption_token s) eqn:E1; [|destruct (integrity_token s) eqn:E2;
    [|destruct (prf_token s) eqn:E3; [|destruct (dh_token s) eqn:E4; [|done]]]];
    (split; [done|]); intros c' <-%Ok_inj; split; cbn; try done; intros ? [= <-];
    eauto using encryption_token_known, integrity_token_known, prf_token_known, dh_token_known.
Qed.
Lemma child_choose_ok c s : choice_ok c →
  no_panic (child_choose c s) ∧ ∀ c', child_choose c s = Ok c' → choice_ok c'.
Proof.
  intros Hc. pose proof Hc as [He Hi Hp Hd]. unfold child_choose.
  destruct (encryption_token s) eqn:E1; [|destruct (integrity_token s) eqn:E2;
    [|destruct (starts_with _ _ || _)%bool; [|done]]];
    (split; [done|]); intros c' <-%Ok_inj; try done; split; cbn; try done; intros ? [= <-];
    eauto using encryption_token_known, integrity_token_known.
Qed.

Lemma default_prf_known t : plain_transform Integrity t →
  ∃ p, default_prf_for_integrity t = Ok p ∧ plain_transform Prf p.
Proof.
  intros (id & -> & Hid). cbn [known_ids] in Hid. rewrite !elem_of_cons, elem_of_nil in Hid.
  destruct Hid as [->|[->|[->|[->|[->|[]]]]]]; eexists; (split; [reflexivity|]); eexists; (split; [done|]);
    by apply (bool_decide_unpack _).
Qed.

(** The four transforms of an accepted IKE profile, the three of an ESP profile. *)
Lemma ike_profile_shape s n : no_panic (ike_proposal_from_profile_string s n) ∧
  ∀ p, ike_proposal_from_profile_string s n = Ok p →
  ∃ e f i d, p = mkProposal n ProtoIke [] [e; f; i; d] ∧ key_length_ok e ∧
    plain_transform Prf f ∧ plain_transform Integrity i ∧ plain_transform DiffieHellmanGroup d.
Proof.
  unfold ike_proposal_from_profile_string.
  case_bool_decide; [done|]. cbn [fail_if mbind res_bind].
  destruct (foldM_inv choice_ok ike_choose (profile_tokens s) no_choice no_choice_ok) as [Hnp Hok].
  { intros. by apply ike_choose_ok. }
  destruct (foldM ike_choose no_choice _) as [c|e|] eqn:E; cbn [mbind res_bind]; [|done|by destruct Hnp].
  specialize (Hok c eq_refl) as [He Hi Hp Hd]. destruct c as [e i f d]; cbn in *.
  destruct f as [f|], i as [i|]; cbn [ok_or mbind res_bind]; [| |
    destruct (default_prf_known i) as (f & -> & Hf); [by apply Hi|]; cbn [ok_or mbind res_bind] |done];
    destruct e as [e|], d as [d|]; cbn [ok_or mbind res_bind]; try done;
    (split; [done|]); intros p <-%Ok_inj; eexists e, f, i, d; split_and!; eauto.
Qed.
Lemma child_profile_shape s n k : no_panic (child_sa_proposal_from_profile_string s n k) ∧
  ∀ p, child_sa_proposal_from_profile_string s n k = Ok p →
  ∃ e i, p = mkProposal n ProtoEsp k [e; i; transform_of ExtendedSequenceNumbers 0] ∧ key_length_ok e ∧
    plain_transform Integrity i.
Proof.
  unfold child_sa_proposal_from_profile_string.
  case_bool_decide; [done|]. cbn [fail_if mbind res_bind].
  destruct (foldM_inv choice_ok child_choose (profile_tokens s) no_choice no_choice_ok) as [Hnp Hok].
  { intros. by apply child_choose_ok. }
  destruct (foldM child_choose no_choice _) as [c|e|] eqn:E; cbn [mbind res_bind]; [|done|by destruct Hnp].
  specialize (Hok c eq_refl) as [He Hi Hp Hd]. destruct c as [e i f d]; cbn in *.
  destruct e as [e|], i as [i|]; cbn [ok_or mbind res_bind]; try done.
  split; [done|]. intros p <-%Ok_inj. exists e, i. split_and!; eauto.
Qed.

Lemma key_length_transform_ok t : key_length_ok t → transform_ok t.
Proof. intros [->| ->]; by apply (bool_decide_unpack _). Qed.
Lemma plain_transform_ok k t : plain_transform k t → transform_ok t.
Proof.
  intros (id & -> & Hid). split; [|constructor]. cbn [transform_id transform_of].
  assert (Forall (λ id, 0 ≤ id < 65536) (known_ids k)) as Hall by (destruct k; by apply (bool_decide_unpack _)).
  rewrite Forall_forall in Hall. by apply Hall.
Qed.

(** A profile's proposal is small: it is always written without an error. *)
Lemma encode_transform_small t m : transform_ok t → (length (attributes t) ≤ 1)%nat →
  ∃ bs, encode_transform t m = Ok bs ∧ (length bs ≤ 12)%nat.
Proof.
  intros _ Hl. unfold encode_transform.
  assert (sum_list_with (λ a, match a with KeyLength _ => 4%nat end) (attributes t) ≤ 4)%nat as Hs.
  { destruct (attributes t) as [|[b] [|? ?]]; simpl in *; lia. }
  rewrite (proj2 (Z.ltb_ge _ _)) by (unfold u16_max; lia). eexists; split; [done|].
  rewrite !length_app, !length_be_bytes, length_encode_attributes. simpl. lia.
Qed.
Lemma encode_transforms_small l : Forall transform_ok l → Forall (λ t, length (attributes t) ≤ 1)%nat l →
  ∃ bs, encode_transforms l = Ok bs ∧ (length bs ≤ 12 * length l)%nat.
Proof.
  induction 1 as [|t l Ht Hl IH]; intros Hs; [by exists []|].
  apply Forall_cons in Hs as [Hs1 Hs]. destruct (IH Hs) as (tail & IHe & ?).
  destruct (encode_transform_small t (has_more l) Ht Hs1) as (b & Hb & ?).
  cbn [encode_transforms]. rewrite Hb. cbn [mbind res_bind]. rewrite IHe. cbn [mbind res_bind].
  eexists; split; [done|]. rewrite length_app. simpl. lia.
Qed.
Lemma encode_proposal_small p m : proposal_ok p → transforms p ≠ [] → (length (transforms p) ≤ 16)%nat →
  (length (spi p) ≤ 255)%nat → Forall (λ t, length (attributes t) ≤ 1)%nat (transforms p) →
  ∃ bs, encode_proposal p m = Ok bs.
Proof.
  intros (_ & _ & Ht) Hne Hlen Hspi Ha. unfold encode_proposal, u8_max.
  rewrite bool_decide_eq_false_2 by done. cbn [fail_if mbind res_bind].
  rewrite (proj2 (Z.ltb_ge _ _)) by lia. cbn [fail_if mbind res_bind].
  rewrite (proj2 (Z.ltb_ge _ _)) by lia. cbn [fail_if mbind res_bind].
  destruct (encode_transforms_small _ Ht Ha) as (tb & -> & ?). cbn [mbind res_bind].
  rewrite (proj2 (Z.ltb_ge _ _)) by (unfold u16_max; lia). by eexists.
Qed.
Lemma build_single_sa p : proposal_ok p → transforms p ≠ [] → (length (transforms p) ≤ 16)%nat →
  (length (spi p) ≤ 255)%nat → Forall (λ t, length (attributes t) ≤ 1)%nat (transforms p) →
  ∃ payload, build_sa_payload [p] = Ok payload.
Proof.
  intros Hp Hne Hl Hs Ha. destruct (encode_proposal_small p false Hp Hne Hl Hs Ha) as (bs & Hbs).
  unfold build_sa_payload. cbn [encode_proposals has_more]. rewrite Hbs. cbn [mbind res_bind]. by eexists.
Qed.
Lemma key_length_one t : key_length_ok t → (length (attributes t) ≤ 1)%nat.
Proof. intros [->| ->]; done. Qed.
Lemma plain_none k t : plain_transform k t → (length (attributes t) ≤ 1)%nat.
Proof. intros (id & -> & _). simpl. lia. Qed.

Lemma parse_sa_encoded ps p : Forall proposal_ok ps → build_sa_payload ps = Ok p →
  payload_type p = SecurityAssociation ∧ parse_sa_payload (body p) = Ok (parsed_proposal <$> ps).
Proof.
  intros Hps H. unfold build_sa_payload in H. apply bind_Ok in H as (bs & Hbs & <-%Ok_inj).
  split; [done|]. cbn [body]. unfold parse_sa_payload.
  apply (parse_proposals_encode ps _ [] bs Hps Hbs).
  pose proof (length_encode_proposals _ _ Hps Hbs). lia.
Qed.

(** ** Properties *)

(** A security association written by [build_sa_payload] is read back by
    [parse_sa_payload] as the same list of proposals: numbers, protocols, SPIs and
    all transforms with their key lengths, in order. *)
Theorem sa_payload_roundtrip ps p : Forall proposal_ok ps → build_sa_payload ps = Ok p →
  payload_type p = SecurityAssociation ∧ parse_sa_payload (body p) = Ok (parsed_proposal <$> ps).
Proof. intros Hps H. by apply parse_sa_encoded. Qed.

(** The reader of a security association ends on every input without a panic. *)
Theorem sa_parse_no_panic input : no_panic (parse_sa_payload input).
Proof. apply no_panic_parse_proposals. lia. Qed.

(** C37: An accepted profile string names everything its association needs: exactly one
    AES-CBC encryption of 128 or 256 bits, and one known integrity, for IKE also one
    known pseudo-random function (the integrity's own when none is named) and one
    known group; no other outcome than that or an error is possible, and the proposal
    is written into a payload that reads back as that proposal. *)
Theorem profile_proposals_complete s n k : is_byte n → bytes_ok k → (length k ≤ 255)%nat →
  no_panic (ike_proposal_from_profile_string s n) ∧
  no_panic (child_sa_proposal_from_profile_string s n k) ∧
  (∀ p, ike_proposal_from_profile_string s n = Ok p →
    (∃ e f i d, p = mkProposal n ProtoIke [] [e; f; i; d] ∧ key_length_ok e ∧ plain_transform Prf f ∧
      plain_transform Integrity i ∧ plain_transform DiffieHellmanGroup d) ∧
    ∃ payload, build_sa_payload [p] = Ok payload ∧ parse_sa_payload (body payload) = Ok [parsed_proposal p]) ∧
  (∀ p, child_sa_proposal_from_profile_string s n k = Ok p →
    (∃ e i, p = mkProposal n ProtoEsp k [e; i; transform_of ExtendedSequenceNumbers 0] ∧ key_length_ok e ∧
      plain_transform Integrity i) ∧
    ∃ payload, build_sa_payload [p] = Ok payload ∧ parse_sa_payload (body payload) = Ok [parsed_proposal p]).
Proof.
  intros Hn Hk Hlk. split; [apply ike_profile_shape|]. split; [apply child_profile_shape|].
  split; intros p Hp.
  - apply ike_profile_shape in Hp as (e & f & i & d & -> & He & Hf & Hi & Hd).
    split; [by exists e, f, i, d|].
    assert (proposal_ok (mkProposal n ProtoIke [] [e; f; i; d])) as Hok.
    { split; [done|]. split; [constructor|]. cbn [transforms].
      rewrite !Forall_cons, Forall_nil.
      split_and!; try done; try (by eapply plain_transform_ok); by apply key_length_transform_ok. }
    destruct (build_single_sa _ Hok) as (payload & Hpl); try done; [simpl; lia..| |].
    { cbn [transforms]. rewrite !Forall_cons, Forall_nil.
      split_and!; try done; try (by eapply plain_none); try (by apply key_length_one); simpl; lia. }
    exists payload. split; [done|]. eapply (parse_sa_encoded [_] payload); [|done]. by constructor.
  - apply child_profile_shape in Hp as (e & i & -> & He & Hi). split; [by exists e, i|].
    assert (proposal_ok (mkProposal n ProtoEsp k [e; i; transform_of ExtendedSequenceNumbers 0])) as Hok.
    { split; [done|]. split; [done|]. cbn [transforms].
      rewrite !Forall_cons, Forall_nil. split; [by apply key_length_transform_ok|].
      split; [by eapply plain_transform_ok|]. split; [by apply (bool_decide_unpack _)|done]. }
    destruct (build_single_sa _ Hok) as (payload & Hpl); try done; [simpl; lia..| |].
    { cbn [transforms]. rewrite !Forall_cons, Forall_nil.
      split_and!; try done; try (by eapply plain_none); try (by apply key_length_one); simpl; lia. }
    exists payload. split; [done|]. eapply (parse_sa_encoded [_] payload); [|done]. by constructor.
Qed.

(** ** Concrete proposals *)
Definition sample_profile : str := lit "aes128-sha256-modp2048".
Definition sample_proposal : ProposalSpec :=
  mkProposal 1 ProtoIke [] [aes_cbc 128; transform_of Prf 5; transform_of Integrity 12;
    transform_of DiffieHellmanGroup 14].
Definition sample_sa : IkePayload :=
  match build_sa_payload [sample_proposal] with Ok p => p | _ => build_nonce_payload [] end.

Lemma sa_payload_roundtrip_witness :
  Forall proposal_ok [sample_proposal] ∧ build_sa_payload [sample_proposal] = Ok sample_sa ∧
  parse_sa_payload (body sample_sa) = Ok [parsed_proposal sample_proposal].
Proof.
  assert (Forall proposal_ok [sample_proposal]) as H1 by (apply (bool_decide_unpack _); vm_compute; exact I).
  assert (build_sa_payload [sample_proposal] = Ok sample_sa) as H2 by (vm_compute; reflexivity).
  split; [exact H1|]. split; [exact H2|].
  exact (proj2 (sa_payload_roundtrip [sample_proposal] sample_sa H1 H2)).
Defined.

Lemma profile_proposals_complete_witness :
  is_byte 1 ∧ ike_proposal_from_profile_string sample_profile 1 = Ok sample_proposal ∧
  ∃ payload, build_sa_payload [sample_proposal] = Ok payload ∧
    parse_sa_payload (body payload) = Ok [parsed_proposal sample_proposal].
Proof.
  assert (is_byte 1) as H1 by (apply (bool_decide_unpack _); vm_compute; exact I).
  assert (bytes_ok [0xaa; 0xbb; 0xcc; 0xdd]) as H2 by (apply (bool_decide_unpack _); vm_compute; exact I).
  assert (length [0xaa; 0xbb; 0xcc; 0xdd] ≤ 255)%nat as H3 by (simpl; lia).
  assert (ike_proposal_from_profile_string sample_profile 1 = Ok sample_proposal) as H4
    by (vm_compute; reflexivity).
  split; [exact H1|]. split; [exact H4|].
  exact (proj2 (proj1 (proj2 (proj2 (profile_proposals_complete sample_profile 1 _ H1 H2 H3)))
    sample_proposal H4)).
Defined.

(** The default group and the requests of a dual-stack profile. *)
Example dual_stack_selectors :
  length (body (build_traffic_selector_initiator_payload (lit "dual"))) = (4 + 16 + 40)%nat.
Proof. vm_compute. reflexivity. Qed.
Example dh_group_of_profile : ike_proposal_dh_group_from_profile_string sample_profile = Ok 14.
Proof. vm_compute. reflexivity. Qed.
Example unknown_token_refused :
  ike_proposal_from_profile_string (lit "aes128-sha256-modp999") 1 = Err (UnsupportedToken (lit "modp999")).
Proof. vm_compute. reflexivity. Qed.
