(* ===== verification/IkeKeys.v ===== *)
(** * The IKEv2 key schedule

    Models [connectivity/modems/ims/vowifi/ike_keys.rs]: the algorithms of a
    proposal, [prf+], the keys of the IKE association and those of the ESP child.
    The digests are parameters: [hmac_sign] stands for the library's HMAC-SHA and
    [md5_compute] for its MD5; HMAC-MD5 is built in the code, and here, on the
    latter. *)
From Stdlib Require Import ZArith Lia String.
From stdpp Require Import prelude.
From S2P Require Import Prelude Text Bytes IkeCodec IkePayloads.
Local Open Scope Z_scope.

(** ** Algorithms *)
Inductive IkePrfAlgorithm := HmacMd5 | HmacSha1 | HmacSha256 | HmacSha384 | HmacSha512.
Inductive IkeIntegrityAlgorithm :=
| HmacMd5_96 | HmacSha1_96 | HmacSha256_128 | HmacSha384_192 | HmacSha512_256.
#[export] Instance IkePrfAlgorithm_eq_dec : EqDecision IkePrfAlgorithm.
Proof. solve_decision. Defined.

(** The algorithms of the HMAC library. *)
Inductive RingAlgorithm := HMAC_SHA1 | HMAC_SHA256 | HMAC_SHA384 | HMAC_SHA512.

Definition prf_from_transform_id (id : Z) : option IkePrfAlgorithm :=
  if id =? PRF_HMAC_MD5 then Some HmacMd5
  else if id =? PRF_HMAC_SHA1 then Some HmacSha1
  else if id =? PRF_HMAC_SHA2_256 then Some HmacSha256
  else if id =? PRF_HMAC_SHA2_384 then Some HmacSha384
  else if id =? PRF_HMAC_SHA2_512 then Some HmacSha512
  else None.
Definition prf_as_str (p : IkePrfAlgorithm) : string :=
  match p with
  | HmacMd5 => "hmac_md5" | HmacSha1 => "hmac_sha1" | HmacSha256 => "hmac_sha256"
  | HmacSha384 => "hmac_sha384" | HmacSha512 => "hmac_sha512"
  end.
Definition output_len (p : IkePrfAlgorithm) : nat :=
  match p with HmacMd5 => 16 | HmacSha1 => 20 | HmacSha256 => 32 | HmacSha384 => 48 | HmacSha512 => 64 end.
Definition ring_algorithm (p : IkePrfAlgorithm) : option RingAlgorithm :=
  match p with
  | HmacMd5 => None
  | HmacSha1 => Some HMAC_SHA1
  | HmacSha256 => Some HMAC_SHA256
  | HmacSha384 => Some HMAC_SHA384
  | HmacSha512 => Some HMAC_SHA512
  end.
Definition AesCbc_as_str : string := "aes_cbc".
Definition integrity_from_transform_id (id : Z) : option IkeIntegrityAlgorithm :=
  if id =? AUTH_HMAC_MD5_96 then Some HmacMd5_96
  else if id =? AUTH_HMAC_SHA1_96 then Some HmacSha1_96
  else if id =? AUTH_HMAC_SHA2_256_128 then Some HmacSha256_128
  else if id =? AUTH_HMAC_SHA2_384_192 then Some HmacSha384_192
  else if id =? AUTH_HMAC_SHA2_512_256 then Some HmacSha512_256
  else None.
Definition integrity_as_str (a : IkeIntegrityAlgorithm) : string :=
  match a with
  | HmacMd5_96 => "hmac_md5_96" | HmacSha1_96 => "hmac_sha1_96" | HmacSha256_128 => "hmac_sha256_128"
  | HmacSha384_192 => "hmac_sha384_192" | HmacSha512_256 => "hmac_sha512_256"
  end.
Definition key_len (a : IkeIntegrityAlgorithm) : nat :=
  match a with
  | HmacMd5_96 => 16 | HmacSha1_96 => 20 | HmacSha256_128 => 32 | HmacSha384_192 => 48
  | HmacSha512_256 => 64
  end.

(** ** Plans, keys and errors; the fields that only label a summary are left out. *)
Record IkeKeySchedulePlan := mkPlan {
  plan_prf : string;
  plan_encryption : string;
  plan_integrity : string;
  prf_output_bytes : nat;
  encryption_key_bytes : nat;
  integrity_key_bytes : nat;
  total_secret_bytes : nat;
}.
Record IkeSecretBundle := mkBundle {
  skeyseed : list Z;
  sk_d : list Z;
  sk_ai : list Z;
  sk_ar : list Z;
  sk_ei : list Z;
  sk_er : list Z;
  sk_pi : list Z;
  sk_pr : list Z;
  plan : IkeKeySchedulePlan;
}.
Record ChildSaKeySchedulePlan := mkChildPlan {
  child_encryption : string;
  child_integrity : string;
  child_encryption_key_bytes : nat;
  child_integrity_key_bytes : nat;
  child_direction_secret_bytes : nat;
  child_total_secret_bytes : nat;
}.
Record ChildSaSecretPair := mkPair {
  outbound_encryption : list Z;
  outbound_integrity : list Z;
  inbound_encryption : list Z;
  inbound_integrity : list Z;
  pair_plan : ChildSaKeySchedulePlan;
}.

Inductive IkeKeyError :=
| MissingPrfTransform
| MissingEncryptionTransform
| MissingIntegrityTransform
| MissingEncryptionKeyLength
| UnsupportedPrf (id : Z)
| UnsupportedPrfName (name : string)
| UnsupportedEncryption (id : Z)
| UnsupportedIntegrity (id : Z)
| EmptySharedSecret
| EmptyNonce
| OutputTooLarge (size : nat).

(** ** Plans *)
Definition encryption_key_bits (t : TransformSpec) : option nat :=
  match attributes t with KeyLength bits :: _ => Some (Z.to_nat bits) | [] => None end.

Definition build_key_schedule_plan (proposal : ProposalSpec) : res IkeKeyError IkeKeySchedulePlan :=
  prf_transform ← ok_or MissingPrfTransform (find_transform proposal Prf);
  encryption_transform ← ok_or MissingEncryptionTransform (find_transform proposal Encryption);
  integrity_transform ← ok_or MissingIntegrityTransform (find_transform proposal Integrity);
  prf ← ok_or (UnsupportedPrf (transform_id prf_transform))
    (prf_from_transform_id (transform_id prf_transform));
  fail_if (negb (transform_id encryption_transform =? ENCR_AES_CBC))
    (UnsupportedEncryption (transform_id encryption_transform));;
  bits ← ok_or MissingEncryptionKeyLength (encryption_key_bits encryption_transform);
  let encryption_key_bytes := (bits / 8)%nat in
  integrity ← ok_or (UnsupportedIntegrity (transform_id integrity_transform))
    (integrity_from_transform_id (transform_id integrity_transform));
  let prf_output_bytes := output_len prf in
  let integrity_key_bytes := key_len integrity in
  let total_secret_bytes :=
    (prf_output_bytes * 3 + integrity_key_bytes * 2 + encryption_key_bytes * 2)%nat in
  Ok (mkPlan (prf_as_str prf) AesCbc_as_str (integrity_as_str integrity) prf_output_bytes
    encryption_key_bytes integrity_key_bytes total_secret_bytes).

Definition build_child_sa_key_schedule_plan (esp_proposal : ProposalSpec)
    : res IkeKeyError ChildSaKeySchedulePlan :=
  encryption_transform ← ok_or MissingEncryptionTransform (find_transform esp_proposal Encryption);
  integrity_transform ← ok_or MissingIntegrityTransform (find_transform esp_proposal Integrity);
  fail_if (negb (transform_id encryption_transform =? ENCR_AES_CBC))
    (UnsupportedEncryption (transform_id encryption_transform));;
  bits ← ok_or MissingEncryptionKeyLength (encryption_key_bits encryption_transform);
  let encryption_key_bytes := (bits / 8)%nat in
  integrity ← ok_or (UnsupportedIntegrity (transform_id integrity_transform))
    (integrity_from_transform_id (transform_id integrity_transform));
  let integrity_key_bytes := key_len integrity in
  let direction_secret_bytes := (encryption_key_bytes + integrity_key_bytes)%nat in
  Ok (mkChildPlan AesCbc_as_str (integrity_as_str integrity) encryption_key_bytes integrity_key_bytes
    direction_secret_bytes (direction_secret_bytes * 2)).

Definition prf_from_plan (plan : IkeKeySchedulePlan) : res IkeKeyError IkePrfAlgorithm :=
  match plan_prf plan with
  | "hmac_md5"%string => Ok HmacMd5
  | "hmac_sha1"%string => Ok HmacSha1
  | "hmac_sha256"%string => Ok HmacSha256
  | "hmac_sha384"%string => Ok HmacSha384
  | "hmac_sha512"%string => Ok HmacSha512
  | other => Err (UnsupportedPrfName other)
  end.

(** [take_secret(input, &mut offset, len)]: the secret and the new offset. *)
Definition take_secret {E} (input : list Z) (offset len : nat) : res E (list Z * nat) :=
  let end_ := (offset + len)%nat in
  secret ← slice input offset end_;
  Ok (secret, end_).

Section digests.
Context (hmac_sign : RingAlgorithm → list Z → list Z → list Z) (md5_compute : list Z → list Z).

(** ** Digests *)
Definition BLOCK_SIZE : nat := 64.
Definition hmac_md5 (key data : list Z) : list Z :=
  let key := if (BLOCK_SIZE <? length key)%nat then md5_compute key else key in
  let key := take BLOCK_SIZE key ++ replicate (BLOCK_SIZE - length key) 0 in
  let ipad := zip_with Z.lxor (replicate BLOCK_SIZE 0x36) key in
  let opad := zip_with Z.lxor (replicate BLOCK_SIZE 0x5c) key in
  let inner := md5_compute (ipad ++ data) in
  md5_compute (opad ++ inner).

Definition prf_digest (prf : IkePrfAlgorithm) (key data : list Z) : list Z :=
  match ring_algorithm prf with
  | Some algorithm => hmac_sign algorithm key data
  | None => hmac_md5 key data
  end.
Definition prf_bytes (bundle : IkeSecretBundle) (key data : list Z) : res IkeKeyError (list Z) :=
  prf ← prf_from_plan (plan bundle);
  Ok (prf_digest prf key data).

(** The [while] loop of [prf_plus]: its variables are [out], [previous] and [counter]. *)
Fixpoint prf_plus_loop (fuel : nat) (prf : IkePrfAlgorithm) (key seed : list Z) (output_len_ : nat)
    (out previous : list Z) (counter : Z) : res IkeKeyError (list Z) :=
  match fuel with
  | O => Panic
  | S fuel =>
    if (length out <? output_len_)%nat then
      let input := previous ++ seed ++ [counter] in
      let previous := prf_digest prf key input in
      prf_plus_loop fuel prf key seed output_len_ (out ++ previous) previous (sat_add u8_max counter 1)
    else Ok out
  end.
Definition prf_plus (prf : IkePrfAlgorithm) (key seed : list Z) (output_len_ : nat)
    : res IkeKeyError (list Z) :=
  fail_if (255 * output_len prf <? output_len_)%nat (OutputTooLarge output_len_);;
  out ← prf_plus_loop (S output_len_) prf key seed output_len_ [] [] 1;
  Ok (take output_len_ out).

(** ** The two derivations *)
Definition derive_ike_secret_bundle (proposal : ProposalSpec) (initiator_nonce responder_nonce : list Z)
    (initiator_spi responder_spi : Z) (shared_secret : list Z) : res IkeKeyError IkeSecretBundle :=
  fail_if (bool_decide (shared_secret = [])) EmptySharedSecret;;
  fail_if (bool_decide (initiator_nonce = []) || bool_decide (responder_nonce = [])) EmptyNonce;;
  plan ← build_key_schedule_plan proposal;
  prf_transform ← ok_or MissingPrfTransform (find_transform proposal Prf);
  prf ← ok_or (UnsupportedPrf (transform_id prf_transform))
    (prf_from_transform_id (transform_id prf_transform));
  let nonce_pair := initiator_nonce ++ responder_nonce in
  let skeyseed := prf_digest prf nonce_pair shared_secret in
  let seed := initiator_nonce ++ responder_nonce ++ be_bytes 8 initiator_spi ++ be_bytes 8 responder_spi in
  expanded ← prf_plus prf skeyseed seed (total_secret_bytes plan);
  '(sk_d, offset) ← take_secret expanded 0 (prf_output_bytes plan);
  '(sk_ai, offset) ← take_secret expanded offset (integrity_key_bytes plan);
  '(sk_ar, offset) ← take_secret expanded offset (integrity_key_bytes plan);
  '(sk_ei, offset) ← take_secret expanded offset (encryption_key_bytes plan);
  '(sk_er, offset) ← take_secret expanded offset (encryption_key_bytes plan);
  '(sk_pi, offset) ← take_secret expanded offset (prf_output_bytes plan);
  '(sk_pr, offset) ← take_secret expanded offset (prf_output_bytes plan);
  Ok (mkBundle skeyseed sk_d sk_ai sk_ar sk_ei sk_er sk_pi sk_pr plan).

Definition derive_child_sa_secret_pair (bundle : IkeSecretBundle) (esp_proposal : ProposalSpec)
    (initiator_nonce responder_nonce : list Z) : res IkeKeyError ChildSaSecretPair :=
  fail_if (bool_decide (initiator_nonce = []) || bool_decide (responder_nonce = [])) EmptyNonce;;
  child ← build_child_sa_key_schedule_plan esp_proposal;
  prf ← prf_from_plan (plan bundle);
  let seed := initiator_nonce ++ responder_nonce in
  expanded ← prf_plus prf (sk_d bundle) seed (child_total_secret_bytes child);
  '(outbound_encryption, offset) ← take_secret expanded 0 (child_encryption_key_bytes child);
  '(outbound_integrity, offset) ← take_secret expanded offset (child_integrity_key_bytes child);
  '(inbound_encryption, offset) ← take_secret expanded offset (child_encryption_key_bytes child);
  '(inbound_integrity, offset) ← take_secret expanded offset (child_integrity_key_bytes child);
  Ok (mkPair outbound_encryption outbound_integrity inbound_encryption inbound_integrity child).
End digests.

(** ** The reference: [prf+] of RFC 7296, section 2.13

    [T 0] is empty and [T (n + 1) = prf (K, T n | S | n + 1)]; the output is the
    start of [T 1 | T 2 | ...]. *)
Section reference.
Context (digest : list Z → list Z → list Z).
Fixpoint prf_block (key seed : list Z) (n : nat) : list Z :=
  match n with
  | O => []
  | S n => digest key (prf_block key seed n ++ seed ++ [Z.of_nat (S n)])
  end.
Definition prf_stream (key seed : list Z) (n : nat) : list Z := mjoin (prf_block key seed <$> seq 1 n).
End reference.

Lemma prf_stream_S digest key seed n :
  prf_stream digest key seed (S n) = prf_stream digest key seed n ++ prf_block digest key seed (S n).
Proof. unfold prf_stream. rewrite seq_S, fmap_app, join_app. simpl. by rewrite app_nil_r. Qed.
Lemma prf_stream_prefix digest key seed n m :
  prf_stream digest key seed n `prefix_of` prf_stream digest key seed (n + m).
Proof.
  induction m as [|m IH]; [by rewrite Nat.add_0_r|]. rewrite Nat.add_succ_r, prf_stream_S.
  by apply prefix_app_r.
Qed.
Lemma length_prf_stream digest key seed L n : (∀ k d, length (digest k d) = L) →
  length (prf_stream digest key seed n) = (n * L)%nat.
Proof.
  intros HL. induction n as [|n IH]; [done|]. rewrite prf_stream_S, length_app, IH. cbn [prf_block].
  rewrite HL. lia.
Qed.

(** A profile's algorithms are the ones the schedule knows. *)
Lemma prf_known_id id : id ∈ known_ids Prf → is_Some (prf_from_transform_id id).
Proof.
  intros H. assert (Forall (λ id, is_Some (prf_from_transform_id id)) (known_ids Prf)) as Hall
    by (by apply (bool_decide_unpack _)).
  rewrite Forall_forall in Hall. by apply Hall.
Qed.
Lemma integrity_known_id id : id ∈ known_ids Integrity → is_Some (integrity_from_transform_id id).
Proof.
  intros H. assert (Forall (λ id, is_Some (integrity_from_transform_id id)) (known_ids Integrity)) as Hall
    by (by apply (bool_decide_unpack _)).
  rewrite Forall_forall in Hall. by apply Hall.
Qed.
Lemma prf_from_plan_as_str prf e i a b c d : prf_from_plan (mkPlan (prf_as_str prf) e i a b c d) = Ok prf.
Proof. by destruct prf. Qed.
Lemma output_len_range prf : (16 ≤ output_len prf ≤ 64)%nat.
Proof. destruct prf; simpl; lia. Qed.
Lemma key_len_range a : (16 ≤ key_len a ≤ 64)%nat.
Proof. destruct a; simpl; lia. Qed.

(** What [build_key_schedule_plan] makes of the four transforms of a profile. *)
Definition plan_for (prf : IkePrfAlgorithm) (integrity : IkeIntegrityAlgorithm) (key_bytes : nat)
    : IkeKeySchedulePlan :=
  mkPlan (prf_as_str prf) AesCbc_as_str (integrity_as_str integrity) (output_len prf) key_bytes
    (key_len integrity) (output_len prf * 3 + key_len integrity * 2 + key_bytes * 2).
Definition child_plan_for (integrity : IkeIntegrityAlgorithm) (key_bytes : nat) : ChildSaKeySchedulePlan :=
  mkChildPlan AesCbc_as_str (integrity_as_str integrity) key_bytes (key_len integrity)
    (key_bytes + key_len integrity) ((key_bytes + key_len integrity) * 2).

Lemma key_schedule_of_profile n e f i d :
  key_length_ok e → plain_transform Prf f → plain_transform Integrity i →
  let p := mkProposal n ProtoIke [] [e; f; i; d] in
  ∃ prf integrity bits, build_key_schedule_plan p = Ok (plan_for prf integrity bits) ∧
    find_transform p Prf = Some f ∧ prf_from_transform_id (transform_id f) = Some prf ∧
    (bits = 16 ∨ bits = 32)%nat.
Proof.
  intros He (fid & -> & Hf) (iid & -> & Hi) p.
  destruct (prf_known_id _ Hf) as [prf Hprf], (integrity_known_id _ Hi) as [a Ha].
  assert (find_transform p Encryption = Some e ∧ ∃ bits, encryption_key_bits e = Some bits ∧
    transform_id e = ENCR_AES_CBC ∧ (bits / 8 = 16 ∨ bits / 8 = 32)%nat) as (H1 & bits & H2 & H2' & H3).
  { destruct He as [->| ->]; (split; [reflexivity|]); eexists; (split; [reflexivity|]); (split; [done|]); auto. }
  assert (find_transform p Prf = Some (transform_of Prf fid)) as H4 by (by destruct He as [->| ->]).
  assert (find_transform p Integrity = Some (transform_of Integrity iid)) as H5
    by (by destruct He as [->| ->]).
  exists prf, a, (bits / 8)%nat. unfold build_key_schedule_plan. rewrite H1, H4, H5.
  cbn [ok_or mbind res_bind transform_id transform_of]. rewrite Hprf, Ha, H2, H2'.
  cbn [ok_or mbind res_bind]. rewrite Z.eqb_refl. done.
Qed.

Lemma child_schedule_of_profile n k e i : key_length_ok e → plain_transform Integrity i →
  ∃ integrity bits, build_child_sa_key_schedule_plan
      (mkProposal n ProtoEsp k [e; i; transform_of ExtendedSequenceNumbers 0])
    = Ok (child_plan_for integrity bits) ∧ (bits = 16 ∨ bits = 32)%nat.
Proof.
  intros He (iid & -> & Hi). set (p := mkProposal _ _ _ _).
  destruct (integrity_known_id _ Hi) as [a Ha].
  assert (find_transform p Encryption = Some e ∧ ∃ bits, encryption_key_bits e = Some bits ∧
    transform_id e = ENCR_AES_CBC ∧ (bits / 8 = 16 ∨ bits / 8 = 32)%nat) as (H1 & bits & H2 & H2' & H3).
  { destruct He as [->| ->]; (split; [reflexivity|]); eexists; (split; [reflexivity|]); (split; [done|]); auto. }
  assert (find_transform p Integrity = Some (transform_of Integrity iid)) as H5
    by (by destruct He as [->| ->]).
  exists a, (bits / 8)%nat. unfold build_child_sa_key_schedule_plan. rewrite H1, H5.
  cbn [ok_or mbind res_bind transform_id transform_of]. rewrite Ha, H2, H2'.
  cbn [ok_or mbind res_bind]. rewrite Z.eqb_refl. done.
Qed.

(** Cutting a string of the right length into consecutive secrets. *)
Lemma take_secret_app {E} (p s t : list Z) offset len : offset = length p → len = length s →
  take_secret (E:=E) (p ++ s ++ t) offset len = Ok (s, (offset + len)%nat).
Proof. intros -> ->. unfold take_secret. by rewrite slice_app. Qed.
Lemma take_secret_Ok {E} input offset len : (offset + len ≤ length input)%nat →
  take_secret (E:=E) input offset len = Ok (take len (drop offset input), (offset + len)%nat).
Proof.
  intros H. unfold take_secret, slice, get_range.
  rewrite (proj2 (Nat.leb_le offset _)), (proj2 (Nat.leb_le _ (length input))) by lia. cbn.
  by replace (offset + len - offset)%nat with len by lia.
Qed.
Lemma length_cut (l : list Z) offset len : (offset + len ≤ length l)%nat → length (take len (drop offset l)) = len.
Proof. intros. rewrite length_take, length_drop. lia. Qed.
Lemma take_drop_next (l : list Z) a b : take a l ++ take b (drop a l) = take (a + b) l.
Proof. by rewrite take_take_drop. Qed.

Section laws.
Context (hmac_sign : RingAlgorithm → list Z → list Z → list Z) (md5_compute : list Z → list Z).
(** The digests have the lengths their algorithms promise. *)
Definition digest_lengths : Prop :=
  (∀ prf a k d, ring_algorithm prf = Some a → length (hmac_sign a k d) = output_len prf) ∧
  ∀ d, length (md5_compute d) = 16%nat.
Hypothesis (Hlen : digest_lengths).
Local Abbreviation digest := (prf_digest hmac_sign md5_compute).

Lemma length_prf_digest prf k d : length (digest prf k d) = output_len prf.
Proof.
  destruct Hlen as [Hr Hm]. unfold prf_digest. destruct (ring_algorithm prf) as [a|] eqn:E; [by apply Hr|].
  destruct prf; try discriminate. apply Hm.
Qed.

Lemma prf_plus_loop_spec prf key seed n fuel : ∀ k,
  (n ≤ 255 * output_len prf)%nat → (k ≤ 255)%nat → (n - k * output_len prf < fuel)%nat →
  ∃ m, (m ≤ 255)%nat ∧ (n ≤ m * output_len prf)%nat ∧
    prf_plus_loop hmac_sign md5_compute fuel prf key seed n (prf_stream (digest prf) key seed k)
      (prf_block (digest prf) key seed k) (Z.min 255 (Z.of_nat (S k)))
    = Ok (prf_stream (digest prf) key seed m).
Proof.
  induction fuel as [|fuel IH]; intros k Hn Hk Hf; [lia|]. cbn [prf_plus_loop].
  rewrite (length_prf_stream _ _ _ (output_len prf)) by apply length_prf_digest.
  pose proof (output_len_range prf).
  destruct (Nat.ltb_spec (k * output_len prf) n) as [Hlt|]; [|by exists k].
  assert (k < 255)%nat by nia. rewrite Z.min_r by lia.
  change (digest prf key (prf_block (digest prf) key seed k ++ seed ++ [Z.of_nat (S k)]))
    with (prf_block (digest prf) key seed (S k)).
  rewrite <-prf_stream_S.
  replace (sat_add u8_max (Z.of_nat (S k)) 1) with (Z.min 255 (Z.of_nat (S (S k))))
    by (unfold sat_add, u8_max; lia).
  apply IH; nia.
Qed.

Lemma prf_plus_spec prf key seed n :
  prf_plus hmac_sign md5_compute prf key seed n
  = if (255 * output_len prf <? n)%nat then Err (OutputTooLarge n)
    else Ok (take n (prf_stream (digest prf) key seed 255)).
Proof.
  unfold prf_plus. destruct (Nat.ltb_spec (255 * output_len prf) n) as [|Hn]; [done|].
  cbn [fail_if mbind res_bind].
  destruct (prf_plus_loop_spec prf key seed n (S n) 0 Hn ltac:(lia) ltac:(lia)) as (m & Hm & Hnm & Hl).
  change (prf_stream (digest prf) key seed 0) with (@nil Z) in Hl.
  change (prf_block (digest prf) key seed 0) with (@nil Z) in Hl.
  change (Z.min 255 (Z.of_nat 1)) with 1 in Hl. rewrite Hl. cbn [mbind res_bind]. f_equal.
  destruct (prf_stream_prefix (digest prf) key seed m (255 - m)) as [t Ht].
  replace (m + (255 - m))%nat with 255%nat in Ht by lia. rewrite Ht, take_app_le; [done|].
  rewrite (length_prf_stream _ _ _ (output_len prf)) by apply length_prf_digest. lia.
Qed.
Lemma length_prf_stream_255 prf key seed n : (n ≤ 255 * output_len prf)%nat →
  length (take n (prf_stream (digest prf) key seed 255)) = n.
Proof.
  intros. rewrite length_take, (length_prf_stream _ _ _ (output_len prf)) by apply length_prf_digest. lia.
Qed.
End laws.

(** ** Properties *)

(** C17: [prf_plus] computes the [prf+] of RFC 7296: within the 255 blocks a one-byte
    counter can name it returns the first [n] bytes of [T 1 | T 2 | ...], each block
    under its own counter (the saturating counter never repeats a value), and beyond
    them it returns the error and no keys; it always ends. *)
Theorem prf_plus_is_rfc7296 hmac_sign md5_compute prf key seed n :
  digest_lengths hmac_sign md5_compute →
  let digest := prf_digest hmac_sign md5_compute prf in
  if decide (n ≤ 255 * output_len prf)%nat then
    ∃ out, prf_plus hmac_sign md5_compute prf key seed n = Ok out ∧ length out = n ∧
      out = take n (prf_stream digest key seed 255)
  else prf_plus hmac_sign md5_compute prf key seed n = Err (OutputTooLarge n).
Proof.
  intros Hlen digest. rewrite prf_plus_spec by done. destruct (decide _) as [Hn|Hn].
  - rewrite (proj2 (Nat.ltb_ge _ _)) by lia. eexists; split; [done|].
    split; [by apply length_prf_stream_255|done].
  - by rewrite (proj2 (Nat.ltb_lt _ _)) by lia.
Qed.

(** The secrets of a bundle in the order of RFC 7296, section 2.14. *)
Definition bundle_bytes (b : IkeSecretBundle) : list Z :=
  sk_d b ++ sk_ai b ++ sk_ar b ++ sk_ei b ++ sk_er b ++ sk_pi b ++ sk_pr b.
Definition pair_bytes (s : ChildSaSecretPair) : list Z :=
  outbound_encryption s ++ outbound_integrity s ++ inbound_encryption s ++ inbound_integrity s.
(** Each secret is as long as its algorithm wants it. *)
Definition bundle_lengths (b : IkeSecretBundle) : Prop :=
  length (sk_d b) = prf_output_bytes (plan b) ∧
  length (sk_pi b) = prf_output_bytes (plan b) ∧ length (sk_pr b) = prf_output_bytes (plan b) ∧
  length (sk_ai b) = integrity_key_bytes (plan b) ∧ length (sk_ar b) = integrity_key_bytes (plan b) ∧
  length (sk_ei b) = encryption_key_bytes (plan b) ∧ length (sk_er b) = encryption_key_bytes (plan b).

Lemma derive_ike_of_plan hmac_sign md5_compute p f prf integrity bits ni nr spii spir secret :
  digest_lengths hmac_sign md5_compute → ni ≠ [] → nr ≠ [] → secret ≠ [] →
  build_key_schedule_plan p = Ok (plan_for prf integrity bits) →
  find_transform p Prf = Some f → prf_from_transform_id (transform_id f) = Some prf →
  (bits = 16 ∨ bits = 32)%nat →
  ∃ b, derive_ike_secret_bundle hmac_sign md5_compute p ni nr spii spir secret = Ok b ∧
    plan b = plan_for prf integrity bits ∧ bundle_lengths b ∧
    bundle_bytes b = take (total_secret_bytes (plan b))
      (prf_stream (prf_digest hmac_sign md5_compute prf)
        (prf_digest hmac_sign md5_compute prf (ni ++ nr) secret)
        (ni ++ nr ++ be_bytes 8 spii ++ be_bytes 8 spir) 255).
Proof.
  intros Hlen Hni Hnr Hs Hplan Hf Hprf Hbits. unfold derive_ike_secret_bundle.
  rewrite (bool_decide_eq_false_2 (secret = [])), (bool_decide_eq_false_2 (ni = [])),
    (bool_decide_eq_false_2 (nr = [])) by done. cbn [orb fail_if mbind res_bind].
  rewrite Hplan. cbn [mbind res_bind]. rewrite Hf. cbn [ok_or mbind res_bind]. rewrite Hprf.
  cbn [ok_or mbind res_bind]. rewrite prf_plus_spec by done.
  pose proof (output_len_range prf). pose proof (key_len_range integrity).
  cbn [plan_for total_secret_bytes prf_output_bytes integrity_key_bytes encryption_key_bytes].
  set (o := output_len prf) in *. set (k := key_len integrity) in *.
  rewrite (proj2 (Nat.ltb_ge _ _)) by lia. cbn [mbind res_bind].
  set (stream := prf_stream _ _ _ 255).
  set (e := take (o * 3 + k * 2 + bits * 2) stream).
  assert (length e = o * 3 + k * 2 + bits * 2)%nat as He.
  { unfold e, stream. apply length_prf_stream_255; [done|]. fold o. lia. }
  do 7 (rewrite take_secret_Ok by lia; cbn [mbind res_bind]).
  eexists; split; [reflexivity|]. split; [done|]. split.
  - unfold bundle_lengths; cbn [sk_d sk_ai sk_ar sk_ei sk_er sk_pi sk_pr plan prf_output_bytes
      integrity_key_bytes encryption_key_bytes plan_for].
    fold o k. clearbody e. split_and!; apply length_cut; lia.
  - unfold bundle_bytes; cbn [sk_d sk_ai sk_ar sk_ei sk_er sk_pi sk_pr]. rewrite !app_assoc.
    rewrite drop_0, !take_drop_next. cbn. rewrite firstn_all2; [done|]. lia.
Qed.

Lemma ike_keys_derived hmac_sign md5_compute s n p ni nr spii spir secret :
  digest_lengths hmac_sign md5_compute → ike_proposal_from_profile_string s n = Ok p →
  ni ≠ [] → nr ≠ [] → secret ≠ [] →
  ∃ b prf integrity bits, plan b = plan_for prf integrity bits ∧ (bits = 16 ∨ bits = 32)%nat ∧
    derive_ike_secret_bundle hmac_sign md5_compute p ni nr spii spir secret = Ok b ∧
    prf_from_plan (plan b) = Ok prf ∧ bundle_lengths b ∧
    bundle_bytes b = take (total_secret_bytes (plan b))
      (prf_stream (prf_digest hmac_sign md5_compute prf)
        (prf_digest hmac_sign md5_compute prf (ni ++ nr) secret)
        (ni ++ nr ++ be_bytes 8 spii ++ be_bytes 8 spir) 255).
Proof.
  intros Hlen Hp Hni Hnr Hs.
  apply ike_profile_shape in Hp as (e & f & i & d & -> & He & Hf & Hi & Hd).
  destruct (key_schedule_of_profile n e f i d He Hf Hi) as (prf & a & bits & Hplan & Hfind & Hid & Hbits).
  destruct (derive_ike_of_plan hmac_sign md5_compute _ f prf a bits ni nr spii spir secret
    Hlen Hni Hnr Hs Hplan Hfind Hid Hbits) as (b & Hb & Hpl & Hlens & Hbytes).
  exists b, prf, a, bits. do 3 (split; [done|]). split; [rewrite Hpl; apply prf_from_plan_as_str|done].
Qed.

(** From a profile string to keys: whatever proposal a profile string is accepted
    for, and whatever group secret and nonces follow (none of them empty), the key
    schedule succeeds without a panic: the seven secrets are the first bytes of
    [prf+(prf(Ni | Nr, g^ir), Ni | Nr | SPIi | SPIr)] in the order of RFC 7296, each as
    long as the negotiated algorithm needs. *)
Theorem ike_keys_of_profile hmac_sign md5_compute s n p ni nr spii spir secret :
  digest_lengths hmac_sign md5_compute → ike_proposal_from_profile_string s n = Ok p →
  ni ≠ [] → nr ≠ [] → secret ≠ [] →
  ∃ b prf, derive_ike_secret_bundle hmac_sign md5_compute p ni nr spii spir secret = Ok b ∧
    prf_from_plan (plan b) = Ok prf ∧ bundle_lengths b ∧
    bundle_bytes b = take (total_secret_bytes (plan b))
      (prf_stream (prf_digest hmac_sign md5_compute prf)
        (prf_digest hmac_sign md5_compute prf (ni ++ nr) secret)
        (ni ++ nr ++ be_bytes 8 spii ++ be_bytes 8 spir) 255).
Proof.
  intros H1 H2 H3 H4 H5.
  destruct (ike_keys_derived hmac_sign md5_compute s n p ni nr spii spir secret H1 H2 H3 H4 H5)
    as (b & prf & a & bits & _ & _ & H). by exists b, prf.
Qed.

Lemma child_keys_derived hmac_sign md5_compute bundle prf s n k p ni nr :
  digest_lengths hmac_sign md5_compute → prf_from_plan (plan bundle) = Ok prf →
  child_sa_proposal_from_profile_string s n k = Ok p → ni ≠ [] → nr ≠ [] →
  ∃ pair integrity bits,
    derive_child_sa_secret_pair hmac_sign md5_compute bundle p ni nr = Ok pair ∧
    pair_plan pair = child_plan_for integrity bits ∧ (bits = 16 ∨ bits = 32)%nat ∧
    length (outbound_encryption pair) = bits ∧ length (inbound_encryption pair) = bits ∧
    length (outbound_integrity pair) = key_len integrity ∧
    length (inbound_integrity pair) = key_len integrity ∧
    pair_bytes pair = take ((bits + key_len integrity) * 2)
      (prf_stream (prf_digest hmac_sign md5_compute prf) (sk_d bundle) (ni ++ nr) 255).
Proof.
  intros Hlen Hprf Hp Hni Hnr. apply child_profile_shape in Hp as (e & i & -> & He & Hi).
  destruct (child_schedule_of_profile n k e i He Hi) as (a & bits & Hplan & Hbits).
  unfold derive_child_sa_secret_pair.
  rewrite (bool_decide_eq_false_2 (ni = [])), (bool_decide_eq_false_2 (nr = [])) by done.
  cbn [orb fail_if mbind res_bind]. rewrite Hplan. cbn [mbind res_bind]. rewrite Hprf.
  cbn [mbind res_bind]. rewrite prf_plus_spec by done.
  pose proof (output_len_range prf). pose proof (key_len_range a).
  cbn [child_plan_for child_total_secret_bytes child_encryption_key_bytes child_integrity_key_bytes].
  set (j := key_len a) in *.
  rewrite (proj2 (Nat.ltb_ge _ _)) by lia. cbn [mbind res_bind].
  set (x := take ((bits + j) * 2) _).
  assert (length x = (bits + j) * 2)%nat as Hx by (unfold x; apply length_prf_stream_255; [done|lia]).
  do 4 (rewrite take_secret_Ok by lia; cbn [mbind res_bind]).
  eexists _, a, bits; split; [reflexivity|]. split; [done|]. split; [done|].
  cbn [outbound_encryption outbound_integrity inbound_encryption inbound_integrity].
  fold j. split; [apply length_cut; lia|]. split; [apply length_cut; lia|].
  split; [apply length_cut; lia|]. split; [apply length_cut; lia|].
  unfold pair_bytes; cbn [outbound_encryption outbound_integrity inbound_encryption inbound_integrity].
  rewrite !app_assoc, drop_0, !take_drop_next. rewrite firstn_all2; [done|]. lia.
Qed.

(** The keys of the ESP child: from an IKE bundle whose algorithm is known, an
    accepted profile string and two nonces, the derivation succeeds and the four
    secrets, outbound before inbound and encryption before integrity, are the first
    bytes of [prf+(SK_d, Ni | Nr)]: sixteen or thirty-two bytes of AES key and the
    integrity's own length in each direction. *)
Theorem child_keys_of_profile hmac_sign md5_compute bundle prf s n k p ni nr :
  digest_lengths hmac_sign md5_compute → prf_from_plan (plan bundle) = Ok prf →
  child_sa_proposal_from_profile_string s n k = Ok p → ni ≠ [] → nr ≠ [] →
  ∃ pair integrity bits,
    derive_child_sa_secret_pair hmac_sign md5_compute bundle p ni nr = Ok pair ∧
    pair_plan pair = child_plan_for integrity bits ∧ (bits = 16 ∨ bits = 32)%nat ∧
    length (outbound_encryption pair) = bits ∧ length (inbound_encryption pair) = bits ∧
    length (outbound_integrity pair) = key_len integrity ∧
    length (inbound_integrity pair) = key_len integrity ∧
    pair_bytes pair = take ((bits + key_len integrity) * 2)
      (prf_stream (prf_digest hmac_sign md5_compute prf) (sk_d bundle) (ni ++ nr) 255).
Proof. apply child_keys_derived. Qed.

(** ** Concrete digests: constants of the right length *)
Definition flat_hmac (a : RingAlgorithm) (key data : list Z) : list Z :=
  replicate (match a with HMAC_SHA1 => 20 | HMAC_SHA256 => 32 | HMAC_SHA384 => 48 | HMAC_SHA512 => 64 end)
    (fold_right Z.lxor 0 (key ++ data)).
Definition flat_md5 (data : list Z) : list Z := replicate 16 (fold_right Z.lxor 0 data).
Lemma flat_digest_lengths : digest_lengths flat_hmac flat_md5.
Proof.
  split; [|intros; apply length_replicate]. intros prf a k d H. unfold flat_hmac.
  rewrite length_replicate. by destruct prf; simplify_eq/=.
Qed.

Lemma prf_plus_is_rfc7296_witness :
  digest_lengths flat_hmac flat_md5 ∧
  ∃ out, prf_plus flat_hmac flat_md5 HmacSha1 [1; 2] [3] 45 = Ok out ∧ length out = 45%nat ∧
    out = take 45 (prf_stream (prf_digest flat_hmac flat_md5 HmacSha1) [1; 2] [3] 255).
Proof.
  split; [exact flat_digest_lengths|].
  exact (prf_plus_is_rfc7296 flat_hmac flat_md5 HmacSha1 [1; 2] [3] 45 flat_digest_lengths).
Defined.

Lemma ike_keys_of_profile_witness :
  ike_proposal_from_profile_string sample_profile 1 = Ok sample_proposal ∧
  ∃ b prf, derive_ike_secret_bundle flat_hmac flat_md5 sample_proposal [17] [34] 1 2 [51] = Ok b ∧
    prf_from_plan (plan b) = Ok prf ∧ bundle_lengths b ∧
    bundle_bytes b = take (total_secret_bytes (plan b))
      (prf_stream (prf_digest flat_hmac flat_md5 prf) (prf_digest flat_hmac flat_md5 prf ([17] ++ [34]) [51])
        ([17] ++ [34] ++ be_bytes 8 1 ++ be_bytes 8 2) 255).
Proof.
  assert (ike_proposal_from_profile_string sample_profile 1 = Ok sample_proposal) as H
    by (vm_compute; reflexivity).
  split; [exact H|].
  exact (ike_keys_of_profile flat_hmac flat_md5 sample_profile 1 sample_proposal [17] [34] 1 2 [51]
    flat_digest_lengths H ltac:(discriminate) ltac:(discriminate) ltac:(discriminate)).
Defined.

Definition sample_esp_proposal : ProposalSpec :=
  mkProposal 1 ProtoEsp [1; 2; 3; 4] [aes_cbc 256; transform_of Integrity 2;
    transform_of ExtendedSequenceNumbers 0].
Definition sample_bundle : IkeSecretBundle :=
  mkBundle [1] [2] [3] [4] [5] [6] [7] [8] (plan_for HmacSha256 HmacSha256_128 16).
Lemma child_keys_of_profile_witness :
  child_sa_proposal_from_profile_string (lit "aes256-sha1-modp2048") 1 [1; 2; 3; 4] = Ok sample_esp_proposal ∧
  ∃ pair integrity bits,
    derive_child_sa_secret_pair flat_hmac flat_md5 sample_bundle sample_esp_proposal [17] [34] = Ok pair ∧
    pair_plan pair = child_plan_for integrity bits.
Proof.
  assert (child_sa_proposal_from_profile_string (lit "aes256-sha1-modp2048") 1 [1; 2; 3; 4]
    = Ok sample_esp_proposal) as H by (vm_compute; reflexivity).
  split; [exact H|].
  destruct (child_keys_of_profile flat_hmac flat_md5 sample_bundle HmacSha256
    (lit "aes256-sha1-modp2048") 1 [1; 2; 3; 4] sample_esp_proposal [17] [34]
    flat_digest_lengths eq_refl H ltac:(discriminate) ltac:(discriminate))
    as (pair & a & bits & H1 & H2 & _).
  exists pair, a, bits. split; [exact H1|exact H2].
Defined.
