(* ===== verification/IkeCrypt.v ===== *)
(** * The encrypted IKEv2 payload

    Models [connectivity/modems/ims/vowifi/ike_encrypted.rs]: the SK payload that
    hides the payloads of an exchange after the key agreement.  AES-CBC, the HMAC
    and MD5 libraries and the random generator are parameters; padding, the chain
    inside, the outer message, the checks of a response and the comparison of tags
    are the code's own. *)
From Stdlib Require Import ZArith Lia String.
From stdpp Require Import prelude.
From S2P Require Import Prelude Text Bytes IkeCodec IkePayloads IkeKeys.
Local Open Scope Z_scope.

Inductive IkeSkDirection := InitiatorToResponder | ResponderToInitiator.

Inductive EncryptedPayloadError :=
| UnsupportedCipher (cipher : string)
| UnsupportedIntegrityName (integrity : string)
| EmptyInnerPayloads
| RandomFailed
| PacketTooLarge (size : nat)
| IntegrityMismatch
| InvalidEncryptedPayload
| InvalidPadding
| Codec (e : IkeCodecError).

(** ** Shapes *)
Definition cipher_shape (plan : IkeKeySchedulePlan) : res EncryptedPayloadError (nat * nat) :=
  match plan_encryption plan with
  | "aes_cbc"%string => Ok (16, 16)%nat
  | other => Err (UnsupportedCipher other)
  end.
Definition integrity_len (plan : IkeKeySchedulePlan) : res EncryptedPayloadError nat :=
  match plan_integrity plan with
  | "hmac_md5_96"%string => Ok 12%nat
  | "hmac_sha1_96"%string => Ok 12%nat
  | "hmac_sha256_128"%string => Ok 16%nat
  | "hmac_sha384_192"%string => Ok 24%nat
  | "hmac_sha512_256"%string => Ok 32%nat
  | other => Err (UnsupportedIntegrityName other)
  end.
Definition padding_len_for_block (length_with_pad_len_byte block_bytes : nat) : nat :=
  let rem := (length_with_pad_len_byte mod block_bytes)%nat in
  if (rem =? 0)%nat then 0 else block_bytes - rem.

(** ** The summary of a payload *)
Inductive EncryptedPayloadMode := MetadataOnly | CiphertextReady.
Definition mode_as_str (m : EncryptedPayloadMode) : string :=
  match m with MetadataOnly => "metadata_only" | CiphertextReady => "ciphertext_ready" end.
Definition payload_type_name (t : IkePayloadType) : string :=
  match t with
  | NoNext => "no_next"
  | SecurityAssociation => "security_association"
  | KeyExchange => "key_exchange"
  | IdentificationInitiator => "identification_initiator"
  | IdentificationResponder => "identification_responder"
  | Certificate => "certificate"
  | CertificateRequest => "certificate_request"
  | Authentication => "authentication"
  | Nonce => "nonce"
  | Notify => "notify"
  | Delete => "delete"
  | VendorId => "vendor_id"
  | TrafficSelectorInitiator => "traffic_selector_initiator"
  | TrafficSelectorResponder => "traffic_selector_responder"
  | Encrypted => "encrypted"
  | Configuration => "configuration"
  | ExtensibleAuthentication => "eap"
  | EncryptedFragment => "encrypted_fragment"
  | UnknownPayload _ => "unknown"
  end.
Record EncryptedPayloadPlan := mkEncPlan {
  ep_mode : string;
  ep_outer_payload : string;
  ep_first_inner_payload : string;
  ep_cipher : string;
  ep_integrity : string;
  ep_iv_bytes : nat;
  ep_block_bytes : nat;
  ep_icv_bytes : nat;
  ep_encrypted_payload_bytes : nat;
  ep_inner_payload_count : nat;
  ep_exported_plaintext : bool;
  ep_sensitive_values_policy : string;
}.
Definition build_encrypted_payload_plan (plan : IkeKeySchedulePlan) (inner : list IkePayload)
    : res EncryptedPayloadError EncryptedPayloadPlan :=
  fail_if (bool_decide (inner = [])) EmptyInnerPayloads;;
  '(iv_bytes, block_bytes) ← cipher_shape plan;
  icv_bytes ← integrity_len plan;
  let plaintext_len := sum_list_with (λ p, 4 + length (body p))%nat inner in
  let padding_len := padding_len_for_block (plaintext_len + 1) block_bytes in
  let encrypted_payload_bytes := (iv_bytes + plaintext_len + padding_len + 1 + icv_bytes)%nat in
  first ← idx inner 0;
  Ok (mkEncPlan (mode_as_str MetadataOnly) "encrypted" (payload_type_name (payload_type first))
    (plan_encryption plan) (plan_integrity plan) iv_bytes block_bytes icv_bytes encrypted_payload_bytes
    (length inner) false "plaintext_ciphertext_and_integrity_tags_not_serialized").
Definition build_encrypted_metadata_payload (plan : EncryptedPayloadPlan) : IkePayload :=
  mkPayload Encrypted false
    (lit "simadmin-ike-encrypted-metadata:" ++ lit (ep_mode plan) ++ lit ":" ++ lit (ep_cipher plan)
     ++ lit ":" ++ lit (ep_integrity plan)).

(** ** The chain inside *)
Fixpoint encode_inner_payload_chain (payloads : list IkePayload) : res EncryptedPayloadError (list Z) :=
  match payloads with
  | [] => Ok []
  | p :: rest =>
    let len := (4 + length (body p))%nat in
    fail_if (u16_max <? Z.of_nat len) (PacketTooLarge len);;
    tail ← encode_inner_payload_chain rest;
    Ok ([payload_type_as_u8 (first_type rest); if critical p then 0x80 else 0]
        ++ be_bytes 2 (Z.of_nat len) ++ body p ++ tail)
  end.

Fixpoint decode_inner_payload_chain (fuel : nat) (current_type : IkePayloadType) (input : list Z)
    : res EncryptedPayloadError (list IkePayload) :=
  match fuel with
  | O => Panic
  | S fuel =>
    if bool_decide (input = []) then Ok [] else
    fail_if (length input <? 4)%nat InvalidEncryptedPayload;;
    next_type ← idx input 0;
    flags ← idx input 1;
    l0 ← idx input 2;
    l1 ← idx input 3;
    let len := Z.to_nat (of_be_bytes [l0; l1]) in
    fail_if ((len <? 4) || (length input <? len))%nat InvalidEncryptedPayload;;
    body ← slice input 4 len;
    input ← slice_from input len;
    rest ← decode_inner_payload_chain fuel (payload_type_from_u8 next_type) input;
    Ok (mkPayload current_type (negb (Z.land flags 0x80 =? 0)) body :: rest)
  end.

Definition strip_padding (plaintext : list Z) : res EncryptedPayloadError (list Z) :=
  match last plaintext with
  | None => Err InvalidPadding
  | Some pad_len =>
    let body := removelast plaintext in
    let padding_len := Z.to_nat pad_len in
    fail_if (length body <? padding_len)%nat InvalidPadding;;
    slice body 0 (length body - padding_len)
  end.

Definition constant_time_eq (left right : list Z) : bool :=
  if negb (length left =? length right)%nat then false
  else foldl (λ diff '(l, r), Z.lor diff (Z.lxor l r)) 0 (zip left right) =? 0.

Section ciphers.
(** AES in CBC mode over whole blocks: key, initial vector, text. *)
Context (cbc_encrypt cbc_decrypt : list Z → list Z → list Z → list Z).
Context (hmac_sign : RingAlgorithm → list Z → list Z → list Z) (md5_compute : list Z → list Z).

(** [encrypt_padded_vec_mut::<NoPadding>] wants whole blocks. *)
Definition encrypt_cbc (plan : IkeKeySchedulePlan) (key iv plaintext : list Z)
    : res EncryptedPayloadError (list Z) :=
  if String.eqb (plan_encryption plan) "aes_cbc" && ((length key =? 16) || (length key =? 32))%nat then
    fail_if (negb (length iv =? 16)%nat) InvalidEncryptedPayload;;
    if (length plaintext mod 16 =? 0)%nat then Ok (cbc_encrypt key iv plaintext) else Panic
  else Err (UnsupportedCipher (plan_encryption plan)).
Definition decrypt_cbc (plan : IkeKeySchedulePlan) (key iv ciphertext : list Z)
    : res EncryptedPayloadError (list Z) :=
  if String.eqb (plan_encryption plan) "aes_cbc" && ((length key =? 16) || (length key =? 32))%nat then
    fail_if (negb (length iv =? 16)%nat) InvalidEncryptedPayload;;
    fail_if (negb (length ciphertext mod 16 =? 0)%nat) InvalidEncryptedPayload;;
    Ok (cbc_decrypt key iv ciphertext)
  else Err (UnsupportedCipher (plan_encryption plan)).

Definition integrity_algorithm (plan : IkeKeySchedulePlan) : res EncryptedPayloadError IkeIntegrityAlgorithm :=
  match plan_integrity plan with
  | "hmac_md5_96"%string => Ok HmacMd5_96
  | "hmac_sha1_96"%string => Ok HmacSha1_96
  | "hmac_sha256_128"%string => Ok HmacSha256_128
  | "hmac_sha384_192"%string => Ok HmacSha384_192
  | "hmac_sha512_256"%string => Ok HmacSha512_256
  | other => Err (UnsupportedIntegrityName other)
  end.
Definition integrity_tag (plan : IkeKeySchedulePlan) (key message_without_icv : list Z) (icv_bytes : nat)
    : res EncryptedPayloadError (list Z) :=
  algorithm ← integrity_algorithm plan;
  let tag :=
    match algorithm with
    | HmacMd5_96 => hmac_md5 md5_compute key message_without_icv
    | HmacSha1_96 => hmac_sign HMAC_SHA1 key message_without_icv
    | HmacSha256_128 => hmac_sign HMAC_SHA256 key message_without_icv
    | HmacSha384_192 => hmac_sign HMAC_SHA384 key message_without_icv
    | HmacSha512_256 => hmac_sign HMAC_SHA512 key message_without_icv
    end in
  Ok (take icv_bytes tag).

Definition encryption_key (bundle : IkeSecretBundle) (direction : IkeSkDirection) : list Z :=
  match direction with InitiatorToResponder => sk_ei bundle | ResponderToInitiator => sk_er bundle end.
Definition integrity_key (bundle : IkeSecretBundle) (direction : IkeSkDirection) : list Z :=
  match direction with InitiatorToResponder => sk_ai bundle | ResponderToInitiator => sk_ar bundle end.

(** ** Sending: [random] is what the system generator fills the vector with. *)
Definition build_encrypted_payload (random : option (list Z)) (bundle : IkeSecretBundle)
    (direction : IkeSkDirection) (inner : list IkePayload) : res EncryptedPayloadError IkePayload :=
  fail_if (bool_decide (inner = [])) EmptyInnerPayloads;;
  let plan := plan bundle in
  '(iv_bytes, block_bytes) ← cipher_shape plan;
  icv_bytes ← integrity_len plan;
  plaintext ← encode_inner_payload_chain inner;
  let padding_len := padding_len_for_block (length plaintext + 1) block_bytes in
  let plaintext := plaintext ++ ((λ v, u8 (Z.of_nat v)) <$> seq 0 padding_len) in
  let plaintext := plaintext ++ [u8 (Z.of_nat padding_len)] in
  iv ← ok_or RandomFailed random;
  ciphertext ← encrypt_cbc plan (encryption_key bundle direction) iv plaintext;
  Ok (mkPayload Encrypted false (iv ++ ciphertext)).

Definition encrypted_message_from_payload (initiator_spi responder_spi : Z)
    (exchange_type : IkeExchangeType) (initiator_request : bool) (message_id : Z) (payload : IkePayload)
    : IkeMessage :=
  mkMessage (mkHeader initiator_spi responder_spi Encrypted 2 0 exchange_type
    (mkFlags initiator_request false false) message_id 0) [payload].

Definition encode_message_with_first_encrypted_inner_payload (message : IkeMessage)
    (first_inner_payload : IkePayloadType) (icv_bytes : nat) : res EncryptedPayloadError (list Z) :=
  encrypted ← ok_or InvalidEncryptedPayload
    (match payloads message with
     | p :: _ => if decide (payload_type p = Encrypted) then Some p else None
     | [] => None
     end);
  let payload_len := (4 + length (body encrypted) + icv_bytes)%nat in
  fail_if (u16_max <? Z.of_nat payload_len) (PacketTooLarge payload_len);;
  let total_len := (28 + payload_len)%nat in
  fail_if (u32_max <? Z.of_nat total_len) (PacketTooLarge total_len);;
  let h := header message in
  Ok (be_bytes 8 (initiator_spi h) ++ be_bytes 8 (responder_spi h) ++
      [payload_type_as_u8 Encrypted;
       Z.lor (u8 (Z.shiftl (major_version h) 4)) (Z.land (minor_version h) 0x0f);
       exchange_type_as_u8 (exchange_type h);
       flags_as_u8 (flags h)] ++
      be_bytes 4 (message_id h) ++ be_bytes 4 (Z.of_nat total_len) ++
      [payload_type_as_u8 first_inner_payload; if critical encrypted then 0x80 else 0] ++
      be_bytes 2 (Z.of_nat payload_len) ++ body encrypted).

Definition encode_encrypted_message (message : IkeMessage) (first_inner_payload : IkePayloadType)
    (bundle : IkeSecretBundle) (direction : IkeSkDirection) : res EncryptedPayloadError (list Z) :=
  icv_bytes ← integrity_len (plan bundle);
  encoded ← encode_message_with_first_encrypted_inner_payload message first_inner_payload icv_bytes;
  tag ← integrity_tag (plan bundle) (integrity_key bundle direction) encoded icv_bytes;
  Ok (encoded ++ tag).

(** ** Receiving *)
Definition encrypted_body_from_encoded_message (encoded : list Z) (icv_bytes : nat)
    : res EncryptedPayloadError (IkePayloadType * list Z * list Z) :=
  next ← (if (length encoded <? 32)%nat then Err InvalidEncryptedPayload else idx encoded 16);
  fail_if (negb (next =? payload_type_as_u8 Encrypted)) InvalidEncryptedPayload;;
  declared ← slice encoded 24 28;
  fail_if (negb (Z.to_nat (of_be_bytes declared) =? length encoded)%nat) InvalidEncryptedPayload;;
  first_inner ← idx encoded 28;
  l0 ← idx encoded 30;
  l1 ← idx encoded 31;
  let payload_len := Z.to_nat (of_be_bytes [l0; l1]) in
  fail_if ((payload_len <? 4) || negb (28 + payload_len =? length encoded))%nat InvalidEncryptedPayload;;
  body_with_icv ← slice_from encoded 32;
  fail_if (length body_with_icv <? icv_bytes)%nat InvalidEncryptedPayload;;
  let at_ := (length body_with_icv - icv_bytes)%nat in
  Ok (payload_type_from_u8 first_inner, take at_ body_with_icv, drop at_ body_with_icv).

Definition decrypt_encrypted_payload_body (plan : IkeKeySchedulePlan) (encryption_key : list Z)
    (first_inner_payload : IkePayloadType) (body : list Z) : res EncryptedPayloadError (list IkePayload) :=
  '(iv_bytes, block_bytes) ← cipher_shape plan;
  fail_if ((length body <=? iv_bytes) || negb ((length body - iv_bytes) mod block_bytes =? 0))%nat
    InvalidEncryptedPayload;;
  let '(iv, ciphertext) := (take iv_bytes body, drop iv_bytes body) in
  plaintext ← decrypt_cbc plan encryption_key iv ciphertext;
  plaintext ← strip_padding plaintext;
  decode_inner_payload_chain (S (length plaintext)) first_inner_payload plaintext.

Definition decrypt_encrypted_payload_from_message (encoded_message : list Z) (bundle : IkeSecretBundle)
    (direction : IkeSkDirection) : res EncryptedPayloadError (list IkePayload) :=
  let plan := plan bundle in
  icv_bytes ← integrity_len plan;
  fail_if (length encoded_message <? icv_bytes + 32)%nat InvalidEncryptedPayload;;
  '(first_inner_payload, encrypted_body, received_icv) ←
    encrypted_body_from_encoded_message encoded_message icv_bytes;
  message_without_icv ← slice encoded_message 0 (length encoded_message - icv_bytes);
  expected ← integrity_tag plan (integrity_key bundle direction) message_without_icv icv_bytes;
  fail_if (negb (constant_time_eq expected received_icv)) IntegrityMismatch;;
  decrypt_encrypted_payload_body plan (encryption_key bundle direction) first_inner_payload encrypted_body.

Definition encrypted_response_header_matches (encoded_message : list Z) (spi : Z)
    (exchange : IkeExchangeType) (id : Z) : res EncryptedPayloadError bool :=
  fail_if (length encoded_message <? 32)%nat InvalidEncryptedPayload;;
  declared ← slice encoded_message 24 28;
  fail_if (negb (Z.to_nat (of_be_bytes declared) =? length encoded_message)%nat) InvalidEncryptedPayload;;
  header_initiator_spi ← slice encoded_message 0 8;
  next_payload ← idx encoded_message 16;
  version ← idx encoded_message 17;
  header_exchange ← idx encoded_message 18;
  flags ← idx encoded_message 19;
  header_message_id ← slice encoded_message 20 24;
  Ok ((of_be_bytes header_initiator_spi =? spi)
      && bool_decide (payload_type_from_u8 next_payload = Encrypted)
      && (Z.shiftr version 4 =? 2)
      && bool_decide (exchange_type_from_u8 header_exchange = exchange)
      && response (flags_from_u8 flags)
      && (of_be_bytes header_message_id =? id)).
End ciphers.

(** ** The chain inside *)
Definition inner_ok (p : IkePayload) : Prop := payload_type_ok (payload_type p) ∧ bytes_ok (body p).
#[export] Instance inner_ok_dec p : Decision (inner_ok p).
Proof. unfold inner_ok, payload_type_ok. apply _. Defined.

Lemma first_type_inner_ok l : Forall inner_ok l → payload_type_ok (first_type l).
Proof. destruct 1 as [|p l (?&_)]; [by apply (bool_decide_unpack _)|done]. Qed.

Lemma encode_inner_Ok l : Forall (λ p, Z.of_nat (payload_size p) ≤ u16_max) l →
  ∃ bs, encode_inner_payload_chain l = Ok bs ∧ length bs = sum_list_with payload_size l.
Proof.
  induction 1 as [|p l Hp _ (tail & IH & Hlen)]; [by exists []|]. cbn [encode_inner_payload_chain].
  unfold payload_size, GENERIC_PAYLOAD_HEADER_LEN in Hp.
  rewrite (proj2 (Z.ltb_ge _ _) Hp). cbn [fail_if mbind res_bind]. rewrite IH. cbn [mbind res_bind].
  eexists; split; [reflexivity|]. rewrite !length_app, length_be_bytes, Hlen. cbn [sum_list_with].
  unfold payload_size at 2, GENERIC_PAYLOAD_HEADER_LEN. simpl. lia.
Qed.

Lemma decode_inner_encode l : ∀ fuel bs, Forall inner_ok l → encode_inner_payload_chain l = Ok bs →
  (length l < fuel)%nat → decode_inner_payload_chain fuel (first_type l) bs = Ok l.
Proof.
  induction l as [|p l IH]; intros [|fuel] bs Hl Henc Hf; simpl in Hf; try lia;
    cbn [encode_inner_payload_chain] in Henc; [by apply Ok_inj in Henc as <-|].
  apply Forall_cons in Hl as [[Ht Hb] Hl]. pose proof (first_type_inner_ok l Hl) as [_ Hft].
  apply bind_Ok in Henc as (u & Hs%fail_if_Ok%Z.ltb_ge & H). unfold u16_max in Hs.
  apply bind_Ok in H as (tail & Htail & Hbs%Ok_inj).
  set (a := payload_type_as_u8 (first_type l)) in *. set (c := if critical p then 128 else 0) in *.
  set (n := (4 + length (body p))%nat) in *. rewrite be_bytes_2 in Hbs.
  assert (length bs = n + length tail)%nat as Hlen
    by (rewrite <-Hbs; simpl; rewrite length_app; unfold n; lia).
  cbn [decode_inner_payload_chain first_type]. rewrite bool_decide_eq_false_2 by (by rewrite <-Hbs).
  rewrite (proj2 (Nat.ltb_ge _ 4)) by lia. cbn [fail_if mbind res_bind].
  replace (idx bs 0) with (Ok (E:=EncryptedPayloadError) a) by (by rewrite <-Hbs).
  replace (idx bs 1) with (Ok (E:=EncryptedPayloadError) c) by (by rewrite <-Hbs).
  replace (idx bs 2) with (Ok (E:=EncryptedPayloadError) ((Z.of_nat n / 256) mod 256)) by (by rewrite <-Hbs).
  replace (idx bs 3) with (Ok (E:=EncryptedPayloadError) (Z.of_nat n mod 256)) by (by rewrite <-Hbs).
  cbn [mbind res_bind]. rewrite of_be_bytes_2, Nat2Z.id by lia.
  rewrite (proj2 (Nat.ltb_ge n 4)), (proj2 (Nat.ltb_ge _ n)) by lia. cbn [orb fail_if mbind res_bind].
  assert (bs = [a; c; (Z.of_nat n / 256) mod 256; Z.of_nat n mod 256] ++ body p ++ tail) as Hbs' by done.
  assert (slice (E:=EncryptedPayloadError) bs 4 n = Ok (body p)) as ->
    by (rewrite Hbs'; apply slice_app; simpl; lia).
  cbn [mbind res_bind].
  assert (slice_from (E:=EncryptedPayloadError) bs n = Ok tail) as ->
    by (unfold slice_from; rewrite Hbs', app_assoc, get_from_app by (rewrite length_app; simpl; lia); done).
  cbn [mbind res_bind]. rewrite Hft, (IH fuel tail Hl Htail) by lia. cbn [mbind res_bind].
  destruct p as [t cr b]. unfold c. by destruct cr.
Qed.
Lemma length_encode_inner l bs : encode_inner_payload_chain l = Ok bs → (length l ≤ length bs)%nat.
Proof.
  revert bs. induction l as [|p l IH]; intros bs H; [simpl; lia|]. cbn [encode_inner_payload_chain] in H.
  apply bind_Ok in H as (u & _ & H). apply bind_Ok in H as (tail & Htail & <-%Ok_inj).
  specialize (IH _ Htail). rewrite !length_app. simpl. lia.
Qed.

Lemma no_panic_decode_inner fuel : ∀ t input, (length input < fuel)%nat →
  no_panic (decode_inner_payload_chain fuel t input).
Proof.
  induction fuel as [|fuel IH]; intros t input Hf; [lia|]. cbn [decode_inner_payload_chain].
  case_bool_decide; [done|]. destruct (Nat.ltb_spec (length input) 4); [done|].
  cbn [fail_if mbind res_bind]. do 4 (np_step; [np_step|]). set (n := Z.to_nat _).
  destruct (Nat.ltb_spec n 4); [done|]. destruct (Nat.ltb_spec (length input) n); [done|].
  cbn [orb fail_if mbind res_bind]. do 2 (np_step; [np_step|]). np_step; [|np].
  apply IH. rewrite length_drop. lia.
Qed.

(** ** Padding *)
Lemma padding_block n : ((n + padding_len_for_block n 16) mod 16 = 0 ∧ padding_len_for_block n 16 < 16)%nat.
Proof.
  unfold padding_len_for_block. pose proof (Nat.mod_upper_bound n 16 ltac:(lia)).
  destruct (Nat.eqb_spec (n mod 16) 0) as [Heq|Hne]; [split; [by rewrite Nat.add_0_r|lia]|].
  split; [|lia]. rewrite (Nat.div_mod n 16) at 1 by lia.
  replace (16 * (n / 16) + n mod 16 + (16 - n mod 16))%nat with ((n / 16 + 1) * 16)%nat by lia.
  by apply Nat.Div0.mod_mul.
Qed.

Lemma strip_padding_app pt pad : (length pad < 256)%nat →
  strip_padding (pt ++ pad ++ [u8 (Z.of_nat (length pad))]) = Ok pt.
Proof.
  intros H. unfold strip_padding. rewrite app_assoc, last_snoc, removelast_last.
  unfold u8. rewrite Z.mod_small by (change (2 ^ 8) with 256; lia). rewrite Nat2Z.id, length_app.
  rewrite (proj2 (Nat.ltb_ge _ _)) by lia. cbn [fail_if mbind res_bind].
  apply (slice_app [] pt pad); simpl; lia.
Qed.
Lemma no_panic_strip_padding pt : no_panic (strip_padding pt) ∧
  ∀ s, strip_padding pt = Ok s → (length s ≤ length pt)%nat.
Proof.
  unfold strip_padding. destruct pt as [|x l _] using rev_ind; [done|].
  rewrite last_snoc, removelast_last. set (n := Z.to_nat x).
  destruct (Nat.ltb_spec (length l) n); [done|]. cbn [fail_if mbind res_bind]. split; [np|].
  intros s (?&?&->)%slice_Ok. rewrite length_take, length_drop, length_app. lia.
Qed.

Lemma constant_time_eq_spec l k : constant_time_eq l k = true ↔ l = k.
Proof.
  unfold constant_time_eq. destruct (Nat.eqb_spec (length l) (length k)) as [Hlen|Hne]; cbn [negb];
    [|split; [done|by intros ->]].
  rewrite Z.eqb_eq. by apply fold_mismatch_zero.
Qed.

Lemma integrity_len_range plan n : integrity_len plan = Ok n → (12 ≤ n ≤ 32)%nat.
Proof. unfold integrity_len. repeat case_match; intros [= <-]; lia. Qed.
Lemma cipher_shape_Ok plan s : cipher_shape plan = Ok s → s = (16, 16)%nat ∧ plan_encryption plan = AesCbc_as_str.
Proof.
  unfold cipher_shape. destruct (String.eqb_spec (plan_encryption plan) AesCbc_as_str) as [->|Hne];
    [by intros [= <-]|]. repeat case_match; try done; by destruct Hne.
Qed.

Section laws.
Context (cbc_encrypt cbc_decrypt : list Z → list Z → list Z → list Z).
Context (hmac_sign : RingAlgorithm → list Z → list Z → list Z) (md5_compute : list Z → list Z).
(** CBC keeps the length of whole blocks, and decryption undoes encryption. *)
Definition cbc_laws : Prop := ∀ key iv text,
  (length key = 16 ∨ length key = 32)%nat → length iv = 16%nat → (length text mod 16 = 0)%nat →
  length (cbc_encrypt key iv text) = length text ∧ cbc_decrypt key iv (cbc_encrypt key iv text) = text.

Local Abbreviation tag_of := (integrity_tag hmac_sign md5_compute).

(** Keys whose lengths fit the plan of a profile. *)
Definition bundle_ok (b : IkeSecretBundle) : Prop :=
  (∃ prf integrity bits, plan b = plan_for prf integrity bits ∧ (bits = 16 ∨ bits = 32)%nat) ∧
  bundle_lengths b.
Lemma bundle_ok_inv b d : bundle_ok b → ∃ icv, cipher_shape (plan b) = Ok (16, 16)%nat ∧
  integrity_len (plan b) = Ok icv ∧ plan_encryption (plan b) = AesCbc_as_str ∧ (12 ≤ icv ≤ 32)%nat ∧
  (length (encryption_key b d) = 16 ∨ length (encryption_key b d) = 32)%nat.
Proof.
  intros [(prf & a & bits & Hp & Hbits) (_ & _ & _ & _ & _ & Hei & Her)]. rewrite Hp in *.
  assert (∃ icv, integrity_len (plan_for prf a bits) = Ok icv) as [icv Hicv] by (destruct a; by eexists).
  exists icv. split_and!; try done; [apply (integrity_len_range _ _ Hicv)..|].
  cbn in Hei, Her. destruct d; cbn [encryption_key]; lia.
Qed.

Lemma integrity_tag_Ok plan key msg icv : digest_lengths hmac_sign md5_compute →
  integrity_len plan = Ok icv → ∃ tag, tag_of plan key msg icv = Ok tag ∧ length tag = icv.
Proof.
  intros [Hr Hm] H. unfold integrity_tag.
  assert (∃ a, integrity_algorithm plan = Ok a ∧ (icv ≤ key_len a)%nat) as (a & -> & Hle).
  { unfold integrity_len in H. unfold integrity_algorithm.
    repeat case_match; try discriminate; injection H as <-; eexists; (split; [done|]); simpl; lia. }
  cbn [mbind res_bind]. eexists; split; [reflexivity|]. rewrite length_take.
  assert (icv ≤ match a with
    | HmacMd5_96 => length (hmac_md5 md5_compute key msg)
    | HmacSha1_96 => length (hmac_sign HMAC_SHA1 key msg)
    | HmacSha256_128 => length (hmac_sign HMAC_SHA256 key msg)
    | HmacSha384_192 => length (hmac_sign HMAC_SHA384 key msg)
    | HmacSha512_256 => length (hmac_sign HMAC_SHA512 key msg) end)%nat as Hlen.
  { destruct a; cbn [key_len] in Hle; [unfold hmac_md5; by rewrite Hm|
      rewrite (Hr HmacSha1)|rewrite (Hr HmacSha256)|rewrite (Hr HmacSha384)|rewrite (Hr HmacSha512)];
      done || (cbn; lia). }
  destruct a; lia.
Qed.

(** ** Sending *)
Lemma build_encrypted_Ok iv b d inner : cbc_laws → bundle_ok b → length iv = 16%nat → inner ≠ [] →
  Forall (λ p, Z.of_nat (payload_size p) ≤ u16_max) inner →
  ∃ pt ct, encode_inner_payload_chain inner = Ok pt ∧
    build_encrypted_payload cbc_encrypt (Some iv) b d inner = Ok (mkPayload Encrypted false (iv ++ ct)) ∧
    length ct = (length pt + 1 + padding_len_for_block (length pt + 1) 16)%nat ∧
    (length ct mod 16 = 0)%nat ∧
    decrypt_cbc cbc_decrypt (plan b) (encryption_key b d) iv ct
    = Ok (pt ++ ((λ v, u8 (Z.of_nat v)) <$> seq 0 (padding_len_for_block (length pt + 1) 16))
          ++ [u8 (Z.of_nat (padding_len_for_block (length pt + 1) 16))]).
Proof.
  intros Hcbc Hb Hiv Hne Hsz. destruct (bundle_ok_inv b d Hb) as (icv & Hc & Hi & Hp & _ & Hk).
  destruct (encode_inner_Ok inner Hsz) as (pt & Hpt & _).
  destruct (padding_block (length pt + 1)) as [Hmod Hlt]. set (n := padding_len_for_block _ _) in *.
  set (text := pt ++ ((λ v, u8 (Z.of_nat v)) <$> seq 0 n) ++ [u8 (Z.of_nat n)]).
  assert (length text = length pt + 1 + n)%nat as Hlen
    by (unfold text; rewrite !length_app, length_fmap, length_seq; simpl; lia).
  destruct (Hcbc (encryption_key b d) iv text Hk Hiv ltac:(by rewrite Hlen)) as [Hct Hdec].
  assert (String.eqb (plan_encryption (plan b)) "aes_cbc" &&
    ((length (encryption_key b d) =? 16) || (length (encryption_key b d) =? 32))%nat = true) as Hguard.
  { rewrite Hp. cbn. by destruct Hk as [->| ->]. }
  exists pt, (cbc_encrypt (encryption_key b d) iv text). split; [done|]. rewrite Hct, Hlen. split_and!; try done.
  - unfold build_encrypted_payload. rewrite bool_decide_eq_false_2 by done. cbn [fail_if mbind res_bind].
    rewrite Hc. cbn [mbind res_bind]. rewrite Hi. cbn [mbind res_bind]. rewrite Hpt.
    cbn [ok_or mbind res_bind]. fold n. rewrite <-app_assoc. fold text.
    unfold encrypt_cbc. rewrite Hguard, Hiv, Hlen, Hmod. done.
  - unfold decrypt_cbc. rewrite Hguard, Hiv, Hct, Hlen, Hmod. cbn. by rewrite Hdec.
Qed.

(** The bytes around the encrypted body, and how the reader finds its way in them. *)
Lemma encoded_layout m first p icv bytes : payloads m = [p] →
  encode_message_with_first_encrypted_inner_payload m first icv = Ok bytes →
  ∃ h16 v e f mid c l0 l1,
    length h16 = 16%nat ∧ length mid = 4%nat ∧
    bytes = h16 ++ [46; v; e; f] ++ mid ++ be_bytes 4 (Z.of_nat (length bytes + icv)) ++
      [payload_type_as_u8 first; c; l0; l1] ++ body p ∧
    of_be_bytes [l0; l1] = Z.of_nat (4 + length (body p) + icv) ∧
    length bytes = (32 + length (body p))%nat ∧ Z.of_nat (length bytes + icv) < 65600.
Proof.
  unfold encode_message_with_first_encrypted_inner_payload. intros Hm H. rewrite Hm in H.
  destruct (decide _); [|done]. cbn [ok_or mbind res_bind] in H.
  apply bind_Ok in H as (u & Hs%fail_if_Ok%Z.ltb_ge & H). unfold u16_max in Hs.
  apply bind_Ok in H as (u' & _ & H%Ok_inj).
  assert (length bytes = 32 + length (body p))%nat as Hlen
    by (rewrite <-H, !length_app, !length_be_bytes; simpl; lia).
  eexists (be_bytes 8 _ ++ be_bytes 8 _), _, _, _, _, _, _, _.
  split; [by rewrite length_app, !length_be_bytes|]. split; [apply (length_be_bytes 4)|].
  split; [|split; [apply of_be_bytes_2; lia|split; [done|lia]]].
  rewrite Hlen. replace (32 + length (body p) + icv)%nat with (28 + (4 + length (body p) + icv))%nat by lia.
  rewrite <-H, be_bytes_2, <-!app_assoc. reflexivity.
Qed.

Lemma body_of_encoded bytes tag icv h16 v e f mid first c l0 l1 b : length tag = icv →
  length h16 = 16%nat → length mid = 4%nat →
  bytes = h16 ++ [46; v; e; f] ++ mid ++ be_bytes 4 (Z.of_nat (length bytes + icv)) ++
      [payload_type_as_u8 first; c; l0; l1] ++ b →
  of_be_bytes [l0; l1] = Z.of_nat (4 + length b + icv) → length bytes = (32 + length b)%nat →
  Z.of_nat (length bytes + icv) < 65600 → payload_type_ok first →
  encrypted_body_from_encoded_message (bytes ++ tag) icv = Ok (first, b, tag).
Proof.
  intros Ht Hh Hm Hb Hl Hlen Hmax [_ Hfirst]. set (ln := be_bytes 4 _) in Hb.
  assert (length ln = 4)%nat as Hln by (unfold ln; by rewrite length_be_bytes).
  set (w := bytes ++ tag). set (fb := payload_type_as_u8 first) in *.
  assert (length w = 32 + length b + icv)%nat as Hw by (unfold w; rewrite length_app; lia).
  assert (w = h16 ++ 46 :: ([v; e; f] ++ mid ++ ln ++ [fb; c; l0; l1] ++ b ++ tag)) as W1
    by (unfold w; rewrite Hb, <-!app_assoc; reflexivity).
  assert (w = (h16 ++ [46; v; e; f] ++ mid) ++ ln ++ ([fb; c; l0; l1] ++ b ++ tag)) as W2
    by (rewrite W1, <-!app_assoc; reflexivity).
  assert (w = (h16 ++ [46; v; e; f] ++ mid ++ ln) ++ fb :: ([c; l0; l1] ++ b ++ tag)) as W3
    by (rewrite W1, <-!app_assoc; reflexivity).
  assert (w = (h16 ++ [46; v; e; f] ++ mid ++ ln ++ [fb; c]) ++ l0 :: (l1 :: b ++ tag)) as W4
    by (rewrite W1, <-!app_assoc; reflexivity).
  assert (w = (h16 ++ [46; v; e; f] ++ mid ++ ln ++ [fb; c; l0]) ++ l1 :: (b ++ tag)) as W5
    by (rewrite W1, <-!app_assoc; reflexivity).
  assert (w = (h16 ++ [46; v; e; f] ++ mid ++ ln ++ [fb; c; l0; l1]) ++ (b ++ tag)) as W6
    by (rewrite W1, <-!app_assoc; reflexivity).
  assert (∀ p x s i, w = p ++ x :: s → i = length p → idx (E:=EncryptedPayloadError) w i = Ok x) as Hidx
    by (intros p x s i -> ->; by apply idx_app).
  unfold encrypted_body_from_encoded_message. rewrite (proj2 (Nat.ltb_ge _ 32)) by lia.
  rewrite (Hidx _ _ _ 16%nat W1) by done. cbn [mbind res_bind].
  change (46 =? payload_type_as_u8 Encrypted) with true. cbn [negb fail_if mbind res_bind].
  rewrite W2, (slice_app _ ln) by (rewrite ?length_app, ?Hh, ?Hm, ?Hln; done). rewrite <-W2.
  cbn [mbind res_bind]. unfold ln at 1.
  rewrite of_be_bytes_be by (change (256 ^ Z.of_nat 4) with 4294967296; lia). rewrite Nat2Z.id.
  rewrite (proj2 (Nat.eqb_eq _ (length w))) by lia. cbn [negb fail_if mbind res_bind].
  rewrite (Hidx _ _ _ 28%nat W3), (Hidx _ _ _ 30%nat W4), (Hidx _ _ _ 31%nat W5)
    by (rewrite !length_app, Hh, Hm, Hln; done).
  cbn [mbind res_bind]. rewrite Hl, Nat2Z.id.
  rewrite (proj2 (Nat.ltb_ge _ 4)) by lia. rewrite (proj2 (Nat.eqb_eq _ (length w))) by lia.
  cbn [orb negb fail_if mbind res_bind].
  rewrite W6. unfold slice_from. rewrite get_from_app by (rewrite !length_app, Hh, Hm, Hln; done).
  cbn [mbind res_bind]. rewrite length_app, Ht.
  rewrite (proj2 (Nat.ltb_ge _ icv)) by lia. cbn [fail_if mbind res_bind].
  replace (length b + icv - icv)%nat with (length b) by lia.
  by rewrite take_app_length, drop_app_length, Hfirst.
Qed.
End laws.

(** ** Receiving *)
Section receiving.
Context (cbc_encrypt cbc_decrypt : list Z → list Z → list Z → list Z).
Context (hmac_sign : RingAlgorithm → list Z → list Z → list Z) (md5_compute : list Z → list Z).

Lemma decrypt_body_sealed b d iv inner first : cbc_laws cbc_encrypt cbc_decrypt → bundle_ok b →
  length iv = 16%nat → inner ≠ [] → Forall inner_ok inner → first = first_type inner →
  Forall (λ p, Z.of_nat (payload_size p) ≤ u16_max) inner →
  ∃ p, build_encrypted_payload cbc_encrypt (Some iv) b d inner = Ok p ∧ payload_type p = Encrypted ∧
    (length (body p) ≤ 16 + sum_list_with payload_size inner + 16)%nat ∧
    decrypt_encrypted_payload_body cbc_decrypt (plan b) (encryption_key b d) first (body p) = Ok inner.
Proof.
  intros Hcbc Hb Hiv Hne Hok -> Hsz.
  destruct (build_encrypted_Ok cbc_encrypt cbc_decrypt iv b d inner Hcbc Hb Hiv Hne Hsz)
    as (pt & ct & Hpt & Hp & Hct & Hmod & Hdec).
  destruct (encode_inner_Ok inner Hsz) as (pt' & Hpt' & Hlen). rewrite Hpt in Hpt'. apply Ok_inj in Hpt' as <-.
  destruct (padding_block (length pt + 1)) as [_ Hpad]. set (n := padding_len_for_block _ _) in *.
  destruct (bundle_ok_inv b d Hb) as (icv & Hc & _).
  eexists; split; [exact Hp|]. split; [done|]. cbn [body]. rewrite length_app, Hiv. split; [lia|].
  unfold decrypt_encrypted_payload_body. rewrite Hc. cbn [mbind res_bind].
  rewrite length_app, Hiv. rewrite (proj2 (Nat.leb_gt _ 16)) by lia.
  replace (16 + length ct - 16)%nat with (length ct) by lia. rewrite Hmod, Nat.eqb_refl.
  cbn [orb negb fail_if mbind res_bind].
  rewrite <-Hiv, take_app_length, drop_app_length, Hdec. cbn [mbind res_bind].
  assert (length ((λ v, u8 (Z.of_nat v)) <$> seq 0 n) = n) as Hn by (by rewrite length_fmap, length_seq).
  rewrite <-Hn at 2. rewrite strip_padding_app by lia. cbn [mbind res_bind].
  apply decode_inner_encode; [done|done|]. pose proof (length_encode_inner _ _ Hpt). lia.
Qed.

Lemma no_panic_integrity_tag plan key msg icv : no_panic (integrity_tag hmac_sign md5_compute plan key msg icv).
Proof. unfold integrity_tag, integrity_algorithm. np_step; [by repeat case_match|np]. Qed.
Lemma no_panic_cipher_shape plan : no_panic (cipher_shape plan).
Proof. unfold cipher_shape. by repeat case_match. Qed.
Lemma no_panic_integrity_len plan : no_panic (integrity_len plan).
Proof. unfold integrity_len. by repeat case_match. Qed.
Lemma no_panic_decrypt_cbc plan key iv ct : no_panic (decrypt_cbc cbc_decrypt plan key iv ct).
Proof. unfold decrypt_cbc. np. Qed.
Lemma no_panic_encrypted_body w icv : no_panic (encrypted_body_from_encoded_message w icv).
Proof.
  unfold encrypted_body_from_encoded_message. destruct (Nat.ltb_spec (length w) 32); [done|]. np.
Qed.
Lemma no_panic_decrypt_body plan key t w :
  no_panic (decrypt_encrypted_payload_body cbc_decrypt plan key t w).
Proof.
  unfold decrypt_encrypted_payload_body. np_step; [apply no_panic_cipher_shape|].
  destruct a as [iv_bytes block_bytes]. np_step; [np_step|].
  np_step; [apply no_panic_decrypt_cbc|]. np_step; [apply no_panic_strip_padding|].
  apply no_panic_decode_inner. lia.
Qed.
End receiving.

(** ** Both directions *)
Lemma sealed_opens cbc_encrypt cbc_decrypt hmac_sign md5_compute b d iv inner
    spii spir exchange request id :
  cbc_laws cbc_encrypt cbc_decrypt → digest_lengths hmac_sign md5_compute → bundle_ok b →
  length iv = 16%nat → inner ≠ [] → Forall inner_ok inner →
  Z.of_nat (sum_list_with payload_size inner) ≤ 65000 →
  ∃ p bytes, build_encrypted_payload cbc_encrypt (Some iv) b d inner = Ok p ∧
    encode_encrypted_message hmac_sign md5_compute
      (encrypted_message_from_payload spii spir exchange request id p) (first_type inner) b d = Ok bytes ∧
    decrypt_encrypted_payload_from_message cbc_decrypt hmac_sign md5_compute bytes b d = Ok inner.
Proof.
  intros Hcbc Hdig Hb Hiv Hne Hok Hsum.
  assert (Forall (λ p, Z.of_nat (payload_size p) ≤ u16_max) inner) as Hsz.
  { apply Forall_forall. intros p Hp. apply list_elem_of_split in Hp as (l1 & l2 & ->).
    rewrite sum_list_with_app in Hsum. cbn [sum_list_with] in Hsum. unfold u16_max. lia. }
  destruct (decrypt_body_sealed cbc_encrypt cbc_decrypt b d iv inner _ Hcbc Hb Hiv Hne Hok eq_refl Hsz)
    as (p & Hp & Htype & Hplen & Hdec).
  destruct (bundle_ok_inv b d Hb) as (icv & Hc & Hi & _ & Hicv & _).
  set (m := encrypted_message_from_payload spii spir exchange request id p).
  assert (∃ enc, encode_message_with_first_encrypted_inner_payload m (first_type inner) icv = Ok enc)
    as [enc Henc].
  { unfold encode_message_with_first_encrypted_inner_payload. cbn [m payloads encrypted_message_from_payload].
    rewrite decide_True by done. cbn [ok_or mbind res_bind].
    rewrite !(proj2 (Z.ltb_ge _ _)) by (unfold u16_max, u32_max; lia). by eexists. }
  destruct (integrity_tag_Ok hmac_sign md5_compute (plan b) (integrity_key b d) enc icv Hdig Hi)
    as (tag & Htag & Htl).
  exists p, (enc ++ tag). fold m. split; [done|]. split.
  { unfold encode_encrypted_message. rewrite Hi. cbn [mbind res_bind]. rewrite Henc. cbn [mbind res_bind].
    by rewrite Htag. }
  destruct (encoded_layout m (first_type inner) p icv enc eq_refl Henc)
    as (h16 & v & e & f & mid & c & l0 & l1 & Hh & Hm & Hbytes & Hl & Hel & Hmax).
  unfold decrypt_encrypted_payload_from_message. rewrite Hi. cbn [mbind res_bind].
  rewrite length_app, Htl. rewrite (proj2 (Nat.ltb_ge _ _)) by lia. cbn [fail_if mbind res_bind].
  rewrite (body_of_encoded enc tag icv h16 v e f mid (first_type inner) c l0 l1 (body p))
    by (done || by apply first_type_inner_ok). cbn [mbind res_bind].
  replace (length enc + icv - icv)%nat with (length enc) by lia.
  rewrite (slice_app [] enc tag) by (simpl; lia). cbn [mbind res_bind]. rewrite Htag. cbn [mbind res_bind].
  by rewrite (proj2 (constant_time_eq_spec tag tag) eq_refl).
Qed.

Lemma no_panic_decrypt_message cbc_decrypt hmac_sign md5_compute bytes b d :
  no_panic (decrypt_encrypted_payload_from_message cbc_decrypt hmac_sign md5_compute bytes b d).
Proof.
  unfold decrypt_encrypted_payload_from_message.
  np_step; [apply no_panic_integrity_len|]. np_step; [np_step|].
  np_step; [apply no_panic_encrypted_body|]. match goal with x : _ * _ * _ |- _ => destruct x as [[? ?] ?] end.
  np_step; [np_step|]. np_step; [apply no_panic_integrity_tag|]. np_step; [np_step|].
  apply no_panic_decrypt_body.
Qed.
(** What an opened message says of its bytes. *)
Lemma opened_authentic cbc_decrypt hmac_sign md5_compute bytes b d inner :
  decrypt_encrypted_payload_from_message cbc_decrypt hmac_sign md5_compute bytes b d = Ok inner →
  ∃ icv msg tag, integrity_len (plan b) = Ok icv ∧ bytes = msg ++ tag ∧ length tag = icv ∧
    integrity_tag hmac_sign md5_compute (plan b) (integrity_key b d) msg icv = Ok tag ∧
    bytes !! 16%nat = Some (payload_type_as_u8 Encrypted) ∧
    Z.to_nat (of_be_bytes (take 4 (drop 24 bytes))) = length bytes.
Proof.
  unfold decrypt_encrypted_payload_from_message.
  intros H. apply bind_Ok in H as (icv & Hi & H).
  apply bind_Ok in H as (u1 & Hlen%fail_if_Ok%Nat.ltb_ge & H).
  apply bind_Ok in H as ([[first body] rtag] & He & H).
  apply bind_Ok in H as (msg & (_ & _ & Hmsg)%slice_Ok & H).
  apply bind_Ok in H as (tag & Htag & H).
  apply bind_Ok in H as (u2 & Heq%fail_if_Ok%negb_false_iff%constant_time_eq_spec & _).
  unfold encrypted_body_from_encoded_message in He.
  destruct (Nat.ltb_spec (length bytes) 32); [done|].
  apply bind_Ok in He as (x & Hx%idx_Ok & He).
  apply bind_Ok in He as (u3 & Hx46%fail_if_Ok%negb_false_iff%Z.eqb_eq & He).
  apply bind_Ok in He as (dl & (_ & _ & Hdl)%slice_Ok & He).
  apply bind_Ok in He as (u4 & Hdecl%fail_if_Ok%negb_false_iff%Nat.eqb_eq & He).
  apply bind_Ok in He as (y1 & _ & He). apply bind_Ok in He as (y2 & _ & He).
  apply bind_Ok in He as (y3 & _ & He). apply bind_Ok in He as (u5 & _ & He).
  apply bind_Ok in He as (bwi & (_ & Hbwi)%slice_from_Ok & He).
  apply bind_Ok in He as (u6 & Hicv%fail_if_Ok%Nat.ltb_ge & He). injection He as _ _ Hr.
  rewrite drop_0, Nat.sub_0_r in Hmsg.
  assert (rtag = drop (length bytes - icv) bytes) as Hrt.
  { rewrite <-Hr, Hbwi, length_drop, drop_drop. f_equal. lia. }
  exists icv, msg, tag. split; [done|]. split; [|split; [|split; [done|split]]].
  - rewrite Hmsg, Heq, Hrt. by rewrite take_drop.
  - rewrite Heq, Hrt, length_drop. lia.
  - by rewrite Hx, Hx46.
  - rewrite <-Hdecl, Hdl. done.
Qed.

(** The plaintext of an encrypted payload (RFC 7296, section 3.14) says which payloads it
    holds: each starts with the type of the next, its flags and its length, the first type
    is given from outside, and the last payload ends the text. *)
Inductive reads_chain : IkePayloadType → list Z → list IkePayload → Prop :=
| chain_end t : reads_chain t [] []
| chain_payload t next flags l0 l1 content rest payloads :
    Z.to_nat (of_be_bytes [l0; l1]) = (4 + length content)%nat →
    reads_chain (payload_type_from_u8 next) rest payloads →
    reads_chain t ([next; flags; l0; l1] ++ content ++ rest)
      (mkPayload t (negb (Z.land flags 0x80 =? 0)) content :: payloads).
Lemma chain_read fuel : ∀ t input l, decode_inner_payload_chain fuel t input = Ok l → reads_chain t input l.
Proof.
  induction fuel as [|fuel IH]; intros t input l H; [done|]. cbn [decode_inner_payload_chain] in H.
  case_bool_decide as He; [apply Ok_inj in H as <-; rewrite He; constructor|].
  rust_inv. bool_prop. subst.
  match goal with H : decode_inner_payload_chain _ _ _ = Ok _ |- _ => apply IH in H as Hrest; clear H end.
  destruct input as [|next [|flags [|l0 [|l1 input]]]]; try done. cbn [lookup list_lookup] in *. simplify_eq.
  set (len := Z.to_nat (of_be_bytes _)) in *.
  destruct len as [|[|[|[|n]]]] eqn:E; try lia. cbn [drop length Nat.sub] in *. rewrite Nat.sub_0_r in *.
  rewrite <-(take_drop n input) at 1. apply (chain_payload t _ _ _ _ (take n input)); [|done].
  rewrite length_take. lia.
Qed.
Lemma strip_padding_read text content : strip_padding text = Ok content →
  ∃ padding n, text = content ++ padding ++ [n] ∧ length padding = Z.to_nat n.
Proof.
  unfold strip_padding. destruct text as [|n text _] using rev_ind; [done|].
  rewrite last_snoc, removelast_last. intros H. rust_inv. bool_prop. subst. rewrite drop_0, Nat.sub_0_r.
  exists (drop (length text - Z.to_nat n) text), n. rewrite app_assoc, take_drop. split; [done|].
  rewrite length_drop. lia.
Qed.
(** What an opened message gives is the chain in the decryption of what it carries. *)
Lemma opened_chain cbc_decrypt hmac_sign md5_compute icv msg tag b d inner :
  integrity_len (plan b) = Ok icv → length tag = icv →
  decrypt_encrypted_payload_from_message cbc_decrypt hmac_sign md5_compute (msg ++ tag) b d = Ok inner →
  ∃ head first flags l0 l1 iv ciphertext content padding n,
    msg = head ++ [first; flags; l0; l1] ++ iv ++ ciphertext ∧ length head = 28%nat ∧ length iv = 16%nat ∧
    (length ciphertext mod 16 = 0)%nat ∧
    cbc_decrypt (encryption_key b d) iv ciphertext = content ++ padding ++ [n] ∧ length padding = Z.to_nat n ∧
    reads_chain (payload_type_from_u8 first) content inner.
Proof.
  intros Hi Htag. unfold decrypt_encrypted_payload_from_message. rewrite Hi. cbn [mbind res_bind]. intros H.
  apply bind_Ok in H as (u1 & Hlen%fail_if_Ok%Nat.ltb_ge & H). rewrite length_app in Hlen.
  apply bind_Ok in H as ([[first body] rtag] & He & H).
  do 3 apply bind_Ok in H as (? & _ & H).
  assert (∃ head tl, msg = head ++ tl ∧ length head = 28%nat) as (head & tl & -> & Hl28).
  { exists (take 28 msg), (drop 28 msg). rewrite take_drop, length_take. split; [done|lia]. }
  rewrite length_app in Hlen. destruct tl as [|f [|fl [|l0 [|l1 rest]]]]; try (cbn in Hlen; lia). unfold encrypted_body_from_encoded_message in He.
  destruct (Nat.ltb_spec (length ((head ++ f :: fl :: l0 :: l1 :: rest) ++ tag)) 32); [done|].
  do 4 apply bind_Ok in He as (? & _ & He).
  apply bind_Ok in He as (f' & Hf%idx_Ok & He). do 3 apply bind_Ok in He as (? & _ & He).
  apply bind_Ok in He as (bwi & (_ & Hbwi)%slice_from_Ok & He). apply bind_Ok in He as (? & _ & He).
  rewrite <-app_assoc, lookup_app_r in Hf by lia. rewrite Hl28 in Hf. cbn in Hf. injection Hf as <-.
  assert (bwi = rest ++ tag) as ->.
  { rewrite Hbwi, <-app_assoc. change 32%nat with (28 + 4)%nat. rewrite <-Hl28, <-drop_drop, drop_app_length. done. }
  apply Ok_inj in He as [= <- <- _]. rewrite length_app, Htag, Nat.add_sub, take_app_length in H.
  unfold decrypt_encrypted_payload_body in H. apply bind_Ok in H as ([? ?] & [[= -> ->] _]%cipher_shape_Ok & H).
  apply bind_Ok in H as (? & [Hle Hmod]%fail_if_Ok%orb_false_iff & H).
  apply Nat.leb_gt in Hle. apply negb_false_iff, Nat.eqb_eq in Hmod.
  apply bind_Ok in H as (text & Ht & H). apply bind_Ok in H as (content & Hc%strip_padding_read & H%chain_read).
  destruct Hc as (padding & n & -> & Hn). unfold decrypt_cbc in Ht. destruct (_ && _) in Ht; [|done].
  rust_inv. exists head, f, fl, l0, l1, (take 16 rest), (drop 16 rest), content, padding, n.
  rewrite length_take, length_drop. split_and!; try done; [|lia]. by rewrite take_drop.
Qed.

(** ** Properties *)

(** C13: A sealed payload opens to what was sealed: for keys of the lengths of the plan,
    a sixteen-byte initial vector and inner payloads that fit, sealing them, writing
    the message with its tag and opening it with the keys of the same direction gives
    back exactly the inner payloads, whatever their number and sizes, and no step of
    either side panics or fails. *)
Theorem sk_payload_roundtrip cbc_encrypt cbc_decrypt hmac_sign md5_compute b d iv inner
    spii spir exchange request id :
  cbc_laws cbc_encrypt cbc_decrypt → digest_lengths hmac_sign md5_compute → bundle_ok b →
  length iv = 16%nat → inner ≠ [] → Forall inner_ok inner →
  Z.of_nat (sum_list_with payload_size inner) ≤ 65000 →
  ∃ p bytes, build_encrypted_payload cbc_encrypt (Some iv) b d inner = Ok p ∧
    encode_encrypted_message hmac_sign md5_compute
      (encrypted_message_from_payload spii spir exchange request id p) (first_type inner) b d = Ok bytes ∧
    decrypt_encrypted_payload_from_message cbc_decrypt hmac_sign md5_compute bytes b d = Ok inner.
Proof. apply sealed_opens. Qed.

(** C12: Only an authentic message opens, and only to what it carries: whatever bytes
    arrive, reading them never panics, and when it yields payloads the bytes are a message
    followed by the integrity tag of exactly that message under the key of the direction,
    the length field of the message is its length, and its first payload is an encrypted
    one.  The message then is a header, the header of that payload, an initial vector and
    whole blocks; what they decrypt to under the encryption key of the direction ends in
    padding and its length; and the payloads yielded are exactly the chain in front of
    the padding, starting with the type the payload header names. *)
Theorem sk_accepts_authentic_only cbc_decrypt hmac_sign md5_compute bytes b d :
  no_panic (decrypt_encrypted_payload_from_message cbc_decrypt hmac_sign md5_compute bytes b d) ∧
  ∀ inner, decrypt_encrypted_payload_from_message cbc_decrypt hmac_sign md5_compute bytes b d = Ok inner →
    ∃ icv msg tag, integrity_len (plan b) = Ok icv ∧ bytes = msg ++ tag ∧ length tag = icv ∧
      integrity_tag hmac_sign md5_compute (plan b) (integrity_key b d) msg icv = Ok tag ∧
      bytes !! 16%nat = Some (payload_type_as_u8 Encrypted) ∧
      Z.to_nat (of_be_bytes (take 4 (drop 24 bytes))) = length bytes ∧
      ∃ head first flags l0 l1 iv ciphertext content padding n,
        msg = head ++ [first; flags; l0; l1] ++ iv ++ ciphertext ∧ length head = 28%nat ∧ length iv = 16%nat ∧
        (length ciphertext mod 16 = 0)%nat ∧
        cbc_decrypt (encryption_key b d) iv ciphertext = content ++ padding ++ [n] ∧ length padding = Z.to_nat n ∧
        reads_chain (payload_type_from_u8 first) content inner.
Proof.
  split; [apply no_panic_decrypt_message|]. intros inner H.
  destruct (opened_authentic _ _ _ _ _ _ _ H) as (icv & msg & tag & Hi & -> & Hl & Ht & H16 & H24).
  exists icv, msg, tag. split_and!; try done. by eapply opened_chain.
Qed.

(** The header check of a response agrees with the codec: for a message of at
    least a header and a payload header, it answers yes exactly when [decode_header]
    accepts the bytes and finds our SPI, our exchange and message number, the
    response flag, and an encrypted first payload. *)
Theorem response_check_is_decode input spi exchange id : (32 ≤ length input)%nat →
  encrypted_response_header_matches input spi exchange id = Ok true ↔
  ∃ h, decode_header input = Ok h ∧ initiator_spi h = spi ∧ next_payload h = Encrypted ∧
    exchange_type h = exchange ∧ response (flags h) = true ∧ message_id h = id.
Proof.
  intros Hlen. unfold encrypted_response_header_matches, decode_header, IKE_HEADER_LEN.
  rewrite (proj2 (Nat.ltb_ge _ 32)), (proj2 (Nat.ltb_ge _ 28)) by lia. cbn [fail_if mbind res_bind].
  assert (∀ a b, (a ≤ b)%nat → (b ≤ length input)%nat → ∀ E, slice (E:=E) input a b = Ok (take (b - a) (drop a input))) as Hsl.
  { intros a b ? ? E. by apply slice_Ok. }
  assert (∀ i, (i < length input)%nat → ∃ x, ∀ E, idx (E:=E) input i = Ok x) as Hidx.
  { intros i (x & Hx)%lookup_lt_is_Some_2. exists x. intros E. by apply idx_Ok. }
  rewrite !Hsl by lia.
  destruct (Hidx 16%nat ltac:(lia)) as [x16 H16], (Hidx 17%nat ltac:(lia)) as [x17 H17],
    (Hidx 18%nat ltac:(lia)) as [x18 H18], (Hidx 19%nat ltac:(lia)) as [x19 H19].
  rewrite !H16, !H17, !H18, !H19. cbn [mbind res_bind].
  set (declared := Z.to_nat (of_be_bytes _)). unfold IKEV2_MAJOR_VERSION.
  destruct (Nat.eqb_spec declared (length input)) as [Hd|Hd], (Z.eqb_spec (Z.shiftr x17 4) 2) as [Hv|Hv];
    cbn [negb fail_if mbind res_bind].
  - rewrite andb_true_r. split.
    + intros H%Ok_inj. rewrite !andb_true_iff, !bool_decide_eq_true, !Z.eqb_eq in H.
      destruct H as ((((H1 & H2) & H3) & H4) & H5). eexists; split; [reflexivity|]. cbn. done.
    + intros (h & <-%Ok_inj & H1 & H2 & H3 & H4 & H5). cbn in *. f_equal.
      rewrite !andb_true_iff, !bool_decide_eq_true, !Z.eqb_eq. done.
  - rewrite andb_false_r. split; [done|by intros (? & ? & _)].
  - split; [done|by intros (? & ? & _)].
  - split; [done|by intros (? & ? & _)].
Qed.

(** The size the summary announces is the size of the payload that is sent. *)
Lemma plan_announces_size cbc_encrypt cbc_decrypt b d iv inner s p :
  cbc_laws cbc_encrypt cbc_decrypt → bundle_ok b → length iv = 16%nat →
  Forall (λ p, Z.of_nat (payload_size p) ≤ u16_max) inner →
  build_encrypted_payload_plan (plan b) inner = Ok s →
  build_encrypted_payload cbc_encrypt (Some iv) b d inner = Ok p →
  ep_encrypted_payload_bytes s = (length (body p) + ep_icv_bytes s)%nat.
Proof.
  intros Hcbc Hb Hiv Hsz Hs Hp. unfold build_encrypted_payload_plan in Hs.
  apply bind_Ok in Hs as (u & Hne%fail_if_Ok%bool_decide_eq_false & Hs).
  destruct (build_encrypted_Ok cbc_encrypt cbc_decrypt iv b d inner Hcbc Hb Hiv Hne Hsz)
    as (pt & ct & Hpt & Hp' & Hct & _). rewrite Hp in Hp'. apply Ok_inj in Hp' as ->.
  destruct (encode_inner_Ok inner Hsz) as (pt' & Hpt' & Hlen). rewrite Hpt in Hpt'. apply Ok_inj in Hpt' as <-.
  destruct (bundle_ok_inv b d Hb) as (icv & Hc & Hi & _). rewrite Hc in Hs. cbn [mbind res_bind] in Hs.
  rewrite Hi in Hs. cbn [mbind res_bind] in Hs. apply bind_Ok in Hs as (f & _ & <-%Ok_inj).
  cbn [ep_encrypted_payload_bytes ep_icv_bytes body]. rewrite length_app, Hiv, Hct, Hlen.
  change (sum_list_with (λ p, (4 + length (body p))%nat) inner) with (sum_list_with payload_size inner). lia.
Qed.

(** ** Concrete ciphers *)
Definition flat_cbc (key iv text : list Z) : list Z := Z.lxor 0x5a <$> text.
Lemma flat_cbc_laws : cbc_laws flat_cbc flat_cbc.
Proof.
  intros key iv text _ _ _. unfold flat_cbc. rewrite length_fmap. split; [done|].
  rewrite <-list_fmap_compose. induction text as [|x l IH]; [done|]. cbn [fmap list_fmap]. f_equal; [|done].
  unfold compose. by rewrite <-Z.lxor_assoc, Z.lxor_nilpotent, Z.lxor_0_l.
Qed.
Definition sealed_bundle : IkeSecretBundle :=
  mkBundle [1] (replicate 32 2) (replicate 32 3) (replicate 32 4) (replicate 16 5) (replicate 16 6)
    (replicate 32 7) (replicate 32 8) (plan_for HmacSha256 HmacSha256_128 16).
Lemma sealed_bundle_ok : bundle_ok sealed_bundle.
Proof. split; [|by split_and!]. exists HmacSha256, HmacSha256_128, 16%nat. split; [done|by left]. Qed.
Definition sealed_inner : list IkePayload :=
  [mkPayload IdentificationInitiator false [104; 105]; mkPayload TrafficSelectorInitiator true (replicate 8 0x44)].

Lemma sk_payload_roundtrip_witness :
  cbc_laws flat_cbc flat_cbc ∧ digest_lengths flat_hmac flat_md5 ∧ bundle_ok sealed_bundle ∧
  ∃ p bytes, build_encrypted_payload flat_cbc (Some (replicate 16 9)) sealed_bundle InitiatorToResponder
      sealed_inner = Ok p ∧
    encode_encrypted_message flat_hmac flat_md5 (encrypted_message_from_payload 1 2 IkeAuth true 1 p)
      IdentificationInitiator sealed_bundle InitiatorToResponder = Ok bytes ∧
    decrypt_encrypted_payload_from_message flat_cbc flat_hmac flat_md5 bytes sealed_bundle
      InitiatorToResponder = Ok sealed_inner.
Proof.
  split; [exact flat_cbc_laws|]. split; [exact flat_digest_lengths|]. split; [exact sealed_bundle_ok|].
  apply (sk_payload_roundtrip flat_cbc flat_cbc flat_hmac flat_md5 sealed_bundle InitiatorToResponder
    (replicate 16 9) sealed_inner 1 2 IkeAuth true 1 flat_cbc_laws flat_digest_lengths sealed_bundle_ok).
  - reflexivity.
  - discriminate.
  - apply (bool_decide_unpack _). vm_compute. exact I.
  - apply (bool_decide_unpack _). vm_compute. exact I.
Defined.

Definition sample_answer : list Z :=
  replicate 8 1 ++ replicate 8 2 ++ [46; 0x20; 35; 0x20] ++ [0; 0; 0; 1] ++ [0; 0; 0; 32] ++ [0; 0; 0; 4].
Lemma response_check_is_decode_witness :
  (32 ≤ length sample_answer)%nat ∧
  encrypted_response_header_matches sample_answer 0x0101010101010101 IkeAuth 1 = Ok true ∧
  ∃ h, decode_header sample_answer = Ok h ∧ next_payload h = Encrypted.
Proof.
  assert (32 ≤ length sample_answer)%nat as H1 by (vm_compute; lia).
  assert (encrypted_response_header_matches sample_answer 0x0101010101010101 IkeAuth 1 = Ok true) as H2
    by (vm_compute; reflexivity).
  split; [exact H1|]. split; [exact H2|].
  destruct (proj1 (response_check_is_decode sample_answer 0x0101010101010101 IkeAuth 1 H1) H2)
    as (h & Hh & _ & Hn & _).
  exists h. split; [exact Hh|exact Hn].
Defined.

(** A changed tag is noticed. *)
Example tampered_tag_refused :
  match build_encrypted_payload flat_cbc (Some (replicate 16 9)) sealed_bundle InitiatorToResponder sealed_inner with
  | Ok p =>
    match encode_encrypted_message flat_hmac flat_md5 (encrypted_message_from_payload 1 2 IkeAuth true 1 p)
      IdentificationInitiator sealed_bundle InitiatorToResponder with
    | Ok bytes => decrypt_encrypted_payload_from_message flat_cbc flat_hmac flat_md5
        (take (length bytes - 1) bytes ++ [255]) sealed_bundle InitiatorToResponder
    | _ => Err RandomFailed
    end
  | _ => Err RandomFailed
  end = Err IntegrityMismatch.
Proof. vm_compute. reflexivity. Qed.
