(* ===== verification/EapAka.v ===== *)
(** * EAP-AKA

    Models [connectivity/modems/ims/vowifi/eap_aka.rs]: the attributes of an EAP-AKA
    packet (RFC 4187), the requests the client reads, the responses it builds, the
    message code that ties both to the keys of the card, and the key derivation with
    the generator of FIPS 186-2 and the compression function of SHA-1, which the code
    has of its own.  The SHA-1 and
    HMAC-SHA-1 of the library are parameters. *)
From Stdlib Require Import ZArith Lia String.
From stdpp Require Import prelude.
From S2P Require Import Prelude Text Bytes.
Local Open Scope Z_scope.

Definition EAP_TYPE_AKA : Z := 23.
Definition EAP_CODE_RESPONSE : Z := 2.
Definition EAP_AKA_SUBTYPE_CHALLENGE : Z := 1.
Definition EAP_AKA_SUBTYPE_SYNC_FAILURE : Z := 4.
Definition EAP_AKA_SUBTYPE_IDENTITY : Z := 5.
Definition EAP_AKA_SUBTYPE_NOTIFICATION : Z := 12.
Definition AT_RAND : Z := 1.
Definition AT_AUTN : Z := 2.
Definition AT_RES : Z := 3.
Definition AT_AUTS : Z := 4.
Definition AT_PERMANENT_ID_REQ : Z := 10.
Definition AT_MAC : Z := 11.
Definition AT_NOTIFICATION : Z := 12.
Definition AT_ANY_ID_REQ : Z := 13.
Definition AT_IDENTITY : Z := 14.
Definition AT_FULLAUTH_ID_REQ : Z := 17.
Definition AT_RESULT_IND : Z := 135.
Definition EAP_AKA_HEADER_LEN : nat := 8.
Definition MAC_LEN : nat := 16.
Definition K_AUT_LEN : nat := 16.
Definition K_ENCR_LEN : nat := 16.
Definition KEY_STREAM_LEN : nat := K_ENCR_LEN + K_AUT_LEN + 64 + 64.

(** ** Data *)
Record EapAkaChallenge := mkChallenge {
  ch_identifier : Z;
  ch_rand : list Z;
  ch_autn : list Z;
  ch_mac_present : bool;
  ch_result_indication : bool;
  ch_packet : list Z;
  ch_mac_offset : option nat;
}.
Record EapAkaNotification := mkNotification {
  n_identifier : Z;
  n_code : Z;
  n_success : bool;
  n_after_challenge : bool;
  n_mac_required : bool;
}.
Record EapAkaIdentityRequest := mkIdentityRequest { ir_identifier : Z; ir_request_kind : string }.
Record EapAkaKeyMaterial := mkKeys { k_aut : list Z; msk : list Z }.
Record EapAkaResponsePacket := mkResponse { packet : list Z; key_material : option EapAkaKeyMaterial }.
(** The card's answer ([qmi_uim.rs]). *)
Record UsimAkaApduResult := mkUsim { u_res : list Z; u_ck : list Z; u_ik : list Z; u_auts : option (list Z) }.
Record EapAkaAttribute := mkAttribute { attribute_type : Z; attribute_value : list Z }.
#[export] Instance EapAkaAttribute_eq_dec : EqDecision EapAkaAttribute.
Proof. solve_decision. Defined.

Inductive EapAkaProtocolError :=
| Truncated | LengthMismatch | UnsupportedMethod | UnsupportedSubtype | AttributeTruncated
| InvalidAttributeLength | MissingRand | MissingAutn | MissingMac | MissingNotification
| MissingIdentityRequest | MissingKeyMaterial | InvalidAkaResult | InvalidMac | PacketTooLarge.

(** ** Reading *)
Fixpoint parse_attributes (fuel : nat) (input : list Z) : res EapAkaProtocolError (list EapAkaAttribute) :=
  match fuel with
  | O => Panic
  | S fuel =>
    if bool_decide (input = []) then Ok [] else
    fail_if (length input <? 4)%nat AttributeTruncated;;
    units ← idx input 1;
    fail_if (units =? 0) InvalidAttributeLength;;
    let len := (Z.to_nat units * 4)%nat in
    fail_if (length input <? len)%nat AttributeTruncated;;
    attribute_type ← idx input 0;
    value ← slice input 2 len;
    input ← slice_from input len;
    rest ← parse_attributes fuel input;
    Ok (mkAttribute attribute_type value :: rest)
  end.
Definition attributes_of (packet : list Z) : res EapAkaProtocolError (list EapAkaAttribute) :=
  input ← slice_from packet EAP_AKA_HEADER_LEN;
  parse_attributes (S (length input)) input.

(** The checks that open the three parsers. *)
Definition check_packet (packet : list Z) (subtype : Z) : res EapAkaProtocolError unit :=
  fail_if (length packet <? EAP_AKA_HEADER_LEN)%nat Truncated;;
  p2 ← idx packet 2;
  p3 ← idx packet 3;
  fail_if (negb (Z.to_nat (of_be_bytes [p2; p3]) =? length packet)%nat) LengthMismatch;;
  p4 ← idx packet 4;
  fail_if (negb (p4 =? EAP_TYPE_AKA)) UnsupportedMethod;;
  p5 ← idx packet 5;
  fail_if (negb (p5 =? subtype)) UnsupportedSubtype.

Fixpoint find_identity_request (identifier : Z) (attrs : list EapAkaAttribute)
    : res EapAkaProtocolError EapAkaIdentityRequest :=
  match attrs with
  | [] => Err MissingIdentityRequest
  | attr :: attrs =>
    let t := attribute_type attr in
    if t =? AT_PERMANENT_ID_REQ then Ok (mkIdentityRequest identifier "permanent")
    else if t =? AT_FULLAUTH_ID_REQ then Ok (mkIdentityRequest identifier "full_auth")
    else if t =? AT_ANY_ID_REQ then Ok (mkIdentityRequest identifier "any")
    else find_identity_request identifier attrs
  end.
Definition parse_identity_request (packet : list Z) : res EapAkaProtocolError EapAkaIdentityRequest :=
  check_packet packet EAP_AKA_SUBTYPE_IDENTITY;;
  attrs ← attributes_of packet;
  identifier ← idx packet 1;
  find_identity_request identifier attrs.

Fixpoint find_notification (identifier : Z) (attrs : list EapAkaAttribute)
    : res EapAkaProtocolError EapAkaNotification :=
  match attrs with
  | [] => Err MissingNotification
  | attr :: attrs =>
    if attribute_type attr =? AT_NOTIFICATION then
      fail_if (negb (length (attribute_value attr) =? 2)%nat) InvalidAttributeLength;;
      v0 ← idx (attribute_value attr) 0;
      v1 ← idx (attribute_value attr) 1;
      let code := of_be_bytes [v0; v1] in
      let after_challenge := Z.land code 0x4000 =? 0 in
      Ok (mkNotification identifier code (negb (Z.land code 0x8000 =? 0)) after_challenge after_challenge)
    else find_notification identifier attrs
  end.
Definition parse_notification (packet : list Z) : res EapAkaProtocolError EapAkaNotification :=
  check_packet packet EAP_AKA_SUBTYPE_NOTIFICATION;;
  attrs ← attributes_of packet;
  identifier ← idx packet 1;
  find_notification identifier attrs.

Definition extract_reserved_prefixed_value (value : list Z) (expected_len : nat)
    : res EapAkaProtocolError (list Z) :=
  fail_if (negb (length value =? 2 + expected_len)%nat) InvalidAttributeLength;;
  slice_from value 2.

(** The variables of the loop of [parse_challenge]. *)
Record Seen := mkSeen {
  s_rand : option (list Z);
  s_autn : option (list Z);
  s_mac_present : bool;
  s_result_indication : bool;
  s_attribute_offset : nat;
  s_mac_offset : option nat;
}.
Definition seen_attribute (s : Seen) (attr : EapAkaAttribute) : res EapAkaProtocolError Seen :=
  let '(mkSeen rand autn mac result offset mac_offset) := s in
  let value := attribute_value attr in
  let t := attribute_type attr in
  let next := (offset + (2 + length value))%nat in
  if t =? AT_RAND then
    v ← extract_reserved_prefixed_value value 16;
    Ok (mkSeen (Some v) autn mac result next mac_offset)
  else if t =? AT_AUTN then
    v ← extract_reserved_prefixed_value value 16;
    Ok (mkSeen rand (Some v) mac result next mac_offset)
  else if t =? AT_MAC then
    fail_if (negb (length value =? 2 + MAC_LEN)%nat) InvalidAttributeLength;;
    Ok (mkSeen rand autn true result next (Some (offset + 4)%nat))
  else if t =? AT_RESULT_IND then Ok (mkSeen rand autn mac true next mac_offset)
  else Ok (mkSeen rand autn mac result next mac_offset).
Definition parse_challenge (packet : list Z) : res EapAkaProtocolError EapAkaChallenge :=
  check_packet packet EAP_AKA_SUBTYPE_CHALLENGE;;
  attrs ← attributes_of packet;
  s ← foldM seen_attribute (mkSeen None None false false EAP_AKA_HEADER_LEN None) attrs;
  identifier ← idx packet 1;
  rand ← ok_or MissingRand (s_rand s);
  autn ← ok_or MissingAutn (s_autn s);
  Ok (mkChallenge identifier rand autn (s_mac_present s) (s_result_indication s) packet (s_mac_offset s)).

(** ** Writing *)
Definition push_attribute (out : list Z) (attribute_type : Z) (value : list Z)
    : res EapAkaProtocolError (list Z) :=
  let padded_len := (2 + length value)%nat in
  let pad := ((4 - padded_len mod 4) mod 4)%nat in
  let total := (padded_len + pad)%nat in
  fail_if (u8_max <? Z.of_nat (total / 4)) PacketTooLarge;;
  Ok (out ++ [attribute_type; Z.of_nat (total / 4)] ++ value ++ replicate pad 0).

Definition push_at_res (out res : list Z) : Prelude.res EapAkaProtocolError (list Z) :=
  fail_if (128 <? length res)%nat PacketTooLarge;;
  push_attribute out AT_RES (be_bytes 2 (Z.of_nat (length res) * 8) ++ res).

Definition build_eap_packet (code identifier subtype : Z) (attributes : list Z)
    : res EapAkaProtocolError (list Z) :=
  let len := (EAP_AKA_HEADER_LEN + length attributes)%nat in
  fail_if (u16_max <? Z.of_nat len) PacketTooLarge;;
  Ok ([code; identifier] ++ be_bytes 2 (Z.of_nat len) ++ [EAP_TYPE_AKA; subtype; 0; 0] ++ attributes).

(** [packet[a..b].copy_from_slice(s)] *)
Definition copy_at {E} (packet : list Z) (a b : nat) (s : list Z) : res E (list Z) :=
  if ((a <=? b) && (b <=? length packet) && (length s =? b - a))%nat
  then Ok (take a packet ++ s ++ drop b packet) else Panic.

Definition build_identity_response (request : EapAkaIdentityRequest) (identity : str)
    (key_material : option EapAkaKeyMaterial) : res EapAkaProtocolError EapAkaResponsePacket :=
  let bytes := utf8_encode identity in
  fail_if (u16_max <? Z.of_nat (length bytes)) PacketTooLarge;;
  attributes ← push_attribute [] AT_IDENTITY (be_bytes 2 (Z.of_nat (length bytes)) ++ bytes);
  packet ← build_eap_packet EAP_CODE_RESPONSE (ir_identifier request) EAP_AKA_SUBTYPE_IDENTITY attributes;
  Ok (mkResponse packet key_material).
Definition build_identity_response_packet (request_packet : list Z) (identity : str)
    : res EapAkaProtocolError EapAkaResponsePacket :=
  request ← parse_identity_request request_packet;
  build_identity_response request identity None.
Definition build_sync_failure_response (challenge : EapAkaChallenge) (auts : list Z)
    : res EapAkaProtocolError EapAkaResponsePacket :=
  attributes ← push_attribute [] AT_AUTS auts;
  packet ← build_eap_packet EAP_CODE_RESPONSE (ch_identifier challenge) EAP_AKA_SUBTYPE_SYNC_FAILURE attributes;
  Ok (mkResponse packet None).

(** ** SHA-1 compression *)
Definition rotate_left (x n : Z) : Z := Z.lor (u32 (Z.shiftl x n)) (Z.shiftr x (32 - n)).
Definition not32 (x : Z) : Z := Z.lxor x u32_max.
Definition Words : Type := Z * Z * Z * Z * Z.
Definition word_at (block : list Z) (i : nat) : Z := of_be_bytes (take 4 (drop (4 * i) block)).
Definition schedule (block : list Z) : list Z :=
  foldl (λ w i, <[i := rotate_left (Z.lxor (Z.lxor (Z.lxor (w !!! (i - 3)) (w !!! (i - 8)))
      (w !!! (i - 14))) (w !!! (i - 16)))%nat 1]> w)
    ((word_at block <$> seq 0 16) ++ replicate 64 0) (seq 16 64).
Definition sha1_round (s : Words) (iw : nat * Z) : Words :=
  let '(a, b, c, d, e) := s in
  let '(i, word) := iw in
  let '(f, k) :=
    if (i <=? 19)%nat then (Z.lor (Z.land b c) (Z.land (not32 b) d), 0x5a827999)
    else if (i <=? 39)%nat then (Z.lxor (Z.lxor b c) d, 0x6ed9eba1)
    else if (i <=? 59)%nat then (Z.lor (Z.lor (Z.land b c) (Z.land b d)) (Z.land c d), 0x8f1bbcdc)
    else (Z.lxor (Z.lxor b c) d, 0xca62c1d6) in
  let temp := u32 (u32 (u32 (u32 (rotate_left a 5 + f) + e) + k) + word) in
  (temp, a, rotate_left b 30, c, d).
Definition sha1_compress (state : Words) (block : list Z) : Words :=
  let '(s0, s1, s2, s3, s4) := state in
  let w := schedule block in
  let '(a, b, c, d, e) := foldl sha1_round state (zip (seq 0 80) w) in
  (u32 (s0 + a), u32 (s1 + b), u32 (s2 + c), u32 (s3 + d), u32 (s4 + e)).

(** ** The generator of FIPS 186-2 *)
Definition SHA1_INIT : Words := (0x67452301, 0xefcdab89, 0x98badcfe, 0x10325476, 0xc3d2e1f0).
Definition words_bytes (s : Words) : list Z :=
  let '(a, b, c, d, e) := s in be_bytes 4 a ++ be_bytes 4 b ++ be_bytes 4 c ++ be_bytes 4 d ++ be_bytes 4 e.

(** [carry] is a [u16]; the index runs from the last byte to the first. *)
Definition add_byte (s : list Z * Z) (w : list Z) (index : nat) : list Z * Z :=
  let '(xkey, carry) := s in
  let carry := u16 (carry + (xkey !!! index + w !!! index)) in
  (<[index := Z.land carry 0xff]> xkey, Z.shiftr carry 8).
Definition add_one_and_w (xkey w : list Z) : list Z :=
  (foldl (λ s index, add_byte s w index) (xkey, 1) (rev (seq 0 20))).1.

(** The body of the inner loop, then the inner and the outer loop. *)
Definition prf_step (out_len : nat) (s : list Z * list Z) : list Z * list Z :=
  let '(xkey, output) := s in
  let w := words_bytes (sha1_compress SHA1_INIT xkey) in
  let remaining := (out_len - length output)%nat in
  let output := output ++ take (Nat.min remaining (length w)) w in
  (add_one_and_w (take 20 xkey) w ++ drop 20 xkey, output).
Fixpoint prf_for (n out_len : nat) (s : list Z * list Z) : list Z * list Z :=
  match n with
  | O => s
  | S n =>
    let s := prf_step out_len s in
    if (out_len <=? length s.2)%nat then s else prf_for n out_len s
  end.
Fixpoint prf_while (fuel out_len : nat) (s : list Z * list Z) : option (list Z) :=
  match fuel with
  | O => None
  | S fuel => if (length s.2 <? out_len)%nat then prf_while fuel out_len (prf_for 2 out_len s) else Some s.2
  end.
Definition fips186_2_prf {E} (seed : list Z) (out_len : nat) : res E (list Z) :=
  let seed_len := Nat.min (length seed) 64 in
  let xkey := take seed_len seed ++ replicate (64 - seed_len) 0 in
  match prf_while (S out_len) out_len (xkey, []) with
  | Some output => Ok output
  | None => Panic
  end.

Section digests.
Context (sha1 : list Z → list Z) (hmac_sha1 : list Z → list Z → list Z).

Definition derive_key_material (identity ik ck : list Z) : res EapAkaProtocolError EapAkaKeyMaterial :=
  let mk := sha1 (identity ++ ik ++ ck) in
  key_stream ← fips186_2_prf mk KEY_STREAM_LEN;
  k_aut ← slice key_stream K_ENCR_LEN (K_ENCR_LEN + K_AUT_LEN);
  msk ← slice key_stream (K_ENCR_LEN + K_AUT_LEN) (K_ENCR_LEN + K_AUT_LEN + 64);
  Ok (mkKeys k_aut msk).

Definition calculate_mac (k_aut packet extra : list Z) : res EapAkaProtocolError (list Z) :=
  slice (hmac_sha1 k_aut (packet ++ extra)) 0 MAC_LEN.

Definition verify_challenge_mac (challenge : EapAkaChallenge) (keys : EapAkaKeyMaterial)
    : res EapAkaProtocolError unit :=
  offset ← ok_or MissingMac (ch_mac_offset challenge);
  let end_ := (offset + MAC_LEN)%nat in
  fail_if (length (ch_packet challenge) <? end_)%nat InvalidAttributeLength;;
  received ← slice (ch_packet challenge) offset end_;
  canonical ← copy_at (ch_packet challenge) offset end_ (replicate MAC_LEN 0);
  expected ← calculate_mac (k_aut keys) canonical [];
  let difference := foldl (λ difference '(l, r), Z.lor difference (Z.lxor l r)) 0
    (zip received expected) in
  if difference =? 0 then Ok tt else Err InvalidMac.

Definition build_challenge_response (challenge : EapAkaChallenge) (identity : str) (aka : UsimAkaApduResult)
    : res EapAkaProtocolError EapAkaResponsePacket :=
  fail_if (negb (ch_mac_present challenge)) MissingMac;;
  fail_if (bool_decide (u_res aka = []) || negb (length (u_ck aka) =? 16)%nat
           || negb (length (u_ik aka) =? 16)%nat || bool_decide (is_Some (u_auts aka))) InvalidAkaResult;;
  keys ← derive_key_material (utf8_encode identity) (u_ik aka) (u_ck aka);
  verify_challenge_mac challenge keys;;
  attributes ← push_at_res [] (u_res aka);
  attributes ← (if ch_result_indication challenge then push_attribute attributes AT_RESULT_IND [0; 0]
                else Ok attributes);
  let mac_offset := (length attributes + EAP_AKA_HEADER_LEN + 4)%nat in
  attributes ← push_attribute attributes AT_MAC (replicate 18 0);
  packet ← build_eap_packet EAP_CODE_RESPONSE (ch_identifier challenge) EAP_AKA_SUBTYPE_CHALLENGE attributes;
  mac ← calculate_mac (k_aut keys) packet [];
  packet ← copy_at packet mac_offset (mac_offset + MAC_LEN) mac;
  Ok (mkResponse packet (Some keys)).

Definition build_notification_response (notification : EapAkaNotification) (keys : EapAkaKeyMaterial)
    : res EapAkaProtocolError EapAkaResponsePacket :=
  '(attributes, mac_offset) ← (if n_mac_required notification then
      attributes ← push_attribute [] AT_MAC (replicate 18 0);
      Ok (attributes, Some (0 + EAP_AKA_HEADER_LEN + 4)%nat)
    else Ok ([], None));
  packet ← build_eap_packet EAP_CODE_RESPONSE (n_identifier notification) EAP_AKA_SUBTYPE_NOTIFICATION attributes;
  packet ← (match mac_offset with
    | Some offset =>
      mac ← calculate_mac (k_aut keys) packet [];
      copy_at packet offset (offset + MAC_LEN) mac
    | None => Ok packet
    end);
  Ok (mkResponse packet (Some keys)).

Definition notification_response (r : EapAkaResponsePacket) (request_packet : list Z)
    : res EapAkaProtocolError EapAkaResponsePacket :=
  notification ← parse_notification request_packet;
  keys ← ok_or MissingKeyMaterial (key_material r);
  build_notification_response notification keys.
Definition identity_response (r : EapAkaResponsePacket) (request_packet : list Z) (identity : str)
    : res EapAkaProtocolError EapAkaResponsePacket :=
  request ← parse_identity_request request_packet;
  build_identity_response request identity (key_material r).
Definition msk_for_ike_auth (r : EapAkaResponsePacket) : option (list Z) := msk <$> key_material r.
End digests.

(** SHA-1 of nothing: one padded block. *)
Example sha1_of_nothing : words_bytes (sha1_compress SHA1_INIT (0x80 :: replicate 63 0))
  = [0xda; 0x39; 0xa3; 0xee; 0x5e; 0x6b; 0x4b; 0x0d; 0x32; 0x55; 0xbf; 0xef; 0x95; 0x60; 0x18; 0x90;
     0xaf; 0xd8; 0x07; 0x09].
Proof. vm_compute. reflexivity. Qed.

(** ** The reference generator

    FIPS 186-2, appendix 3.1 with change notice 1: [XKEY] is a number below
    [2 ^ 160], a block is [G (XKEY)] and the next number is
    [(1 + XKEY + block) mod 2 ^ 160]. *)
Definition fips_block (x : Z) : list Z :=
  words_bytes (sha1_compress SHA1_INIT (be_bytes 20 x ++ replicate 44 0)).
Definition fips_next (x : Z) : Z := (1 + x + of_be_bytes (fips_block x)) mod 2 ^ 160.
Fixpoint fips_stream (n : nat) (x : Z) : list Z :=
  match n with O => [] | S n => fips_block x ++ fips_stream n (fips_next x) end.

Lemma length_words_bytes s : length (words_bytes s) = 20%nat.
Proof. destruct s as [[[[a b] c] d] e]. cbn [words_bytes]. by rewrite !length_app, !length_be_bytes. Qed.
Lemma bytes_ok_words s : bytes_ok (words_bytes s).
Proof.
  destruct s as [[[[a b] c] d] e]. cbn [words_bytes]. rewrite !bytes_ok_app.
  split_and!; apply bytes_ok_be_bytes.
Qed.
Lemma fips_block_eq x :
  fips_block x = words_bytes (sha1_compress SHA1_INIT (be_bytes 20 x ++ replicate 44 0)).
Proof. reflexivity. Qed.
Lemma fips_next_eq x : fips_next x = (1 + x + of_be_bytes (fips_block x)) mod 2 ^ 160.
Proof. reflexivity. Qed.
Lemma length_fips_block x : length (fips_block x) = 20%nat.
Proof. apply length_words_bytes. Qed.
Lemma bytes_ok_fips_block x : bytes_ok (fips_block x).
Proof. apply bytes_ok_words. Qed.
#[global] Opaque sha1_compress fips_block fips_next.

Lemma length_fips_stream n x : length (fips_stream n x) = (20 * n)%nat.
Proof.
  revert x. induction n as [|n IH]; intros x; [done|]. cbn [fips_stream]. rewrite length_app, IH.
  rewrite length_fips_block. lia.
Qed.
Lemma fips_stream_snoc n x :
  fips_stream (S n) x = fips_stream n x ++ fips_block (Nat.iter n fips_next x).
Proof.
  revert x. induction n as [|n IH]; intros x; [cbn [fips_stream Nat.iter nat_rect app]; by rewrite app_nil_r|].
  cbn [fips_stream] in *. rewrite IH, <-app_assoc. do 2 f_equal. by rewrite Nat.iter_succ_r.
Qed.
Lemma fips_stream_prefix n m x : fips_stream n x `prefix_of` fips_stream (n + m) x.
Proof.
  induction m as [|m IH]; [by rewrite Nat.add_0_r|]. rewrite Nat.add_succ_r, fips_stream_snoc.
  by apply prefix_app_r.
Qed.
Lemma take_fips_stream n m k x : (n ≤ 20 * m)%nat → (m ≤ k)%nat →
  take n (fips_stream m x) = take n (fips_stream k x).
Proof.
  intros Hn Hk. destruct (fips_stream_prefix m (k - m) x) as [t Ht].
  replace (m + (k - m))%nat with k in Ht by lia. rewrite Ht, take_app_le; [done|].
  rewrite length_fips_stream. lia.
Qed.

(** Adding byte by byte from the end is adding numbers. *)
Lemma add_bytes_spec w n : ∀ x c, (n ≤ length x)%nat → (n ≤ length w)%nat → bytes_ok x → bytes_ok w →
  0 ≤ c ≤ 1 →
  (foldl (λ s index, add_byte s w index) (x, c) (rev (seq 0 n))).1
  = be_bytes n (c + of_be_bytes (take n x) + of_be_bytes (take n w)) ++ drop n x.
Proof.
  induction n as [|n IH]; intros x c Hx Hw Hbx Hbw Hc; [by rewrite drop_0|].
  rewrite seq_S, rev_app_distr. cbn [rev app foldl add_byte Nat.add].
  destruct (lookup_lt_is_Some_2 x n) as [a Ha]; [lia|]. destruct (lookup_lt_is_Some_2 w n) as [b Hb]; [lia|].
  rewrite (list_lookup_total_correct _ _ _ Ha), (list_lookup_total_correct _ _ _ Hb).
  pose proof (bytes_ok_lookup _ _ _ Hbx Ha) as Ra. pose proof (bytes_ok_lookup _ _ _ Hbw Hb) as Rb.
  unfold is_byte in Ra, Rb. set (v := c + (a + b)).
  rewrite (wrap_small 16 v) by (unfold v; change (2 ^ 16) with 65536; lia).
  rewrite Z.shiftr_div_pow2 by lia. change 0xff with (Z.ones 8). rewrite Z.land_ones by lia.
  change (2 ^ 8) with 256.
  assert (0 ≤ v / 256 ≤ 1) as Hcarry.
  { unfold v. split; [apply Z.div_pos; lia|]. assert ((c + (a + b)) / 256 < 2) by (apply Z.div_lt_upper_bound; lia). lia. }
  rewrite IH; [|rewrite length_insert; lia|lia| |done|done].
  2:{ apply Forall_insert; [done|]. unfold is_byte. apply Z.mod_pos_bound. lia. }
  rewrite take_insert_ge by lia. rewrite (drop_S _ (v mod 256) n) by (apply list_lookup_insert_eq; lia).
  rewrite drop_insert_lt, be_bytes_S by lia. change (?l ++ ?y :: ?k) with (l ++ [y] ++ k).
  rewrite app_assoc. rewrite (take_S_r _ _ _ Ha), (take_S_r _ _ _ Hb), !of_be_bytes_snoc.
  replace (c + (of_be_bytes (take n x) * 256 + a) + (of_be_bytes (take n w) * 256 + b))
    with ((of_be_bytes (take n x) + of_be_bytes (take n w)) * 256 + v) by (unfold v; lia).
  rewrite Z.div_add_l by lia. rewrite (Z.add_comm (_ * 256) v), Z.mod_add by lia.
  replace (v / 256 + of_be_bytes (take n x) + of_be_bytes (take n w))
    with (of_be_bytes (take n x) + of_be_bytes (take n w) + v / 256) by lia. done.
Qed.

Lemma add_one_and_w_spec x : 0 ≤ x < 2 ^ 160 →
  add_one_and_w (be_bytes 20 x) (fips_block x) = be_bytes 20 (fips_next x).
Proof.
  intros Hx. unfold add_one_and_w.
  rewrite add_bytes_spec; rewrite ?length_be_bytes, ?length_fips_block;
    auto using bytes_ok_be_bytes, bytes_ok_fips_block; [|lia].
  rewrite !firstn_all2, drop_ge, app_nil_r by (rewrite ?length_be_bytes, ?length_fips_block; lia).
  change (2 ^ 160) with (256 ^ Z.of_nat 20) in Hx. rewrite of_be_bytes_be by done.
  rewrite fips_next_eq. change (2 ^ 160) with (256 ^ Z.of_nat 20). by rewrite be_bytes_mod.
Qed.
Lemma fips_next_range x : 0 ≤ fips_next x < 2 ^ 160.
Proof. rewrite fips_next_eq. by apply Z.mod_pos_bound. Qed.

(** The states of the loop. *)
Definition prf_state (out_len k : nat) (x : Z) : list Z * list Z :=
  (be_bytes 20 (Nat.iter k fips_next x) ++ replicate 44 0, take out_len (fips_stream k x)).
Lemma iter_fips_range k x : 0 ≤ x < 2 ^ 160 → 0 ≤ Nat.iter k fips_next x < 2 ^ 160.
Proof. intros Hx. destruct k as [|k]; [done|]. apply fips_next_range. Qed.
Lemma prf_step_spec out_len k x : 0 ≤ x < 2 ^ 160 →
  prf_step out_len (prf_state out_len k x) = prf_state out_len (S k) x.
Proof.
  intros Hx. unfold prf_step, prf_state. set (y := Nat.iter k fips_next x).
  rewrite <-(fips_block_eq y). rewrite take_app_le, drop_app_ge by (rewrite length_be_bytes; lia).
  rewrite length_be_bytes, Nat.sub_diag, drop_0, take_ge by (rewrite length_be_bytes; lia).
  rewrite add_one_and_w_spec by (by apply iter_fips_range). f_equal.
  rewrite fips_stream_snoc, take_app. fold y. f_equal.
  rewrite length_take, length_fips_block, length_fips_stream.
  destruct (Nat.le_gt_cases (out_len - 20 * k) 20).
  - f_equal. lia.
  - rewrite !take_ge; [done|rewrite length_fips_block; lia..].
Qed.
Lemma length_prf_state out_len k x : length (prf_state out_len k x).2 = Nat.min out_len (20 * k).
Proof. cbn [prf_state snd]. by rewrite length_take, length_fips_stream. Qed.

Lemma prf_while_spec out_len x : 0 ≤ x < 2 ^ 160 → ∀ fuel k, (out_len - 20 * k < fuel)%nat →
  ∃ m, (out_len ≤ 20 * m)%nat ∧
    prf_while fuel out_len (prf_state out_len k x) = Some (take out_len (fips_stream m x)).
Proof.
  intros Hx. induction fuel as [|fuel IH]; intros k Hf; [lia|]. cbn [prf_while].
  rewrite length_prf_state. destruct (Nat.ltb_spec (Nat.min out_len (20 * k)) out_len) as [Hlt|Hge].
  - cbn [prf_for]. rewrite !prf_step_spec, !length_prf_state by done.
    destruct (Nat.leb_spec out_len (Nat.min out_len (20 * S k))); [apply IH; lia|].
    destruct (Nat.leb_spec out_len (Nat.min out_len (20 * S (S k)))); apply IH; lia.
  - exists k. split; [lia|done].
Qed.

Lemma fips186_2_prf_spec {E} seed out_len : bytes_ok seed → length seed = 20%nat →
  fips186_2_prf (E:=E) seed out_len = Ok (take out_len (fips_stream out_len (of_be_bytes seed))).
Proof.
  intros Hb Hl. unfold fips186_2_prf. rewrite Hl. cbn [Nat.min Nat.sub].
  rewrite take_ge by lia. set (x := of_be_bytes seed).
  assert (0 ≤ x < 2 ^ 160) as Hx.
  { pose proof (of_be_bytes_range seed Hb) as R. rewrite Hl in R. exact R. }
  assert ((seed ++ replicate 44 0, []) = prf_state out_len 0 x) as ->.
  { unfold prf_state. cbn [Nat.iter nat_rect fips_stream]. rewrite take_nil. unfold x.
    by rewrite be_bytes_of'. }
  destruct (prf_while_spec out_len x Hx (S out_len) 0 ltac:(lia)) as (m & Hm & ->). f_equal.
  destruct (Nat.le_gt_cases m out_len).
  - by apply take_fips_stream.
  - symmetry. apply take_fips_stream; lia.
Qed.

#[global] Opaque fips186_2_prf fips_stream.

(** ** Attributes *)
Definition pad_len (value : list Z) : nat := ((4 - (2 + length value) mod 4) mod 4)%nat.
Definition attr_units (value : list Z) : nat := ((2 + length value + pad_len value) / 4)%nat.
Definition attr_bytes (t : Z) (value : list Z) : list Z :=
  [t; Z.of_nat (attr_units value)] ++ value ++ replicate (pad_len value) 0.
(** The attribute as the reader sees it: padding is part of the value. *)
Definition padded_attribute (t : Z) (value : list Z) : EapAkaAttribute :=
  mkAttribute t (value ++ replicate (pad_len value) 0).

Lemma attr_units_spec value : (4 * attr_units value = 2 + length value + pad_len value ∧ 1 ≤ attr_units value)%nat.
Proof.
  unfold attr_units, pad_len. set (n := (2 + length value)%nat).
  pose proof (Nat.div_mod n 4 ltac:(lia)). pose proof (Nat.mod_upper_bound n 4 ltac:(lia)).
  assert ((n + (4 - n mod 4) mod 4) mod 4 = 0)%nat as Hmod.
  { destruct (Nat.eq_dec (n mod 4)%nat 0%nat) as [E|E].
    - rewrite E. change ((4 - 0) mod 4)%nat with 0%nat. by rewrite Nat.add_0_r.
    - rewrite (Nat.mod_small (4 - n mod 4)%nat) by lia.
      replace (n + (4 - n mod 4))%nat with ((n / 4 + 1) * 4)%nat by lia. apply Nat.Div0.mod_mul. }
  pose proof (Nat.div_mod (n + (4 - n mod 4) mod 4)%nat 4 ltac:(lia)). lia.
Qed.
Lemma length_attr_bytes t value : length (attr_bytes t value) = (4 * attr_units value)%nat.
Proof.
  destruct (attr_units_spec value) as [-> _]. unfold attr_bytes.
  rewrite !length_app, length_replicate. simpl. lia.
Qed.
Lemma push_attribute_spec out t value : push_attribute out t value
  = if (255 <? attr_units value)%nat then Err PacketTooLarge else Ok (out ++ attr_bytes t value).
Proof.
  unfold push_attribute. fold (pad_len value). fold (attr_units value). unfold u8_max.
  destruct (Nat.ltb_spec 255 (attr_units value)).
  - by rewrite (proj2 (Z.ltb_lt _ _)) by lia.
  - by rewrite (proj2 (Z.ltb_ge _ _)) by lia.
Qed.

Lemma parse_attributes_step fuel t value tail : (attr_units value ≤ 255)%nat →
  parse_attributes (S fuel) (attr_bytes t value ++ tail)
  = (rest ← parse_attributes fuel tail; Ok (padded_attribute t value :: rest)).
Proof.
  intros Hu. destruct (attr_units_spec value) as [H4 H1].
  pose proof (length_attr_bytes t value) as Hl. set (w := attr_bytes t value ++ tail).
  assert (length w = 4 * attr_units value + length tail)%nat as Hw by (unfold w; rewrite length_app; lia).
  cbn [parse_attributes]. rewrite bool_decide_eq_false_2 by done.
  rewrite (proj2 (Nat.ltb_ge _ 4)) by lia. cbn [fail_if mbind res_bind].
  change (idx w 1) with (Ok (E:=EapAkaProtocolError) (Z.of_nat (attr_units value))). cbn [mbind res_bind].
  rewrite (proj2 (Z.eqb_neq _ 0)) by lia. cbn [fail_if mbind res_bind]. rewrite Nat2Z.id.
  rewrite (proj2 (Nat.ltb_ge _ (_ * 4))) by lia. cbn [fail_if mbind res_bind].
  change (idx w 0) with (Ok (E:=EapAkaProtocolError) t). cbn [mbind res_bind].
  assert (w = [t; Z.of_nat (attr_units value)] ++ (value ++ replicate (pad_len value) 0) ++ tail) as Hsplit
    by (unfold w, attr_bytes; by rewrite <-app_assoc).
  rewrite Hsplit at 1. rewrite slice_app by (rewrite ?length_app, ?length_replicate; simpl; lia).
  cbn [mbind res_bind]. unfold w, slice_from. rewrite get_from_app by lia. done.
Qed.
Lemma parse_attributes_nil fuel : (0 < fuel)%nat → parse_attributes fuel [] = Ok [].
Proof. by destruct fuel; [lia|]. Qed.

(** A chain of attributes. *)
Definition attrs_bytes (l : list (Z * list Z)) : list Z := l ≫= λ '(t, v), attr_bytes t v.
Definition attrs_fit (l : list (Z * list Z)) : Prop := Forall (λ '(_, v), attr_units v ≤ 255)%nat l.
Lemma attrs_bytes_cons t v l : attrs_bytes ((t, v) :: l) = attr_bytes t v ++ attrs_bytes l.
Proof. done. Qed.
Lemma attrs_bytes_app l k : attrs_bytes (l ++ k) = attrs_bytes l ++ attrs_bytes k.
Proof. apply bind_app. Qed.
Lemma length_attrs l : (length l ≤ length (attrs_bytes l))%nat.
Proof.
  induction l as [|[t v] l IH]; [done|]. rewrite attrs_bytes_cons, length_app, length_attr_bytes.
  destruct (attr_units_spec v). simpl. lia.
Qed.
Lemma parse_attrs_bytes l : ∀ fuel, attrs_fit l → (length l < fuel)%nat →
  parse_attributes fuel (attrs_bytes l) = Ok ((λ '(t, v), padded_attribute t v) <$> l).
Proof.
  induction l as [|[t v] l IH]; intros [|fuel] Hl Hf; simpl in Hf; try lia; [done|].
  apply Forall_cons in Hl as [Hv Hl]. rewrite attrs_bytes_cons, parse_attributes_step by done.
  by rewrite IH by (done || lia).
Qed.

(** ** Packets *)
Definition packet_bytes (code identifier subtype : Z) (attrs : list Z) : list Z :=
  [code; identifier] ++ be_bytes 2 (Z.of_nat (EAP_AKA_HEADER_LEN + length attrs))
  ++ [EAP_TYPE_AKA; subtype; 0; 0] ++ attrs.
Lemma build_eap_packet_spec code identifier subtype attrs :
  build_eap_packet code identifier subtype attrs
  = if u16_max <? Z.of_nat (EAP_AKA_HEADER_LEN + length attrs) then Err PacketTooLarge
    else Ok (packet_bytes code identifier subtype attrs).
Proof. unfold build_eap_packet, fail_if. by destruct (u16_max <? _). Qed.
Lemma length_packet_bytes code identifier subtype attrs :
  length (packet_bytes code identifier subtype attrs) = (EAP_AKA_HEADER_LEN + length attrs)%nat.
Proof. unfold packet_bytes. rewrite !length_app, length_be_bytes. done. Qed.

Lemma check_packet_bytes code identifier subtype attrs :
  Z.of_nat (EAP_AKA_HEADER_LEN + length attrs) ≤ u16_max →
  check_packet (packet_bytes code identifier subtype attrs) subtype = Ok tt ∧
  (∀ E, idx (E:=E) (packet_bytes code identifier subtype attrs) 1 = Ok identifier) ∧
  attributes_of (packet_bytes code identifier subtype attrs) = parse_attributes (S (length attrs)) attrs.
Proof.
  intros Hlen. pose proof (length_packet_bytes code identifier subtype attrs) as Hl. unfold u16_max in Hlen.
  set (n := (EAP_AKA_HEADER_LEN + length attrs)%nat) in *. split; [|split; [done|]].
  - unfold check_packet. rewrite Hl, (proj2 (Nat.ltb_ge _ _)) by (unfold n; lia). cbn [fail_if mbind res_bind].
    unfold packet_bytes. fold n. rewrite be_bytes_2. cbn [app].
    match goal with |- context [idx ?l 2] => set (w := l) end.
    change (idx w 2) with (Ok (E:=EapAkaProtocolError) ((Z.of_nat n / 256) mod 256)).
    change (idx w 3) with (Ok (E:=EapAkaProtocolError) (Z.of_nat n mod 256)).
    cbn [mbind res_bind]. rewrite of_be_bytes_2, Nat2Z.id, Nat.eqb_refl by lia. cbn [negb fail_if mbind res_bind].
    change (idx w 4) with (Ok (E:=EapAkaProtocolError) EAP_TYPE_AKA).
    change (idx w 5) with (Ok (E:=EapAkaProtocolError) subtype). cbn [mbind res_bind].
    by rewrite !Z.eqb_refl.
  - unfold attributes_of, slice_from. change (packet_bytes code identifier subtype attrs) with
      (([code; identifier] ++ be_bytes 2 (Z.of_nat n) ++ [EAP_TYPE_AKA; subtype; 0; 0]) ++ attrs).
    by rewrite get_from_app.
Qed.

Lemma copy_at_middle {E} (p old new s : list Z) a b : a = length p → b = (a + length old)%nat →
  length new = length old → copy_at (E:=E) (p ++ old ++ s) a b new = Ok (p ++ new ++ s).
Proof.
  intros -> -> Hl. unfold copy_at. rewrite !length_app.
  rewrite (proj2 (Nat.leb_le _ (_ + length old))), (proj2 (Nat.leb_le (_ + _) _)) by lia.
  rewrite (proj2 (Nat.eqb_eq _ _)) by lia. cbn [andb]. f_equal.
  rewrite take_app_le, take_ge by lia. do 2 f_equal.
  rewrite app_assoc, drop_app_ge by (rewrite length_app; lia).
  by rewrite length_app, Nat.sub_diag, drop_0.
Qed.

(** ** Keys and codes *)
Section laws.
Context (sha1 : list Z → list Z) (hmac_sha1 : list Z → list Z → list Z).
(** Both digests are twenty bytes. *)
Definition sha1_laws : Prop :=
  (∀ x, length (sha1 x) = 20%nat ∧ bytes_ok (sha1 x)) ∧ ∀ k x, length (hmac_sha1 k x) = 20%nat.
Hypothesis (Hlaws : sha1_laws).

(** RFC 4187, section 7: [MK = SHA1 (Identity | IK | CK)], and the key stream [K_encr],
    [K_aut], [MSK], [EMSK] is eight blocks of the generator on [MK]. *)
Definition eap_stream (identity ik ck : list Z) : list Z :=
  fips_stream 8 (of_be_bytes (sha1 (identity ++ ik ++ ck))).
Definition eap_keys (identity ik ck : list Z) : EapAkaKeyMaterial :=
  mkKeys (take 16 (drop 16 (eap_stream identity ik ck))) (take 64 (drop 32 (eap_stream identity ik ck))).
Lemma length_eap_stream identity ik ck : length (eap_stream identity ik ck) = 160%nat.
Proof. apply (length_fips_stream 8). Qed.
Lemma length_k_aut identity ik ck : length (k_aut (eap_keys identity ik ck)) = 16%nat.
Proof. unfold eap_keys; cbn [k_aut]. rewrite length_take, length_drop, length_eap_stream. lia. Qed.

Lemma key_stream_blocks x n : n = 160%nat → take n (fips_stream n x) = fips_stream 8 x.
Proof.
  intros ->. transitivity (take 160 (fips_stream 8 x)).
  - symmetry. apply take_fips_stream; lia.
  - apply firstn_all2. rewrite length_fips_stream. lia.
Qed.
Lemma eap_key_stream identity ik ck :
  fips186_2_prf (E:=EapAkaProtocolError) (sha1 (identity ++ ik ++ ck)) KEY_STREAM_LEN
  = Ok (eap_stream identity ik ck).
Proof.
  destruct Hlaws as [Hs _]. destruct (Hs (identity ++ ik ++ ck)) as [Hl Hb].
  rewrite fips186_2_prf_spec by done. by rewrite key_stream_blocks.
Qed.
Lemma derive_key_material_spec identity ik ck :
  derive_key_material sha1 identity ik ck = Ok (eap_keys identity ik ck).
Proof.
  unfold derive_key_material. rewrite eap_key_stream, bind_ok. unfold eap_keys.
  pose proof (length_eap_stream identity ik ck) as Hlen.
  generalize dependent (eap_stream identity ik ck). intros st Hlen.
  assert (slice (E:=EapAkaProtocolError) st K_ENCR_LEN (K_ENCR_LEN + K_AUT_LEN) = Ok (take 16 (drop 16 st))) as ->.
  { apply slice_Ok. unfold K_ENCR_LEN, K_AUT_LEN. split_and!; [lia|lia|done]. }
  rewrite bind_ok.
  assert (slice (E:=EapAkaProtocolError) st (K_ENCR_LEN + K_AUT_LEN) (K_ENCR_LEN + K_AUT_LEN + 64)
    = Ok (take 64 (drop 32 st))) as ->.
  { apply slice_Ok. unfold K_ENCR_LEN, K_AUT_LEN. split_and!; [lia|lia|done]. }
  by rewrite bind_ok.
Qed.

(** The code of a packet, and the packet with its code blanked. *)
Definition mac_of (key packet : list Z) : list Z := take 16 (hmac_sha1 key packet).
Definition blanked (packet : list Z) (offset : nat) : list Z :=
  take offset packet ++ replicate 16 0 ++ drop (offset + 16) packet.
Lemma length_mac_of key p : length (mac_of key p) = 16%nat.
Proof. unfold mac_of. destruct Hlaws as [_ Hh]. rewrite length_take, Hh. done. Qed.
Lemma calculate_mac_spec key p : calculate_mac hmac_sha1 key p [] = Ok (mac_of key p).
Proof.
  unfold calculate_mac, MAC_LEN, mac_of. rewrite app_nil_r. destruct Hlaws as [_ Hh].
  apply slice_Ok. rewrite Hh, drop_0. split_and!; [lia..|done].
Qed.

Lemma copy_at_Ok {E} p a b s : (a ≤ b)%nat → (b ≤ length p)%nat → length s = (b - a)%nat →
  copy_at (E:=E) p a b s = Ok (take a p ++ s ++ drop b p).
Proof.
  intros H1 H2 H3. unfold copy_at.
  by rewrite (proj2 (Nat.leb_le _ _) H1), (proj2 (Nat.leb_le _ _) H2), (proj2 (Nat.eqb_eq _ _) H3).
Qed.
Lemma verify_challenge_mac_spec c keys off : ch_mac_offset c = Some off →
  (off + 16 ≤ length (ch_packet c))%nat →
  verify_challenge_mac hmac_sha1 c keys
  = if decide (take 16 (drop off (ch_packet c)) = mac_of (k_aut keys) (blanked (ch_packet c) off))
    then Ok tt else Err InvalidMac.
Proof.
  intros Ho Hl. unfold verify_challenge_mac, MAC_LEN. rewrite Ho. cbn [ok_or mbind res_bind].
  rewrite (proj2 (Nat.ltb_ge _ _)) by lia. cbn [fail_if mbind res_bind].
  assert (slice (E:=EapAkaProtocolError) (ch_packet c) off (off + 16) = Ok (take 16 (drop off (ch_packet c)))) as ->.
  { apply slice_Ok. split_and!; [lia|lia|]. f_equal. lia. }
  cbn [mbind res_bind]. rewrite copy_at_Ok by (rewrite ?length_replicate; lia). cbn [mbind res_bind].
  rewrite calculate_mac_spec. cbn [mbind res_bind]. fold (blanked (ch_packet c) off).
  assert (length (take 16 (drop off (ch_packet c))) = length (mac_of (k_aut keys) (blanked (ch_packet c) off))) as Hlen.
  { rewrite length_mac_of, length_take, length_drop. lia. }
  pose proof (fold_mismatch_zero _ _ Hlen) as Hz.
  destruct (decide _) as [E|E].
  - by rewrite (proj2 (Z.eqb_eq _ _) (proj2 Hz E)).
  - by rewrite (proj2 (Z.eqb_neq _ _) (λ H, E (proj1 Hz H))).
Qed.

(** ** The answer to a challenge *)
Definition result_attrs (result : bool) : list (Z * list Z) :=
  if result then [(AT_RESULT_IND, [0; 0])] else [].
Definition response_attrs (aka : UsimAkaApduResult) (result : bool) (mac : list Z) : list (Z * list Z) :=
  (AT_RES, be_bytes 2 (Z.of_nat (length (u_res aka)) * 8) ++ u_res aka)
  :: result_attrs result ++ [(AT_MAC, [0; 0] ++ mac)].
Definition response_packet (identifier : Z) (aka : UsimAkaApduResult) (result : bool) (mac : list Z) : list Z :=
  packet_bytes EAP_CODE_RESPONSE identifier EAP_AKA_SUBTYPE_CHALLENGE (attrs_bytes (response_attrs aka result mac)).

Lemma mac_attr_bytes mac : length mac = 16%nat → attr_bytes AT_MAC ([0; 0] ++ mac) = [AT_MAC; 5; 0; 0] ++ mac ∧
  attr_units ([0; 0] ++ mac) = 5%nat.
Proof.
  intros Hm. assert (length ([0; 0] ++ mac) = 18%nat) as Hl by (rewrite length_app; simpl; lia).
  unfold attr_bytes, attr_units, pad_len. rewrite Hl. cbn. by rewrite app_nil_r.
Qed.
Lemma response_attrs_fit aka result mac : (length (u_res aka) ≤ 128)%nat → length mac = 16%nat →
  attrs_fit (response_attrs aka result mac) ∧
  Z.of_nat (EAP_AKA_HEADER_LEN + length (attrs_bytes (response_attrs aka result mac))) ≤ u16_max.
Proof.
  intros Hr Hm. destruct (mac_attr_bytes mac Hm) as [Hb Hu].
  set (v := be_bytes 2 (Z.of_nat (length (u_res aka)) * 8) ++ u_res aka).
  assert (length v ≤ 130)%nat as Hv by (unfold v; rewrite length_app, length_be_bytes; lia).
  destruct (attr_units_spec v) as [H4 _].
  assert (pad_len v < 4)%nat as Hp by (unfold pad_len; apply Nat.mod_upper_bound; lia).
  assert (attr_units v ≤ 34)%nat by lia.
  unfold response_attrs. fold v. split.
  - apply Forall_cons; split; [cbn; lia|]. apply Forall_app; split.
    + destruct result; [|constructor]. apply Forall_singleton. by apply (bool_decide_unpack _).
    + apply Forall_singleton. cbn beta iota. rewrite Hu. lia.
  - rewrite attrs_bytes_cons, attrs_bytes_app, !length_app, length_attr_bytes, attrs_bytes_cons, length_app,
      length_attr_bytes, Hu. unfold EAP_AKA_HEADER_LEN, u16_max.
    assert (length (attrs_bytes (result_attrs result)) ≤ 4)%nat
      by (destruct result; vm_compute; lia).
    change (length (attrs_bytes [])) with 0%nat. lia.
Qed.

(** The place of the code in the answer: the last sixteen bytes. *)
Lemma response_packet_split identifier aka result : ∃ p : list Z,
  (length p + 16)%nat = (EAP_AKA_HEADER_LEN + length (attrs_bytes (response_attrs aka result (replicate 16 0%Z))))%nat ∧
  ∀ m, length m = 16%nat →
    response_packet identifier aka result m = p ++ m.
Proof.
  set (z := replicate 16 0).
  set (pre := attrs_bytes ((AT_RES, be_bytes 2 (Z.of_nat (length (u_res aka)) * 8) ++ u_res aka)
    :: result_attrs result)).
  assert (∀ m, length m = 16%nat → attrs_bytes (response_attrs aka result m) = pre ++ [AT_MAC; 5; 0; 0] ++ m) as Hm.
  { intros m Hm. unfold response_attrs, pre. rewrite app_comm_cons, attrs_bytes_app, (attrs_bytes_cons AT_MAC).
    change (attrs_bytes []) with (@nil Z). by rewrite app_nil_r, (proj1 (mac_attr_bytes m Hm)). }
  set (n := (length pre + 20)%nat).
  exists ([EAP_CODE_RESPONSE; identifier] ++ be_bytes 2 (Z.of_nat (EAP_AKA_HEADER_LEN + n))
    ++ [EAP_TYPE_AKA; EAP_AKA_SUBTYPE_CHALLENGE; 0; 0] ++ pre ++ [AT_MAC; 5; 0; 0]). split.
  - rewrite Hm by done. rewrite !length_app, length_be_bytes. unfold EAP_AKA_HEADER_LEN, z.
    rewrite length_replicate. simpl. lia.
  - intros m Hlm. unfold response_packet, packet_bytes. rewrite Hm by done.
    rewrite !length_app, Hlm. cbn [length].
    replace (length pre + (4 + 16))%nat with n by (unfold n; lia).
    by rewrite <-!app_assoc.
Qed.

Definition aka_ok (aka : UsimAkaApduResult) : Prop :=
  u_res aka ≠ [] ∧ length (u_ck aka) = 16%nat ∧ length (u_ik aka) = 16%nat ∧ u_auts aka = None.
Lemma aka_guard aka : (bool_decide (u_res aka = []) || negb (length (u_ck aka) =? 16)%nat
  || negb (length (u_ik aka) =? 16)%nat || bool_decide (is_Some (u_auts aka))) = false ↔ aka_ok aka.
Proof.
  unfold aka_ok. rewrite !orb_false_iff, !negb_false_iff, !Nat.eqb_eq, !bool_decide_eq_false.
  rewrite <-eq_None_not_Some.
  tauto.
Qed.

(** Everything after the challenge's own code has been checked. *)
Lemma challenge_answer_spec c identity aka off :
  ch_mac_present c = true → ch_mac_offset c = Some off → (off + 16 ≤ length (ch_packet c))%nat → aka_ok aka →
  let keys := eap_keys (utf8_encode identity) (u_ik aka) (u_ck aka) in
  let answer := response_packet (ch_identifier c) aka (ch_result_indication c) in
  build_challenge_response sha1 hmac_sha1 c identity aka
  = if decide (take 16 (drop off (ch_packet c)) = mac_of (k_aut keys) (blanked (ch_packet c) off)) then
      if (128 <? length (u_res aka))%nat then Err PacketTooLarge
      else Ok (mkResponse (answer (mac_of (k_aut keys) (answer (replicate 16 0)))) (Some keys))
    else Err InvalidMac.
Proof.
  intros Hp Ho Hl Ha keys answer. unfold build_challenge_response. rewrite Hp. cbn [negb fail_if].
  rewrite bind_ok, (proj2 (aka_guard aka) Ha). cbn [fail_if]. rewrite bind_ok.
  rewrite derive_key_material_spec, bind_ok. fold keys.
  rewrite (verify_challenge_mac_spec c keys off Ho Hl). destruct (decide _) as [Hmac|]; [|done].
  rewrite bind_ok. unfold push_at_res.
  destruct (Nat.ltb_spec 128 (length (u_res aka))) as [|Hres]; [done|]. cbn [fail_if]. rewrite bind_ok.
  set (z := replicate 16 0). assert (length z = 16%nat) as Hz by apply length_replicate.
  destruct (response_attrs_fit aka (ch_result_indication c) z Hres Hz) as [Hfit Hsize].
  pose proof Hfit as Hfit'. unfold response_attrs in Hfit'. apply Forall_cons in Hfit' as [Hres_fit _].
  rewrite push_attribute_spec. rewrite (proj2 (Nat.ltb_ge 255 _)) by exact Hres_fit. rewrite bind_ok.
  set (r := attr_bytes AT_RES _).
  assert ((if ch_result_indication c then push_attribute ([] ++ r) AT_RESULT_IND [0; 0] else Ok ([] ++ r))
    = Ok (r ++ attrs_bytes (result_attrs (ch_result_indication c)))) as ->.
  { destruct (ch_result_indication c); [|by rewrite app_nil_r]. by rewrite push_attribute_spec. }
  rewrite bind_ok. set (pre := r ++ attrs_bytes _). rewrite push_attribute_spec.
  change (replicate 18 0) with ([0; 0] ++ z). destruct (mac_attr_bytes z Hz) as [Hm Hu]. rewrite Hu, Hm.
  cbn [Nat.ltb Nat.leb]. rewrite bind_ok.
  assert (pre ++ [AT_MAC; 5; 0; 0] ++ z = attrs_bytes (response_attrs aka (ch_result_indication c) z)) as Hattrs.
  { unfold response_attrs. rewrite app_comm_cons, attrs_bytes_app, (attrs_bytes_cons AT_MAC), Hm.
    change (attrs_bytes []) with (@nil Z). by rewrite app_nil_r, attrs_bytes_cons. }
  rewrite Hattrs, build_eap_packet_spec. rewrite (proj2 (Z.ltb_ge _ _) Hsize), bind_ok.
  change (packet_bytes _ _ _ _) with (answer z). rewrite calculate_mac_spec, bind_ok.
  destruct (response_packet_split (ch_identifier c) aka (ch_result_indication c)) as (p & Hpl & Hsplit).
  fold answer in Hsplit. set (mac := mac_of _ _). assert (length mac = 16%nat) as Hlm by apply length_mac_of.
  assert (copy_at (E:=EapAkaProtocolError) (answer z) (length pre + EAP_AKA_HEADER_LEN + 4)
    (length pre + EAP_AKA_HEADER_LEN + 4 + MAC_LEN) mac = Ok (p ++ mac)) as ->.
  { rewrite (Hsplit z Hz), <-(app_nil_r z), (copy_at_middle p z mac []); [by rewrite app_nil_r| | |by rewrite Hlm, Hz].
    - fold z in Hpl. rewrite <-Hattrs in Hpl. unfold EAP_AKA_HEADER_LEN in *.
      rewrite !length_app, Hz in Hpl. cbn [length] in Hpl. lia.
    - rewrite Hz. unfold MAC_LEN. lia. }
  by rewrite bind_ok, <-(Hsplit mac Hlm).
Qed.

(** The answer as the server reads it. *)
Lemma response_read identifier aka result mac : (length (u_res aka) ≤ 128)%nat → length mac = 16%nat →
  check_packet (response_packet identifier aka result mac) EAP_AKA_SUBTYPE_CHALLENGE = Ok tt ∧
  attributes_of (response_packet identifier aka result mac)
  = Ok ((λ '(t, v), padded_attribute t v) <$> response_attrs aka result mac).
Proof.
  intros Hr Hm. destruct (response_attrs_fit aka result mac Hr Hm) as [Hfit Hsize].
  destruct (check_packet_bytes EAP_CODE_RESPONSE identifier EAP_AKA_SUBTYPE_CHALLENGE _ Hsize) as (H1 & _ & H2).
  split; [exact H1|]. unfold response_packet. rewrite H2. apply parse_attrs_bytes; [done|].
  pose proof (length_attrs (response_attrs aka result mac)). lia.
Qed.

(** ** What a server sends *)
Definition challenge_attrs (rand autn : list Z) (result : bool) (mac : list Z) : list (Z * list Z) :=
  [(AT_RAND, [0; 0] ++ rand); (AT_AUTN, [0; 0] ++ autn)] ++ result_attrs result ++ [(AT_MAC, [0; 0] ++ mac)].
Definition challenge_packet (identifier : Z) (rand autn : list Z) (result : bool) (mac : list Z) : list Z :=
  packet_bytes 1 identifier EAP_AKA_SUBTYPE_CHALLENGE (attrs_bytes (challenge_attrs rand autn result mac)).

Lemma attr18 t v : length v = 16%nat → attr_units ([0; 0] ++ v) = 5%nat ∧
  padded_attribute t ([0; 0] ++ v) = mkAttribute t ([0; 0] ++ v) ∧
  attr_bytes t ([0; 0] ++ v) = [t; 5; 0; 0] ++ v.
Proof.
  intros Hv. assert (length ([0; 0] ++ v) = 18%nat) as Hl by (rewrite length_app; simpl; lia).
  unfold attr_bytes, padded_attribute, attr_units, pad_len. rewrite Hl. cbn. by rewrite app_nil_r.
Qed.
Lemma challenge_attrs_bytes rand autn result mac : length rand = 16%nat → length autn = 16%nat →
  length mac = 16%nat →
  attrs_bytes (challenge_attrs rand autn result mac)
  = (([AT_RAND; 5; 0; 0] ++ rand) ++ ([AT_AUTN; 5; 0; 0] ++ autn) ++ attrs_bytes (result_attrs result)
     ++ [AT_MAC; 5; 0; 0]) ++ mac.
Proof.
  intros Hr Ha Hm. unfold challenge_attrs. rewrite !attrs_bytes_app, !attrs_bytes_cons.
  change (attrs_bytes []) with (@nil Z).
  rewrite (proj2 (proj2 (attr18 AT_RAND rand Hr))), (proj2 (proj2 (attr18 AT_AUTN autn Ha))),
    (proj2 (proj2 (attr18 AT_MAC mac Hm))), !app_nil_r. by rewrite <-!app_assoc.
Qed.
Lemma seen_value v : length v = 16%nat → extract_reserved_prefixed_value ([0; 0] ++ v) 16 = Ok v ∧
  length ([0; 0] ++ v) = 18%nat.
Proof.
  intros Hv. assert (length ([0; 0] ++ v) = 18%nat) as Hl by (rewrite length_app, Hv; done). split; [|done].
  unfold extract_reserved_prefixed_value. rewrite Hl. cbn [Nat.add Nat.eqb negb fail_if]. rewrite bind_ok.
  apply slice_from_Ok. split; [rewrite Hl; lia|done].
Qed.
Lemma seen_rand v r a m i o mo : length v = 16%nat →
  seen_attribute (mkSeen r a m i o mo) (mkAttribute AT_RAND ([0; 0] ++ v)) = Ok (mkSeen (Some v) a m i (o + 20) mo).
Proof.
  intros Hv. destruct (seen_value v Hv) as [Hx Hl]. unfold seen_attribute, attribute_value, attribute_type.
  change (AT_RAND =? AT_RAND) with true. cbv iota zeta. by rewrite Hx, bind_ok, Hl.
Qed.
Lemma seen_autn v r a m i o mo : length v = 16%nat →
  seen_attribute (mkSeen r a m i o mo) (mkAttribute AT_AUTN ([0; 0] ++ v)) = Ok (mkSeen r (Some v) m i (o + 20) mo).
Proof.
  intros Hv. destruct (seen_value v Hv) as [Hx Hl]. unfold seen_attribute, attribute_value, attribute_type.
  change (AT_AUTN =? AT_RAND) with false. change (AT_AUTN =? AT_AUTN) with true. cbv iota zeta.
  by rewrite Hx, bind_ok, Hl.
Qed.
Lemma seen_mac v r a m i o mo : length v = 16%nat →
  seen_attribute (mkSeen r a m i o mo) (mkAttribute AT_MAC ([0; 0] ++ v))
  = Ok (mkSeen r a true i (o + 20) (Some (o + 4)%nat)).
Proof.
  intros Hv. destruct (seen_value v Hv) as [_ Hl]. unfold seen_attribute, attribute_value, attribute_type.
  change (AT_MAC =? AT_RAND) with false. change (AT_MAC =? AT_AUTN) with false.
  change (AT_MAC =? AT_MAC) with true. cbv iota zeta. by rewrite Hl.
Qed.
Lemma foldM_cons {E A B} (f : A → B → res E A) a b l : foldM f a (b :: l) = (a' ← f a b; foldM f a' l).
Proof. done. Qed.

Definition challenge_mac_offset (result : bool) : nat := if result then 56 else 52.
Lemma parse_challenge_packet identifier rand autn result mac : length rand = 16%nat → length autn = 16%nat →
  length mac = 16%nat →
  parse_challenge (challenge_packet identifier rand autn result mac)
  = Ok (mkChallenge identifier rand autn true result (challenge_packet identifier rand autn result mac)
      (Some (challenge_mac_offset result))).
Proof.
  intros Hr Ha Hm. pose proof (challenge_attrs_bytes rand autn result mac Hr Ha Hm) as Hb.
  assert (length (attrs_bytes (challenge_attrs rand autn result mac)) = 60 + length (attrs_bytes (result_attrs result)))%nat
    as Hlen by (rewrite Hb, !length_app; cbn [length]; lia).
  assert (length (attrs_bytes (result_attrs result)) ≤ 4)%nat by (destruct result; vm_compute; lia).
  destruct (check_packet_bytes 1 identifier EAP_AKA_SUBTYPE_CHALLENGE
    (attrs_bytes (challenge_attrs rand autn result mac))) as (H1 & H2 & H3).
  { rewrite Hlen. unfold EAP_AKA_HEADER_LEN, u16_max. lia. }
  fold (challenge_packet identifier rand autn result mac) in H1, H2, H3.
  unfold parse_challenge. rewrite H1, bind_ok, H3.
  destruct (attr18 AT_RAND rand Hr) as (U1 & P1 & _), (attr18 AT_AUTN autn Ha) as (U2 & P2 & _),
    (attr18 AT_MAC mac Hm) as (U3 & P3 & _).
  rewrite parse_attrs_bytes.
  - rewrite bind_ok.
    assert ((λ '(t, v), padded_attribute t v) <$> challenge_attrs rand autn result mac
      = mkAttribute AT_RAND ([0; 0] ++ rand) :: mkAttribute AT_AUTN ([0; 0] ++ autn)
        :: (if result then [mkAttribute AT_RESULT_IND [0; 0]] else []) ++ [mkAttribute AT_MAC ([0; 0] ++ mac)]) as ->.
    { unfold challenge_attrs. rewrite !fmap_app. rewrite <-P1, <-P2, <-P3. by destruct result. }
    rewrite foldM_cons, seen_rand, bind_ok, foldM_cons, seen_autn, bind_ok by done.
    destruct result; [change (?l ++ [?x]) with (mkAttribute AT_RESULT_IND [0; 0] :: [x]); rewrite foldM_cons;
      change (seen_attribute _ (mkAttribute AT_RESULT_IND [0; 0]))
        with (Ok (E:=EapAkaProtocolError) (mkSeen (Some rand) (Some autn) false true 52 None)); rewrite bind_ok|
      change ([] ++ ?l) with l]; rewrite foldM_cons, seen_mac, bind_ok by done; cbn [foldM];
      rewrite bind_ok, H2, bind_ok; done.
  - apply Forall_app; split; [|apply Forall_app; split].
    + apply Forall_cons; split; [rewrite U1; lia|]. apply Forall_singleton. rewrite U2. lia.
    + destruct result; [|constructor]. apply Forall_singleton. by apply (bool_decide_unpack _).
    + apply Forall_singleton. rewrite U3. lia.
  - pose proof (length_attrs (challenge_attrs rand autn result mac)). lia.
Qed.
End laws.

Lemma challenge_packet_split identifier rand autn result : length rand = 16%nat → length autn = 16%nat →
  ∃ p : list Z, length p = challenge_mac_offset result ∧
  ∀ m, length m = 16%nat → challenge_packet identifier rand autn result m = p ++ m.
Proof.
  intros Hr Ha. set (pre := ([AT_RAND; 5; 0; 0] ++ rand) ++ ([AT_AUTN; 5; 0; 0] ++ autn)
    ++ attrs_bytes (result_attrs result) ++ [AT_MAC; 5; 0; 0]).
  set (n := (length pre + 16)%nat).
  exists (([1; identifier] ++ be_bytes 2 (Z.of_nat (EAP_AKA_HEADER_LEN + n))
    ++ [EAP_TYPE_AKA; EAP_AKA_SUBTYPE_CHALLENGE; 0; 0]) ++ pre). split.
  - rewrite length_app. unfold pre. rewrite !length_app, length_be_bytes, Hr, Ha. by destruct result.
  - intros m Hm. unfold challenge_packet, packet_bytes. rewrite challenge_attrs_bytes by done. fold pre.
    rewrite length_app, Hm. fold n. by rewrite <-!app_assoc.
Qed.

(** ** The parsers do not panic *)
Lemma no_panic_eap_attributes fuel : ∀ input, bytes_ok input → (length input < fuel)%nat →
  no_panic (parse_attributes fuel input).
Proof.
  induction fuel as [|fuel IH]; intros input Hb Hf; [lia|]. cbn [parse_attributes].
  case_bool_decide; [done|]. destruct (Nat.ltb_spec (length input) 4); [done|]. cbn [fail_if]. rewrite bind_ok.
  np_step; [np_step|]. match goal with x : Z |- _ => rename x into units end.
  assert (is_byte units) as Hu by (by apply (bytes_ok_lookup input 1)). unfold is_byte in Hu.
  destruct (Z.eqb_spec units 0); [done|]. cbn [fail_if]. rewrite bind_ok. set (len := (Z.to_nat units * 4)%nat).
  assert (4 ≤ len)%nat by (unfold len; lia).
  destruct (Nat.ltb_spec (length input) len); [done|]. cbn [fail_if]. rewrite bind_ok.
  do 3 (np_step; [np_step|]). np_step; [|np]. apply IH; [by apply bytes_ok_drop|]. rewrite length_drop. lia.
Qed.
Lemma no_panic_attributes_of p : bytes_ok p → (8 ≤ length p)%nat → no_panic (attributes_of p).
Proof.
  intros Hb Hl. unfold attributes_of, EAP_AKA_HEADER_LEN. np_step; [np_step|].
  apply no_panic_eap_attributes; [by apply bytes_ok_drop|lia].
Qed.
Lemma check_packet_np p subtype : no_panic (check_packet p subtype) ∧
  ∀ u, check_packet p subtype = Ok u → (8 ≤ length p)%nat.
Proof.
  unfold check_packet, EAP_AKA_HEADER_LEN. destruct (Nat.ltb_spec (length p) 8); [done|].
  split; [|done]. cbn [fail_if]. rewrite bind_ok. np.
Qed.
Lemma no_panic_seen s a : no_panic (seen_attribute s a).
Proof.
  unfold seen_attribute, extract_reserved_prefixed_value, MAC_LEN. destruct s. np.
Qed.
Lemma no_panic_find_notification i l : no_panic (find_notification i l).
Proof.
  induction l as [|a l IH]; [done|]. cbn [find_notification]. destruct (_ =? _); [|done].
  np_step; [np_step|]. np_step; [np_step|]. np_step; [np_step|]. done.
Qed.
Lemma no_panic_find_identity i l : no_panic (find_identity_request i l).
Proof. induction l as [|a l IH]; [done|]. cbn [find_identity_request]. by repeat case_match. Qed.

(** ** Properties *)

(** C32: The key generator of the code is the one of FIPS 186-2: for a twenty-byte
    seed and any length it returns that many bytes of the reference stream, whose
    state is a number that grows by one and the last block modulo [2 ^ 160]; adding
    byte by byte with a carry is that addition, and the loops end. *)
Theorem fips_generator_reference seed out_len : bytes_ok seed → length seed = 20%nat →
  fips186_2_prf (E:=EapAkaProtocolError) seed out_len
  = Ok (take out_len (fips_stream out_len (of_be_bytes seed))) ∧
  length (take out_len (fips_stream out_len (of_be_bytes seed))) = out_len.
Proof.
  intros Hb Hl. split; [by apply fips186_2_prf_spec|]. rewrite length_take, length_fips_stream. lia.
Qed.

(** C14: An answer is only given to an authentic challenge, and it is authentic
    itself: when a response is built, the code of the challenge is the HMAC, under the
    key the identity, IK and CK give, of the challenge with the code blanked; the
    response carries that key material, reads back as RES, the result indication when
    the challenge had one, and a code over the response with the code blanked. *)
Theorem eap_challenge_authentic sha1 hmac_sha1 c identity aka r :
  sha1_laws sha1 hmac_sha1 → build_challenge_response sha1 hmac_sha1 c identity aka = Ok r →
  let keys := eap_keys sha1 (utf8_encode identity) (u_ik aka) (u_ck aka) in
  ∃ off mac, ch_mac_offset c = Some off ∧ (off + 16 ≤ length (ch_packet c))%nat ∧ aka_ok aka ∧
    take 16 (drop off (ch_packet c)) = mac_of hmac_sha1 (k_aut keys) (blanked (ch_packet c) off) ∧
    key_material r = Some keys ∧
    packet r = response_packet (ch_identifier c) aka (ch_result_indication c) mac ∧
    mac = mac_of hmac_sha1 (k_aut keys)
      (response_packet (ch_identifier c) aka (ch_result_indication c) (replicate 16 0)) ∧
    attributes_of (packet r)
    = Ok ((λ '(t, v), padded_attribute t v) <$> response_attrs aka (ch_result_indication c) mac).
Proof.
  intros Hlaws H keys. pose proof H as H0. unfold build_challenge_response in H0.
  apply bind_Ok in H0 as (u1 & Hp%fail_if_Ok%negb_false_iff & H0).
  apply bind_Ok in H0 as (u2 & Ha%fail_if_Ok%aka_guard & H0).
  rewrite (derive_key_material_spec sha1 hmac_sha1 Hlaws), bind_ok in H0. fold keys in H0.
  apply bind_Ok in H0 as (u3 & Hv & _). unfold verify_challenge_mac in Hv.
  apply bind_Ok in Hv as (off & Ho%ok_or_Ok & Hv).
  apply bind_Ok in Hv as (u4 & Hlen%fail_if_Ok%Nat.ltb_ge & _). unfold MAC_LEN in Hlen.
  rewrite (challenge_answer_spec sha1 hmac_sha1 Hlaws c identity aka off Hp Ho Hlen Ha) in H.
  fold keys in H. destruct (decide _) as [Hmac|]; [|done].
  destruct (Nat.ltb_spec 128 (length (u_res aka))) as [|Hres]; [done|]. apply Ok_inj in H as <-.
  cbn [packet key_material]. eexists off, _. split; [done|]. split; [done|]. split; [done|]. split; [done|].
  split; [done|]. split; [done|]. split; [done|].
  apply response_read; [done|apply (length_mac_of sha1 hmac_sha1 Hlaws)].
Qed.

(** An honest challenge is read and answered: a packet a server builds from a
    RAND, an AUTN and the keys, with or without the result indication, parses to that
    RAND and that AUTN, and with the card's RES, CK and IK for the same keys the
    response is built. *)
Theorem eap_challenge_answered sha1 hmac_sha1 identifier rand autn result identity aka :
  sha1_laws sha1 hmac_sha1 → length rand = 16%nat → length autn = 16%nat → aka_ok aka →
  (length (u_res aka) ≤ 128)%nat →
  let keys := eap_keys sha1 (utf8_encode identity) (u_ik aka) (u_ck aka) in
  let mac := mac_of hmac_sha1 (k_aut keys) (challenge_packet identifier rand autn result (replicate 16 0)) in
  let p := challenge_packet identifier rand autn result mac in
  ∃ c r, parse_challenge p = Ok c ∧ ch_rand c = rand ∧ ch_autn c = autn ∧ ch_identifier c = identifier ∧
    ch_result_indication c = result ∧ build_challenge_response sha1 hmac_sha1 c identity aka = Ok r.
Proof.
  intros Hlaws Hr Ha Haka Hres keys mac p.
  assert (length mac = 16%nat) as Hm by (by apply (length_mac_of sha1 hmac_sha1 Hlaws)).
  destruct (challenge_packet_split identifier rand autn result Hr Ha) as (pre & Hpre & Hsplit).
  eexists _, _. split; [by apply parse_challenge_packet|]. split; [done|]. split; [done|]. split; [done|].
  split; [done|].
  assert (length p = challenge_mac_offset result + 16)%nat as Hp
    by (unfold p; rewrite Hsplit, length_app by done; lia).
  rewrite (challenge_answer_spec sha1 hmac_sha1 Hlaws _ identity aka (challenge_mac_offset result));
    [|done|done|cbn [ch_packet]; fold p; lia|done].
  cbn [ch_packet ch_identifier ch_result_indication]. fold keys p.
  rewrite decide_True; [by rewrite (proj2 (Nat.ltb_ge _ _) Hres)|].
  unfold blanked. unfold p. rewrite Hsplit by done. rewrite <-Hpre.
  rewrite drop_app_length, take_app_length, (take_ge mac) by lia.
  rewrite drop_ge by (rewrite length_app; lia). rewrite app_nil_r.
  rewrite <-(Hsplit (replicate 16 0)) by apply length_replicate. done.
Qed.

(** The three readers of EAP-AKA requests end on every packet without a panic. *)
Theorem eap_parsers_total p : bytes_ok p →
  no_panic (parse_challenge p) ∧ no_panic (parse_notification p) ∧ no_panic (parse_identity_request p).
Proof.
  intros Hb. split_and!.
  - unfold parse_challenge. destruct (check_packet_np p EAP_AKA_SUBTYPE_CHALLENGE) as [Hnp Hl].
    np_step; [done|]. specialize (Hl _ H). np_step; [by apply no_panic_attributes_of|].
    np_step; [|np]. apply (foldM_inv (λ _, True)); [done|]. intros. split; [apply no_panic_seen|done].
  - unfold parse_notification. destruct (check_packet_np p EAP_AKA_SUBTYPE_NOTIFICATION) as [Hnp Hl].
    np_step; [done|]. specialize (Hl _ H). np_step; [by apply no_panic_attributes_of|].
    np_step; [np_step|]. apply no_panic_find_notification.
  - unfold parse_identity_request. destruct (check_packet_np p EAP_AKA_SUBTYPE_IDENTITY) as [Hnp Hl].
    np_step; [done|]. specialize (Hl _ H). np_step; [by apply no_panic_attributes_of|].
    np_step; [np_step|]. apply no_panic_find_identity.
Qed.

(** ** Witnesses *)
Definition toy_sha1 (x : list Z) : list Z := replicate 20 (foldr Z.add 0 x mod 256).
Definition toy_hmac (k x : list Z) : list Z := replicate 20 ((foldr Z.add 0 k * 3 + foldr Z.add 0 x) mod 256).
Lemma toy_laws : sha1_laws toy_sha1 toy_hmac.
Proof.
  split; [|intros; apply length_replicate]. intros x. split; [apply length_replicate|].
  apply Forall_replicate. by apply Z.mod_pos_bound.
Qed.
Definition sample_aka : UsimAkaApduResult := mkUsim (replicate 8 17) (replicate 16 34) (replicate 16 51) None.
Definition sample_identity : str := [48; 57; 57].
Definition sample_challenge : EapAkaChallenge :=
  let keys := eap_keys toy_sha1 (utf8_encode sample_identity) (u_ik sample_aka) (u_ck sample_aka) in
  let packet := challenge_packet 9 (replicate 16 1) (replicate 16 2) true in
  mkChallenge 9 (replicate 16 1) (replicate 16 2) true true
    (packet (mac_of toy_hmac (k_aut keys) (packet (replicate 16 0)))) (Some 56%nat).
Definition sample_response : EapAkaResponsePacket :=
  match build_challenge_response toy_sha1 toy_hmac sample_challenge sample_identity sample_aka with
  | Ok r => r
  | _ => mkResponse [] None
  end.
Lemma sample_answered :
  build_challenge_response toy_sha1 toy_hmac sample_challenge sample_identity sample_aka = Ok sample_response.
Proof. vm_compute. reflexivity. Qed.

Lemma fips_generator_reference_witness :
  fips186_2_prf (E:=EapAkaProtocolError) (replicate 20 7) 30
  = Ok (take 30 (fips_stream 30 (of_be_bytes (replicate 20 7)))).
Proof.
  destruct (fips_generator_reference (replicate 20 7) 30) as [H _].
  - apply Forall_replicate. done.
  - apply length_replicate.
  - exact H.
Defined.
Lemma eap_challenge_authentic_witness :
  attributes_of (packet sample_response) ≠ Ok [] ∧ ∃ off, ch_mac_offset sample_challenge = Some off.
Proof.
  destruct (eap_challenge_authentic toy_sha1 toy_hmac sample_challenge sample_identity sample_aka sample_response
    toy_laws sample_answered) as (off & mac & Ho & _ & _ & _ & _ & _ & _ & Hr).
  split; [rewrite Hr; discriminate|]. by exists off.
Defined.
Lemma eap_challenge_answered_witness :
  ∃ c r, parse_challenge (ch_packet sample_challenge) = Ok c ∧
    build_challenge_response toy_sha1 toy_hmac c sample_identity sample_aka = Ok r.
Proof.
  destruct (eap_challenge_answered toy_sha1 toy_hmac 9 (replicate 16 1) (replicate 16 2) true sample_identity
    sample_aka toy_laws) as (c & r & H1 & _ & _ & _ & _ & H2).
  - apply length_replicate.
  - apply length_replicate.
  - by repeat split.
  - cbn. lia.
  - by exists c, r.
Defined.
Lemma eap_parsers_total_witness : no_panic (parse_challenge [1; 2; 0; 8; 23; 1; 0; 0]).
Proof.
  apply (eap_parsers_total [1; 2; 0; 8; 23; 1; 0; 0]). repeat (apply Forall_cons; split; [done|]). by apply Forall_nil.
Defined.
