(* ===== verification/IkeEvents.v ===== *)
(** * Control events, EAP summaries, retransmission and error texts

    Models the small modules around the IKEv2 exchange:
    [connectivity/modems/ims/vowifi/ike_retransmit.rs] (the schedule of a request),
    [ike_events.rs] (what a NOTIFY or DELETE asks for), [ike_eap.rs] (the redacted
    summary of an EAP packet) and the [Display] texts of the errors of the codec,
    the payloads, the keys and the encrypted payload. *)
From Stdlib Require Import ZArith Lia String Sorted.
From stdpp Require Import prelude.
From S2P Require Import Prelude Text Bytes IkeCodec IkePayloads IkeKeys IkeCrypt EapAka.
Local Open Scope Z_scope.

(** ** Retransmission ([ike_retransmit.rs]) *)
Inductive RetransmitDecision := Wait | Retransmit | GiveUp.
#[export] Instance RetransmitDecision_eq_dec : EqDecision RetransmitDecision.
Proof. solve_decision. Defined.
Definition decision_as_str (d : RetransmitDecision) : string :=
  match d with Wait => "wait" | Retransmit => "retransmit" | GiveUp => "give_up" end.
Record RetransmitPolicy := mkPolicy {
  initial_timeout_ms : Z;
  max_timeout_ms : Z;
  max_attempts : Z;
  exchange_deadline_ms : Z;
}.
Definition default_policy : RetransmitPolicy := mkPolicy 500 8000 5 30000.
Record RetransmitState := mkRetransmit {
  rt_message_id : Z;
  rt_attempts : Z;
  rt_elapsed_ms : Z;
  rt_next_timeout_ms : Z;
  rt_decision : string;
}.
Definition initial_state (p : RetransmitPolicy) (message_id : Z) : RetransmitState :=
  mkRetransmit message_id 0 0 (initial_timeout_ms p) (decision_as_str Wait).
(** [elapsed] is the number of milliseconds of the duration. *)
Definition evaluate (p : RetransmitPolicy) (s : RetransmitState) (elapsed : Z) : RetransmitState :=
  let elapsed_ms := Z.min elapsed u64_max in
  if (exchange_deadline_ms p <=? elapsed_ms) || (max_attempts p <=? rt_attempts s) then
    mkRetransmit (rt_message_id s) (rt_attempts s) elapsed_ms (rt_next_timeout_ms s) (decision_as_str GiveUp)
  else if elapsed_ms <? rt_next_timeout_ms s then
    mkRetransmit (rt_message_id s) (rt_attempts s) elapsed_ms (rt_next_timeout_ms s) (decision_as_str Wait)
  else
    let next_attempts := sat_add u8_max (rt_attempts s) 1 in
    let next_timeout_ms := Z.min (sat_mul u64_max (rt_next_timeout_ms s) 2) (max_timeout_ms p) in
    mkRetransmit (rt_message_id s) next_attempts elapsed_ms next_timeout_ms
      (if max_attempts p <=? next_attempts then decision_as_str GiveUp else decision_as_str Retransmit).

(** ** Control events ([ike_events.rs]) *)
Inductive IkeControlEventKind := KindNotify | KindDelete.
Definition kind_as_str (k : IkeControlEventKind) : string :=
  match k with KindNotify => "notify" | KindDelete => "delete" end.
Record IkeControlEvent := mkControlEvent {
  ce_kind : string;
  ce_message_id : Z;
  ce_protocol_id : Z;
  ce_spi_size : Z;
  ce_spi_present : bool;
  ce_notify_type : option Z;
  ce_notify_name : option string;
  ce_delete_spi_count : option Z;
  ce_action : string;
  ce_sensitive_values_policy : string;
}.
Inductive IkeControlEventError :=
| MissingControlPayload | TruncatedNotify | TruncatedDelete | InvalidDeleteLength.

Definition notify_name (notify_type : Z) : string :=
  match notify_type with
  | 1 => "unsupported_critical_payload"
  | 4 => "invalid_ike_spi"
  | 5 => "invalid_major_version"
  | 7 => "invalid_syntax"
  | 9 => "invalid_message_id"
  | 11 => "invalid_spi"
  | 14 => "no_proposal_chosen"
  | 17 => "invalid_ke_payload"
  | 24 => "authentication_failed"
  | 34 => "single_pair_required"
  | 35 => "no_additional_sas"
  | 36 => "internal_address_failure"
  | 37 => "failed_cp_required"
  | 38 => "ts_unacceptable"
  | 39 => "invalid_selectors"
  | 40 => "unacceptable_addresses"
  | 41 => "unexpected_nat_detected"
  | 43 => "temporary_failure"
  | 44 => "child_sa_not_found"
  | 45 => "invalid_group_id"
  | 46 => "authorization_failed"
  | 47 => "state_not_found"
  | 16384 => "initial_contact"
  | 16385 => "set_window_size"
  | 16386 => "additional_ts_possible"
  | 16387 => "ipcomp_supported"
  | 16388 => "nat_detection_source_ip"
  | 16389 => "nat_detection_destination_ip"
  | 16390 => "cookie"
  | 16391 => "use_transport_mode"
  | 16393 => "rekey_sa"
  | 16403 => "authentication_lifetime"
  | 16417 => "eap_only_authentication"
  | 16430 => "ikev2_fragmentation_supported"
  | other =>
    if in_range 8192 16383 other || in_range 40960 65535 other then "private_or_extension" else "unknown"
  end.
Definition action_for_notify (notify_type : Z) : string :=
  match notify_type with
  | 1 | 4 | 5 | 7 | 9 | 11 | 14 | 17 | 24 | 45 | 46 | 47 => "fail_exchange"
  | 34 | 35 | 36 | 37 | 38 | 39 | 40 | 41 | 43 => "child_sa_negotiation_failed"
  | 44 => "mark_child_sa_missing"
  | 16393 => "schedule_rekey"
  | 16403 => "reauth_required"
  | 16384 | 16385 | 16386 | 16387 | 16388 | 16389 | 16390 | 16391 | 16417 | 16430 => "record_capability"
  | _ => "record_only"
  end.
Definition parse_notify (message_id : Z) (body : list Z) : res IkeControlEventError IkeControlEvent :=
  fail_if (length body <? 4)%nat TruncatedNotify;;
  protocol_id ← idx body 0;
  spi_size ← idx body 1;
  notify_type ← slice body 2 4;
  let notify_type := of_be_bytes notify_type in
  let expected := (4 + Z.to_nat spi_size)%nat in
  fail_if (length body <? expected)%nat TruncatedNotify;;
  Ok (mkControlEvent (kind_as_str KindNotify) message_id protocol_id spi_size (0 <? spi_size)
    (Some notify_type) (Some (notify_name notify_type)) None (action_for_notify notify_type)
    "spi_and_notify_data_values_not_serialized").
Definition parse_delete (message_id : Z) (body : list Z) : res IkeControlEventError IkeControlEvent :=
  fail_if (length body <? 4)%nat TruncatedDelete;;
  protocol_id ← idx body 0;
  spi_size ← idx body 1;
  spi_count ← slice body 2 4;
  let spi_count := of_be_bytes spi_count in
  let spi_bytes := (Z.to_nat spi_size * Z.to_nat spi_count)%nat in
  fail_if (negb (length body =? 4 + spi_bytes)%nat) InvalidDeleteLength;;
  Ok (mkControlEvent (kind_as_str KindDelete) message_id protocol_id spi_size
    ((0 <? spi_size) && (0 <? spi_count)) None None (Some spi_count) "teardown_requested"
    "spi_values_not_serialized").

(** [payloads.iter().find(|payload| payload.payload_type == t)] *)
Fixpoint find_type (t : IkePayloadType) (payloads : list IkePayload) : option IkePayload :=
  match payloads with
  | [] => None
  | p :: rest => if decide (payload_type p = t) then Some p else find_type t rest
  end.
Definition parse_control_event (message : IkeMessage) : res IkeControlEventError IkeControlEvent :=
  match find_type Notify (payloads message) with
  | Some payload => parse_notify (message_id (header message)) (body payload)
  | None =>
    match find_type Delete (payloads message) with
    | Some payload => parse_delete (message_id (header message)) (body payload)
    | None => Err MissingControlPayload
    end
  end.

(** ** EAP summaries ([ike_eap.rs]) *)
Definition EAP_ATTR_HEADER_LEN : nat := 4.
Inductive EapCode := EapRequest | EapResponse | EapSuccess | EapFailure | EapUnknown (value : Z).
#[export] Instance EapCode_eq_dec : EqDecision EapCode.
Proof. solve_decision. Defined.
Definition eap_code_from_u8 (value : Z) : EapCode :=
  match value with
  | 1 => EapRequest | 2 => EapResponse | 3 => EapSuccess | 4 => EapFailure | other => EapUnknown other
  end.
Definition eap_code_as_str (c : EapCode) : string :=
  match c with
  | EapRequest => "request" | EapResponse => "response" | EapSuccess => "success"
  | EapFailure => "failure" | EapUnknown _ => "unknown"
  end.
Inductive EapAkaSubtype :=
| AkaChallenge | AkaAuthenticationReject | AkaSynchronizationFailure | AkaIdentity | AkaNotification
| AkaReauthentication | AkaClientError | AkaUnknown (value : Z).
Definition subtype_from_u8 (value : Z) : EapAkaSubtype :=
  match value with
  | 1 => AkaChallenge
  | 2 => AkaAuthenticationReject
  | 4 => AkaSynchronizationFailure
  | 5 => AkaIdentity
  | 12 => AkaNotification
  | 13 => AkaReauthentication
  | 14 => AkaClientError
  | other => AkaUnknown other
  end.
Definition subtype_as_str (s : EapAkaSubtype) : string :=
  match s with
  | AkaChallenge => "challenge"
  | AkaAuthenticationReject => "authentication_reject"
  | AkaSynchronizationFailure => "synchronization_failure"
  | AkaIdentity => "identity"
  | AkaNotification => "notification"
  | AkaReauthentication => "reauthentication"
  | AkaClientError => "client_error"
  | AkaUnknown _ => "unknown"
  end.
Record EapAkaAttributeSummary := mkAttributeSummary {
  as_attribute_type : Z;
  as_role : string;
  as_units : Z;
  as_value_bytes : nat;
  as_value_redacted : bool;
}.
Record EapAkaPacketSummary := mkSummary {
  es_code : string;
  es_identifier : Z;
  es_method : string;
  es_subtype : string;
  es_attribute_count : nat;
  es_attributes : list EapAkaAttributeSummary;
  es_raw_len : nat;
  es_secret_values_policy : string;
}.
Inductive EapAkaError :=
| EapTruncated
| EapLengthMismatch (declared actual : nat)
| NotAkaMethod (method : Z)
| MissingSubtype
| TruncatedAttribute
| InvalidEapAttributeLength (attribute_type units : Z).
Definition attribute_role (attribute_type : Z) : string :=
  match attribute_type with
  | 1 => "challenge_input"
  | 2 => "authenticator_input"
  | 3 => "subscriber_response"
  | 4 => "sync_failure_proof"
  | 6 => "padding"
  | 7 => "client_nonce"
  | 10 => "permanent_identity_request"
  | 11 => "message_authenticator"
  | 12 => "notification_code"
  | 13 => "any_identity_request"
  | 14 => "identity_blob"
  | 22 => "counter"
  | 23 => "counter_too_small"
  | 24 => "nonce_s"
  | 101 => "checkcode"
  | 102 => "encrypted_data"
  | 135 => "result_indication"
  | _ => "unknown"
  end.
Fixpoint summarize_attributes (fuel : nat) (input : list Z) : res EapAkaError (list EapAkaAttributeSummary) :=
  match fuel with
  | O => Panic
  | S fuel =>
    if bool_decide (input = []) then Ok [] else
    fail_if (length input <? EAP_ATTR_HEADER_LEN)%nat TruncatedAttribute;;
    attribute_type ← idx input 0;
    units ← idx input 1;
    fail_if (units =? 0) (InvalidEapAttributeLength attribute_type units);;
    let len := (Z.to_nat units * 4)%nat in
    fail_if (length input <? len)%nat TruncatedAttribute;;
    input ← slice_from input len;
    rest ← summarize_attributes fuel input;
    Ok (mkAttributeSummary attribute_type (attribute_role attribute_type) units
      (len - EAP_ATTR_HEADER_LEN) true :: rest)
  end.
Definition parse_eap_aka_summary (input : list Z) : res EapAkaError EapAkaPacketSummary :=
  fail_if (length input <? 4)%nat EapTruncated;;
  code ← idx input 0;
  let code := eap_code_from_u8 code in
  identifier ← idx input 1;
  declared ← slice input 2 4;
  let declared := Z.to_nat (of_be_bytes declared) in
  fail_if (negb (declared =? length input)%nat) (EapLengthMismatch declared (length input));;
  if bool_decide (code = EapSuccess) || bool_decide (code = EapFailure) then
    Ok (mkSummary (eap_code_as_str code) identifier "none" "none" 0 [] (length input)
      "raw_eap_not_serialized")
  else
    fail_if (length input <? EAP_AKA_HEADER_LEN)%nat MissingSubtype;;
    method ← idx input 4;
    fail_if (negb (method =? EAP_TYPE_AKA)) (NotAkaMethod method);;
    subtype ← idx input 5;
    let subtype := subtype_from_u8 subtype in
    attribute_bytes ← slice_from input EAP_AKA_HEADER_LEN;
    attributes ← summarize_attributes (S (length attribute_bytes)) attribute_bytes;
    Ok (mkSummary (eap_code_as_str code) identifier "aka" (subtype_as_str subtype) (length attributes)
      attributes (length input) "rand_autn_res_ck_ik_never_serialized").

(** ** Error texts: the [Display] of each error *)
Definition fmt_nat (n : nat) : str := fmt_dec (Z.of_nat n).
Definition codec_error_text (e : IkeCodecError) : str :=
  match e with
  | TruncatedHeader => lit "truncated IKE header"
  | TruncatedPayload => lit "truncated IKE payload"
  | InvalidMajorVersion version => lit "invalid IKE major version " ++ fmt_dec version
  | InvalidMessageLength declared actual =>
    lit "invalid IKE message length declared=" ++ fmt_nat declared ++ lit " actual=" ++ fmt_nat actual
  | InvalidPayloadLength declared => lit "invalid IKE payload length declared=" ++ fmt_nat declared
  | MessageTooLarge length => lit "IKE message too large: " ++ fmt_nat length ++ lit " bytes"
  end.
Definition payload_build_error_text (e : PayloadBuildError) : str :=
  match e with
  | EmptyTransforms => lit "proposal has no transforms"
  | TooManyTransforms count => lit "too many transforms: " ++ fmt_nat count
  | SpiTooLarge length => lit "SPI too large: " ++ fmt_nat length ++ lit " bytes"
  | ProposalTooLarge length => lit "proposal too large: " ++ fmt_nat length ++ lit " bytes"
  | TransformTooLarge length => lit "transform too large: " ++ fmt_nat length ++ lit " bytes"
  end.
Definition sa_parse_error_text (e : SaParseError) : str :=
  match e with
  | TruncatedProposal => lit "truncated SA proposal"
  | TruncatedTransform => lit "truncated SA transform"
  | InvalidProposalLength declared => lit "invalid SA proposal length: " ++ fmt_nat declared
  | InvalidTransformLength declared => lit "invalid SA transform length: " ++ fmt_nat declared
  | IkePayloads.InvalidAttributeLength declared =>
    lit "invalid SA transform attribute length: " ++ fmt_nat declared
  | SpiExceedsProposal spi_size proposal_len =>
    lit "SA proposal SPI size exceeds proposal length: spi_size=" ++ fmt_nat spi_size
    ++ lit " proposal_len=" ++ fmt_nat proposal_len
  | TransformCountMismatch declared parsed =>
    lit "SA proposal transform count mismatch: declared=" ++ fmt_nat declared
    ++ lit " parsed=" ++ fmt_nat parsed
  end.
Definition proposal_error_text (e : ProposalParseError) : str :=
  match e with
  | EmptyProposal => lit "empty IKE proposal"
  | MissingEncryption => lit "IKE proposal has no encryption transform"
  | MissingIntegrity => lit "IKE proposal has no integrity transform"
  | MissingPrf => lit "IKE proposal has no PRF transform"
  | MissingDhGroup => lit "IKE proposal has no DH group"
  | UnsupportedToken token => lit "unsupported IKE proposal token: " ++ token
  end.
Definition key_error_text (e : IkeKeyError) : str :=
  match e with
  | MissingPrfTransform => lit "missing IKE PRF transform"
  | MissingEncryptionTransform => lit "missing IKE encryption transform"
  | MissingIntegrityTransform => lit "missing IKE integrity transform"
  | MissingEncryptionKeyLength => lit "missing IKE encryption key length"
  | UnsupportedPrf id => lit "unsupported IKE PRF transform " ++ fmt_dec id
  | UnsupportedPrfName name => lit "unsupported IKE PRF algorithm " ++ lit name
  | UnsupportedEncryption id => lit "unsupported IKE encryption transform " ++ fmt_dec id
  | UnsupportedIntegrity id => lit "unsupported IKE integrity transform " ++ fmt_dec id
  | EmptySharedSecret => lit "empty IKE shared secret"
  | EmptyNonce => lit "empty IKE nonce"
  | OutputTooLarge size => lit "IKE key schedule output too large: " ++ fmt_nat size
  end.
Definition encrypted_error_text (e : EncryptedPayloadError) : str :=
  match e with
  | UnsupportedCipher cipher => lit "unsupported IKE cipher: " ++ lit cipher
  | UnsupportedIntegrityName integrity => lit "unsupported IKE integrity algorithm: " ++ lit integrity
  | EmptyInnerPayloads => lit "encrypted payload has no inner payloads"
  | RandomFailed => lit "encrypted payload random generation failed"
  | IkeCrypt.PacketTooLarge size => lit "encrypted payload too large: " ++ fmt_nat size
  | IntegrityMismatch => lit "encrypted payload integrity check failed"
  | InvalidEncryptedPayload => lit "invalid encrypted payload"
  | InvalidPadding => lit "invalid encrypted payload padding"
  | Codec e => codec_error_text e
  end.
Definition control_error_text (e : IkeControlEventError) : str :=
  match e with
  | MissingControlPayload => lit "IKE message has no notify or delete payload"
  | TruncatedNotify => lit "truncated IKE notify payload"
  | TruncatedDelete => lit "truncated IKE delete payload"
  | InvalidDeleteLength => lit "invalid IKE delete payload length"
  end.
Definition eap_error_text (e : EapAkaError) : str :=
  match e with
  | EapTruncated => lit "truncated EAP packet"
  | EapLengthMismatch declared actual =>
    lit "EAP length mismatch declared=" ++ fmt_nat declared ++ lit " actual=" ++ fmt_nat actual
  | NotAkaMethod method => lit "unsupported EAP method " ++ fmt_dec method
  | MissingSubtype => lit "missing EAP-AKA subtype"
  | TruncatedAttribute => lit "truncated EAP-AKA attribute"
  | InvalidEapAttributeLength attribute_type units =>
    lit "invalid EAP-AKA attribute length type=" ++ fmt_dec attribute_type ++ lit " units=" ++ fmt_dec units
  end.

(** ** The retransmission schedule *)
Fixpoint polls (p : RetransmitPolicy) (s : RetransmitState) (times : list Z) : list RetransmitState :=
  match times with
  | [] => []
  | t :: times => let s := evaluate p s t in s :: polls p s times
  end.
Definition policy_ok (p : RetransmitPolicy) : Prop :=
  1 ≤ max_attempts p ≤ u8_max ∧ 0 < initial_timeout_ms p ≤ max_timeout_ms p ∧
  max_timeout_ms p ≤ u64_max ∧ 0 ≤ exchange_deadline_ms p ≤ u64_max.
Definition timeout_after (p : RetransmitPolicy) (attempts : Z) : Z :=
  Z.min (initial_timeout_ms p * 2 ^ attempts) (max_timeout_ms p).
Definition on_schedule (p : RetransmitPolicy) (id : Z) (s : RetransmitState) : Prop :=
  rt_message_id s = id ∧ 0 ≤ rt_attempts s ≤ max_attempts p ∧
  rt_next_timeout_ms s = timeout_after p (rt_attempts s).
Definition gave_up (s : RetransmitState) : Prop := rt_decision s = decision_as_str GiveUp.
Definition resent (s : RetransmitState) : Prop := rt_decision s = decision_as_str Retransmit.
#[export] Instance gave_up_dec s : Decision (gave_up s).
Proof. apply String.string_dec. Defined.
#[export] Instance resent_dec s : Decision (resent s).
Proof. apply String.string_dec. Defined.

Lemma timeout_double p n : policy_ok p → 0 ≤ n →
  Z.min (sat_mul u64_max (timeout_after p n) 2) (max_timeout_ms p) = timeout_after p (n + 1).
Proof.
  intros (_ & Hi & Hm & _) Hn. unfold timeout_after, sat_mul. rewrite Z.pow_add_r by lia.
  change (2 ^ 1) with 2. rewrite Z.mul_assoc. set (x := initial_timeout_ms p * 2 ^ n).
  assert (0 < x) by (unfold x; apply Z.mul_pos_pos; [lia|apply Z.pow_pos_nonneg; lia]). lia.
Qed.
Lemma initial_on_schedule p id : policy_ok p → on_schedule p id (initial_state p id).
Proof.
  intros (Ha & Hi & _). split_and!; [done|cbn; lia..|]. cbn. unfold timeout_after. cbn. lia.
Qed.
Lemma evaluate_on_schedule p id s t : policy_ok p → on_schedule p id s → on_schedule p id (evaluate p s t).
Proof.
  intros Hp (Hid & Ha & Ht). unfold evaluate. destruct (_ || _) eqn:Hg; [done|].
  apply orb_false_iff in Hg as [_ Hg%Z.leb_gt]. destruct (_ <? _); [done|].
  destruct Hp as (Hm & Hp). unfold u8_max in *.
  assert (sat_add 255 (rt_attempts s) 1 = rt_attempts s + 1) as Hs by (unfold sat_add; lia).
  split_and!; cbn [rt_message_id rt_attempts rt_next_timeout_ms]; [done|rewrite Hs; lia..|].
  rewrite Hs, Ht. apply timeout_double; [done|lia].
Qed.
Lemma evaluate_gives_up p s t : gave_up (evaluate p s t) ↔
  exchange_deadline_ms p ≤ Z.min t u64_max ∨ max_attempts p ≤ rt_attempts (evaluate p s t).
Proof.
  unfold evaluate, gave_up. destruct (_ || _) eqn:Hg.
  - apply orb_true_iff in Hg as [Hg%Z.leb_le|Hg%Z.leb_le]; cbn; tauto.
  - apply orb_false_iff in Hg as [Hd%Z.leb_gt Hg%Z.leb_gt]. destruct (_ <? _).
    + cbn. split; [done|]. lia.
    + cbn. case_match eqn:H; [apply Z.leb_le in H|apply Z.leb_gt in H]; cbn; split; try done; try lia.
Qed.
Lemma evaluate_attempts p s t : policy_ok p → 0 ≤ rt_attempts s ≤ max_attempts p →
  rt_attempts s ≤ rt_attempts (evaluate p s t) ∧ 0 ≤ rt_attempts (evaluate p s t) ≤ max_attempts p.
Proof.
  intros (Hm & _) Hs. unfold evaluate, u8_max, sat_add in *. destruct (_ || _) eqn:Hg; [done|].
  apply orb_false_iff in Hg as [_ Hg%Z.leb_gt]. destruct (_ <? _); cbn; lia.
Qed.
(** A request is resent only below the last attempt, and each time it counts. *)
Lemma evaluate_resent p s t : policy_ok p → 0 ≤ rt_attempts s ≤ max_attempts p → resent (evaluate p s t) →
  rt_attempts (evaluate p s t) = rt_attempts s + 1 ∧ rt_attempts s + 1 < max_attempts p.
Proof.
  intros (Hm & _) Hs. unfold evaluate, resent, u8_max, sat_add in *. destruct (_ || _) eqn:Hg; [done|].
  apply orb_false_iff in Hg as [_ Hg%Z.leb_gt]. destruct (_ <? _); [done|]. cbn.
  case_match eqn:H; [done|]. apply Z.leb_gt in H. lia.
Qed.
Lemma polls_on_schedule p id ts : policy_ok p → ∀ s, on_schedule p id s → Forall (on_schedule p id) (polls p s ts).
Proof.
  intros Hp. induction ts as [|t ts IH]; intros s Hs; [constructor|]. cbn [polls].
  pose proof (evaluate_on_schedule p id s t Hp Hs). constructor; auto.
Qed.
Lemma polls_resent p ts : policy_ok p → ∀ s, 0 ≤ rt_attempts s ≤ max_attempts p →
  Z.of_nat (length (filter resent (polls p s ts))) ≤ Z.max 0 (max_attempts p - 1 - rt_attempts s).
Proof.
  intros Hp. induction ts as [|t ts IH]; intros s Hs; [cbn; lia|]. cbn [polls].
  pose proof (evaluate_attempts p s t Hp Hs) as [Hle Hr].
  specialize (IH _ Hr). rewrite filter_cons. destruct (decide (resent _)) as [Hre|]; [|lia].
  apply (evaluate_resent p s t Hp Hs) in Hre as [He Hlt]. cbn [length]. lia.
Qed.
Lemma polls_final p ts : policy_ok p → ∀ s, 0 ≤ rt_attempts s ≤ max_attempts p → StronglySorted Z.le ts →
  (max_attempts p ≤ rt_attempts s ∨ Forall (λ t, exchange_deadline_ms p ≤ Z.min t u64_max) ts) →
  Forall gave_up (polls p s ts).
Proof.
  intros Hp. induction ts as [|t ts IH]; intros s Hs Hsort Hdone; [constructor|]. cbn [polls].
  apply StronglySorted_inv in Hsort as [Hsort Hall].
  assert (evaluate p s t = mkRetransmit (rt_message_id s) (rt_attempts s) (Z.min t u64_max)
    (rt_next_timeout_ms s) (decision_as_str GiveUp)) as He.
  { unfold evaluate. rewrite (proj2 (orb_true_iff _ _)); [done|]. rewrite !Z.leb_le.
    destruct Hdone as [|Hf]; [by right|left]. by apply Forall_cons in Hf as [Hf _]. }
  rewrite He. constructor; [done|]. apply IH; [done..|].
  destruct Hdone as [|Hf]; [by left|right]. by apply Forall_cons in Hf as [_ Hf].
Qed.
Lemma polls_gave_up p ts : policy_ok p → ∀ s i j a b, 0 ≤ rt_attempts s ≤ max_attempts p → StronglySorted Z.le ts →
  (i ≤ j)%nat → polls p s ts !! i = Some a → gave_up a → polls p s ts !! j = Some b → gave_up b.
Proof.
  intros Hp. induction ts as [|t ts IH]; intros s i j a b Hs Hsort Hij Ha Hga Hb; [done|]. cbn [polls] in *.
  apply StronglySorted_inv in Hsort as [Hsort Hall].
  pose proof (evaluate_attempts p s t Hp Hs) as [_ Hr].
  destruct i as [|i].
  - cbn in Ha. injection Ha as <-. destruct j as [|j]; [by cbn in Hb; injection Hb as <-|]. cbn in Hb.
    apply evaluate_gives_up in Hga. eapply Forall_lookup_1; [|exact Hb]. apply polls_final; [done..|].
    destruct Hga as [Hd|]; [right|by left]. eapply Forall_impl; [exact Hall|]. cbn. lia.
  - destruct j as [|j]; [lia|]. cbn in Ha, Hb. eapply (IH (evaluate p s t) i j); eauto. lia.
Qed.
Lemma polls_lookup p ts : ∀ s i t a, ts !! i = Some t → polls p s ts !! i = Some a →
  ∃ s0, a = evaluate p s0 t.
Proof.
  induction ts as [|t' ts IH]; intros s i t a Ht Ha; [done|]. destruct i as [|i].
  - cbn in Ht, Ha. injection Ht as ->. injection Ha as <-. by exists s.
  - eapply IH; [exact Ht|exact Ha].
Qed.

(** ** The two readings of an EAP-AKA challenge *)
Definition summary_of (a : EapAkaAttribute) : EapAkaAttributeSummary :=
  mkAttributeSummary (attribute_type a) (attribute_role (attribute_type a))
    (Z.of_nat ((length (attribute_value a) + 2) / 4)) (length (attribute_value a) - 2) true.

Lemma summarize_attributes_agree fuel : ∀ input, bytes_ok input → (length input < fuel)%nat →
  match parse_attributes fuel input with
  | Ok attrs => summarize_attributes fuel input = Ok (summary_of <$> attrs)
  | Err _ => ∃ e, summarize_attributes fuel input = Err e
  | Panic => False
  end.
Proof.
  induction fuel as [|fuel IH]; intros input Hb Hf; [lia|]. cbn [parse_attributes summarize_attributes].
  unfold EAP_ATTR_HEADER_LEN. case_bool_decide as He; [done|].
  destruct (Nat.ltb_spec (length input) 4) as [|Hl]; [by eexists|]. cbn [fail_if]. rewrite !bind_ok.
  destruct (idx_lt (E:=EapAkaProtocolError) input 0) as (t & Ht & ->); [lia|].
  destruct (idx_lt (E:=EapAkaProtocolError) input 1) as (u & Hu & ->); [lia|].
  rewrite (proj2 (idx_Ok (E:=EapAkaError) input 0 t) Ht), (proj2 (idx_Ok (E:=EapAkaError) input 1 u) Hu).
  rewrite !bind_ok. pose proof (bytes_ok_lookup _ _ _ Hb Hu) as Hub. unfold is_byte in Hub.
  destruct (Z.eqb_spec u 0) as [|Hu0]; [by eexists|]. cbn [fail_if]. rewrite !bind_ok.
  set (len := (Z.to_nat u * 4)%nat). assert (4 ≤ len)%nat by (unfold len; lia).
  destruct (Nat.ltb_spec (length input) len) as [|Hlen]; [by eexists|]. cbn [fail_if]. rewrite !bind_ok.
  rewrite (proj2 (slice_Ok (E:=EapAkaProtocolError) input 2 len (take (len - 2) (drop 2 input)))) by (split_and!; [lia|lia|done]).
  rewrite (proj2 (slice_from_Ok (E:=EapAkaProtocolError) input len (drop len input))) by (split; [lia|done]).
  rewrite (proj2 (slice_from_Ok (E:=EapAkaError) input len (drop len input))) by (split; [lia|done]). rewrite !bind_ok.
  specialize (IH (drop len input) (bytes_ok_drop _ _ Hb)). rewrite length_drop in IH.
  specialize (IH ltac:(lia)). destruct (parse_attributes fuel (drop len input)) as [attrs|e|]; [|by destruct IH as [? ->]; eexists|done].
  rewrite IH, !bind_ok. cbn [fmap list_fmap summary_of]. do 2 f_equal. unfold summary_of. cbn [attribute_type attribute_value].
  rewrite length_take, length_drop. rewrite Nat.min_l by lia.
  replace (len - 2 + 2)%nat with (Z.to_nat u * 4)%nat by lia. rewrite Nat.div_mul by done. f_equal; lia.
Qed.
Lemma no_panic_summary p : bytes_ok p → no_panic (parse_eap_aka_summary p).
Proof.
  intros Hb. unfold parse_eap_aka_summary, EAP_AKA_HEADER_LEN. np. subst.
  pose proof (summarize_attributes_agree (S (length (drop 8 p))) (drop 8 p) (bytes_ok_drop 8 p Hb)
    ltac:(lia)) as Hag.
  destruct (parse_attributes _ _); [by rewrite Hag|by destruct Hag as [? ->]|done].
Qed.
Lemma code_request c : eap_code_as_str (eap_code_from_u8 c) = "request"%string ↔ c = 1.
Proof.
  split; [|by intros ->]. unfold eap_code_from_u8. by repeat (case_match; try done).
Qed.
Lemma subtype_challenge c : subtype_as_str (subtype_from_u8 c) = "challenge"%string ↔ c = 1.
Proof.
  split; [|by intros ->]. unfold subtype_from_u8. by repeat (case_match; try done).
Qed.
(** The summary of a request with an EAP-AKA header. *)
Lemma summary_request p m t attrs : bytes_ok p → (8 ≤ length p)%nat → p !! 0%nat = Some 1 →
  Z.to_nat (of_be_bytes (take 2 (drop 2 p))) = length p → p !! 4%nat = Some m → p !! 5%nat = Some t →
  m = EAP_TYPE_AKA → attributes_of p = Ok attrs →
  ∃ i, p !! 1%nat = Some i ∧ parse_eap_aka_summary p
  = Ok (mkSummary "request" i "aka" (subtype_as_str (subtype_from_u8 t)) (length attrs) (summary_of <$> attrs)
      (length p) "rand_autn_res_ck_ik_never_serialized").
Proof.
  intros Hb Hl H0 Hd H4 H5 -> Ha. destruct (lookup_lt_is_Some_2 p 1) as [i H1]; [lia|]. exists i. split; [done|].
  unfold parse_eap_aka_summary, EAP_AKA_HEADER_LEN. rewrite (proj2 (Nat.ltb_ge _ 4)) by lia. cbn [fail_if].
  rewrite bind_ok, (proj2 (idx_Ok p 0 1) H0), bind_ok, (proj2 (idx_Ok p 1 i) H1), bind_ok.
  rewrite (proj2 (slice_Ok p 2 4 (take 2 (drop 2 p)))) by (split_and!; [lia|lia|done]).
  rewrite bind_ok, Hd, Nat.eqb_refl. cbn [negb fail_if]. rewrite bind_ok.
  change (bool_decide _ || bool_decide _) with false. cbv iota.
  rewrite (proj2 (Nat.ltb_ge _ 8)) by lia. cbn [fail_if]. rewrite bind_ok, (proj2 (idx_Ok p 4 _) H4), bind_ok.
  rewrite Z.eqb_refl. cbn [negb fail_if]. rewrite bind_ok, (proj2 (idx_Ok p 5 t) H5), bind_ok.
  unfold attributes_of, EAP_AKA_HEADER_LEN in Ha. apply bind_Ok in Ha as (rest & [_ ->]%slice_from_Ok & Ha).
  rewrite (proj2 (slice_from_Ok p 8 (drop 8 p))) by (split; [lia|done]). rewrite bind_ok.
  pose proof (summarize_attributes_agree (S (length (drop 8 p))) (drop 8 p) (bytes_ok_drop 8 p Hb)
    ltac:(lia)) as Hag. rewrite Ha in Hag. rewrite Hag, bind_ok, length_fmap. done.
Qed.
Lemma check_packet_fields p subtype : check_packet p subtype = Ok tt ↔
  (8 ≤ length p)%nat ∧ Z.to_nat (of_be_bytes (take 2 (drop 2 p))) = length p ∧
  p !! 4%nat = Some EAP_TYPE_AKA ∧ p !! 5%nat = Some subtype.
Proof.
  unfold check_packet, EAP_AKA_HEADER_LEN. destruct (Nat.ltb_spec (length p) 8) as [Hl|Hl].
  { split; [done|]. intros [? _]. lia. }
  cbn [fail_if]. rewrite bind_ok. destruct (lookup_lt_is_Some_2 p 2) as [a H2]; [lia|].
  destruct (lookup_lt_is_Some_2 p 3) as [b H3]; [lia|]. destruct (lookup_lt_is_Some_2 p 4) as [c H4]; [lia|].
  destruct (lookup_lt_is_Some_2 p 5) as [d H5]; [lia|].
  rewrite (proj2 (idx_Ok p 2 a) H2), (proj2 (idx_Ok p 3 b) H3), !bind_ok.
  assert (take 2 (drop 2 p) = [a; b]) as ->.
  { rewrite (drop_S p a 2) by done. rewrite (drop_S p b 3) by done. done. }
  rewrite (proj2 (idx_Ok p 4 c) H4), (proj2 (idx_Ok p 5 d) H5), H4, H5.
  destruct (Nat.eqb_spec (Z.to_nat (of_be_bytes [a; b])) (length p)); cbn [negb fail_if];
    [rewrite !bind_ok|split; [done|tauto]].
  destruct (Z.eqb_spec c EAP_TYPE_AKA); cbn [negb fail_if];
    [rewrite !bind_ok|split; [done|by intros (_ & _ & [=] & _)]].
  destruct (Z.eqb_spec d subtype); cbn [negb fail_if]; [|split; [done|by intros (_ & _ & _ & [=])]].
  subst. tauto.
Qed.
Lemma summary_inv p s : parse_eap_aka_summary p = Ok s → es_code s = "request"%string →
  es_subtype s = "challenge"%string → p !! 0%nat = Some 1 ∧ check_packet p EAP_AKA_SUBTYPE_CHALLENGE = Ok tt.
Proof.
  unfold parse_eap_aka_summary, EAP_AKA_HEADER_LEN. intros H Hc Hs.
  apply bind_Ok in H as (u1 & _ & H). apply bind_Ok in H as (c & H0%idx_Ok & H).
  apply bind_Ok in H as (i & _ & H). apply bind_Ok in H as (l & (_ & _ & ->)%slice_Ok & H).
  apply bind_Ok in H as (u2 & Hl%fail_if_Ok%negb_false_iff%Nat.eqb_eq & H).
  destruct (_ || _); [by apply Ok_inj in H as <-|].
  apply bind_Ok in H as (u3 & H8%fail_if_Ok%Nat.ltb_ge & H). apply bind_Ok in H as (m & H4%idx_Ok & H).
  apply bind_Ok in H as (u4 & ->%fail_if_Ok%negb_false_iff%Z.eqb_eq & H).
  apply bind_Ok in H as (t & H5%idx_Ok & H). apply bind_Ok in H as (r & _ & H).
  apply bind_Ok in H as (a & _ & <-%Ok_inj). cbn [es_code es_subtype] in Hc, Hs.
  apply code_request in Hc as ->. apply subtype_challenge in Hs as ->.
  split; [done|]. by apply check_packet_fields.
Qed.

(** ** Properties *)

(** Over every run of polls at times that do not go back, a request stays on its
    schedule: the attempts are bounded by the policy and the timeout after [n] of them
    is the initial one doubled [n] times up to the maximum; the request is resent fewer
    times than the attempts allowed, giving up is final, and from the deadline on every
    poll gives up. *)
Theorem retransmission_schedule p id ts : policy_ok p → StronglySorted Z.le ts →
  let run := polls p (initial_state p id) ts in
  Forall (on_schedule p id) run ∧
  Z.of_nat (length (filter resent run)) < max_attempts p ∧
  (∀ i j a b, (i ≤ j)%nat → run !! i = Some a → gave_up a → run !! j = Some b → gave_up b) ∧
  (∀ i t a, ts !! i = Some t → exchange_deadline_ms p ≤ t → run !! i = Some a → gave_up a).
Proof.
  intros Hp Hs run. pose proof Hp as (Hm & _ & _ & Hd).
  assert (0 ≤ rt_attempts (initial_state p id) ≤ max_attempts p) as Hi by (cbn; lia). split_and!.
  - by apply polls_on_schedule, initial_on_schedule.
  - pose proof (polls_resent p ts Hp (initial_state p id) Hi) as H. cbn [rt_attempts initial_state] in H. unfold run. lia.
  - intros i j a b. by apply polls_gave_up.
  - intros i t a Ht Hdt Ha. destruct (polls_lookup p ts _ i t a Ht Ha) as (s0 & ->).
    apply evaluate_gives_up. left. lia.
Qed.

(** A notification the client builds is read back as its protocol, the size of its
    identifier and its type, whatever data follows; a message that carries it first is
    the event of that notification. *)
Theorem notify_roundtrip protocol spi t data p m : 0 ≤ t < 65536 →
  build_notify_payload protocol spi t data = Ok p → find_type Notify (payloads m) = Some p →
  parse_control_event m = Ok (mkControlEvent "notify" (message_id (header m)) (notify_protocol_as_u8 protocol)
    (Z.of_nat (length spi)) (bool_decide (spi ≠ [])) (Some t) (Some (notify_name t)) None (action_for_notify t)
    "spi_and_notify_data_values_not_serialized").
Proof.
  intros Ht Hb Hf. unfold build_notify_payload in Hb. apply bind_Ok in Hb as (u & Hl%fail_if_Ok%Z.ltb_ge & <-%Ok_inj).
  unfold u8_max in Hl. unfold parse_control_event. rewrite Hf. unfold parse_notify. cbn [body].
  set (b := _ ++ be_bytes 2 t ++ _).
  assert (length b = 4 + length spi + length data)%nat as Hlen.
  { unfold b. rewrite !length_app, length_be_bytes. cbn [length]. lia. }
  rewrite (proj2 (Nat.ltb_ge (length b) 4)) by lia. cbn [fail_if]. rewrite bind_ok.
  change (idx b 0) with (Ok (E:=IkeControlEventError) (notify_protocol_as_u8 protocol)).
  change (idx b 1) with (Ok (E:=IkeControlEventError) (Z.of_nat (length spi))). rewrite !bind_ok.
  assert (slice (E:=IkeControlEventError) b 2 4 = Ok (be_bytes 2 t)) as ->
    by (by apply (slice_app [_; _] (be_bytes 2 t)); rewrite ?length_be_bytes).
  rewrite bind_ok, of_be_bytes_be by done.
  rewrite Nat2Z.id, (proj2 (Nat.ltb_ge (length b) _)) by lia. cbn [fail_if]. rewrite bind_ok. do 2 f_equal.
  destruct spi; [done|]. cbn [length]. rewrite (proj2 (Z.ltb_lt 0 _)) by lia. by rewrite bool_decide_true.
Qed.

(** The summary that lets an EAP packet into the exchange and the reader that
    answers it agree on what a challenge is: a packet is summarised as an AKA challenge
    request exactly when it is a request and passes the checks and the attribute reader
    of the challenge parser, and the attributes are the same; the summary ends on
    every packet. *)
Theorem challenge_readers_agree p : bytes_ok p →
  no_panic (parse_eap_aka_summary p) ∧
  ∀ attrs,
  (∃ s, parse_eap_aka_summary p = Ok s ∧ es_code s = "request"%string ∧ es_method s = "aka"%string ∧
    es_subtype s = "challenge"%string ∧ es_attributes s = summary_of <$> attrs ∧ attributes_of p = Ok attrs) ↔
  (p !! 0%nat = Some 1 ∧ check_packet p EAP_AKA_SUBTYPE_CHALLENGE = Ok tt ∧ attributes_of p = Ok attrs).
Proof.
  intros Hb. split; [by apply no_panic_summary|]. intros attrs. split.
  - intros (s & Hs & Hc & _ & Ht & _ & Ha). by destruct (summary_inv p s Hs Hc Ht).
  - intros (H0 & (Hl & Hd & H4 & H5)%check_packet_fields & Ha).
    destruct (summary_request p _ _ attrs Hb Hl H0 Hd H4 H5 eq_refl Ha) as (i & _ & ->). by eexists.
Qed.

(** ** Witnesses *)
Lemma retransmission_schedule_witness :
  Forall gave_up (drop 4 (polls default_policy (initial_state default_policy 7) [500; 1000; 2500; 4000; 8000; 9000])) ∧
  Z.of_nat (length (filter resent
    (polls default_policy (initial_state default_policy 7) [500; 1000; 2500; 4000; 8000; 9000]))) = 4 ∧
  gave_up (evaluate default_policy (initial_state default_policy 7) 30000).
Proof.
  destruct (retransmission_schedule default_policy 7 [30000]) as (_ & _ & _ & H).
  - by repeat split.
  - repeat constructor.
  - split_and!; [repeat constructor|done|]. apply (H 0%nat 30000 _ eq_refl); [by vm_compute|done].
Defined.
Lemma notify_roundtrip_witness :
  ce_action <$> parse_control_event (new_request 1 Informational 4 [mkPayload Notify false [0; 0; 0x40; 0x09]])
  = Ok "schedule_rekey"%string.
Proof.
  rewrite (notify_roundtrip NotifyNone [] 16393 [] (mkPayload Notify false [0; 0; 0x40; 0x09])); done.
Defined.
Lemma challenge_readers_agree_witness :
  ∃ s, parse_eap_aka_summary (challenge_packet 9 (replicate 16 1) (replicate 16 2) true (replicate 16 3)) = Ok s ∧
    es_attribute_count s = 4%nat.
Proof.
  destruct (challenge_readers_agree (challenge_packet 9 (replicate 16 1) (replicate 16 2) true (replicate 16 3)))
    as [_ H].
  - by apply (bool_decide_unpack _).
  - destruct (proj2 (H ((λ '(t, v), padded_attribute t v)
      <$> challenge_attrs (replicate 16 1) (replicate 16 2) true (replicate 16 3)))) as (s & Hs & _).
    + by vm_compute.
    + exists s. split; [done|]. revert Hs. vm_compute. by intros [= <-].
Defined.
