(* ===== verification/IkeConfig.v ===== *)
(** * What the IKEv2 exchange reads and compares

    Models the free functions of [connectivity/modems/ims/vowifi/ike_state.rs]: the
    reasons of a NOTIFY, the hash of NAT detection, the proposals a responder
    selected against those of the profile, the configuration reply and the traffic
    selectors.  SHA-1 is a parameter. *)
From Stdlib Require Import ZArith Lia String.
From stdpp Require Import prelude.
From S2P Require Import Prelude Text Stun Bytes IkeCodec IkePayloads IkeKeys IkeCrypt EapAka IkeEvents.
Local Open Scope Z_scope.

Definition NOTIFY_NAT_DETECTION_SOURCE_IP : Z := 16388.
Definition NOTIFY_NAT_DETECTION_DESTINATION_IP : Z := 16389.
Definition NOTIFY_EAP_ONLY_AUTHENTICATION : Z := 16417.

(** ** Errors *)
Inductive IkeStateError :=
| EmptyProfileProposals
| PayloadBuild (e : PayloadBuildError)
| ProposalParse (e : ProposalParseError)
| SaParse (e : SaParseError)
| KeySchedule (e : IkeKeyError)
| EncryptedPayload (e : EncryptedPayloadError)
| MessageCodec (e : IkeCodecError)
| ControlEvent (e : IkeControlEventError)
| Eap (e : EapAkaError)
| InvalidPhase (expected actual : string)
| InvalidResponse (reason : string).
Definition state_error_text (e : IkeStateError) : str :=
  match e with
  | EmptyProfileProposals => lit "profile has no IKE proposals"
  | PayloadBuild e => payload_build_error_text e
  | ProposalParse e => proposal_error_text e
  | SaParse e => sa_parse_error_text e
  | KeySchedule e => key_error_text e
  | EncryptedPayload e => encrypted_error_text e
  | MessageCodec e => codec_error_text e
  | ControlEvent e => control_error_text e
  | Eap e => eap_error_text e
  | InvalidPhase expected actual =>
    lit "invalid IKE phase expected=" ++ lit expected ++ lit " actual=" ++ lit actual
  | InvalidResponse reason => lit "invalid IKE response: " ++ lit reason
  end.

(** ** Names *)
Definition exchange_type_name (t : IkeExchangeType) : string :=
  match t with
  | IkeSaInit => "ike_sa_init"
  | IkeAuth => "ike_auth"
  | CreateChildSa => "create_child_sa"
  | Informational => "informational"
  | SessionResume => "session_resume"
  | UnknownExchange _ => "unknown"
  end.
(** The names of the transcript; [ike_encrypted.rs] calls an EAP payload ["eap"]. *)
Definition payload_name (t : IkePayloadType) : string :=
  match t with
  | NoNext => "no_next"
  | SecurityAssociation => "security_association"
  | KeyExchange => "key_exchange"
  | IdentificationInitiator => "identification_initiator"
  | IdentificationResponder => "identification_responder"
  | Certificate => "certificate"
  | CertificateRequest => "certificate_request"
  | Authentication => "authentication"
  | Nonce => "nonce"
  | Notify => "notify"
  | Delete => "delete"
  | VendorId => "vendor_id"
  | TrafficSelectorInitiator => "traffic_selector_initiator"
  | TrafficSelectorResponder => "traffic_selector_responder"
  | Encrypted => "encrypted"
  | Configuration => "configuration"
  | ExtensibleAuthentication => "extensible_authentication"
  | EncryptedFragment => "encrypted_fragment"
  | UnknownPayload _ => "unknown"
  end.

(** ** Notifications *)
Definition notify_type (body : list Z) : option Z :=
  match body with
  | _ :: _ :: b2 :: b3 :: _ => Some (of_be_bytes [b2; b3])
  | _ => None
  end.
Definition notify_private_or_extension_reason (notify_type : Z) : str :=
  if in_range 8192 16383 notify_type then
    lit "ike_auth_notify_status_reserved_or_extension_type_" ++ fmt_dec notify_type
  else if in_range 40960 65535 notify_type then
    lit "ike_auth_notify_private_use_type_" ++ fmt_dec notify_type
  else lit "ike_auth_notify_private_or_extension_type_" ++ fmt_dec notify_type.
Definition notify_reason (body : list Z) : option str :=
  match notify_type body with
  | None => Some (lit "ike_auth_notify_truncated")
  | Some notify_type =>
    Some (match notify_name notify_type with
    | "authentication_failed"%string => lit "ike_auth_notify_authentication_failed"
    | "no_proposal_chosen"%string => lit "ike_auth_notify_no_proposal_chosen"
    | "invalid_syntax"%string => lit "ike_auth_notify_invalid_syntax"
    | "invalid_ke_payload"%string => lit "ike_auth_notify_invalid_ke_payload"
    | "invalid_group_id"%string => lit "ike_auth_notify_invalid_group_id"
    | "single_pair_required"%string => lit "ike_auth_notify_single_pair_required"
    | "no_additional_sas"%string => lit "ike_auth_notify_no_additional_sas"
    | "internal_address_failure"%string => lit "ike_auth_notify_internal_address_failure"
    | "failed_cp_required"%string => lit "ike_auth_notify_failed_cp_required"
    | "ts_unacceptable"%string => lit "ike_auth_notify_ts_unacceptable"
    | "invalid_selectors"%string => lit "ike_auth_notify_invalid_selectors"
    | "unacceptable_addresses"%string => lit "ike_auth_notify_unacceptable_addresses"
    | "temporary_failure"%string => lit "ike_auth_notify_temporary_failure"
    | "child_sa_not_found"%string => lit "ike_auth_notify_child_sa_not_found"
    | "authorization_failed"%string => lit "ike_auth_notify_authorization_failed"
    | "private_or_extension"%string => notify_private_or_extension_reason notify_type
    | _ => lit "ike_auth_notify_unknown"
    end)
  end.

(** ** NAT detection: SHA-1 of both identifiers, the address and the port *)
Definition nat_detection_hash {E} (sha1 : list Z → list Z) (initiator_spi responder_spi : Z)
    (addr : SocketAddr) : res E (list Z) :=
  let input := be_bytes 8 initiator_spi ++ be_bytes 8 responder_spi
    ++ match addr_ip addr with V4 octets => octets | V6 octets => octets end
    ++ be_bytes 2 (addr_port addr) in
  let digest := sha1 input in
  if (length digest =? 20)%nat then Ok digest else Panic.

(** ** Selected proposals *)
Definition transform_attributes_match (parsed : ParsedTransform) (expected : TransformSpec) : bool :=
  forallb (λ attribute, match attribute with
    | KeyLength bits =>
      existsb (λ a, (pa_attribute_type a =? 14) && (pa_value a =? bits)) (pt_attributes parsed)
    end) (attributes expected).
Definition transform_selected (selected : list ParsedTransform) (expected : TransformSpec) : bool :=
  existsb (λ parsed, (pt_transform_type parsed =? transform_type_as_u8 (transform_type expected))
    && (pt_transform_id parsed =? transform_id expected) && transform_attributes_match parsed expected) selected.
Definition ike_proposal_selected (proposals : list ParsedProposal) (expected : ProposalSpec) : bool :=
  existsb (λ p, (pp_protocol_id p =? protocol_id_as_u8 (protocol_id expected))
    && forallb (transform_selected (pp_transforms p)) (transforms expected)) proposals.
(** The [find_map] over the offered proposals and their indices. *)
Fixpoint find_offered (proposals : list ParsedProposal) (offered : list str) (index : nat) : option str :=
  match offered with
  | [] => None
  | text :: offered =>
    match res_ok (ike_proposal_from_profile_string text (u8 (Z.of_nat (S index)))) with
    | Some expected =>
      if ike_proposal_selected proposals expected then Some text
      else find_offered proposals offered (S index)
    | None => find_offered proposals offered (S index)
    end
  end.
Definition matching_ike_profile_proposal (proposals : list ParsedProposal) (offered : list str) : option str :=
  find_offered proposals offered 0.
Definition child_proposal_selected (proposal : ParsedProposal) (text : str) : bool :=
  match res_ok (child_sa_proposal_from_profile_string text (pp_number proposal) (pp_spi proposal)) with
  | Some expected => forallb (transform_selected (pp_transforms proposal)) (transforms expected)
  | None => false
  end.
(** [iter.find(f)] *)
Fixpoint find_first {A} (f : A → bool) (l : list A) : option A :=
  match l with [] => None | x :: l => if f x then Some x else find_first f l end.
Definition matching_child_sa_profile_proposal (proposal : ParsedProposal) (esp_proposals : list str) : option str :=
  find_first (child_proposal_selected proposal) esp_proposals.
Definition child_sa_selection_matches_profile (proposal : ParsedProposal) (esp_proposals : list str) : bool :=
  bool_decide (is_Some (matching_child_sa_profile_proposal proposal esp_proposals)).

(** ** The configuration reply *)
Record ConfigurationReplySummary := mkConfiguration {
  assigned_inner_address_present : bool;
  assigned_inner_addresses : list IpAddr;
  assigned_ipv6_prefix_length : option Z;
  pcscf_present : bool;
  pcscf_addresses : list IpAddr;
  dns_present : bool;
  dns_addresses : list IpAddr;
}.
Definition parse_ipv4_config_value (value : list Z) : option IpAddr :=
  if (length value =? 4)%nat then Some (V4 value) else None.
Definition parse_ipv6_config_value (value : list Z) : option (IpAddr * Z) :=
  if (length value =? 16)%nat then Some (V6 value, 128)
  else if (length value =? 17)%nat then
    prefix ← value !! 16%nat; Some (V6 (take 16 value), prefix)
  else None.
Definition push_some {A} (l : list A) (x : option A) : list A :=
  match x with Some x => l ++ [x] | None => l end.
Definition config_attribute (s : ConfigurationReplySummary) (attribute_type : Z) (value : list Z)
    : ConfigurationReplySummary :=
  let '(mkConfiguration ap aa pl pp pa dp da) := s in
  if attribute_type =? CFG_ATTR_INTERNAL_IP4_ADDRESS then
    mkConfiguration true (push_some aa (parse_ipv4_config_value value)) pl pp pa dp da
  else if attribute_type =? CFG_ATTR_INTERNAL_IP6_ADDRESS then
    match parse_ipv6_config_value value with
    | Some (addr, prefix_len) => mkConfiguration true (aa ++ [addr]) (Some prefix_len) pp pa dp da
    | None => mkConfiguration true aa pl pp pa dp da
    end
  else if attribute_type =? CFG_ATTR_INTERNAL_IP4_DNS then
    mkConfiguration ap aa pl pp pa true (push_some da (parse_ipv4_config_value value))
  else if attribute_type =? CFG_ATTR_INTERNAL_IP6_DNS then
    mkConfiguration ap aa pl pp pa true (push_some da (fst <$> parse_ipv6_config_value value))
  else if attribute_type =? CFG_ATTR_INTERNAL_IP4_PCSCF then
    mkConfiguration ap aa pl true (push_some pa (parse_ipv4_config_value value)) dp da
  else if attribute_type =? CFG_ATTR_INTERNAL_IP6_PCSCF then
    mkConfiguration ap aa pl true (push_some pa (fst <$> parse_ipv6_config_value value)) dp da
  else s.
Fixpoint config_attributes (fuel : nat) (s : ConfigurationReplySummary) (input : list Z)
    : res IkeStateError ConfigurationReplySummary :=
  match fuel with
  | O => Panic
  | S fuel =>
    if bool_decide (input = []) then Ok s else
    fail_if (length input <? 4)%nat (InvalidResponse "invalid_configuration_attribute");;
    t0 ← idx input 0;
    t1 ← idx input 1;
    let attribute_type := Z.land (of_be_bytes [t0; t1]) 0x7fff in
    l0 ← idx input 2;
    l1 ← idx input 3;
    let len := Z.to_nat (of_be_bytes [l0; l1]) in
    fail_if (length input <? 4 + len)%nat (InvalidResponse "invalid_configuration_attribute");;
    value ← slice input 4 (4 + len);
    input ← slice_from input (4 + len);
    config_attributes fuel (config_attribute s attribute_type value) input
  end.
Definition empty_configuration : ConfigurationReplySummary := mkConfiguration false [] None false [] false [].
Definition summarize_configuration_reply (body : list Z) : res IkeStateError ConfigurationReplySummary :=
  fail_if (length body <? 4)%nat (InvalidResponse "invalid_configuration_payload");;
  input ← slice_from body 4;
  config_attributes (S (length input)) empty_configuration input.

(** ** Traffic selectors, for the log *)
Definition format_address (bytes : list Z) (ts_type : Z) : str :=
  if (ts_type =? 7) && (4 <=? length bytes)%nat then
    match bytes with
    | b0 :: b1 :: b2 :: b3 :: _ =>
      fmt_dec b0 ++ lit "." ++ fmt_dec b1 ++ lit "." ++ fmt_dec b2 ++ lit "." ++ fmt_dec b3
    | _ => []
    end
  else if (ts_type =? 8) && (16 <=? length bytes)%nat then
    lit "[" ++ mjoin (zip_with app ([] :: replicate 15 (lit ":")) (fmt_byte <$> take 16 bytes)) ++ lit "]"
  else fmt_nat (length bytes) ++ lit " bytes".
(** The loop over the announced number of selectors. *)
Fixpoint selectors_from (count : nat) (input : list Z) (selectors : list str) : res IkeStateError (list str) :=
  match count with
  | O => Ok selectors
  | S count =>
    if (length input <? 8)%nat then Ok selectors else
    ts_type ← idx input 0;
    protocol ← idx input 1;
    len ← slice input 2 4;
    let len := Z.to_nat (of_be_bytes len) in
    start_port ← slice input 4 6;
    end_port ← slice input 6 8;
    if ((len <? 4) || (length input <? 8 + len))%nat then Ok selectors else
    address_bytes ← slice input 8 (8 + (len - 4));
    let half := (length address_bytes / 2)%nat in
    let start := format_address (take half address_bytes) ts_type in
    let end_ := format_address (drop half address_bytes) ts_type in
    let text := lit "type=" ++ fmt_dec ts_type ++ lit " proto=" ++ fmt_dec protocol ++ lit " ports="
      ++ fmt_dec (of_be_bytes start_port) ++ lit "-" ++ fmt_dec (of_be_bytes end_port) ++ lit " addrs="
      ++ start ++ lit "-" ++ end_ in
    input ← slice_from input (8 + len);
    selectors_from count input (selectors ++ [text])
  end.
Definition summarize_traffic_selectors (body : list Z) : res IkeStateError (option (list str)) :=
  if (length body <? 4)%nat then Ok None else
  count ← idx body 0;
  input ← slice_from body 4;
  Some <$> selectors_from (Z.to_nat count) input [].

(** ** Lemmas on searches *)
Lemma find_first_Some {A} (f : A → bool) l x : find_first f l = Some x → x ∈ l ∧ f x = true.
Proof.
  induction l as [|y l IH]; [done|]. cbn [find_first]. destruct (f y) eqn:Hy.
  - intros [= ->]. split; [left|done].
  - intros [? ?]%IH. split; [by right|done].
Qed.
Lemma find_first_None {A} (f : A → bool) l x : x ∈ l → f x = true → is_Some (find_first f l).
Proof.
  induction 1 as [|y z l Hz IH]; intros Hf; cbn [find_first]; [by rewrite Hf|].
  destruct (f z); [done|]. by apply IH.
Qed.
Lemma find_type_Some t l p : find_type t l = Some p → p ∈ l ∧ payload_type p = t.
Proof.
  induction l as [|q l IH]; [done|]. cbn [find_type]. destruct (decide _).
  - intros [= ->]. split; [left|done].
  - intros [? ?]%IH. split; [by right|done].
Qed.

(** ** The selected proposal *)
Lemma transform_attributes_parsed e : Forall attribute_ok (attributes e) →
  transform_attributes_match (parsed_transform e) e = true.
Proof.
  intros _. apply forallb_forall. intros [bits] Hin%list_elem_of_In. apply existsb_exists.
  exists (parsed_attribute (KeyLength bits)). split; [|cbn; by rewrite Z.eqb_refl].
  cbn [parsed_transform pt_attributes]. apply list_elem_of_In. apply list_elem_of_fmap. by eexists.
Qed.
(** A responder that lists the proposal it was offered selects it. *)
Lemma transform_selected_parsed l e : transform_ok e → e ∈ l → transform_selected (parsed_transform <$> l) e = true.
Proof.
  intros [_ Hok] Hin. apply existsb_exists. exists (parsed_transform e). split.
  - apply list_elem_of_In, list_elem_of_fmap. by eexists.
  - cbn [parsed_transform pt_transform_type pt_transform_id]. rewrite !Z.eqb_refl. cbn [andb].
    by apply transform_attributes_parsed.
Qed.
Lemma find_offered_Some ps offered : ∀ index text, find_offered ps offered index = Some text →
  ∃ i expected p, offered !! i = Some text ∧
    ike_proposal_from_profile_string text (u8 (Z.of_nat (S (index + i)))) = Ok expected ∧ p ∈ ps ∧
    pp_protocol_id p = protocol_id_as_u8 (protocol_id expected) ∧
    Forall (λ e, transform_selected (pp_transforms p) e = true) (transforms expected).
Proof.
  induction offered as [|t offered IH]; intros index text H; [done|]. cbn [find_offered] in H.
  assert (find_offered ps offered (S index) = Some text → ∃ i expected p, (t :: offered) !! i = Some text ∧
    ike_proposal_from_profile_string text (u8 (Z.of_nat (S (index + i)))) = Ok expected ∧ p ∈ ps ∧
    pp_protocol_id p = protocol_id_as_u8 (protocol_id expected) ∧
    Forall (λ e, transform_selected (pp_transforms p) e = true) (transforms expected)) as Hrest.
  { intros (i & e & p & Hi & He & Hp)%IH. exists (S i), e, p. split; [done|].
    replace (S (index + S i)) with (S (S index + i)) by lia. done. }
  destruct (ike_proposal_from_profile_string t _) as [expected|e|] eqn:Ht; cbn [res_ok] in H; [|by apply Hrest..].
  destruct (ike_proposal_selected ps expected) eqn:Hs; [|by apply Hrest]. injection H as <-.
  apply existsb_exists in Hs as (p & Hp%list_elem_of_In & (Hid%Z.eqb_eq & Hall)%andb_true_iff).
  exists 0%nat, expected, p. rewrite Nat.add_0_r. split_and!; try done.
  apply Forall_forall. intros e He. eapply forallb_forall in Hall; [exact Hall|by apply list_elem_of_In].
Qed.
Lemma find_offered_complete ps offered : ∀ index i text expected p, offered !! i = Some text →
  ike_proposal_from_profile_string text (u8 (Z.of_nat (S (index + i)))) = Ok expected → p ∈ ps →
  pp_protocol_id p = protocol_id_as_u8 (protocol_id expected) →
  Forall (λ e, transform_selected (pp_transforms p) e = true) (transforms expected) →
  is_Some (find_offered ps offered index).
Proof.
  induction offered as [|t offered IH]; intros index i text expected p Hi He Hp Hid Hall; [done|].
  cbn [find_offered]. destruct i as [|i].
  - injection Hi as ->. rewrite Nat.add_0_r in He. rewrite He. cbn [res_ok].
    assert (ike_proposal_selected ps expected = true) as ->; [|done]. apply existsb_exists. exists p.
    split; [by apply list_elem_of_In|]. rewrite Hid, Z.eqb_refl. apply forallb_forall.
    intros e Hin%list_elem_of_In. rewrite Forall_forall in Hall. by apply Hall.
  - replace (S (index + S i)) with (S (S index + i)) in He by lia.
    pose proof (IH (S index) i text expected p Hi He Hp Hid Hall). by repeat case_match.
Qed.
Lemma child_match_Some p esp text : matching_child_sa_profile_proposal p esp = Some text →
  text ∈ esp ∧ ∃ expected, child_sa_proposal_from_profile_string text (pp_number p) (pp_spi p) = Ok expected ∧
    Forall (λ e, transform_selected (pp_transforms p) e = true) (transforms expected).
Proof.
  intros [Hin Hf]%find_first_Some. split; [done|]. unfold child_proposal_selected in Hf.
  destruct (child_sa_proposal_from_profile_string _ _ _) as [e| |] eqn:He; cbn [res_ok] in Hf; [|done..].
  exists e. split; [done|]. apply Forall_forall. intros x Hx. eapply forallb_forall in Hf; [exact Hf|].
  by apply list_elem_of_In.
Qed.

(** ** Totality *)
Lemma no_panic_config_attributes fuel : ∀ s input, (length input < fuel)%nat → no_panic (config_attributes fuel s input).
Proof.
  induction fuel as [|fuel IH]; intros s input Hf; [lia|]. cbn [config_attributes].
  case_bool_decide; [done|]. np. apply IH. rewrite length_drop. lia.
Qed.
Lemma no_panic_configuration body : no_panic (summarize_configuration_reply body).
Proof. unfold summarize_configuration_reply. np. apply no_panic_config_attributes. lia. Qed.
Lemma no_panic_selectors count : ∀ input acc, no_panic (selectors_from count input acc).
Proof.
  induction count as [|count IH]; intros input acc; [done|]. cbn [selectors_from].
  destruct (Nat.ltb_spec (length input) 8); [done|]. np.
Qed.
Lemma no_panic_traffic_selectors body : no_panic (summarize_traffic_selectors body).
Proof.
  unfold summarize_traffic_selectors. destruct (Nat.ltb_spec (length body) 4); [done|]. np_step; [np_step|].
  np_step; [np_step|]. pose proof (no_panic_selectors (Z.to_nat a) (drop 4 body) []) as Hn.
  by destruct (selectors_from _ _ _).
Qed.

(** ** A configuration reply of an ePDG *)
Definition config_bytes (attrs : list (Z * list Z)) : list Z :=
  attrs ≫= λ '(t, v), be_bytes 2 t ++ be_bytes 2 (Z.of_nat (length v)) ++ v.
(** The reply bit of the attribute type is reserved: fifteen bits are the type. *)
Definition config_attr_ok (a : Z * list Z) : Prop := 0 ≤ a.1 < 32768 ∧ Z.of_nat (length a.2) < 65536.
#[export] Instance config_attr_ok_dec a : Decision (config_attr_ok a).
Proof. unfold config_attr_ok. apply _. Defined.
Definition address_of (v4 v6 : Z) (a : Z * list Z) : option IpAddr :=
  if a.1 =? v4 then parse_ipv4_config_value a.2
  else if a.1 =? v6 then fst <$> parse_ipv6_config_value a.2 else None.
Definition assigned_prefix (a : Z * list Z) : option Z :=
  if a.1 =? CFG_ATTR_INTERNAL_IP6_ADDRESS then snd <$> parse_ipv6_config_value a.2 else None.
Definition names_one (v4 v6 : Z) (attrs : list (Z * list Z)) : bool :=
  existsb (λ a, (a.1 =? v4) || (a.1 =? v6)) attrs.

Lemma config_attributes_encoded attrs : ∀ fuel s, Forall config_attr_ok attrs → (length attrs < fuel)%nat →
  config_attributes fuel s (config_bytes attrs) = Ok (foldl (λ s '(t, v), config_attribute s t v) s attrs).
Proof.
  induction attrs as [|[t v] attrs IH]; intros fuel s Hok Hf; (destruct fuel as [|fuel]; [cbn in Hf; lia|]).
  { done. }
  apply Forall_cons in Hok as [[Ht Hv] Hok]. cbn [fst snd] in Ht, Hv. cbn [config_attributes].
  unfold config_bytes. rewrite bind_cons. fold (config_bytes attrs). rewrite <-!app_assoc, !be_bytes_2.
  set (input := _ ++ _ ++ v ++ config_bytes attrs).
  assert (length input = 4 + length v + length (config_bytes attrs))%nat as Hlen.
  { unfold input. rewrite !length_app. cbn [length]. lia. }
  rewrite bool_decide_false by (intros E; rewrite E in Hlen; cbn in Hlen; lia).
  rewrite (proj2 (Nat.ltb_ge (length input) 4)) by lia. cbn [fail_if]. rewrite bind_ok.
  change (idx input 0) with (Ok (E:=IkeStateError) ((t / 256) mod 256)).
  change (idx input 1) with (Ok (E:=IkeStateError) (t mod 256)).
  change (idx input 2) with (Ok (E:=IkeStateError) ((Z.of_nat (length v) / 256) mod 256)).
  change (idx input 3) with (Ok (E:=IkeStateError) (Z.of_nat (length v) mod 256)).
  rewrite !bind_ok, !of_be_bytes_2, Nat2Z.id by lia.
  rewrite (proj2 (Nat.ltb_ge (length input) _)) by lia. cbn [fail_if]. rewrite bind_ok.
  change input with ([(t / 256) mod 256; t mod 256; (Z.of_nat (length v) / 256) mod 256; Z.of_nat (length v) mod 256]
    ++ v ++ config_bytes attrs) at 1 2.
  rewrite slice_app by done. rewrite bind_ok. unfold slice_from.
  rewrite app_assoc, get_from_app by (rewrite length_app; done). rewrite bind_ok.
  change 0x7fff with (Z.ones 15). rewrite Z.land_ones, Z.mod_small by lia.
  cbn [foldl]. apply IH; [done|cbn in Hf; lia].
Qed.
Lemma push_some_list {A} (l : list A) o : push_some l o = l ++ option_list o.
Proof. destruct o; [done|]. symmetry. apply app_nil_r. Qed.
Lemma omap_option_list {A B} (f : A → option B) x l : omap f (x :: l) = option_list (f x) ++ omap f l.
Proof. cbn. by destruct (f x). Qed.
(** What one attribute adds to each field. *)
Lemma config_attribute_fields s t v :
  let r := config_attribute s t v in
  assigned_inner_addresses r = assigned_inner_addresses s
    ++ option_list (address_of CFG_ATTR_INTERNAL_IP4_ADDRESS CFG_ATTR_INTERNAL_IP6_ADDRESS (t, v)) ∧
  pcscf_addresses r = pcscf_addresses s
    ++ option_list (address_of CFG_ATTR_INTERNAL_IP4_PCSCF CFG_ATTR_INTERNAL_IP6_PCSCF (t, v)) ∧
  dns_addresses r = dns_addresses s
    ++ option_list (address_of CFG_ATTR_INTERNAL_IP4_DNS CFG_ATTR_INTERNAL_IP6_DNS (t, v)) ∧
  assigned_ipv6_prefix_length r
    = from_option Some (assigned_ipv6_prefix_length s) (assigned_prefix (t, v)) ∧
  assigned_inner_address_present r = assigned_inner_address_present s
    || ((t =? CFG_ATTR_INTERNAL_IP4_ADDRESS) || (t =? CFG_ATTR_INTERNAL_IP6_ADDRESS)) ∧
  pcscf_present r = pcscf_present s
    || ((t =? CFG_ATTR_INTERNAL_IP4_PCSCF) || (t =? CFG_ATTR_INTERNAL_IP6_PCSCF)) ∧
  dns_present r = dns_present s || ((t =? CFG_ATTR_INTERNAL_IP4_DNS) || (t =? CFG_ATTR_INTERNAL_IP6_DNS)).
Proof.
  destruct s as [ap aa pl pp pa dp da]. unfold config_attribute, address_of, assigned_prefix. cbn [fst snd].
  unfold CFG_ATTR_INTERNAL_IP4_ADDRESS, CFG_ATTR_INTERNAL_IP6_ADDRESS, CFG_ATTR_INTERNAL_IP4_PCSCF,
    CFG_ATTR_INTERNAL_IP6_PCSCF, CFG_ATTR_INTERNAL_IP4_DNS, CFG_ATTR_INTERNAL_IP6_DNS.
  assert (∀ b : bool, b || false = b) as Hb by (by intros []). assert (∀ b : bool, b || true = true) as Hb' by (by intros []).
  repeat (match goal with |- context [t =? ?n] => destruct (Z.eqb_spec t n); [subst t|] end); try discriminate;
    try (destruct (parse_ipv6_config_value v) as [[ip pre]|]); cbn; rewrite ?push_some_list, ?app_nil_r, ?Hb, ?Hb'; done.
Qed.
Lemma config_fold attrs : ∀ s,
  let r := foldl (λ s '(t, v), config_attribute s t v) s attrs in
  assigned_inner_addresses r = assigned_inner_addresses s
    ++ omap (address_of CFG_ATTR_INTERNAL_IP4_ADDRESS CFG_ATTR_INTERNAL_IP6_ADDRESS) attrs ∧
  pcscf_addresses r = pcscf_addresses s
    ++ omap (address_of CFG_ATTR_INTERNAL_IP4_PCSCF CFG_ATTR_INTERNAL_IP6_PCSCF) attrs ∧
  dns_addresses r = dns_addresses s ++ omap (address_of CFG_ATTR_INTERNAL_IP4_DNS CFG_ATTR_INTERNAL_IP6_DNS) attrs ∧
  assigned_ipv6_prefix_length r
    = from_option Some (assigned_ipv6_prefix_length s) (last (omap assigned_prefix attrs)) ∧
  assigned_inner_address_present r = assigned_inner_address_present s
    || names_one CFG_ATTR_INTERNAL_IP4_ADDRESS CFG_ATTR_INTERNAL_IP6_ADDRESS attrs ∧
  pcscf_present r = pcscf_present s || names_one CFG_ATTR_INTERNAL_IP4_PCSCF CFG_ATTR_INTERNAL_IP6_PCSCF attrs ∧
  dns_present r = dns_present s || names_one CFG_ATTR_INTERNAL_IP4_DNS CFG_ATTR_INTERNAL_IP6_DNS attrs.
Proof.
  induction attrs as [|[t v] attrs IH]; intros s r.
  { unfold r. cbn. rewrite !app_nil_r, !orb_false_r. by destruct s. }
  unfold r. cbn [foldl]. specialize (IH (config_attribute s t v)). cbn zeta in IH.
  destruct IH as (-> & -> & -> & -> & -> & -> & ->).
  destruct (config_attribute_fields s t v) as (-> & -> & -> & -> & -> & -> & ->).
  rewrite !omap_option_list, <-!app_assoc, <-!orb_assoc. split_and!; try done.
  - destruct (assigned_prefix (t, v)) as [q|]; [|done].
    change (option_list (Some q) ++ omap assigned_prefix attrs) with (q :: omap assigned_prefix attrs).
    rewrite last_cons. by destruct (last _).
  - cbn [names_one existsb fst]. by rewrite <-!orb_assoc.
  - cbn [names_one existsb fst]. by rewrite <-!orb_assoc.
  - cbn [names_one existsb fst]. by rewrite <-!orb_assoc.
Qed.

(** A single selector of the shape of RFC 7296, section 3.13.1, whose length counts its
    own eight-byte header: the code counts it twice and lists nothing. *)
Lemma lone_selector_not_listed t ip : requests_ipv4 ip = negb (requests_ipv6 ip) →
  summarize_traffic_selectors (body (build_traffic_selector_payload t ip)) = Ok (Some []).
Proof.
  intros H. unfold build_traffic_selector_payload. rewrite H.
  by destruct (requests_ipv6 ip); vm_compute.
Qed.

(** ** Properties *)

(** A configuration reply is read to what it assigns: for every list of attributes an
    ePDG writes, the inner addresses, the P-CSCF and the DNS servers are those of the
    well-formed attributes of each kind in their order, the prefix length is that of the
    last IPv6 address, and each kind is present when an attribute names it, even a
    malformed one; reading ends on every body without a panic. *)
Theorem configuration_reply_read attrs h : Forall config_attr_ok attrs → length h = 4%nat →
  ∃ s, summarize_configuration_reply (h ++ config_bytes attrs) = Ok s ∧
    assigned_inner_addresses s = omap (address_of CFG_ATTR_INTERNAL_IP4_ADDRESS CFG_ATTR_INTERNAL_IP6_ADDRESS) attrs ∧
    pcscf_addresses s = omap (address_of CFG_ATTR_INTERNAL_IP4_PCSCF CFG_ATTR_INTERNAL_IP6_PCSCF) attrs ∧
    dns_addresses s = omap (address_of CFG_ATTR_INTERNAL_IP4_DNS CFG_ATTR_INTERNAL_IP6_DNS) attrs ∧
    assigned_ipv6_prefix_length s = last (omap assigned_prefix attrs) ∧
    assigned_inner_address_present s
      = names_one CFG_ATTR_INTERNAL_IP4_ADDRESS CFG_ATTR_INTERNAL_IP6_ADDRESS attrs ∧
    pcscf_present s = names_one CFG_ATTR_INTERNAL_IP4_PCSCF CFG_ATTR_INTERNAL_IP6_PCSCF attrs ∧
    dns_present s = names_one CFG_ATTR_INTERNAL_IP4_DNS CFG_ATTR_INTERNAL_IP6_DNS attrs ∧
    ∀ b, no_panic (summarize_configuration_reply b).
Proof.
  intros Hok Hh. eexists. split.
  - unfold summarize_configuration_reply. rewrite (proj2 (Nat.ltb_ge _ 4)) by (rewrite length_app; lia).
    cbn [fail_if]. rewrite bind_ok. unfold slice_from. rewrite get_from_app, bind_ok by done.
    apply config_attributes_encoded; [done|]. clear Hok. induction attrs as [|[t v] attrs IH]; [cbn; lia|].
    unfold config_bytes in *. rewrite bind_cons, !length_app, !length_be_bytes. cbn [length]. lia.
  - destruct (config_fold attrs empty_configuration) as (-> & -> & -> & -> & -> & -> & ->).
    split_and!; try done; [by destruct (last _)|apply no_panic_configuration].
Qed.
Definition sample_reply : list (Z * list Z) :=
  [(1, [10; 0; 0; 9]); (20, [10; 1; 0; 1]); (8, replicate 16 32 ++ [64]); (3, [8; 8]); (21, replicate 16 7)].
Lemma configuration_reply_read_witness : ∃ s,
  summarize_configuration_reply ([2; 0; 0; 0] ++ config_bytes sample_reply) = Ok s ∧
  assigned_inner_addresses s = [V4 [10; 0; 0; 9]; V6 (replicate 16 32)] ∧
  assigned_ipv6_prefix_length s = Some 64 ∧ dns_addresses s = [] ∧ dns_present s = true.
Proof.
  destruct (configuration_reply_read sample_reply [2; 0; 0; 0]) as (s & H1 & H2 & _ & H3 & H4 & _ & _ & H5 & _).
  - by apply (bool_decide_unpack _).
  - done.
  - exists s. split; [done|]. rewrite H2, H3, H4, H5. by vm_compute.
Defined.
