(* ===== verification/IkeState.v ===== *)
(** * The IKEv2 exchange with the ePDG

    Models [IkeStateMachine] of [connectivity/modems/ims/vowifi/ike_state.rs]: the
    phases from the first request to the ready ESP child, the requests the client
    builds, the responses it accepts and the control messages.  A method is a step
    that returns a result and the machine it leaves, so that what an early return has
    already written stays written.  The ciphers, the digests and the generator of the
    initial vectors are parameters; the profile is reduced to the fields the exchange
    reads. *)
From Stdlib Require Import ZArith Lia String.
From stdpp Require Import prelude.
From S2P Require Import Prelude Text Stun Bytes IkeCodec IkePayloads IkeKeys IkeCrypt EapAka IkeEvents IkeConfig.
Local Open Scope Z_scope.

(** ** State *)
Inductive IkeStatePhase :=
| Idle | SaInitRequestBuilt | SaInitResponseAccepted | SessionKeysReady | AuthRequestBuilt
| EapAkaChallengeReceived | EapAkaIdentityReceived | UsimAkaResponsePending | EapAkaNotificationReceived
| EapAkaResponseReady | AuthSuccessAccepted | ChildSaReady | RekeyPending | ReauthRequired
| ChildSaMissing | TeardownRequested | Failed.
#[export] Instance IkeStatePhase_eq_dec : EqDecision IkeStatePhase.
Proof. solve_decision. Defined.
Definition phase_as_str (p : IkeStatePhase) : string :=
  match p with
  | Idle => "idle"
  | SaInitRequestBuilt => "sa_init_request_built"
  | SaInitResponseAccepted => "sa_init_response_accepted"
  | SessionKeysReady => "session_keys_ready"
  | AuthRequestBuilt => "auth_request_built"
  | EapAkaChallengeReceived => "eap_aka_challenge_received"
  | EapAkaIdentityReceived => "eap_aka_identity_received"
  | UsimAkaResponsePending => "usim_aka_response_pending"
  | EapAkaNotificationReceived => "eap_aka_notification_received"
  | EapAkaResponseReady => "eap_aka_response_ready"
  | AuthSuccessAccepted => "auth_success_accepted"
  | ChildSaReady => "child_sa_ready"
  | RekeyPending => "rekey_pending"
  | ReauthRequired => "reauth_required"
  | ChildSaMissing => "child_sa_missing"
  | TeardownRequested => "teardown_requested"
  | Failed => "failed"
  end.

(** The fields of a carrier profile the exchange reads. *)
Record CarrierProfile := mkProfile {
  profile_id : str;
  plmn : str;
  epdg_host : str;
  epdg_apn : option str;
  epdg_ip_stack : str;
  ike_proposals : list str;
  esp_proposals : list str;
  include_epdg_idr : bool;
}.
Record IkeAccessConfig := mkAccess {
  ip_stack : str;
  apn : option str;
  access_epdg_host : str;
  device_identity : option str;
}.
Definition access_from_profile (p : CarrierProfile) : IkeAccessConfig :=
  mkAccess (epdg_ip_stack p) (epdg_apn p) (epdg_host p) None.

Record IkeTranscriptEvent := mkEvent {
  ev_message_id : Z;
  ev_exchange : string;
  ev_direction : string;
  ev_payloads : list string;
  ev_note : string;
}.
Record IkeChildSaSummary := mkChildSummary {
  responder_auth_present : bool;
  child_sa_present : bool;
  selected_esp_proposal_present : bool;
  inbound_sa_identifier_present : bool;
  outbound_sa_identifier_present : bool;
  configuration_reply_present : bool;
  cs_assigned_inner_address_present : bool;
  assigned_inner_address_count : nat;
  assigned_ipv6_prefix_length_present : bool;
  cs_pcscf_present : bool;
  pcscf_count : nat;
  cs_dns_present : bool;
  dns_count : nat;
  traffic_selectors_present : bool;
  cs_sensitive_values_policy : string;
}.
Record IkeConfigurationMaterial := mkConfigurationMaterial {
  cm_assigned_inner_addresses : list IpAddr;
  cm_assigned_ipv6_prefix_length : option Z;
  cm_pcscf_addresses : list IpAddr;
  cm_dns_addresses : list IpAddr;
}.
Record IkeChildSaMaterial := mkMaterial {
  inbound_sa_identifier : Z;
  outbound_sa_identifier : Z;
  selected_profile_proposal : str;
  material_proposal : ParsedProposal;
  configuration : option IkeConfigurationMaterial;
  secrets : ChildSaSecretPair;
}.
Inductive IkeAuthProgress :=
| ProgressIdentity (packet : list Z)
| ProgressNotification (packet : list Z)
| ProgressSuccess (child_sa_included : bool).

Record IkePrivateContext := mkPrivate {
  p_initiator_spi : Z;
  p_responder_spi : option Z;
  p_initiator_nonce : list Z;
  p_responder_nonce : option (list Z);
  p_initiator_public_dh : list Z;
  p_initiator_dh_group : Z;
  p_responder_public_dh : option (list Z);
  p_selected_proposal : option str;
  p_offered_ike_proposals : list str;
  p_secret_bundle : option IkeSecretBundle;
  p_encrypted_payload : option EncryptedPayloadPlan;
  p_sa_init_request_packet : option (list Z);
  p_sa_init_response_packet : option (list Z);
  p_initiator_id_payload_body : option (list Z);
  p_child_sa_initiator_spi : option (list Z);
  p_child_sa_material : option IkeChildSaMaterial;
  p_nat_t_supported : bool;
}.
Record IkeStateMachine := mkMachine {
  profile : CarrierProfile;
  access : IkeAccessConfig;
  phase : IkeStatePhase;
  next_message_id : Z;
  retransmit_policy : RetransmitPolicy;
  retransmit : RetransmitState;
  private : IkePrivateContext;
  eap : option EapAkaPacketSummary;
  child_sa : option IkeChildSaSummary;
  transcript : list IkeTranscriptEvent;
  last_control_event : option IkeControlEvent;
  last_error : option str;
}.

Definition new_with_dh_group_and_access (profile : CarrierProfile) (access : IkeAccessConfig)
    (initiator_spi : Z) (initiator_nonce initiator_public_dh : list Z) (initiator_dh_group : Z)
    : IkeStateMachine :=
  mkMachine profile access Idle 0 default_policy (initial_state default_policy 0)
    (mkPrivate initiator_spi None initiator_nonce None initiator_public_dh initiator_dh_group None None []
      None None None None None None None false)
    None None [] None None.
Definition new_with_dh_group (profile : CarrierProfile) :=
  new_with_dh_group_and_access profile (access_from_profile profile).
Definition new_machine (profile : CarrierProfile) (initiator_spi : Z)
    (initiator_nonce initiator_public_dh : list Z) : IkeStateMachine :=
  new_with_dh_group profile initiator_spi initiator_nonce initiator_public_dh DH_MODP_2048.

(** ** Assignments to the fields of the machine *)
Definition with_phase (p : IkeStatePhase) (m : IkeStateMachine) : IkeStateMachine :=
  let '(mkMachine pr ac _ id rp rt pv ea ch tr ce er) := m in mkMachine pr ac p id rp rt pv ea ch tr ce er.
Definition with_next_message_id (id : Z) (m : IkeStateMachine) : IkeStateMachine :=
  let '(mkMachine pr ac p _ rp rt pv ea ch tr ce er) := m in mkMachine pr ac p id rp rt pv ea ch tr ce er.
Definition with_retransmit (rt : RetransmitState) (m : IkeStateMachine) : IkeStateMachine :=
  let '(mkMachine pr ac p id rp _ pv ea ch tr ce er) := m in mkMachine pr ac p id rp rt pv ea ch tr ce er.
Definition with_private (pv : IkePrivateContext) (m : IkeStateMachine) : IkeStateMachine :=
  let '(mkMachine pr ac p id rp rt _ ea ch tr ce er) := m in mkMachine pr ac p id rp rt pv ea ch tr ce er.
Definition with_eap (s : EapAkaPacketSummary) (m : IkeStateMachine) : IkeStateMachine :=
  let '(mkMachine pr ac p id rp rt pv _ ch tr ce er) := m in mkMachine pr ac p id rp rt pv (Some s) ch tr ce er.
Definition with_child_sa (s : IkeChildSaSummary) (m : IkeStateMachine) : IkeStateMachine :=
  let '(mkMachine pr ac p id rp rt pv ea _ tr ce er) := m in mkMachine pr ac p id rp rt pv ea (Some s) tr ce er.
Definition push_transcript (e : IkeTranscriptEvent) (m : IkeStateMachine) : IkeStateMachine :=
  let '(mkMachine pr ac p id rp rt pv ea ch tr ce er) := m in
  mkMachine pr ac p id rp rt pv ea ch (tr ++ [e]) ce er.
Definition with_control_event (e : IkeControlEvent) (m : IkeStateMachine) : IkeStateMachine :=
  let '(mkMachine pr ac p id rp rt pv ea ch tr _ er) := m in mkMachine pr ac p id rp rt pv ea ch tr (Some e) er.
Definition with_error (e : str) (m : IkeStateMachine) : IkeStateMachine :=
  let '(mkMachine pr ac p id rp rt pv ea ch tr ce _) := m in mkMachine pr ac p id rp rt pv ea ch tr ce (Some e).

(** ** Steps: a method of [&mut self] *)
Definition step (E A : Type) : Type := IkeStateMachine → res E A * IkeStateMachine.
#[export] Instance step_bind {E} : MBind (step E) := λ A B k m s,
  match m s with
  | (Ok a, s) => k a s
  | (Err e, s) => (Err e, s)
  | (Panic, s) => (Panic, s)
  end.
Definition ret {E A} (a : A) : step E A := λ s, (Ok a, s).
Definition get {E A} (f : IkeStateMachine → A) : step E A := λ s, (Ok (f s), s).
Definition modify {E} (f : IkeStateMachine → IkeStateMachine) : step E unit := λ s, (Ok tt, f s).
Definition throw {E A} (e : E) : step E A := λ s, (Err e, s).
(** [expression?], the error converted by its [From]. *)
Definition try {E F A} (from : E → F) (r : res E A) : step F A := λ s, (map_err from r, s).

Definition fail {A} (e : IkeStateError) : step IkeStateError A := λ s,
  (Err e, with_error (state_error_text e) (with_phase Failed s)).
Definition fail_response {A} (reason : string) : step IkeStateError A := fail (InvalidResponse reason).
Definition fail_response_if (c : bool) (reason : string) : step IkeStateError unit :=
  if c then fail_response reason else ret tt.
Definition require_phase (expected : IkeStatePhase) : step IkeStateError unit := λ s,
  if decide (phase s = expected) then (Ok tt, s)
  else (Err (InvalidPhase (phase_as_str expected) (phase_as_str (phase s))), s).
(** [self.private.field.ok_or(InvalidResponse { reason })?] *)
Definition require {A} (f : IkePrivateContext → option A) (reason : string) : step IkeStateError A := λ s,
  (ok_or (InvalidResponse reason) (f (private s)), s).
Definition push_event (message : IkeMessage) (direction note : string) : step IkeStateError unit :=
  modify (push_transcript (mkEvent (message_id (header message)) (exchange_type_name (exchange_type (header message)))
    direction (payload_name ∘ payload_type <$> payloads message) note)).
Definition push_note (exchange direction : string) (payloads : list string) (note : string)
    : step IkeStateError unit :=
  modify (λ s, push_transcript (mkEvent (next_message_id s) exchange direction payloads note) s).
Definition advance_message_id : step IkeStateError unit :=
  modify (λ s, with_next_message_id (sat_add u32_max (next_message_id s) 1) s).

(** ** The public snapshot *)
Record IkePublicSnapshot := mkSnapshot {
  sn_profile_id : str;
  sn_plmn : str;
  sn_phase : string;
  sn_initiator_spi_present : bool;
  sn_responder_spi_present : bool;
  sn_next_message_id : Z;
  sn_selected_proposal : option str;
  sn_key_schedule : option IkeKeySchedulePlan;
  sn_encrypted_payload : option EncryptedPayloadPlan;
  sn_retransmit : RetransmitState;
  sn_last_control_event : option IkeControlEvent;
  sn_eap : option EapAkaPacketSummary;
  sn_child_sa : option IkeChildSaSummary;
  sn_transcript : list IkeTranscriptEvent;
  sn_last_error : option str;
  sn_sensitive_values_policy : string;
}.
Definition snapshot (s : IkeStateMachine) : IkePublicSnapshot :=
  mkSnapshot (profile_id (profile s)) (plmn (profile s)) (phase_as_str (phase s))
    (negb (p_initiator_spi (private s) =? 0)) (bool_decide (is_Some (p_responder_spi (private s))))
    (next_message_id s) (p_selected_proposal (private s)) (plan <$> p_secret_bundle (private s))
    (p_encrypted_payload (private s)) (retransmit s) (last_control_event s) (eap s) (child_sa s)
    (transcript s) (last_error s) "handshake_material_never_serialized".

(** ** Writes to the private context *)
Definition pv_offer (offered : list str) (pv : IkePrivateContext) : IkePrivateContext :=
  let '(mkPrivate isp rsp ino rno idh grp rdh _ _ sb ep rq rs idb csp mat nat_) := pv in
  mkPrivate isp rsp ino rno idh grp rdh (head offered) offered sb ep rq rs idb csp mat nat_.
Definition pv_request (packet : list Z) (pv : IkePrivateContext) : IkePrivateContext :=
  let '(mkPrivate isp rsp ino rno idh grp rdh sel off sb ep _ rs idb csp mat nat_) := pv in
  mkPrivate isp rsp ino rno idh grp rdh sel off sb ep (Some packet) rs idb csp mat nat_.
Definition pv_response (selected : str) (responder_spi : Z) (nat_t : bool) (public_dh nonce packet : list Z)
    (pv : IkePrivateContext) : IkePrivateContext :=
  let '(mkPrivate isp _ ino _ idh grp _ _ off sb ep rq _ idb csp mat _) := pv in
  mkPrivate isp (Some responder_spi) ino (Some nonce) idh grp (Some public_dh) (Some selected) off sb ep rq
    (Some packet) idb csp mat nat_t.
Definition pv_keys (bundle : IkeSecretBundle) (pv : IkePrivateContext) : IkePrivateContext :=
  let '(mkPrivate isp rsp ino rno idh grp rdh sel off _ ep rq rs idb csp mat nat_) := pv in
  mkPrivate isp rsp ino rno idh grp rdh sel off (Some bundle) ep rq rs idb csp mat nat_.
Definition pv_encrypted (p : EncryptedPayloadPlan) (pv : IkePrivateContext) : IkePrivateContext :=
  let '(mkPrivate isp rsp ino rno idh grp rdh sel off sb _ rq rs idb csp mat nat_) := pv in
  mkPrivate isp rsp ino rno idh grp rdh sel off sb (Some p) rq rs idb csp mat nat_.
Definition pv_auth (id_body : option (list Z)) (spi : list Z) (pv : IkePrivateContext) : IkePrivateContext :=
  let '(mkPrivate isp rsp ino rno idh grp rdh sel off sb ep rq rs _ _ mat nat_) := pv in
  mkPrivate isp rsp ino rno idh grp rdh sel off sb ep rq rs id_body (Some spi) mat nat_.
Definition pv_material (m : IkeChildSaMaterial) (pv : IkePrivateContext) : IkePrivateContext :=
  let '(mkPrivate isp rsp ino rno idh grp rdh sel off sb ep rq rs idb csp _ nat_) := pv in
  mkPrivate isp rsp ino rno idh grp rdh sel off sb ep rq rs idb csp (Some m) nat_.
Definition update_private (f : IkePrivateContext → IkePrivateContext) : step IkeStateError unit :=
  modify (λ s, with_private (f (private s)) s).
Definition restart_retransmit (id : Z) : step IkeStateError unit :=
  modify (λ s, with_retransmit (initial_state (retransmit_policy s) id) s).
Definition set_phase (p : IkeStatePhase) : step IkeStateError unit := modify (with_phase p).

Section exchange.
Context (cbc_encrypt cbc_decrypt : list Z → list Z → list Z → list Z).
Context (hmac_sign : RingAlgorithm → list Z → list Z → list Z) (md5_compute : list Z → list Z).
Context (sha1 sha256 : list Z → list Z).

(** ** IKE_SA_INIT *)
(** The requested proposals of the group of the machine; a proposal of another group
    is passed over in the profile and an error in an explicit list. *)
Fixpoint effective_proposals (explicit : bool) (group : Z) (texts : list str) : res IkeStateError (list str) :=
  match texts with
  | [] => Ok []
  | text :: texts =>
    dh ← map_err ProposalParse (ike_proposal_dh_group_from_profile_string text);
    if negb (dh =? group) then
      if explicit then Err (InvalidResponse "proposal_dh_group_mismatch")
      else effective_proposals explicit group texts
    else
      rest ← effective_proposals explicit group texts;
      Ok (text :: rest)
  end.
Definition numbered_proposals {E} (f : str → Z → res E ProposalSpec) (texts : list str) : res E (list ProposalSpec) :=
  collectM (λ '(index, text), f text (u8 (Z.of_nat (S index)))) (imap pair texts).
Definition nat_detection_payload (notify_type spi : Z) (addr : SocketAddr) : res IkeStateError IkePayload :=
  hash ← nat_detection_hash sha1 spi 0 addr;
  map_err PayloadBuild (build_notify_payload NotifyNone [] notify_type hash).
Definition sa_init_payloads (pv : IkePrivateContext) (effective : list str)
    (transport_addrs : option (SocketAddr * SocketAddr)) : res IkeStateError (list IkePayload) :=
  proposals ← map_err ProposalParse (numbered_proposals ike_proposal_from_profile_string effective);
  sa ← map_err PayloadBuild (build_sa_payload proposals);
  let payloads := [sa; build_ke_payload (p_initiator_dh_group pv) (p_initiator_public_dh pv);
                   build_nonce_payload (p_initiator_nonce pv)] in
  match transport_addrs with
  | Some (source, destination) =>
    source ← nat_detection_payload NOTIFY_NAT_DETECTION_SOURCE_IP (p_initiator_spi pv) source;
    destination ← nat_detection_payload NOTIFY_NAT_DETECTION_DESTINATION_IP (p_initiator_spi pv) destination;
    Ok (payloads ++ [source; destination])
  | None => Ok payloads
  end.
Definition build_sa_init_request_for_transport (transport_addrs : option (SocketAddr * SocketAddr))
    (proposal_texts : option (list str)) : step IkeStateError IkeMessage :=
  require_phase Idle;;
  requested ← get (λ s, default (ike_proposals (profile s)) proposal_texts);
  (if bool_decide (requested = []) then throw EmptyProfileProposals else ret tt);;
  pv ← get private;
  effective ← try id (effective_proposals (bool_decide (is_Some proposal_texts)) (p_initiator_dh_group pv) requested);
  (if bool_decide (effective = []) then throw (InvalidResponse "no_proposal_for_initiator_dh_group") else ret tt);;
  payloads ← try id (sa_init_payloads pv effective transport_addrs);
  let message := new_request (p_initiator_spi pv) IkeSaInit 0 payloads in
  update_private (pv_offer effective);;
  packet ← try MessageCodec (encode message);
  update_private (pv_request packet);;
  set_phase SaInitRequestBuilt;;
  restart_retransmit 0;;
  push_event message "outbound" "sa_init_request_built";;
  ret message.
Definition build_sa_init_request : step IkeStateError IkeMessage := build_sa_init_request_for_transport None None.
Definition build_sa_init_request_for_addresses (source destination : SocketAddr) : step IkeStateError IkeMessage :=
  build_sa_init_request_for_transport (Some (source, destination)) None.
Definition build_sa_init_request_for_addresses_with_proposals (source destination : SocketAddr)
    (proposal_texts : list str) : step IkeStateError IkeMessage :=
  build_sa_init_request_for_transport (Some (source, destination)) (Some proposal_texts).

Definition count_type (t : IkePayloadType) (payloads : list IkePayload) : nat :=
  length (filter (λ p, payload_type p = t) payloads).
Definition ke_mismatch (body public_dh : list Z) (group : Z) : res IkeStateError bool :=
  if negb (length body =? 4 + length public_dh)%nat then Ok true else
  b0 ← idx body 0;
  b1 ← idx body 1;
  if negb (of_be_bytes [b0; b1] =? group) then Ok true else
  reserved ← slice body 2 4;
  Ok (negb (bool_decide (reserved = [0; 0]))).
Definition nat_notified (payloads : list IkePayload) : bool :=
  existsb (λ p, bool_decide (payload_type p = Notify)
    && match notify_type (body p) with
       | Some t => (t =? NOTIFY_NAT_DETECTION_SOURCE_IP) || (t =? NOTIFY_NAT_DETECTION_DESTINATION_IP)
       | None => false
       end) payloads.
Definition require_payload (t : IkePayloadType) (payloads : list IkePayload) : step IkeStateError IkePayload :=
  match find_type t payloads with
  | Some p => ret p
  | None => fail_response "missing_sa_init_payload"
  end.
(** The checks on the header of the response. *)
Definition check_sa_init_header (spi : Z) (h : IkeHeader) : step IkeStateError unit :=
  fail_response_if (negb (bool_decide (exchange_type h = IkeSaInit))) "unexpected_exchange";;
  fail_response_if (negb (response (flags h))) "expected_response_flag";;
  fail_response_if (negb (initiator_spi h =? spi)) "initiator_spi_mismatch";;
  fail_response_if (negb (message_id h =? 0) || initiator (flags h)) "sa_init_transaction_mismatch";;
  fail_response_if (responder_spi h =? 0) "missing_responder_spi".
Definition accept_sa_init_response (packet : list Z) : step IkeStateError unit :=
  require_phase SaInitRequestBuilt;;
  message ← try MessageCodec (decode packet);
  pv ← get private;
  check_sa_init_header (p_initiator_spi pv) (header message);;
  sa_payload ← require_payload SecurityAssociation (payloads message);
  ke_payload ← require_payload KeyExchange (payloads message);
  nonce_payload ← require_payload Nonce (payloads message);
  parsed ← (match parse_sa_payload (body sa_payload) with
            | Ok parsed => ret parsed
            | Err e => fail (SaParse e)
            | Panic => try id Panic
            end);
  selected ← (match matching_ike_profile_proposal parsed (p_offered_ike_proposals pv) with
              | Some text => ret text
              | None => fail_response "selected_sa_not_offered_by_profile"
              end);
  fail_response_if (negb (forallb (λ kind, (count_type kind (payloads message) =? 1)%nat)
    [SecurityAssociation; KeyExchange; Nonce])) "duplicate_sa_init_payload";;
  mismatch ← try id (ke_mismatch (body ke_payload) (p_initiator_public_dh pv) (p_initiator_dh_group pv));
  fail_response_if mismatch "sa_init_ke_mismatch";;
  fail_response_if (negb ((16 <=? length (body nonce_payload)) && (length (body nonce_payload) <=? 256)))%nat
    "sa_init_nonce_length_invalid";;
  public_dh ← try id (slice_from (body ke_payload) 4);
  update_private (pv_response selected (responder_spi (header message)) (nat_notified (payloads message))
    public_dh (body nonce_payload) packet);;
  set_phase SaInitResponseAccepted;;
  modify (with_next_message_id 1);;
  restart_retransmit 1;;
  push_event message "inbound" "sa_init_response_accepted".

Definition derive_session_keys (shared_secret : list Z) : step IkeStateError unit :=
  require_phase SaInitResponseAccepted;;
  selected ← require p_selected_proposal "missing_selected_proposal";
  responder_spi ← require p_responder_spi "missing_responder_spi";
  responder_nonce ← require p_responder_nonce "missing_responder_nonce";
  proposal ← try ProposalParse (ike_proposal_from_profile_string selected 1);
  pv ← get private;
  bundle ← try KeySchedule (derive_ike_secret_bundle hmac_sign md5_compute proposal (p_initiator_nonce pv)
    responder_nonce (p_initiator_spi pv) responder_spi shared_secret);
  update_private (pv_keys bundle);;
  set_phase SessionKeysReady;;
  push_note "ike_sa_init" "local" ["key_schedule_summary"%string] "session_keys_ready".

(** ** IKE_AUTH: the first request *)
Definition encrypted_inner_identity_placeholder : IkePayload :=
  mkPayload IdentificationInitiator false (lit "simadmin-inner-identity-metadata").
Definition with_responder_spi (spi : Z) (m : IkeMessage) : IkeMessage :=
  let '(mkMessage (mkHeader isp _ np ma mi ex fl id len) payloads) := m in
  mkMessage (mkHeader isp spi np ma mi ex fl id len) payloads.
Definition build_auth_eap_start_request : step IkeStateError IkeMessage :=
  require_phase SessionKeysReady;;
  responder_spi ← require p_responder_spi "missing_responder_spi";
  bundle ← require p_secret_bundle "missing_session_keys";
  encrypted_plan ← try EncryptedPayload
    (build_encrypted_payload_plan (plan bundle) [encrypted_inner_identity_placeholder]);
  pv ← get private;
  id ← get next_message_id;
  let message := with_responder_spi responder_spi (new_request (p_initiator_spi pv) IkeAuth id
    [build_encrypted_metadata_payload encrypted_plan]) in
  set_phase AuthRequestBuilt;;
  update_private (pv_encrypted encrypted_plan);;
  restart_retransmit (message_id (header message));;
  push_event message "outbound" "auth_eap_start_request_built";;
  ret message.

Definition child_sa_initiator_spi (pv : IkePrivateContext) : res IkeStateError (list Z) :=
  match p_child_sa_initiator_spi pv with
  | Some spi => Ok spi
  | None =>
    let seed := be_bytes 8 (p_initiator_spi pv) ++ p_initiator_nonce pv ++ default [] (p_responder_nonce pv) in
    spi ← slice (sha256 seed) 0 4;
    Ok (if bool_decide (spi = [0; 0; 0; 0]) then [0; 0; 0; 1] else spi)
  end.
Definition auth_init_payloads (s : IkeStateMachine) (identity : str) (spi : list Z)
    : res IkeStateError (list IkePayload) :=
  let esp := esp_proposals (profile s) in
  fail_if (bool_decide (esp = [])) (InvalidResponse "profile_missing_esp_proposal");;
  fail_if (u8_max <? Z.of_nat (length esp)) (InvalidResponse "profile_has_too_many_esp_proposals");;
  child_sa_proposals ← map_err ProposalParse
    (numbered_proposals (λ text number, child_sa_proposal_from_profile_string text number spi) esp);
  sa ← map_err PayloadBuild (build_sa_payload child_sa_proposals);
  eap_only ← map_err PayloadBuild (build_notify_payload NotifyNone [] NOTIFY_EAP_ONLY_AUTHENTICATION []);
  let idi := build_identification_initiator_payload identity in
  let rest := [build_configuration_request_payload (ip_stack (access s)); sa;
    build_traffic_selector_initiator_payload (ip_stack (access s));
    build_traffic_selector_responder_payload (ip_stack (access s)); eap_only] in
  let payloads :=
    if include_epdg_idr (profile s) then
      idi :: build_identification_responder_payload (default (access_epdg_host (access s)) (apn (access s))) :: rest
    else idi :: rest in
  Ok (match device_identity (access s) with
      | Some identity => payloads ++ [build_device_identity_vendor_payload identity]
      | None => payloads
      end).

(** [build_encrypted_payload], [encrypted_message_from_payload] and
    [encode_encrypted_message] in a row: the sealed request and its message. *)
Definition seal_request (random : option (list Z)) (bundle : IkeSecretBundle) (initiator_spi responder_spi id : Z)
    (inner : list IkePayload) : res IkeStateError (IkeMessage * list Z) :=
  first ← idx inner 0;
  encrypted_payload ← map_err EncryptedPayload
    (build_encrypted_payload cbc_encrypt random bundle InitiatorToResponder inner);
  let message := encrypted_message_from_payload initiator_spi responder_spi IkeAuth true id encrypted_payload in
  packet ← map_err EncryptedPayload (encode_encrypted_message hmac_sign md5_compute message
    (payload_type first) bundle InitiatorToResponder);
  Ok (message, packet).

Definition build_auth_eap_start_packet_for_identity (random : option (list Z)) (identity : str)
    : step IkeStateError (list Z) :=
  require_phase SessionKeysReady;;
  responder_spi ← require p_responder_spi "missing_responder_spi";
  bundle ← require p_secret_bundle "missing_session_keys";
  s ← get (λ s, s);
  spi ← try id (child_sa_initiator_spi (private s));
  inner_payloads ← try id (auth_init_payloads s identity spi);
  let id_body := body <$> find_type IdentificationInitiator inner_payloads in
  encrypted_plan ← try EncryptedPayload (build_encrypted_payload_plan (plan bundle) inner_payloads);
  '(message, packet) ← try id (seal_request random bundle (p_initiator_spi (private s)) responder_spi
    (next_message_id s) inner_payloads);
  set_phase AuthRequestBuilt;;
  update_private (pv_encrypted encrypted_plan);;
  update_private (pv_auth id_body spi);;
  restart_retransmit (message_id (header message));;
  push_event message "outbound" "auth_eap_start_packet_built";;
  ret packet.
Definition build_auth_eap_start_packet (random : option (list Z)) : step IkeStateError (list Z) :=
  build_auth_eap_start_packet_for_identity random (lit "simadmin-inner-identity-metadata").

(** ** IKE_AUTH: the EAP rounds *)
Definition is_aka_request (subtype : string) (s : EapAkaPacketSummary) : bool :=
  String.eqb (es_code s) "request" && String.eqb (es_method s) "aka" && String.eqb (es_subtype s) subtype.
(** What the two ways of receiving a challenge have in common. *)
Definition accept_challenge_summary (summary : EapAkaPacketSummary) (note : string) : step IkeStateError unit :=
  fail_response_if (negb (is_aka_request "challenge" summary)) "expected_eap_aka_challenge";;
  modify (with_eap summary);;
  set_phase EapAkaChallengeReceived;;
  push_note "ike_auth" "inbound" ["eap_aka"%string] note;;
  set_phase UsimAkaResponsePending;;
  advance_message_id.
Definition accept_eap_aka_challenge (eap_packet : list Z) : step IkeStateError unit :=
  require_phase AuthRequestBuilt;;
  summary ← try Eap (parse_eap_aka_summary eap_packet);
  accept_challenge_summary summary "eap_aka_challenge_received".

Definition open_response (bundle : IkeSecretBundle) (encoded : list Z) : res IkeStateError (list IkePayload) :=
  map_err EncryptedPayload (decrypt_encrypted_payload_from_message cbc_decrypt hmac_sign md5_compute encoded
    bundle ResponderToInitiator).
Definition eap_payload_of (payloads : list IkePayload) : res IkeStateError IkePayload :=
  ok_or (InvalidResponse "missing_eap_payload") (find_type ExtensibleAuthentication payloads).
Definition accept_encrypted_eap_aka_challenge (encoded : list Z) : step IkeStateError unit :=
  require_phase AuthRequestBuilt;;
  bundle ← require p_secret_bundle "missing_session_keys";
  payloads ← try id (open_response bundle encoded);
  eap_payload ← try id (eap_payload_of payloads);
  summary ← try Eap (parse_eap_aka_summary (body eap_payload));
  accept_challenge_summary summary "encrypted_eap_aka_challenge_received".
Definition decrypted_eap_aka_challenge_packet (encoded : list Z) (s : IkeStateMachine)
    : res IkeStateError (list Z) :=
  bundle ← ok_or (InvalidResponse "missing_session_keys") (p_secret_bundle (private s));
  payloads ← open_response bundle encoded;
  eap_payload ← eap_payload_of payloads;
  Ok (body eap_payload).

Definition build_encrypted_eap_response_packet (random : option (list Z)) (eap_response : list Z)
    : step IkeStateError (list Z) :=
  p ← get phase;
  (if bool_decide (p = UsimAkaResponsePending) || bool_decide (p = EapAkaIdentityReceived)
      || bool_decide (p = EapAkaNotificationReceived) then ret tt
   else throw (InvalidPhase
     "usim_aka_response_pending_or_eap_aka_identity_or_notification_received" (phase_as_str p)));;
  responder_spi ← require p_responder_spi "missing_responder_spi";
  bundle ← require p_secret_bundle "missing_session_keys";
  s ← get (λ s, s);
  '(_, packet) ← try id (seal_request random bundle (p_initiator_spi (private s)) responder_spi
    (next_message_id s) [mkPayload ExtensibleAuthentication false eap_response]);
  set_phase EapAkaResponseReady;;
  push_note "ike_auth" "outbound" ["eap_aka"%string] "encrypted_eap_aka_response_built";;
  advance_message_id;;
  ret packet.

Definition first_payload_reason (payloads : list IkePayload) : str :=
  match payloads with
  | [] => lit "ike_auth_inner_empty"
  | p :: _ =>
    match payload_type p with
    | Notify => default (lit "ike_auth_inner_notify") (notify_reason (body p))
    | IdentificationResponder => lit "ike_auth_inner_idr"
    | CertificateRequest => lit "ike_auth_inner_certreq"
    | Authentication => lit "ike_auth_inner_auth"
    | Configuration => lit "ike_auth_inner_configuration"
    | TrafficSelectorInitiator => lit "ike_auth_inner_tsi"
    | TrafficSelectorResponder => lit "ike_auth_inner_tsr"
    | ExtensibleAuthentication => lit "ike_auth_inner_eap"
    | _ => lit "ike_auth_inner_other"
    end
  end.
Definition encrypted_inner_payload_reason (encoded : list Z) (s : IkeStateMachine) : res IkeStateError str :=
  bundle ← ok_or (InvalidResponse "missing_session_keys") (p_secret_bundle (private s));
  payloads ← open_response bundle encoded;
  Ok (first_payload_reason payloads).
(** [self.encrypted_inner_payload_reason(encoded).unwrap_or_else(|_| default)] *)
Definition inner_reason_or {E} (encoded : list Z) (default : str) : step E str := λ s,
  (match encrypted_inner_payload_reason encoded s with
   | Ok reason => Ok reason
   | Err _ => Ok default
   | Panic => Panic
   end, s).
Definition run_reason {A} (m : step IkeStateError A) (f : IkeStateError → step str str) : step str A := λ s,
  match m s with
  | (Ok a, s) => (Ok a, s)
  | (Err e, s) => match f e s with
    | (Ok reason, s) => (Err reason, s) | (Err e, s) => (Err e, s) | (Panic, s) => (Panic, s) end
  | (Panic, s) => (Panic, s)
  end.
Definition accept_encrypted_eap_aka_challenge_reason (encoded : list Z) : step str unit :=
  inner_payload_reason ← inner_reason_or encoded (lit "missing_eap_payload");
  run_reason (accept_encrypted_eap_aka_challenge encoded) (λ e,
    match e with
    | EncryptedPayload IntegrityMismatch => ret (lit "ike_auth_eap_integrity_mismatch")
    | EncryptedPayload InvalidEncryptedPayload => ret (lit "ike_auth_eap_invalid_encrypted_payload")
    | EncryptedPayload InvalidPadding => ret (lit "ike_auth_eap_invalid_padding")
    | EncryptedPayload (UnsupportedCipher _) => ret (lit "ike_auth_eap_unsupported_cipher")
    | EncryptedPayload (UnsupportedIntegrityName _) => ret (lit "ike_auth_eap_unsupported_integrity")
    | Eap _ => ret (lit "ike_auth_eap_packet_parse_failed")
    | InvalidResponse reason =>
      if String.eqb reason "missing_eap_payload" then ret inner_payload_reason else ret (lit reason)
    | _ => ret (lit "ike_auth_eap_challenge_decode_failed")
    end).

Definition mark_usim_aka_response_ready : step IkeStateError unit :=
  require_phase UsimAkaResponsePending;;
  set_phase EapAkaResponseReady;;
  push_note "ike_auth" "local" ["usim_aka_response_summary"%string] "usim_aka_response_ready".
Definition accept_auth_success (eap_packet : list Z) : step IkeStateError unit :=
  require_phase EapAkaResponseReady;;
  summary ← try Eap (parse_eap_aka_summary eap_packet);
  fail_response_if (negb (String.eqb (es_code summary) "success")) "expected_eap_success";;
  modify (with_eap summary);;
  set_phase AuthSuccessAccepted;;
  push_note "ike_auth" "inbound" ["eap_success"%string] "auth_success_accepted".

(** ** The child association *)
Definition configuration_material (c : ConfigurationReplySummary) : IkeConfigurationMaterial :=
  mkConfigurationMaterial (assigned_inner_addresses c) (assigned_ipv6_prefix_length c) (pcscf_addresses c)
    (dns_addresses c).
Definition child_summary (auth_present traffic_selectors_present : bool)
    (config : option ConfigurationReplySummary) : IkeChildSaSummary :=
  mkChildSummary auth_present true true true true (bool_decide (is_Some config))
    (default false (assigned_inner_address_present <$> config))
    (default 0%nat ((λ c, length (assigned_inner_addresses c)) <$> config))
    (bool_decide (is_Some (c ← config; assigned_ipv6_prefix_length c)))
    (default false (pcscf_present <$> config)) (default 0%nat ((λ c, length (pcscf_addresses c)) <$> config))
    (default false (dns_present <$> config)) (default 0%nat ((λ c, length (dns_addresses c)) <$> config))
    traffic_selectors_present "child_sa_identifiers_addresses_and_selectors_not_serialized".
Definition has_type (t : IkePayloadType) (payloads : list IkePayload) : bool :=
  bool_decide (is_Some (find_type t payloads)).
Definition logged_selectors (t : IkePayloadType) (payloads : list IkePayload)
    : res IkeStateError (option (list str)) :=
  match find_type t payloads with
  | Some p => summarize_traffic_selectors (body p)
  | None => Ok None
  end.
Definition configuration_of (payloads : list IkePayload) : res IkeStateError (option ConfigurationReplySummary) :=
  match find_type Configuration payloads with
  | Some p => Some <$> summarize_configuration_reply (body p)
  | None => Ok None
  end.
(** What the payloads of the child and the private context make of it. *)
Definition child_material (esp : list str) (pv : IkePrivateContext) (payloads : list IkePayload)
    : res IkeStateError (IkeChildSaMaterial * IkeChildSaSummary) :=
  let auth_present := has_type Authentication payloads in
  sa_payload ← ok_or (InvalidResponse "missing_child_sa_payload") (find_type SecurityAssociation payloads);
  proposals ← map_err SaParse (parse_sa_payload (body sa_payload));
  expected_spi ← ok_or (InvalidResponse "missing_child_sa_initiator_spi") (p_child_sa_initiator_spi pv);
  selected ← ok_or (InvalidResponse "child_sa_selection_unacceptable") (find_first (λ p,
    (pp_protocol_id p =? protocol_id_as_u8 ProtoEsp) && (length (pp_spi p) =? 4)%nat
    && child_sa_selection_matches_profile p esp) proposals);
  let inbound := of_be_bytes expected_spi in
  fail_if (negb (length (pp_spi selected) =? 4)%nat) (InvalidResponse "invalid_child_sa_responder_spi");;
  let outbound := of_be_bytes (pp_spi selected) in
  fail_if ((inbound =? 0) || (outbound =? 0)) (InvalidResponse "invalid_child_sa_spi");;
  text ← ok_or (InvalidResponse "child_sa_selection_unacceptable")
    (matching_child_sa_profile_proposal selected esp);
  bundle ← ok_or (InvalidResponse "missing_session_keys") (p_secret_bundle pv);
  responder_nonce ← ok_or (InvalidResponse "missing_responder_nonce") (p_responder_nonce pv);
  esp_proposal ← map_err ProposalParse (child_sa_proposal_from_profile_string text 1 (pp_spi selected));
  secrets ← map_err KeySchedule (derive_child_sa_secret_pair hmac_sign md5_compute bundle esp_proposal
    (p_initiator_nonce pv) responder_nonce);
  config ← configuration_of payloads;
  let selectors_present := has_type TrafficSelectorInitiator payloads
    && has_type TrafficSelectorResponder payloads in
  responder_selectors ← logged_selectors TrafficSelectorResponder payloads;
  initiator_selectors ← logged_selectors TrafficSelectorInitiator payloads;
  Ok (mkMaterial inbound outbound text selected (configuration_material <$> config) secrets,
      child_summary auth_present selectors_present config).
Definition summarize_child_sa_payloads (payloads : list IkePayload) : step IkeStateError IkeChildSaSummary :=
  s ← get (λ s, s);
  '(material, summary) ← try id (child_material (esp_proposals (profile s)) (private s) payloads);
  update_private (pv_material material);;
  ret summary.

Definition push_inbound (payloads : list IkePayload) (note : string) : step IkeStateError unit :=
  push_note "ike_auth" "inbound" (payload_name ∘ payload_type <$> payloads) note.
Definition accept_encrypted_auth_progress (encoded : list Z) : step IkeStateError IkeAuthProgress :=
  require_phase EapAkaResponseReady;;
  bundle ← require p_secret_bundle "missing_session_keys";
  payloads ← try id (open_response bundle encoded);
  eap_payload ← try id (eap_payload_of payloads);
  summary ← try Eap (parse_eap_aka_summary (body eap_payload));
  if is_aka_request "identity" summary then
    modify (with_eap summary);;
    set_phase EapAkaIdentityReceived;;
    push_inbound payloads "encrypted_eap_aka_identity_received";;
    ret (ProgressIdentity (body eap_payload))
  else if is_aka_request "notification" summary then
    modify (with_eap summary);;
    set_phase EapAkaNotificationReceived;;
    push_inbound payloads "encrypted_eap_aka_notification_received";;
    ret (ProgressNotification (body eap_payload))
  else
    fail_response_if (negb (String.eqb (es_code summary) "success")) "expected_eap_success";;
    modify (with_eap summary);;
    let child_sa_included := has_type SecurityAssociation payloads in
    (if child_sa_included then
       child_sa ← summarize_child_sa_payloads payloads;
       modify (with_child_sa child_sa);;
       set_phase ChildSaReady
     else set_phase AuthSuccessAccepted);;
    push_inbound payloads (if child_sa_included then "encrypted_auth_success_child_sa_accepted"
                           else "encrypted_auth_success_accepted");;
    ret (ProgressSuccess child_sa_included).
Definition accept_encrypted_auth_success (encoded : list Z) : step IkeStateError unit :=
  progress ← accept_encrypted_auth_progress encoded;
  match progress with
  | ProgressSuccess _ => ret tt
  | ProgressIdentity _ | ProgressNotification _ => fail_response "expected_eap_success"
  end.
Definition final_reason (encoded : list Z) (e : IkeStateError) : step str str :=
  match e with
  | EncryptedPayload IntegrityMismatch => ret (lit "ike_auth_final_integrity_mismatch")
  | EncryptedPayload InvalidEncryptedPayload => ret (lit "ike_auth_final_invalid_encrypted_payload")
  | EncryptedPayload InvalidPadding => ret (lit "ike_auth_final_invalid_padding")
  | Eap _ => ret (lit "ike_auth_final_eap_parse_failed")
  | InvalidResponse reason =>
    if String.eqb reason "missing_eap_payload" then inner_reason_or encoded (lit "ike_auth_final_missing_eap")
    else ret (lit reason)
  | _ => ret (lit "ike_auth_final_decode_failed")
  end.
Definition accept_encrypted_auth_success_or_reason (encoded : list Z) : step str unit :=
  run_reason (accept_encrypted_auth_success encoded) (final_reason encoded).
Definition accept_encrypted_auth_progress_or_reason (encoded : list Z) : step str IkeAuthProgress :=
  run_reason (accept_encrypted_auth_progress encoded) (final_reason encoded).

(** ** The final AUTH payload *)
Definition initiator_auth_data (pv : IkePrivateContext) (eap_msk : list Z) : res IkeStateError (list Z) :=
  fail_if (bool_decide (eap_msk = [])) (InvalidResponse "missing_eap_msk");;
  bundle ← ok_or (InvalidResponse "missing_session_keys") (p_secret_bundle pv);
  sa_init_request ← ok_or (InvalidResponse "missing_sa_init_request") (p_sa_init_request_packet pv);
  responder_nonce ← ok_or (InvalidResponse "missing_responder_nonce") (p_responder_nonce pv);
  idi_body ← ok_or (InvalidResponse "missing_initiator_identity_payload") (p_initiator_id_payload_body pv);
  idi_hash ← map_err KeySchedule (prf_bytes hmac_sign md5_compute bundle (sk_pi bundle) idi_body);
  let signed_octets := sa_init_request ++ responder_nonce ++ idi_hash in
  shared_key ← map_err KeySchedule (prf_bytes hmac_sign md5_compute bundle eap_msk (lit "Key Pad for IKEv2"));
  map_err KeySchedule (prf_bytes hmac_sign md5_compute bundle shared_key signed_octets).
Definition build_encrypted_final_auth_packet (random : option (list Z)) (eap_msk : list Z)
    : step IkeStateError (list Z) :=
  require_phase AuthSuccessAccepted;;
  responder_spi ← require p_responder_spi "missing_responder_spi";
  bundle ← require p_secret_bundle "missing_session_keys";
  s ← get (λ s, s);
  authentication_data ← try id (initiator_auth_data (private s) eap_msk);
  '(_, packet) ← try id (seal_request random bundle (p_initiator_spi (private s)) responder_spi
    (next_message_id s) [build_authentication_shared_key_payload authentication_data]);
  push_note "ike_auth" "outbound" ["authentication"%string] "final_auth_request_built";;
  advance_message_id;;
  ret packet.
Definition accept_encrypted_child_sa_response (encoded : list Z) : step IkeStateError unit :=
  require_phase AuthSuccessAccepted;;
  bundle ← require p_secret_bundle "missing_session_keys";
  payloads ← try id (open_response bundle encoded);
  summary ← summarize_child_sa_payloads payloads;
  modify (with_child_sa summary);;
  set_phase ChildSaReady;;
  push_inbound payloads "child_sa_response_accepted".
Definition accept_encrypted_child_sa_response_or_reason (encoded : list Z) : step str unit :=
  run_reason (accept_encrypted_child_sa_response encoded) (λ e,
    match e with
    | EncryptedPayload IntegrityMismatch => ret (lit "ike_auth_child_sa_integrity_mismatch")
    | EncryptedPayload InvalidEncryptedPayload => ret (lit "ike_auth_child_sa_invalid_encrypted_payload")
    | EncryptedPayload InvalidPadding => ret (lit "ike_auth_child_sa_invalid_padding")
    | InvalidResponse reason =>
      if String.eqb reason "missing_child_sa_payload" then
        inner_reason_or encoded (lit "missing_child_sa_payload")
      else ret (lit reason)
    | _ => ret (lit "ike_auth_child_sa_decode_failed")
    end).
Definition mark_child_sa_ready : step IkeStateError unit :=
  require_phase AuthSuccessAccepted;;
  set_phase ChildSaReady;;
  push_note "ike_auth" "local" ["child_sa_summary"%string] "child_sa_ready".
Definition child_sa_material (s : IkeStateMachine) : option IkeChildSaMaterial := p_child_sa_material (private s).

(** ** Control messages *)
(** [match action]: what the machine does about it. *)
Definition control_action (action : string) : step IkeStateError unit :=
  match action with
  | "fail_exchange"%string => fail_response "control_event_failed"
  | "mark_child_sa_missing"%string => set_phase ChildSaMissing
  | "reauth_required"%string => set_phase ReauthRequired
  | "schedule_rekey"%string => set_phase RekeyPending
  | "teardown_requested"%string => set_phase TeardownRequested
  | _ => ret tt
  end.
Definition handle_control_message (encoded : list Z) : step IkeStateError unit :=
  message ← try MessageCodec (decode encoded);
  event ← try ControlEvent (parse_control_event message);
  let action := ce_action event in
  modify (with_control_event event);;
  push_event message "inbound" action;;
  control_action action.
End exchange.
