(* ===== verification/IkeExchange.v ===== *)
(** * Runs of the IKEv2 exchange

    Rules for the steps of [IkeState.v] and the runs of a machine: a sequence of calls
    of its methods with any arguments and any bytes from the network, and the requests
    it sends.  No call panics, whatever the state of the machine: the lemmas that show it
    for every routine the methods call, and the theorem on runs. *)
From Stdlib Require Import ZArith Lia String.
From stdpp Require Import prelude.
From S2P Require Import Prelude Text Stun Bytes IkeCodec IkePayloads IkeKeys IkeCrypt EapAka IkeEvents IkeConfig IkeState.
Local Open Scope Z_scope.

(** ** Weakest preconditions of steps *)
Definition wp {E A} (m : step E A) (Q : res E A → IkeStateMachine → Prop) (s : IkeStateMachine) : Prop :=
  Q (fst (m s)) (snd (m s)).
Lemma wp_bind {E A B} (m : step E A) (k : A → step E B) Q s :
  wp m (λ r s', match r with Ok a => wp (k a) Q s' | Err e => Q (Err e) s' | Panic => Q Panic s' end) s →
  wp (m ≫= k) Q s.
Proof. unfold wp, mbind, step_bind. destruct (m s) as [[a|e|] s']; cbn; done. Qed.
Lemma wp_ret {E A} (a : A) (Q : res E A → IkeStateMachine → Prop) s : Q (Ok a) s → wp (ret a) Q s.
Proof. done. Qed.
Lemma wp_get {E A} (f : IkeStateMachine → A) (Q : res E A → IkeStateMachine → Prop) s : Q (Ok (f s)) s → wp (get f) Q s.
Proof. done. Qed.
Lemma wp_modify {E} f (Q : res E unit → IkeStateMachine → Prop) s : Q (Ok tt) (f s) → wp (modify f) Q s.
Proof. done. Qed.
Lemma wp_throw {E A} (e : E) (Q : res E A → IkeStateMachine → Prop) s : Q (Err e) s → wp (throw e) Q s.
Proof. done. Qed.
Lemma wp_try {E F A} (from : E → F) (r : res E A) (Q : res F A → IkeStateMachine → Prop) s :
  (∀ a, r = Ok a → Q (Ok a) s) → (∀ e, r = Err e → Q (Err (from e)) s) → (r = Panic → Q Panic s) →
  wp (try from r) Q s.
Proof. unfold wp, try. destruct r; cbn; auto. Qed.
Definition failed_with (e : IkeStateError) (s : IkeStateMachine) : IkeStateMachine :=
  with_error (state_error_text e) (with_phase Failed s).
Lemma wp_fail {A} e (Q : res IkeStateError A → IkeStateMachine → Prop) s : Q (Err e) (failed_with e s) → wp (fail e) Q s.
Proof. done. Qed.
Lemma wp_fail_response_if c reason Q s :
  (c = false → Q (Ok tt) s) → (c = true → Q (Err (InvalidResponse reason)) (failed_with (InvalidResponse reason) s)) →
  wp (fail_response_if c reason) Q s.
Proof. destruct c; intros H1 H2; [by apply H2|by apply H1]. Qed.
Lemma wp_require_phase p Q s :
  (phase s = p → Q (Ok tt) s) → (phase s ≠ p → ∀ e, Q (Err e) s) → wp (require_phase p) Q s.
Proof. intros H1 H2. unfold wp, require_phase. destruct (decide _); cbn; auto. Qed.
Lemma wp_require {A} (f : IkePrivateContext → option A) reason Q s :
  (∀ a, f (private s) = Some a → Q (Ok a) s) →
  (f (private s) = None → Q (Err (InvalidResponse reason)) s) → wp (require f reason) Q s.
Proof. unfold wp, require. destruct (f (private s)); cbn; auto. Qed.
Lemma wp_consequence {E A} (m : step E A) (Q Q' : res E A → IkeStateMachine → Prop) s :
  wp m Q s → (∀ r s', Q r s' → Q' r s') → wp m Q' s.
Proof. unfold wp. auto. Qed.

(** One rule per construct; what is left are the conditions of the branches. *)
Ltac wp_step :=
  cbv beta zeta;
  match goal with
  | |- wp (mbind _ _) _ _ => apply wp_bind
  | |- wp (ret _) _ _ => apply wp_ret
  | |- wp (get _) _ _ => apply wp_get
  | |- wp (modify _) _ _ => apply wp_modify
  | |- wp (set_phase _) _ _ => apply wp_modify
  | |- wp (update_private _) _ _ => apply wp_modify
  | |- wp (restart_retransmit _) _ _ => apply wp_modify
  | |- wp (push_event _ _ _) _ _ => apply wp_modify
  | |- wp (push_note _ _ _ _) _ _ => apply wp_modify
  | |- wp (push_inbound _ _) _ _ => apply wp_modify
  | |- wp advance_message_id _ _ => apply wp_modify
  | |- wp (throw _) _ _ => apply wp_throw
  | |- wp (fail _) _ _ => apply wp_fail
  | |- wp (fail_response _) _ _ => apply wp_fail
  | |- wp (try _ _) _ _ => apply wp_try; [intros ? ?|intros ? ?|intros ?]
  | |- wp (fail_response_if _ _) _ _ => apply wp_fail_response_if; intros ?
  | |- wp (require_phase _) _ _ => apply wp_require_phase; [intros ?|intros ? ?]
  | |- wp (require _ _) _ _ => apply wp_require; [intros ? ?|intros ?]
  | |- wp (match ?x with _ => _ end) _ _ => destruct x eqn:?
  end.

(** ** Runs *)
Inductive IkeOp :=
| OpSaInit (transport : option (SocketAddr * SocketAddr)) (texts : option (list str))
| OpSaInitResponse (packet : list Z)
| OpSessionKeys (shared_secret : list Z)
| OpAuthMetadata
| OpAuthStart (random : option (list Z)) (identity : str)
| OpPlainChallenge (eap_packet : list Z)
| OpChallenge (encoded : list Z)
| OpEapResponse (random : option (list Z)) (eap_response : list Z)
| OpUsimReady
| OpPlainSuccess (eap_packet : list Z)
| OpProgress (encoded : list Z)
| OpSuccess (encoded : list Z)
| OpFinalAuth (random : option (list Z)) (eap_msk : list Z)
| OpChild (encoded : list Z)
| OpMarkChild
| OpControl (encoded : list Z)
| OpChallengeReason (encoded : list Z)
| OpDecryptedChallenge (encoded : list Z)
| OpProgressReason (encoded : list Z)
| OpSuccessReason (encoded : list Z)
| OpChildReason (encoded : list Z).

(** The outcome of a call: a panic, or the request it hands to the socket. *)
Definition outcome {E A} (m : step E A) (sent : A → option (list Z)) (s : IkeStateMachine)
    : option (option (list Z)) * IkeStateMachine :=
  match m s with
  | (Ok a, s) => (Some (sent a), s)
  | (Err _, s) => (Some None, s)
  | (Panic, s) => (None, s)
  end.
Definition no_request {A} (a : A) : option (list Z) := None.
(** A method that borrows the machine and only reads it. *)
Definition query {E A} (f : IkeStateMachine → res E A) : step E A := λ s, (f s, s).

Section runs.
Context (cbc_encrypt cbc_decrypt : list Z → list Z → list Z → list Z).
Context (hmac_sign : RingAlgorithm → list Z → list Z → list Z) (md5_compute : list Z → list Z).
Context (sha1 sha256 : list Z → list Z).

Definition exec (o : IkeOp) : IkeStateMachine → option (option (list Z)) * IkeStateMachine :=
  match o with
  | OpSaInit t texts => outcome (build_sa_init_request_for_transport sha1 t texts) (λ m, res_ok (encode m))
  | OpSaInitResponse p => outcome (accept_sa_init_response p) no_request
  | OpSessionKeys k => outcome (derive_session_keys hmac_sign md5_compute k) no_request
  | OpAuthMetadata => outcome build_auth_eap_start_request (λ m, res_ok (encode m))
  | OpAuthStart r i =>
    outcome (build_auth_eap_start_packet_for_identity cbc_encrypt hmac_sign md5_compute sha256 r i) Some
  | OpPlainChallenge p => outcome (accept_eap_aka_challenge p) no_request
  | OpChallenge p => outcome (accept_encrypted_eap_aka_challenge cbc_decrypt hmac_sign md5_compute p) no_request
  | OpEapResponse r p => outcome (build_encrypted_eap_response_packet cbc_encrypt hmac_sign md5_compute r p) Some
  | OpUsimReady => outcome mark_usim_aka_response_ready no_request
  | OpPlainSuccess p => outcome (accept_auth_success p) no_request
  | OpProgress p => outcome (accept_encrypted_auth_progress cbc_decrypt hmac_sign md5_compute p) no_request
  | OpSuccess p => outcome (accept_encrypted_auth_success cbc_decrypt hmac_sign md5_compute p) no_request
  | OpFinalAuth r k => outcome (build_encrypted_final_auth_packet cbc_encrypt hmac_sign md5_compute r k) Some
  | OpChild p => outcome (accept_encrypted_child_sa_response cbc_decrypt hmac_sign md5_compute p) no_request
  | OpMarkChild => outcome mark_child_sa_ready no_request
  | OpControl p => outcome (handle_control_message p) no_request
  | OpChallengeReason p =>
    outcome (accept_encrypted_eap_aka_challenge_reason cbc_decrypt hmac_sign md5_compute p) no_request
  | OpDecryptedChallenge p =>
    outcome (query (decrypted_eap_aka_challenge_packet cbc_decrypt hmac_sign md5_compute p)) no_request
  | OpProgressReason p => outcome (accept_encrypted_auth_progress_or_reason cbc_decrypt hmac_sign md5_compute p) no_request
  | OpSuccessReason p => outcome (accept_encrypted_auth_success_or_reason cbc_decrypt hmac_sign md5_compute p) no_request
  | OpChildReason p =>
    outcome (accept_encrypted_child_sa_response_or_reason cbc_decrypt hmac_sign md5_compute p) no_request
  end.
(** The machine after the calls and the requests sent, in order; [None] is a panic. *)
Fixpoint run (ops : list IkeOp) (s : IkeStateMachine) (sent : list (list Z))
    : option (IkeStateMachine * list (list Z)) :=
  match ops with
  | [] => Some (s, sent)
  | o :: ops =>
    match exec o s with
    | (Some packet, s) => run ops s (sent ++ option_list packet)
    | (None, _) => None
    end
  end.
End runs.

(** ** No method panics *)
Lemma np_encode_transform t m : no_panic (encode_transform t m).
Proof. unfold encode_transform. np. Qed.
Lemma np_encode_transforms l : no_panic (encode_transforms l).
Proof. induction l as [|t l IH]; cbn [encode_transforms]; [done|]. np_step; [apply np_encode_transform|]. np. Qed.
Lemma np_encode_proposals l : no_panic (encode_proposals l).
Proof.
  induction l as [|p l IH]; cbn [encode_proposals]; [done|].
  np_step; [unfold encode_proposal; np; apply np_encode_transforms|]. np.
Qed.
Lemma np_build_sa l : no_panic (build_sa_payload l).
Proof. unfold build_sa_payload. np_step; [apply np_encode_proposals|]. np. Qed.
Lemma np_encode m : no_panic (encode m).
Proof.
  unfold encode. np_step; [np_step|]. np_step; [|np_step].
  clear. induction (payloads m) as [|p l IH]; cbn [encode_payloads]; np.
Qed.
Lemma np_numbered {E} f texts : (∀ t n, no_panic (f t n)) → no_panic (numbered_proposals (E:=E) f texts).
Proof. intros Hf. apply no_panic_collectM. intros [i t] _. apply Hf. Qed.
Lemma np_effective b g texts : no_panic (effective_proposals b g texts).
Proof.
  induction texts as [|t texts IH]; cbn [effective_proposals]; [done|].
  np_step; [apply no_panic_map_err; unfold ike_proposal_dh_group_from_profile_string;
            np_step; [apply ike_profile_shape|np]|].
  destruct (negb _); [by destruct b|]. np.
Qed.
Lemma np_decode input : bytes_ok input → no_panic (decode input).
Proof. apply decode_message_inv. Qed.
Lemma np_control m : no_panic (parse_control_event m).
Proof.
  unfold parse_control_event, parse_notify, parse_delete.
  destruct (find_type Notify _); [np|]. destruct (find_type Delete _); np.
Qed.
Lemma np_plan p inner : no_panic (build_encrypted_payload_plan p inner).
Proof.
  unfold build_encrypted_payload_plan. np_step; [np_step|]. apply bool_decide_eq_false in H.
  np_step; [apply no_panic_cipher_shape|]. case_match. np_step; [apply no_panic_integrity_len|].
  destruct inner as [|p0 l]; [done|]. np_step; [done|np].
Qed.

Lemma plan_inner p inner s : build_encrypted_payload_plan p inner = Ok s → inner ≠ [].
Proof. unfold build_encrypted_payload_plan. intros H. rust_inv. by apply bool_decide_eq_false in H0. Qed.
Lemma np_ke_mismatch b dh g : no_panic (ke_mismatch b dh g).
Proof. unfold ke_mismatch. destruct (Nat.eqb_spec (length b) (4 + length dh)); cbn [negb]; np. Qed.
Lemma ke_agreed b dh g : ke_mismatch b dh g = Ok false →
  ∃ g0 g1 public, b = g0 :: g1 :: 0 :: 0 :: public ∧ of_be_bytes [g0; g1] = g ∧ length public = length dh.
Proof.
  unfold ke_mismatch. destruct (Nat.eqb_spec (length b) (4 + length dh)) as [Hl|]; cbn [negb]; [|done].
  destruct b as [|g0 [|g1 [|r0 [|r1 public]]]]; cbn [length] in Hl; try lia.
  rewrite (proj2 (idx_Ok _ 0%nat g0)), bind_ok, (proj2 (idx_Ok _ 1%nat g1)), bind_ok by done.
  destruct (Z.eqb_spec (of_be_bytes [g0; g1]) g) as [<-|]; cbn [negb]; [|done].
  rewrite (slice_app [g0; g1] [r0; r1] public 2 4) by done. rewrite bind_ok. intros H%Ok_inj.
  apply negb_false_iff, bool_decide_eq_true in H as [= -> ->]. exists g0, g1, public. split_and!; [done..|lia].
Qed.

Section totality.
Context (cbc_encrypt cbc_decrypt : list Z → list Z → list Z → list Z).
Context (hmac_sign : RingAlgorithm → list Z → list Z → list Z) (md5_compute : list Z → list Z).
Context (sha1 sha256 : list Z → list Z).
(** What the primitives promise: digests of their lengths, and a cipher on bytes. *)
Record primitives_ok : Prop := {
  ok_digests : digest_lengths hmac_sign md5_compute;
  ok_sha1 : ∀ d, length (sha1 d) = 20%nat;
  ok_sha256 : ∀ d, length (sha256 d) = 32%nat;
  ok_cipher : ∀ key iv text, bytes_ok (cbc_decrypt key iv text);
}.
Hypothesis (Hok : primitives_ok).

Lemma np_prf_from_plan p : no_panic (prf_from_plan p).
Proof. unfold prf_from_plan. by repeat case_match. Qed.
Lemma prf_plus_sized prf key seed n : no_panic (prf_plus hmac_sign md5_compute prf key seed n) ∧
  ∀ out, prf_plus hmac_sign md5_compute prf key seed n = Ok out → length out = n.
Proof.
  rewrite prf_plus_spec by apply Hok. destruct (Nat.ltb_spec (255 * output_len prf) n) as [|Hn]; [done|].
  split; [done|]. intros out <-%Ok_inj. by apply length_prf_stream_255, Hn; apply Hok.
Qed.
Lemma np_take_secret {E} (l : list Z) o n : (o + n ≤ length l)%nat → no_panic (take_secret (E:=E) l o n).
Proof. intros H. by rewrite take_secret_Ok. Qed.
Lemma np_derive p ni nr i r secret :
  no_panic (derive_ike_secret_bundle hmac_sign md5_compute p ni nr i r secret).
Proof.
  unfold derive_ike_secret_bundle. np_step; [np_step|]. np_step; [np_step|].
  np_step; [unfold build_key_schedule_plan; np|].
  assert (total_secret_bytes a1 = prf_output_bytes a1 * 3 + integrity_key_bytes a1 * 2
    + encryption_key_bytes a1 * 2)%nat as Ht by (unfold build_key_schedule_plan in *; by rust_inv; subst).
  do 2 (np_step; [np_step|]). np_step; [apply prf_plus_sized|].
  match goal with H : prf_plus _ _ _ _ _ _ = Ok _ |- _ => apply prf_plus_sized in H end.
  do 7 (rewrite take_secret_Ok by lia; rewrite bind_ok). done.
Qed.
Lemma np_derive_child b p ni nr :
  no_panic (derive_child_sa_secret_pair hmac_sign md5_compute b p ni nr).
Proof.
  unfold derive_child_sa_secret_pair. np_step; [np_step|]. 
  np_step; [unfold build_child_sa_key_schedule_plan; np|].
  assert (child_total_secret_bytes a0 = (child_encryption_key_bytes a0 + child_integrity_key_bytes a0) * 2)%nat
    as Ht by (unfold build_child_sa_key_schedule_plan in *; rust_inv; subst; cbn; lia).
  np_step; [apply np_prf_from_plan|]. np_step; [apply prf_plus_sized|].
  match goal with H : prf_plus _ _ _ _ _ _ = Ok _ |- _ => apply prf_plus_sized in H end.
  do 4 (rewrite take_secret_Ok by lia; rewrite bind_ok). done.
Qed.
Lemma np_prf_bytes b k d : no_panic (prf_bytes hmac_sign md5_compute b k d).
Proof. unfold prf_bytes. np_step; [apply np_prf_from_plan|]. np. Qed.
Lemma np_nat_payload t spi addr : no_panic (nat_detection_payload sha1 t spi addr).
Proof.
  unfold nat_detection_payload, nat_detection_hash. rewrite ok_sha1 by done. cbn -[build_notify_payload].
  apply no_panic_map_err. unfold build_notify_payload. np.
Qed.
Lemma np_sa_init_payloads pv effective t : no_panic (sa_init_payloads sha1 pv effective t).
Proof.
  unfold sa_init_payloads.
  np_step; [apply no_panic_map_err, np_numbered; intros; apply ike_profile_shape|].
  np_step; [apply no_panic_map_err, np_build_sa|]. destruct t as [[s d]|]; [|done].
  do 2 (np_step; [apply np_nat_payload|]). np.
Qed.
Lemma np_encode_inner l : no_panic (encode_inner_payload_chain l).
Proof. induction l as [|p l IH]; cbn [encode_inner_payload_chain]; [done|]. np_step; [np_step|]. np_step; [done|np]. Qed.
Lemma np_seal random b i r id inner : inner ≠ [] →
  no_panic (seal_request cbc_encrypt hmac_sign md5_compute random b i r id inner).
Proof.
  intros Hne. unfold seal_request. destruct inner as [|p0 l]; [done|]. np_step; [done|].
  np_step; [apply no_panic_map_err|].
  { unfold build_encrypted_payload. np_step; [np_step|]. np_step; [apply no_panic_cipher_shape|].
    destruct a1 as [x y]. apply cipher_shape_Ok in H1 as [[= -> ->] _].
    np_step; [apply no_panic_integrity_len|]. np_step; [apply np_encode_inner|]. np_step; [np_step|].
    np_step; [|np_step]. unfold encrypt_cbc. destruct (_ && _); [|done]. np_step; [np_step|].
    rewrite !length_app, length_fmap, length_seq. cbn [length].
    pose proof (padding_block (length a2 + 1)) as [Hp _].
    replace (length a2 + padding_len_for_block (length a2 + 1) 16 + 1)%nat
      with (length a2 + 1 + padding_len_for_block (length a2 + 1) 16)%nat by lia. by rewrite Hp. }
  np_step; [apply no_panic_map_err; unfold encode_encrypted_message|done].
  np_step; [apply no_panic_integrity_len|].
  np_step; [unfold encode_message_with_first_encrypted_inner_payload; np|].
  np_step; [apply no_panic_integrity_tag|]. np.
Qed.
Lemma np_child_spi pv : no_panic (child_sa_initiator_spi sha256 pv).
Proof.
  unfold child_sa_initiator_spi. destruct (p_child_sa_initiator_spi pv); [done|].
  np_step; [apply no_panic_slice; rewrite ?ok_sha256 by done; lia|]. np.
Qed.
Lemma np_auth_init s identity spi : no_panic (auth_init_payloads s identity spi).
Proof.
  unfold auth_init_payloads. do 2 (np_step; [np_step|]).
  np_step; [apply no_panic_map_err, np_numbered; intros; apply child_profile_shape|].
  np_step; [apply no_panic_map_err, np_build_sa|].
  np_step; [apply no_panic_map_err; unfold build_notify_payload; np|]. np.
Qed.
Lemma np_configuration_of l : no_panic (configuration_of l).
Proof.
  unfold configuration_of. destruct (find_type _ _) as [c|]; [|done].
  pose proof (no_panic_configuration (body c)) as Hn. destruct (summarize_configuration_reply _); done.
Qed.
Lemma np_logged_selectors t l : no_panic (logged_selectors t l).
Proof. unfold logged_selectors. destruct (find_type t l); [apply no_panic_traffic_selectors|done]. Qed.
Lemma np_child_material esp pv l : no_panic (child_material hmac_sign md5_compute esp pv l).
Proof.
  unfold child_material. np_step; [np_step|].
  np_step; [apply no_panic_map_err, no_panic_parse_proposals; lia|].
  do 7 (np_step; [np_step|]).
  np_step; [apply no_panic_map_err, child_profile_shape|].
  np_step; [apply no_panic_map_err, np_derive_child|].
  np_step; [apply np_configuration_of|].
  do 2 (np_step; [apply np_logged_selectors|]).
  np.
Qed.
Lemma np_auth_data pv msk : no_panic (initiator_auth_data hmac_sign md5_compute pv msk).
Proof.
  unfold initiator_auth_data. do 5 (np_step; [np_step|]).
  do 2 (np_step; [apply no_panic_map_err, np_prf_bytes|]). apply no_panic_map_err, np_prf_bytes.
Qed.
Lemma np_open b p : no_panic (open_response cbc_decrypt hmac_sign md5_compute b p).
Proof. apply no_panic_map_err, no_panic_decrypt_message. Qed.

(** The packets of the network are bytes; so is what the cipher hands back. *)
Lemma bytes_inner fuel : ∀ t input l, bytes_ok input → decode_inner_payload_chain fuel t input = Ok l →
  Forall (λ p, bytes_ok (body p)) l.
Proof.
  induction fuel as [|fuel IH]; intros t input l Hb H; [done|]. cbn [decode_inner_payload_chain] in H.
  case_bool_decide; [apply Ok_inj in H as <-; constructor|].
  rust_inv. subst. constructor; [|eapply IH; [|done]]; cbn [body]; [|by apply bytes_ok_drop].
  by apply bytes_ok_take, bytes_ok_drop.
Qed.
Lemma bytes_stripped l s : bytes_ok l → strip_padding l = Ok s → bytes_ok s.
Proof.
  intros Hb H. unfold strip_padding in H. destruct (last l); [|done]. rust_inv. subst.
  rewrite drop_0. apply bytes_ok_take. unfold bytes_ok in *. rewrite Forall_forall in *.
  intros y Hy. apply Hb. destruct l as [|w k _] using rev_ind; [by apply elem_of_nil in Hy|].
  rewrite removelast_last in Hy. apply elem_of_app. by left.
Qed.
Lemma bytes_opened b packet l : open_response cbc_decrypt hmac_sign md5_compute b packet = Ok l →
  Forall (λ p, bytes_ok (body p)) l.
Proof.
  unfold open_response. intros H.
  destruct (decrypt_encrypted_payload_from_message _ _ _ _ _ _) as [k| |] eqn:E; [|done..].
  apply Ok_inj in H as <-. unfold decrypt_encrypted_payload_from_message in E. rust_inv. repeat match goal with y : _ * _ |- _ => destruct y end.
  rust_inv. unfold decrypt_encrypted_payload_body in E. rust_inv. repeat match goal with y : _ * _ |- _ => destruct y end. rust_inv.
  eapply bytes_inner, E. eapply bytes_stripped; [|done].
  match goal with H : decrypt_cbc _ _ _ _ _ = Ok _ |- _ => unfold decrypt_cbc in H; destruct (_ && _) in H end;
    rust_inv. subst. apply Hok.
Qed.
Lemma eap_bytes l p : Forall (λ p, bytes_ok (body p)) l → eap_payload_of l = Ok p → bytes_ok (body p).
Proof.
  intros Hl H. unfold eap_payload_of in H. rust_inv. apply find_type_Some in H as [Hin _].
  rewrite Forall_forall in Hl. by apply Hl.
Qed.

#[local] Hint Resolve np_encode np_effective np_decode np_control np_plan np_derive np_sa_init_payloads np_seal
  np_child_spi np_auth_init np_child_material np_auth_data np_open np_ke_mismatch no_panic_summary eap_bytes bytes_opened : rust.
#[local] Hint Extern 1 (_ ≠ []) => (discriminate || (eapply plan_inner; eassumption)) : rust.
#[local] Hint Extern 3 (no_panic (ike_proposal_from_profile_string _ _)) => apply ike_profile_shape : rust.
#[local] Hint Extern 3 (no_panic (parse_sa_payload _)) => (apply no_panic_parse_proposals; lia) : rust.

(** What each branch of a method leaves to show; a panic is refuted by the lemma of the call. *)
Ltac calm_step :=
  lazymatch goal with
  | |- no_panic (Ok _) => apply no_panic_Ok
  | |- no_panic (Err _) => apply no_panic_Err
  | _ => first [match goal with H : ?r = Panic |- _ => exfalso; revert H; change (no_panic r); solve [eauto 6 with rust] end
    | wp_step]
  end.
Ltac calm := repeat calm_step.
Lemma calm_summarize l s : wp (summarize_child_sa_payloads hmac_sign md5_compute l) (λ r _, no_panic r) s.
Proof. unfold summarize_child_sa_payloads. calm. Qed.
Lemma calm_challenge m n s : wp (accept_challenge_summary m n) (λ r _, no_panic r) s.
Proof. unfold accept_challenge_summary. calm. Qed.
Lemma calm_progress p s :
  wp (accept_encrypted_auth_progress cbc_decrypt hmac_sign md5_compute p) (λ r _, no_panic r) s.
Proof.
  unfold accept_encrypted_auth_progress. calm. eapply wp_consequence; [apply calm_summarize|].
  intros [r|e|] s' Hr; [calm|done|done].
Qed.
Lemma calm_success p s :
  wp (accept_encrypted_auth_success cbc_decrypt hmac_sign md5_compute p) (λ r _, no_panic r) s.
Proof.
  unfold accept_encrypted_auth_success. apply wp_bind. eapply wp_consequence; [apply calm_progress|].
  intros [r|e|] s' Hr; [calm|done|done].
Qed.
Lemma calm_child p s :
  wp (accept_encrypted_child_sa_response cbc_decrypt hmac_sign md5_compute p) (λ r _, no_panic r) s.
Proof.
  unfold accept_encrypted_child_sa_response. calm. eapply wp_consequence; [apply calm_summarize|].
  intros [r|e|] s' Hr; [calm|done|done].
Qed.
Lemma calm_exec_step {A} (m : step IkeStateError A) sent s :
  wp m (λ r _, no_panic r) s → fst (outcome m sent s) ≠ None.
Proof. unfold wp, outcome. destruct (m s) as [[a|e|] s']; cbn; done. Qed.
(** ** The methods that report a reason
    They run the plain method and turn its error into a text: reading the packet once
    more for that never fails and leaves the machine alone. *)
Definition quiet {E A} (m : step E A) : Prop := ∀ s, snd (m s) = s ∧ no_panic (fst (m s)).
Lemma quiet_ret {E A} (a : A) : quiet (ret (E:=E) a).
Proof. intros s. by split. Qed.
Lemma np_inner_reason p s : no_panic (encrypted_inner_payload_reason cbc_decrypt hmac_sign md5_compute p s).
Proof.
  unfold encrypted_inner_payload_reason. np_step; [np_step|]. np_step; [apply np_open|]. done.
Qed.
Lemma inner_reason_quiet {E} p d s : ∃ reason, inner_reason_or cbc_decrypt hmac_sign md5_compute (E:=E) p d s = (Ok reason, s).
Proof.
  unfold inner_reason_or. pose proof (np_inner_reason p s) as H.
  destruct (encrypted_inner_payload_reason _ _ _ p s); [by eexists|by eexists|done].
Qed.
Lemma quiet_inner_reason {E} p d : quiet (inner_reason_or cbc_decrypt hmac_sign md5_compute (E:=E) p d).
Proof. intros s. by destruct (inner_reason_quiet (E:=E) p d s) as [reason ->]. Qed.
Lemma run_reason_outcome {A} (m : step IkeStateError A) f sent s : (∀ e, quiet (f e)) →
  outcome (run_reason m f) sent s = outcome m sent s.
Proof.
  intros Hf. unfold outcome, run_reason. destruct (m s) as [[a|e|] s']; [done| |done].
  destruct (Hf e s') as [Hs Hn]. destruct (f e s') as [[x|x|] s1]; cbn in *; by subst.
Qed.
#[local] Hint Resolve quiet_ret quiet_inner_reason : core.
Definition plain_op (o : IkeOp) : IkeOp :=
  match o with
  | OpChallengeReason p => OpChallenge p
  | OpProgressReason p => OpProgress p
  | OpSuccessReason p => OpSuccess p
  | OpChildReason p => OpChild p
  | o => o
  end.
Lemma exec_plain o s : exec cbc_encrypt cbc_decrypt hmac_sign md5_compute sha1 sha256 o s
  = exec cbc_encrypt cbc_decrypt hmac_sign md5_compute sha1 sha256 (plain_op o) s.
Proof.
  destruct o as [| | | | | | | | | | | | | | | |p|p|p|p|p]; try done; cbn [exec plain_op].
  - unfold accept_encrypted_eap_aka_challenge_reason.
    destruct (inner_reason_quiet (E:=str) p (lit "missing_eap_payload") s) as [reason Hr].
    unfold outcome at 1, mbind, step_bind. rewrite Hr. apply run_reason_outcome. intros e. repeat case_match; auto.
  - apply run_reason_outcome. intros e. unfold final_reason. repeat case_match; auto.
  - apply run_reason_outcome. intros e. unfold final_reason. repeat case_match; auto.
  - apply run_reason_outcome. intros e. repeat case_match; auto.
Qed.
Lemma decrypted_challenge_outcome p s :
  exec cbc_encrypt cbc_decrypt hmac_sign md5_compute sha1 sha256 (OpDecryptedChallenge p) s = (Some None, s).
Proof.
  cbn [exec]. unfold outcome, query.
  assert (no_panic (decrypted_eap_aka_challenge_packet cbc_decrypt hmac_sign md5_compute p s)) as H.
  { unfold decrypted_eap_aka_challenge_packet. np_step; [np_step|]. np_step; [apply np_open|].
    np_step; [unfold eap_payload_of; np_step|]. done. }
  by destruct (decrypted_eap_aka_challenge_packet _ _ _ p s).
Qed.

Definition op_bytes (o : IkeOp) : Prop :=
  match o with
  | OpSaInitResponse p | OpPlainChallenge p | OpPlainSuccess p | OpControl p => bytes_ok p
  | _ => True
  end.
Lemma exec_calm o s : op_bytes o →
  fst (exec cbc_encrypt cbc_decrypt hmac_sign md5_compute sha1 sha256 o s) ≠ None.
Proof.
  intros Ho. rewrite exec_plain. destruct o; cbn [plain_op]; try by rewrite decrypted_challenge_outcome.
  all: cbn [exec op_bytes] in *; apply calm_exec_step.
  - unfold build_sa_init_request_for_transport. calm.
  - unfold accept_sa_init_response, check_sa_init_header, require_payload. calm.
    exfalso. match goal with H : slice_from _ _ = Panic |- _ => revert H end. subst.
    match goal with H : ke_mismatch _ _ _ = Ok _ |- _ => apply ke_agreed in H as (g0 & g1 & p & -> & _) end.
    rewrite (proj2 (slice_from_Ok _ 4%nat p)); [done|split; [cbn; lia|done]].
  - unfold derive_session_keys. calm.
  - unfold build_auth_eap_start_request. calm.
  - unfold build_auth_eap_start_packet_for_identity. calm.
  - unfold accept_eap_aka_challenge. calm. apply calm_challenge.
  - unfold accept_encrypted_eap_aka_challenge. calm. apply calm_challenge.
  - unfold build_encrypted_eap_response_packet. calm.
  - unfold mark_usim_aka_response_ready. calm.
  - unfold accept_auth_success. calm.
  - apply calm_progress.
  - apply calm_success.
  - unfold build_encrypted_final_auth_packet. calm.
  - apply calm_child.
  - unfold mark_child_sa_ready. calm.
  - unfold handle_control_message, control_action. calm.
  - unfold accept_encrypted_eap_aka_challenge. calm. apply calm_challenge.
  - apply calm_progress.
  - apply calm_success.
  - apply calm_child.
Qed.
End totality.

(** C7: whatever the peer sends and in whatever order the methods are called, no method
    of the exchange panics: the builders of requests, the readers of responses, the four
    variants that report a reason, the reader of a challenge that leaves the machine alone,
    the marks and the control messages.  A run of calls from any machine ends in a machine,
    and what it has sent extends what was sent before. *)
Theorem ike_machine_never_panics cbc_encrypt cbc_decrypt hmac_sign md5_compute sha1 sha256 ops s sent :
  primitives_ok cbc_decrypt hmac_sign md5_compute sha1 sha256 → Forall op_bytes ops →
  ∃ s' sent', run cbc_encrypt cbc_decrypt hmac_sign md5_compute sha1 sha256 ops s sent = Some (s', sent') ∧
    sent `prefix_of` sent'.
Proof.
  intros Hok Hops. revert s sent. induction Hops as [|o ops Ho _ IH]; intros s sent; [by exists s, sent|].
  cbn [run]. pose proof (exec_calm cbc_encrypt _ _ _ _ _ Hok o s Ho) as Hn.
  destruct (exec _ _ _ _ _ _ o s) as [[packet|] s1]; [|done].
  destruct (IH s1 (sent ++ option_list packet)) as (s' & sent' & Hrun & Hp). exists s', sent'.
  split; [done|]. etrans; [|exact Hp]. by apply prefix_app_r.
Qed.

(** ** Witnesses *)
Definition sample_sha1 (d : list Z) : list Z := replicate 20 (foldr Z.add 0 d mod 256).
Definition sample_sha256 (d : list Z) : list Z := replicate 32 (foldr Z.add 0 d mod 256).
Definition byte_cbc (key iv text : list Z) : list Z := (λ b, b mod 256) <$> text.
Definition byte_hmac (a : RingAlgorithm) (key data : list Z) : list Z := (λ b, b mod 256) <$> flat_hmac a key data.
Definition byte_md5 (data : list Z) : list Z := (λ b, b mod 256) <$> flat_md5 data.
Lemma byte_digest_lengths : digest_lengths byte_hmac byte_md5.
Proof.
  destruct flat_digest_lengths as [H1 H2]. split; intros; unfold byte_hmac, byte_md5; rewrite length_fmap; auto.
Qed.
Lemma bytes_mod (l : list Z) : bytes_ok ((λ b, b mod 256) <$> l).
Proof. apply Forall_fmap, Forall_forall. intros b _. cbn. apply Z.mod_pos_bound. lia. Qed.
Lemma byte_digest_bytes prf k d : bytes_ok (prf_digest byte_hmac byte_md5 prf k d).
Proof. destruct prf; apply bytes_mod. Qed.
Lemma sample_primitives : primitives_ok byte_cbc byte_hmac byte_md5 sample_sha1 sample_sha256.
Proof.
  split; [apply byte_digest_lengths|intros; apply length_replicate|intros; apply length_replicate|].
  intros key iv text. apply bytes_mod.
Qed.
Definition sample_profile_record : CarrierProfile :=
  mkProfile (lit "310260") (lit "310-260") (lit "epdg.example") None (lit "ipv4")
    [lit "aes128-sha256-modp2048"] [lit "aes256-sha1"] false.
Definition sample_machine : IkeStateMachine :=
  new_machine sample_profile_record 0x1122334455667788 (replicate 16 1) (replicate 8 7).
Lemma ike_machine_never_panics_witness :
  Forall op_bytes [OpSaInit None None; OpSaInitResponse [1; 2; 3]; OpControl []; OpChildReason [4]] ∧
  ∃ s' sent', run byte_cbc byte_cbc byte_hmac byte_md5 sample_sha1 sample_sha256
      [OpSaInit None None; OpSaInitResponse [1; 2; 3]; OpControl []; OpChildReason [4]] sample_machine [] = Some (s', sent') ∧
    [] `prefix_of` sent'.
Proof.
  assert (Forall op_bytes [OpSaInit None None; OpSaInitResponse [1; 2; 3]; OpControl []; OpChildReason [4]]) as H
    by (repeat constructor; cbn; lia).
  split; [exact H|].
  apply (ike_machine_never_panics byte_cbc byte_cbc byte_hmac byte_md5 sample_sha1 sample_sha256
    _ sample_machine [] sample_primitives H).
Defined.
