(* ===== verification/IkeRuns.v ===== *)
(** * What holds after every run of the IKEv2 exchange

    Theorems on the runs of [IkeExchange.v].  The invariant ties the phase of a machine to
    the fields the later methods rely on and to the requests sent so far: their message
    identifiers, the stored first request, the negotiated proposal and the keys.  Then what
    a ready child, an accepted first response and the final authentication data are. *)
From Stdlib Require Import ZArith Lia String.
From stdpp Require Import prelude.
From S2P Require Import Prelude Text Stun Bytes IkeCodec IkePayloads IkeKeys IkeCrypt EapAka IkeEvents IkeConfig IkeState IkeExchange.
Local Open Scope Z_scope.

(** ** What holds after every run *)
(** The message identifier in the header of a request. *)
Definition request_id (packet : list Z) : Z := of_be_bytes (take 4 (drop 20 packet)).
Definition stage (p : IkeStatePhase) : nat :=
  (match p with
  | Idle => 0
  | SaInitRequestBuilt => 1
  | SaInitResponseAccepted => 2
  | SessionKeysReady => 3
  | AuthRequestBuilt => 4
  | EapAkaChallengeReceived | EapAkaIdentityReceived | UsimAkaResponsePending | EapAkaNotificationReceived
  | EapAkaResponseReady | AuthSuccessAccepted | ChildSaReady => 5
  | RekeyPending | ReauthRequired | ChildSaMissing | TeardownRequested | Failed => 6
  end)%nat.
(** The next identifier and the number of requests sent, by stage. *)
Definition numbered (st : nat) (next : Z) (sent : nat) : Prop :=
  match st with
  | 0%nat => sent = 0%nat ∧ next = 0
  | 1%nat => sent = 1%nat ∧ next = 0
  | 2%nat | 3%nat => sent = 1%nat ∧ next = 1
  | 4%nat => sent = 2%nat ∧ next = 1
  | 5%nat => next = Z.of_nat sent ∧ (2 ≤ sent)%nat
  | _ => True
  end.
Definition offered_ok (pv : IkePrivateContext) : Prop :=
  Forall (λ text, ike_proposal_dh_group_from_profile_string text = Ok (p_initiator_dh_group pv))
    (p_offered_ike_proposals pv).
Definition negotiated (pv : IkePrivateContext) : Prop :=
  ∃ text spi nonce dh, p_selected_proposal pv = Some text ∧ text ∈ p_offered_ike_proposals pv ∧
    p_responder_spi pv = Some spi ∧ 0 < spi < 2 ^ 64 ∧ p_responder_nonce pv = Some nonce ∧
    (16 ≤ length nonce ≤ 256)%nat ∧ p_responder_public_dh pv = Some dh ∧
    length dh = length (p_initiator_public_dh pv).
Section facts.
Context (hmac_sign : RingAlgorithm → list Z → list Z → list Z) (md5_compute : list Z → list Z).
(** The keys are those of the negotiated proposal, nonces and identifiers. *)
Definition keyed (pv : IkePrivateContext) : Prop :=
  ∃ text proposal nonce spi secret b, p_selected_proposal pv = Some text ∧
    ike_proposal_from_profile_string text 1 = Ok proposal ∧ p_responder_nonce pv = Some nonce ∧
    p_responder_spi pv = Some spi ∧ p_secret_bundle pv = Some b ∧
    derive_ike_secret_bundle hmac_sign md5_compute proposal (p_initiator_nonce pv) nonce (p_initiator_spi pv)
      spi secret = Ok b.
(** The stored first request is the one that was sent, and its proposals are of the group. *)
Definition offered (pv : IkePrivateContext) (sent : list (list Z)) : Prop :=
  (∃ p, head sent = Some p ∧ p_sa_init_request_packet pv = Some p) ∧ offered_ok pv.
Definition equipped (st : nat) (pv : IkePrivateContext) (sent : list (list Z)) : Prop :=
  ((1 ≤ st ≤ 5)%nat → offered pv sent) ∧ ((2 ≤ st ≤ 5)%nat → negotiated pv) ∧ ((3 ≤ st ≤ 5)%nat → keyed pv).
End facts.

(** What no method writes. *)
Definition core (s : IkeStateMachine) :=
  (profile s, access s, p_initiator_spi (private s), p_initiator_nonce (private s),
   p_initiator_public_dh (private s), p_initiator_dh_group (private s)).
Record consistent hmac_sign md5_compute (s0 s : IkeStateMachine) (sent : list (list Z)) : Prop := {
  con_core : core s = core s0;
  con_ids : request_id <$> sent = Z.of_nat <$> seq 0 (length sent);
  con_numbered : numbered (stage (phase s)) (next_message_id s) (length sent);
  con_equipped : equipped hmac_sign md5_compute (stage (phase s)) (private s) sent;
}.

(** ** Identifiers of requests *)
Lemma request_id_at (a b t : list Z) n0 n1 n2 n3 id : length a = 8%nat → length b = 8%nat → 0 ≤ id < 2 ^ 32 →
  request_id (a ++ b ++ [n0; n1; n2; n3] ++ be_bytes 4 id ++ t) = id.
Proof.
  intros Ha Hb Hid. unfold request_id. rewrite !(app_assoc a), (app_assoc (a ++ b)).
  rewrite drop_app_length' by (rewrite !length_app; cbn; lia).
  rewrite take_app_length' by (by rewrite length_be_bytes). by apply of_be_bytes_be.
Qed.
Lemma encoded_request_id m packet : encode m = Ok packet → 0 ≤ message_id (header m) < 2 ^ 32 →
  request_id packet = message_id (header m).
Proof.
  intros (u & _ & (t & _ & <-%Ok_inj)%bind_Ok)%bind_Ok Hid. unfold encode_header. rewrite <-!app_assoc.
  apply request_id_at; [apply length_be_bytes..|done].
Qed.
Lemma sealed_request_id ce hs md random b i r id inner m packet :
  seal_request ce hs md random b i r id inner = Ok (m, packet) → 0 ≤ id < 2 ^ 32 →
  request_id packet = id ∧ message_id (header m) = id.
Proof.
  intros (p0 & _ & (p & _ & (k & Hk & [= <- <-])%bind_Ok)%bind_Ok)%bind_Ok Hid. split; [|done].
  destruct (encode_encrypted_message _ _ _ _ _ _) as [w| |] eqn:Ew; [|done..]. apply Ok_inj in Hk as <-.
  apply bind_Ok in Ew as (n & _ & (e & He & (tag & _ & <-%Ok_inj)%bind_Ok)%bind_Ok).
  apply bind_Ok in He as (p1 & _ & (u1 & _ & (u2 & _ & <-%Ok_inj)%bind_Ok)%bind_Ok).
  rewrite <-!app_assoc. apply request_id_at; [apply length_be_bytes..|done].
Qed.
Lemma encode_single h p : Z.of_nat (length (body p)) ≤ 60000 → ∃ packet, encode (mkMessage h [p]) = Ok packet.
Proof.
  intros Hl. eexists. unfold encode, total_len, IKE_HEADER_LEN. cbn [payloads sum_list_with encode_payloads].
  unfold payload_size, GENERIC_PAYLOAD_HEADER_LEN.
  rewrite (proj2 (Z.ltb_ge u32_max _)) by (unfold u32_max; lia).
  rewrite (proj2 (Z.ltb_ge u16_max _)) by (unfold u16_max; lia). reflexivity.
Qed.
Lemma metadata_encodes p inner s isp rsp id : build_encrypted_payload_plan p inner = Ok s →
  ∃ packet, encode (with_responder_spi rsp (new_request isp IkeAuth id [build_encrypted_metadata_payload s]))
    = Ok packet.
Proof.
  intros (u & _ & ([x y] & Hc & (icv & Hi & (p0 & _ & <-%Ok_inj)%bind_Ok)%bind_Ok)%bind_Ok)%bind_Ok.
  apply cipher_shape_Ok in Hc as [_ Hc].
  assert (length (lit (plan_integrity p)) ≤ 15)%nat as Hl.
  { revert Hi. unfold integrity_len. generalize (plan_integrity p). intros w Hi.
    repeat match type of Hi with context [match ?x with _ => _ end] => destruct x; try discriminate Hi end;
      vm_compute; lia. }
  apply encode_single. unfold build_encrypted_metadata_payload. cbn [body ep_mode ep_cipher ep_integrity].
  rewrite Hc, !length_app. assert (length (lit AesCbc_as_str) = 7%nat) as -> by done.
  assert (length (lit "simadmin-ike-encrypted-metadata:") = 32%nat) as -> by done.
  assert (length (lit (mode_as_str MetadataOnly)) = 13%nat) as -> by done. cbn. lia.
Qed.

(** Facts about the fields of the machine [s] a call leaves. *)
Ltac open_machine s := destruct s as [? ? ? ? ? ? [] ? ? ? ? ?].

(** ** One call keeps the invariant *)
Section steps.
Context (cbc_encrypt cbc_decrypt : list Z → list Z → list Z → list Z).
Context (hmac_sign : RingAlgorithm → list Z → list Z → list Z) (md5_compute : list Z → list Z).
Context (sha1 sha256 : list Z → list Z).
Local Abbreviation holds := (consistent hmac_sign md5_compute).
Local Abbreviation equipped := (equipped hmac_sign md5_compute).

Lemma holds_ids sent packet : request_id <$> sent = Z.of_nat <$> seq 0 (length sent) →
  (∀ p, packet = Some p → request_id p = Z.of_nat (length sent)) →
  request_id <$> (sent ++ option_list packet) = Z.of_nat <$> seq 0 (length (sent ++ option_list packet)).
Proof.
  intros Hs Hp. destruct packet as [p|]; cbn [option_list]; [|by rewrite app_nil_r].
  rewrite length_app, seq_app, !fmap_app, Hs. cbn. by rewrite (Hp p eq_refl).
Qed.
(** The fields the invariant reads. *)
Definition basis (pv : IkePrivateContext) :=
  (p_initiator_spi pv, p_responder_spi pv, p_initiator_nonce pv, p_responder_nonce pv, p_initiator_public_dh pv,
   p_initiator_dh_group pv, p_responder_public_dh pv, p_selected_proposal pv, p_offered_ike_proposals pv,
   p_secret_bundle pv, p_sa_init_request_packet pv).
Lemma offered_more pv sent k : offered pv sent → offered pv (sent ++ k).
Proof. intros [(p & Hh & Hp) Ho]. split; [|done]. exists p. split; [|done]. by destruct sent. Qed.
Lemma equipped_basis st st' pv pv' sent k : (st = st' ∨ 3 ≤ st ≤ 5)%nat → basis pv' = basis pv →
  equipped st pv sent → equipped st' pv' (sent ++ k).
Proof.
  intros Hst Hb (H1 & H2 & H3). destruct pv, pv'. injection Hb as -> -> -> -> -> -> -> -> -> -> ->.
  split_and!; intros; [apply offered_more, H1|apply H2|apply H3]; lia.
Qed.
(** A call that leaves the fields of the invariant alone and ends in a late stage. *)
Lemma holds_late s0 s sent s' packet : holds s0 s sent → core s' = core s → basis (private s') = basis (private s) →
  (stage (phase s) = stage (phase s') ∨ 3 ≤ stage (phase s) ≤ 5)%nat →
  (∀ p, packet = Some p → request_id p = Z.of_nat (length sent)) →
  numbered (stage (phase s')) (next_message_id s') (length (sent ++ option_list packet)) →
  holds s0 s' (sent ++ option_list packet).
Proof.
  intros [Hc Hi Hn He] Hcore Hb Hst Hp Hnum. split; [congruence|by apply holds_ids|done|].
  by eapply equipped_basis.
Qed.
Lemma holds_failed s0 s sent s' : holds s0 s sent → core s' = core s → stage (phase s') = 6%nat →
  holds s0 s' (sent ++ []).
Proof.
  intros [Hc Hi Hn He] Hs Hst. rewrite app_nil_r. split; [by rewrite Hs|done|by rewrite Hst|].
  rewrite Hst. split_and!; lia.
Qed.
Lemma holds_same s0 s sent : holds s0 s sent → holds s0 s (sent ++ []).
Proof. by rewrite app_nil_r. Qed.
(** What a call must leave, by its result. *)
Definition kept {A} (s0 : IkeStateMachine) (sent : list (list Z)) (packet : A → option (list Z))
    (r : res IkeStateError A) (s' : IkeStateMachine) : Prop :=
  match r with
  | Ok a => holds s0 s' (sent ++ option_list (packet a))
  | Err _ => holds s0 s' (sent ++ [])
  | Panic => True
  end.

Ltac same_fields := match goal with s : IkeStateMachine, H : consistent _ _ _ ?s _ |- _ => clear H; open_machine s; reflexivity end.
Ltac at_phase :=
  match goal with Hp : phase ?s = _ |- _ =>
    clear - Hp; open_machine s; cbn [phase] in Hp; subst; cbn; lia end.
Ltac counted :=
  match goal with Hp : phase ?s = _, N : numbered _ _ _ |- _ =>
    clear - Hp N; open_machine s; cbn [phase] in Hp; subst; cbn in N; cbn; unfold sat_add, u32_max in *;
    rewrite ?length_app; cbn [length]; lia end.
(** The leaves of a call: nothing changed, a failure, or a move between late stages. *)
Ltac leaf :=
  unfold kept; cbn [option_list no_request];
  lazymatch goal with
  | |- True => exact I
  | H : consistent _ _ _ _ ?sent |- consistent _ _ _ _ (?sent ++ _) =>
    first [ apply holds_same; assumption
          | apply (holds_failed _ _ _ _ H); solve [same_fields]
          | let N := fresh "N" in pose proof (con_numbered _ _ _ _ _ H) as N;
            apply (holds_late _ _ _ _ None H); [same_fields|same_fields|at_phase|done|counted] ]
  end.
Ltac leaves := repeat wp_step; try leaf.
Lemma kept_challenge s0 s sent summary note : holds s0 s sent → phase s = AuthRequestBuilt →
  wp (accept_challenge_summary summary note) (kept s0 sent no_request) s.
Proof. intros H Hp. unfold accept_challenge_summary. leaves. Qed.
Lemma kept_plain_challenge s0 s sent p : holds s0 s sent →
  wp (accept_eap_aka_challenge p) (kept s0 sent no_request) s.
Proof. intros H. unfold accept_eap_aka_challenge. leaves. by apply kept_challenge. Qed.
Lemma kept_encrypted_challenge s0 s sent p : holds s0 s sent →
  wp (accept_encrypted_eap_aka_challenge cbc_decrypt hmac_sign md5_compute p) (kept s0 sent no_request) s.
Proof. intros H. unfold accept_encrypted_eap_aka_challenge. leaves. by apply kept_challenge. Qed.
Lemma kept_usim s0 s sent : holds s0 s sent → wp mark_usim_aka_response_ready (kept s0 sent no_request) s.
Proof. intros H. unfold mark_usim_aka_response_ready. leaves. Qed.
Lemma kept_success s0 s sent p : holds s0 s sent → wp (accept_auth_success p) (kept s0 sent no_request) s.
Proof. intros H. unfold accept_auth_success. leaves. Qed.
Lemma kept_mark_child s0 s sent : holds s0 s sent → wp mark_child_sa_ready (kept s0 sent no_request) s.
Proof. intros H. unfold mark_child_sa_ready. leaves. Qed.
(** A control message that is acted on leaves the late stages or changes nothing the
    invariant reads. *)
Lemma control_action_moves action s : ∃ r s', control_action action s = (r, s') ∧ r ≠ Panic ∧ core s' = core s ∧
  (stage (phase s') = 6%nat ∨ r = Ok tt ∧ s' = s).
Proof.
  unfold control_action.
  repeat lazymatch goal with
  | |- context [match ?x with _ => _ end s] => destruct x
  | _ => eexists _, _; split; [reflexivity|];
         first [by split_and!; [| |right]|split_and!; [done|by open_machine s|left; by open_machine s]]
  end.
Qed.
Lemma holds_unmoved s0 s sent s' : holds s0 s sent → core s' = core s → private s' = private s →
  phase s' = phase s → next_message_id s' = next_message_id s → holds s0 s' (sent ++ []).
Proof.
  intros [Hc Hi Hn He] H1 H2 H3 H4. rewrite app_nil_r. split; [by rewrite H1|done|by rewrite H3, H4|].
  by rewrite H2, H3.
Qed.
Lemma kept_control s0 s sent p : holds s0 s sent → wp (handle_control_message p) (kept s0 sent no_request) s.
Proof.
  intros H. unfold handle_control_message. leaves.
  match goal with |- wp (control_action ?a) _ ?s1 =>
    destruct (control_action_moves a s1) as (r & s' & E & Hr & Hc & Hs); unfold wp; rewrite E; cbn [fst snd];
    assert (core s' = core s) as Hc' by (rewrite Hc; clear; by open_machine s) end.
  destruct Hs as [Hs|[-> ->]].
  - assert (holds s0 s' (sent ++ [])) as Hk by by eapply holds_failed. by destruct r.
  - cbn. eapply holds_unmoved; [exact H|done|..]; clear; by open_machine s.
Qed.

(** The child's payloads only add the material to the private context. *)
Lemma summarize_writes l s : wp (summarize_child_sa_payloads hmac_sign md5_compute l) (λ r s', match r with
    | Ok c => ∃ m, s' = with_private (pv_material m (private s)) s ∧
        child_material hmac_sign md5_compute (esp_proposals (profile s)) (private s) l = Ok (m, c)
    | _ => s' = s end) s.
Proof. unfold summarize_child_sa_payloads. repeat wp_step; [by eexists|done|done]. Qed.
Lemma kept_progress s0 s sent p : holds s0 s sent →
  wp (accept_encrypted_auth_progress cbc_decrypt hmac_sign md5_compute p) (kept s0 sent no_request) s.
Proof.
  intros H. unfold accept_encrypted_auth_progress. leaves. eapply wp_consequence; [apply summarize_writes|].
  intros [c|e|] s' Hs; [destruct Hs as (m & -> & _)|subst s'|done]; cbn [push_inbound]; leaves.
Qed.
Lemma kept_auth_success s0 s sent p : holds s0 s sent →
  wp (accept_encrypted_auth_success cbc_decrypt hmac_sign md5_compute p) (kept s0 sent no_request) s.
Proof.
  intros H. unfold accept_encrypted_auth_success. wp_step. eapply wp_consequence; [by apply kept_progress|].
  intros [r|e|] s' Hr; [|done|done]. unfold kept, no_request in Hr. cbn [option_list] in Hr.
  repeat wp_step; cbn [kept no_request option_list]; rewrite app_nil_r in Hr; leaf.
Qed.
Lemma kept_child_response s0 s sent p : holds s0 s sent →
  wp (accept_encrypted_child_sa_response cbc_decrypt hmac_sign md5_compute p) (kept s0 sent no_request) s.
Proof.
  intros H. unfold accept_encrypted_child_sa_response. leaves. eapply wp_consequence; [apply summarize_writes|].
  intros [c|e|] s' Hs; [destruct Hs as (m & -> & _)|subst s'|done]; cbn [push_inbound]; leaves.
Qed.

(** ** Calls that send *)
(** A request in a late stage carries the next identifier. *)
Lemma sent_late s0 s sent s' p : holds s0 s sent → core s' = core s → basis (private s') = basis (private s) →
  (3 ≤ stage (phase s) ≤ 5)%nat → request_id p = next_message_id s →
  (stage (phase s) = 3%nat ∧ stage (phase s') = 4%nat ∧ next_message_id s' = next_message_id s ∨
   stage (phase s) = 5%nat ∧ stage (phase s') = 5%nat ∧ next_message_id s' = next_message_id s + 1) →
  holds s0 s' (sent ++ option_list (Some p)).
Proof.
  intros H Hc Hb Hst Hid Hcase. pose proof (con_numbered _ _ _ _ _ H) as N.
  apply (holds_late _ _ _ _ (Some p) H); [done|done|by right|intros q [= <-]|].
  - rewrite Hid. destruct Hcase as [(E & _)|(E & _)]; rewrite E in N; cbn in N; lia.
  - rewrite length_app. cbn [length option_list].
    destruct Hcase as [(E & -> & ->)|(E & -> & ->)]; rewrite E in N; cbn in N |- *; lia.
Qed.
Lemma next_id_range s0 s sent : holds s0 s sent → (3 ≤ stage (phase s) ≤ 5)%nat →
  Z.of_nat (length sent) < u32_max → 0 ≤ next_message_id s < 2 ^ 32 ∧
  sat_add u32_max (next_message_id s) 1 = next_message_id s + 1.
Proof.
  intros H Hst Hb. pose proof (con_numbered _ _ _ _ _ H) as N. unfold u32_max, sat_add in *.
  destruct (stage (phase s)) as [|[|[|[|[|[|n]]]]]]; cbn in N; lia.
Qed.
Ltac machine_fields := match goal with s : IkeStateMachine |- _ => clear; open_machine s; reflexivity end.
(** The last step of a call that seals a request in stage 5 and counts it. *)
Lemma kept_sealed s0 s sent random b i r inner m p s' : holds s0 s sent → Z.of_nat (length sent) < u32_max →
  stage (phase s) = 5%nat →
  seal_request cbc_encrypt hmac_sign md5_compute random b i r (next_message_id s) inner = Ok (m, p) →
  core s' = core s → basis (private s') = basis (private s) → stage (phase s') = 5%nat →
  next_message_id s' = sat_add u32_max (next_message_id s) 1 → kept (A:=list Z) s0 sent Some (Ok p) s'.
Proof.
  intros H Hb H5 Hs Hc Hbs H5' Hn. destruct (next_id_range s0 s sent H ltac:(lia) Hb) as [Hr Hadd].
  apply sealed_request_id in Hs as [Hid _]; [|done]. apply (sent_late s0 s); try done; [lia|].
  right. by rewrite Hn, Hadd.
Qed.
Lemma kept_eap_response s0 s sent random r : holds s0 s sent → Z.of_nat (length sent) < u32_max →
  wp (build_encrypted_eap_response_packet cbc_encrypt hmac_sign md5_compute random r) (kept s0 sent Some) s.
Proof.
  intros H Hb. unfold build_encrypted_eap_response_packet. leaves.
  eapply kept_sealed; [exact H|done| |eassumption|machine_fields|machine_fields|machine_fields|machine_fields].
  clear - Heqb. by destruct (phase s).
Qed.
Lemma kept_final_auth s0 s sent random k : holds s0 s sent → Z.of_nat (length sent) < u32_max →
  wp (build_encrypted_final_auth_packet cbc_encrypt hmac_sign md5_compute random k) (kept s0 sent Some) s.
Proof.
  intros H Hb. unfold build_encrypted_final_auth_packet. leaves.
  eapply kept_sealed; [exact H|done| |eassumption|machine_fields|machine_fields| |machine_fields].
  - by match goal with Hp : phase s = _ |- _ => rewrite Hp end.
  - match goal with Hp : phase s = _ |- _ => clear - Hp; open_machine s; cbn in Hp |- *; by rewrite Hp end.
Qed.
Lemma kept_auth_start s0 s sent random i : holds s0 s sent → Z.of_nat (length sent) < u32_max →
  wp (build_auth_eap_start_packet_for_identity cbc_encrypt hmac_sign md5_compute sha256 random i)
    (kept s0 sent Some) s.
Proof.
  intros H Hb. unfold build_auth_eap_start_packet_for_identity. leaves.
  assert (stage (phase s) = 3%nat) as Hst by (by match goal with Hp : phase s = _ |- _ => rewrite Hp end).
  destruct (next_id_range s0 s sent H ltac:(lia) Hb) as [Hr _].
  match goal with Hs : seal_request _ _ _ _ _ _ _ _ _ = _ |- _ => apply sealed_request_id in Hs as [Hid _]; [|done] end.
  apply (sent_late s0 s); try done; [machine_fields|machine_fields|lia|]. left. split_and!; [done|machine_fields|machine_fields].
Qed.
Lemma kept_auth_metadata s0 s sent : holds s0 s sent → Z.of_nat (length sent) < u32_max →
  wp build_auth_eap_start_request (kept s0 sent (λ m, res_ok (encode m))) s.
Proof.
  intros H Hb. unfold build_auth_eap_start_request. leaves.
  assert (stage (phase s) = 3%nat) as Hst by (by match goal with Hp : phase s = _ |- _ => rewrite Hp end).
  destruct (next_id_range s0 s sent H ltac:(lia) Hb) as [Hr _].
  match goal with Hp : build_encrypted_payload_plan _ _ = Ok ?e, Hr : p_responder_spi _ = Some ?r |- _ =>
    destruct (metadata_encodes _ _ e (p_initiator_spi (private s)) r (next_message_id s) Hp) as (q & Hq) end.
  unfold kept. rewrite Hq. cbn [res_ok]. apply encoded_request_id in Hq; [|done].
  apply (sent_late s0 s); try done; [machine_fields|machine_fields|lia|]. left. split_and!; [done|machine_fields|machine_fields].
Qed.

(** ** The first exchange *)
Lemma effective_group b g texts : ∀ l, effective_proposals b g texts = Ok l →
  Forall (λ text, ike_proposal_dh_group_from_profile_string text = Ok g) l.
Proof.
  induction texts as [|t texts IH]; intros l H; cbn [effective_proposals] in H; [apply Ok_inj in H as <-; constructor|].
  apply bind_Ok in H as (dh & Hdh & H). destruct (Z.eqb_spec dh g) as [->|]; cbn [negb] in H;
    [|destruct b; [done|by apply IH]].
  apply bind_Ok in H as (rest & Hr & <-%Ok_inj). constructor; [|by apply IH].
  by destruct (ike_proposal_dh_group_from_profile_string t); [apply Ok_inj in Hdh as ->|..].
Qed.
Lemma idle_nothing_sent s0 s sent : holds s0 s sent → phase s = Idle → sent = [].
Proof. intros H Hp. pose proof (con_numbered _ _ _ _ _ H) as N. rewrite Hp in N. by apply nil_length_inv, N. Qed.
Lemma idle_next s0 s sent : holds s0 s sent → phase s = Idle → next_message_id s = 0.
Proof. intros H Hp. pose proof (con_numbered _ _ _ _ _ H) as N. rewrite Hp in N. apply N. Qed.
Lemma kept_sa_init s0 s sent t texts : holds s0 s sent →
  wp (build_sa_init_request_for_transport sha1 t texts) (kept s0 sent (λ m, res_ok (encode m))) s.
Proof.
  intros H. unfold build_sa_init_request_for_transport. leaves; unfold kept;
    match goal with Hp : phase s = Idle |- _ => pose proof (idle_nothing_sent _ _ _ H Hp); subst sent;
      pose proof (idle_next _ _ _ H Hp) as Hnext; rename Hp into Hidle end; destruct H as [Hcore _ _ _].
  - match goal with He : encode _ = Ok ?p |- _ => rewrite He; apply encoded_request_id in He; [|done]; rename p into packet;
      rename He into Hid end. cbn [res_ok option_list app].
    match goal with Hg : effective_proposals _ _ _ = Ok _ |- _ => apply effective_group in Hg; rename Hg into Hoff end.
    split; [|by cbn; rewrite Hid| |].
    + rewrite <-Hcore. machine_fields.
    + clear - Hnext. open_machine s. cbn in *. by subst.
    + clear - Hoff. open_machine s. split_and!; cbn; [intros _; split; [by exists packet|exact Hoff]|lia..].
  - split; [rewrite <-Hcore; machine_fields|done| |].
    + clear - Hnext Hidle. open_machine s. cbn in *. by subst.
    + clear - Hidle. open_machine s. cbn in *. subst. split_and!; cbn; lia.
Qed.
(** The checks a response has passed. *)
Record sa_init_accepted (s : IkeStateMachine) (p : list Z) (text : str) (nonce dh : list Z) (m : IkeMessage) : Prop := {
  acc_phase : phase s = SaInitRequestBuilt;
  acc_decoded : decode p = Ok m;
  acc_header : exchange_type (header m) = IkeSaInit ∧ response (flags (header m)) = true ∧
    initiator (flags (header m)) = false ∧ initiator_spi (header m) = p_initiator_spi (private s) ∧
    message_id (header m) = 0 ∧ responder_spi (header m) ≠ 0;
  acc_proposal : ∃ sa parsed, find_type SecurityAssociation (payloads m) = Some sa ∧
    parse_sa_payload (body sa) = Ok parsed ∧
    matching_ike_profile_proposal parsed (p_offered_ike_proposals (private s)) = Some text;
  acc_once : Forall (λ k, count_type k (payloads m) = 1%nat) [SecurityAssociation; KeyExchange; Nonce];
  acc_ke : ∃ ke g0 g1, find_type KeyExchange (payloads m) = Some ke ∧ body ke = g0 :: g1 :: 0 :: 0 :: dh ∧
    of_be_bytes [g0; g1] = p_initiator_dh_group (private s) ∧
    length dh = length (p_initiator_public_dh (private s));
  acc_nonce : ∃ n, find_type Nonce (payloads m) = Some n ∧ body n = nonce ∧ (16 ≤ length nonce ≤ 256)%nat;
}.
(** The machine an accepted response leaves. *)
Definition sa_init_answered (s : IkeStateMachine) (p : list Z) (text : str) (nonce dh : list Z) (m : IkeMessage)
    : IkeStateMachine :=
  push_transcript (mkEvent (message_id (header m)) (exchange_type_name (exchange_type (header m))) "inbound"
      (payload_name ∘ payload_type <$> payloads m) "sa_init_response_accepted")
    (with_retransmit (initial_state (retransmit_policy s) 1) (with_next_message_id 1
      (with_phase SaInitResponseAccepted (with_private (pv_response text (responder_spi (header m))
        (nat_notified (payloads m)) dh nonce p (private s)) s)))).
Lemma sa_init_response_reads s p : wp (accept_sa_init_response p) (λ r s', match r with
    | Ok _ => ∃ text nonce dh m, sa_init_accepted s p text nonce dh m ∧ s' = sa_init_answered s p text nonce dh m
    | Err _ => s' = s ∨ ∃ e, s' = failed_with e s
    | Panic => True end) s.
Proof.
  unfold accept_sa_init_response, check_sa_init_header, require_payload. repeat wp_step;
    try lazymatch goal with
    | |- True => exact I | |- _ ∨ _ => first [by left|right; by eexists] | H : Panic = Ok _ |- _ => discriminate H end.
  rename i into sa, i0 into ke, i1 into n, l into text, a2 into dh. subst.
  match goal with H : ke_mismatch _ _ _ = Ok _ |- _ => apply ke_agreed in H as (g0 & g1 & public & Hke & Hg & Hl) end.
  assert (dh = public) as ->.
  { match goal with H : slice_from _ _ = Ok _ |- _ => rewrite Hke in H; by apply Ok_inj in H end. }
  exists text, (body n), public, a. split; [|clear; by open_machine s].
  match goal with H : _ || _ = false |- _ => apply orb_false_iff in H as [??] end. bool_prop.
  split; try done.
  - split_and!; try done. by eapply bool_decide_eq_true.
  - by exists sa, a0.
  - apply Forall_forall. intros k Hk%list_elem_of_In.
    match goal with H : forallb _ _ = true |- _ => apply (proj1 (forallb_forall _ _) H) in Hk end.
    by apply Nat.eqb_eq.
  - by exists ke, g0, g1.
  - exists n. split_and!; done.
Qed.
Lemma kept_sa_init_response s0 s sent p : holds s0 s sent → bytes_ok p →
  wp (accept_sa_init_response p) (kept s0 sent no_request) s.
Proof.
  intros H Hb. eapply wp_consequence; [apply sa_init_response_reads|].
  intros [r|e|] s' Hr; [destruct Hr as (text & nonce & dh & m & Hacc & ->)|destruct Hr as [->|[e' ->]]|done].
  2,3: leaf.
  destruct Hacc as [Hp Hdec (_ & _ & _ & _ & _ & Hspi) (sa & parsed & _ & _ & Htext) _ (ke & g0 & g1 & _ & _ & _ & Hdh)
    (n & _ & _ & Hn)].
  apply (decode_message_inv p Hb) in Hdec as ((Hok & _ & _) & _). destruct Hok as (_ & Hrange & _).
  apply find_offered_Some in Htext as (i & expected & q & Hi & _).
  destruct H as [Hcore Hids Hnum Heq]. cbn [kept no_request option_list]. rewrite app_nil_r.
  split; [rewrite <-Hcore; clear; by open_machine s|done| |].
  - rewrite Hp in Hnum. clear - Hnum. open_machine s. cbn in *. lia.
  - rewrite Hp in Heq. destruct Heq as (Hoff & _ & _). specialize (Hoff ltac:(cbn; lia)).
    clear - Hoff Hspi Hrange Hi Hdh Hn. open_machine s. split_and!; cbn; intros; [exact Hoff| |lia].
    exists text, (responder_spi (header m)), nonce, dh. cbn in *. split_and!; try done; try lia.
    apply list_elem_of_lookup. by exists i.
Qed.
Lemma kept_session_keys s0 s sent k : holds s0 s sent →
  wp (derive_session_keys hmac_sign md5_compute k) (kept s0 sent no_request) s.
Proof.
  intros [Hcore Hids Hnum Heq]. unfold derive_session_keys. repeat wp_step; unfold kept, no_request; cbn [option_list];
    try (apply holds_same; by split); [|done..].
  match goal with Hp : phase s = _ |- _ => rewrite Hp in Hnum, Heq end.
  destruct Heq as (Ho & Hn & _). specialize (Ho ltac:(cbn; lia)). specialize (Hn ltac:(cbn; lia)).
  rewrite app_nil_r. split; [rewrite <-Hcore; clear; by open_machine s|done| |].
  - clear - Hnum. open_machine s. cbn in *. lia.
  - open_machine s. cbn in * |-. split_and!; intros _; [exact Ho|exact Hn|].
    eexists _, _, _, _, _, _. cbn. split_and!; [eassumption|eassumption|eassumption|eassumption|done|eassumption].
Qed.

(** ** Runs *)
Local Abbreviation exec := (exec cbc_encrypt cbc_decrypt hmac_sign md5_compute sha1 sha256).
Local Abbreviation run := (run cbc_encrypt cbc_decrypt hmac_sign md5_compute sha1 sha256).
Lemma outcome_kept {A} (m : step IkeStateError A) packet s0 s sent k s' : wp m (kept s0 sent packet) s →
  outcome m packet s = (Some k, s') → holds s0 s' (sent ++ option_list k).
Proof. unfold wp, outcome. destruct (m s) as [[a|e|] s1]; cbn; intros H [= <- <-]; done. Qed.
Lemma exec_kept s0 s sent o k s' : holds s0 s sent → op_bytes o → Z.of_nat (length sent) < u32_max →
  exec o s = (Some k, s') → holds s0 s' (sent ++ option_list k).
Proof.
  intros H Ho Hb. rewrite exec_plain. destruct o; cbn [plain_op];
    try by (rewrite decrypted_challenge_outcome; intros [= <- <-]; cbn [option_list]; rewrite app_nil_r).
  all: cbn [IkeExchange.exec op_bytes] in *; apply outcome_kept;
    auto using kept_sa_init, kept_sa_init_response, kept_session_keys, kept_auth_metadata, kept_auth_start,
      kept_plain_challenge, kept_encrypted_challenge, kept_eap_response, kept_usim, kept_success, kept_progress,
      kept_auth_success, kept_final_auth, kept_child_response, kept_mark_child, kept_control.
Qed.
Lemma run_kept s0 ops : ∀ s sent s' sent', holds s0 s sent → Forall op_bytes ops →
  Z.of_nat (length sent + length ops) ≤ u32_max → run ops s sent = Some (s', sent') → holds s0 s' sent'.
Proof.
  induction ops as [|o ops IH]; intros s sent s' sent' H Hops Hlen Hrun; [by injection Hrun as <- <-|].
  apply Forall_cons in Hops as [Ho Hops]. cbn [IkeExchange.run] in Hrun. cbn [length] in Hlen.
  destruct (exec o s) as [[k|] s1] eqn:E; [|done].
  apply (IH s1 (sent ++ option_list k)); [eapply exec_kept; [exact H|done|lia|done]|done| |done].
  rewrite length_app. destruct k; cbn; lia.
Qed.
Lemma run_sends ops : ∀ s sent s' sent', run ops s sent = Some (s', sent') →
  (length sent' ≤ length sent + length ops)%nat.
Proof.
  induction ops as [|o ops IH]; intros s sent s' sent' Hrun; [injection Hrun as <- <-; lia|].
  cbn [IkeExchange.run] in Hrun. destruct (exec o s) as [[k|] s1] eqn:E; [|done].
  apply IH in Hrun. rewrite length_app in Hrun. destruct k; cbn in *; lia.
Qed.
Lemma holds_fresh profile access spi nonce public group :
  let s0 := new_with_dh_group_and_access profile access spi nonce public group in holds s0 s0 [].
Proof. split; [done..|]. split_and!; cbn; lia. Qed.
End steps.

(** C6: a run of calls from a new machine, with any arguments and any bytes from the network,
    keeps the phase and the fields of the machine in step: the requests sent carry the message
    identifiers 0, 1, 2, ... in order, the next identifier is that of the phase, the stored first
    request is the one that was sent and offers proposals of the machine's group only; once the
    first response is accepted there are a proposal out of the offered ones, a non-zero responder
    identifier, a nonce of 16 to 256 bytes and a public value of the initiator's length; once
    the keys are ready they are those derived from that proposal, both nonces and both
    identifiers. *)
Theorem exchange_invariant ce cd hs md sha1 sha256 profile access spi nonce public group ops s sent :
  let s0 := new_with_dh_group_and_access profile access spi nonce public group in
  Forall op_bytes ops → Z.of_nat (length ops) ≤ u32_max →
  run ce cd hs md sha1 sha256 ops s0 [] = Some (s, sent) →
  core s = core s0 ∧ request_id <$> sent = Z.of_nat <$> seq 0 (length sent) ∧
  numbered (stage (phase s)) (next_message_id s) (length sent) ∧
  equipped hs md (stage (phase s)) (private s) sent.
Proof.
  intros s0 Hops Hlen Hrun. by destruct (run_kept ce cd hs md sha1 sha256 s0 ops _ _ _ _
    (holds_fresh hs md profile access spi nonce public group) Hops Hlen Hrun).
Qed.

(** ** Accepting the first response *)
Lemma ke_agrees b dh public g g0 g1 : b = g0 :: g1 :: 0 :: 0 :: public → of_be_bytes [g0; g1] = g →
  length public = length dh → ke_mismatch b dh g = Ok false ∧ slice_from (E:=IkeStateError) b 4 = Ok public.
Proof.
  intros -> Hg Hl. split; [|by apply slice_from_Ok; split; [cbn; lia|]]. unfold ke_mismatch. cbn [length]. rewrite Hl.
  replace (S (S (S (S (length dh)))) =? 4 + length dh)%nat with true by (symmetry; by apply Nat.eqb_eq). cbn [negb].
  rewrite (proj2 (idx_Ok _ 0%nat g0)), bind_ok, (proj2 (idx_Ok _ 1%nat g1)), bind_ok by done.
  rewrite Hg, Z.eqb_refl. cbn [negb]. by rewrite (slice_app [g0; g1] [0; 0] public 2 4).
Qed.
Lemma sa_init_response_accepts s p text nonce dh m : sa_init_accepted s p text nonce dh m →
  accept_sa_init_response p s = (Ok tt, sa_init_answered s p text nonce dh m).
Proof.
  intros [Hp Hd (Hx & Hr & Hi & Hs & Hm & Hrs) (sa & parsed & Hsa & Hparse & Htext) Hc (ke & g0 & g1 & Hke & Hb & Hg & Hl)
    (n & Hn & <- & Hlen)].
  destruct (ke_agrees _ _ _ _ _ _ Hb Hg Hl) as [Hmis Hsl].
  enough (wp (accept_sa_init_response p) (λ r s', r = Ok tt ∧ s' = sa_init_answered s p text (body n) dh m) s) as [H1 H2]
    by (by rewrite <-H1, <-H2; destruct (accept_sa_init_response p s)).
  assert (negb (bool_decide (exchange_type (header m) = IkeSaInit)) = false) by (by rewrite bool_decide_eq_true_2).
  assert (negb (initiator_spi (header m) =? p_initiator_spi (private s)) = false) by (by rewrite Hs, Z.eqb_refl).
  assert (negb (message_id (header m) =? 0) || initiator (flags (header m)) = false) by (by rewrite Hm, Hi).
  assert ((responder_spi (header m) =? 0) = false) by (by apply Z.eqb_neq).
  assert (negb (forallb (λ kind, (count_type kind (payloads m) =? 1)%nat) [SecurityAssociation; KeyExchange; Nonce])
    = false) as Hc' by (rewrite !Forall_cons in Hc; destruct Hc as (C1 & C2 & C3 & _); cbn; by rewrite C1, C2, C3).
  assert (negb ((16 <=? length (body n))%nat && (length (body n) <=? 256)%nat) = false) as Hlen'
    by (destruct Hlen as [L1 L2]; by rewrite (proj2 (Nat.leb_le _ _) L1), (proj2 (Nat.leb_le _ _) L2)).
  assert (negb (response (flags (header m))) = false) by (by rewrite Hr).
  unfold accept_sa_init_response, check_sa_init_header, require_payload.
  repeat (wp_step; try match goal with H : decode p = Ok ?a |- _ => assert (a = m) as -> by congruence; clear H end);
    try congruence.
  split; [done|]. assert (a1 = dh ∧ i1 = n ∧ l = text) as (-> & -> & ->) by (split_and!; congruence).
  clear; by open_machine s.
Qed.

(** C9: the first response is accepted exactly when the machine waits for it and the packet
    decodes to a response of the IKE_SA_INIT exchange with the initiator's identifier, message
    identifier 0, no initiator flag and a responder identifier; with one security association
    whose selection is one of the proposals offered, one key exchange payload of the offered
    group and the length of our public value, and one nonce of 16 to 256 bytes.  It then leaves
    the phase, the identifiers and the negotiated values it read; a packet that is refused leaves
    the machine as it is or failed. *)
Theorem sa_init_response_accepted_iff s p :
  (∀ text nonce dh m, sa_init_accepted s p text nonce dh m →
     accept_sa_init_response p s = (Ok tt, sa_init_answered s p text nonce dh m)) ∧
  match accept_sa_init_response p s with
  | (Ok _, s') => ∃ text nonce dh m, sa_init_accepted s p text nonce dh m ∧ s' = sa_init_answered s p text nonce dh m
  | (Err _, s') => s' = s ∨ ∃ e, s' = failed_with e s
  | (Panic, _) => True
  end.
Proof.
  split; [intros; by apply sa_init_response_accepts|].
  pose proof (sa_init_response_reads s p) as H. unfold wp in H. by destruct (accept_sa_init_response p s).
Qed.

(** ** Witnesses: a handshake up to the final authentication *)
Definition sample_response : list Z :=
  match ike_proposal_from_profile_string (lit "aes128-sha256-modp2048") 1 with
  | Ok proposal =>
    match build_sa_payload [proposal] with
    | Ok sa => default [] (res_ok (encode (mkMessage (mkHeader 0x1122334455667788 0x99 SecurityAssociation 2 0 IkeSaInit
        (mkFlags false true false) 0 0) [sa; build_ke_payload 14 (replicate 8 9); build_nonce_payload (replicate 16 2)])))
    | _ => []
    end
  | _ => []
  end.
Definition sample_challenge : list Z :=
  [1; 2; 0; 68; 23; 1; 0; 0; 1; 5; 0; 0] ++ replicate 16 3 ++ [2; 5; 0; 0] ++ replicate 16 4 ++ [11; 5; 0; 0] ++ replicate 16 5.
Definition sample_ops : list IkeOp :=
  [OpSaInit None None; OpSaInitResponse sample_response; OpSessionKeys [1; 2; 3];
   OpAuthStart (Some (replicate 16 5)) (lit "0001@x"); OpPlainChallenge sample_challenge;
   OpEapResponse (Some (replicate 16 6)) [2; 2; 0; 8; 23; 1; 0; 0]; OpPlainSuccess [3; 7; 0; 4]].
Definition sample_run := run flat_cbc flat_cbc byte_hmac byte_md5 sample_sha1 sample_sha256 sample_ops sample_machine [].
Example sample_run_reaches : match sample_run with
  | Some (s, sent) => phase s = AuthSuccessAccepted ∧ request_id <$> sent = [0; 1; 2]
  | None => False end.
Proof. vm_compute. split; reflexivity. Qed.
Lemma sample_ops_bytes : Forall op_bytes sample_ops.
Proof. repeat constructor; cbn -[sample_response]; try exact I; by apply (bool_decide_unpack _); vm_compute. Qed.
Definition sample_state : IkeStateMachine * list (list Z) := default (sample_machine, []) sample_run.
Lemma sample_run_eq : run flat_cbc flat_cbc byte_hmac byte_md5 sample_sha1 sample_sha256 sample_ops sample_machine []
  = Some (fst sample_state, snd sample_state).
Proof. vm_compute. reflexivity. Qed.
Lemma exchange_invariant_witness : Forall op_bytes sample_ops ∧ phase (fst sample_state) = AuthSuccessAccepted ∧
  numbered 5 (next_message_id (fst sample_state)) (length (snd sample_state)) ∧
  equipped byte_hmac byte_md5 5 (private (fst sample_state)) (snd sample_state).
Proof.
  pose proof sample_ops_bytes as Hb. assert (phase (fst sample_state) = AuthSuccessAccepted) as Hp by (vm_compute; reflexivity).
  split; [exact Hb|]. split; [exact Hp|].
  destruct (exchange_invariant flat_cbc flat_cbc byte_hmac byte_md5 sample_sha1 sample_sha256 sample_profile_record
    (access_from_profile sample_profile_record) 0x1122334455667788 (replicate 16 1) (replicate 8 7) DH_MODP_2048
    sample_ops (fst sample_state) (snd sample_state) Hb ltac:(cbn; unfold u32_max; lia) sample_run_eq) as (_ & _ & Hn & He).
  rewrite Hp in Hn, He. split; [exact Hn|exact He].
Defined.
(** The machine that waits for the response, and what the response above says. *)
Definition waiting_machine : IkeStateMachine :=
  snd (exec flat_cbc flat_cbc byte_hmac byte_md5 sample_sha1 sample_sha256 (OpSaInit None None) sample_machine).
Definition sample_message : IkeMessage :=
  default (mkMessage (mkHeader 0 0 NoNext 2 0 IkeSaInit (mkFlags false false false) 0 0) []) (res_ok (decode sample_response)).
Lemma sample_accepted : sa_init_accepted waiting_machine sample_response (lit "aes128-sha256-modp2048")
  (replicate 16 2) (replicate 8 9) sample_message.
Proof.
  constructor; [vm_compute; reflexivity|vm_compute; reflexivity| | | | |].
  - do 5 (split; [vm_compute; reflexivity|]). vm_compute. discriminate.
  - eexists _, _. do 2 (split; [vm_compute; reflexivity|]). vm_compute. reflexivity.
  - repeat (constructor; [vm_compute; reflexivity|]). constructor.
  - eexists _, _, _. do 3 (split; [vm_compute; reflexivity|]). vm_compute. reflexivity.
  - eexists. do 2 (split; [vm_compute; reflexivity|]). cbn. lia.
Qed.
Lemma sa_init_response_accepted_iff_witness :
  accept_sa_init_response sample_response waiting_machine = (Ok tt, sa_init_answered waiting_machine sample_response
    (lit "aes128-sha256-modp2048") (replicate 16 2) (replicate 8 9) sample_message).
Proof. exact (proj1 (sa_init_response_accepted_iff waiting_machine sample_response) _ _ _ _ sample_accepted). Defined.
