(* ===== verification/IkeAuth.v ===== *)
(** * What the end of the IKEv2 exchange authenticates

    Theorems on [IkeState.v] over the runs of [IkeRuns.v].  An ESP child becomes ready only
    on a message whose integrity check value is right under the responder's key and whose
    selection is one of the profile's proposals; the last request of the initiator carries the
    authentication data RFC 7296 section 2.16 asks for, over the first request that was sent. *)
From Stdlib Require Import ZArith Lia String.
From stdpp Require Import prelude.
From S2P Require Import Prelude Text Stun Bytes IkeCodec IkePayloads IkeKeys IkeCrypt EapAka IkeEvents IkeConfig IkeState IkeExchange IkeRuns.
Local Open Scope Z_scope.

(** ** The ready child *)
Definition op_packet (o : IkeOp) : option (list Z) :=
  match plain_op o with OpProgress p | OpSuccess p | OpChild p => Some p | _ => None end.
Section child.
Context (cbc_encrypt cbc_decrypt : list Z → list Z → list Z → list Z).
Context (hmac_sign : RingAlgorithm → list Z → list Z → list Z) (md5_compute : list Z → list Z).
Context (sha1 sha256 : list Z → list Z).

(** The material of a child: what the security association payload selects of the profile's
    proposals, two identifiers other than zero and the keys of that proposal. *)
Record material_of (s : IkeStateMachine) (bundle : IkeSecretBundle) (inner : list IkePayload)
    (m : IkeChildSaMaterial) : Prop := {
  mat_selected : ∃ sa proposals, find_type SecurityAssociation inner = Some sa ∧
    parse_sa_payload (body sa) = Ok proposals ∧ material_proposal m ∈ proposals ∧
    pp_protocol_id (material_proposal m) = protocol_id_as_u8 ProtoEsp;
  mat_profile : selected_profile_proposal m ∈ esp_proposals (profile s) ∧
    ∃ expected, child_sa_proposal_from_profile_string (selected_profile_proposal m)
        (pp_number (material_proposal m)) (pp_spi (material_proposal m)) = Ok expected ∧
      Forall (λ e, transform_selected (pp_transforms (material_proposal m)) e = true) (transforms expected);
  mat_inbound : ∃ spi, p_child_sa_initiator_spi (private s) = Some spi ∧ inbound_sa_identifier m = of_be_bytes spi;
  mat_outbound : length (pp_spi (material_proposal m)) = 4%nat ∧
    outbound_sa_identifier m = of_be_bytes (pp_spi (material_proposal m));
  mat_nonzero : inbound_sa_identifier m ≠ 0 ∧ outbound_sa_identifier m ≠ 0;
  mat_keys : ∃ nonce esp, p_responder_nonce (private s) = Some nonce ∧
    child_sa_proposal_from_profile_string (selected_profile_proposal m) 1 (pp_spi (material_proposal m)) = Ok esp ∧
    derive_child_sa_secret_pair hmac_sign md5_compute bundle esp (p_initiator_nonce (private s)) nonce
      = Ok (secrets m);
}.
Lemma map_err_Ok {E F A} (f : E → F) (r : res E A) a : map_err f r = Ok a → r = Ok a.
Proof. by destruct r; intros [= ->]. Qed.
Lemma child_material_of s bundle inner m c : p_secret_bundle (private s) = Some bundle →
  child_material hmac_sign md5_compute (esp_proposals (profile s)) (private s) inner = Ok (m, c) →
  material_of s bundle inner m.
Proof.
  intros Hb H. unfold child_material in H. rust_inv. subst.
  repeat match goal with H : map_err _ _ = Ok _ |- _ => apply map_err_Ok in H end. bool_prop.
  match goal with H : p_secret_bundle _ = Some ?b |- _ => assert (b = bundle) as -> by congruence end.
  match goal with H : find_first _ _ = Some _ |- _ => apply find_first_Some in H as [Hin Hf] end. bool_prop.
  match goal with H : matching_child_sa_profile_proposal _ _ = Some _ |- _ => apply child_match_Some in H as [Hp He] end.
  match goal with H : find_type _ _ = Some ?x, H' : parse_sa_payload _ = Ok ?l |- _ =>
    split; cbn [material_proposal selected_profile_proposal inbound_sa_identifier outbound_sa_identifier secrets];
      [exists x, l; by split_and!|by split|by eexists|by split|by split|] end.
  eexists _, _. split_and!; eassumption.
Qed.

(** A message whose integrity check value is right under the responder's key. *)
Definition authentic (bundle : IkeSecretBundle) (encoded : list Z) : Prop :=
  ∃ icv msg tag, integrity_len (plan bundle) = Ok icv ∧ encoded = msg ++ tag ∧ length tag = icv ∧
    integrity_tag hmac_sign md5_compute (plan bundle) (sk_ar bundle) msg icv = Ok tag.
Lemma opened_by_responder bundle encoded inner :
  open_response cbc_decrypt hmac_sign md5_compute bundle encoded = Ok inner → authentic bundle encoded.
Proof.
  intros H%map_err_Ok%opened_authentic. destruct H as (icv & msg & tag & ? & ? & ? & ? & _). by exists icv, msg, tag.
Qed.
(** A ready child as the two calls that make one leave it. *)
Definition child_from (s s' : IkeStateMachine) (encoded : list Z) : Prop :=
  ∃ bundle inner m, p_secret_bundle (private s) = Some bundle ∧ authentic bundle encoded ∧
    open_response cbc_decrypt hmac_sign md5_compute bundle encoded = Ok inner ∧
    child_sa_material s' = Some m ∧ material_of s bundle inner m.
(** What a call leaves of a machine without a ready child. *)
Definition ready_from (s : IkeStateMachine) (o : IkeOp) {A} (r : res IkeStateError A) (s' : IkeStateMachine) : Prop :=
  phase s' = ChildSaReady → ∃ encoded, op_packet o = Some encoded ∧ child_from s s' encoded.

(** The leaves of a call that leaves the phase another one. *)
Ltac other_phase :=
  lazymatch goal with
  | |- ready_from ?s _ _ _ =>
    let Hr := fresh in intros Hr; exfalso; revert Hr;
    match goal with Hp : phase s = _ |- _ => clear - Hp | Hp : phase s ≠ ChildSaReady |- _ => clear - Hp end;
    open_machine s; cbn [phase with_phase] in *; subst; cbn; solve [discriminate|done]
  end.
Ltac others := repeat wp_step; try other_phase.
Lemma summarize_material s bundle l : p_secret_bundle (private s) = Some bundle →
  wp (summarize_child_sa_payloads hmac_sign md5_compute l) (λ r s', match r with
    | Ok c => ∃ m, s' = with_private (pv_material m (private s)) s ∧ material_of s bundle l m
    | _ => s' = s end) s.
Proof.
  intros Hb. eapply wp_consequence; [apply summarize_writes|]. intros [c|e|] s' H; [|done|done].
  destruct H as (m & -> & Hm). exists m. split; [done|]. by eapply child_material_of.
Qed.
Lemma material_of_frame s s1 bundle l m : private s1 = private s → profile s1 = profile s →
  material_of s1 bundle l m → material_of s bundle l m.
Proof. intros Hp Hf [M1 M2 M3 M4 M5 M6]. rewrite Hp, Hf in *. by split. Qed.
(** The two calls that reach the ready phase do so the same way. *)
Lemma ready_by s s1 bundle inner encoded m c l o {A} (r : res IkeStateError A) : op_packet o = Some encoded →
  p_secret_bundle (private s) = Some bundle →
  open_response cbc_decrypt hmac_sign md5_compute bundle encoded = Ok inner →
  private s1 = private s → profile s1 = profile s → material_of s1 bundle inner m →
  ready_from s o r (push_transcript l (with_phase ChildSaReady (with_child_sa c
    (with_private (pv_material m (private s1)) s1)))).
Proof.
  intros Ho Hb Hopen Hp Hf Hm _. exists encoded. split; [done|]. exists bundle, inner, m.
  split_and!; [done|by eapply opened_by_responder|done|by open_machine s1|by eapply material_of_frame].
Qed.
Lemma ready_child_response s p : phase s ≠ ChildSaReady →
  wp (accept_encrypted_child_sa_response cbc_decrypt hmac_sign md5_compute p) (ready_from s (OpChild p)) s.
Proof.
  intros Hne. unfold accept_encrypted_child_sa_response. others.
  eapply wp_consequence; [by apply summarize_material|].
  intros [c|e|] s' Hs; [destruct Hs as (m & -> & Hm); repeat wp_step; by eapply ready_by|subst s'; other_phase..].
Qed.
Lemma ready_progress s p o : phase s ≠ ChildSaReady → op_packet o = Some p →
  wp (accept_encrypted_auth_progress cbc_decrypt hmac_sign md5_compute p) (ready_from s o) s.
Proof.
  intros Hne Ho. unfold accept_encrypted_auth_progress. others.
  eapply wp_consequence; [by apply (summarize_material _ a); rewrite <-?H0; clear; open_machine s|].
  intros [c|e|] s' Hs; [destruct Hs as (m & -> & Hm); repeat wp_step|subst s'; other_phase..].
  eapply (ready_by s (with_eap a2 s)); [done|eassumption|eassumption|..|exact Hm]; clear; by open_machine s.
Qed.
Lemma ready_success s p : phase s ≠ ChildSaReady →
  wp (accept_encrypted_auth_success cbc_decrypt hmac_sign md5_compute p) (ready_from s (OpSuccess p)) s.
Proof.
  intros Hne. unfold accept_encrypted_auth_success. wp_step.
  eapply wp_consequence; [by apply (ready_progress s p (OpSuccess p))|].
  intros [r|e|] s' Hr; [|exact Hr..]. repeat wp_step; [| |exact Hr]; intros Hp; exfalso; by open_machine s'.
Qed.
Lemma plain_exec_ready s o k s' : plain_op o = o → o ≠ OpMarkChild → phase s ≠ ChildSaReady →
  exec cbc_encrypt cbc_decrypt hmac_sign md5_compute sha1 sha256 o s = (k, s') → phase s' = ChildSaReady →
  ∃ encoded, op_packet o = Some encoded ∧ child_from s s' encoded.
Proof.
  intros Hplain Ho Hne He.
  enough (∃ A (r : res IkeStateError A), ready_from s o r s') as (A & r & H) by exact H.
  assert (∀ A (m : step IkeStateError A) sent, wp m (ready_from s o) s → outcome m sent s = (k, s') →
    ∃ A (r : res IkeStateError A), ready_from s o r s') as Hout.
  { intros A m sent H Hm. unfold wp, outcome in *. destruct (m s) as [[a|e|] s1]; cbn in *; injection Hm as _ <-;
      eexists A, _; exact H. }
  destruct o; try done; 
    [..|rewrite decrypted_challenge_outcome in He; injection He as _ <-; exists unit, (Ok tt); by intros Hr];
    cbn [exec] in He; eapply Hout, He.
  - unfold build_sa_init_request_for_transport. others.
  - unfold accept_sa_init_response, check_sa_init_header, require_payload. others.
  - unfold derive_session_keys. others.
  - unfold build_auth_eap_start_request. others.
  - unfold build_auth_eap_start_packet_for_identity. others.
  - unfold accept_eap_aka_challenge, accept_challenge_summary. others.
  - unfold accept_encrypted_eap_aka_challenge, accept_challenge_summary. others.
  - unfold build_encrypted_eap_response_packet. others.
  - unfold mark_usim_aka_response_ready. others.
  - unfold accept_auth_success. others.
  - by apply ready_progress.
  - by apply ready_success.
  - unfold build_encrypted_final_auth_packet. others.
  - by apply ready_child_response.
  - unfold handle_control_message. others.
    match goal with |- wp (control_action ?a) _ ?s1 =>
      destruct (control_action_moves a s1) as (r & s2 & E & _ & _ & Hs); unfold wp; rewrite E; cbn [fst snd] end.
    intros Hr. exfalso. destruct Hs as [Hs|[_ ->]]; [by rewrite Hr in Hs|]. clear - Hne Hr. by open_machine s.
Qed.
Lemma exec_ready s o k s' : o ≠ OpMarkChild → phase s ≠ ChildSaReady →
  exec cbc_encrypt cbc_decrypt hmac_sign md5_compute sha1 sha256 o s = (k, s') → phase s' = ChildSaReady →
  ∃ encoded, op_packet o = Some encoded ∧ child_from s s' encoded.
Proof.
  rewrite exec_plain. intros Ho Hne He Hr.
  assert (op_packet o = op_packet (plain_op o) ∧ plain_op (plain_op o) = plain_op o ∧ plain_op o ≠ OpMarkChild)
    as (-> & Hp & Ho') by (by destruct o).
  by apply (plain_exec_ready s (plain_op o) k s').
Qed.
End child.

(** C4: no packet makes the ESP child ready unless its integrity check value is right under the
    responder's key of the session, its payloads decrypt under that key, and its security
    association selects, for an ESP proposal with a four-byte identifier, every transform of a
    proposal of the profile.  The child's material is then that proposal, the two identifiers,
    neither of them zero, and the keys derived for it from the session's secret and nonces. *)
Theorem ready_child_authentic ce cd hs md sha1 sha256 s o k s' :
  o ≠ OpMarkChild → phase s ≠ ChildSaReady →
  exec ce cd hs md sha1 sha256 o s = (k, s') → phase s' = ChildSaReady →
  ∃ encoded bundle inner m, op_packet o = Some encoded ∧ p_secret_bundle (private s) = Some bundle ∧
    authentic hs md bundle encoded ∧ open_response cd hs md bundle encoded = Ok inner ∧
    child_sa_material s' = Some m ∧ material_of hs md s bundle inner m.
Proof.
  intros Ho Hne He Hr. destruct (exec_ready _ _ _ _ _ _ _ _ _ _ Ho Hne He Hr) as (encoded & Hp & bundle & inner & m & H).
  by exists encoded, bundle, inner, m.
Qed.

(** ** The authentication data of the initiator *)
Section final.
Context (cbc_encrypt cbc_decrypt : list Z → list Z → list Z → list Z).
Context (hmac_sign : RingAlgorithm → list Z → list Z → list Z) (md5_compute : list Z → list Z).
Local Abbreviation digest := (prf_digest hmac_sign md5_compute).
(** RFC 7296, sections 2.15 and 2.16: the shared key is the EAP master key, what is signed is
    the first message, the responder's nonce and the digest of the identity payload. *)
Definition eap_auth_data (prf : IkePrfAlgorithm) (bundle : IkeSecretBundle) (msk first nonce idi : list Z) : list Z :=
  digest prf (digest prf msk (lit "Key Pad for IKEv2")) (first ++ nonce ++ digest prf (sk_pi bundle) idi).
Lemma auth_data_spec pv msk data : initiator_auth_data hmac_sign md5_compute pv msk = Ok data →
  msk ≠ [] ∧ ∃ bundle first nonce idi prf, p_secret_bundle pv = Some bundle ∧ p_sa_init_request_packet pv = Some first ∧
    p_responder_nonce pv = Some nonce ∧ p_initiator_id_payload_body pv = Some idi ∧
    prf_from_plan (plan bundle) = Ok prf ∧ data = eap_auth_data prf bundle msk first nonce idi.
Proof.
  intros H. unfold initiator_auth_data in H. rust_inv. apply map_err_Ok in H.
  repeat match goal with H : map_err _ _ = Ok _ |- _ => apply map_err_Ok in H end.
  unfold prf_bytes in *. rust_inv. subst.
  repeat match goal with H : prf_from_plan ?p = Ok ?a, H' : prf_from_plan ?p = Ok ?b |- _ =>
    assert (a = b) as -> by congruence; clear H end.
  match goal with H : bool_decide _ = false |- _ => apply bool_decide_eq_false in H end.
  split; [done|]. eexists _, _, _, _, _. by split_and!.
Qed.
Lemma keyed_bundle_ok pv : digest_lengths hmac_sign md5_compute → p_initiator_nonce pv ≠ [] →
  negotiated pv → keyed hmac_sign md5_compute pv → ∃ b, p_secret_bundle pv = Some b ∧ bundle_ok b.
Proof.
  intros Hd Hni (t & sp & n & dh & _ & _ & _ & _ & Hn & Hlen & _) (text & p & nonce & spi & secret & b & _ & Hp & Hn' & _ & Hb & Hder).
  exists b. split; [done|]. assert (nonce = n) as -> by congruence.
  assert (secret ≠ []) as Hs by (intros ->; unfold derive_ike_secret_bundle in Hder; done).
  assert (n ≠ []) as Hnr by (destruct n; [cbn in Hlen; lia|done]).
  destruct (ike_keys_derived hmac_sign md5_compute text 1 p (p_initiator_nonce pv) n (p_initiator_spi pv) spi secret
    Hd Hp Hni Hnr Hs) as (b' & prf & integrity & bits & Hplan & Hbits & Hder' & _ & Hlens & _).
  assert (b' = b) as -> by congruence. split; [|done]. by exists prf, integrity, bits.
Qed.
Lemma final_auth_reads random msk s :
  wp (build_encrypted_final_auth_packet cbc_encrypt hmac_sign md5_compute random msk) (λ r _, match r with
    | Ok packet => phase s = AuthSuccessAccepted ∧ ∃ spi bundle data m, p_secret_bundle (private s) = Some bundle ∧
        initiator_auth_data hmac_sign md5_compute (private s) msk = Ok data ∧
        seal_request cbc_encrypt hmac_sign md5_compute random bundle (p_initiator_spi (private s)) spi
          (next_message_id s) [build_authentication_shared_key_payload data] = Ok (m, packet)
    | _ => True end) s.
Proof.
  unfold build_encrypted_final_auth_packet. repeat wp_step; try exact I. split; [done|].
  eexists _, _, _, _. split_and!; eassumption.
Qed.
Lemma sealed_one_opens bundle iv i r id p m packet : cbc_laws cbc_encrypt cbc_decrypt →
  digest_lengths hmac_sign md5_compute → bundle_ok bundle → length iv = 16%nat → inner_ok p →
  Z.of_nat (payload_size p) ≤ 65000 →
  seal_request cbc_encrypt hmac_sign md5_compute (Some iv) bundle i r id [p] = Ok (m, packet) →
  decrypt_encrypted_payload_from_message cbc_decrypt hmac_sign md5_compute packet bundle InitiatorToResponder = Ok [p].
Proof.
  intros Hc Hd Hb Hiv Hp Hsz H.
  destruct (sealed_opens cbc_encrypt cbc_decrypt hmac_sign md5_compute bundle InitiatorToResponder iv [p] i r IkeAuth
    true id Hc Hd Hb Hiv ltac:(done) ltac:(by constructor) ltac:(cbn [sum_list_with]; lia)) as (e & bytes & He & Hm & Ho).
  unfold seal_request in H. change (idx [p] 0) with (Ok (E:=IkeStateError) p) in H. rewrite bind_ok, He in H.
  cbn [map_err] in H. rewrite bind_ok in H. cbn [first_type] in Hm. rewrite Hm in H. cbn [map_err] in H.
  rewrite bind_ok in H. by injection H as _ <-.
Qed.
Lemma auth_payload_ok data : bytes_ok data → (length data ≤ 64)%nat →
  inner_ok (build_authentication_shared_key_payload data) ∧
  Z.of_nat (payload_size (build_authentication_shared_key_payload data)) ≤ 65000.
Proof.
  intros Hb Hl. split; [split; [by apply (bool_decide_unpack _)|]|].
  - unfold build_authentication_shared_key_payload. cbn [body].
    repeat (apply bytes_ok_cons; split; [by apply (bool_decide_unpack _)|]). done.
  - unfold payload_size, GENERIC_PAYLOAD_HEADER_LEN, build_authentication_shared_key_payload. cbn [body length app].
    lia.
Qed.
End final.

(** C5: the last request of the initiator, built after any run from a new machine, opens under
    the session's keys to one shared-key AUTH payload, whose data is the prf, under the key
    padded from the EAP master key, of the first request that was sent, the responder's nonce
    and the prf of the identity payload under SK_pi; its message identifier is the number of
    requests sent before it. *)
Theorem final_auth_binds_session ce cd hs md sha1 sha256 profile access spi nonce public group ops s sent iv msk packet s' :
  let s0 := new_with_dh_group_and_access profile access spi nonce public group in
  cbc_laws ce cd → digest_lengths hs md → (∀ prf k d, bytes_ok (prf_digest hs md prf k d)) → nonce ≠ [] →
  Forall op_bytes ops → Z.of_nat (length ops) < u32_max → run ce cd hs md sha1 sha256 ops s0 [] = Some (s, sent) →
  length iv = 16%nat → exec ce cd hs md sha1 sha256 (OpFinalAuth (Some iv) msk) s = (Some (Some packet), s') →
  ∃ bundle prf first responder_nonce idi, p_secret_bundle (private s) = Some bundle ∧
    prf_from_plan (plan bundle) = Ok prf ∧ head sent = Some first ∧
    p_responder_nonce (private s) = Some responder_nonce ∧ p_initiator_id_payload_body (private s) = Some idi ∧
    decrypt_encrypted_payload_from_message cd hs md packet bundle InitiatorToResponder
      = Ok [build_authentication_shared_key_payload (eap_auth_data hs md prf bundle msk first responder_nonce idi)] ∧
    request_id packet = Z.of_nat (length sent).
Proof.
  intros s0 Hc Hd Hbytes Hnon Hops Hlen Hrun Hiv He.
  pose proof (run_kept ce cd hs md sha1 sha256 s0 ops _ _ _ _ (holds_fresh hs md profile access spi nonce public group)
    Hops ltac:(cbn; lia) Hrun) as [Hcore _ Hnum Heq].
  apply run_sends in Hrun. cbn [length] in Hrun. unfold u32_max in Hlen.
  pose proof (final_auth_reads ce hs md (Some iv) msk s) as H. cbn [exec] in He. unfold wp, outcome in *.
  destruct (build_encrypted_final_auth_packet _ _ _ _ _ s) as [[q|e|] s1]; [|done..]. injection He as -> <-.
  destruct H as (Hp & spi' & bundle & data & m & Hb & Hdata & Hseal). rewrite Hp in Hnum, Heq.
  destruct Heq as (Hoff & Hneg & Hkeyed). specialize (Hoff ltac:(cbn; lia)). specialize (Hneg ltac:(cbn; lia)).
  specialize (Hkeyed ltac:(cbn; lia)). cbn in Hnum. destruct Hnum as [Hnext _].
  assert (p_initiator_nonce (private s) ≠ []) as Hni by (by injection Hcore as _ _ _ -> _ _).
  destruct (keyed_bundle_ok hs md _ Hd Hni Hneg Hkeyed) as (b & Hb' & Hbok). assert (b = bundle) as -> by congruence.
  destruct (auth_data_spec hs md _ _ _ Hdata) as (_ & b' & first & n & idi & prf & Hb2 & Hf & Hn & Hi & Hprf & ->).
  assert (b' = bundle) as -> by congruence. destruct Hoff as [(first' & Hhead & Hf') _].
  assert (first' = first) as -> by congruence.
  destruct (auth_payload_ok (eap_auth_data hs md prf bundle msk first n idi)) as [Hok Hsz]; [apply Hbytes| |].
  { unfold eap_auth_data. rewrite length_prf_digest by done. apply output_len_range. }
  exists bundle, prf, first, n, idi. split_and!; try done.
  - by eapply sealed_one_opens.
  - apply sealed_request_id in Hseal as [-> _]; [done|lia].
Qed.

(** ** Witnesses *)
Definition final_iv : list Z := replicate 16 7.
Definition final_result := exec flat_cbc flat_cbc byte_hmac byte_md5 sample_sha1 sample_sha256
  (OpFinalAuth (Some final_iv) [9; 8; 7]) (fst sample_state).
Definition final_packet : list Z := match fst final_result with Some (Some packet) => packet | _ => [] end.
Lemma final_auth_binds_session_witness : ∃ bundle prf first responder_nonce idi,
  p_secret_bundle (private (fst sample_state)) = Some bundle ∧ prf_from_plan (plan bundle) = Ok prf ∧
  head (snd sample_state) = Some first ∧ p_responder_nonce (private (fst sample_state)) = Some responder_nonce ∧
  p_initiator_id_payload_body (private (fst sample_state)) = Some idi ∧
  decrypt_encrypted_payload_from_message flat_cbc byte_hmac byte_md5 final_packet bundle InitiatorToResponder
    = Ok [build_authentication_shared_key_payload
            (eap_auth_data byte_hmac byte_md5 prf bundle [9; 8; 7] first responder_nonce idi)] ∧
  request_id final_packet = Z.of_nat (length (snd sample_state)).
Proof.
  exact (final_auth_binds_session flat_cbc flat_cbc byte_hmac byte_md5 sample_sha1 sample_sha256 sample_profile_record
    (access_from_profile sample_profile_record) 0x1122334455667788 (replicate 16 1) (replicate 8 7) DH_MODP_2048
    sample_ops (fst sample_state) (snd sample_state) final_iv [9; 8; 7] final_packet (snd final_result)
    flat_cbc_laws byte_digest_lengths byte_digest_bytes ltac:(discriminate) sample_ops_bytes
    ltac:(vm_compute; reflexivity) sample_run_eq eq_refl ltac:(vm_compute; reflexivity)).
Defined.

(** The answer of an ePDG that accepts the child. *)
Definition child_answer : list Z :=
  match p_secret_bundle (private (fst sample_state)), child_sa_proposal_from_profile_string (lit "aes256-sha1") 1 [1; 2; 3; 4] with
  | Some bundle, Ok proposal =>
    match build_sa_payload [proposal] with
    | Ok sa =>
      match build_encrypted_payload flat_cbc (Some final_iv) bundle ResponderToInitiator [sa] with
      | Ok p => default [] (res_ok (encode_encrypted_message byte_hmac byte_md5
          (encrypted_message_from_payload 0x1122334455667788 0x99 IkeAuth false 3 p) SecurityAssociation bundle
          ResponderToInitiator))
      | _ => []
      end
    | _ => []
    end
  | _, _ => []
  end.
Definition child_result := exec flat_cbc flat_cbc byte_hmac byte_md5 sample_sha1 sample_sha256 (OpChild child_answer)
  (fst sample_state).
Lemma ready_child_authentic_witness : ∃ encoded bundle inner m, op_packet (OpChild child_answer) = Some encoded ∧
  p_secret_bundle (private (fst sample_state)) = Some bundle ∧ authentic byte_hmac byte_md5 bundle encoded ∧
  open_response flat_cbc byte_hmac byte_md5 bundle encoded = Ok inner ∧
  child_sa_material (snd child_result) = Some m ∧ material_of byte_hmac byte_md5 (fst sample_state) bundle inner m.
Proof.
  apply (ready_child_authentic flat_cbc flat_cbc byte_hmac byte_md5 sample_sha1 sample_sha256 (fst sample_state)
    (OpChild child_answer) (fst child_result) (snd child_result)); [discriminate|vm_compute; discriminate| |vm_compute; reflexivity].
  unfold child_result. apply surjective_pairing.
Defined.
