(* ===== verification/VirtualSim.v ===== *)
(** * The software USIM

    Models [connectivity/modems/ims/virtual_sim]: [milenage.rs] (the card's
    authentication functions over AES-128, which is a parameter), [sqn.rs] (the
    48-bit sequence number), [store.rs] (the record of a subscription's five codes)
    and [mod.rs] (the authentication of a challenge and the registry of lines).
    Subscriptions are shared objects: the registry holds references, so the model
    keeps a heap of them and a map from lines to places in the heap. *)
From Stdlib Require Import ZArith Lia Ascii String Sorted.
From stdpp Require Import prelude gmap sorting.
From S2P Require Import Prelude Text Stun Bytes.
Local Open Scope Z_scope.

(** ** Sequence numbers ([sqn.rs]) *)
Definition SQN_LEN : nat := 6.
Definition MASK48 : Z := 0x0000ffffffffffff.
Definition Sqn : Type := Z.
Definition sqn_default : Sqn := 0.
Definition sqn_from_value (value : Z) : Sqn := Z.land value MASK48.
Definition sqn_from_bytes (bytes : list Z) : Sqn :=
  foldl (λ value byte, Z.lor (u64 (Z.shiftl value 8)) byte) 0 bytes.
Definition sqn_to_bytes (s : Sqn) : list Z :=
  (λ index : nat, Z.land (Z.shiftr s (8 * (Z.of_nat SQN_LEN - 1 - Z.of_nat index))) 0xff) <$> seq 0 SQN_LEN.
Definition sqn_accepts (s network : Sqn) : bool := s <? network.
Definition sqn_advance (s network : Sqn) : Sqn := if s <? network then network else s.
Definition sqn_next (s : Sqn) : Sqn := Z.land (u64 (s + 1)) MASK48.

(** ** Milenage ([milenage.rs]) *)
Definition xor (a b : list Z) : list Z := zip_with Z.lxor a b.
(** [for i in 0..16 { block[(i + shift) % 16] = x[i]; }] *)
Definition rotate (shift : nat) (x : list Z) : list Z :=
  foldl (λ block i, <[((i + shift) mod 16)%nat := x !!! i]> block) (replicate 16 0) (seq 0 16).
(** [block[15] ^= c] *)
Definition xor_last (c : Z) (x : list Z) : list Z := <[15%nat := Z.lxor (x !!! 15%nat) c]> x.

Record Milenage := mkMilenage { mil_k : list Z; mil_opc : list Z }.

Section aes.
Context (aes : list Z → list Z → list Z).

Definition derive_opc (k op : list Z) : list Z := xor (aes k op) op.
Definition from_op (k op : list Z) : Milenage := mkMilenage k (derive_opc k op).
Definition temp (m : Milenage) (rand : list Z) : list Z := aes (mil_k m) (xor rand (mil_opc m)).

Definition f1 (m : Milenage) (sqn amf rand : list Z) : list Z * list Z :=
  let in1 := sqn ++ amf ++ sqn ++ amf in
  let rotated := xor in1 (mil_opc m) in
  let block := rotate 8 rotated in
  let temp := temp m rand in
  let out := xor (aes (mil_k m) (xor block temp)) (mil_opc m) in
  (take 8 out, drop 8 out).

Definition f2345 (m : Milenage) (rand : list Z) : list Z * list Z * list Z * list Z :=
  let temp := temp m rand in
  let base := xor temp (mil_opc m) in
  let f2 := xor_last 1 base in
  let out2 := xor (aes (mil_k m) f2) (mil_opc m) in
  let res := drop 8 out2 in
  let ak := take 6 out2 in
  let f3 := xor_last 2 (rotate 12 base) in
  let ck := xor (aes (mil_k m) f3) (mil_opc m) in
  let f4 := xor_last 4 (rotate 8 base) in
  let ik := xor (aes (mil_k m) f4) (mil_opc m) in
  (res, ck, ik, ak).

Definition f5_star (m : Milenage) (rand : list Z) : list Z :=
  let temp := temp m rand in
  let base := xor temp (mil_opc m) in
  let f5 := xor_last 8 (rotate 4 base) in
  let out := xor (aes (mil_k m) f5) (mil_opc m) in
  take 6 out.

Definition verify_autn (m : Milenage) (rand autn : list Z) : res string (list Z * list Z) :=
  let amf := take 2 (drop 6 autn) in
  let '(_, _, _, ak) := f2345 m rand in
  let sqn := xor (take 6 autn) ak in
  let '(mac_a, _) := f1 m sqn amf rand in
  let expected := take 8 (drop 8 autn) in
  let mismatch := foldl (λ acc '(a, b), Z.lor acc (Z.lxor a b)) 0 (zip mac_a expected) in
  fail_if (negb (mismatch =? 0)) "ims_virtual_sim_autn_mac_invalid"%string;;
  Ok (sqn, amf).

Definition auts (m : Milenage) (rand sqn_ms amf : list Z) : list Z :=
  let '(_, mac_s) := f1 m sqn_ms amf rand in
  let ak_star := f5_star m rand in
  xor sqn_ms ak_star ++ mac_s.

(** ** The five codes ([store.rs]) *)
Inductive OpMaterial := Opc (key : list Z) | Op (key : list Z).
Record FiveCodes := mkCodes {
  iccid : str;
  imsi : str;
  ki : list Z;
  op : OpMaterial;
  msisdn : option str;
}.

(** The texts are ASCII wherever a length in bytes matters. *)
Definition digits_ok (value : str) (min max : nat) : bool :=
  ((min <=? length (utf8_encode value)) && (length (utf8_encode value) <=? max))%nat
  && forallb is_ascii_digit (utf8_encode value).

Definition new_codes (iccid imsi : str) (ki : list Z) (op : OpMaterial) (msisdn : option str)
    : res string FiveCodes :=
  let iccid := filter (λ c, c ≠ 32) (trim iccid) in
  let imsi := trim imsi in
  fail_if (negb (digits_ok iccid 18 22)) "ims_virtual_sim_iccid_invalid"%string;;
  fail_if (negb (digits_ok imsi 5 16)) "ims_virtual_sim_imsi_invalid"%string;;
  let msisdn := match trim <$> msisdn with
    | Some v => if bool_decide (v = []) then None else Some (default v (strip_prefix (lit "+") v))
    | None => None
    end in
  fail_if (match msisdn with Some number => negb (digits_ok number 5 15) | None => false end)
    "ims_virtual_sim_msisdn_invalid"%string;;
  Ok (mkCodes iccid imsi ki op msisdn).

Definition is_opc (c : FiveCodes) : bool := match op c with Opc _ => true | Op _ => false end.
Definition raw_op (c : FiveCodes) : list Z := match op c with Opc key | Op key => key end.
Definition opc (c : FiveCodes) : list Z :=
  match op c with Opc opc => opc | Op op => derive_opc (ki c) op end.
Definition milenage (c : FiveCodes) : Milenage := mkMilenage (ki c) (opc c).

Definition from_op_and_opc (iccid imsi : str) (ki : list Z) (op opc : option (list Z))
    (msisdn : option str) : res string FiveCodes :=
  material ← (match op, opc with
    | Some op, Some opc =>
      if bool_decide (derive_opc ki op = opc) then Ok (Opc opc)
      else Err "ims_virtual_sim_op_opc_mismatch"%string
    | Some op, None => Ok (Op op)
    | None, Some opc => Ok (Opc opc)
    | None, None => Err "ims_virtual_sim_op_missing"%string
    end);
  new_codes iccid imsi ki material msisdn.

Definition FORMAT : Z := 1.
(** One of the three texts: its length in a byte, then its bytes. *)
Definition encode_text (text : option str) : list Z :=
  match text with
  | Some value => u8 (Z.of_nat (length (utf8_encode value))) :: utf8_encode value
  | None => [0]
  end.
Definition encode_codes (c : FiveCodes) : list Z :=
  [FORMAT] ++ encode_text (Some (iccid c)) ++ encode_text (Some (imsi c)) ++ encode_text (msisdn c)
  ++ ki c ++ match op c with Opc key => 0 :: key | Op key => 1 :: key end.

(** The closure [take]: the bytes and the moved cursor. *)
Definition take_bytes (bytes : list Z) (cursor len : nat) : res string (list Z * nat) :=
  slice ← ok_or "ims_virtual_sim_record_truncated"%string (get_range bytes cursor (cursor + len));
  Ok (slice, (cursor + len)%nat).
Definition is_ascii_graphic (b : Z) : bool := in_range 33 126 b.
(** One turn of the loop over the three slots. *)
Definition take_text (bytes : list Z) (cursor : nat) : res string (option str * nat) :=
  '(len, cursor) ← take_bytes bytes cursor 1;
  len ← idx len 0;
  if len =? 0 then Ok (None, cursor) else
  '(value, cursor) ← take_bytes bytes cursor (Z.to_nat len);
  fail_if (negb (forallb is_ascii_graphic value)) "ims_virtual_sim_record_invalid"%string;;
  text ← ok_or "ims_virtual_sim_record_invalid"%string (from_utf8 value);
  Ok (Some text, cursor).
Definition decode_codes (bytes : list Z) : res string FiveCodes :=
  '(format, cursor) ← take_bytes bytes 0 1;
  format ← idx format 0;
  fail_if (negb (format =? FORMAT)) "ims_virtual_sim_record_version_unsupported"%string;;
  '(text0, cursor) ← take_text bytes cursor;
  '(text1, cursor) ← take_text bytes cursor;
  '(text2, cursor) ← take_text bytes cursor;
  '(ki, cursor) ← take_bytes bytes cursor 16;
  '(kind, cursor) ← take_bytes bytes cursor 1;
  kind ← idx kind 0;
  '(op, cursor) ← take_bytes bytes cursor 16;
  fail_if (negb (cursor =? length bytes)%nat) "ims_virtual_sim_record_trailing"%string;;
  material ← (if kind =? 0 then Ok (Opc op) else if kind =? 1 then Ok (Op op)
              else Err "ims_virtual_sim_record_invalid"%string);
  new_codes (default [] text0) (default [] text1) ki material text2.

(** ** Authentication and the registry ([mod.rs]) *)
Record AkaOutput := mkAka { out_res : list Z; out_ck : list Z; out_ik : list Z; out_auts : option (list Z) }.
Record VirtualSim := mkSim { profile_id : str; codes : FiveCodes; sqn : Sqn }.
Definition new_sim (profile_id : str) (codes : FiveCodes) : VirtualSim := mkSim profile_id codes sqn_default.

Definition resync (m : Milenage) (rand amf : list Z) (s : Sqn) : AkaOutput :=
  mkAka [] [] [] (Some (auts m rand (sqn_to_bytes (sqn_next s)) amf)).

(** [authenticate]: the answer and the sequence number left in the lock. *)
Definition authenticate (sim : VirtualSim) (rand autn : list Z) : res string AkaOutput * Sqn :=
  let s := sqn sim in
  if negb (length rand =? 16)%nat then (Err "ims_virtual_sim_rand_invalid"%string, s)
  else if negb (length autn =? 16)%nat then (Err "ims_virtual_sim_autn_invalid"%string, s)
  else
    let amf := take 2 (drop 6 autn) in
    let m := milenage (codes sim) in
    match verify_autn m rand autn with
    | Ok (network_sqn, _) =>
      let network := sqn_from_bytes network_sqn in
      if negb (sqn_accepts s network) then (Ok (resync m rand amf s), s)
      else
        let s := sqn_advance s network in
        let '(res, ck, ik, _) := f2345 m rand in
        (Ok (mkAka res ck ik None), s)
    | Err _ => (Ok (resync m rand amf s), s)
    | Panic => (Panic, s)
    end.
End aes.

(** The heap of subscriptions and the registry of lines. *)
Record World := mkWorld { heap : list VirtualSim; lines_of : gmap str nat }.
Definition boot : World := mkWorld [] ∅.
(** [VirtualSim::new]: a fresh object. *)
Definition allocate (profile_id : str) (codes : FiveCodes) (w : World) : nat * World :=
  (length (heap w), mkWorld (heap w ++ [new_sim profile_id codes]) (lines_of w)).
Definition install_for_line (line_id : str) (profile : nat) (w : World) : res string unit * World :=
  match heap w !! profile with
  | None => (Panic, w)
  | Some sim =>
    if bool_decide (line_id = []) || bool_decide (profile_id sim = []) then
      (Err "ims_virtual_sim_profile_invalid"%string, w)
    else if decide (is_Some (lines_of w !! line_id)) then
      (Err "ims_virtual_sim_profile_duplicate"%string, w)
    else (Ok tt, mkWorld (heap w) (<[line_id := profile]> (lines_of w)))
  end.
Definition for_line (line_id : str) (w : World) : option nat := lines_of w !! line_id.
Definition installed_line_ids (w : World) : list str := (map_to_list (lines_of w)).*1.
Definition is_virtual_line (line_id : str) (w : World) : bool :=
  bool_decide (is_Some (lines_of w !! line_id)).
Definition remove_for_line (line_id : str) (w : World) : bool * World :=
  (bool_decide (is_Some (lines_of w !! line_id)), mkWorld (heap w) (delete line_id (lines_of w))).
Definition authenticate_at (aes : list Z → list Z → list Z) (profile : nat) (rand autn : list Z) (w : World)
    : res string AkaOutput * World :=
  match heap w !! profile with
  | None => (Panic, w)
  | Some sim =>
    let '(r, s) := authenticate aes sim rand autn in
    (r, mkWorld (<[profile := mkSim (profile_id sim) (codes sim) s]> (heap w)) (lines_of w))
  end.

(** [install_all] of [db.rs]: the rows in the order of the query, each with the record
    [open_profile] reads for its line; the counts of installed and failed rows. *)
Fixpoint install_all (rows : list (str * str)) (record : str → res string (option (list Z)))
    (counts : nat * nat) (w : World) : res string (nat * nat) * World :=
  match rows with
  | [] => (Ok counts, w)
  | (line_id, profile_id) :: rows =>
    match record line_id with
    | Ok None => install_all rows record (counts.1, S counts.2) w
    | Ok (Some blob) =>
      match decode_codes blob with
      | Ok codes =>
        let '(_, w) := remove_for_line line_id w in
        let '(id, w) := allocate profile_id codes w in
        match install_for_line line_id id w with
        | (Ok _, w) => install_all rows record (S counts.1, counts.2) w
        | (Err e, w) => (Err e, w)
        | (Panic, w) => (Panic, w)
        end
      | Err e => (Err e, w)
      | Panic => (Panic, w)
      end
    | Err e => (Err e, w)
    | Panic => (Panic, w)
    end
  end.

(** ** Sequence numbers as integers *)
Lemma lor_byte v b : 0 ≤ v → is_byte b → Z.lor (Z.shiftl v 8) b = v * 256 + b.
Proof.
  intros Hv Hb. unfold is_byte in Hb. rewrite Z.shiftl_mul_pow2 by lia. change (2 ^ 8) with 256.
  symmetry. apply Z.bits_inj'. intros n Hn. rewrite Z.lor_spec.
  change 256 with (2 ^ 8). destruct (Z.lt_ge_cases n 8).
  - rewrite Z.mul_pow2_bits_low by lia. rewrite orb_false_l.
    rewrite <-(Z.mod_pow2_bits_low _ 8 n) by lia. rewrite Z.add_comm, Z.mod_add by lia.
    by rewrite Z.mod_pow2_bits_low by lia.
  - rewrite Z.mul_pow2_bits by lia.
    assert (Z.testbit b n = false) as ->.
    { rewrite <-(Z.mod_small b (2 ^ 8)) by (change (2 ^ 8) with 256; lia). by apply Z.mod_pow2_bits_high; lia. }
    rewrite orb_false_r. replace n with (n - 8 + 8) at 1 by lia.
    rewrite <-Z.div_pow2_bits, Z.div_add_l by lia.
    by rewrite Z.div_small, Z.add_0_r by (change (2 ^ 8) with 256; lia).
Qed.

Lemma sqn_from_bytes_be l : bytes_ok l → (length l ≤ 7)%nat → sqn_from_bytes l = of_be_bytes l.
Proof.
  induction l as [|b l IH] using rev_ind; [done|]. intros [Hl Hb]%bytes_ok_snoc Hlen.
  rewrite length_app in Hlen. simpl in Hlen. unfold sqn_from_bytes in *. rewrite foldl_app.
  rewrite IH, of_be_bytes_snoc by (done || lia). cbn [foldl].
  pose proof (of_be_bytes_range l Hl) as Hr.
  assert (256 ^ Z.of_nat (length l) ≤ 256 ^ 6) by (apply Z.pow_le_mono_r; lia).
  assert (256 ^ 6 = 2 ^ 48) as E by reflexivity. rewrite E in *.
  rewrite <-lor_byte by (done || lia). f_equal. apply wrap_small.
  rewrite Z.shiftl_mul_pow2 by lia. change (2 ^ 48) with 281474976710656 in *.
  change (2 ^ 8) with 256. change (2 ^ 64) with 18446744073709551616. lia.
Qed.

Lemma sqn_to_bytes_be s : 0 ≤ s < 2 ^ 48 → sqn_to_bytes s = be_bytes 6 s.
Proof.
  intros Hs. unfold sqn_to_bytes, SQN_LEN. cbn [seq fmap list_fmap].
  assert (∀ k, 0 ≤ k → Z.land (Z.shiftr s k) 255 = s / 2 ^ k mod 256) as Hb.
  { intros k Hk. change 255 with (Z.ones 8). rewrite Z.land_ones by lia. by rewrite Z.shiftr_div_pow2 by lia. }
  rewrite !Hb by (simpl; lia). unfold be_bytes. cbn [app].
  rewrite !Z.div_div by lia. repeat f_equal. apply Z.div_1_r.
Qed.
Lemma sqn_next_range s : 0 ≤ s < 2 ^ 48 → 0 ≤ sqn_next s < 2 ^ 48.
Proof.
  intros. unfold sqn_next, MASK48. change 0xffffffffffff with (Z.ones 48). rewrite Z.land_ones by lia.
  apply Z.mod_pos_bound. lia.
Qed.
Lemma sqn_next_succ s : 0 ≤ s < 2 ^ 48 - 1 → sqn_next s = s + 1.
Proof.
  intros H. unfold sqn_next, MASK48. change 0xffffffffffff with (Z.ones 48).
  change (2 ^ 48) with 281474976710656 in H.
  rewrite wrap_small by (change (2 ^ 64) with 18446744073709551616; lia).
  rewrite Z.land_ones by lia. apply Z.mod_small. change (2 ^ 48) with 281474976710656. lia.
Qed.

(** ** Bytes *)
Lemma length_xor a b : length (xor a b) = Nat.min (length a) (length b).
Proof. apply length_zip_with. Qed.
Lemma xor_involutive a b : (length a ≤ length b)%nat → xor (xor a b) b = a.
Proof. apply zip_lxor_involutive. Qed.
Lemma is_byte_lxor x y : is_byte x → is_byte y → is_byte (Z.lxor x y).
Proof. intros Hx Hy. by apply (lxor_bounded 8). Qed.
Lemma bytes_ok_xor a b : bytes_ok a → bytes_ok b → bytes_ok (xor a b).
Proof. apply bytes_ok_zip_lxor. Qed.
Lemma length_rotate k x : length (rotate k x) = 16%nat.
Proof.
  unfold rotate. assert (∀ l b, length (foldl (λ block i, <[((i + k) mod 16)%nat := x !!! i]> block) b l)
    = length b) as H.
  { induction l as [|i l IH]; intros b; [done|]. cbn [foldl]. by rewrite IH, length_insert. }
  by rewrite H.
Qed.
Lemma bytes_ok_rotate k x : bytes_ok x → length x = 16%nat → bytes_ok (rotate k x).
Proof.
  intros Hx Hl. unfold rotate.
  assert (∀ l b, Forall (λ i, i < 16)%nat l → bytes_ok b →
    bytes_ok (foldl (λ block i, <[((i + k) mod 16)%nat := x !!! i]> block) b l)) as H.
  { induction l as [|i l IH]; intros b Hi Hb; [done|]. apply Forall_cons in Hi as [Hi Hl']. cbn [foldl].
    apply IH; [done|]. apply Forall_insert; [done|].
    apply (bytes_ok_lookup x i); [done|]. apply list_lookup_lookup_total_lt. lia. }
  apply H; [|by apply (bool_decide_unpack _)]. apply Forall_seq. lia.
Qed.
Lemma length_xor_last c x : length (xor_last c x) = length x.
Proof. apply length_insert. Qed.
Lemma bytes_ok_xor_last c x : is_byte c → bytes_ok x → length x = 16%nat → bytes_ok (xor_last c x).
Proof.
  intros Hc Hx Hl. apply Forall_insert; [done|]. apply is_byte_lxor; [|done].
  apply (bytes_ok_lookup x 15); [done|]. apply list_lookup_lookup_total_lt. lia.
Qed.

Section laws.
Context (aes : list Z → list Z → list Z).
(** AES-128 maps a block of sixteen bytes to a block of sixteen bytes. *)
Definition block16 (x : list Z) : Prop := length x = 16%nat ∧ bytes_ok x.
Definition aes_laws : Prop := ∀ k x, block16 k → block16 x → block16 (aes k x).
Hypothesis (Haes : aes_laws).
Definition milenage_ok (m : Milenage) : Prop := block16 (mil_k m) ∧ block16 (mil_opc m).

Lemma block16_xor a b : block16 a → block16 b → block16 (xor a b).
Proof. intros [Ha1 Ha2] [Hb1 Hb2]. split; [rewrite length_xor; lia|by apply bytes_ok_xor]. Qed.
Lemma block16_rotate k x : block16 x → block16 (rotate k x).
Proof. intros [H1 H2]. split; [apply length_rotate|by apply bytes_ok_rotate]. Qed.
Lemma block16_xor_last c x : is_byte c → block16 x → block16 (xor_last c x).
Proof. intros Hc [H1 H2]. split; [by rewrite length_xor_last|by apply bytes_ok_xor_last]. Qed.
Lemma block16_temp m rand : milenage_ok m → block16 rand → block16 (temp aes m rand).
Proof. intros [Hk Ho] Hr. apply Haes; [done|by apply block16_xor]. Qed.

(** The shapes of what the functions return. *)
Definition bytes_of_length (n : nat) (x : list Z) : Prop := length x = n ∧ bytes_ok x.
Lemma block16_take n x : block16 x → (n ≤ 16)%nat → bytes_of_length n (take n x).
Proof. intros [H1 H2] Hn. split; [rewrite length_take; lia|by apply bytes_ok_take]. Qed.
Lemma block16_drop n x : block16 x → (n ≤ 16)%nat → bytes_of_length (16 - n) (drop n x).
Proof. intros [H1 H2] Hn. split; [rewrite length_drop; lia|by apply bytes_ok_drop]. Qed.

Lemma f1_shape m s amf rand : milenage_ok m → block16 rand → bytes_of_length 6 s → bytes_of_length 2 amf →
  bytes_of_length 8 (f1 aes m s amf rand).1 ∧ bytes_of_length 8 (f1 aes m s amf rand).2.
Proof.
  intros Hm Hr [Hs1 Hs2] [Ha1 Ha2]. unfold f1. cbn [fst snd].
  assert (block16 (s ++ amf ++ s ++ amf)) as Hin.
  { split; [rewrite !length_app; lia|]. rewrite !bytes_ok_app. done. }
  pose proof (block16_temp m rand Hm Hr) as Ht. destruct Hm as [Hk Ho].
  assert (block16 (xor (aes (mil_k m) (xor (rotate 8 (xor (s ++ amf ++ s ++ amf) (mil_opc m)))
    (temp aes m rand))) (mil_opc m))) as Hout.
  { apply block16_xor; [|done]. apply Haes; [done|]. apply block16_xor; [|done].
    by apply block16_rotate, block16_xor. }
  split; [apply (block16_take 8); [done|lia]|apply (block16_drop 8); [done|lia]].
Qed.
Lemma f2345_shape m rand res ck ik ak : milenage_ok m → block16 rand → f2345 aes m rand = (res, ck, ik, ak) →
  bytes_of_length 8 res ∧ block16 ck ∧ block16 ik ∧ bytes_of_length 6 ak.
Proof.
  intros Hm Hr. pose proof (block16_temp m rand Hm Hr) as Ht. destruct Hm as [Hk Ho].
  unfold f2345. intros [= <- <- <- <-].
  assert (block16 (xor (temp aes m rand) (mil_opc m))) as Hb by (by apply block16_xor).
  assert (∀ c k, is_byte c → block16 (xor (aes (mil_k m) (xor_last c (rotate k (xor (temp aes m rand)
    (mil_opc m))))) (mil_opc m))) as Hblk.
  { intros. apply block16_xor; [|done]. apply Haes; [done|]. apply block16_xor_last; [done|].
    by apply block16_rotate. }
  assert (block16 (xor (aes (mil_k m) (xor_last 1 (xor (temp aes m rand) (mil_opc m)))) (mil_opc m))) as H2.
  { apply block16_xor; [|done]. apply Haes; [done|]. apply block16_xor_last; [by apply (bool_decide_unpack _)|done]. }
  split; [apply (block16_drop 8); [done|lia]|].
  split; [apply Hblk; by apply (bool_decide_unpack _)|]. split; [apply Hblk; by apply (bool_decide_unpack _)|].
  apply block16_take; [done|lia].
Qed.
Lemma f5_star_shape m rand : milenage_ok m → block16 rand → bytes_of_length 6 (f5_star aes m rand).
Proof.
  intros Hm Hr. pose proof (block16_temp m rand Hm Hr) as Ht. destruct Hm as [Hk Ho]. unfold f5_star.
  apply block16_take; [|lia]. apply block16_xor; [|done]. apply Haes; [done|].
  apply block16_xor_last; [by apply (bool_decide_unpack _)|]. by apply block16_rotate, block16_xor.
Qed.

(** ** What a network sends (TS 33.102, 6.3.2) *)
Definition network_autn (m : Milenage) (rand s amf : list Z) : list Z :=
  let '(_, _, _, ak) := f2345 aes m rand in
  xor s ak ++ amf ++ (f1 aes m s amf rand).1.

Lemma length_network_autn m rand s amf : milenage_ok m → block16 rand → bytes_of_length 6 s →
  bytes_of_length 2 amf → length (network_autn m rand s amf) = 16%nat.
Proof.
  intros Hm Hr Hs Ha. unfold network_autn. destruct (f2345 aes m rand) as [[[res ck] ik] ak] eqn:E.
  destruct (f2345_shape m rand res ck ik ak Hm Hr E) as (_ & _ & _ & [Hl _]).
  destruct (f1_shape m s amf rand Hm Hr Hs Ha) as [[H1 _] _].
  destruct Hs as [Hs _], Ha as [Ha _]. rewrite !length_app, length_xor, H1. lia.
Qed.

(** [verify_autn] accepts exactly what the network with the same keys builds. *)
Lemma verify_autn_spec m rand autn s amf : milenage_ok m → block16 rand → block16 autn →
  verify_autn aes m rand autn = Ok (s, amf) ↔
  bytes_of_length 6 s ∧ bytes_of_length 2 amf ∧ autn = network_autn m rand s amf.
Proof.
  intros Hm Hr [Hl Hb]. unfold verify_autn, network_autn.
  destruct (f2345 aes m rand) as [[[res ck] ik] ak] eqn:E.
  destruct (f2345_shape m rand res ck ik ak Hm Hr E) as (_ & _ & _ & [Hak Hakb]).
  set (amf' := take 2 (drop 6 autn)). set (s' := xor (take 6 autn) ak).
  assert (bytes_of_length 2 amf') as Ha'.
  { split; [unfold amf'; rewrite length_take, length_drop; lia|by apply bytes_ok_take, bytes_ok_drop]. }
  assert (bytes_of_length 6 s') as Hs'.
  { split; [unfold s'; rewrite length_xor, length_take; lia|].
    apply bytes_ok_xor; [by apply bytes_ok_take|done]. }
  pose proof (f1_shape m s' amf' rand Hm Hr Hs' Ha') as [[Hm1 _] _].
  destruct (f1 aes m s' amf' rand) as [mac_a mac_s] eqn:Ef. cbn [fst snd] in Hm1.
  assert (autn = take 6 autn ++ amf' ++ take 8 (drop 8 autn)) as Hsplit.
  { unfold amf'. rewrite <-(take_drop 6 autn) at 1. f_equal. rewrite <-(take_drop 2 (drop 6 autn)) at 1.
    f_equal. rewrite drop_drop. symmetry. apply firstn_all2. rewrite length_drop. lia. }
  assert (length mac_a = length (take 8 (drop 8 autn))) as Hlen by (rewrite length_take, length_drop; lia).
  pose proof (fold_mismatch_zero mac_a (take 8 (drop 8 autn)) Hlen) as Hz.
  assert (∀ rest, bytes_of_length 6 s → bytes_of_length 2 amf → autn = xor s ak ++ amf ++ rest →
    s' = s ∧ amf' = amf) as Hparts.
  { intros rest [Hs _] [Ha _] Hn.
    assert (length (xor s ak) = 6%nat) as H6 by (rewrite length_xor; lia). split.
    - unfold s'. rewrite Hn, take_app_le, take_ge by lia. apply xor_involutive. lia.
    - unfold amf'. rewrite Hn, drop_app_ge, H6, Nat.sub_diag, drop_0 by lia.
      rewrite take_app_le, take_ge by lia. done. }
  destruct (Z.eqb_spec (foldl (λ acc '(a, b), Z.lor acc (Z.lxor a b)) 0 (zip mac_a (take 8 (drop 8 autn)))) 0)
    as [H0|H0]; cbn [negb fail_if mbind res_bind].
  - split.
    + intros [= <- <-]. split; [done|]. split; [done|]. rewrite Ef. cbn [fst].
      apply Hz in H0. rewrite Hsplit at 1. rewrite <-H0. f_equal. unfold s'. symmetry.
      apply xor_involutive. rewrite length_take. lia.
    + intros (Hs & Ha & Hn). by destruct (Hparts _ Hs Ha Hn) as [-> ->].
  - split; [done|]. intros (Hs & Ha & Hn). destruct H0. apply Hz.
    destruct (Hparts _ Hs Ha Hn) as [Hs'' Ha'']. rewrite Hs'', Ha'' in Ef. rewrite Ef in Hn.
    cbn [fst] in Hn. rewrite Hsplit in Hn.
    assert (take 6 autn = xor s ak) as H6.
    { rewrite <-Hs''. unfold s'. symmetry. apply xor_involutive. rewrite length_take. lia. }
    rewrite H6, Ha'' in Hn. by apply app_inv_head, app_inv_head in Hn.
Qed.
End laws.

(** ** Stored records *)
Definition all_digits (s : str) : Prop := Forall (λ c, is_ascii_digit c = true) s.

Lemma digit_range c : is_ascii_digit c = true → 48 ≤ c ≤ 57.
Proof. by intros H%in_range_true. Qed.
Lemma utf8_char_digit c : Forall (λ b, is_ascii_digit b = true) (utf8_char c) → is_ascii_digit c = true.
Proof.
  unfold utf8_char. intros Hall.
  destruct (Z.ltb_spec c 128); [exact (proj1 (Forall_singleton _ _) Hall)|]. exfalso.
  destruct (c <? 2048); [|destruct (c <? 65536)]; apply Forall_cons in Hall as [Hd%digit_range _].
  - assert (0 ≤ c / 64) by (apply Z.div_pos; lia). lia.
  - assert (0 ≤ c / 4096) by (apply Z.div_pos; lia). lia.
  - assert (0 ≤ c / 262144) by (apply Z.div_pos; lia). lia.
Qed.
Lemma all_digits_utf8 s : forallb is_ascii_digit (utf8_encode s) = true → all_digits s.
Proof.
  intros H. assert (Forall (λ b, is_ascii_digit b = true) (utf8_encode s)) as Hall.
  { apply Forall_forall. intros b Hb%list_elem_of_In. by apply (proj1 (forallb_forall _ _) H). }
  clear H. induction s as [|c s IH]; [constructor|].
  change (utf8_encode (c :: s)) with (utf8_char c ++ utf8_encode s) in Hall.
  apply Forall_app in Hall as [Hc Hs]. constructor; [by apply utf8_char_digit|by apply IH].
Qed.
Lemma all_digits_ascii s : all_digits s → Forall is_ascii s.
Proof. intros H. eapply Forall_impl; [exact H|]. intros c Hc%digit_range. unfold is_ascii. lia. Qed.
Lemma digits_ok_inv s min max : digits_ok s min max = true →
  all_digits s ∧ utf8_encode s = s ∧ (min ≤ length s ≤ max)%nat.
Proof.
  unfold digits_ok. intros [Hlen Hd]%andb_true_iff. bool_prop. apply all_digits_utf8 in Hd.
  assert (utf8_encode s = s) as E by (by apply utf8_encode_ascii, all_digits_ascii).
  rewrite E in *. split_and!; [done|done|lia|lia].
Qed.
Lemma digits_ok_digits s min max : all_digits s → (min ≤ length s ≤ max)%nat → digits_ok s min max = true.
Proof.
  intros Hd Hl. unfold digits_ok. rewrite utf8_encode_ascii by (by apply all_digits_ascii).
  rewrite (proj2 (Nat.leb_le _ _)), (proj2 (Nat.leb_le _ _)) by lia. cbn.
  apply forallb_forall. intros c Hc. eapply Forall_forall in Hd; [exact Hd|]. by apply list_elem_of_In.
Qed.
Lemma trim_digits s : all_digits s → trim s = s.
Proof.
  intros Hd. assert (Forall (λ c, is_whitespace c = false) s) as Hs.
  { eapply Forall_impl; [exact Hd|]. apply digit_not_space. }
  apply trim_id; [by apply head_not_Forall|by apply head_not_reverse].
Qed.
Lemma filter_digits s : all_digits s → filter (λ c, c ≠ 32) s = s.
Proof.
  induction 1 as [|c s Hc%digit_range _ IH]; [done|]. rewrite filter_cons_True by lia. by rewrite IH.
Qed.

(** The texts of an accepted subscription. *)
Definition codes_ok (c : FiveCodes) : Prop :=
  (all_digits (iccid c) ∧ 18 ≤ length (iccid c) ≤ 22)%nat ∧
  (all_digits (imsi c) ∧ 5 ≤ length (imsi c) ≤ 16)%nat ∧
  (∀ n, msisdn c = Some n → all_digits n ∧ 5 ≤ length n ≤ 15)%nat ∧
  block16 (ki c) ∧ block16 (raw_op c).

Lemma new_codes_inv ic im k o ms c : new_codes ic im k o ms = Ok c → block16 k →
  block16 (match o with Opc key | Op key => key end) → codes_ok c ∧ ki c = k ∧ op c = o.
Proof.
  unfold new_codes. intros H Hk Ho.
  apply bind_Ok in H as (u1 & H1%fail_if_Ok%negb_false_iff%digits_ok_inv & H).
  apply bind_Ok in H as (u2 & H2%fail_if_Ok%negb_false_iff%digits_ok_inv & H).
  apply bind_Ok in H as (u3 & H3%fail_if_Ok & <-%Ok_inj). split; [|done].
  split; [tauto|]. split; [tauto|]. split; [|done]. intros n Hn. cbn [msisdn] in Hn. rewrite Hn in H3.
  apply negb_false_iff, digits_ok_inv in H3. tauto.
Qed.

(** [new] takes the fields of an accepted record as they are. *)
Lemma new_codes_again c : codes_ok c → new_codes (iccid c) (imsi c) (ki c) (op c) (msisdn c) = Ok c.
Proof.
  intros ([Hi Hil] & [Hm Hml] & Hn & _). unfold new_codes.
  rewrite (trim_digits _ Hi), (filter_digits _ Hi), (trim_digits _ Hm).
  rewrite (digits_ok_digits _ 18 22 Hi Hil), (digits_ok_digits _ 5 16 Hm Hml). cbn [negb fail_if mbind res_bind].
  destruct c as [ic im k o [n|]]; cbn [iccid imsi ki op msisdn fmap option_fmap option_map] in *; [|done].
  destruct (Hn n eq_refl) as [Hd Hl]. rewrite (trim_digits _ Hd).
  rewrite bool_decide_eq_false_2 by (intros ->; simpl in Hl; lia).
  assert (strip_prefix (lit "+") n = None) as ->.
  { unfold strip_prefix, starts_with. rewrite bool_decide_eq_false_2; [done|].
    destruct Hd as [|x n' Hx%digit_range _]; [done|]. cbn. intros [= ->]. change (ch "+") with 43 in Hx. lia. }
  cbn [default]. by rewrite (digits_ok_digits _ 5 15 Hd Hl).
Qed.

(** Cutting the record where it was put together. *)
Lemma take_bytes_app p s t cursor len : cursor = length p → len = length s →
  take_bytes (p ++ s ++ t) cursor len = Ok (s, length (p ++ s)).
Proof.
  intros -> ->. unfold take_bytes. rewrite get_range_app by done. cbn. by rewrite length_app.
Qed.
Lemma take_text_digits p v t : all_digits v → (1 ≤ length v < 256)%nat →
  take_text (p ++ encode_text (Some v) ++ t) (length p) = Ok (Some v, length (p ++ encode_text (Some v))).
Proof.
  intros Hd Hl. unfold encode_text. pose proof (all_digits_ascii v Hd) as Ha.
  rewrite utf8_encode_ascii by done.
  rewrite wrap_small by (change (2 ^ 8) with 256; lia). set (n := Z.of_nat (length v)).
  unfold take_text. change (p ++ (n :: v) ++ t) with (p ++ [n] ++ (v ++ t)).
  rewrite take_bytes_app by done. cbn [mbind res_bind]. cbn [idx lookup list_lookup].
  change (idx [n] 0) with (Ok (E:=string) n). cbn [mbind res_bind].
  rewrite (proj2 (Z.eqb_neq n 0)) by lia.
  rewrite (app_assoc p [n]), take_bytes_app by (done || lia). cbn [mbind res_bind].
  assert (forallb is_ascii_graphic v = true) as ->.
  { apply forallb_forall. intros c Hc. apply list_elem_of_In in Hc.
    eapply Forall_forall in Hd; [|exact Hc]. apply digit_range in Hd. unfold is_ascii_graphic, in_range.
    apply andb_true_iff; split; apply Z.leb_le; lia. }
  cbn [negb fail_if mbind res_bind].
  rewrite <-(utf8_encode_ascii v Ha) at 1. rewrite utf8_roundtrip by (by apply ascii_is_char).
  cbn [ok_or mbind res_bind]. by rewrite <-app_assoc.
Qed.
Lemma take_text_none p t : take_text (p ++ encode_text None ++ t) (length p)
  = Ok (None, length (p ++ encode_text None)).
Proof. unfold take_text, encode_text. rewrite take_bytes_app by done. done. Qed.

Lemma no_panic_take_bytes bytes cursor len : no_panic (take_bytes bytes cursor len) ∧
  ∀ s c, take_bytes bytes cursor len = Ok (s, c) → length s = len.
Proof.
  unfold take_bytes. split; [np|]. intros s c H.
  apply bind_Ok in H as (x & Hx%ok_or_Ok%get_range_length & [= <- _]%Ok_inj). lia.
Qed.
(** One byte taken is a byte to look at. *)
Lemma no_panic_take_one {A} bytes cursor (k : Z → nat → res string A) :
  (∀ b c, no_panic (k b c)) →
  no_panic ('(s, c) ← take_bytes bytes cursor 1; b ← idx s 0; k b c).
Proof.
  intros Hk. destruct (no_panic_take_bytes bytes cursor 1) as [Hnp Hl].
  destruct (take_bytes bytes cursor 1) as [[s c]|e|]; cbn [mbind res_bind]; [|done|done].
  specialize (Hl s c eq_refl). destruct s as [|b s]; [done|]. apply Hk.
Qed.
Lemma no_panic_take_text bytes cursor : no_panic (take_text bytes cursor).
Proof.
  apply no_panic_take_one. intros b c. destruct (b =? 0); [done|].
  np_step; [apply no_panic_take_bytes|]. match goal with x : _ * _ |- _ => destruct x end. np.
Qed.
Lemma no_panic_new_codes ic im k o ms : no_panic (new_codes ic im k o ms).
Proof. unfold new_codes. np. Qed.

(** ** Challenges *)
Section authentication.
Context (aes : list Z → list Z → list Z).
Hypothesis (Haes : aes_laws aes).

Lemma milenage_codes_ok c : block16 (ki c) → block16 (raw_op c) → milenage_ok (milenage aes c).
Proof.
  intros Hk Ho. split; [done|]. unfold milenage, opc, raw_op in *. cbn [mil_opc].
  destruct (op c) as [k|k]; [done|]. apply block16_xor; [by apply Haes|done].
Qed.
Definition sim_ok (sim : VirtualSim) : Prop :=
  block16 (ki (codes sim)) ∧ block16 (raw_op (codes sim)) ∧ 0 ≤ sqn sim < 2 ^ 48.

(** What is asked of the card: the network's challenge for a sequence number. *)
Definition challenge (sim : VirtualSim) (rand autn s amf : list Z) : Prop :=
  bytes_of_length 6 s ∧ bytes_of_length 2 amf ∧
  autn = network_autn aes (milenage aes (codes sim)) rand s amf.

Lemma verify_challenge sim rand autn s amf : sim_ok sim → block16 rand → block16 autn →
  verify_autn aes (milenage aes (codes sim)) rand autn = Ok (s, amf) ↔ challenge sim rand autn s amf.
Proof. intros (Hk & Ho & _) Hr Ha. apply verify_autn_spec; try done. by apply milenage_codes_ok. Qed.
Lemma no_panic_verify m rand autn : no_panic (verify_autn aes m rand autn).
Proof. unfold verify_autn. destruct (f2345 aes m rand) as [[[? ?] ?] ?], (f1 aes m _ _ rand). np. Qed.

Lemma authenticate_cases sim rand autn : sim_ok sim → block16 rand → block16 autn →
  let m := milenage aes (codes sim) in
  (∃ s amf res ck ik ak, challenge sim rand autn s amf ∧ sqn sim < of_be_bytes s ∧
    f2345 aes m rand = (res, ck, ik, ak) ∧
    authenticate aes sim rand autn = (Ok (mkAka res ck ik None), of_be_bytes s)) ∨
  ((∀ s amf, challenge sim rand autn s amf → of_be_bytes s ≤ sqn sim) ∧
    authenticate aes sim rand autn = (Ok (resync aes m rand (take 2 (drop 6 autn)) (sqn sim)), sqn sim)).
Proof.
  intros Hs Hr Ha m. pose proof (verify_challenge sim rand autn) as Hv.
  pose proof (no_panic_verify m rand autn) as Hnp.
  unfold authenticate. rewrite (proj2 (Nat.eqb_eq _ _) (proj1 Hr)), (proj2 (Nat.eqb_eq _ _) (proj1 Ha)).
  cbn [negb]. fold m. destruct (verify_autn aes m rand autn) as [[s amf]|e|] eqn:E; [|right|done].
  - pose proof (proj1 (Hv s amf Hs Hr Ha) E) as Hc. pose proof Hc as ((Hls & Hbs) & _ & _).
    rewrite (sqn_from_bytes_be s Hbs) by lia. unfold sqn_accepts, sqn_advance.
    destruct (Z.ltb_spec (sqn sim) (of_be_bytes s)) as [Hlt|Hge]; cbn [negb].
    + left. destruct (f2345 aes m rand) as [[[res ck] ik] ak] eqn:Ef.
      by exists s, amf, res, ck, ik, ak.
    + right. split; [|done]. intros s' amf' Hc'.
      pose proof (proj2 (Hv s' amf' Hs Hr Ha) Hc') as E'. fold m in E'. rewrite E in E'.
      by injection E' as <- _.
  - split; [|done]. intros s amf Hc. pose proof (proj2 (Hv s amf Hs Hr Ha) Hc) as E'. fold m in E'.
    rewrite E in E'. discriminate.
Qed.

(** A challenge says which sequence number it is for. *)
Lemma challenge_sqn sim sim' rand autn s s' amf amf' : sim_ok sim → sim_ok sim' → codes sim = codes sim' →
  block16 rand → block16 autn → challenge sim rand autn s amf → challenge sim' rand autn s' amf' → s = s'.
Proof.
  intros Hs Hs' Hc Hr Ha H1%verify_challenge H2%verify_challenge; try done. rewrite Hc in H1.
  rewrite H1 in H2. by injection H2.
Qed.

Lemma authenticate_sim_ok sim rand autn : sim_ok sim → block16 rand → block16 autn →
  0 ≤ (authenticate aes sim rand autn).2 < 2 ^ 48.
Proof.
  intros Hs Hr Ha. destruct (authenticate_cases sim rand autn Hs Hr Ha)
    as [(s & amf & res & ck & ik & ak & ((Hl & Hb) & _ & _) & _ & _ & ->)|[_ ->]]; [|by destruct Hs as (_ & _ & ?)].
  cbn [snd]. pose proof (of_be_bytes_range s Hb) as Hrange. rewrite Hl in Hrange. done.
Qed.
End authentication.

(** ** Runs: operations of any threads on the shared objects, in any order *)
Inductive SimOp :=
| OpNew (profile_id : str) (codes : FiveCodes)
| OpInstall (line_id : str) (profile : nat)
| OpRemove (line_id : str)
| OpAuth (profile : nat) (rand autn : list Z).

(** The operation and, when it accepts a challenge, which and with what number. *)
Record Acceptance := mkAcceptance { by_profile : nat; the_rand : list Z; the_autn : list Z; the_sqn : Sqn }.
Definition exec (aes : list Z → list Z → list Z) (o : SimOp) (w : World) : World * option Acceptance :=
  match o with
  | OpNew pid codes => ((allocate pid codes w).2, None)
  | OpInstall line_id profile => ((install_for_line line_id profile w).2, None)
  | OpRemove line_id => ((remove_for_line line_id w).2, None)
  | OpAuth profile rand autn =>
    let '(r, w') := authenticate_at aes profile rand autn w in
    (w', match r with
         | Ok out =>
           match out_auts out, heap w' !! profile with
           | None, Some sim => Some (mkAcceptance profile rand autn (sqn sim))
           | _, _ => None
           end
         | _ => None
         end)
  end.
Fixpoint run (aes : list Z → list Z → list Z) (ops : list SimOp) (w : World) : World * list Acceptance :=
  match ops with
  | [] => (w, [])
  | o :: ops =>
    let '(w, a) := exec aes o w in
    let '(w, l) := run aes ops w in
    (w, match a with Some a => a :: l | None => l end)
  end.

Definition op_ok (o : SimOp) : Prop :=
  match o with
  | OpNew _ codes => block16 (ki codes) ∧ block16 (raw_op codes)
  | OpAuth _ rand autn => block16 rand ∧ block16 autn
  | _ => True
  end.
Definition world_ok (w : World) : Prop :=
  Forall sim_ok (heap w) ∧
  ∀ line id, lines_of w !! line = Some id → line ≠ [] ∧ ∃ sim, heap w !! id = Some sim ∧ profile_id sim ≠ [].

(** Objects only grow older: their codes stay, their numbers do not go back. *)
Definition older (w w' : World) : Prop :=
  ∀ id sim, heap w !! id = Some sim → ∃ sim', heap w' !! id = Some sim' ∧ codes sim' = codes sim ∧
    profile_id sim' = profile_id sim ∧ sqn sim ≤ sqn sim'.
#[export] Instance older_refl : Reflexive older.
Proof. intros w id sim H. exists sim. by split_and!. Qed.
Lemma older_heap w w' : heap w = heap w' → older w w'.
Proof. intros E id sim H. exists sim. rewrite <-E. by split_and!. Qed.
#[export] Instance older_trans : Transitive older.
Proof.
  intros w1 w2 w3 H12 H23 id sim H. destruct (H12 id sim H) as (s2 & H2 & C2 & P2 & ?).
  destruct (H23 id s2 H2) as (s3 & H3 & C3 & P3 & ?). exists s3. split_and!; [done|congruence..|lia].
Qed.

Section runs.
Context (aes : list Z → list Z → list Z).
Hypothesis (Haes : aes_laws aes).

(** An acceptance in a world: the object, the number it had, the challenge met. *)
Definition accepted_in (w : World) (a : Acceptance) : Prop :=
  block16 (the_rand a) ∧ block16 (the_autn a) ∧
  ∃ sim s amf, heap w !! by_profile a = Some sim ∧ sim_ok sim ∧ sqn sim < the_sqn a ∧
    challenge aes sim (the_rand a) (the_autn a) s amf ∧ the_sqn a = of_be_bytes s.

Lemma allocate_spec pid c w : block16 (ki c) → block16 (raw_op c) → world_ok w →
  world_ok (allocate pid c w).2 ∧ older w (allocate pid c w).2.
Proof.
  intros Hk Ho [Hh Hl]. cbn [allocate snd]. split; [split|].
  - cbn [heap]. apply Forall_app. split; [done|]. apply Forall_singleton. split; [done|]. split; [done|]. by apply (bool_decide_unpack _).
  - cbn [heap lines_of]. intros line id (Hne & sim & Hs & Hp)%Hl. split; [done|]. exists sim.
    split; [|done]. by apply lookup_app_l_Some.
  - intros id sim Hs. exists sim. cbn [heap]. split; [by apply lookup_app_l_Some|]. by split_and!.
Qed.
Lemma install_spec line id w : world_ok w →
  world_ok (install_for_line line id w).2 ∧ older w (install_for_line line id w).2.
Proof.
  intros [Hh Hl]. unfold install_for_line. destruct (heap w !! id) as [sim|] eqn:Hs; [|done].
  destruct (bool_decide (line = [])) eqn:E1; [done|]. apply bool_decide_eq_false in E1.
  destruct (bool_decide (profile_id sim = [])) eqn:E2; [done|]. apply bool_decide_eq_false in E2.
  cbn [orb]. destruct (decide _) as [|Hnone]; [done|]. cbn [snd]. split; [|by apply older_heap].
  split; [done|]. cbn [heap lines_of]. intros line' id' [[<- <-]|[_ H]]%lookup_insert_Some; [|by apply Hl].
  split; [done|]. by exists sim.
Qed.
Lemma remove_spec line w : world_ok w → world_ok (remove_for_line line w).2 ∧ older w (remove_for_line line w).2.
Proof.
  intros [Hh Hl]. cbn [remove_for_line snd]. split; [|by apply older_heap]. split; [done|]. cbn [heap lines_of].
  intros line' id' [_ H]%lookup_delete_Some. by apply Hl.
Qed.

(** A new number under an object that keeps its codes. *)
Lemma set_sqn_spec w id sim s : world_ok w → heap w !! id = Some sim → sqn sim ≤ s < 2 ^ 48 →
  let w' := mkWorld (<[id := mkSim (profile_id sim) (codes sim) s]> (heap w)) (lines_of w) in
  world_ok w' ∧ older w w' ∧ heap w' !! id = Some (mkSim (profile_id sim) (codes sim) s).
Proof.
  intros [Hh Hl] Hs Hr w'. pose proof (lookup_lt_Some _ _ _ Hs) as Hlt.
  assert (sim_ok sim) as (Hk & Ho & Hq) by (by apply (Forall_lookup_1 _ _ _ _ Hh Hs)).
  assert (heap w' !! id = Some (mkSim (profile_id sim) (codes sim) s)) as Hid
    by (unfold w'; cbn [heap]; by apply list_lookup_insert_eq).
  split; [|split; [|done]].
  - split; [apply Forall_insert; [done|]; by split_and!; cbn; try lia|].
    cbn [w' heap lines_of]. intros line i (Hne & sim' & Hs' & Hp)%Hl. split; [done|].
    destruct (decide (i = id)) as [->|Hni].
    + rewrite Hs in Hs'. injection Hs' as <-. eexists; split; [exact Hid|done].
    + exists sim'. split; [|done]. by rewrite list_lookup_insert_ne.
  - intros i sim' Hs'. destruct (decide (i = id)) as [->|Hni].
    + rewrite Hs in Hs'. injection Hs' as <-. eexists; split; [exact Hid|]. cbn. split_and!; try done; lia.
    + exists sim'. cbn [w' heap]. rewrite list_lookup_insert_ne by done. by split_and!.
Qed.

Lemma exec_spec o w : op_ok o → world_ok w → world_ok (exec aes o w).1 ∧ older w (exec aes o w).1 ∧
  ∀ a, (exec aes o w).2 = Some a → accepted_in w a ∧
    ∃ sim', heap (exec aes o w).1 !! by_profile a = Some sim' ∧ sqn sim' = the_sqn a.
Proof.
  intros Ho Hw. destruct o as [pid c|line id|line|id rand autn]; cbn [exec fst snd].
  - destruct Ho as [Hk Ho]. destruct (allocate_spec pid c w Hk Ho Hw). by split_and!.
  - destruct (install_spec line id w Hw). by split_and!.
  - destruct (remove_spec line w Hw). by split_and!.
  - destruct Ho as [Hr Ha]. unfold authenticate_at. destruct (heap w !! id) as [sim|] eqn:Hs; [|done].
    assert (sim_ok sim) as Hok by (by apply (Forall_lookup_1 _ _ _ _ (proj1 Hw) Hs)).
    pose proof (authenticate_sim_ok aes Haes sim rand autn Hok Hr Ha) as Hrange.
    destruct (authenticate_cases aes Haes sim rand autn Hok Hr Ha)
      as [(s & amf & res & ck & ik & ak & Hc & Hlt & Hf & Hau)|[Hold Hau]]; rewrite Hau in *; cbn [snd] in Hrange.
    + destruct (set_sqn_spec w id sim (of_be_bytes s) Hw Hs ltac:(lia)) as (Hw' & Hold & Hid).
      cbn [fst snd out_auts]. rewrite Hid. split; [done|]. split; [done|]. intros a [= <-].
      cbn [by_profile the_sqn sqn]. split; [|eexists; split; [exact Hid|done]].
      split; [done|]. split; [done|]. exists sim, s, amf. by split_and!.
    + destruct (set_sqn_spec w id sim (sqn sim) Hw Hs ltac:(lia)) as (Hw' & Ho' & _). by split_and!.
Qed.

(** Acceptances of one object come with growing numbers and for new challenges. *)
Definition newer (a b : Acceptance) : Prop :=
  by_profile a = by_profile b → the_sqn a < the_sqn b ∧ (the_rand a, the_autn a) ≠ (the_rand b, the_autn b).

Lemma accepted_later w0 w a b : older w0 w → accepted_in w0 a → accepted_in w b →
  (∃ sim', heap w !! by_profile a = Some sim' ∧ the_sqn a ≤ sqn sim') → newer a b.
Proof.
  intros Hold (Hra & Haa & sa & s & amf & Hsa & Hoka & _ & Hca & Ea)
    (Hrb & Hab & sb & s' & amf' & Hsb & Hokb & Hlt & Hcb & Eb) (sim' & Hsim' & Hle) Hid.
  rewrite Hid in *. rewrite Hsb in Hsim'. injection Hsim' as <-.
  destruct (Hold _ _ Hsa) as (sb' & Hsb' & Hcodes & _). rewrite Hsb in Hsb'. injection Hsb' as <-.
  split; [lia|]. intros Heq. assert (the_rand a = the_rand b ∧ the_autn a = the_autn b) as [Hr Ha] by (by injection Heq).
  rewrite Hr, Ha in *.
  assert (s = s') as <- by (by apply (challenge_sqn aes Haes sa sb (the_rand b) (the_autn b) s s' amf amf')).
  lia.
Qed.

Lemma run_spec ops : ∀ w, Forall op_ok ops → world_ok w →
  world_ok (run aes ops w).1 ∧ older w (run aes ops w).1 ∧
  StronglySorted newer (run aes ops w).2 ∧
  Forall (λ a, ∃ w', older w w' ∧ accepted_in w' a) (run aes ops w).2.
Proof.
  induction ops as [|o ops IH]; intros w Hops Hw; [split; [done|]; split; [done|]; by split; constructor|].
  apply Forall_cons in Hops as [Ho Hops]. cbn [run].
  destruct (exec_spec o w Ho Hw) as (Hw1 & Hold1 & Hacc).
  destruct (exec aes o w) as [w1 oa]. cbn [fst snd] in *.
  destruct (IH w1 Hops Hw1) as (Hw2 & Hold2 & Hsort & Hall).
  destruct (run aes ops w1) as [w2 l]. cbn [fst snd] in *.
  split; [done|]. split; [by transitivity w1|].
  assert (Forall (λ a, ∃ w', older w w' ∧ accepted_in w' a) l) as Hall'.
  { eapply Forall_impl; [exact Hall|]. intros a (w' & H1 & H2). exists w'. split; [by transitivity w1|done]. }
  destruct oa as [a|]; [|done]. destruct (Hacc a eq_refl) as (Ha & sim' & Hs' & Hq).
  split; constructor; try done.
  - eapply Forall_impl; [exact Hall|]. intros b (w' & H1 & H2).
    eapply (accepted_later w w'); [by transitivity w1|done|done|].
    destruct (H1 _ _ Hs') as (sim'' & Hs'' & _ & _ & ?). exists sim''. split; [done|lia].
  - by exists w.
Qed.
End runs.

Lemma decode_encode_codes c : codes_ok c → decode_codes (encode_codes c) = Ok c.
Proof.
  intros Hc. pose proof (new_codes_again c Hc) as Hnew.
  destruct Hc as ([Hi Hil] & [Hm Hml] & Hn & [Hk _] & [Ho _]).
  set (optail := match op c with Opc key => 0 :: key | Op key => 1 :: key end).
  assert (encode_codes c = [FORMAT] ++ encode_text (Some (iccid c)) ++ encode_text (Some (imsi c))
    ++ encode_text (msisdn c) ++ ki c ++ optail) as -> by done.
  unfold decode_codes. match goal with |- context [take_bytes ([FORMAT] ++ ?t) 0 1] =>
    assert (take_bytes ([FORMAT] ++ t) 0 1 = Ok ([FORMAT], 1%nat)) as -> by
      (by apply (take_bytes_app [] [FORMAT])) end.
  cbn [mbind res_bind]. change (idx [FORMAT] 0) with (Ok (E:=string) FORMAT). cbn [mbind res_bind].
  rewrite Z.eqb_refl. cbn [negb fail_if mbind res_bind].
  change 1%nat with (length [FORMAT]).
  rewrite (take_text_digits [FORMAT]) by (done || lia). cbn [mbind res_bind].
  set (p1 := [FORMAT] ++ encode_text (Some (iccid c))). rewrite (app_assoc [FORMAT]). fold p1.
  rewrite (take_text_digits p1) by (done || lia). cbn [mbind res_bind].
  set (p2 := p1 ++ encode_text (Some (imsi c))). rewrite (app_assoc p1). fold p2.
  assert (take_text (p2 ++ encode_text (msisdn c) ++ ki c ++ optail) (length p2)
    = Ok (msisdn c, length (p2 ++ encode_text (msisdn c)))) as ->.
  { destruct (msisdn c) as [n|]; [|apply take_text_none]. destruct (Hn n eq_refl).
    apply take_text_digits; [done|lia]. }
  cbn [mbind res_bind]. set (p3 := p2 ++ encode_text (msisdn c)). rewrite (app_assoc p2). fold p3.
  rewrite take_bytes_app by done. cbn [mbind res_bind].
  set (p4 := p3 ++ ki c). rewrite (app_assoc p3). fold p4.
  assert (∃ kind key, optail = [kind] ++ key ++ [] ∧ length key = 16%nat ∧ raw_op c = key ∧
    (if kind =? 0 then Ok (Opc key) else if kind =? 1 then Ok (Op key)
     else Err "ims_virtual_sim_record_invalid"%string) = Ok (op c)) as (kind & key & -> & Hl & Hraw & Hop).
  { unfold optail, raw_op in *. destruct (op c) as [key|key];
      eexists _, key; rewrite app_nil_r; by split_and!. }
  rewrite take_bytes_app by done. cbn [mbind res_bind].
  change (idx [kind] 0) with (Ok (E:=string) kind). cbn [mbind res_bind].
  rewrite (app_assoc p4), (take_bytes_app (p4 ++ [kind]) key []) by done. cbn [mbind res_bind].
  rewrite app_nil_r, Nat.eqb_refl. cbn [negb fail_if mbind res_bind]. rewrite Hop. cbn [mbind res_bind default].
  exact Hnew.
Qed.
Lemma no_panic_decode_codes bytes : no_panic (decode_codes bytes).
Proof.
  unfold decode_codes. apply no_panic_take_one. intros f c. np_step; [np_step|].
  do 3 (np_step; [apply no_panic_take_text|]; match goal with x : _ * _ |- _ => destruct x end).
  np_step; [apply no_panic_take_bytes|]. match goal with x : _ * _ |- _ => destruct x end.
  apply no_panic_take_one. intros kind c'.
  np_step; [apply no_panic_take_bytes|]. match goal with x : _ * _ |- _ => destruct x end.
  np_step; [np_step|]. np_step; [np|]. apply no_panic_new_codes.
Qed.

(** ** Properties *)

(** What a network makes of an AUTS (TS 33.102, 6.3.5): it takes the concealed number out
    and accepts it when the code is the one of [f1*] with an AMF of zeros. *)
Definition network_resync (aes : list Z → list Z → list Z) (m : Milenage) (rand auts : list Z) : option (list Z) :=
  let s := xor (take 6 auts) (f5_star aes m rand) in
  if bool_decide (drop 6 auts = (f1 aes m s [0; 0] rand).2) then Some s else None.
(** The AUTS carries a number under [f5*] and the code of [f1*] for it. *)
Lemma auts_reads aes m rand s amf : aes_laws aes → milenage_ok m → block16 rand → bytes_of_length 6 s → bytes_of_length 2 amf →
  length (auts aes m rand s amf) = 14%nat ∧ xor (take 6 (auts aes m rand s amf)) (f5_star aes m rand) = s ∧
  drop 6 (auts aes m rand s amf) = (f1 aes m s amf rand).2.
Proof.
  intros Haes Hm Hr Hs Hamf. unfold auts.
  destruct (f1_shape aes Haes m s amf rand Hm Hr Hs Hamf) as [_ [Hl2 _]].
  destruct (f5_star_shape aes Haes m rand Hm Hr) as [Hl5 _]. destruct Hs as [Hs _].
  destruct (f1 aes m s amf rand) as [mac_a mac_s]. cbn [snd] in *.
  assert (length (xor s (f5_star aes m rand)) = 6%nat) as Hx by (rewrite length_xor; lia).
  rewrite length_app, Hx, Hl2. split; [done|].
  rewrite take_app_le, take_ge, drop_app_ge, Hx, Nat.sub_diag, drop_0 by lia.
  split; [apply xor_involutive; lia|done].
Qed.

(** C33: Keys come from the network or not at all.  A challenge the network built with the
    same keys for a number above the card's is answered with the RES, CK and IK of Milenage
    and moves the card's number to it.  One it built for a number that is not above it is
    answered without keys and with an AUTS, from which the network's [f5*] recovers the
    card's next number and which a network that used an AMF of zeros accepts.  Sixteen
    bytes the network did not build (a wrong code) never give keys nor move the number, and
    a challenge of another length is refused. *)
Theorem virtual_sim_answers aes sim rand autn : aes_laws aes → sim_ok sim → block16 rand → block16 autn →
  let m := milenage aes (codes sim) in
  (∀ s amf, challenge aes sim rand autn s amf → sqn sim < of_be_bytes s →
    ∃ res ck ik ak, f2345 aes m rand = (res, ck, ik, ak) ∧
      authenticate aes sim rand autn = (Ok (mkAka res ck ik None), of_be_bytes s)) ∧
  (∀ s amf, challenge aes sim rand autn s amf → of_be_bytes s ≤ sqn sim →
    let next := be_bytes 6 (sqn_next (sqn sim)) in
    ∃ a, authenticate aes sim rand autn = (Ok (mkAka [] [] [] (Some a)), sqn sim) ∧ length a = 14%nat ∧
      xor (take 6 a) (f5_star aes m rand) = next ∧ (amf = [0; 0] → network_resync aes m rand a = Some next)) ∧
  ((∀ s amf, ¬ challenge aes sim rand autn s amf) →
    no_panic (authenticate aes sim rand autn).1 ∧ (authenticate aes sim rand autn).2 = sqn sim ∧
    ∀ out, (authenticate aes sim rand autn).1 = Ok out → out_res out = [] ∧ out_ck out = [] ∧ out_ik out = []) ∧
  (∀ rand' autn', length rand' ≠ 16%nat ∨ length autn' ≠ 16%nat →
    ∃ e, authenticate aes sim rand' autn' = (Err e, sqn sim)).
Proof.
  intros Haes Hs Hr Ha m. pose proof (authenticate_cases aes Haes sim rand autn Hs Hr Ha) as Hcases. fold m in Hcases.
  split; [|split; [|split]].
  - intros s amf Hc Hlt. destruct Hcases as [(s' & amf' & res & ck & ik & ak & Hc' & _ & Hf & Hau)|[Hold _]];
      [|specialize (Hold s amf Hc); lia].
    assert (s = s') as -> by (by apply (challenge_sqn aes Haes sim sim rand autn s s' amf amf')).
    by exists res, ck, ik, ak.
  - intros s amf Hc Hle next. destruct Hcases as [(s' & amf' & res & ck & ik & ak & Hc' & Hlt & _)|[_ Hau]].
    { assert (s = s') as <- by (by apply (challenge_sqn aes Haes sim sim rand autn s s' amf amf')). lia. }
    rewrite Hau. unfold resync. pose proof Hs as (Hk & Ho & Hq).
    assert (milenage_ok m) as Hm by (by apply milenage_codes_ok).
    rewrite sqn_to_bytes_be by (by apply sqn_next_range). fold next.
    assert (bytes_of_length 6 next) as Hn by (split; [apply length_be_bytes|apply bytes_ok_be_bytes]).
    assert (take 2 (drop 6 autn) = amf) as ->.
    { destruct Hc as ((Hls & _) & (Hla & _) & ->). unfold network_autn. fold m.
      destruct (f2345 aes m rand) as [[[res ck] ik] ak] eqn:Ef.
      destruct (f2345_shape aes Haes m rand res ck ik ak Hm Hr Ef) as (_ & _ & _ & [Hlak _]).
      assert (length (xor s ak) = 6%nat) as Hx by (rewrite length_xor; lia).
      rewrite drop_app_ge, Hx, Nat.sub_diag, drop_0 by lia. by rewrite take_app_le, take_ge by lia. }
    destruct (auts_reads aes m rand next amf Haes Hm Hr Hn (proj1 (proj2 Hc))) as (Hl & Hx & Hd).
    eexists. split; [reflexivity|]. split; [exact Hl|]. split; [exact Hx|]. intros ->.
    unfold network_resync. by rewrite Hx, bool_decide_eq_true_2.
  - intros Hno. destruct Hcases as [(s & amf & res & ck & ik & ak & Hc & _)|[_ Hau]]; [by destruct (Hno s amf)|].
    rewrite Hau. split; [done|]. split; [done|]. by intros out [= <-].
  - intros rand' autn' Hl. unfold authenticate. destruct (Nat.eqb_spec (length rand') 16), (Nat.eqb_spec (length autn') 16);
      cbn [negb]; try (by eexists). lia.
Qed.

(** The object of an acceptance belongs to the subscription with these codes. *)
Definition of_subscription (w : World) (c : FiveCodes) (a : Acceptance) : Prop :=
  ∃ sim, heap w !! by_profile a = Some sim ∧ codes sim = c.
(** The subscription was created once: the heap keeps every object there ever was. *)
Definition created_once (w : World) (c : FiveCodes) : Prop :=
  ∀ i j si sj, heap w !! i = Some si → heap w !! j = Some sj → codes si = c → codes sj = c → i = j.

(** C16: In every run of operations, by any callers and in any order, on subscriptions that
    are created, installed on lines, removed and asked, the challenges one card object
    accepts come with strictly increasing numbers and are all different; so does what a
    subscription accepts, on whatever lines, as long as it was created only once in the run;
    and no run loses or changes the codes of an object or lets its number go back.  (A
    subscription that is created again is another object, which starts from zero.) *)
Theorem sqn_never_reused aes ops w : aes_laws aes → Forall op_ok ops → world_ok w →
  let '(w', accepted) := run aes ops w in
  world_ok w' ∧ older w w' ∧ StronglySorted newer accepted ∧
  ∀ c earlier a between b later, created_once w' c →
    accepted = earlier ++ a :: between ++ b :: later → of_subscription w' c a → of_subscription w' c b →
    the_sqn a < the_sqn b ∧ (the_rand a, the_autn a) ≠ (the_rand b, the_autn b).
Proof.
  intros Haes Hops Hw. pose proof (run_spec aes Haes ops w Hops Hw) as H.
  destruct (run aes ops w) as [w' accepted]. cbn [fst snd] in H. destruct H as (H1 & H2 & H3 & _). split_and!; try done.
  intros c earlier a between b later Honce -> (sa & Ha & Ca) (sb & Hb & Cb).
  rewrite cons_middle, app_assoc in H3.
  assert (newer a b) as Hnew; [|apply Hnew; by apply (Honce _ _ sa sb)].
  eapply StronglySorted_app_1_elem_of; [exact H3| |]; apply elem_of_app; right; by left.
Qed.

(** Creating a subscription again, as [install_all] does after a restart and the handler
    that stores a profile does for the same codes, forgets the number: the new object
    accepts every challenge an object of the same codes has accepted before. *)
Lemma recreated_accepts_again aes w w0 pid c a : aes_laws aes → world_ok w → accepted_in aes w0 a →
  of_subscription w0 c a → block16 (ki c) → block16 (raw_op c) →
  let '(id, w1) := allocate pid c w in
  (exec aes (OpAuth id (the_rand a) (the_autn a)) w1).2 = Some (mkAcceptance id (the_rand a) (the_autn a) (the_sqn a)).
Proof.
  intros Haes Hw (Hr & Ha & sim & s & amf & Hsim & Hok & Hlt & Hc & Hsqn) (sim' & Hsim' & Hcodes) Hk Ho.
  rewrite Hsim in Hsim'. injection Hsim' as <-. cbn [allocate].
  assert (sim_ok (new_sim pid c)) as Hnew by (split_and!; try done; cbn; lia).
  cbn [exec]. unfold authenticate_at. cbn [heap]. rewrite list_lookup_middle by done.
  assert (challenge aes (new_sim pid c) (the_rand a) (the_autn a) s amf) as Hc' by (unfold challenge in *; by rewrite <-Hcodes).
  assert (0 < of_be_bytes s) as Hpos by (destruct Hok as (_ & _ & ?); lia).
  destruct (authenticate_cases aes Haes (new_sim pid c) (the_rand a) (the_autn a) Hnew Hr Ha)
    as [(s' & amf' & res & ck & ik & ak & Hc'' & _ & _ & ->)|[Hold _]].
  - assert (s = s') as <- by (by apply (challenge_sqn aes Haes (new_sim pid c) (new_sim pid c) (the_rand a) (the_autn a) s s' amf amf')).
    cbn [out_auts heap]. rewrite list_lookup_insert_eq by (rewrite length_app; cbn; lia). cbn [snd sqn]. by rewrite Hsqn.
  - specialize (Hold s amf Hc'). cbn [new_sim sqn] in Hold. unfold sqn_default in Hold. lia.
Qed.

(** A stored subscription is the subscription: whatever [new] accepts, with keys
    of sixteen bytes, is read back from its record unchanged, and the reader ends
    without a panic on every string of bytes. *)
Theorem subscription_roundtrip ic im k o ms c :
  new_codes ic im k o ms = Ok c → block16 k → block16 (match o with Opc key | Op key => key end) →
  decode_codes (encode_codes c) = Ok c ∧ ∀ bytes, no_panic (decode_codes bytes).
Proof.
  intros Hc Hk Ho. destruct (new_codes_inv ic im k o ms c Hc Hk Ho) as (Hok & _).
  split; [by apply decode_encode_codes|apply no_panic_decode_codes].
Qed.

(** A restart forgets the number: [install_all] makes a new object from the stored
    record, whose number is zero again, so every earlier challenge is fresh once more. *)
Lemma restart_forgets_sqn line pid c record w : codes_ok c → record line = Ok (Some (encode_codes c)) →
  install_all [(line, pid)] record (0%nat, 0%nat) boot = (Ok (1%nat, 0%nat), w) →
  ∃ id sim, for_line line w = Some id ∧ heap w !! id = Some sim ∧ codes sim = c ∧ sqn sim = 0.
Proof.
  intros Hc Hr. cbn [install_all]. rewrite Hr, decode_encode_codes by done.
  cbn [remove_for_line allocate]. unfold install_for_line, boot. cbn [heap lines_of app length].
  rewrite delete_empty. cbn [lookup list_lookup].
  destruct (bool_decide (line = []) || _)%bool; [done|].
  destruct (decide _) as [Hs|_]; [by rewrite lookup_empty in Hs; destruct Hs|].
  intros [= <-]. exists 0%nat, (new_sim pid c). unfold for_line. cbn [heap lines_of].
  by rewrite lookup_insert_eq.
Qed.

(** ** A concrete card: a block cipher that xors the key *)
#[export] Instance block16_dec x : Decision (block16 x).
Proof. unfold block16. apply _. Defined.
#[export] Instance bytes_of_length_dec n x : Decision (bytes_of_length n x).
Proof. unfold bytes_of_length. apply _. Defined.
Lemma xor_aes_laws : aes_laws xor.
Proof. intros k x. apply block16_xor. Qed.
Definition sample_ki : list Z := seqZ 1 16.
Definition sample_op : list Z := seqZ 101 16.
Definition sample_codes : FiveCodes :=
  mkCodes (lit "8944000000000000001") (lit "001010123456789") sample_ki (Op sample_op) (Some (lit "8613800138000")).
Definition sample_sim : VirtualSim := new_sim (lit "profile-a") sample_codes.
Definition sample_rand : list Z := seqZ 35 16.
Definition sample_number : list Z := be_bytes 6 7.
Definition sample_amf : list Z := [0xb9; 0xb9].
Definition sample_autn : list Z :=
  network_autn xor (milenage xor sample_codes) sample_rand sample_number sample_amf.

Lemma virtual_sim_answers_witness :
  challenge xor sample_sim sample_rand sample_autn sample_number sample_amf ∧
  ∃ out, authenticate xor sample_sim sample_rand sample_autn = (Ok out, 7) ∧ out_auts out = None.
Proof.
  assert (sim_ok sample_sim) as Hs
    by (split_and!; try (apply (bool_decide_unpack _); vm_compute; exact I); vm_compute; congruence).
  assert (block16 sample_rand) as Hr by (apply (bool_decide_unpack _); vm_compute; exact I).
  assert (block16 sample_autn) as Ha by (apply (bool_decide_unpack _); vm_compute; exact I).
  assert (challenge xor sample_sim sample_rand sample_autn sample_number sample_amf) as Hc.
  { split; [apply (bool_decide_unpack _); vm_compute; exact I|].
    split; [apply (bool_decide_unpack _); vm_compute; exact I|reflexivity]. }
  split; [exact Hc|].
  destruct (proj1 (virtual_sim_answers xor sample_sim sample_rand sample_autn xor_aes_laws Hs Hr Ha)
    sample_number sample_amf Hc eq_refl) as (res & ck & ik & ak & _ & Hau).
  exists (mkAka res ck ik None). split; [exact Hau|reflexivity].
Defined.

Definition sample_ops : list SimOp :=
  [OpNew (lit "profile-a") sample_codes; OpInstall (lit "wwan0") 0; OpAuth 0 sample_rand sample_autn;
   OpRemove (lit "wwan0"); OpAuth 0 sample_rand sample_autn].
Lemma boot_ok : world_ok boot.
Proof. split; [constructor|]. intros line id H. cbn [boot lines_of] in H. by rewrite lookup_empty in H. Qed.
Lemma sqn_never_reused_witness :
  Forall op_ok sample_ops ∧ world_ok boot ∧ length (run xor sample_ops boot).2 = 1%nat ∧
  StronglySorted newer (run xor sample_ops boot).2.
Proof.
  assert (block16 sample_ki ∧ block16 sample_op ∧ block16 sample_rand ∧ block16 sample_autn)
    as (H1 & H2 & H3 & H4) by (split_and!; apply (bool_decide_unpack _); vm_compute; exact I).
  assert (Forall op_ok sample_ops) as Hops.
  { repeat (apply Forall_cons; split); try exact (conj H1 H2); try exact (conj H3 H4); try exact I.
    apply Forall_nil. exact I. }
  split; [exact Hops|]. split; [exact boot_ok|]. split; [vm_compute; reflexivity|].
  pose proof (sqn_never_reused xor sample_ops boot xor_aes_laws Hops boot_ok) as H.
  destruct (run xor sample_ops boot) as [w' accepted]. exact (proj1 (proj2 (proj2 H))).
Defined.

Lemma subscription_roundtrip_witness :
  new_codes (lit "8944 0000 0000 0000 001") (lit "001010123456789") sample_ki (Op sample_op)
    (Some (lit "+8613800138000")) = Ok sample_codes ∧
  decode_codes (encode_codes sample_codes) = Ok sample_codes.
Proof.
  assert (new_codes (lit "8944 0000 0000 0000 001") (lit "001010123456789") sample_ki (Op sample_op)
    (Some (lit "+8613800138000")) = Ok sample_codes) as H by (vm_compute; reflexivity).
  split; [exact H|].
  exact (proj1 (subscription_roundtrip _ _ _ _ _ _ H
    (bool_decide_unpack (block16 sample_ki) I) (bool_decide_unpack (block16 sample_op) I))).
Defined.

(** The replay of [a_replayed_sequence_number_triggers_auts_instead_of_success]. *)
Example replay_is_resynchronised :
  length <$> (match (authenticate xor (mkSim (lit "p") sample_codes 7) sample_rand sample_autn).1 with
              | Ok out => out_auts out | _ => None end) = Some 14%nat.
Proof. vm_compute. reflexivity. Qed.
