(* ===== verification/Net.v ===== *)
(** * Addresses as text

    The parts of [std::net] that the outbound code uses to read addresses:
    [IpAddr::from_str] and [SocketAddr::from_str].  A reader returns the value and
    what it leaves; the entry points demand that nothing is left.  The readers of
    numbers and separators are those of [RetryAfter]. *)
From Stdlib Require Import Ascii String ZArith Lia.
From stdpp Require Import prelude.
From S2P Require Import Prelude Text RetryAfter Stun.

(** [read_ipv4_addr]: four decimal octets. *)
Fixpoint read_octets (i n : nat) (s : list Z) : option (list Z * list Z) :=
  match n with
  | 0 => Some ([], s)
  | S n =>
    s ← read_separator (ch ".") i s;
    '(octet, s) ← read_number 10 3 false 255 s;
    '(octets, s) ← read_octets (S i) n s;
    Some (octet :: octets, s)
  end.
Definition read_ipv4 (s : list Z) : option (list Z * list Z) := read_octets 0 4 s.

(** [read_groups]: the groups read, whether they end in an IPv4 address, the rest. *)
Fixpoint read_group_values (left_ i : nat) (s : list Z) : list Z * bool * list Z :=
  match left_ with
  | 0 => ([], false, s)
  | S left' =>
    match (if 0 <? left' then s1 ← read_separator (ch ":") i s; read_ipv4 s1 else None) with
    | Some ([o1; o2; o3; o4], rest) => ([be16 o1 o2; be16 o3 o4], true, rest)
    | _ =>
      match (s1 ← read_separator (ch ":") i s; read_number 16 4 true 65535 s1) with
      | Some (group, rest) =>
        let '(groups, ipv4, rest) := read_group_values left' (S i) rest in (group :: groups, ipv4, rest)
      | None => ([], false, s)
      end
    end
  end.
Definition read_ipv6 (s : list Z) : option (list Z * list Z) :=
  let '(head, head_ipv4, rest) := read_group_values 8 0 s in
  if length head =? 8 then Some (head, rest)
  else if head_ipv4 then None
  else
    rest ← read_char (ch ":") rest;
    rest ← read_char (ch ":") rest;
    let '(tail, _, rest) := read_group_values (8 - (length head + 1)) 0 rest in
    Some (head ++ replicate (8 - length head - length tail) 0%Z ++ tail, rest).

Definition ip_of_groups (groups : list Z) : IpAddr := V6 (groups ≫= to_be16).
Definition read_ip (s : list Z) : option (IpAddr * list Z) :=
  match read_ipv4 s with
  | Some (octets, rest) => Some (V4 octets, rest)
  | None => '(groups, rest) ← read_ipv6 s; Some (ip_of_groups groups, rest)
  end.
(** [s.parse::<IpAddr>()] *)
Definition parse_ip_addr (s : str) : option IpAddr :=
  '(ip, rest) ← read_ip (utf8_encode s); if bool_decide (rest = []) then Some ip else None.

Definition read_port (s : list Z) : option (Z * list Z) :=
  s ← read_char (ch ":") s; read_number 10 (length s) true 65535 s.
Definition read_scope_id (s : list Z) : list Z :=
  match (s ← read_char (ch "%") s; read_number 10 (length s) true 4294967295 s) with
  | Some (_, rest) => rest
  | None => s
  end.
Definition read_socket (s : list Z) : option (SocketAddr * list Z) :=
  match ('(octets, s) ← read_ipv4 s; '(port, s) ← read_port s; Some (mkSocket (V4 octets) port, s)) with
  | Some r => Some r
  | None =>
    s ← read_char (ch "[") s;
    '(groups, s) ← read_ipv6 s;
    s ← read_char (ch "]") (read_scope_id s);
    '(port, s) ← read_port s;
    Some (mkSocket (ip_of_groups groups) port, s)
  end.
(** [s.parse::<SocketAddr>()] *)
Definition parse_socket_addr (s : str) : option SocketAddr :=
  '(addr, rest) ← read_socket (utf8_encode s); if bool_decide (rest = []) then Some addr else None.

(** Samples. *)
Example parse_v4 : parse_socket_addr (lit "192.0.2.1:5060") = Some (mkSocket (V4 [192; 0; 2; 1]%Z) 5060).
Proof. reflexivity. Qed.
Example parse_v4_zero : parse_ip_addr (lit "192.0.02.1") = None.
Proof. reflexivity. Qed.
Example parse_v6 : parse_socket_addr (lit "[2001:db8::1%3]:5060") =
  Some (mkSocket (V6 [32; 1; 13; 184; 0; 0; 0; 0; 0; 0; 0; 0; 0; 0; 0; 1]%Z) 5060).
Proof. reflexivity. Qed.
Example parse_mapped : parse_ip_addr (lit "::ffff:192.0.2.1") =
  Some (V6 [0; 0; 0; 0; 0; 0; 0; 0; 0; 0; 255; 255; 192; 0; 2; 1]%Z).
Proof. reflexivity. Qed.
