(* ===== verification/SipMessage.v ===== *)
(** * SIP requests and registration facts

    Models [connectivity/core/sip_message.rs], [connectivity/core/context.rs] and
    [connectivity/core/registration.rs], with [sip_host] and the display of
    addresses of [std::net]: the frame of a request, and the lease and identities
    of a registration that services share. *)
From Stdlib Require Import Ascii String ZArith Lia.
From stdpp Require Import prelude.
From S2P Require Import Prelude Text SipFrame RetryAfter Register Stun RegisterResponse Net.

(** ** Addresses as text *)
Definition fmt_v4 (octets : list Z) : str := join (lit ".") (fmt_dec <$> octets).
(** The groups of sixteen octets. *)
Fixpoint groups_of (octets : list Z) : list Z :=
  match octets with hi :: lo :: octets => be16 hi lo :: groups_of octets | _ => [] end.
(** The first longest run of zero groups: (start, length). *)
Fixpoint zero_run (index : nat) (current longest : nat * nat) (groups : list Z) : nat * nat :=
  match groups with
  | [] => longest
  | g :: groups =>
    if (g =? 0)%Z then
      let start := if current.2 =? 0 then index else current.1 in
      let current := (start, S current.2) in
      zero_run (S index) current (if longest.2 <? current.2 then current else longest) groups
    else zero_run (S index) (0, 0) longest groups
  end.
Definition fmt_groups (groups : list Z) : str := join (lit ":") (fmt_hex <$> groups).
(** [Display for Ipv6Addr] *)
Definition fmt_v6 (octets : list Z) : str :=
  let groups := groups_of octets in
  if bool_decide (take 12 octets = replicate 10 0%Z ++ [255; 255]%Z) then lit "::ffff:" ++ fmt_v4 (drop 12 octets)
  else
    let '(start, len) := zero_run 0 (0, 0) (0, 0) groups in
    if 1 <? len then fmt_groups (take start groups) ++ lit "::" ++ fmt_groups (drop (start + len) groups)
    else fmt_groups groups.
Definition sip_host (ip : IpAddr) : str :=
  match ip with V4 octets => fmt_v4 octets | V6 octets => lit "[" ++ fmt_v6 octets ++ lit "]" end.

(** ** The context of a request *)
Inductive SipTransport := Udp | Tcp | Tls.
#[export] Instance SipTransport_eq_dec : EqDecision SipTransport.
Proof. solve_decision. Defined.
Definition as_via (t : SipTransport) : str :=
  match t with Udp => lit "SIP/2.0/UDP" | Tcp => lit "SIP/2.0/TCP" | Tls => lit "SIP/2.0/TLS" end.
Definition as_param (t : SipTransport) : str :=
  match t with Udp => lit "udp" | Tcp => lit "tcp" | Tls => lit "tls" end.
Record ImsRoute := mkRoute { local_addr : SocketAddr; pcscf_addr : SocketAddr; transport : SipTransport }.
Record ImsRegisterParams := mkParams {
  rp_realm : str; rp_domain : str; rp_registrar : option str; rp_supported_header : str;
  rp_require_sec_agree : bool; rp_user_agent : str; rp_pani : option str; rp_visited_network : option str;
  rp_allow_header : str; rp_expires : Z;
}.
Definition params_request_uri (p : ImsRegisterParams) : str :=
  let target := default (rp_domain p) (rp_registrar p) in
  if starts_with target (lit "sip:") || starts_with target (lit "sips:") then target else lit "sip:" ++ target.

(** ** The frame of a request *)
Record SipHeader := mkHeader { h_name : str; h_value : str }.
#[export] Instance SipHeader_eq_dec : EqDecision SipHeader.
Proof. solve_decision. Defined.
Record SipRequest := mkRequest {
  rq_method : str; rq_request_uri : str; rq_route : ImsRoute; rq_branch : str; rq_from_uri : str;
  rq_from_tag : str; rq_to_value : str; rq_call_id : str; rq_cseq : Z; rq_headers : list SipHeader;
  rq_body : list Z;
}.
Definition header_text_of (h : SipHeader) : str := h_name h ++ lit ": " ++ h_value h.
(** The lines, without their line ends. *)
Definition request_lines (r : SipRequest) : list str :=
  [rq_method r ++ lit " " ++ rq_request_uri r ++ lit " SIP/2.0";
   lit "Via: " ++ as_via (transport (rq_route r)) ++ lit " " ++ sip_host (addr_ip (local_addr (rq_route r)))
     ++ lit ":" ++ fmt_dec (addr_port (local_addr (rq_route r))) ++ lit ";branch=" ++ rq_branch r ++ lit ";rport";
   lit "Max-Forwards: 70";
   lit "From: <" ++ rq_from_uri r ++ lit ">;tag=" ++ rq_from_tag r;
   lit "To: " ++ rq_to_value r;
   lit "Call-ID: " ++ rq_call_id r;
   lit "CSeq: " ++ fmt_dec (rq_cseq r) ++ lit " " ++ rq_method r]
  ++ (header_text_of <$> rq_headers r)
  ++ [lit "Content-Length: " ++ fmt_dec (Z.of_nat (length (rq_body r)))].
Definition build_request (r : SipRequest) : list Z :=
  utf8_encode ((request_lines r ≫= λ l, l ++ crlf) ++ crlf) ++ rq_body r.

(** ** The registration *)
Inductive ImsRegistrationAccess := CellularIms | Vowifi.
Definition secs (n : Z) : Z := (n * 1000000000)%Z.
Record RegistrationLease := mkRegLease { lease_expires_seconds : Z; refresh_after : Z; expires_after : Z }.
Definition from_expires (expires_seconds : Z) : RegistrationLease :=
  let expires_seconds := Z.max expires_seconds 1 in
  let refresh_seconds := Z.max (if (1200 <? expires_seconds)%Z then sat_sub expires_seconds 600
                                else expires_seconds / 2)%Z 1 in
  mkRegLease expires_seconds (secs refresh_seconds) (secs expires_seconds).
Definition lease_from_artifacts (a : RegisterArtifacts) (default_expires_seconds : Z) : RegistrationLease :=
  from_expires (default default_expires_seconds (expires_seconds a)).
Record RegisteredImsContext := mkContext {
  cx_access : ImsRegistrationAccess;
  registered_at : Z;
  cx_lease : RegistrationLease;
  cx_service_route : option str;
  cx_associated_uris : list str;
}.
(** [now] is [SystemTime::now()]. *)
Definition context_from_artifacts (now : Z) (access : ImsRegistrationAccess) (a : RegisterArtifacts)
    (default_expires_seconds : Z) : RegisteredImsContext :=
  mkContext access now (lease_from_artifacts a default_expires_seconds) (service_route a) (associated_uris a).
Definition context_from_response (now : Z) (access : ImsRegistrationAccess) (response : list Z)
    (default_expires_seconds : Z) : RegisteredImsContext :=
  context_from_artifacts now access (artifacts_parse response) default_expires_seconds.
Definition with_received_at (received_at : Z) (c : RegisteredImsContext) : RegisteredImsContext :=
  mkContext (cx_access c) received_at (cx_lease c) (cx_service_route c) (cx_associated_uris c).
(** [elapsed] fails when the wall clock went back; [Duration::MAX] then. *)
Definition duration_max : Z := u64_max * 1000000000 + 999999999.
Definition elapsed (now at_ : Z) : option Z := if (at_ <=? now)%Z then Some (now - at_)%Z else None.
Definition remaining_lifetime (now : Z) (c : RegisteredImsContext) : Z :=
  sat_sub (expires_after (cx_lease c)) (default duration_max (elapsed now (registered_at c))).
Definition context_associated_uri (c : RegisteredImsContext) : option str := head (cx_associated_uris c).

Inductive RegistrationLossReason :=
  LossExpired | LossAuthenticationRejected | LossNetworkRejected | LossSignalingTransportLost | LossAccessTransportLost.
Definition loss_as_str (r : RegistrationLossReason) : str :=
  match r with
  | LossExpired => lit "expired"
  | LossAuthenticationRejected => lit "authentication_rejected"
  | LossNetworkRejected => lit "network_rejected"
  | LossSignalingTransportLost => lit "signaling_transport_lost"
  | LossAccessTransportLost => lit "access_transport_lost"
  end.
Definition from_register_failure (f : RegisterFailure) : RegistrationLossReason :=
  if str_eqb (fail_error f) (lit "ims_register_auth_rejected")
     || bool_decide (failure_kind f = AuthenticationRejected)
  then LossAuthenticationRejected
  else match (response ← fail_response f; res_ok (parse_status response)) with
  | Some status => if one_of [401; 403; 407]%Z status then LossAuthenticationRejected else LossNetworkRejected
  | None => LossSignalingTransportLost
  end.
Inductive RegistrationRefreshResult :=
| Refreshed (c : RegisteredImsContext) | Retry | RebuildAccess (r : RegistrationLossReason).

(** * Lemmas *)

(** ** Plain text *)
Definition plain_char (c : Z) : Prop := is_ascii c ∧ c ≠ CR ∧ c ≠ LF.
Definition plain (s : str) : Prop := Forall plain_char s.
#[export] Instance plain_dec s : Decision (plain s).
Proof. unfold plain. apply _. Defined.
Lemma plain_app s t : plain s → plain t → plain (s ++ t).
Proof. intros. by apply Forall_app. Qed.
Lemma plain_lit_ok s : bool_decide (plain s) = true → plain s.
Proof. apply bool_decide_eq_true. Qed.
Definition octets_ok (ip : IpAddr) : Prop := match ip with V4 os | V6 os => Forall (λ o, (0 ≤ o)%Z) os end.
(** The characters of an address: lower-case hexadecimal digits, colons and dots. *)
Definition address_char (c : Z) : Prop :=
  in_range (ch "0") (ch "9") c || in_range (ch "a") (ch "f") c || (c =? ch ":")%Z || (c =? ch ".")%Z = true.
#[export] Instance address_char_dec c : Decision (address_char c).
Proof. unfold address_char. apply _. Defined.
Lemma address_app s t : Forall address_char s → Forall address_char t → Forall address_char (s ++ t).
Proof. intros. by apply Forall_app. Qed.
Lemma address_join sep ls : Forall address_char sep → Forall (Forall address_char) ls → Forall address_char (join sep ls).
Proof.
  intros Hs. induction 1 as [|l ls Hl Hls IH]; [constructor|]. destruct ls; [done|]. rewrite join_cons by done.
  by repeat apply address_app.
Qed.
Lemma address_digits b n : (2 ≤ b ≤ 16)%Z → (0 ≤ n)%Z → Forall address_char (digit_char <$> digits b n).
Proof.
  intros Hb Hn. apply Forall_fmap. eapply Forall_impl; [by apply digits_lt16|]. intros d Hd. simpl in Hd.
  unfold address_char, digit_char, in_range. change (ch "0") with 48%Z. change (ch "9") with 57%Z. change (ch "a") with 97%Z.
  change (ch "f") with 102%Z. simpl. case_match; bool_prop; lia.
Qed.
Lemma address_v4 os : Forall (λ o, (0 ≤ o)%Z) os → Forall address_char (fmt_v4 os).
Proof.
  intros Hos. apply address_join; [by apply (bool_decide_unpack _)|]. apply Forall_fmap.
  eapply Forall_impl; [exact Hos|]. intros. by apply address_digits.
Qed.
Lemma groups_of_ok os : Forall (λ o, (0 ≤ o)%Z) os → Forall (λ g, (0 ≤ g)%Z) (groups_of os).
Proof.
  intros Hos. remember (length os) as n eqn:Hn. revert os Hn Hos.
  induction n as [n IH] using lt_wf_ind. intros [|a [|b os]] -> Hos; [constructor..|].
  cbn [groups_of]. apply Forall_cons in Hos as [Ha [Hb Hos]%Forall_cons]. constructor; [unfold be16; lia|].
  eapply IH; [|done|done]. simpl. lia.
Qed.
Lemma address_groups gs : Forall (λ g, (0 ≤ g)%Z) gs → Forall address_char (fmt_groups gs).
Proof.
  intros Hgs. apply address_join; [by apply (bool_decide_unpack _)|]. apply Forall_fmap.
  eapply Forall_impl; [exact Hgs|]. intros. by apply address_digits.
Qed.
Lemma address_v6 os : Forall (λ o, (0 ≤ o)%Z) os → Forall address_char (fmt_v6 os).
Proof.
  intros Hos. unfold fmt_v6. case_bool_decide.
  { apply address_app; [by apply (bool_decide_unpack _)|]. by apply address_v4, Forall_drop. }
  pose proof (groups_of_ok _ Hos). destruct (zero_run _ _ _ _) as [start len]. destruct (1 <? len); [|by apply address_groups].
  repeat apply address_app; [by apply address_groups, Forall_take|by apply (bool_decide_unpack _)|by apply address_groups, Forall_drop].
Qed.
Lemma address_plain s : Forall address_char s → plain s.
Proof.
  intros H. eapply Forall_impl; [exact H|]. unfold address_char, plain_char, is_ascii, in_range, CR, LF. intros c.
  change (ch "0") with 48%Z. change (ch "9") with 57%Z. change (ch "a") with 97%Z. change (ch "f") with 102%Z.
  change (ch ":") with 58%Z. change (ch ".") with 46%Z. simpl. lia.
Qed.
Lemma plain_dec_text n : (0 ≤ n)%Z → plain (fmt_dec n).
Proof. intros. by apply address_plain, address_digits. Qed.
Lemma plain_host ip : octets_ok ip → plain (sip_host ip).
Proof.
  destruct ip; intros H; [by apply address_plain, address_v4|]. cbn [sip_host].
  repeat apply plain_app; [by apply plain_lit_ok|by apply address_plain, address_v6|by apply plain_lit_ok].
Qed.

(** ** Requests that can be framed *)
Definition no_space (s : str) : Prop := Forall (λ c, is_whitespace c = false) s.
Record header_ok (h : SipHeader) : Prop := {
  ho_name : h_name h ≠ [];
  ho_name_plain : plain (h_name h);
  ho_name_char : Forall (λ c, is_whitespace c = false ∧ c ≠ ch ":") (h_name h);
  ho_value : plain (h_value h);
  ho_length : eq_ignore_ascii_case (h_name h) (lit "content-length") = false;
}.
(** What the callers pass: a method, a URI and identifiers without line breaks. *)
Record request_ok (r : SipRequest) : Prop := {
  ro_method : rq_method r ≠ [] ∧ plain (rq_method r) ∧ no_space (rq_method r) ∧ ch ":" ∉ rq_method r;
  ro_uri : plain (rq_request_uri r) ∧ no_space (rq_request_uri r) ∧ head_not (Z.eqb (ch ":")) (rq_request_uri r) ∧ rq_request_uri r ≠ [];
  ro_addr : octets_ok (addr_ip (local_addr (rq_route r))) ∧ (0 ≤ addr_port (local_addr (rq_route r)))%Z;
  ro_branch : plain (rq_branch r);
  ro_from : plain (rq_from_uri r) ∧ plain (rq_from_tag r);
  ro_to : plain (rq_to_value r);
  ro_call_id : plain (rq_call_id r);
  ro_cseq : (0 ≤ rq_cseq r ≤ u32_max)%Z;
  ro_headers : Forall header_ok (rq_headers r);
}.
Lemma line_of_plain s : s ≠ [] → plain s → line_ok s.
Proof. by split. Qed.
Lemma request_lines_ok r : request_ok r → Forall line_ok (request_lines r).
Proof.
  intros [(Hm0 & Hm & _ & _) (Hu & _) (Ho & Hp) Hb (Hf & Ht) Hto Hc Hcs Hh]. unfold request_lines.
  rewrite !Forall_app, Forall_fmap, !Forall_cons, !Forall_nil. split_and!; try done.
  - apply line_of_plain; [by destruct (rq_method r)|]. repeat apply plain_app; try done; by apply plain_lit_ok.
  - apply line_of_plain; [done|].
    repeat apply plain_app; try done; try (by apply plain_lit_ok); [by destruct (transport _); apply plain_lit_ok|by apply plain_host|by apply plain_dec_text].
  - by apply (bool_decide_unpack _).
  - apply line_of_plain; [done|]. repeat apply plain_app; try done; by apply plain_lit_ok.
  - apply line_of_plain; [done|]. repeat apply plain_app; try done; by apply plain_lit_ok.
  - apply line_of_plain; [done|]. repeat apply plain_app; try done; by apply plain_lit_ok.
  - apply line_of_plain; [done|]. repeat apply plain_app; try done; try (by apply plain_lit_ok). apply plain_dec_text. lia.
  - eapply Forall_impl; [exact Hh|]. intros h []. apply line_of_plain; [unfold compose, header_text_of; by destruct (h_name h)|].
    repeat apply plain_app; try done. by apply plain_lit_ok.
  - apply line_of_plain; [done|]. apply plain_app; [by apply plain_lit_ok|]. apply plain_dec_text. lia.
Qed.
Lemma build_request_message r : request_ok r → build_request r = message (request_lines r) (rq_body r).
Proof.
  intros Hr%request_lines_ok. unfold build_request, message. rewrite utf8_encode_ascii; [by rewrite <-app_assoc|].
  apply Forall_app. split; [by apply render_ascii|]. by apply (bool_decide_unpack _).
Qed.

(** ** Header fields of a request *)
Definition no_colon (s : str) : Prop := Forall (λ d, (ch ":" =? d)%Z = false) s.
Lemma split_field name v : no_colon name → split_once (ch ":") (name ++ lit ": " ++ v) = Some (name, ch " " :: v).
Proof. intros H. change (lit ": " ++ v) with (ch ":" :: ch " " :: v). by apply split_once_app. Qed.
Lemma lowercase_space c : to_ascii_lowercase c = ch " " → c = ch " ".
Proof.
  unfold to_ascii_lowercase. change (ch " ") with 32%Z. destruct (in_range _ _ _) eqn:E; [|done].
  apply in_range_true in E. change (ch "A") with 65%Z in E. change (ch "Z") with 90%Z in E. lia.
Qed.
Lemma spaced_name a n : ch " " ∈ a → ch " " ∉ n → eq_ignore_ascii_case a n = false.
Proof.
  intros Ha Hn. apply not_true_iff_false. intros Heq%eq_ignore_ascii_case_eq. apply Hn.
  assert (ch " " ∈ to_ascii_lowercase <$> n) as (c & Hc & Hin)%list_elem_of_fmap.
  { rewrite <-Heq. apply list_elem_of_fmap. by exists (ch " "). }
  by rewrite <-(lowercase_space c).
Qed.
(** The name that the start line would give: it has a space inside. *)
Lemma start_line_name r a b : request_ok r →
  split_once (ch ":") (rq_method r ++ lit " " ++ rq_request_uri r ++ lit " SIP/2.0") = Some (a, b) →
  ch " " ∈ a ∧ trim a = a.
Proof.
  intros [(Hm0 & _ & Hm & Hmc) (_ & Hu & Hu0 & Hune) _ _ _ _ _ _ _] [Heq Hna]%split_once_inv.
  apply app_eq_inv in Heq as [(k & Hk & Heq)|(k & -> & Heq)].
  { exfalso. apply Hmc. rewrite Hk. destruct k as [|c k]; [by injection Heq|]. injection Heq as <- _. apply elem_of_app. right. left. }
  destruct k as [|c p]; [done|]. injection Heq as <- Heq. split; [apply elem_of_app; right; left|].
  assert (p ≠ [] ∧ no_space p) as [Hp0 Hp].
  { apply app_eq_inv in Heq as [(k & Hk & Heq)|(k & -> & Heq)].
    - rewrite Hk in Hu, Hu0. split; [|by apply Forall_app in Hu as [? _]].
      intros ->. destruct k as [|c k]; [by rewrite Hk in Hune|]. injection Heq as <- _. discriminate Hu0.
    - exfalso. assert (ch ":" ∈ lit " SIP/2.0") as Hin by (rewrite Heq; apply elem_of_app; right; left).
      revert Hin. apply (bool_decide_unpack _). vm_compute. exact I. }
  apply trim_id.
  - destruct (rq_method r); [done|]. simpl. by apply Forall_cons in Hm as [? _].
  - apply head_not_reverse_app; [done|]. change (ch " " :: p) with ([ch " "] ++ p). apply head_not_reverse_app; [done|].
    by apply head_not_reverse.
Qed.
Lemma trim_dec n : (0 ≤ n)%Z → trim (fmt_dec n) = fmt_dec n.
Proof. intros Hn. destruct (fmt_dec_ends is_whitespace n Hn digit_not_space). by apply trim_id. Qed.
(** The fields of a request, in order. *)
Definition request_fields (r : SipRequest) : list SipHeader :=
  [mkHeader (lit "Via")
     (as_via (transport (rq_route r)) ++ lit " " ++ sip_host (addr_ip (local_addr (rq_route r)))
      ++ lit ":" ++ fmt_dec (addr_port (local_addr (rq_route r))) ++ lit ";branch=" ++ rq_branch r ++ lit ";rport");
   mkHeader (lit "Max-Forwards") (lit "70");
   mkHeader (lit "From") (lit "<" ++ rq_from_uri r ++ lit ">;tag=" ++ rq_from_tag r);
   mkHeader (lit "To") (rq_to_value r);
   mkHeader (lit "Call-ID") (rq_call_id r);
   mkHeader (lit "CSeq") (fmt_dec (rq_cseq r) ++ lit " " ++ rq_method r)]
  ++ rq_headers r ++ [mkHeader (lit "Content-Length") (fmt_dec (Z.of_nat (length (rq_body r))))].
Definition start_line (r : SipRequest) : str := rq_method r ++ lit " " ++ rq_request_uri r ++ lit " SIP/2.0".
Lemma request_lines_fields r : request_lines r = start_line r :: (header_text_of <$> request_fields r).
Proof. unfold request_fields. rewrite !fmap_app. reflexivity. Qed.
Definition name_ok (h : SipHeader) : Prop :=
  h_name h ≠ [] ∧ Forall (λ c, is_whitespace c = false ∧ c ≠ ch ":") (h_name h).
#[export] Instance name_ok_dec h : Decision (name_ok h).
Proof. unfold name_ok. apply _. Defined.
Lemma request_fields_ok r : request_ok r → Forall name_ok (request_fields r).
Proof.
  intros Hr. unfold request_fields. rewrite !Forall_app. split_and!.
  - repeat constructor; try done; by apply (bool_decide_unpack _).
  - eapply Forall_impl; [exact (ro_headers _ Hr)|]. by intros h [].
  - repeat constructor; try done; by apply (bool_decide_unpack _).
Qed.
Lemma name_no_colon h : name_ok h → no_colon (h_name h).
Proof. intros [_ H]. eapply Forall_impl; [exact H|]. intros c [_ Hc]. apply Z.eqb_neq. congruence. Qed.
Lemma name_trim h : name_ok h → trim (h_name h) = h_name h.
Proof.
  intros [_ H]. assert (Forall (λ c, is_whitespace c = false) (h_name h)) as Hw by (eapply Forall_impl; [exact H|by intros ? []]).
  apply trim_id; [by apply head_not_Forall|by apply head_not_reverse].
Qed.
Lemma header_field_text n h : name_ok h →
  header_field n (header_text_of h) = if eq_ignore_ascii_case (h_name h) n then Some (trim (h_value h)) else None.
Proof.
  intros Hn. rewrite header_field_split. unfold header_text_of. rewrite split_field by by apply name_no_colon.
  rewrite name_trim by done. by rewrite trim_space.
Qed.
Lemma content_length_text h : name_ok h →
  content_length_of_line (header_text_of h) =
    if eq_ignore_ascii_case (h_name h) (lit "content-length") then parse_unsigned u64_max (trim (h_value h)) else None.
Proof.
  intros Hn. unfold content_length_of_line, header_text_of. rewrite split_field by by apply name_no_colon.
  cbn [mbind option_bind]. by rewrite trim_space.
Qed.
Lemma start_line_length r : request_ok r → content_length_of_line (start_line r) = None.
Proof.
  intros Hr. unfold content_length_of_line. destruct (split_once _ _) as [[a b]|] eqn:Hs; [|done].
  destruct (start_line_name _ _ _ Hr Hs) as [Ha _]. cbn [mbind option_bind].
  rewrite spaced_name; [done|done|]. by apply (bool_decide_unpack _).
Qed.
Lemma start_line_field r n : request_ok r → ch " " ∉ n → header_field n (start_line r) = None.
Proof.
  intros Hr Hn. rewrite header_field_split. destruct (split_once _ _) as [[a b]|] eqn:Hs; [|done].
  destruct (start_line_name _ _ _ Hr Hs) as [Ha ->]. by rewrite spaced_name.
Qed.
Lemma find_map_skip {A B} (f : A → option B) l k : Forall (λ a, f a = None) l → find_map f (l ++ k) = find_map f k.
Proof. induction 1 as [|a l Ha _ IH]; [done|]. simpl. by rewrite Ha. Qed.
Lemma request_announces r : request_ok r → (Z.of_nat (length (build_request r)) < 2 ^ 64)%Z →
  announces (request_lines r) (rq_body r).
Proof.
  intros Hr Hlen. pose proof Hlen as Hlen'. rewrite build_request_message in Hlen' by done.
  split; [by rewrite request_lines_fields|]. split; [by apply request_lines_ok|]. split; [|done].
  assert (Z.of_nat (length (rq_body r)) ≤ u64_max)%Z as Hbody.
  { rewrite length_message in Hlen'. unfold u64_max. lia. }
  rewrite request_lines_fields. cbn [find_map]. rewrite start_line_length by done.
  unfold request_fields. rewrite app_assoc, fmap_app, find_map_skip.
  - cbn [fmap list_fmap find_map]. rewrite content_length_text by by apply (bool_decide_unpack _).
    cbn [h_name h_value]. change (eq_ignore_ascii_case (lit "Content-Length") (lit "content-length")) with true. cbn iota.
    rewrite trim_dec by lia. rewrite parse_unsigned_fmt by lia. done.
  - apply Forall_fmap. pose proof (request_fields_ok r Hr) as Hok. unfold request_fields in Hok.
    rewrite app_assoc in Hok. apply Forall_app in Hok as [Hok _].
    assert (Forall (λ h, eq_ignore_ascii_case (h_name h) (lit "content-length") = false) (take 6 (request_fields r) ++ rq_headers r)) as Hne.
    { apply Forall_app. split; [by repeat constructor|]. eapply Forall_impl; [exact (ro_headers _ Hr)|by intros h []]. }
    eapply Forall_impl; [exact (proj2 (Forall_and _ _) (conj Hok Hne))|].
    intros h [Hh Hneq]. unfold compose. by rewrite content_length_text, Hneq.
Qed.
Lemma fields_of_lines n (fs : list SipHeader) : Forall name_ok fs →
  omap (header_field n) (header_text_of <$> fs) =
    (λ h, trim (h_value h)) <$> filter (λ h, eq_ignore_ascii_case (h_name h) n = true) fs.
Proof.
  induction 1 as [|h fs Hh _ IH]; [done|]. rewrite fmap_cons, filter_cons. cbn [omap list_omap]. rewrite header_field_text by done.
  destruct (eq_ignore_ascii_case (h_name h) n); [rewrite decide_True, fmap_cons by done; f_equal; exact IH|rewrite decide_False by done; exact IH].
Qed.
Lemma text_unfolded h : name_ok h → unfolded (header_text_of h).
Proof.
  intros [Hne H]. unfold header_text_of, unfolded. destruct (h_name h) as [|c name]; [done|].
  apply Forall_cons in H as [[Hw _] _]. simpl. apply orb_false_iff. split; apply Z.eqb_neq; intros ->; discriminate Hw.
Qed.
Lemma request_unfolded r : request_ok r → Forall unfolded (request_lines r).
Proof.
  intros Hr. rewrite request_lines_fields. constructor.
  - destruct (ro_method _ Hr) as (Hne & _ & Hw & _). unfold start_line, unfolded. destruct (rq_method r) as [|c m]; [done|].
    apply Forall_cons in Hw as [Hw _]. simpl. apply orb_false_iff. split; apply Z.eqb_neq; intros ->; discriminate Hw.
  - apply Forall_fmap. eapply Forall_impl; [by apply request_fields_ok|]. apply text_unfolded.
Qed.
Lemma request_values r n : request_ok r → ch " " ∉ n →
  header_values (build_request r) n =
    (λ h, trim (h_value h)) <$> filter (λ h, eq_ignore_ascii_case (h_name h) n = true) (request_fields r).
Proof.
  intros Hr Hn. rewrite build_request_message by done.
  rewrite header_values_message; [|by rewrite request_lines_fields|by apply request_lines_ok|by apply request_unfolded].
  rewrite request_lines_fields. cbn [omap list_omap]. rewrite start_line_field by done.
  apply fields_of_lines. by apply request_fields_ok.
Qed.

(** * Properties *)

(** A request built from parts without line breaks is framed and read back as it
    was written: whatever follows it in the stream, the frame is exactly its bytes and
    its body is the payload, bit for bit; and under any name the values read are those
    of the fields written under that name, in order, with nothing from the start
    line, another field or the payload. *)
Theorem built_request_read_back r n rest :
  request_ok r → (Z.of_nat (length (build_request r)) < 2 ^ 64)%Z → ch " " ∉ n →
  complete_frame_len (build_request r ++ rest) = Some (length (build_request r)) ∧
  body (build_request r) = rq_body r ∧
  header_values (build_request r) n =
    (λ h, trim (h_value h)) <$> filter (λ h, eq_ignore_ascii_case (h_name h) n = true) (request_fields r).
Proof.
  intros Hr Hlen Hn. split; [|split; [|by apply request_values]].
  - rewrite build_request_message by done. apply complete_frame_len_message. by apply request_announces.
  - rewrite build_request_message by done. unfold body. rewrite <-(app_nil_r (message _ _)) at 1.
    rewrite find_header_end_message; [|by rewrite request_lines_fields|by apply request_lines_ok].
    rewrite (proj2 (Nat.leb_le _ _)) by (rewrite length_message; lia).
    unfold message. rewrite app_assoc, drop_app_length'; [done|]. rewrite length_app. simpl. lia.
Qed.

(** The lease of a registration: however small or large the lifetime granted, the
    refresh comes at least one second after the response and never after the expiry;
    a registration longer than twenty minutes is refreshed ten minutes before it
    expires, a shorter one at half its life.  What remains of it never exceeds its
    lifetime, is nothing from its expiry on, and nothing at all when the clock was
    set back behind the registration. *)
Theorem lease_schedule expires_seconds now c :
  (0 ≤ expires_seconds)%Z →
  let lease := from_expires expires_seconds in
  (secs 1 ≤ refresh_after lease ≤ expires_after lease)%Z ∧
  expires_after lease = secs (Z.max expires_seconds 1) ∧
  ((1200 < expires_seconds)%Z → (refresh_after lease = expires_after lease - secs 600)%Z) ∧
  ((1 < expires_seconds ≤ 1200)%Z → refresh_after lease = secs (expires_seconds / 2)) ∧
  (cx_lease c = lease → (registered_at c ≤ now)%Z →
     remaining_lifetime now c = Z.max 0 (registered_at c + expires_after lease - now)) ∧
  (cx_lease c = lease → (now < registered_at c)%Z → (expires_seconds ≤ u32_max)%Z → remaining_lifetime now c = 0%Z).
Proof.
  intros He lease. unfold lease, from_expires, remaining_lifetime, elapsed, sat_sub, duration_max, secs, u64_max, u32_max. cbv zeta.
  cbn [refresh_after expires_after].
  pose proof (Z.div_mod (Z.max expires_seconds 1) 2). pose proof (Z.mod_pos_bound (Z.max expires_seconds 1) 2).
  split_and!.
  - destruct (Z.ltb_spec 1200 (Z.max expires_seconds 1)); lia.
  - destruct (Z.ltb_spec 1200 (Z.max expires_seconds 1)); lia.
  - done.
  - intros. destruct (Z.ltb_spec 1200 (Z.max expires_seconds 1)); lia.
  - intros. destruct (Z.ltb_spec 1200 (Z.max expires_seconds 1)); [lia|].
    rewrite (Z.max_l expires_seconds 1) by lia. rewrite (Z.max_l (expires_seconds / 2) 1); [done|]. apply Z.div_le_lower_bound; lia.
  - intros -> Hle. cbn [expires_after]. rewrite (proj2 (Z.leb_le _ _)) by done. cbn. lia.
  - intros -> Hlt Hmax. cbn [expires_after]. rewrite (proj2 (Z.leb_gt _ _)) by done. cbn. lia.
Qed.

Definition sample_request : SipRequest :=
  mkRequest (lit "REGISTER") (lit "sip:ims.example") (mkRoute (mkSocket (V6 [253; 0; 0; 0; 0; 0; 0; 0; 0; 0; 0; 0; 0; 0; 0; 2]%Z) 5060)
    (mkSocket (V4 [10; 0; 0; 1]%Z) 5060) Udp) (lit "z9hG4bKb") (lit "sip:user@ims.example") (lit "tag")
    (lit "<sip:user@ims.example>") (lit "call@host") 7 [mkHeader (lit "Supported") (lit "path"); mkHeader (lit "supported") (lit "gruu")] [0; 13; 10; 13; 10]%Z.
Lemma sample_request_ok : request_ok sample_request.
Proof.
  split; try (split_and!; apply (bool_decide_unpack _); vm_compute; exact I).
  - split_and!; [by apply (bool_decide_unpack _)| |done|done]. by repeat constructor.
  - by apply (bool_decide_unpack _).
  - by apply (bool_decide_unpack _).
  - by apply (bool_decide_unpack _).
  - repeat constructor; try done; by apply (bool_decide_unpack _).
Qed.
Lemma built_request_read_back_witness :
  request_ok sample_request ∧
  complete_frame_len (build_request sample_request ++ lit "SIP/2.0") = Some (length (build_request sample_request)) ∧
  header_values (build_request sample_request) (lit "Supported") = [lit "path"; lit "gruu"].
Proof.
  split; [exact sample_request_ok|].
  destruct (built_request_read_back sample_request (lit "Supported") (lit "SIP/2.0") sample_request_ok) as (Hlen & _ & Hv).
  - vm_compute. reflexivity.
  - apply (bool_decide_unpack _). vm_compute. exact I.
  - split; [exact Hlen|]. rewrite Hv. vm_compute. reflexivity.
Defined.
Lemma lease_schedule_witness :
  let c := mkContext CellularIms (secs 100) (from_expires 600000) None [] in
  refresh_after (cx_lease c) = secs 599400 ∧ remaining_lifetime (secs 600) c = secs 599500.
Proof.
  intros c. destruct (lease_schedule 600000 (secs 600) c ltac:(lia)) as (_ & _ & Hlong & _ & Hleft & _).
  split; [exact (Hlong ltac:(lia))|]. exact (Hleft eq_refl ltac:(discriminate)).
Defined.
