(* ===== verification/RegEvent.v ===== *)
(** * Registration events: frames and identities

    Models the syntax of [connectivity/core/reg_event.rs] (RFC 3680): the strict
    reader of SIP frames, header values with parameters, addresses, canonical
    URIs, and the binding captured from the final REGISTER.  Every failure is the
    one error [ims_reg_event_invalid].  A string is the list of its characters; a
    length in bytes is [byte_len]. *)
From Stdlib Require Import Ascii String ZArith Lia.
From stdpp Require Import prelude.
From S2P Require Import Prelude Text SipFrame RetryAfter.
Local Open Scope Z_scope.

Definition MAX_BODY : Z := 65536.
Definition MAX_HEADERS : Z := 16384.

Definition invalid {A} : ims A := Err (lit "ims_reg_event_invalid").
Definition require_ok (c : bool) : ims unit := if c then Ok tt else invalid.
(** [o.ok_or_else(invalid)?] *)
Definition or_invalid {A} (o : option A) : ims A := match o with Some a => Ok a | None => invalid end.

(** ** Characters and numbers *)
Definition safe_header_value (value : str) : bool :=
  negb (bool_decide (value = [])) && (byte_len value <=? 4096)
  && negb (existsb (λ c, (c <? 32) || (c =? 127)) value).
Definition is_token_char (c : Z) : bool := is_ascii_alphanumeric c || existsb (Z.eqb c) (lit "-.!%*_+`'~").
Definition token (value : str) : bool := negb (bool_decide (value = [])) && forallb is_token_char value.
Definition valid_tag (value : str) : ims str :=
  if (256 <? byte_len value) || negb (token value) then invalid else Ok value.
Definition unsigned (value : str) : ims Z :=
  if bool_decide (value = []) || (10 <? byte_len value) || negb (forallb is_ascii_digit value) then invalid
  else or_invalid (parse_unsigned u32_max value).
Definition positive (value : str) : ims Z :=
  value ← unsigned value; if value =? 0 then invalid else Ok value.

(** ** Splitting *)
(** [s.split("\r\n")] *)
Fixpoint split_crlf (s : str) : list str :=
  match s with
  | [] => [[]]
  | c :: s1 =>
    match s1 with
    | d :: s2 =>
      if (c =? CR) && (d =? LF) then [] :: split_crlf s2
      else match split_crlf s1 with p :: ps => (c :: p) :: ps | [] => [[c]] end
    | [] => [[c]]
    end
  end.
(** [s.rsplit_once(c)] *)
Definition rsplit_once (c : Z) (s : str) : option (str * str) :=
  '(after, before) ← split_once c (reverse s); Some (reverse before, reverse after).
(** [s.split_ascii_whitespace()] *)
Definition is_ascii_whitespace (c : Z) : bool := existsb (Z.eqb c) [32; 9; 10; 12; 13].
Definition split_ascii_whitespace (s : str) : list str :=
  filter (λ w, w ≠ []) (split (ch " ") ((λ c, if is_ascii_whitespace c then ch " " else c) <$> s)).
Definition lowercase (s : str) : str := to_ascii_lowercase <$> s.

(** The pieces of [parameters]: quotes kept, no escapes, [None] on an escape or an
    open quote. *)
Fixpoint split_unescaped (quoted : bool) (current value : str) : option (list str) :=
  match value with
  | [] => if quoted then None else Some [current]
  | c :: value =>
    if c =? backslash then None
    else
      let quoted := if c =? quote then negb quoted else quoted in
      if (c =? ch ";") && negb quoted then pieces ← split_unescaped quoted [] value; Some (current :: pieces)
      else split_unescaped quoted (current ++ [c]) value
  end.
Definition parameter (part : str) : str * option str :=
  match split_once (ch "=") (trim part) with
  | Some (n, v) => (trim n, Some (trim v))
  | None => (trim part, None)
  end.
(** The loop over the parts; [params] are lower-cased, so they are the names seen. *)
Definition add_parameter (params : list (str * option str)) (part : str)
    : ims (list (str * option str)) :=
  let '(name, value) := parameter part in
  if negb (token name) || existsb (str_eqb (lowercase name)) params.*1 || bool_decide (value = Some [])
  then invalid else Ok (params ++ [(lowercase name, value)]).
Definition parameters (value : str) : ims (str * list (str * option str)) :=
  require_ok (safe_header_value value);;
  parts ← or_invalid (split_unescaped false [] value);
  match parts with
  | [] => invalid
  | first :: parts =>
    require_ok (length parts <=? 32)%nat;;
    params ← foldM add_parameter [] parts;
    Ok (trim first, params)
  end.

(** ** URIs and addresses *)
Definition option_str (o : option str) (f : str → str) : str := match o with Some s => f s | None => [] end.
Definition uri_forbidden (c : Z) : bool :=
  (c <=? 32) || (127 <=? c) || existsb (Z.eqb c) [ch "<"; ch ">"; quote; backslash; ch ","; ch "?"].
Definition is_host_char (c : Z) : bool := is_ascii_alphanumeric c || (c =? ch ".") || (c =? ch "-").
Definition is_hexdigit (c : Z) : bool := bool_decide (is_Some (hex_value c)).

(** Host and port of [host_port]. *)
Definition host_and_port (host_port : str) : ims (str * option str) :=
  match host_port with
  | c :: _ =>
    if c =? ch "[" then
      end_ ← or_invalid (find_char (Z.eqb (ch "]")) host_port);
      require_ok (is_ipv6_addr (take (end_ - 1) (drop 1 host_port)));;
      let tail := drop (end_ + 1) host_port in
      port ← (if bool_decide (tail = []) then Ok None
              else p ← or_invalid (strip_prefix (lit ":") tail); Ok (Some p));
      Ok (take (end_ + 1) host_port, port)
    else
      let '(host, port) := match split_once (ch ":") host_port with
                           | Some (h, p) => (h, Some p)
                           | None => (host_port, None)
                           end in
      if bool_decide (host = []) || negb (forallb is_host_char host) then invalid else Ok (host, port)
  | [] => invalid
  end.
(** Every [%] starts an escape. *)
Fixpoint escapes_ok (bytes : list Z) : bool :=
  match bytes with
  | [] => true
  | c :: rest =>
    (if c =? ch "%" then match rest with a :: b :: _ => is_hexdigit a && is_hexdigit b | _ => false end
     else true) && escapes_ok rest
  end.
(** The loop over the URI parameters: the names seen. *)
Definition add_uri_parameter (seen : list str) (param : str) : ims (list str) :=
  let '(name, value) := match split_once (ch "=") param with
                        | Some (n, v) => (n, Some v)
                        | None => (param, None)
                        end in
  if negb (token name) || existsb (str_eqb (lowercase name)) seen || bool_decide (value = Some [])
  then invalid else Ok (seen ++ [lowercase name]).

Definition canonical_uri (value : str) : ims str :=
  require_ok (negb (bool_decide (value = []) || (2048 <? byte_len value) || existsb uri_forbidden value));;
  '(scheme, rest) ← or_invalid (split_once (ch ":") value);
  require_ok (eq_ignore_ascii_case scheme (lit "sip"));;
  let '(authority, suffix) := default (rest, []) (split_once (ch ";") rest) in
  let '(user, host_port) := match rsplit_once (ch "@") authority with
                            | Some (u, h) => (Some u, h)
                            | None => (None, authority)
                            end in
  require_ok (match user with
              | Some user => negb (bool_decide (user = [])
                  || existsb (λ c, (c =? ch ":") || (c =? ch "@")) user)
              | None => true
              end);;
  '(host, port) ← host_and_port host_port;
  match port with
  | Some port => n ← positive port; require_ok (n <=? u16_max)
  | None => Ok tt
  end;;
  require_ok (escapes_ok value);;
  (if negb (bool_decide (suffix = [])) then foldM add_uri_parameter [] (split (ch ";") suffix);; Ok tt
   else require_ok (negb (bool_decide (last rest = Some (ch ";")))));;
  Ok (lit "sip:" ++ option_str user (λ u, u ++ lit "@") ++ lowercase host
      ++ option_str port (λ p, lit ":" ++ p)
      ++ (if bool_decide (suffix = []) then [] else lit ";" ++ suffix)).

Record Address := mkAddress { address_uri : str; address_params : list (str * option str) }.
Definition address_param (a : Address) (name : str) : option str :=
  '(_, v) ← List.find (λ p, str_eqb p.1 name) (address_params a); v.
Definition address (value : str) : ims Address :=
  require_ok (safe_header_value value);;
  let value := trim value in
  '(uri, tail) ← match find_char (Z.eqb (ch "<")) value with
    | Some open =>
      let display := trim (take open value) in
      require_ok (negb (existsb (λ c, (c =? ch ",") || (c =? ch "<") || (c =? ch ">")) display));;
      n ← or_invalid (find_char (Z.eqb (ch ">")) (drop (open + 1) value));
      Ok (take n (drop (open + 1) value), drop (n + open + 2) value)
    | None => if existsb (Z.eqb (ch ";")) value then invalid else Ok (value, [])
    end;
  require_ok (negb (existsb (Z.eqb (ch ",")) tail
    || (negb (bool_decide (trim tail = []))
        && negb (bool_decide (head (trim_start_matches is_whitespace tail) = Some (ch ";"))))));;
  '(_, params) ← parameters (lit "address" ++ trim tail);
  uri ← canonical_uri uri;
  Ok (mkAddress uri params).

Definition instance_char_bad (c : Z) : bool :=
  (c <=? 32) || (127 <=? c) || existsb (Z.eqb c) [ch "<"; ch ">"; quote; backslash].
Definition instance_value (value : str) : ims str :=
  let value := trim value in
  let value := if bool_decide (head value = Some quote) && bool_decide (last value = Some quote)
                  && (2 <=? length value)%nat
               then take (length value - 2) (drop 1 value) else value in
  let inner := take (length value - 2) (drop 1 value) in
  if (256 <? byte_len value) || negb (bool_decide (head value = Some (ch "<")))
     || negb (bool_decide (last value = Some (ch ">"))) || negb (starts_with inner (lit "urn:"))
     || existsb instance_char_bad inner
  then invalid else Ok value.

Definition route_entry (routes : list str) (entry : str) : ims (list str) :=
  parsed ← address (trim entry);
  if negb (bool_decide (address_params parsed = []))
     || negb (existsb (λ p, eq_ignore_ascii_case p (lit "lr")) (drop 1 (split (ch ";") (address_uri parsed))))
  then invalid
  else
    let routes := routes ++ [lit "<" ++ address_uri parsed ++ lit ">"] in
    if (16 <? length routes)%nat then invalid else Ok routes.
Definition route_list (value : str) : ims (list str) :=
  require_ok (safe_header_value value);;
  foldM route_entry [] (split (ch ",") value).

(** ** Frames *)
Record Frame := mkFrame { fr_start : str; fr_headers : list (str * str); fr_body : list Z }.

Definition one (f : Frame) (name : str) : ims (option str) :=
  match filter (λ h, h.1 = name) (fr_headers f) with
  | [] => Ok None
  | [(_, v)] => Ok (Some v)
  | _ => invalid
  end.
(** [self.one(name)?.ok_or_else(invalid)?] *)
Definition one_required (f : Frame) (name : str) : ims str :=
  v ← one f name; or_invalid v.

Definition long_name (name : str) : str :=
  let short := [(lit "f", lit "from"); (lit "t", lit "to"); (lit "i", lit "call-id");
    (lit "v", lit "via"); (lit "o", lit "event"); (lit "l", lit "content-length");
    (lit "c", lit "content-type"); (lit "m", lit "contact")] in
  match List.find (λ p, str_eqb p.1 name) short with Some (_, n) => n | None => name end.

(** One physical line of the header block. *)
Definition frame_line (headers : list (str * str)) (entry : nat * str) : ims (list (str * str)) :=
  let '(physical_line, line) := entry in
  if (128 <=? physical_line)%nat || existsb (λ b, ((b <? 32) && negb (b =? 9)) || (b =? 127)) line
  then invalid
  else if match line with c :: _ => is_sp_tab c | [] => false end then
    match reverse headers with
    | [] => invalid
    | (name, value) :: before =>
      let value := value ++ lit " " ++ trim line in
      if 4096 <? byte_len value then invalid else Ok (reverse before ++ [(name, value)])
    end
  else
    '(name, value) ← or_invalid (split_once (ch ":") line);
    let name := trim_end_matches is_sp_tab name in
    require_ok (token name && (byte_len value <=? 4096));;
    let headers := headers ++ [(long_name (lowercase name), trim value)] in
    if (128 <? length headers)%nat then invalid else Ok headers.

Definition frame_parse (wire : list Z) : ims Frame :=
  require_ok (Z.of_nat (length wire) <=? MAX_HEADERS + MAX_BODY);;
  end_ ← or_invalid (find_sub (crlf ++ crlf) wire);
  require_ok (Z.of_nat end_ <=? MAX_HEADERS);;
  text ← or_invalid (from_utf8 (take end_ wire));
  match split_crlf text with
  | [] => invalid
  | start :: lines =>
    require_ok (safe_header_value start);;
    headers ← foldM frame_line [] (imap pair lines);
    let frame := mkFrame start headers (drop (end_ + 4) wire) in
    content_length ← one_required frame (lit "content-length");
    length_ ← unsigned content_length;
    require_ok ((length_ =? Z.of_nat (length (fr_body frame))) && (length_ <=? MAX_BODY));;
    Ok frame
  end.

Definition frame_method (f : Frame) : option str :=
  match split (ch " ") (fr_start f) with
  | [method_; _; version] => if str_eqb version (lit "SIP/2.0") then Some method_ else None
  | _ => None
  end.
Definition request_uri (f : Frame) : option str :=
  _ ← frame_method f; split (ch " ") (fr_start f) !! 1%nat.
Definition frame_status (f : Frame) : option Z :=
  rest ← strip_prefix (lit "SIP/2.0 ") (fr_start f);
  '(code, reason) ← split_once (ch " ") rest;
  if negb (byte_len code =? 3) || bool_decide (reason = []) then None
  else
    code ← res_ok (unsigned code);
    if in_range 100 699 code then Some code else None.
Definition frame_cseq (f : Frame) : ims (Z * str) :=
  value ← one_required f (lit "cseq");
  match split_ascii_whitespace value with
  | number :: rest =>
    number ← unsigned number;
    match rest with
    | [method_] => if (2147483648 <=? number) || negb (token method_) then invalid else Ok (number, method_)
    | _ => invalid
    end
  | [] => invalid
  end.
Definition add_routes (routes : list str) (h : str * str) : ims (list str) :=
  more ← route_list h.2;
  let routes := routes ++ more in
  if (16 <? length routes)%nat then invalid else Ok routes.
Definition frame_routes (f : Frame) (reversed : bool) : ims (list str) :=
  routes ← foldM add_routes [] (filter (λ h, h.1 = lit "record-route") (fr_headers f));
  Ok (if reversed then reverse routes else routes).

(** ** Classification *)
(** [value.split([';', ','])].next() *)
Definition before_separator (value : str) : str :=
  match find_char (λ c, (c =? ch ";") || (c =? ch ",")) value with
  | Some i => take i value
  | None => value
  end.
Definition names_reg (value : str) : bool := eq_ignore_ascii_case (trim (before_separator value)) (lit "reg").
Definition is_reg_notify (wire : list Z) : bool :=
  match frame_parse wire with
  | Ok frame =>
    bool_decide (frame_method frame = Some (lit "NOTIFY"))
    && existsb (λ h, str_eqb h.1 (lit "event") && names_reg h.2) (fr_headers frame)
  | _ =>
    let head := take (Z.to_nat MAX_HEADERS) wire in
    let end_ := default (length head) (find_sub (crlf ++ crlf) head) in
    let text := default [] (from_utf8 (take end_ head)) in
    starts_with text (lit "NOTIFY ")
    && existsb (λ line,
         match split_once (ch ":") line with
         | Some (name, value) =>
           let name := trim_end_matches is_whitespace name in
           (eq_ignore_ascii_case name (lit "event") || eq_ignore_ascii_case name (lit "o"))
           && names_reg (trim value)
         | None => false
         end) (split_crlf text)
  end.
Definition classify_unsubscribed_notify (wire : list Z) : option Z :=
  if negb (is_reg_notify wire) then None
  else
    match
      frame ← frame_parse wire;
      event ← one_required frame (lit "event");
      '(event, params) ← parameters event;
      require_ok (eq_ignore_ascii_case event (lit "reg") && bool_decide (params = []))
    with
    | Ok _ => Some 481
    | _ => Some 400
    end.

Record SubscriptionState := mkSubState {
  sub_terminated : bool;
  sub_expires : option Z;
  sub_retry_after : option Z;
}.
Definition subscription_reasons : list str :=
  [lit "deactivated"; lit "probation"; lit "rejected"; lit "timeout"; lit "giveup"; lit "noresource";
   lit "invariant"].
Definition subscription_parameter (terminated : bool) (st : option Z * option Z)
    (p : str * option str) : ims (option Z * option Z) :=
  let '(name, value) := p in
  value ← or_invalid value;
  if str_eqb name (lit "expires") && negb terminated then n ← positive value; Ok (Some n, st.2)
  else if str_eqb name (lit "retry-after") && terminated then n ← unsigned value; Ok (st.1, Some n)
  else if str_eqb name (lit "reason") && terminated && existsb (str_eqb (lowercase value)) subscription_reasons
  then Ok st
  else invalid.
Definition subscription_state (value : str) : ims SubscriptionState :=
  '(state, params) ← parameters value;
  let state := lowercase state in
  terminated ← (if str_eqb state (lit "active") || str_eqb state (lit "pending") then Ok false
                else if str_eqb state (lit "terminated") then Ok true else invalid);
  '(expires, retry_after) ← foldM (subscription_parameter terminated) (None, None) params;
  if negb terminated && bool_decide (expires = None) then invalid
  else Ok (mkSubState terminated expires retry_after).

(** ** The binding of a REGISTER *)
Record RegEventBinding := mkRegBinding {
  rb_aor : str;
  rb_contact_uri : str;
  rb_instance : option str;
  rb_reg_id : option Z;
}.
#[export] Instance RegEventBinding_eq_dec : EqDecision RegEventBinding.
Proof. solve_decision. Defined.
(** [o.map(f).transpose()?] *)
Definition map_transpose {A B} (f : A → ims B) (o : option A) : ims (option B) :=
  match o with Some a => b ← f a; Ok (Some b) | None => Ok None end.
Definition binding_from_register_request (frame : list Z) : ims RegEventBinding :=
  frame ← frame_parse frame;
  require_ok (bool_decide (frame_method frame = Some (lit "REGISTER")) && bool_decide (fr_body frame = []));;
  to ← one_required frame (lit "to");
  to ← address to;
  from ← one_required frame (lit "from");
  from ← address from;
  require_ok (str_eqb (address_uri to) (address_uri from));;
  contact ← one_required frame (lit "contact");
  contact ← address contact;
  instance ← map_transpose instance_value (address_param contact (lit "+sip.instance"));
  reg_id ← map_transpose positive (address_param contact (lit "reg-id"));
  if bool_decide (is_Some reg_id) && bool_decide (instance = None) then invalid
  else Ok (mkRegBinding (address_uri to) (address_uri contact) instance reg_id).
