(* ===== verification/Digest.v ===== *)
(** * Digest challenges

    Models [connectivity/core/digest_aka.rs]: splitting and choosing the digest
    challenges of a response, the strict parameter parser, stale handling, the
    proof of a request and the Authorization headers.  The hash functions
    ([md5], [ring]) and base64 are parameters.  The parser works on the
    characters left, where the code keeps a byte index. *)
From Stdlib Require Import Ascii String ZArith Lia.
From stdpp Require Import prelude.
From S2P Require Import Prelude Text SipFrame RetryAfter.

Record DigestChallenge := mkChallenge {
  ch_realm : str;
  ch_nonce : str;
  ch_algorithm : str;
  ch_qop : option str;
  ch_opaque : option str;
  ch_proxy : bool;
  ch_stale : bool;
}.
#[export] Instance DigestChallenge_eq_dec : EqDecision DigestChallenge.
Proof. solve_decision. Defined.
Definition authorization_header_name (c : DigestChallenge) : str :=
  if ch_proxy c then lit "Proxy-Authorization" else lit "Authorization".

(** ** Splitting a field into challenges *)
(** [value.get(..6)] and [value.get(6..)]: cutting at a character of the ASCII
    scheme, or failing the comparison. *)
Definition starts_with_digest_scheme (value : str) : bool :=
  eq_ignore_ascii_case (take 6 value) (lit "Digest")
  && match value !! 6 with Some c => is_whitespace c | None => false end.
Definition strip_digest_scheme (value : str) : option str :=
  let value := trim value in
  if starts_with_digest_scheme value then Some (trim_start_matches is_whitespace (drop 6 value)) else None.
Definition push_item (values : list str) (item : str) : list str :=
  let item := trim item in if bool_decide (item = []) then values else values ++ [item].
(** A separating comma is followed by a scheme; the blanks between are left out of
    the next item ([skip] of them remain). *)
Fixpoint split_challenges_from (in_quote escaped : bool) (skip : nat) (values : list str)
    (current value : str) : list str :=
  match value with
  | [] => push_item values current
  | c :: value =>
    match skip with
    | S skip => split_challenges_from in_quote escaped skip values [] value
    | 0 =>
      if escaped then split_challenges_from in_quote false 0 values (current ++ [c]) value
      else if (c =? backslash)%Z && in_quote
      then split_challenges_from in_quote true 0 values (current ++ [c]) value
      else if (c =? quote)%Z
      then split_challenges_from (negb in_quote) false 0 values (current ++ [c]) value
      else if (c =? ch ",")%Z && negb in_quote
              && starts_with_digest_scheme (trim_start_matches is_whitespace value)
      then split_challenges_from in_quote false
             (length value - length (trim_start_matches is_whitespace value))
             (push_item values current) [] value
      else split_challenges_from in_quote false 0 values (current ++ [c]) value
    end
  end.
Definition split_digest_challenge_values (value : str) : list str :=
  let value := trim value in
  if bool_decide (value = []) then [] else split_challenges_from false false 0 [] [] value.

(** ** The parameters of a challenge *)
Definition digest_invalid {A} : ims A := Err (lit "digest_challenge_invalid").
Definition is_digest_token (c : Z) : bool :=
  is_ascii_alphanumeric c || existsb (Z.eqb c) (lit "!#$%&'*+-.^_`|~").
(** The characters of a quoted value and the rest after the closing quote. *)
Fixpoint quoted_value (value s : str) : ims (str * str) :=
  match s with
  | [] => digest_invalid
  | c :: s =>
    if (c =? quote)%Z then Ok (value, s)
    else if (c =? backslash)%Z then
      match s with [] => digest_invalid | d :: s => quoted_value (value ++ [d]) s end
    else quoted_value (value ++ [c]) s
  end.
Fixpoint token_prefix (s : str) : str * str :=
  match s with
  | c :: s' => if is_digest_token c then let '(t, r) := token_prefix s' in (c :: t, r) else ([], s)
  | [] => ([], [])
  end.
Fixpoint unquoted_value (value s : str) : ims (str * str) :=
  match s with
  | [] => Ok (value, [])
  | c :: s' =>
    if ((c =? ch ",") || (c =? ch " ") || (c =? 9))%Z then Ok (value, s)
    else if negb (in_range 0x21 0x7e c) || (c =? quote)%Z || (c =? backslash)%Z then digest_invalid
    else unquoted_value (value ++ [c]) s'
  end.
Definition skip_blanks (s : str) : str := trim_start_matches is_sp_tab s.

Fixpoint digest_params_loop (fuel : nat) (out : list (str * str)) (s : str)
    : ims (list (str * str)) :=
  match fuel with
  | 0 => Panic
  | S fuel =>
    let s := skip_blanks s in
    if bool_decide (s = []) then Ok out
    else if 64 <=? length out then digest_invalid
    else
      let '(key, s) := token_prefix s in
      if bool_decide (key = []) then digest_invalid
      else
        let key := to_ascii_lowercase <$> key in
        match skip_blanks s with
        | c :: s =>
          if negb (c =? ch "=")%Z then digest_invalid
          else
            let s := skip_blanks s in
            '(value, s) ← match s with
              | d :: s' =>
                if (d =? quote)%Z then quoted_value [] s'
                else '(v, r) ← unquoted_value [] s;
                     if bool_decide (v = []) then digest_invalid else Ok (v, r)
              | [] => digest_invalid
              end;
            if existsb (str_eqb key) out.*1 then Err (lit "digest_parameter_duplicate")
            else
              let out := out ++ [(key, value)] in
              match skip_blanks s with
              | [] => Ok out
              | d :: s =>
                if negb (d =? ch ",")%Z then digest_invalid
                else if forallb is_sp_tab s then digest_invalid
                else digest_params_loop fuel out s
              end
        | [] => digest_invalid
        end
  end.
Definition is_digest_control (b : Z) : bool := ((b =? 127) || ((b <? 32) && negb (b =? 9)))%Z.
Definition parse_digest_params (input : str) : ims (list (str * str)) :=
  if (16384 <? byte_len input)%Z || existsb is_digest_control input
  then digest_invalid
  else digest_params_loop (S (length input)) [] input.

Definition param (map : list (str * str)) (key : str) : option str :=
  '(_, v) ← List.find (λ p, str_eqb p.1 key) map; Some v.
Definition select_qop (map : list (str * str)) : option str :=
  raw ← param map (lit "qop");
  if existsb (λ s, eq_ignore_ascii_case (trim s) (lit "auth"))
       (split (ch " ") ((λ c, if (c =? ch ",")%Z then ch " " else c) <$> raw))
  then Some (lit "auth") else Some (trim raw).

Definition parse_digest_challenge (value : str) (proxy : bool) : ims DigestChallenge :=
  params ← ok_or (lit "digest_challenge_missing") (strip_digest_scheme value);
  map ← parse_digest_params params;
  realm ← ok_or (lit "digest_realm_missing") (param map (lit "realm"));
  nonce ← ok_or (lit "digest_nonce_missing") (param map (lit "nonce"));
  let algorithm := default (lit "AKAv1-MD5") (param map (lit "algorithm")) in
  let qop := select_qop map in
  let opaque := param map (lit "opaque") in
  stale ← match param map (lit "stale") with
    | None => Ok false
    | Some value =>
      if eq_ignore_ascii_case value (lit "true") then Ok true
      else if eq_ignore_ascii_case value (lit "false") then Ok false
      else Err (lit "digest_stale_invalid")
    end;
  fail_if (bool_decide (realm = [])) (lit "digest_realm_missing");;
  fail_if (bool_decide (nonce = [])) (lit "digest_nonce_missing");;
  Ok (mkChallenge realm nonce algorithm qop opaque proxy stale).

Definition algorithm_is (c : DigestChallenge) (name : str) : bool :=
  eq_ignore_ascii_case (ch_algorithm c) name.
Definition validate_digest_challenge_support (allow_plain_md5 : bool) (c : DigestChallenge)
    : ims DigestChallenge :=
  let algorithm_supported := algorithm_is c (lit "AKAv1-MD5") || algorithm_is c (lit "AKAv2-MD5")
    || algorithm_is c (lit "AKAv2-SHA-256") || (allow_plain_md5 && algorithm_is c (lit "MD5")) in
  if negb algorithm_supported then Err (lit "digest_algorithm_unsupported")
  else if negb (bool_decide (ch_qop c = None) || bool_decide (ch_qop c = Some (lit "auth")))
  then Err (lit "digest_qop_unsupported")
  else Ok c.

(** The candidates in order: WWW fields, then Proxy fields. *)
Definition challenge_candidates (www_values proxy_values : list str) : list (bool * str) :=
  (pair false <$> (www_values ≫= split_digest_challenge_values))
  ++ (pair true <$> (proxy_values ≫= split_digest_challenge_values)).
Fixpoint first_usable (allow_plain_md5 : bool) (last_error : option str)
    (candidates : list (bool * str)) : ims DigestChallenge :=
  match candidates with
  | [] => Err (default (lit "digest_challenge_missing") last_error)
  | (proxy, value) :: candidates =>
    match
      challenge ← parse_digest_challenge value proxy;
      validate_digest_challenge_support allow_plain_md5 challenge
    with
    | Ok challenge => Ok challenge
    | Err error => first_usable allow_plain_md5 (Some error) candidates
    | Panic => Panic
    end
  end.
Definition select_digest_challenge (www_values proxy_values : list str) (allow_plain_md5 : bool)
    : ims DigestChallenge :=
  first_usable allow_plain_md5 None (challenge_candidates www_values proxy_values).

(** ** Nonces and stale challenges *)
Record AkaChallenge := mkAka { aka_rand : list Z; aka_autn : list Z }.
#[export] Instance AkaChallenge_eq_dec : EqDecision AkaChallenge.
Proof. solve_decision. Defined.
Record AkaMaterial := mkMaterial { m_res : list Z; m_ck : list Z; m_ik : list Z }.
Inductive ChallengeAction := Authenticate | ReuseCredentials.

Definition nonce_hexdigit (c : Z) : bool := bool_decide (is_Some (hex_value c)).
(** [u8::from_str_radix] of two characters: a sign is allowed. *)
Definition hex_pair (a b : Z) : option Z :=
  if (a =? ch "+")%Z then hex_value b
  else x ← hex_value a; y ← hex_value b; Some (x * 16 + y)%Z.
Fixpoint decode_hex (s : str) : ims (list Z) :=
  match s with
  | [] => Ok []
  | [_] => Err (lit "hex_invalid")
  | a :: b :: s =>
    byte ← ok_or (lit "hex_invalid") (hex_pair a b);
    rest ← decode_hex s;
    Ok (byte :: rest)
  end.
(** [padded] with [=] up to a multiple of four. *)
Definition pad_base64 (s : list Z) : list Z := s ++ replicate ((4 - length s `mod` 4) `mod` 4) (ch "=").

Section crypto.
(** [md5::compute], SHA-256 and HMAC-SHA-256 of [ring], the standard base64 engine. *)
Context (md5 sha256 : list Z → list Z) (hmac_sha256 : list Z → list Z → list Z).
Context (base64_encode : list Z → list Z) (base64_decode : list Z → option (list Z)).

Definition decode_digest_nonce (nonce : str) : ims (list Z) :=
  let trimmed := trim nonce in
  if negb (bool_decide (trimmed = [])) && (length trimmed `mod` 2 =? 0) && forallb nonce_hexdigit trimmed
  then decode_hex trimmed
  else
    let bytes := utf8_encode trimmed in
    match base64_decode bytes with
    | Some raw => Ok raw
    | None => ok_or (lit "digest_nonce_decode_failed") (base64_decode (pad_base64 bytes))
    end.
Definition decode_aka_nonce (nonce : str) : ims AkaChallenge :=
  raw ← decode_digest_nonce nonce;
  if length raw <? 32 then Err (lit "register_nonce_not_aka")
  else Ok (mkAka (take 16 raw) (take 16 (drop 16 raw))).

Definition challenge_action (incoming : DigestChallenge) (previous : option DigestChallenge)
    (authenticated_aka : option AkaChallenge) : ims ChallengeAction :=
  if negb (ch_stale incoming) then Ok Authenticate
  else
    previous ← ok_or (lit "digest_stale_without_context") previous;
    if negb (str_eqb (ch_realm incoming) (ch_realm previous))
       || negb (bool_decide (ch_proxy incoming = ch_proxy previous))
       || negb (eq_ignore_ascii_case (ch_algorithm incoming) (ch_algorithm previous))
       || negb (bool_decide (ch_qop incoming = ch_qop previous))
    then Err (lit "digest_stale_scope_changed")
    else if str_eqb (ch_nonce incoming) (ch_nonce previous) then Err (lit "digest_stale_nonce_unchanged")
    else if algorithm_is incoming (lit "MD5") then Ok ReuseCredentials
    else
      fresh ← decode_aka_nonce (ch_nonce incoming);
      if bool_decide (authenticated_aka = Some fresh) then Ok ReuseCredentials else Ok Authenticate.

(** ** The proof of a request *)
Definition BLOCK_LEN : nat := 64.
Definition hmac_md5 (key data : list Z) : list Z :=
  let normalized :=
    if BLOCK_LEN <? length key then md5 key ++ replicate (BLOCK_LEN - 16) 0%Z
    else key ++ replicate (BLOCK_LEN - length key) 0%Z in
  let ipad := zip_with Z.lxor (replicate BLOCK_LEN 0x36%Z) normalized in
  let opad := zip_with Z.lxor (replicate BLOCK_LEN 0x5c%Z) normalized in
  md5 (opad ++ md5 (ipad ++ data)).

Definition aka_digest_password (algorithm : str) (aka : AkaMaterial) : ims (list Z) :=
  if eq_ignore_ascii_case algorithm (lit "AKAv1-MD5") || eq_ignore_ascii_case algorithm (lit "MD5")
  then if bool_decide (m_res aka = []) then Err (lit "aka_res_empty") else Ok (m_res aka)
  else if eq_ignore_ascii_case algorithm (lit "AKAv2-MD5")
          || eq_ignore_ascii_case algorithm (lit "AKAv2-SHA-256")
  then
    if bool_decide (m_res aka = []) || negb (length (m_ik aka) =? 16) || negb (length (m_ck aka) =? 16)
    then Err (lit "aka_material_invalid")
    else
      let key := m_res aka ++ m_ik aka ++ m_ck aka in
      let label := lit "http-digest-akav2-password" in
      Ok (base64_encode (if eq_ignore_ascii_case algorithm (lit "AKAv2-SHA-256")
                         then hmac_sha256 key label else hmac_md5 key label))
  else Err (lit "digest_algorithm_unsupported").

Definition hex_lower (bytes : list Z) : str := bytes ≫= fmt_byte.
Definition digest_hash_for_algorithm (algorithm : str) : ims (list Z → str) :=
  if eq_ignore_ascii_case algorithm (lit "AKAv1-MD5") || eq_ignore_ascii_case algorithm (lit "AKAv2-MD5")
     || eq_ignore_ascii_case algorithm (lit "MD5")
  then Ok (λ bytes, hex_lower (md5 bytes))
  else if eq_ignore_ascii_case algorithm (lit "AKAv2-SHA-256") then Ok (λ bytes, hex_lower (sha256 bytes))
  else Err (lit "digest_algorithm_unsupported").

Definition compute_digest_response (username realm : str) (password : list Z) (algorithm method_ digest_uri
    nonce : str) (qop : option str) (cnonce nc : str) : ims str :=
  let a1 := utf8_encode username ++ lit ":" ++ utf8_encode realm ++ lit ":" ++ password in
  hash ← digest_hash_for_algorithm algorithm;
  let ha1 := hash a1 in
  let ha2 := hash (utf8_encode (method_ ++ lit ":" ++ digest_uri)) in
  proof ← match qop with
    | Some q =>
      if str_eqb q (lit "auth")
      then Ok (ha1 ++ lit ":" ++ nonce ++ lit ":" ++ nc ++ lit ":" ++ cnonce ++ lit ":auth:" ++ ha2)
      else Err (lit "digest_qop_unsupported")
    | None => Ok (ha1 ++ lit ":" ++ nonce ++ lit ":" ++ ha2)
    end;
  Ok (hash (utf8_encode proof)).
Definition compute_aka_response (username realm : str) (aka : AkaMaterial) (algorithm method_ digest_uri
    nonce : str) (qop : option str) (cnonce nc : str) : ims str :=
  password ← aka_digest_password algorithm aka;
  compute_digest_response username realm password algorithm method_ digest_uri nonce qop cnonce nc.

(** ** Authorization headers *)
Definition quoted_param (name value : str) : str := name ++ lit "=" ++ [quote] ++ quote_param value ++ [quote].
(** A value written without escaping it. *)
Definition raw_param (name value : str) : str := name ++ lit "=" ++ [quote] ++ value ++ [quote].
Definition optional_param (prefix name : str) (value : option str) : str :=
  match value with Some v => prefix ++ quoted_param name v | None => [] end.

Definition build_authorization_header (c : DigestChallenge) (username digest_uri response cnonce nc : str)
    : str :=
  authorization_header_name c ++ lit ": Digest " ++ quoted_param (lit "username") username
  ++ lit "," ++ quoted_param (lit "realm") (ch_realm c)
  ++ lit "," ++ quoted_param (lit "nonce") (ch_nonce c)
  ++ lit "," ++ quoted_param (lit "uri") digest_uri
  ++ lit "," ++ raw_param (lit "response") response
  ++ lit ",algorithm=" ++ ch_algorithm c
  ++ match ch_qop c with
     | Some qop => lit ",qop=" ++ qop ++ lit ",nc=" ++ nc ++ lit "," ++ raw_param (lit "cnonce") cnonce
     | None => []
     end
  ++ optional_param (lit ",") (lit "opaque") (ch_opaque c).
Definition build_initial_authorization_header (username realm digest_uri : str) : str :=
  lit "Authorization: Digest " ++ quoted_param (lit "username") username
  ++ lit "," ++ quoted_param (lit "realm") realm ++ lit "," ++ raw_param (lit "nonce") []
  ++ lit "," ++ quoted_param (lit "uri") digest_uri ++ lit "," ++ raw_param (lit "response") []
  ++ lit ",algorithm=AKAv1-MD5".
Definition build_initial_authorization_header_uri_first (username realm digest_uri : str) : str :=
  lit "Authorization: Digest " ++ quoted_param (lit "uri") digest_uri
  ++ lit "," ++ quoted_param (lit "username") username ++ lit ",algorithm=AKAv1-MD5,"
  ++ raw_param (lit "response") [] ++ lit "," ++ quoted_param (lit "realm") realm
  ++ lit "," ++ raw_param (lit "nonce") [].
Definition resync_prefix (c : DigestChallenge) (username digest_uri : str) : str :=
  authorization_header_name c ++ lit ": Digest " ++ quoted_param (lit "username") username
  ++ lit "," ++ quoted_param (lit "realm") (ch_realm c)
  ++ lit "," ++ quoted_param (lit "nonce") (ch_nonce c)
  ++ lit "," ++ quoted_param (lit "uri") digest_uri
  ++ lit "," ++ raw_param (lit "response") [] ++ lit ",algorithm=" ++ ch_algorithm c ++ lit ",".
Definition build_resync_authorization_header (c : DigestChallenge) (username digest_uri : str)
    (auts : list Z) : str :=
  resync_prefix c username digest_uri ++ raw_param (lit "auts") (base64_encode auts).
Definition build_resync_authorization_header_with_digest (c : DigestChallenge) (username digest_uri : str)
    (auts : list Z) (cnonce nc : option str) : str :=
  resync_prefix c username digest_uri ++ quoted_param (lit "auts") (base64_encode auts)
  ++ match ch_qop c with
     | Some qop => lit ",qop=" ++ qop ++ lit ",nc=" ++ default (lit "00000001") nc ++ lit ","
                   ++ quoted_param (lit "cnonce") (default [] cnonce)
     | None => []
     end
  ++ optional_param (lit ",") (lit "opaque") (ch_opaque c).
End crypto.

(** ** [Authentication-Info] *)
(** Pieces at commas outside quotes. *)
Fixpoint split_quoted_commas (in_quote escaped : bool) (current value : str) : list str :=
  match value with
  | [] => [trim current]
  | c :: value =>
    if escaped then split_quoted_commas in_quote false (current ++ [c]) value
    else if (c =? backslash)%Z && in_quote then split_quoted_commas in_quote true (current ++ [c]) value
    else if (c =? quote)%Z then split_quoted_commas (negb in_quote) false (current ++ [c]) value
    else if (c =? ch ",")%Z && negb in_quote
    then trim current :: split_quoted_commas in_quote false [] value
    else split_quoted_commas in_quote false (current ++ [c]) value
  end.
Fixpoint unescape_quoted_value (value : str) : str :=
  match value with
  | [] => []
  | c :: value =>
    if (c =? backslash)%Z then
      match value with [] => [backslash] | d :: value => d :: unescape_quoted_value value end
    else c :: unescape_quoted_value value
  end.
Definition nextnonce_of_part (part : str) : option str :=
  '(name, raw) ← split_once (ch "=") part;
  if negb (eq_ignore_ascii_case (trim name) (lit "nextnonce")) then None
  else
    let raw := trim raw in
    if (2 <=? length raw) && bool_decide (head raw = Some quote) && bool_decide (last raw = Some quote)
    then Some (unescape_quoted_value (take (length raw - 2) (drop 1 raw)))
    else if bool_decide (raw = []) then None else Some raw.
Definition parse_authentication_info_nextnonce (value : str) : option str :=
  find_map nextnonce_of_part (split_quoted_commas false false [] value).

(** * Lemmas *)

(** ** Rendered parameters *)
Inductive ParamValue := Quoted (v : str) | Bare (v : str).
Definition param_text (v : ParamValue) : str := match v with Quoted v | Bare v => v end.
Definition render_param (p : str * ParamValue) : str :=
  match p.2 with
  | Quoted v => quoted_param p.1 v
  | Bare v => p.1 ++ lit "=" ++ v
  end.
Fixpoint render_params (ps : list (str * ParamValue)) : str :=
  match ps with
  | [] => []
  | [p] => render_param p
  | p :: ps => render_param p ++ ch "," :: render_params ps
  end.
Definition bare_char (c : Z) : bool :=
  in_range 0x21 0x7e c && negb ((c =? ch ",") || (c =? quote) || (c =? backslash))%Z.
Definition param_ok (p : str * ParamValue) : Prop :=
  p.1 ≠ [] ∧ Forall (λ c, is_digest_token c = true ∧ to_ascii_lowercase c = c) p.1 ∧
  match p.2 with
  | Quoted _ => True
  | Bare v => v ≠ [] ∧ Forall (λ c, bare_char c = true) v
  end.
#[export] Instance param_ok_dec p : Decision (param_ok p).
Proof. unfold param_ok. destruct p as [k [v|v]]; apply _. Defined.

Lemma token_prefix_app k s : Forall (λ c, is_digest_token c = true) k → head_not is_digest_token s →
  token_prefix (k ++ s) = (k, s).
Proof.
  intros Hk Hs. induction Hk as [|c k Hc _ IH]; cbn [app token_prefix].
  - destruct s as [|c s]; [done|]. simpl in *. by rewrite Hs.
  - by rewrite Hc, IH.
Qed.
Lemma quoted_value_param acc v rest :
  quoted_value acc (quote_param v ++ quote :: rest) = Ok (acc ++ v, rest).
Proof.
  revert acc. induction v as [|c v IH]; intros acc; [by rewrite app_nil_r|].
  rewrite quote_param_cons. destruct (Z.eqb_spec c backslash) as [->|Hb].
  { cbn. by rewrite IH, <-app_assoc. }
  destruct (Z.eqb_spec c quote) as [->|Hq].
  { cbn. by rewrite IH, <-app_assoc. }
  cbn [app quoted_value]. rewrite (proj2 (Z.eqb_neq c quote)), (proj2 (Z.eqb_neq c backslash)) by done.
  by rewrite IH, <-app_assoc.
Qed.
Lemma unquoted_value_bare acc v rest : Forall (λ c, bare_char c = true) v →
  (rest = [] ∨ ∃ t, rest = ch "," :: t) → unquoted_value acc (v ++ rest) = Ok (acc ++ v, rest).
Proof.
  intros Hv Hrest. revert acc. induction Hv as [|c v Hc _ IH]; intros acc.
  { rewrite app_nil_r. by destruct Hrest as [-> |[t ->]]. }
  cbn [app unquoted_value]. unfold bare_char in Hc.
  apply andb_true_iff in Hc as [Hr Hn]. rewrite negb_true_iff, !orb_false_iff in Hn.
  destruct Hn as [[H1 H2] H3]. rewrite H1, H2, H3, Hr.
  apply in_range_true in Hr. change (ch " ") with 32%Z.
  rewrite (proj2 (Z.eqb_neq c 32)), (proj2 (Z.eqb_neq c 9)) by lia. cbn [orb negb].
  by rewrite IH, <-app_assoc.
Qed.
Lemma token_no_blank k s : k ≠ [] → Forall (λ c, is_digest_token c = true) k → skip_blanks (k ++ s) = k ++ s.
Proof.
  intros Hne Hk. apply trim_start_matches_id. destruct Hk as [|c k Hc _]; [done|]. simpl.
  unfold is_sp_tab. apply orb_false_iff. split; apply Z.eqb_neq; intros ->; by vm_compute in Hc.
Qed.
Lemma digest_value_render p rest : param_ok p → (rest = [] ∨ ∃ t, rest = ch "," :: t) →
  ∃ k, render_param p = p.1 ++ ch "=" :: k ∧ skip_blanks (k ++ rest) = k ++ rest ∧
  match k ++ rest with
  | d :: s' =>
    if (d =? quote)%Z then quoted_value [] s'
    else '(v, r) ← unquoted_value [] (k ++ rest);
         if bool_decide (v = []) then digest_invalid else Ok (v, r)
  | [] => digest_invalid
  end = Ok (param_text p.2, rest).
Proof.
  intros (_ & _ & Hv) Hrest. destruct p as [key [v|v]]; simpl in *.
  - exists (quote :: quote_param v ++ [quote]). split_and!; [done|done|].
    cbn [app]. rewrite Z.eqb_refl, <-app_assoc. apply (quoted_value_param []).
  - destruct Hv as [Hne Hv]. exists v. split; [done|].
    assert (∃ d v', v = d :: v' ∧ (d =? quote)%Z = false ∧ is_sp_tab d = false) as (d & v' & -> & Hd & Hsp).
    { destruct Hv as [|d v' Hd _]; [done|]. exists d, v'. split; [done|].
      unfold bare_char in Hd. apply andb_true_iff in Hd as [Hr%in_range_true Hn]. unfold is_sp_tab.
      rewrite negb_true_iff, !orb_false_iff in Hn. split; [apply Hn|].
      change (ch " ") with 32%Z. apply orb_false_iff. rewrite !Z.eqb_neq. lia. }
    split; [by apply trim_start_matches_id|]. cbn [app]. rewrite Hd.
    by rewrite (unquoted_value_bare [] (d :: v') rest Hv Hrest : unquoted_value [] (d :: v' ++ rest) = _).
Qed.

Lemma token_not_blank c : is_digest_token c = true → is_sp_tab c = false.
Proof. intros Hc. unfold is_sp_tab. apply orb_false_iff. split; apply Z.eqb_neq; intros ->; by vm_compute in Hc. Qed.
Lemma render_params_not_blank ps : Forall param_ok ps → ps ≠ [] → forallb is_sp_tab (render_params ps) = false.
Proof.
  intros Hps Hne. destruct Hps as [|p ps (Hpne & Hkey & _) _]; [done|].
  assert (∃ c t, render_params (p :: ps) = c :: t ∧ is_digest_token c = true) as (c & t & -> & Hc).
  { destruct p as [key v]. simpl in *. destruct Hkey as [|c k [Hc _] _]; [done|].
    exists c. destruct ps, v; cbn; by eexists. }
  cbn [forallb]. by rewrite token_not_blank.
Qed.
Definition read_param (p : str * ParamValue) : str * str := (p.1, param_text p.2).
(** The loop reads the parameters in order. *)
Lemma digest_params_loop_render ps out fuel :
  Forall param_ok ps → NoDup (out.*1 ++ ps.*1) → length out + length ps ≤ 64 → ps ≠ [] →
  length ps < fuel →
  digest_params_loop fuel out (render_params ps) = Ok (out ++ (read_param <$> ps)).
Proof.
  intros Hps. revert out fuel. induction Hps as [|p ps Hp Hps IH]; intros out fuel Hdup Hlen Hne Hfuel; [done|].
  destruct fuel as [|fuel]; [lia|]. clear Hne. simpl in Hlen, Hfuel.
  set (rest := match ps with [] => [] | _ => ch "," :: render_params ps end).
  assert (rest = [] ∨ ∃ t, rest = ch "," :: t) as Hrest by (destruct ps; [by left|right; by eexists]).
  assert (render_params (p :: ps) = render_param p ++ rest) as ->.
  { subst rest. destruct ps; [by rewrite app_nil_r|done]. }
  destruct (digest_value_render p rest Hp Hrest) as (k & Hk & Hblank & Hvalue).
  destruct Hp as (Hpne & Hkey & _). rewrite Hk, <-app_assoc.
  assert (Forall (λ c, is_digest_token c = true) p.1) as Htok
    by (eapply Forall_impl; [exact Hkey|]; by intros c [? _]).
  cbn [digest_params_loop]. rewrite token_no_blank by done.
  rewrite bool_decide_false by (by destruct p.1).
  rewrite (proj2 (Nat.leb_gt _ _)) by lia. rewrite token_prefix_app by done. cbv iota beta.
  rewrite bool_decide_false by done. change (skip_blanks ((ch "=" :: k) ++ rest)) with (ch "=" :: k ++ rest).
  cbv iota. rewrite Z.eqb_refl. cbn [negb]. rewrite Hblank, Hvalue. cbn [mbind res_bind].
  assert (to_ascii_lowercase <$> p.1 = p.1) as ->.
  { clear -Hkey. induction Hkey as [|c k' [_ Hc] _ IH]; [done|]. by rewrite fmap_cons, Hc, IH. }
  rewrite fmap_cons in Hdup.
  assert (existsb (str_eqb p.1) out.*1 = false) as ->.
  { apply not_true_iff_false. intros (x & Hin%list_elem_of_In & Heq%str_eqb_eq)%existsb_exists.
    apply NoDup_app in Hdup as (_ & Hd & _). apply (Hd x Hin). rewrite <-Heq. by constructor. }
  subst rest. destruct ps as [|q ps]; [done|].
  change (skip_blanks (ch "," :: ?s)) with (ch "," :: s). cbv iota. rewrite Z.eqb_refl. cbn [negb].
  rewrite render_params_not_blank by done. rewrite IH; [by rewrite <-app_assoc| | |done|simpl in *; lia].
  - by rewrite fmap_app, <-app_assoc.
  - rewrite length_app. simpl in *. lia.
Qed.

(** ** The written header *)
Definition clean (s : str) : Prop := Forall (λ c, is_digest_control c = false) s.
#[export] Instance clean_dec s : Decision (clean s).
Proof. unfold clean. apply _. Defined.
Lemma clean_existsb s : clean s → existsb is_digest_control s = false.
Proof. induction 1 as [|c s Hc _ IH]; [done|]. cbn [existsb]. by rewrite Hc. Qed.
Lemma clean_quote_param v : clean v → clean (quote_param v).
Proof.
  induction 1 as [|c v Hc _ IH]; [constructor|]. rewrite quote_param_cons. apply Forall_app. split; [|done].
  repeat case_match; repeat constructor; done.
Qed.
Lemma clean_token k : Forall (λ c, is_digest_token c = true ∧ to_ascii_lowercase c = c) k → clean k.
Proof.
  intros Hk. eapply Forall_impl; [exact Hk|]. intros c [Hc _]. unfold is_digest_token in Hc.
  apply orb_true_iff in Hc as [Hc|Hc].
  - unfold is_ascii_alphanumeric, is_ascii_digit in Hc. rewrite !orb_true_iff, !in_range_true in Hc.
    change (ch "0") with 48%Z in Hc. change (ch "9") with 57%Z in Hc. change (ch "a") with 97%Z in Hc.
    change (ch "z") with 122%Z in Hc. change (ch "A") with 65%Z in Hc. change (ch "Z") with 90%Z in Hc.
    unfold is_digest_control. rewrite orb_false_iff, andb_false_iff, Z.eqb_neq, Z.ltb_ge. lia.
  - apply existsb_exists in Hc as (d & Hd & ->%Z.eqb_eq).
    assert (Forall (λ c, is_digest_control c = false) (lit "!#$%&'*+-.^_`|~")) as HF
      by by apply (bool_decide_unpack _).
    rewrite Forall_forall in HF. apply HF. by apply list_elem_of_In.
Qed.
Lemma clean_bare v : Forall (λ c, bare_char c = true) v → clean v.
Proof.
  intros Hv. eapply Forall_impl; [exact Hv|]. intros c [Hr%in_range_true _]%andb_true_iff.
  unfold is_digest_control. rewrite orb_false_iff, andb_false_iff, Z.eqb_neq, Z.ltb_ge. lia.
Qed.
Lemma clean_render ps : Forall param_ok ps → Forall (λ p, clean (param_text p.2)) ps → clean (render_params ps).
Proof.
  intros Hps Hc. assert (Forall (λ p, clean (render_param p)) ps) as Hr.
  { induction Hps as [|[k v] ps (_ & Hk%clean_token & Hv) _ IH]; [constructor|].
    apply Forall_cons in Hc as [Hcv Hc]. constructor; [|by apply IH]. unfold render_param, clean in *. simpl in *.
    destruct v as [v|v]; unfold quoted_param; rewrite ?Forall_app, ?Forall_cons; split_and!;
      first [done | by apply clean_quote_param | by apply (bool_decide_unpack _)]. }
  clear Hps Hc. induction Hr as [|p ps Hp Hr IH]; [constructor|]. destruct ps as [|q ps]; [done|].
  cbn [render_params]. apply Forall_app. split; [done|]. by constructor.
Qed.
Lemma quote_param_id v : Forall (λ c, (c =? backslash)%Z || (c =? quote)%Z = false) v → quote_param v = v.
Proof.
  induction 1 as [|c v Hc _ IH]; [done|]. rewrite quote_param_cons, IH. apply orb_false_iff in Hc as [-> ->]. done.
Qed.

(** The parameters of the header, in order. *)
Definition authorization_params (c : DigestChallenge) (username digest_uri response cnonce nc : str)
    : list (str * ParamValue) :=
  [(lit "username", Quoted username); (lit "realm", Quoted (ch_realm c)); (lit "nonce", Quoted (ch_nonce c));
   (lit "uri", Quoted digest_uri); (lit "response", Quoted response); (lit "algorithm", Bare (ch_algorithm c))]
  ++ match ch_qop c with
     | Some qop => [(lit "qop", Bare qop); (lit "nc", Bare nc); (lit "cnonce", Quoted cnonce)]
     | None => []
     end
  ++ match ch_opaque c with Some o => [(lit "opaque", Quoted o)] | None => [] end.
(** The response and the nonce of the client are written as they are. *)
Definition unescaped (s : str) : Prop := Forall (λ c, (c =? backslash)%Z || (c =? quote)%Z = false) s.
#[export] Instance unescaped_dec s : Decision (unescaped s).
Proof. unfold unescaped. apply _. Defined.

Lemma authorization_header_params c username digest_uri response cnonce nc :
  unescaped response → unescaped cnonce →
  build_authorization_header c username digest_uri response cnonce nc =
  authorization_header_name c ++ lit ": Digest " ++
  render_params (authorization_params c username digest_uri response cnonce nc).
Proof.
  intros Hr Hc. unfold build_authorization_header, authorization_params, raw_param.
  do 2 f_equal. destruct (ch_qop c), (ch_opaque c); cbn [app render_params render_param fst snd optional_param];
    unfold quoted_param; rewrite !(quote_param_id response), ?(quote_param_id cnonce) by done;
    by repeat (rewrite <-app_assoc || rewrite <-app_comm_cons || rewrite app_nil_r).
Qed.

(** ** The parser returns *)
Lemma token_prefix_length s t r : token_prefix s = (t, r) → length s = length t + length r.
Proof.
  revert t r. induction s as [|c s IH]; intros t r; cbn [token_prefix]; [by intros [= <- <-]|].
  destruct (is_digest_token c); [|by intros [= <- <-]].
  destruct (token_prefix s) as [t' r']. intros [= <- <-]. simpl. by rewrite (IH t' r').
Qed.
Lemma quoted_value_returns value s :
  no_panic (quoted_value value s) ∧ ∀ v r, quoted_value value s = Ok (v, r) → length r ≤ length s.
Proof.
  remember (length s) as n eqn:Hn. revert value s Hn.
  induction n as [n IH] using lt_wf_ind. intros value s ->.
  destruct s as [|c s]; [by split|]. cbn [quoted_value]. destruct (c =? quote)%Z.
  { split; [done|]. intros v r [= _ <-]. simpl. lia. }
  destruct (c =? backslash)%Z.
  - destruct s as [|d s]; [by split|].
    destruct (IH (length s) ltac:(simpl; lia) (value ++ [d]) s eq_refl) as [Hnp Hok]. split; [done|].
    intros v r Hr%Hok. simpl. lia.
  - destruct (IH (length s) ltac:(simpl; lia) (value ++ [c]) s eq_refl) as [Hnp Hok]. split; [done|].
    intros v r Hr%Hok. simpl. lia.
Qed.
Lemma unquoted_value_returns value s :
  no_panic (unquoted_value value s) ∧ ∀ v r, unquoted_value value s = Ok (v, r) → length r ≤ length s.
Proof.
  revert value. induction s as [|c s IH]; intros value; cbn [unquoted_value].
  { split; [done|by intros v r [= _ <-]]. }
  destruct ((c =? ch ",") || (c =? ch " ") || (c =? 9))%Z; [split; [done|by intros v r [= _ <-]]|].
  destruct (_ || _ || _); [by split|]. destruct (IH (value ++ [c])) as [Hnp Hok]. split; [done|].
  intros v r Hr%Hok. simpl. lia.
Qed.
Lemma length_skip_blanks s : length (skip_blanks s) ≤ length s.
Proof. apply length_trim_start. Qed.

Lemma digest_params_loop_returns fuel out s : length s < fuel → no_panic (digest_params_loop fuel out s).
Proof.
  revert out s. induction fuel as [|fuel IH]; intros out s Hfuel; [lia|]. cbn [digest_params_loop].
  pose proof (length_skip_blanks s). case_bool_decide; [done|]. case_match; [done|].
  destruct (token_prefix (skip_blanks s)) as [key r] eqn:Hkey. apply token_prefix_length in Hkey.
  case_bool_decide as Hne; [done|].
  assert (0 < length key) by (destruct key; [done|simpl; lia]).
  pose proof (length_skip_blanks r). destruct (skip_blanks r) as [|c r1]; [done|]. case_match; [done|].
  simpl in *. pose proof (length_skip_blanks r1).
  apply no_panic_bind.
  - destruct (skip_blanks r1) as [|d s']; [done|]. destruct (d =? quote)%Z; [apply quoted_value_returns|].
    apply no_panic_bind; [apply unquoted_value_returns|]. intros [v w] _. by case_bool_decide.
  - intros [v w] Hw. assert (length w ≤ length r1) as Hlen.
    { destruct (skip_blanks r1) as [|d s']; [done|]. cbn [length] in *. destruct (d =? quote)%Z.
      - apply quoted_value_returns in Hw. lia.
      - apply bind_Ok in Hw as ([v' w'] & Hu & Hw). apply unquoted_value_returns in Hu. cbn [length] in Hu.
        case_bool_decide; simplify_eq. lia. }
    destruct (existsb _ _); [done|]. pose proof (length_skip_blanks w).
    destruct (skip_blanks w) as [|d s']; [done|].
    destruct (negb (d =? ch ",")%Z); [done|]. destruct (forallb is_sp_tab s'); [done|].
    apply IH. simpl in *. lia.
Qed.
Lemma parse_digest_challenge_returns value proxy : no_panic (parse_digest_challenge value proxy).
Proof.
  unfold parse_digest_challenge. apply no_panic_bind; [apply no_panic_ok_or|]. intros params _.
  apply no_panic_bind.
  { unfold parse_digest_params. case_match; [done|]. apply digest_params_loop_returns. lia. }
  intros map _. apply no_panic_bind; [apply no_panic_ok_or|]. intros realm _.
  apply no_panic_bind; [apply no_panic_ok_or|]. intros nonce _.
  apply no_panic_bind; [by repeat case_match|]. intros stale _.
  repeat (apply no_panic_bind; [apply no_panic_fail_if|intros ? _]). done.
Qed.

(** ** Usable challenges *)
Definition supported (allow_plain_md5 : bool) (c : DigestChallenge) : Prop :=
  (algorithm_is c (lit "AKAv1-MD5") = true ∨ algorithm_is c (lit "AKAv2-MD5") = true ∨
   algorithm_is c (lit "AKAv2-SHA-256") = true ∨
   allow_plain_md5 = true ∧ algorithm_is c (lit "MD5") = true) ∧
  (ch_qop c = None ∨ ch_qop c = Some (lit "auth")) ∧ ch_realm c ≠ [] ∧ ch_nonce c ≠ [].
Definition usable (allow_plain_md5 : bool) (candidate : bool * str) : ims DigestChallenge :=
  challenge ← parse_digest_challenge candidate.2 candidate.1;
  validate_digest_challenge_support allow_plain_md5 challenge.

Lemma usable_supported allow candidate c :
  usable allow candidate = Ok c → supported allow c ∧ ch_proxy c = candidate.1.
Proof.
  unfold usable, validate_digest_challenge_support. intros (c' & Hc' & Hv)%bind_Ok.
  destruct (negb (_ || _ || _ || _)) eqn:Halg in Hv; [done|].
  destruct (negb _) eqn:Hqop in Hv; [done|]. injection Hv as ->.
  apply negb_false_iff in Halg, Hqop. rewrite !orb_true_iff, andb_true_iff in Halg.
  rewrite orb_true_iff, !bool_decide_eq_true in Hqop.
  unfold parse_digest_challenge in Hc'.
  apply bind_Ok in Hc' as (params & _ & Hc'). apply bind_Ok in Hc' as (map & _ & Hc').
  apply bind_Ok in Hc' as (realm & _ & Hc'). apply bind_Ok in Hc' as (nonce & _ & Hc').
  apply bind_Ok in Hc' as (stale & _ & Hc'). apply bind_Ok in Hc' as (? & Hr%fail_if_Ok & Hc').
  apply bind_Ok in Hc' as (? & Hn%fail_if_Ok & Hc'). apply bool_decide_eq_false in Hr, Hn.
  injection Hc' as <-. unfold supported. simpl. tauto.
Qed.
Lemma first_usable_spec allow last_error candidates :
  match first_usable allow last_error candidates with
  | Ok c => ∃ l1 x l2, candidates = l1 ++ x :: l2 ∧ usable allow x = Ok c ∧
      Forall (λ y, ∃ e, usable allow y = Err e) l1
  | Err _ => Forall (λ y, ∃ e, usable allow y = Err e) candidates
  | Panic => False
  end.
Proof.
  revert last_error. induction candidates as [|[proxy value] candidates IH]; intros last_error.
  { cbn. constructor. }
  cbn [first_usable]. change (challenge ← _; _) with (usable allow (proxy, value)).
  destruct (usable allow (proxy, value)) as [c|e|] eqn:Hu.
  - by exists [], (proxy, value), candidates.
  - specialize (IH (Some e)). destruct (first_usable _ _ _) as [c|e'|]; [|by constructor; eauto|done].
    destruct IH as (l1 & x & l2 & -> & Hx & Hl1). exists ((proxy, value) :: l1), x, l2.
    split_and!; [done..|by constructor; eauto].
  - revert Hu. apply no_panic_bind; [apply parse_digest_challenge_returns|]. intros c _.
    unfold validate_digest_challenge_support. by repeat case_match.
Qed.

(** * Properties *)

(** The challenge that is answered.  The selection never panics; it takes the
    first candidate in wire order, WWW fields before Proxy fields, that parses
    strictly and is supported, and fails only when no candidate is; what it takes
    has a supported algorithm and qop, a realm and a nonce, and is marked with the
    kind of its field. *)
Theorem challenge_selection www_values proxy_values allow_plain_md5 :
  let candidates := challenge_candidates www_values proxy_values in
  match select_digest_challenge www_values proxy_values allow_plain_md5 with
  | Ok c => supported allow_plain_md5 c ∧
      ∃ l1 value l2, candidates = l1 ++ (ch_proxy c, value) :: l2 ∧
        usable allow_plain_md5 (ch_proxy c, value) = Ok c ∧
        Forall (λ y, ∃ e, usable allow_plain_md5 y = Err e) l1
  | Err _ => Forall (λ y, ∃ e, usable allow_plain_md5 y = Err e) candidates
  | Panic => False
  end.
Proof.
  intros candidates. unfold select_digest_challenge. fold candidates.
  pose proof (first_usable_spec allow_plain_md5 None candidates) as H.
  destruct (first_usable _ _ _) as [c|e|]; [|done|done].
  destruct H as (l1 & [proxy value] & l2 & -> & Hx & Hl1).
  destruct (usable_supported _ _ _ Hx) as [Hs Hp]. simpl in Hp. subst proxy. split; [done|].
  by exists l1, value, l2.
Qed.

Definition bare (v : str) : Prop := v ≠ [] ∧ Forall (λ c, bare_char c = true) v.
#[export] Instance bare_dec v : Decision (bare v).
Proof. unfold bare. apply _. Defined.
Lemma authorization_params_ok c username digest_uri response cnonce nc :
  bare (ch_algorithm c) → match ch_qop c with Some qop => bare qop ∧ bare nc | None => True end →
  let ps := authorization_params c username digest_uri response cnonce nc in
  Forall param_ok ps ∧ NoDup ps.*1 ∧ length ps ≤ 64.
Proof.
  assert (∀ k v, bool_decide (param_ok (k, Quoted [])) = true → param_ok (k, Quoted v)) as Hq
    by by intros k v (? & ? & _)%bool_decide_eq_true.
  assert (∀ k v, bool_decide (param_ok (k, Quoted [])) = true → bare v → param_ok (k, Bare v)) as Hb
    by by intros k v (? & ? & _)%bool_decide_eq_true.
  intros Halg Hqop ps. subst ps. unfold authorization_params.
  destruct (ch_qop c) as [qop|], (ch_opaque c) as [o|]; split_and!;
    try (cbn; lia); try (apply (bool_decide_unpack _); vm_compute; exact I);
    rewrite ?Forall_app, ?Forall_cons, ?Forall_nil; split_and!;
    first [done | by apply Hq; vm_compute | by apply Hb; [vm_compute|]; tauto].
Qed.

(** The header that proves a request is read back.  The Authorization header
    built for a challenge is its name, the scheme and a parameter list; the strict
    parameter parser of the module accepts that list and returns every parameter
    once, in order, with the text that was written, quotes and backslashes of the
    user name, realm, nonce, URI and opaque value included. *)
Theorem authorization_roundtrip c username digest_uri response cnonce nc :
  let ps := authorization_params c username digest_uri response cnonce nc in
  bare (ch_algorithm c) → match ch_qop c with Some qop => bare qop ∧ bare nc | None => True end →
  Forall (λ p, clean (param_text p.2)) ps → unescaped response → unescaped cnonce →
  (byte_len (render_params ps) ≤ 16384)%Z →
  build_authorization_header c username digest_uri response cnonce nc =
    authorization_header_name c ++ lit ": Digest " ++ render_params ps ∧
  parse_digest_params (render_params ps) = Ok (read_param <$> ps).
Proof.
  intros ps Halg Hqop Hclean Hr Hc Hlen. split; [by apply authorization_header_params|].
  destruct (authorization_params_ok c username digest_uri response cnonce nc Halg Hqop) as (Hok & Hdup & Hn).
  unfold parse_digest_params. rewrite (proj2 (Z.ltb_ge _ _)) by done.
  rewrite clean_existsb by by apply clean_render. cbn [orb].
  rewrite (digest_params_loop_render _ []); try done.
  assert (∀ ps, length ps ≤ length (render_params ps)) as Hlr.
  { clear. induction ps as [|p ps IH]; [done|]. assert (0 < length (render_param p)).
    { destruct p as [k [v|v]]; unfold render_param, quoted_param; simpl; rewrite !length_app; simpl; lia. }
    destruct ps as [|q ps]; [simpl in *; lia|]. cbn [render_params]. rewrite length_app. simpl in *. lia. }
  specialize (Hlr ps). subst ps. lia.
Qed.
Definition sample_challenge : DigestChallenge :=
  mkChallenge (lit "ims.mnc001.mcc001.3gppnetwork.org") (lit "bm9uY2U=") (lit "AKAv1-MD5") (Some (lit "auth"))
    (Some [quote; backslash]) false false.
Lemma authorization_roundtrip_witness :
  let ps := authorization_params sample_challenge (lit "001010000000001@ims") (lit "sip:ims") (lit "0123")
              (lit "abcd") (lit "00000001") in
  bare (lit "AKAv1-MD5") ∧ parse_digest_params (render_params ps) = Ok (read_param <$> ps).
Proof.
  split; [by apply (bool_decide_unpack _)|].
  apply authorization_roundtrip; try by (apply (bool_decide_unpack _); vm_compute; exact I).
Defined.
