(* ===== verification/OutboundOffer.v ===== *)
(** * The outbound offer of a REGISTER

    Models the message side of [connectivity/core/outbound.rs]: rewriting a
    REGISTER so that it offers (or no longer offers) an outbound flow, reading
    option tags, and the NAT observation of the first exchange. *)
From Stdlib Require Import Ascii String ZArith Lia.
From stdpp Require Import prelude.
From S2P Require Import Prelude Text SipFrame RetryAfter Stun RegisterResponse Net RegEvent.

(** ** Option tags *)
Definition has_option (frame : list Z) (header token : str) : bool :=
  let values := header_values frame header
    ++ (if eq_ignore_ascii_case header (lit "Supported") then header_values frame (lit "k") else []) in
  existsb (λ v, eq_ignore_ascii_case (trim v) token) (values ≫= split (ch ",")).
Definition append_option (tokens : list str) (value : str) : list str :=
  let value := trim value in
  if negb (bool_decide (value = [])) && negb (existsb (λ token, eq_ignore_ascii_case token value) tokens)
  then tokens ++ [value] else tokens.

(** ** Rewriting *)
(** The instance, the reg-id and whether outbound is required. *)
Definition OfferParams : Type := str * Z * bool.
Definition request_invalid {A} : ims A := Err (lit "ims_outbound_request_invalid").
Definition contact_invalid {A} : ims A := Err (lit "ims_outbound_contact_invalid").

Definition unfold_line (lines : list str) (line : str) : ims (list str) :=
  if starts_with line (lit " ") || starts_with line [9%Z] then
    match last lines with
    | Some previous => Ok (removelast lines ++ [previous ++ ch " " :: trim line])
    | None => request_invalid
    end
  else Ok (lines ++ [line]).

Definition parameter_key (parameter : str) : str := trim (default [] (head (split (ch "=") parameter))).
(** Whether a parameter of the source Contact stays. *)
Definition keeps_parameter (offered : bool) (parameter : str) : bool :=
  negb (eq_ignore_ascii_case (parameter_key parameter) (lit "reg-id"))
  && negb (offered && eq_ignore_ascii_case (parameter_key parameter) (lit "+sip.instance")).
Definition push_parameter (contact parameter : str) : str := contact ++ ch ";" :: parameter.
Definition rewrite_contact (offer : option OfferParams) (value : str) : ims str :=
  if str_eqb (trim value) (lit "*") then Err (lit "ims_outbound_wildcard_unregister_forbidden")
  else if negb (length (split_sip_list value) =? 1) then contact_invalid
  else
    end_ ← ok_or (lit "ims_outbound_contact_invalid")
      (match name_addr_range value with
       | Some (_, end_) => Some (end_ + 1)
       | None => if bool_decide (offer = None)
                 then Some (default (length value) (find_char (Z.eqb (ch ";")) value)) else None
       end);
    let kept := filter (λ p, keeps_parameter (bool_decide (is_Some offer)) p = true)
                  (drop 1 (split_sip_parameters (drop end_ value))) in
    let contact := foldl push_parameter (take end_ value) kept in
    Ok (match offer with
        | Some (instance, reg_id, _) =>
          contact ++ lit ";+sip.instance=" ++ [quote] ++ lit "<" ++ instance ++ lit ">" ++ [quote]
            ++ lit ";reg-id=" ++ fmt_dec reg_id
        | None => contact
        end).

Record Rewrite := mkRewrite {
  rw_lines : list str;
  rw_contacts : nat;
  rw_supported : list str;
  rw_require : list str;
}.
(** The tokens of a list field that are kept. *)
Definition add_tokens (offered : bool) (tokens : list str) (value : str) : list str :=
  foldl (λ tokens token,
    if offered || negb (eq_ignore_ascii_case token (lit "outbound"))
    then append_option tokens token else tokens)
    tokens (trim <$> split (ch ",") value).
Definition rewrite_line (offer : option OfferParams) (st : Rewrite) (line : str) : ims Rewrite :=
  let offered := bool_decide (is_Some offer) in
  let '(mkRewrite lines contacts supported require) := st in
  match split_once (ch ":") line with
  | None => Ok (mkRewrite (lines ++ [line]) contacts supported require)
  | Some (name, value) =>
    let name := trim name in
    let named s := eq_ignore_ascii_case name s in
    if named (lit "Contact") || named (lit "m") then
      contact ← rewrite_contact offer value;
      Ok (mkRewrite (lines ++ [name ++ ch ":" :: contact]) (contacts + 1) supported require)
    else if named (lit "Require")
    then Ok (mkRewrite lines contacts supported (add_tokens offered require value))
    else if named (lit "Supported") || named (lit "k")
    then Ok (mkRewrite lines contacts (add_tokens offered supported value) require)
    else Ok (mkRewrite (lines ++ [line]) contacts supported require)
  end.
(** The lines of the result, once all are read. *)
Definition rewritten_lines (offer : option OfferParams) (st : Rewrite) : list str :=
  let '(mkRewrite lines _ supported require) := st in
  let supported := match offer with
                   | Some _ => append_option (append_option supported (lit "path")) (lit "outbound")
                   | None => supported
                   end in
  let require := match offer with
                 | Some (_, _, true) => append_option require (lit "outbound")
                 | _ => require
                 end in
  lines
  ++ (if bool_decide (supported = []) then [] else [lit "Supported: " ++ join (lit ", ") supported])
  ++ (if bool_decide (require = []) then [] else [lit "Require: " ++ join (lit ", ") require]).
Definition split_head (text : str) : option (str * str) :=
  i ← find_sub (crlf ++ crlf) text; Some (take i text, drop (i + 4) text).
Definition rewrite_register (frame : list Z) (offer : option OfferParams) : ims (list Z) :=
  text ← ok_or (lit "ims_outbound_request_invalid") (from_utf8 frame);
  '(head, body) ← ok_or (lit "ims_outbound_request_invalid") (split_head text);
  unfolded ← foldM unfold_line [] (split_crlf head);
  st ← foldM (rewrite_line offer) (mkRewrite [] 0 [] []) unfolded;
  if negb (rw_contacts st =? 1) then contact_invalid
  else Ok (utf8_encode (join crlf (rewritten_lines offer st) ++ crlf ++ crlf ++ body)).

(** [char::is_control] *)
Definition is_control (c : Z) : bool := in_range 0 31 c || in_range 127 159 c.
Definition instance_forbidden (c : Z) : bool :=
  is_control c || existsb (Z.eqb c) [quote; backslash; ch "<"; ch ">"].
Definition offer_register (frame : list Z) (instance : str) (reg_id : Z) (required : bool) : ims (list Z) :=
  if bool_decide (instance = []) || existsb instance_forbidden instance || (reg_id =? 0)%Z
  then contact_invalid
  else rewrite_register frame (Some (instance, reg_id, required)).
Definition legacy_register (frame : list Z) : ims (list Z) := rewrite_register frame None.

(** ** The NAT observation *)
Definition via (frame : list Z) : option str :=
  match header_value frame (lit "Via") with
  | Some v => Some v
  | None => header_value frame (lit "v")
  end.
Definition via_parameter (received name : str) : option str :=
  let values := omap (λ part,
    '(key, value) ← split_once (ch "=") (trim part);
    if eq_ignore_ascii_case (trim key) name then Some (trim value) else None)
    (drop 1 (split (ch ";") received)) in
  match values with [value] => Some value | _ => None end.
Definition sent_by (sent : str) : option SocketAddr :=
  sent_by ← head (split (ch ";") sent);
  addr ← split_whitespace sent_by !! 1;
  parse_socket_addr addr.
Definition is_bracket (c : Z) : bool := ((c =? ch "[") || (c =? ch "]"))%Z.
Definition initial_response_confirms_no_nat (request response : list Z) : bool :=
  match via request, via response with
  | Some sent, Some received =>
    match sent_by sent with
    | Some local =>
      bool_decide ((addr ← via_parameter received (lit "received"); parse_ip_addr (trim_matches is_bracket addr))
                   = Some (addr_ip local))
      && bool_decide ((port ← via_parameter received (lit "rport"); parse_unsigned u16_max port)
                      = Some (addr_port local))
    | None => false
    end
  | _, _ => false
  end.

(** * Lemmas *)

(** ** Taking a message apart *)
Definition char_ok (c : Z) : Prop := is_ascii c ∧ c ≠ CR ∧ c ≠ LF.
Lemma render_lines_join ls : ls ≠ [] → render_lines ls = join crlf ls ++ crlf.
Proof.
  induction ls as [|l ls IH]; [done|]. intros _. rewrite render_lines_cons. destruct ls as [|m ls]; [done|].
  rewrite join_cons by done. rewrite IH by done. by rewrite <-!app_assoc.
Qed.
Lemma utf8_encode_message ls text : Forall line_ok ls →
  utf8_encode (message ls text) = message ls (utf8_encode text).
Proof.
  intros Hls. unfold message, utf8_encode. rewrite !bind_app.
  change (render_lines ls ≫= utf8_char) with (utf8_encode (render_lines ls)).
  by rewrite utf8_encode_ascii by by apply render_ascii.
Qed.
Lemma from_utf8_message ls text : Forall line_ok ls → Forall is_char text →
  from_utf8 (message ls (utf8_encode text)) = Some (message ls text).
Proof.
  intros Hls Ht. rewrite <-utf8_encode_message by done. apply utf8_roundtrip. unfold message.
  rewrite !Forall_app. split_and!; [by apply ascii_is_char, render_ascii| |done].
  apply ascii_is_char. by apply (bool_decide_unpack _).
Qed.
Lemma split_head_message ls text : ls ≠ [] → Forall line_ok ls →
  split_head (message ls text) = Some (join crlf ls, text).
Proof.
  intros Hne Hls. unfold split_head, message. rewrite find_term by done. cbn [mbind option_bind].
  rewrite render_lines_join by done. rewrite length_app. change (length crlf) with 2.
  replace (length (join crlf ls) + 2 - 2) with (length (join crlf ls)) by lia.
  rewrite <-!app_assoc, take_app_length, drop_app_ge by lia.
  replace (length (join crlf ls) + 4 - length (join crlf ls)) with 4 by lia. done.
Qed.
Lemma split_crlf_line l s : Forall (λ c, c ≠ CR) l → split_crlf (l ++ crlf ++ s) = l :: split_crlf s.
Proof.
  induction 1 as [|c l Hc Hl IH]; [done|].
  assert (∃ d t, l ++ crlf ++ s = d :: t) as (d & t & Hd) by (destruct l; simpl; by do 2 eexists).
  change ((c :: l) ++ crlf ++ s) with (c :: l ++ crlf ++ s). rewrite Hd in *. cbn [split_crlf].
  rewrite (proj2 (Z.eqb_neq c CR)) by done. cbn [andb].
  change (match t with | [] => [[d]] | d0 :: s2 => if (d =? CR)%Z && (d0 =? LF)%Z then [] :: split_crlf s2
    else match split_crlf t with | [] => [[d]] | p :: ps => (d :: p) :: ps end end) with (split_crlf (d :: t)).
  by rewrite IH.
Qed.
Lemma split_crlf_end l : Forall (λ c, c ≠ CR) l → split_crlf l = [l].
Proof.
  induction 1 as [|c l Hc Hl IH]; [done|]. destruct l as [|d t]; [done|]. cbn [split_crlf].
  rewrite (proj2 (Z.eqb_neq c CR)) by done. cbn [andb].
  change (match t with | [] => [[d]] | d0 :: s2 => if (d =? CR)%Z && (d0 =? LF)%Z then [] :: split_crlf s2
    else match split_crlf t with | [] => [[d]] | p :: ps => (d :: p) :: ps end end) with (split_crlf (d :: t)).
  by rewrite IH.
Qed.
Lemma split_crlf_join ls : ls ≠ [] → Forall line_ok ls → split_crlf (join crlf ls) = ls.
Proof.
  intros Hne Hls. induction Hls as [|l ls Hl Hls IH]; [done|]. destruct ls as [|m ls].
  - by apply split_crlf_end, line_ok_no_cr.
  - rewrite join_cons, split_crlf_line by (done || by apply line_ok_no_cr). by rewrite IH.
Qed.
Lemma unfold_lines ls acc : Forall unfolded ls → foldM unfold_line acc ls = Ok (acc ++ ls).
Proof.
  intros Hls. revert acc. induction Hls as [|l ls Hl _ IH]; intros acc; [by rewrite app_nil_r|].
  cbn [foldM]. assert (unfold_line acc l = Ok (acc ++ [l])) as ->.
  { unfold unfold_line. by rewrite unfolded_start. }
  cbn [mbind res_bind]. by rewrite IH, <-app_assoc.
Qed.
Lemma rewrite_message ls text offer out :
  ls ≠ [] → Forall line_ok ls → Forall unfolded ls → Forall is_char text →
  rewrite_register (message ls (utf8_encode text)) offer = Ok out →
  ∃ st, foldM (rewrite_line offer) (mkRewrite [] 0 [] []) ls = Ok st ∧ rw_contacts st = 1 ∧
    out = utf8_encode (join crlf (rewritten_lines offer st) ++ crlf ++ crlf ++ text).
Proof.
  intros Hne Hls Hun Ht. unfold rewrite_register. rewrite from_utf8_message by done. cbn [ok_or mbind res_bind].
  rewrite split_head_message by done. cbn [ok_or mbind res_bind].
  rewrite split_crlf_join, unfold_lines by done. cbn [app mbind res_bind].
  intros (st & Hst & Hout)%bind_Ok. exists st. destruct (Nat.eqb_spec (rw_contacts st) 1) as [Hc|]; [|done].
  simpl in Hout. by injection Hout as <-.
Qed.

(** ** Option tags *)
Definition mentions (tokens : list str) (target : str) : bool :=
  existsb (λ t, eq_ignore_ascii_case t target) tokens.
Lemma mentions_app k l target : mentions (k ++ l) target = mentions k target || mentions l target.
Proof. apply existsb_app. Qed.
Lemma eq_ignore_nil target : target ≠ [] → eq_ignore_ascii_case [] target = false.
Proof. intros Hne. apply not_true_iff_false. rewrite eq_ignore_ascii_case_eq. by destruct target. Qed.
Lemma mentions_append tokens v target : target ≠ [] →
  mentions (append_option tokens v) target = mentions tokens target || eq_ignore_ascii_case (trim v) target.
Proof.
  intros Hne. unfold append_option. case_bool_decide as Hv; cbn [negb andb].
  { by rewrite Hv, eq_ignore_nil, orb_false_r. }
  destruct (existsb _ tokens) eqn:Hin; cbn [negb].
  - apply existsb_exists in Hin as (t & Hin & Heq). rewrite <-(eq_ignore_ascii_case_cong _ _ target Heq).
    destruct (eq_ignore_ascii_case t target) eqn:Ht; [|by rewrite orb_false_r]. rewrite orb_true_r.
    apply existsb_exists. by exists t.
  - rewrite mentions_app. simpl. by rewrite orb_false_r.
Qed.
Lemma mentions_add_tokens tokens value target : target ≠ [] →
  mentions (add_tokens true tokens value) target = mentions tokens target || mentions (trim <$> split (ch ",") value) target.
Proof.
  intros Hne. unfold add_tokens. generalize (split (ch ",") value) as ps. intros ps. revert tokens. induction ps as [|p ps IH]; intros tokens; simpl; [by rewrite orb_false_r|].
  by rewrite IH, mentions_append, trim_idemp, orb_assoc.
Qed.
Lemma legacy_add_tokens tokens value :
  mentions (add_tokens false tokens value) (lit "outbound") = mentions tokens (lit "outbound").
Proof.
  unfold add_tokens. generalize (split (ch ",") value) as ps. intros ps. revert tokens.
  induction ps as [|p ps IH]; intros tokens; [done|]. rewrite fmap_cons. cbn [foldl orb]. rewrite IH.
  destruct (eq_ignore_ascii_case (trim p) (lit "outbound")) eqn:Hp; [done|]. cbn [negb].
  by rewrite mentions_append, trim_idemp, Hp, orb_false_r.
Qed.

(** A token of the lists that are written. *)
Definition token_ok (t : str) : Prop := t ≠ [] ∧ trim t = t ∧ Forall (λ c, char_ok c ∧ (c =? ch ",")%Z = false) t.
Lemma split_Forall (P : Z → Prop) c s : Forall P s → Forall (Forall (λ d, P d ∧ (d =? c)%Z = false)) (split c s).
Proof.
  induction 1 as [|d s Hd _ IH]; simpl; [by repeat constructor|]. destruct (d =? c)%Z eqn:Hc; [by constructor|].
  destruct (split c s) as [|p ps]; [by repeat constructor|]. apply Forall_cons in IH as [Hp Hps].
  constructor; [by constructor|done].
Qed.
Lemma append_option_ok tokens v : Forall token_ok tokens → Forall (λ c, char_ok c ∧ (c =? ch ",")%Z = false) v →
  Forall token_ok (append_option tokens v).
Proof.
  intros Ht Hv. unfold append_option. case_bool_decide as Hne; [done|]. destruct (existsb _ _); [done|].
  apply Forall_app. split; [done|]. repeat constructor; [done|apply trim_idemp|by apply Forall_trim].
Qed.
Lemma add_tokens_ok offered tokens value : Forall token_ok tokens → Forall char_ok value →
  Forall token_ok (add_tokens offered tokens value).
Proof.
  intros Ht Hv%(split_Forall _ (ch ",")). unfold add_tokens. revert tokens Ht.
  induction Hv as [|p ps Hp _ IH]; intros tokens Ht; [done|]. rewrite fmap_cons. cbn [foldl]. apply IH.
  destruct (_ || _); [|done]. by apply append_option_ok, Forall_trim.
Qed.
(** The written list reads back. *)
Lemma split_join_tokens tokens : tokens ≠ [] → Forall token_ok tokens →
  trim <$> split (ch ",") (join (lit ", ") tokens) = tokens.
Proof.
  intros Hne Hok. induction Hok as [|t tokens (_ & Htrim & Ht) Hok IH]; [done|].
  assert (Forall (λ c, (c =? ch ",")%Z = false) t) as Hc by (eapply Forall_impl; [exact Ht|by intros c [_ ?]]).
  destruct tokens as [|u tokens].
  { unfold join. simpl foldl. rewrite split_plain by done. simpl. by rewrite Htrim. }
  rewrite join_cons by done. change (lit ", " ++ ?s) with (ch "," :: ch " " :: s). rewrite split_sep by done.
  rewrite fmap_cons, Htrim. f_equal. rewrite <-IH at 2 by done.
  change (ch " " :: ?s) with ([ch " "] ++ s).
  cbn [app split]. change (ch " " =? ch ",")%Z with false. cbv iota.
  destruct (split (ch ",") (join (lit ", ") (u :: tokens))) as [|p ps] eqn:Hs; [by destruct (split_not_nil (ch ",") (join (lit ", ") (u :: tokens)))|].
  rewrite !fmap_cons. f_equal.
Qed.
Lemma mentions_written tokens target : tokens ≠ [] → Forall token_ok tokens →
  existsb (λ v, eq_ignore_ascii_case (trim v) target) (split (ch ",") (trim (join (lit ", ") tokens))) = mentions tokens target.
Proof.
  intros Hne Hok. unfold mentions. rewrite <-(split_join_tokens tokens Hne Hok) at 2.
  rewrite <-trimmed_split by done. induction (split (ch ",") (trim (join (lit ", ") tokens))) as [|p ps IH]; [done|].
  simpl. by rewrite IH.
Qed.

(** ** One line *)
Definition contact_name (n : str) : bool := eq_ignore_ascii_case n (lit "Contact") || eq_ignore_ascii_case n (lit "m").
Definition supported_name (n : str) : bool := eq_ignore_ascii_case n (lit "Supported") || eq_ignore_ascii_case n (lit "k").
Definition require_name (n : str) : bool := eq_ignore_ascii_case n (lit "Require").
(** The fields of that name, trimmed. *)
Definition fields (n : str) (ls : list str) : list str := omap (header_field n) ls.
Lemma fields_app n k l : fields n (k ++ l) = fields n k ++ fields n l.
Proof. apply omap_app. Qed.
Definition good_line (l : str) : Prop := line_ok l ∧ unfolded l.
Definition offer_ok (offer : option OfferParams) : Prop :=
  match offer with
  | Some (instance, reg_id, _) => Forall (λ c, char_ok c) instance ∧ (0 ≤ reg_id)%Z
  | None => True
  end.

Lemma join_Forall_inv (P : Z → Prop) sep l : Forall P (join sep l) → Forall (Forall P) l.
Proof.
  induction l as [|x l IH]; [constructor|]. destruct l as [|y l]; [intros H; by constructor|].
  rewrite join_cons by done. rewrite !Forall_app. intros (Hx & _ & Hl). constructor; [done|by apply IH].
Qed.
Lemma fmt_dec_ok n : (0 ≤ n)%Z → Forall char_ok (fmt_dec n).
Proof.
  intros Hn. eapply Forall_impl; [by apply fmt_dec_digits|]. intros c Hc%in_range_true. cbv beta in Hc.
  change (ch "0") with 48%Z in Hc. change (ch "9") with 57%Z in Hc. unfold char_ok, is_ascii, CR, LF. lia.
Qed.
Lemma rewrite_contact_ok offer value contact :
  offer_ok offer → Forall char_ok value → rewrite_contact offer value = Ok contact → Forall char_ok contact.
Proof.
  intros Ho Hv. unfold rewrite_contact. destruct (str_eqb _ _); [done|]. destruct (negb _); [done|].
  intros (e & _ & Hc)%bind_Ok. set (kept := filter _ _) in Hc.
  assert (Forall (Forall char_ok) kept) as Hk.
  { apply Forall_forall. intros p [_ Hp]%list_elem_of_filter. revert p Hp. apply Forall_forall, Forall_drop.
    apply (join_Forall_inv _ [ch ";"]). unfold split_sip_parameters, split_sip_delimited.
    rewrite split_from_join. by apply Forall_drop. }
  assert (Forall char_ok (foldl push_parameter (take e value) kept)) as Hf.
  { assert (Forall char_ok (take e value)) as Ht by by apply Forall_take.
    revert Ht. generalize (take e value). clear Hc. induction Hk as [|p ps Hp _ IH]; intros acc Ht; [done|]. simpl.
    apply IH. unfold push_parameter. rewrite Forall_app. split; [done|]. constructor; [|done].
    by apply (bool_decide_unpack _). }
  destruct offer as [[[instance reg_id] required]|]; apply Ok_inj in Hc as <-; [|done].
  destruct Ho as [Hi Hr]. rewrite !Forall_app. split_and!; try done; try (by apply (bool_decide_unpack _)).
  by apply fmt_dec_ok.
Qed.
(** What one line adds to the result. *)
Definition is_offered (offer : option OfferParams) : bool := bool_decide (is_Some offer).
Definition list_name (n : str) : bool := supported_name n || require_name n.
Record lines_effect (offer : option OfferParams) (st st' : Rewrite) (ls new : list str) : Prop := {
  le_lines : rw_lines st' = rw_lines st ++ new;
  le_good : Forall good_line new;
  le_lists : ∀ n, list_name n = true → fields n new = [];
  le_others : ∀ n, contact_name n || list_name n = false → fields n new = fields n ls;
  le_contacts : rw_contacts st' = rw_contacts st + length (fields (lit "Contact") new ++ fields (lit "m") new);
  le_supported : Forall token_ok (rw_supported st) → Forall token_ok (rw_supported st');
  le_require : Forall token_ok (rw_require st) → Forall token_ok (rw_require st');
  le_required : is_offered offer = true → ∀ target, target ≠ [] → mentions (rw_require st') target =
    mentions (rw_require st) target
    || existsb (λ v, mentions (trim <$> split (ch ",") v) target) (fields (lit "Require") ls);
  le_legacy : is_offered offer = false →
    mentions (rw_supported st') (lit "outbound") = mentions (rw_supported st) (lit "outbound") ∧
    mentions (rw_require st') (lit "outbound") = mentions (rw_require st) (lit "outbound");
}.
Lemma fields_one n l : fields n [l] = option_list (header_field n l).
Proof. unfold fields. simpl. by destruct (header_field n l). Qed.
(** Names that are equal up to case are in the same class. *)
Lemma name_class s n : eq_ignore_ascii_case s n = true →
  contact_name s = contact_name n ∧ list_name s = list_name n.
Proof.
  intros Heq. unfold contact_name, list_name, supported_name, require_name.
  by rewrite !(eq_ignore_ascii_case_cong _ _ _ Heq).
Qed.
Lemma class_exclusive n : contact_name n = true → list_name n = false.
Proof.
  unfold contact_name. intros [Hn|Hn]%orb_true_iff; unfold list_name, supported_name, require_name;
    by rewrite !(eq_ignore_ascii_case_cong _ _ _ Hn).
Qed.
Lemma line_kept offer lines contacts supported require line :
  good_line line → (∀ n, contact_name n || list_name n = true → header_field n line = None) →
  lines_effect offer (mkRewrite lines contacts supported require)
    (mkRewrite (lines ++ [line]) contacts supported require) [line] [line].
Proof.
  intros Hg Hnone. split; try done; cbn [rw_lines rw_contacts rw_supported rw_require].
  - by apply Forall_singleton.
  - intros n Hn. rewrite fields_one, Hnone; [done|]. by rewrite Hn, orb_true_r.
  - rewrite !fields_one, !Hnone by done. simpl. lia.
  - intros _ target _. rewrite fields_one, Hnone by done. by rewrite orb_false_r.
Qed.
Lemma line_contact offer lines contacts supported require line name value contact :
  offer_ok offer → good_line line → split_once (ch ":") line = Some (name, value) →
  contact_name (trim name) = true → rewrite_contact offer value = Ok contact →
  lines_effect offer (mkRewrite lines contacts supported require)
    (mkRewrite (lines ++ [trim name ++ ch ":" :: contact]) (contacts + 1) supported require)
    [line] [trim name ++ ch ":" :: contact].
Proof.
  intros Ho [[_ Hok] Hun] Hsplit Hcn Hc. pose proof (split_once_inv _ _ _ _ Hsplit) as [Hline Hcolon].
  assert (∀ n, header_field n (trim name ++ ch ":" :: contact) =
               if eq_ignore_ascii_case (trim name) n then Some (trim contact) else None) as Hf.
  { intros n. rewrite header_field_split, split_once_app by by apply Forall_trim. by rewrite trim_idemp. }
  assert (∀ n, contact_name n = false → eq_ignore_ascii_case (trim name) n = false) as Hno.
  { intros n Hn. apply not_true_iff_false. intros [Heq _]%name_class. congruence. }
  split; try done; cbn [rw_lines rw_contacts rw_supported rw_require].
  - constructor; [|constructor]. rewrite Hline in Hok. apply Forall_app in Hok as [Hname Hvalue].
    apply Forall_cons in Hvalue as [_ Hvalue]. split; [split|].
    + by destruct (trim name).
    + apply Forall_app. split; [by apply Forall_trim|]. constructor; [by apply (bool_decide_unpack _)|].
      by eapply rewrite_contact_ok.
    + unfold unfolded. destruct (trim name) as [|c t] eqn:Ht; [done|]. simpl.
      apply orb_false_iff. split; apply Z.eqb_neq; intros ->;
        apply orb_true_iff in Hcn as [Hcn%eq_ignore_ascii_case_eq|Hcn%eq_ignore_ascii_case_eq]; by vm_compute in Hcn.
  - intros n Hn. rewrite fields_one, Hf, Hno; [done|]. apply not_true_iff_false. intros Hn'%class_exclusive. congruence.
  - intros n [Hn _]%orb_false_iff. rewrite !fields_one, Hf, header_field_split, Hsplit, !Hno by done. done.
  - rewrite !fields_one, !Hf. destruct (eq_ignore_ascii_case (trim name) (lit "Contact")) eqn:H1.
    + by rewrite (eq_ignore_ascii_case_cong _ _ _ H1).
    + unfold contact_name in Hcn. rewrite H1 in Hcn. cbn [orb] in Hcn. by rewrite Hcn.
  - intros _ target _. rewrite fields_one, header_field_split, Hsplit, Hno by done. by rewrite orb_false_r.
Qed.
Lemma rewrite_line_spec offer st line st' :
  offer_ok offer → good_line line → rewrite_line offer st line = Ok st' →
  ∃ new, lines_effect offer st st' [line] new.
Proof.
  intros Ho Hg. destruct st as [lines contacts supported require]. unfold rewrite_line.
  destruct (split_once (ch ":") line) as [[name value]|] eqn:Hsplit.
  2: { intros <-%Ok_inj. exists [line]. apply line_kept; [done|]. intros n _. by rewrite header_field_split, Hsplit. }
  assert (∀ n, header_field n line = if eq_ignore_ascii_case (trim name) n then Some (trim value) else None) as Hf.
  { intros n. by rewrite header_field_split, Hsplit. }
  change (eq_ignore_ascii_case (trim name) (lit "Contact") || eq_ignore_ascii_case (trim name) (lit "m"))
    with (contact_name (trim name)).
  change (eq_ignore_ascii_case (trim name) (lit "Supported") || eq_ignore_ascii_case (trim name) (lit "k"))
    with (supported_name (trim name)).
  change (eq_ignore_ascii_case (trim name) (lit "Require")) with (require_name (trim name)).
  destruct (contact_name (trim name)) eqn:Hcn.
  { intros (contact & Hc & <-%Ok_inj)%bind_Ok. eexists. by eapply line_contact. }
  assert (Forall char_ok value) as Hv.
  { apply split_once_inv in Hsplit as [-> _]. destruct Hg as [[_ Hok] _]. apply Forall_app in Hok as [_ Hok].
    by apply Forall_cons in Hok as [_ Hok]. }
  assert (list_name (trim name) = true → ∀ n, contact_name n || list_name n = false → fields n [line] = []) as Hgone.
  { intros Hl n [_ Hn]%orb_false_iff. rewrite fields_one, Hf.
    replace (eq_ignore_ascii_case (trim name) n) with false; [done|]. symmetry. apply not_true_iff_false.
    intros [_ Heq]%name_class. congruence. }
  fold (is_offered offer). destruct (require_name (trim name)) eqn:Hr.
  { intros <-%Ok_inj. exists []. unfold list_name in Hgone. rewrite Hr, orb_true_r in Hgone.
    split; cbn [rw_lines rw_contacts rw_supported rw_require]; try done; try (by rewrite app_nil_r); try lia.
    - intros n Hn. by rewrite Hgone.
    - intros Ht. by apply add_tokens_ok.
    - intros -> target Hne. rewrite fields_one, Hf. unfold require_name in Hr. rewrite Hr. simpl.
      by rewrite mentions_add_tokens, trimmed_split, orb_false_r.
    - intros ->. split; [done|]. apply legacy_add_tokens. }
  destruct (supported_name (trim name)) eqn:Hs; intros <-%Ok_inj.
  - exists []. unfold list_name in Hgone. rewrite Hs in Hgone. cbn [orb] in Hgone.
    split; cbn [rw_lines rw_contacts rw_supported rw_require]; try done; try (by rewrite app_nil_r); try lia.
    + intros n Hn. by rewrite Hgone.
    + intros Ht. by apply add_tokens_ok.
    + intros _ target _. rewrite fields_one, Hf. unfold require_name in Hr. rewrite Hr. simpl. by rewrite orb_false_r.
    + intros ->. split; [|done]. apply legacy_add_tokens.
  - exists [line]. apply line_kept; [done|]. intros n Hn. rewrite Hf.
    replace (eq_ignore_ascii_case (trim name) n) with false; [done|]. symmetry. apply not_true_iff_false.
    intros [H1 H2]%name_class. rewrite <-H1, <-H2, Hcn in Hn. unfold list_name in Hn. by rewrite Hs, Hr in Hn.
Qed.

(** ** The whole request *)
Lemma lines_effect_nil offer st : lines_effect offer st st [] [].
Proof.
  split; try done; [by rewrite app_nil_r|]. intros _ target _. by rewrite orb_false_r.
Qed.
Lemma lines_effect_app offer st1 st2 st3 ls1 ls2 new1 new2 :
  lines_effect offer st1 st2 ls1 new1 → lines_effect offer st2 st3 ls2 new2 →
  lines_effect offer st1 st3 (ls1 ++ ls2) (new1 ++ new2).
Proof.
  intros [L1 G1 T1 O1 C1 S1 R1 Q1 E1] [L2 G2 T2 O2 C2 S2 R2 Q2 E2]. split.
  - by rewrite L2, L1, app_assoc.
  - by apply Forall_app.
  - intros n Hn. by rewrite fields_app, T1, T2.
  - intros n Hn. by rewrite !fields_app, O1, O2.
  - rewrite C2, C1, !fields_app, !length_app. lia.
  - auto.
  - auto.
  - intros Ho target Ht. rewrite (Q2 Ho _ Ht), (Q1 Ho _ Ht), fields_app, existsb_app. by rewrite orb_assoc.
  - intros Ho. destruct (E1 Ho), (E2 Ho). split; congruence.
Qed.
Lemma rewrite_lines_spec offer ls st st' :
  offer_ok offer → Forall good_line ls → foldM (rewrite_line offer) st ls = Ok st' →
  ∃ new, lines_effect offer st st' ls new.
Proof.
  intros Ho Hls. revert st. induction Hls as [|l ls Hl _ IH]; intros st.
  { intros <-%Ok_inj. exists []. apply lines_effect_nil. }
  cbn [foldM]. intros (st1 & H1 & H2)%bind_Ok. apply rewrite_line_spec in H1 as [new1 H1]; [|done..].
  destruct (IH st1 H2) as [new2 H3]. exists (new1 ++ new2). change (l :: ls) with ([l] ++ ls).
  by eapply lines_effect_app.
Qed.
Lemma existsb_bind {A B} (p : B → bool) (g : A → list B) l : existsb p (l ≫= g) = existsb (λ x, existsb p (g x)) l.
Proof. induction l as [|x l IH]; [done|]. change ((x :: l) ≫= g) with (g x ++ (l ≫= g)). by rewrite existsb_app, IH. Qed.
Lemma mentions_trimmed ps target :
  existsb (λ v, eq_ignore_ascii_case (trim v) target) ps = mentions (trim <$> ps) target.
Proof. induction ps as [|p ps IH]; [done|]. simpl. by rewrite IH. Qed.
Lemma header_values_good ls payload n : ls ≠ [] → Forall good_line ls →
  header_values (message ls payload) n = fields n ls.
Proof.
  intros Hne Hg. apply header_values_message; [done|..];
    (eapply Forall_impl; [exact Hg|]; by intros l [? ?]).
Qed.
Lemma has_option_message ls payload header token : ls ≠ [] → Forall good_line ls →
  has_option (message ls payload) header token =
  existsb (λ v, mentions (trim <$> split (ch ",") v) token)
    (fields header ls ++ if eq_ignore_ascii_case header (lit "Supported") then fields (lit "k") ls else []).
Proof.
  intros Hne Hg. unfold has_option. rewrite !header_values_good by done.
  generalize (fields header ls ++ if eq_ignore_ascii_case header (lit "Supported") then fields (lit "k") ls else []).
  intros vs. rewrite existsb_bind. induction vs as [|v vs IH]; [done|]. simpl. by rewrite IH, mentions_trimmed.
Qed.
(** A list field that is written. *)
Definition written_list (name : str) (tokens : list str) : list str :=
  if bool_decide (tokens = []) then [] else [name ++ lit ": " ++ join (lit ", ") tokens].
Lemma fields_written name tokens n : Forall (λ c, (ch ":" =? c)%Z = false) name → Forall token_ok tokens → trim name = name →
  existsb (λ v, mentions (trim <$> split (ch ",") v) n) (fields name (written_list name tokens)) = mentions tokens n ∧
  ∀ m, eq_ignore_ascii_case name m = false → fields m (written_list name tokens) = [].
Proof.
  intros Hname Hok Htrim. unfold written_list. case_bool_decide as Hne; [by subst|].
  assert (∀ m, header_field m (name ++ lit ": " ++ join (lit ", ") tokens) =
    if eq_ignore_ascii_case name m then Some (trim (join (lit ", ") tokens)) else None) as Hf.
  { intros m. change (lit ": " ++ ?s) with (ch ":" :: ch " " :: s).
    rewrite header_field_split, split_once_app by done. by rewrite Htrim, trim_space. }
  split.
  - rewrite fields_one, Hf, eq_ignore_ascii_case_refl. simpl. rewrite orb_false_r, <-mentions_trimmed.
    by apply mentions_written.
  - intros m Hm. by rewrite fields_one, Hf, Hm.
Qed.
Lemma written_list_good name tokens : Forall char_ok name → name ≠ [] → unfolded name → Forall token_ok tokens →
  Forall good_line (written_list name tokens).
Proof.
  intros Hname Hne Hun Hok. unfold written_list. case_bool_decide; [constructor|]. apply Forall_singleton.
  split; [split|].
  - by destruct name.
  - rewrite !Forall_app. split_and!; [done|by apply (bool_decide_unpack _)|].
    apply join_Forall; [by apply (bool_decide_unpack _)|]. eapply Forall_impl; [exact Hok|].
    intros t (_ & _ & Ht). eapply Forall_impl; [exact Ht|]. by intros c [? _].
  - by destruct name.
Qed.

Definition final_supported (offer : option OfferParams) (st : Rewrite) : list str :=
  match offer with
  | Some _ => append_option (append_option (rw_supported st) (lit "path")) (lit "outbound")
  | None => rw_supported st
  end.
Definition final_require (offer : option OfferParams) (st : Rewrite) : list str :=
  match offer with
  | Some (_, _, true) => append_option (rw_require st) (lit "outbound")
  | _ => rw_require st
  end.
Lemma rewritten_lines_eq offer st : rewritten_lines offer st =
  rw_lines st ++ written_list (lit "Supported") (final_supported offer st)
              ++ written_list (lit "Require") (final_require offer st).
Proof. by destruct st. Qed.
Lemma final_lists_ok offer st : Forall token_ok (rw_supported st) → Forall token_ok (rw_require st) →
  Forall token_ok (final_supported offer st) ∧ Forall token_ok (final_require offer st).
Proof.
  intros Hs Hr. unfold final_supported, final_require.
  assert (∀ tokens s, Forall token_ok tokens → Forall (λ c, char_ok c ∧ (c =? ch ",")%Z = false) s →
    Forall token_ok (append_option tokens s)) as Ha by (intros; by apply append_option_ok).
  destruct offer as [[[instance reg_id] required]|]; [|done].
  destruct required; split; repeat (apply Ha; [|by apply (bool_decide_unpack _)]); done.
Qed.
(** The fields of a rewritten request. *)
Lemma rewritten_fields offer st st0 ls new :
  st0 = mkRewrite [] 0 [] [] → lines_effect offer st0 st ls new → rw_contacts st = 1 →
  let ls' := rewritten_lines offer st in
  ls' ≠ [] ∧ Forall good_line ls' ∧
  length (fields (lit "Contact") ls' ++ fields (lit "m") ls') = 1 ∧
  (∀ n, contact_name n || list_name n = false → fields n ls' = fields n ls) ∧
  (∀ payload token, has_option (message ls' payload) (lit "Supported") token = mentions (final_supported offer st) token) ∧
  (∀ payload token, has_option (message ls' payload) (lit "Require") token = mentions (final_require offer st) token).
Proof.
  intros -> [L G T O C S R _ _] Hone ls'. subst ls'. rewrite rewritten_lines_eq, L. cbn [rw_lines app].
  destruct (final_lists_ok offer st) as [Hs Hr]; [by apply S|by apply R|]. clear S R.
  assert (∀ n, existsb (λ v, mentions (trim <$> split (ch ",") v) n)
      (fields (lit "Supported") (written_list (lit "Supported") (final_supported offer st))) = mentions (final_supported offer st) n) as Hsv.
  { intros n. apply fields_written; [by apply (bool_decide_unpack _)|done|done]. }
  assert (∀ n, existsb (λ v, mentions (trim <$> split (ch ",") v) n)
      (fields (lit "Require") (written_list (lit "Require") (final_require offer st))) = mentions (final_require offer st) n) as Hrv.
  { intros n. apply fields_written; [by apply (bool_decide_unpack _)|done|done]. }
  assert (∀ m, eq_ignore_ascii_case (lit "Supported") m = false →
    fields m (written_list (lit "Supported") (final_supported offer st)) = []) as Hsm.
  { apply (fields_written (lit "Supported") _ []); [by apply (bool_decide_unpack _)|done|done]. }
  assert (∀ m, eq_ignore_ascii_case (lit "Require") m = false →
    fields m (written_list (lit "Require") (final_require offer st)) = []) as Hrm.
  { apply (fields_written (lit "Require") _ []); [by apply (bool_decide_unpack _)|done|done]. }
  assert (Forall good_line (new ++ written_list (lit "Supported") (final_supported offer st)
                                ++ written_list (lit "Require") (final_require offer st))) as Hg.
  { rewrite !Forall_app. split_and!; [done|apply written_list_good..]; try done; by apply (bool_decide_unpack _). }
  assert (new ++ written_list (lit "Supported") (final_supported offer st)
              ++ written_list (lit "Require") (final_require offer st) ≠ []) as Hne.
  { destruct new; [|done]. rewrite Hone in C. done. }
  split_and!; [done|done|..].
  - rewrite !fields_app, !Hsm, !Hrm, !app_nil_r by done. rewrite <-Hone, C. done.
  - intros n Hn. rewrite !fields_app, O by done. unfold list_name, supported_name, require_name in Hn.
    rewrite !orb_false_iff in Hn. destruct Hn as [_ [[Hn1 _] Hn2]].
    assert (∀ s, eq_ignore_ascii_case n s = false → eq_ignore_ascii_case s n = false) as Hsym.
    { intros s. rewrite <-!not_true_iff_false, !eq_ignore_ascii_case_eq. congruence. }
    rewrite Hsm, Hrm by by apply Hsym. by rewrite !app_nil_r.
  - intros payload token. rewrite has_option_message by done. rewrite !fields_app, !T by done. cbn [app].
    rewrite Hrm, app_nil_r by done. change (eq_ignore_ascii_case (lit "Supported") (lit "Supported")) with true.
    cbv iota. by rewrite (Hsm (lit "k")), (Hrm (lit "k")), !app_nil_r.
  - intros payload token. rewrite has_option_message by done. rewrite !fields_app, !T by done. cbn [app].
    rewrite Hsm by done. change (eq_ignore_ascii_case (lit "Require") (lit "Supported")) with false.
    cbv iota. by rewrite app_nil_r.
Qed.

(** * Properties *)

(** What a rewritten REGISTER says.  For a well-formed request, every field but
    Contact and the capability lists is kept (the transaction, the authentication
    and the security fields among them), exactly one Contact field remains and the
    body is unchanged.  An offer makes the request support [path] and [outbound],
    and require [outbound] just when it is required now or was before; without an
    offer the request neither supports nor requires it. *)
Theorem rewritten_request ls text offer out :
  ls ≠ [] → Forall good_line ls → Forall is_char text → offer_ok offer →
  let frame := message ls (utf8_encode text) in
  rewrite_register frame offer = Ok out →
  ∃ ls', out = message ls' (utf8_encode text) ∧ Forall good_line ls' ∧
    length (header_values out (lit "Contact") ++ header_values out (lit "m")) = 1 ∧
    (∀ n, contact_name n || list_name n = false → header_values out n = header_values frame n) ∧
    match offer with
    | Some (_, _, required) =>
      has_option out (lit "Supported") (lit "path") = true ∧
      has_option out (lit "Supported") (lit "outbound") = true ∧
      has_option out (lit "Require") (lit "outbound") =
        required || has_option frame (lit "Require") (lit "outbound")
    | None =>
      has_option out (lit "Supported") (lit "outbound") = false ∧
      has_option out (lit "Require") (lit "outbound") = false
    end.
Proof.
  intros Hne Hg Htext Ho frame Hout. subst frame.
  assert (Forall line_ok ls ∧ Forall unfolded ls) as [Hok Hun].
  { split; (eapply Forall_impl; [exact Hg|]; by intros l [? ?]). }
  apply rewrite_message in Hout as (st & Hst & Hone & ->); [|done..].
  destruct (rewrite_lines_spec _ _ _ _ Ho Hg Hst) as [new Hle].
  destruct (rewritten_fields offer st _ ls new eq_refl Hle Hone) as (Hne' & Hg' & Hc & Hothers & Hs & Hr).
  set (ls' := rewritten_lines offer st) in *.
  assert (Forall line_ok ls') as Hok' by (eapply Forall_impl; [exact Hg'|]; by intros l [? ?]).
  assert (join crlf ls' ++ crlf ++ crlf ++ text = message ls' text) as ->.
  { unfold message. by rewrite render_lines_join, <-!app_assoc. }
  rewrite utf8_encode_message by done. exists ls'. rewrite Hs, Hr. split_and!; [done|done|..].
  - by rewrite !header_values_good.
  - intros n Hn. rewrite !header_values_good by done. by apply Hothers.
  - destruct Hle as [_ _ _ _ _ _ _ Hreq Hleg]. destruct offer as [[[instance reg_id] required]|].
    + rewrite Hs. unfold final_supported, final_require. rewrite !mentions_append by done.
      change (eq_ignore_ascii_case (trim (lit "path")) (lit "path")) with true.
      change (eq_ignore_ascii_case (trim (lit "outbound")) (lit "outbound")) with true.
      rewrite orb_true_r. split_and!; [done|by rewrite orb_true_r|].
      rewrite has_option_message by done. change (eq_ignore_ascii_case (lit "Require") (lit "Supported")) with false.
      cbv iota. rewrite app_nil_r. destruct required; [rewrite mentions_append by done|];
        rewrite Hreq by done; cbn [rw_require mentions existsb orb]; [|done].
      by rewrite orb_true_r.
    + destruct (Hleg eq_refl) as [H1 H2]. rewrite Hs. by split.
Qed.
Lemma rewritten_request_witness :
  let ls := [lit "REGISTER sip:ims.test SIP/2.0"; lit "k: gruu"; lit "Contact: <sip:ue@192.0.2.1>;reg-id=3";
             lit "Require: sec-agree"] in
  ∃ out, rewrite_register (message ls (utf8_encode [])) (Some (lit "urn:x", 1%Z, true)) = Ok out ∧
    has_option out (lit "Supported") (lit "outbound") = true.
Proof.
  intros ls.
  exists (default [] (res_ok (rewrite_register (message ls (utf8_encode [])) (Some (lit "urn:x", 1%Z, true))))).
  assert (rewrite_register (message ls (utf8_encode [])) (Some (lit "urn:x", 1%Z, true)) =
    Ok (default [] (res_ok (rewrite_register (message ls (utf8_encode [])) (Some (lit "urn:x", 1%Z, true)))))) as Heq
    by (vm_compute; reflexivity).
  split; [exact Heq|].
  destruct (rewritten_request ls [] (Some (lit "urn:x", 1%Z, true)) _ ltac:(done)
    ltac:(by apply (bool_decide_unpack _); vm_compute) ltac:(constructor)
    ltac:(by split; [apply (bool_decide_unpack _)|]) Heq) as (ls' & _ & _ & _ & _ & _ & H & _).
  exact H.
Defined.
