(* ===== verification/Outbound.v ===== *)
(** * Outbound flows

    Models [OutboundFlow] of [connectivity/core/outbound.rs]: the offer of a
    REGISTER, what its response means for the flow, and the keep-alive probes.  An
    operation works on a world: the flow, the lease store and the observation of
    the coordinator it shares with the other access.  The state an operation leaves
    is that of its error paths too.  A method that calls [Instant::now] gets the
    clock as an argument; a lease is created under the address [alloc]; the probe
    ids and the jitter are drawn by the caller.  Instants are in nanoseconds and
    the jitter is exact. *)
From Stdlib Require Import Ascii String ZArith Lia.
From stdpp Require Import prelude gmap.
From S2P Require Import Prelude Text SipFrame RetryAfter Routing ImsAccess Register RegisterRetry Coordinator Stun RegisterResponse RegEvent OutboundOffer.
Local Open Scope Z_scope.

(** [Duration::from_millis] *)
Definition from_millis (n : Z) : Z := n * 1000000.
Definition PONG_TIMEOUT : Z := from_secs 10.
Definition STUN_RTO : Z := from_millis 500.
Definition STUN_TIMEOUT : Z := from_secs 8.

(** ** The state *)
Record Offer := mkOffer { of_access : ImsAccess; of_instance : str; of_enabled : bool }.
Record PendingProbe := mkProbe {
  pp_id : list Z;
  pp_packet : list Z;
  pp_deadline : Z;
  pp_retransmits : Z;
  pp_timeout_at : Z;
}.
Record OutboundFlow := mkOutbound {
  f_offer : option Offer;
  f_last_request : option (list Z);
  f_last_source : option (list Z);
  f_reg_event_binding : option RegEventBinding;
  f_lease : option nat;
  f_tcp : bool;
  f_timer : option Z;
  f_next_probe : option Z;
  f_pending : option PendingProbe;
  f_mapped : option SocketAddr;
  f_failure_reported : bool;
  f_no_nat : bool;
  f_bound_outbound_required : bool;
}.
Definition flow_default : OutboundFlow :=
  mkOutbound None None None None None false None None None None false false false.
Record World := mkWorld { w_flow : OutboundFlow; w_leases : Leases; w_obs : Observation }.

(** ** Updates of single fields *)
Definition with_offer (o : Offer) (f : OutboundFlow) : OutboundFlow :=
  mkOutbound (Some o) (f_last_request f) (f_last_source f) (f_reg_event_binding f) (f_lease f) (f_tcp f)
    (f_timer f) (f_next_probe f) (f_pending f) (f_mapped f) (f_failure_reported f) (f_no_nat f)
    (f_bound_outbound_required f).
Definition with_request (source request : list Z) (f : OutboundFlow) : OutboundFlow :=
  mkOutbound (f_offer f) (Some request) (Some source) (f_reg_event_binding f) (f_lease f) (f_tcp f)
    (f_timer f) (f_next_probe f) (f_pending f) (f_mapped f) (f_failure_reported f) (f_no_nat f)
    (f_bound_outbound_required f).
Definition with_binding_of (b : option RegEventBinding) (f : OutboundFlow) : OutboundFlow :=
  mkOutbound (f_offer f) (f_last_request f) (f_last_source f) b (f_lease f) (f_tcp f)
    (f_timer f) (f_next_probe f) (f_pending f) (f_mapped f) (f_failure_reported f) (f_no_nat f)
    (f_bound_outbound_required f).
Definition with_lease (l : option nat) (f : OutboundFlow) : OutboundFlow :=
  mkOutbound (f_offer f) (f_last_request f) (f_last_source f) (f_reg_event_binding f) l (f_tcp f)
    (f_timer f) (f_next_probe f) (f_pending f) (f_mapped f) (f_failure_reported f) (f_no_nat f)
    (f_bound_outbound_required f).
Definition with_transport (tcp : bool) (timer : option Z) (f : OutboundFlow) : OutboundFlow :=
  mkOutbound (f_offer f) (f_last_request f) (f_last_source f) (f_reg_event_binding f) (f_lease f) tcp
    timer (f_next_probe f) (f_pending f) (f_mapped f) (f_failure_reported f) (f_no_nat f)
    (f_bound_outbound_required f).
Definition with_probe (next : option Z) (pending : option PendingProbe) (f : OutboundFlow) : OutboundFlow :=
  mkOutbound (f_offer f) (f_last_request f) (f_last_source f) (f_reg_event_binding f) (f_lease f) (f_tcp f)
    (f_timer f) next pending (f_mapped f) (f_failure_reported f) (f_no_nat f)
    (f_bound_outbound_required f).
Definition with_mapped (m : option SocketAddr) (f : OutboundFlow) : OutboundFlow :=
  mkOutbound (f_offer f) (f_last_request f) (f_last_source f) (f_reg_event_binding f) (f_lease f) (f_tcp f)
    (f_timer f) (f_next_probe f) (f_pending f) m (f_failure_reported f) (f_no_nat f)
    (f_bound_outbound_required f).
Definition with_reported (f : OutboundFlow) : OutboundFlow :=
  mkOutbound (f_offer f) (f_last_request f) (f_last_source f) (f_reg_event_binding f) (f_lease f) (f_tcp f)
    (f_timer f) (f_next_probe f) (f_pending f) (f_mapped f) true (f_no_nat f)
    (f_bound_outbound_required f).
Definition with_no_nat (b : bool) (f : OutboundFlow) : OutboundFlow :=
  mkOutbound (f_offer f) (f_last_request f) (f_last_source f) (f_reg_event_binding f) (f_lease f) (f_tcp f)
    (f_timer f) (f_next_probe f) (f_pending f) (f_mapped f) (f_failure_reported f) b
    (f_bound_outbound_required f).
Definition on_flow (g : OutboundFlow → OutboundFlow) (w : World) : World :=
  mkWorld (g (w_flow w)) (w_leases w) (w_obs w).
Definition on_obs (g : Observation → Observation) (w : World) : World :=
  mkWorld (w_flow w) (w_leases w) (g (w_obs w)).
(** Through the flow's own [Arc]. *)
Definition on_lease (g : FlowLease → FlowLease) (w : World) : World :=
  mkWorld (w_flow w) (match f_lease (w_flow w) with Some i => alter g i (w_leases w) | None => w_leases w end)
    (w_obs w).
Definition lease_of (w : World) : option FlowLease := upgrade (w_leases w) (f_lease (w_flow w)).
Definition lease_with (p : LeaseState → bool) (w : World) : bool :=
  match lease_of w with Some l => p (fl_state l) | None => false end.

(** ** The offer *)
Definition configure (a : ImsAccess) (instance : str) (enabled : bool) (w : World) : World :=
  on_flow (with_offer (mkOffer a instance enabled)) w.

Definition outbound_bound (w : World) : bool :=
  f_bound_outbound_required (w_flow w) || lease_with ls_negotiated w.
Definition prepare (clock : Z) (frame : list Z) (w : World) : ims (list Z) * World :=
  let f := w_flow w in
  if negb (is_request frame (lit "REGISTER")) then (Ok frame, w)
  else match f_offer f with
  | None => (Ok frame, w)
  | Some offer =>
    let a := of_access offer in
    match (if bool_decide (f_last_source f = Some frame) then f_last_request f else None) with
    | Some prepared => (Ok prepared, w)
    | None =>
      let bound := outbound_bound w in
      let required := bound || additional_flow_requires_outbound clock (w_leases w) (w_obs w) a in
      let enabled := bound || (of_enabled offer && may_offer_outbound clock (w_obs w) a) in
      if required && (negb enabled || negb (instance_matches clock (w_leases w) (w_obs w) (of_instance offer)))
      then (Err (lit "ims_outbound_additional_flow_not_supported"), on_obs (reject_outbound clock a) w)
      else
        match (if enabled then offer_register frame (of_instance offer) (reg_id a) required
               else legacy_register frame) with
        | Ok request => (Ok request, on_flow (with_request frame request) w)
        | Err e => (Err e, w)
        | Panic => (Panic, w)
        end
    end
  end.

(** The response answers the REGISTER sent last. *)
Definition answers_request (request response : list Z) : bool :=
  match from_register_request request with
  | Some key => matches_response key response
  | None => false
  end.
Definition received_sip (clock : Z) (frame : list Z) (w : World) : ims unit * World :=
  match f_offer (w_flow w), f_last_request (w_flow w) with
  | Some offer, Some request =>
    if negb (answers_request request frame) then (Ok tt, w)
    else
      let status := res_ok (parse_status frame) in
      let w :=
        if existsb (λ s, bool_decide (status = Some s)) [200; 401; 407]
           && bool_decide (header_values request (lit "Security-Verify") = [])
        then on_flow (with_no_nat (initial_response_confirms_no_nat request frame)) w else w in
      if bool_decide (status = Some 439)
         || (bool_decide (status = Some 420) && has_option frame (lit "Unsupported") (lit "outbound"))
      then (Err (lit "ims_outbound_rejected"), on_obs (reject_outbound clock (of_access offer)) w)
      else (Ok tt, w)
  | _, _ => (Ok tt, w)
  end.

(** The flow of a staged transport. *)
Definition replacement (w : World) : OutboundFlow :=
  let f := w_flow w in
  mkOutbound (f_offer f) None None None None false None None None None false (f_no_nat f) (outbound_bound w).
Definition inherit_path_observation (previous : OutboundFlow) (w : World) : World :=
  on_flow (with_no_nat (f_no_nat previous)) w.

(** ** Ending a flow *)
(** [lease.take()]: the last [Arc] is dropped. *)
Definition drop_lease (w : World) : World :=
  mkWorld (with_lease None (w_flow w))
    (match f_lease (w_flow w) with Some i => delete i (w_leases w) | None => w_leases w end) (w_obs w).
Definition disable (w : World) : World :=
  on_flow (λ f, with_mapped None (with_probe None None f))
    (drop_lease (on_lease invalidate (on_flow (with_binding_of None) w))).
Definition fail (clock random : Z) (code : str) (w : World) : str * World :=
  let w := on_lease invalidate w in
  (code,
   if f_failure_reported (w_flow w) then w
   else on_flow with_reported
     (match f_offer (w_flow w) with
      | Some offer => on_obs (λ o, flow_failed clock (w_leases w) o (of_access offer) random) w
      | None => w
      end)).

(** ** A registered flow *)
(** The registration accepted under the lease: [get_or_insert_with], then the update. *)
Definition lease_registered (clock expires : Z) (offered negotiated : bool) (l : FlowLease) : FlowLease :=
  mkFlow (fl_instance l)
    (mkLease (clock + from_secs expires) offered negotiated (ls_healthy (fl_state l))
       (ls_healthy_until (fl_state l)) (ls_failed (fl_state l))).
Definition new_lease (clock : Z) (instance : str) (offered : bool) : FlowLease :=
  mkFlow instance (mkLease clock offered false false clock false).
Definition ensure_lease (clock : Z) (alloc : nat) (instance : str) (offered : bool) (w : World) : World :=
  match f_lease (w_flow w) with
  | Some _ => w
  | None => mkWorld (with_lease (Some alloc) (w_flow w))
              (<[alloc := new_lease clock instance offered]> (w_leases w)) (w_obs w)
  end.
(** What the response says of the outbound offer: the artifacts and whether the flow
    is negotiated. *)
Definition outbound_answer (offer : Offer) (request response : list Z) : RegisterArtifacts * bool :=
  let offered := has_option request (lit "Supported") (lit "outbound") in
  let outbound_required' := has_option request (lit "Require") (lit "outbound")
    || has_option response (lit "Require") (lit "outbound") in
  let artifacts := artifacts_parse response in
  let artifacts :=
    if offered then
      let binding := parse_for_binding response (of_instance offer) (reg_id (of_access offer)) in
      if outbound_required' then binding
      else with_binding (own_binding_found binding) (contact_expiry_ambiguous artifacts)
             (expires_seconds artifacts) artifacts
    else artifacts in
  (artifacts, offered && outbound_required artifacts && first_hop_ob artifacts && own_binding_found artifacts).
(** Validating the next hop after a REGISTER. *)
Definition schedule_probe (clock expires : Z) (a : ImsAccess) (negotiated : bool) (w : World) : World :=
  let f := w_flow w in
  if negotiated && negb (f_tcp f) && f_no_nat f && bool_decide (f_timer f = None) then
    on_obs (λ o, flow_healthy o a)
      (on_lease (acknowledge (clock + from_secs expires)) (on_flow (with_probe None None) w))
  else if negotiated then
    if bool_decide (f_next_probe f = None) && bool_decide (f_pending f = None)
    then on_flow (with_probe (Some clock) None) w else w
  else on_flow (with_probe None None) w.
Definition registered (clock : Z) (alloc : nat) (response : list Z) (tcp : bool) (default_expires : Z)
    (w : World) : ims RegisterArtifacts * World :=
  match f_offer (w_flow w), f_last_request (w_flow w) with
  | Some offer, Some request =>
    let a := of_access offer in
    if negb (answers_request request response) || negb (bool_decide (res_ok (parse_status response) = Some 200))
    then (Err (lit "ims_outbound_register_response_mismatch"), w)
    else
      let offered := has_option request (lit "Supported") (lit "outbound") in
      let '(artifacts, negotiated) := outbound_answer offer request response in
      let w := on_obs (observe_response a (outbound_required artifacts) (artifacts_flow_timer artifacts)) w in
      if (has_option request (lit "Require") (lit "outbound") || outbound_required artifacts) && negb negotiated
      then
        let w := on_obs (reject_outbound clock a) w in
        (Err (lit "ims_outbound_negotiation_lost"),
         mkWorld (w_flow w) (invalidate_outbound_flows (w_leases w) (w_obs w)) (w_obs w))
      else
        let expires := default default_expires (expires_seconds artifacts) in
        if (expires =? 0)%Z then (Ok artifacts, disable w)
        else
          let w := ensure_lease clock alloc (of_instance offer) offered w in
          if lease_with ls_failed w then (Err (lit "ims_outbound_flow_failed"), w)
          else
            let w := on_lease (lease_registered clock expires offered negotiated) w in
            let w := on_obs (attach_flow a (f_lease (w_flow w))) w in
            let w := on_flow (with_transport tcp (artifacts_flow_timer artifacts)) w in
            let w := schedule_probe clock expires a negotiated w in
            (Ok artifacts, on_flow (with_binding_of (res_ok (binding_from_register_request request))) w)
  | _, _ => (Ok (artifacts_parse response), w)
  end.

Definition reg_event_binding (clock : Z) (w : World) : option RegEventBinding :=
  match lease_of w with
  | Some l => if live clock l then f_reg_event_binding (w_flow w) else None
  | None => None
  end.
Definition active (w : World) : bool :=
  bool_decide (is_Some (f_next_probe (w_flow w))) || bool_decide (is_Some (f_pending (w_flow w))).
Definition awaiting_tcp_pong (w : World) : bool :=
  f_tcp (w_flow w) && bool_decide (is_Some (f_pending (w_flow w))).
Definition deadline (w : World) : option Z :=
  match f_pending (w_flow w) with Some p => Some (pp_deadline p) | None => f_next_probe (w_flow w) end.

(** ** Probes *)
(** One more transmission of the packet. *)
Definition retransmit (now : Z) (p : PendingProbe) : PendingProbe :=
  let n := pp_retransmits p + 1 in
  mkProbe (pp_id p) (pp_packet p)
    (if n =? 7 then pp_timeout_at p else Z.min (now + STUN_RTO * 2) (pp_timeout_at p)) n (pp_timeout_at p).
Definition probe_timeout (tcp : bool) : Z := if tcp then PONG_TIMEOUT else STUN_TIMEOUT.
(** [id] is the random id, [None] when the generator fails. *)
Definition poll (clock now : Z) (id : option (list Z)) (random : Z) (w : World) : ims (option (list Z)) * World :=
  let f := w_flow w in
  if lease_with ls_failed w then (Err (lit "ims_outbound_flow_failed"), w)
  else match f_pending f with
  | Some p =>
    if now <? pp_deadline p then (Ok None, w)
    else if f_tcp f || (pp_timeout_at p <=? now)
    then let '(e, w) := fail clock random (lit "ims_outbound_keepalive_timeout") w in (Err e, w)
    else if 7 <=? pp_retransmits p then
      let p := mkProbe (pp_id p) (pp_packet p) (pp_timeout_at p) (pp_retransmits p) (pp_timeout_at p) in
      (Ok None, on_flow (with_probe (f_next_probe f) (Some p)) w)
    else (Ok (Some (pp_packet p)), on_flow (with_probe (f_next_probe f) (Some (retransmit now p))) w)
  | None =>
    if match f_next_probe f with Some deadline => now <? deadline | None => true end then (Ok None, w)
    else match id with
    | None => (Err (lit "ims_outbound_random_failed"), w)
    | Some id =>
      let packet := if f_tcp f then crlf ++ crlf else binding_request id in
      let p := mkProbe id packet (now + (if f_tcp f then PONG_TIMEOUT else STUN_RTO)) 0
                 (now + probe_timeout (f_tcp f)) in
      (Ok (Some packet), on_flow (with_probe None (Some p)) w)
    end
  end.

(** [random] is the [u32] drawn by [random_fraction]. *)
Definition probe_interval (timer : option Z) (tcp : bool) (random : Z) : Z :=
  let value := match timer with
    | Some seconds => from_secs seconds * (4 * u32_max + random) / (5 * u32_max)
    | None => if tcp then from_secs (95 * u32_max + 25 * random) / u32_max
              else from_secs (24 * u32_max + 5 * random) / u32_max
    end in
  Z.max value (from_millis 1).
Definition acknowledged (now random : Z) (w : World) : World :=
  let f := w_flow w in
  let interval := probe_interval (f_timer f) (f_tcp f) random in
  let timeout := probe_timeout (f_tcp f) in
  let next := match f_pending f with
    | Some p => Z.max (pp_timeout_at p - timeout + interval) now
    | None => now + interval
    end in
  let w := on_lease (acknowledge (next + timeout)) (on_flow (with_probe (Some next) None) w) in
  match f_offer f with
  | Some offer => on_obs (λ o, flow_healthy o (of_access offer)) w
  | None => w
  end.
Definition pong (clock random : Z) (w : World) : World :=
  if awaiting_tcp_pong w then acknowledged clock random w else w.

Definition is_stun_datagram (packet : list Z) : bool :=
  match packet with
  | [] => false
  | byte :: _ => (Z.land byte 0xc0 =? 0) && negb (forallb (λ b, (b =? CR) || (b =? LF)) packet)
  end.
(** [true] for a datagram that must not reach the SIP framing. *)
Definition receive_stun (clock random : Z) (packet : list Z) (w : World) : ims bool * World :=
  let f := w_flow w in
  if negb (is_stun_datagram packet) then (Ok false, w)
  else match f_pending f with
  | None => (Ok true, w)
  | Some p =>
    if f_tcp f then (Ok true, w)
    else match binding_response (E:=str) packet (pp_id p) with
    | Ok StunIgnore => (Ok true, w)
    | Ok StunError => let '(e, w) := fail clock random (lit "ims_outbound_stun_error") w in (Err e, w)
    | Ok (StunMapped addr) =>
      if match f_mapped f with Some old => negb (bool_decide (old = addr)) | None => false end
      then let '(e, w) := fail clock random (lit "ims_outbound_mapping_changed") w in (Err e, w)
      else (Ok true, acknowledged clock random (on_flow (with_mapped (Some addr)) w))
    | Err e => (Err e, w)
    | Panic => (Panic, w)
    end
  end.

(** ** Runs of a flow *)
(** What shows that the path of a flow works: an answer to the probe that is
    outstanding, or a path observed without NAT on which probes are waived. *)
Inductive EvidenceKind := StunAnswer | TcpPong | NoNatPath.
Record Evidence := mkEv { ev_kind : EvidenceKind; ev_clock : Z; ev_window : Z }.
Definition interval_upper (timer : option Z) (tcp : bool) : Z :=
  match timer with
  | Some seconds => Z.max (from_secs seconds) (from_millis 1)
  | None => if tcp then from_secs 120 else from_secs 29
  end.
(** How long an answer vouches for the flow, at most. *)
Definition answer_window (f : OutboundFlow) : Z := PONG_TIMEOUT + interval_upper (f_timer f) (f_tcp f).
Definition stun_evidence (clock : Z) (packet : list Z) (w : World) : list Evidence :=
  let f := w_flow w in
  match f_pending f with
  | Some p =>
    match binding_response (E:=str) packet (pp_id p) with
    | Ok (StunMapped _) => if f_tcp f then [] else [mkEv StunAnswer clock (answer_window f)]
    | _ => []
    end
  | None => []
  end.
Definition pong_evidence (clock : Z) (w : World) : list Evidence :=
  if awaiting_tcp_pong w then [mkEv TcpPong clock (answer_window (w_flow w))] else [].
(** A registration that was accepted on a path that needs no probes: a 200 that answers the
    REGISTER sent last and negotiates the flow for a while, under a lease that has not
    failed, over UDP, on the path observed without NAT, with no Flow-Timer. *)
Definition registered_evidence (clock : Z) (response : list Z) (tcp : bool) (default_expires : Z) (w : World)
    : list Evidence :=
  match f_offer (w_flow w), f_last_request (w_flow w) with
  | Some offer, Some request =>
    let '(artifacts, negotiated) := outbound_answer offer request response in
    let expires := default default_expires (expires_seconds artifacts) in
    let accepted := answers_request request response && bool_decide (res_ok (parse_status response) = Some 200)
      && negotiated && negb (expires =? 0) && negb (lease_with ls_failed w) in
    if accepted && (negb tcp && f_no_nat (w_flow w) && bool_decide (artifacts_flow_timer artifacts = None))
    then [mkEv NoNatPath clock (from_secs expires)] else []
  | _, _ => []
  end.

Record FlowSystem := mkFlowSystem { fs_clock : Z; fs_world : World; fs_evidence : list Evidence }.
(** The evidence of a lease ends with it. *)
Definition advance (s : FlowSystem) (w : World) (new : list Evidence) : FlowSystem :=
  mkFlowSystem (fs_clock s) w (if bool_decide (f_lease (w_flow w) = None) then [] else new ++ fs_evidence s).
(** What the other access and the coordinator may do meanwhile. *)
Definition others (w w' : World) : Prop :=
  w_flow w' = w_flow w ∧ (lease_of w' = lease_of w ∨ lease_of w' = invalidate <$> lease_of w).
Inductive flow_step (s : FlowSystem) : FlowSystem → Prop :=
| FlowConfigure a instance enabled :
    flow_step s (advance s (configure a instance enabled (fs_world s)) [])
| FlowPrepare frame r w : prepare (fs_clock s) frame (fs_world s) = (r, w) → flow_step s (advance s w [])
| FlowReceived frame r w : received_sip (fs_clock s) frame (fs_world s) = (r, w) → flow_step s (advance s w [])
| FlowInherit previous : flow_step s (advance s (inherit_path_observation previous (fs_world s)) [])
| FlowRegistered alloc response tcp default_expires r w : w_leases (fs_world s) !! alloc = None →
    registered (fs_clock s) alloc response tcp default_expires (fs_world s) = (r, w) →
    flow_step s (advance s w (registered_evidence (fs_clock s) response tcp default_expires (fs_world s)))
| FlowPoll now id random r w : now ≤ fs_clock s → 0 ≤ random ≤ u32_max →
    poll (fs_clock s) now id random (fs_world s) = (r, w) → flow_step s (advance s w [])
| FlowPong random : 0 ≤ random ≤ u32_max →
    flow_step s (advance s (pong (fs_clock s) random (fs_world s)) (pong_evidence (fs_clock s) (fs_world s)))
| FlowStun random packet r w : 0 ≤ random ≤ u32_max →
    receive_stun (fs_clock s) random packet (fs_world s) = (r, w) →
    flow_step s (advance s w (stun_evidence (fs_clock s) packet (fs_world s)))
| FlowDisable : flow_step s (advance s (disable (fs_world s)) [])
| FlowFail random code : flow_step s (advance s (fail (fs_clock s) random code (fs_world s)).2 [])
| FlowOthers w : others (fs_world s) w → flow_step s (advance s w [])
| FlowTick clock : fs_clock s ≤ clock → flow_step s (mkFlowSystem clock (fs_world s) (fs_evidence s)).
(** A flow before its first registration: a new one, or a staged replacement. *)
Definition unregistered (f : OutboundFlow) : Prop :=
  f_lease f = None ∧ f_pending f = None ∧ f_next_probe f = None ∧ f_timer f = None.
Inductive flow_reachable : FlowSystem → Prop :=
| flow_start clock w : unregistered (w_flow w) → flow_reachable (mkFlowSystem clock w [])
| flow_next s s' : flow_reachable s → flow_step s s' → flow_reachable s'.

(** * Lemmas *)
(** ** The own lease *)
Lemma lease_of_on_flow g w : f_lease (g (w_flow w)) = f_lease (w_flow w) → lease_of (on_flow g w) = lease_of w.
Proof. intros H. unfold lease_of. simpl. by rewrite H. Qed.
Lemma lease_of_on_obs g w : lease_of (on_obs g w) = lease_of w.
Proof. done. Qed.
Lemma lease_of_on_lease g w : lease_of (on_lease g w) = g <$> lease_of w.
Proof.
  unfold lease_of, on_lease, upgrade. simpl. destruct (f_lease (w_flow w)) as [i|]; [|done]. simpl.
  unfold Leases. apply lookup_alter_eq.
Qed.
Lemma lease_of_drop w : lease_of (drop_lease w) = None.
Proof. done. Qed.
Lemma interval_upper_bound timer tcp random :
  match timer with Some s => 0 ≤ s | None => True end → 0 ≤ random ≤ u32_max →
  probe_interval timer tcp random ≤ interval_upper timer tcp.
Proof.
  intros Ht Hr. unfold probe_interval, interval_upper, from_secs, from_millis, u32_max in *.
  destruct timer as [s|]; [|destruct tcp]; try apply Z.max_le_compat_r; try apply Z.max_lub; try lia;
    apply Z.div_le_upper_bound; nia.
Qed.

(** ** Health is never gained silently *)
(** A healthy lease of [w'] was as healthy in [w]. *)
Definition no_healthier (w w' : World) : Prop :=
  ∀ l', lease_of w' = Some l' → ls_healthy (fl_state l') = true →
    ∃ l, lease_of w = Some l ∧ ls_healthy (fl_state l) = true ∧
      ls_healthy_until (fl_state l) = ls_healthy_until (fl_state l').
#[export] Instance no_healthier_preorder : PreOrder no_healthier.
Proof.
  split.
  - intros w l Hl Hh. by exists l.
  - intros w1 w2 w3 H12 H23 l3 Hl3 Hh3. destruct (H23 l3 Hl3 Hh3) as (l2 & Hl2 & Hh2 & <-).
    by apply H12.
Qed.
Lemma no_healthier_same w w' : lease_of w' = lease_of w → no_healthier w w'.
Proof. intros Heq l Hl Hh. exists l. by rewrite <-Heq. Qed.
Lemma no_healthier_lease g w :
  (∀ l, ls_healthy (fl_state (g l)) = true →
     ls_healthy (fl_state l) = true ∧ ls_healthy_until (fl_state (g l)) = ls_healthy_until (fl_state l)) →
  no_healthier w (on_lease g w).
Proof.
  intros Hg l'. rewrite lease_of_on_lease. intros (l & -> & Hl)%fmap_Some. subst l'.
  intros [Hh Hu]%Hg. by exists l.
Qed.
Lemma no_healthier_invalidate w : no_healthier w (on_lease invalidate w).
Proof. by apply no_healthier_lease. Qed.
Lemma no_healthier_none w w' : lease_of w' = None → no_healthier w w'.
Proof. intros Hn l. by rewrite Hn. Qed.
Lemma no_healthier_ensure clock alloc instance offered w :
  no_healthier w (ensure_lease clock alloc instance offered w).
Proof.
  unfold ensure_lease. destruct (f_lease (w_flow w)) as [i|]; [done|].
  intros l'. unfold lease_of, upgrade. cbn [w_flow w_leases with_lease f_lease mbind option_bind].
  unfold Leases. rewrite lookup_insert_eq. by intros [= <-].
Qed.
Lemma alter_invalidate (h : gmap nat FlowLease) (i j : nat) l : alter invalidate i h !! j = Some l →
  h !! j = Some l ∨ ls_healthy (fl_state l) = false.
Proof.
  destruct (decide (i = j)) as [->|Hne]; [|rewrite lookup_alter_ne by done; by left].
  rewrite lookup_alter_eq. intros (l0 & _ & ->)%fmap_Some. by right.
Qed.
Lemma invalidate_outbound_lookup (h : Leases) o j l : invalidate_outbound_flows h o !! j = Some l →
  h !! j = Some l ∨ ls_healthy (fl_state l) = false.
Proof.
  unfold invalidate_outbound_flows. intros Hl.
  assert (∀ (h' : Leases) w, (match w with Some i => alter invalidate i h' | None => h' end) !! j = Some l →
    h' !! j = Some l ∨ ls_healthy (fl_state l) = false) as Hone.
  { intros h' [i|]; [apply alter_invalidate|by left]. }
  apply Hone in Hl as [Hl|Hl]; [by apply Hone in Hl|by right].
Qed.
Lemma no_healthier_lost w o : no_healthier w (mkWorld (w_flow w) (invalidate_outbound_flows (w_leases w) o) (w_obs w)).
Proof.
  intros l'. unfold lease_of, upgrade. simpl. intros (i & -> & Hl)%bind_Some Hh. simpl.
  apply invalidate_outbound_lookup in Hl as [Hl|Hl]; [by exists l'|congruence].
Qed.

(** ** Failing and acknowledging *)
Lemma fail_spec clock random code w :
  (fail clock random code w).1 = code ∧ no_healthier w (fail clock random code w).2 ∧
  lease_of (fail clock random code w).2 = invalidate <$> lease_of w ∧
  f_pending (w_flow (fail clock random code w).2) = f_pending (w_flow w) ∧
  f_timer (w_flow (fail clock random code w).2) = f_timer (w_flow w) ∧
  f_lease (w_flow (fail clock random code w).2) = f_lease (w_flow w).
Proof.
  assert (lease_of (fail clock random code w).2 = lease_of (on_lease invalidate w)) as Heq.
  { unfold fail. simpl. destruct (f_failure_reported _); [done|].
    rewrite lease_of_on_flow by done. by destruct (f_offer _). }
  split; [done|]. split.
  { etrans; [apply no_healthier_invalidate|by apply no_healthier_same]. }
  rewrite Heq, lease_of_on_lease. split; [done|].
  unfold fail. simpl. destruct (f_failure_reported _); simpl; [done|]. by destruct (f_offer _).
Qed.
(** The end of the window of an answer to the probe, or of a first probe. *)
Lemma acknowledged_spec now random w p :
  f_pending (w_flow w) = Some p → 0 ≤ random ≤ u32_max →
  pp_timeout_at p ≤ now + PONG_TIMEOUT → (∀ t, f_timer (w_flow w) = Some t → 0 ≤ t) →
  f_pending (w_flow (acknowledged now random w)) = None ∧
  f_timer (w_flow (acknowledged now random w)) = f_timer (w_flow w) ∧
  f_lease (w_flow (acknowledged now random w)) = f_lease (w_flow w) ∧
  ∃ until, lease_of (acknowledged now random w) = acknowledge until <$> lease_of w ∧
    until ≤ now + answer_window (w_flow w).
Proof.
  intros Hp Hr Hto Ht. unfold acknowledged. rewrite Hp.
  set (next := Z.max _ _). set (w1 := on_lease _ _).
  assert (lease_of w1 = acknowledge (next + probe_timeout (f_tcp (w_flow w))) <$> lease_of w) as Hl.
  { unfold w1. rewrite lease_of_on_lease. by rewrite lease_of_on_flow. }
  split_and!; try by destruct (f_offer (w_flow w)).
  eexists. split; [by destruct (f_offer (w_flow w)); rewrite ?lease_of_on_obs; exact Hl|].
  assert (probe_interval (f_timer (w_flow w)) (f_tcp (w_flow w)) random
          ≤ interval_upper (f_timer (w_flow w)) (f_tcp (w_flow w))) as Hi.
  { apply interval_upper_bound; [|done]. destruct (f_timer (w_flow w)); auto. }
  assert (0 ≤ interval_upper (f_timer (w_flow w)) (f_tcp (w_flow w))).
  { unfold interval_upper, from_secs, from_millis. destruct (f_timer (w_flow w)), (f_tcp (w_flow w)); lia. }
  unfold answer_window, next, probe_timeout, PONG_TIMEOUT, STUN_TIMEOUT, from_secs in *.
  destruct (f_tcp (w_flow w)); lia.
Qed.

(** ** The invariant of a run *)
Definition timer_ok (w : World) : Prop := ∀ t, f_timer (w_flow w) = Some t → 0 ≤ t.
Definition pending_ok (clock : Z) (w : World) : Prop :=
  ∀ p, f_pending (w_flow w) = Some p → pp_timeout_at p ≤ clock + PONG_TIMEOUT.
Record flow_inv (s : FlowSystem) : Prop := {
  inv_timer : timer_ok (fs_world s);
  inv_pending : pending_ok (fs_clock s) (fs_world s);
  inv_health : ∀ l, lease_of (fs_world s) = Some l → ls_healthy (fl_state l) = true →
    ∃ e, e ∈ fs_evidence s ∧ ls_healthy_until (fl_state l) ≤ ev_clock e + ev_window e;
}.
(** Neither the health of the lease nor the probe changes. *)
Definition quiet (w w' : World) : Prop :=
  no_healthier w w' ∧ f_pending (w_flow w') = f_pending (w_flow w) ∧ f_timer (w_flow w') = f_timer (w_flow w).
Lemma quiet_refl w : quiet w w.
Proof. done. Qed.
Lemma quiet_obs g w : quiet w (on_obs g w).
Proof. split; [by apply no_healthier_same|done]. Qed.
Lemma quiet_flow g w : f_lease (g (w_flow w)) = f_lease (w_flow w) →
  f_pending (g (w_flow w)) = f_pending (w_flow w) → f_timer (g (w_flow w)) = f_timer (w_flow w) →
  quiet w (on_flow g w).
Proof. intros Hl Hp Ht. split; [|done]. by apply no_healthier_same, lease_of_on_flow. Qed.
#[local] Hint Resolve quiet_refl quiet_obs : core.
#[local] Hint Extern 2 (quiet _ (on_flow _ _)) => by apply quiet_flow : core.

Lemma advance_inv s w new : flow_inv s → no_healthier (fs_world s) w → timer_ok w →
  pending_ok (fs_clock s) w → flow_inv (advance s w new).
Proof.
  intros [_ _ Hh] Hno Ht Hp. split; [done|done|]. intros l Hl Hlh. simpl.
  destruct (Hno l Hl Hlh) as (l0 & Hl0 & Hlh0 & <-). destruct (Hh l0 Hl0 Hlh0) as (e & He & Hu).
  exists e. split; [|done]. case_bool_decide as Hn.
  - unfold lease_of in Hl. simpl in Hl. by rewrite Hn in Hl.
  - apply elem_of_app. by right.
Qed.
Lemma advance_quiet s w new : flow_inv s → quiet (fs_world s) w → flow_inv (advance s w new).
Proof.
  intros Hi (Hno & Hp & Ht). destruct (Hi) as [Hit Hip _]. apply advance_inv; [done..| |].
  - intros t. rewrite Ht. apply Hit.
  - intros p. rewrite Hp. apply Hip.
Qed.
Lemma advance_acknowledged s w e until l0 :
  lease_of w = acknowledge until <$> l0 → until ≤ ev_clock e + ev_window e →
  timer_ok w → pending_ok (fs_clock s) w → flow_inv (advance s w [e]).
Proof.
  intros Hl Hu Ht Hp. split; [done|done|]. intros l Hl' _. simpl in *.
  case_bool_decide as Hn.
  { unfold lease_of in Hl'. by rewrite Hn in Hl'. }
  exists e. split; [by constructor|]. rewrite Hl in Hl'. by apply fmap_Some in Hl' as (l1 & _ & ->).
Qed.

Lemma prepare_quiet clock frame w r w' : prepare clock frame w = (r, w') → quiet w w'.
Proof. unfold prepare. intros H. repeat case_match; simplify_eq; auto. Qed.
Lemma received_sip_quiet clock frame w r w' : received_sip clock frame w = (r, w') → quiet w w'.
Proof.
  unfold received_sip. destruct (f_offer _) as [offer|]; [|by intros [= <- <-]].
  destruct (f_last_request _) as [request|]; [|by intros [= <- <-]].
  destruct (negb _); [by intros [= <- <-]|]. cbv zeta.
  set (w1 := if _ && _ then on_flow _ w else w).
  assert (quiet w w1) as (Hno & Hp & Ht) by (unfold w1; case_match; auto).
  destruct (_ || _); intros [= <- <-]; [|done]. split; [|done]. etrans; [exact Hno|]. by apply no_healthier_same.
Qed.
Lemma fail_quiet clock random code w : quiet w (fail clock random code w).2.
Proof. destruct (fail_spec clock random code w) as (_ & ? & _ & ? & ? & _). done. Qed.
Lemma disable_spec w : lease_of (disable w) = None ∧ f_pending (w_flow (disable w)) = None ∧
  f_timer (w_flow (disable w)) = f_timer (w_flow w) ∧ f_lease (w_flow (disable w)) = None.
Proof. done. Qed.

Lemma flow_timer_pos response t : flow_timer response = Some t → 0 < t.
Proof.
  unfold flow_timer. repeat (case_match; try done). intros (n & _ & Hn)%bind_Some.
  destruct (Z.ltb_spec 0 n); by simplify_eq.
Qed.
Lemma outbound_answer_timer offer request response t :
  artifacts_flow_timer (outbound_answer offer request response).1 = Some t → 0 < t.
Proof.
  intros H. apply (flow_timer_pos response). revert H. unfold outbound_answer, parse_for_binding, artifacts_parse.
  destruct (common_contact_expires _) as [? ?]. simpl. by repeat case_match.
Qed.

Lemma poll_spec clock now id random w r w' :
  now ≤ clock → pending_ok clock w → poll clock now id random w = (r, w') →
  no_healthier w w' ∧ f_timer (w_flow w') = f_timer (w_flow w) ∧ pending_ok clock w'.
Proof.
  intros Hn Hp. unfold poll. destruct (lease_with ls_failed w); [intros [= <- <-]; done|].
  destruct (f_pending (w_flow w)) as [p|] eqn:Hpend.
  - destruct (now <? pp_deadline p); [intros [= <- <-]; done|].
    destruct (f_tcp (w_flow w) || (pp_timeout_at p <=? now)).
    { destruct (fail_quiet clock random (lit "ims_outbound_keepalive_timeout") w) as (? & Hq & ?).
      destruct (fail _ _ _ w) as [e wf]. intros [= <- <-]. split_and!; [done..|]. intros p'. cbn [snd] in Hq. rewrite Hq. apply Hp. }
    specialize (Hp p Hpend). destruct (7 <=? pp_retransmits p); intros [= <- <-];
      (split_and!; [by apply no_healthier_same|done|]); intros p' [= <-]; done.
  - destruct (match f_next_probe (w_flow w) with Some d => now <? d | None => true end); [intros [= <- <-]; done|].
    destruct id as [id|]; [|intros [= <- <-]; done]. intros [= <- <-].
    split_and!; [by apply no_healthier_same|done|]. intros p' [= <-]. cbn [pp_timeout_at].
    unfold probe_timeout, PONG_TIMEOUT, STUN_TIMEOUT, from_secs. destruct (f_tcp _); lia.
Qed.

Lemma schedule_probe_spec clock expires a negotiated w :
  let w' := schedule_probe clock expires a negotiated w in
  f_timer (w_flow w') = f_timer (w_flow w) ∧
  (f_pending (w_flow w') = f_pending (w_flow w) ∨ f_pending (w_flow w') = None) ∧
  (no_healthier w w' ∨
   (negotiated = true ∧ f_tcp (w_flow w) = false ∧ f_no_nat (w_flow w) = true ∧ f_timer (w_flow w) = None) ∧
   lease_of w' = acknowledge (clock + from_secs expires) <$> lease_of w).
Proof.
  cbv zeta. unfold schedule_probe. destruct (negotiated && negb _ && _ && _) eqn:Hcond.
  - rewrite !andb_true_iff, negb_true_iff, bool_decide_eq_true in Hcond. split_and!; [done|by right|right].
    split; [tauto|]. rewrite lease_of_on_obs, lease_of_on_lease. by rewrite lease_of_on_flow.
  - destruct negotiated.
    + destruct (bool_decide _ && bool_decide _); split_and!; try done;
        [by right|left; by apply no_healthier_same|by left|by left].
    + split_and!; [done|by right|left]. by apply no_healthier_same.
Qed.
Lemma ensure_keeps_failed clock alloc instance offered g w :
  lease_with ls_failed w = true → lease_with ls_failed (ensure_lease clock alloc instance offered (on_obs g w)) = true.
Proof.
  unfold lease_with, lease_of, upgrade, ensure_lease. cbn [on_obs w_flow w_leases].
  destruct (f_lease (w_flow w)) eqn:E; [|done]. cbn [on_obs w_flow w_leases]. by rewrite E.
Qed.
(** What a registration does to the health of the flow: nothing, unless it is accepted
    over a path observed without NAT. *)
Lemma registered_spec clock alloc response tcp default_expires w r w' :
  timer_ok w → registered clock alloc response tcp default_expires w = (r, w') →
  timer_ok w' ∧ (f_pending (w_flow w') = f_pending (w_flow w) ∨ f_pending (w_flow w') = None) ∧
  (no_healthier w w' ∨
   ∃ e, registered_evidence clock response tcp default_expires w = [e] ∧
     ∃ l0, lease_of w' = acknowledge (ev_clock e + ev_window e) <$> l0).
Proof.
  intros Ht. unfold registered, registered_evidence.
  destruct (f_offer (w_flow w)) as [offer|] eqn:Hoffer; [|intros [= <- <-]; split_and!; [done|by left|by left]].
  destruct (f_last_request (w_flow w)) as [request|]; [|intros [= <- <-]; split_and!; [done|by left|by left]].
  destruct (negb _ || negb _) eqn:Hmatch; [intros [= <- <-]; split_and!; [done|by left|by left]|].
  apply orb_false_iff in Hmatch as [->%negb_false_iff ->%negb_false_iff].
  pose proof (outbound_answer_timer offer request response) as Htimer.
  destruct (outbound_answer offer request response) as [artifacts negotiated]. cbn beta iota zeta delta [fst] in *.
  destruct (_ && negb negotiated).
  { intros [= <- <-]. split_and!; [done|by left|left].
    etrans; [|apply no_healthier_lost]. by apply no_healthier_same. }
  set (expires := default _ _). destruct (expires =? 0).
  { intros [= <- <-]. split_and!; [done|by right|left]. by apply no_healthier_none. }
  cbn [andb negb].
  set (w1 := ensure_lease _ _ _ _ _).
  assert (no_healthier w w1) as Hw1.
  { etrans; [|apply no_healthier_ensure]. by apply no_healthier_same. }
  assert (f_pending (w_flow w1) = f_pending (w_flow w) ∧ f_timer (w_flow w1) = f_timer (w_flow w) ∧
          f_no_nat (w_flow w1) = f_no_nat (w_flow w)) as (Hp1 & Ht1 & Hn1).
  { unfold w1, ensure_lease. by destruct (f_lease _). }
  destruct (lease_with ls_failed w1) eqn:Hfailed.
  { intros [= <- <-]. split_and!; [intros t; rewrite Ht1; apply Ht|by left|by left]. }
  assert (lease_with ls_failed w = false) as ->.
  { apply not_true_iff_false. intros Hf. eapply ensure_keeps_failed in Hf. unfold w1 in Hfailed. by rewrite Hf in Hfailed. }
  set (offered := has_option _ _ _). set (w2 := on_flow (with_transport _ _) _).
  assert (no_healthier w w2) as Hw2.
  { etrans; [exact Hw1|]. etrans; [by apply (no_healthier_lease (lease_registered clock expires offered negotiated))|].
    apply no_healthier_same. unfold w2. rewrite lease_of_on_flow by done. by rewrite lease_of_on_obs. }
  assert (f_tcp (w_flow w2) = tcp ∧ f_no_nat (w_flow w2) = f_no_nat (w_flow w) ∧
          f_timer (w_flow w2) = artifacts_flow_timer artifacts) as (E1 & E2 & E3) by (split_and!; [done|exact Hn1|done]).
  intros [= <- <-]. rewrite <-Hp1.
  destruct (schedule_probe_spec clock expires (of_access offer) negotiated w2) as (Ht3 & Hp3 & Hh3).
  split_and!; [|exact Hp3|].
  { intros t. cbn [on_flow w_flow with_binding_of f_timer]. rewrite Ht3. intros Hpos%Htimer. lia. }
  destruct Hh3 as [Hh3|[(Hneg & Htcp & Hnn & Htm) Hh3]]; [left|right].
  - etrans; [exact Hw2|]. etrans; [exact Hh3|]. by apply no_healthier_same, lease_of_on_flow.
  - rewrite E1 in Htcp. rewrite E2 in Hnn. rewrite E3 in Htm.
    rewrite Hneg, Htcp, Htm, Hnn. eexists. split; [done|]. exists (lease_of w2). simpl.
    rewrite <-Hneg. by rewrite lease_of_on_flow.
Qed.

Lemma acknowledged_inv s w p random kind :
  flow_inv s → f_pending (w_flow w) = Some p → 0 ≤ random ≤ u32_max →
  f_pending (w_flow (fs_world s)) = f_pending (w_flow w) →
  f_timer (w_flow (fs_world s)) = f_timer (w_flow w) →
  flow_inv (advance s (acknowledged (fs_clock s) random w) [mkEv kind (fs_clock s) (answer_window (w_flow w))]).
Proof.
  intros [Ht Hpo _] Hp Hr Hfp Hft. unfold timer_ok, pending_ok in *. rewrite Hft in Ht. rewrite Hfp in Hpo.
  destruct (acknowledged_spec (fs_clock s) random w p Hp Hr (Hpo p Hp) Ht) as (Hp' & Ht' & _ & until & Hl & Hu).
  eapply advance_acknowledged; [exact Hl|exact Hu| |].
  - intros t. rewrite Ht'. apply Ht.
  - intros q. by rewrite Hp'.
Qed.
Lemma receive_stun_spec clock random packet w r w' :
  receive_stun clock random packet w = (r, w') →
  quiet w w' ∨
  ∃ addr, let w1 := on_flow (with_mapped (Some addr)) w in
    w' = acknowledged clock random w1 ∧ is_Some (f_pending (w_flow w1)) ∧
    stun_evidence clock packet w = [mkEv StunAnswer clock (answer_window (w_flow w1))].
Proof.
  unfold receive_stun, stun_evidence. destruct (negb _); [intros [= <- <-]; auto|].
  destruct (f_pending (w_flow w)) as [p|] eqn:Hp; [|intros [= <- <-]; auto].
  destruct (f_tcp (w_flow w)) eqn:Htcp; [intros [= <- <-]; auto|].
  destruct (binding_response packet (pp_id p)) as [[| |addr]|e|]; try (intros [= <- <-]; auto; fail).
  - pose proof (fail_quiet clock random (lit "ims_outbound_stun_error") w) as Hq.
    destruct (fail _ _ _ w) as [e wf]. intros [= <- <-]. by left.
  - case_match.
    + pose proof (fail_quiet clock random (lit "ims_outbound_mapping_changed") w) as Hq.
      destruct (fail _ _ _ w) as [e wf]. intros [= <- <-]. by left.
    + intros [= <- <-]. right. exists addr. split_and!; [done|by eexists|].
      unfold answer_window. simpl. by rewrite Htcp.
Qed.

Lemma flow_inv_step s s' : flow_inv s → flow_step s s' → flow_inv s'.
Proof.
  intros Hi Hstep. destruct (Hi) as [Ht Hp Hh].
  destruct Hstep as [a instance enabled|frame r w H|frame r w H|previous|alloc response tcp exp r w Hf H
    |now id random r w Hn Hr H|random Hr|random packet r w Hr H| |random code|w [Hw Hl]|clock Hc].
  - apply advance_quiet; [done|]. by apply quiet_flow.
  - by eapply advance_quiet, prepare_quiet.
  - by eapply advance_quiet, received_sip_quiet.
  - apply advance_quiet; [done|]. by apply quiet_flow.
  - apply registered_spec in H as (Ht' & Hp' & Hh'); [|done].
    assert (pending_ok (fs_clock s) w) by (intros p; destruct Hp' as [-> | ->]; [apply Hp|done]).
    destruct Hh' as [Hh'|(e & -> & l0 & Hl)]; [by apply advance_inv|].
    by eapply advance_acknowledged; [exact Hl|..].
  - apply poll_spec in H as (Hno & Htm & Hpo); [|done..]. apply advance_inv; [done..| |done].
    intros t. rewrite Htm. apply Ht.
  - unfold pong, pong_evidence. destruct (awaiting_tcp_pong (fs_world s)) eqn:Hwait; [|by apply advance_quiet].
    unfold awaiting_tcp_pong in Hwait. apply andb_true_iff in Hwait as [_ [p Hpend]%bool_decide_eq_true].
    by eapply acknowledged_inv.
  - apply receive_stun_spec in H as [Hq|(addr & -> & [p Hpend] & ->)]; [by apply advance_quiet|].
    by eapply acknowledged_inv.
  - apply advance_inv; [done|by apply no_healthier_none|done|done].
  - by apply advance_quiet, fail_quiet.
  - apply advance_quiet; [done|]. split; [|by rewrite Hw]. destruct Hl as [Hl|Hl]; [by apply no_healthier_same|].
    intros l'. rewrite Hl. by intros (l & _ & ->)%fmap_Some.
  - split; simpl; [done| |done]. intros p Hpend. specialize (Hp p Hpend). lia.
Qed.
Lemma flow_inv_reachable s : flow_reachable s → flow_inv s.
Proof.
  induction 1 as [clock w (Hl & Hp & _ & Ht)|s s' _ IH Hstep]; [|by eapply flow_inv_step].
  split; simpl.
  - intros t. by rewrite Ht.
  - intros p. by rewrite Hp.
  - intros l. unfold lease_of. by rewrite Hl.
Qed.

(** ** Polling an unanswered probe *)
(** The packets that polls at these times send; each poll reads the clock. *)
Fixpoint polls (times : list Z) (w : World) : ims (list (list Z)) * World :=
  match times with
  | [] => (Ok [], w)
  | t :: times =>
    match poll t t None 0 w with
    | (Ok packet, w) => let '(r, w) := polls times w in (packets ← r; Ok (option_list packet ++ packets), w)
    | (Err e, w) => (Err e, w)
    | (Panic, w) => (Panic, w)
    end
  end.
(** The transport task: polling at each deadline; the packets with their times, and
    the failure. *)
Fixpoint drive (n : nat) (w : World) : list (Z * list Z) * option (Z * str) :=
  match n, deadline w with
  | S n, Some t =>
    match poll t t None 0 w with
    | (Ok packet, w) =>
      let '(sent, e) := drive n w in ((match packet with Some p => [(t, p)] | None => [] end) ++ sent, e)
    | (Err e, _) => ([], Some (t, e))
    | (Panic, _) => ([], None)
    end
  | _, _ => ([], None)
  end.
(** A probe is outstanding on a flow that has not failed. *)
Definition probing (p : PendingProbe) (w : World) : Prop :=
  f_pending (w_flow w) = Some p ∧ lease_with ls_failed w = false ∧
  (f_tcp (w_flow w) = true → pp_deadline p = pp_timeout_at p).
Definition with_pending (p : PendingProbe) (w : World) : World :=
  on_flow (with_probe (f_next_probe (w_flow w)) (Some p)) w.
Lemma lease_with_on_flow g p w : f_lease (g (w_flow w)) = f_lease (w_flow w) →
  lease_with p (on_flow g w) = lease_with p w.
Proof. intros H. unfold lease_with. by rewrite lease_of_on_flow. Qed.
Lemma with_pending_same p w : f_pending (w_flow w) = Some p → with_pending p w = w.
Proof. intros Hp. destruct w as [[] h o]. unfold with_pending, on_flow, with_probe. simpl in *. by subst. Qed.
Lemma poll_early t p w : probing p w → t < pp_deadline p → poll t t None 0 w = (Ok None, w).
Proof. intros (Hp & Hf & _) Ht. unfold poll. by rewrite Hf, Hp, (proj2 (Z.ltb_lt _ _)). Qed.
Lemma poll_resend t p w :
  probing p w → f_tcp (w_flow w) = false → pp_deadline p ≤ t < pp_timeout_at p → pp_retransmits p < 7 →
  poll t t None 0 w = (Ok (Some (pp_packet p)), with_pending (retransmit t p) w).
Proof.
  intros (Hp & Hf & _) Htcp Ht Hn. unfold poll, with_pending.
  rewrite Hf, Hp, Htcp, (proj2 (Z.ltb_ge _ _)), (proj2 (Z.leb_gt _ _)) by lia. cbn [orb].
  by rewrite (proj2 (Z.leb_gt _ _)).
Qed.
Lemma poll_late t random p w :
  probing p w → pp_deadline p ≤ pp_timeout_at p ≤ t →
  poll t t None random w =
    (Err (lit "ims_outbound_keepalive_timeout"), (fail t random (lit "ims_outbound_keepalive_timeout") w).2).
Proof.
  intros (Hp & Hf & _) Ht. unfold poll.
  rewrite Hf, Hp, (proj2 (Z.ltb_ge _ _)), (proj2 (Z.leb_le _ _)), orb_true_r by lia. done.
Qed.
Lemma poll_probing t p w :
  probing p w → t < pp_timeout_at p → pp_deadline p ≤ pp_timeout_at p →
  ∃ p' packet, poll t t None 0 w = (Ok packet, with_pending p' w) ∧ probing p' (with_pending p' w) ∧
    pp_packet p' = pp_packet p ∧ pp_timeout_at p' = pp_timeout_at p ∧ pp_deadline p' ≤ pp_timeout_at p' ∧
    (packet = None ∧ pp_retransmits p' = pp_retransmits p ∨
     packet = Some (pp_packet p) ∧ f_tcp (w_flow w) = false ∧ pp_retransmits p < 7 ∧
     pp_retransmits p' = pp_retransmits p + 1).
Proof.
  intros Hpr Ht Hd. destruct (Hpr) as (Hp & Hf & Htcp).
  assert (∀ q, (f_tcp (w_flow w) = true → pp_deadline q = pp_timeout_at q) → probing q (with_pending q w)) as Hq.
  { intros q Hq. split_and!; [done| |done]. by rewrite <-Hf; apply lease_with_on_flow. }
  destruct (Z.lt_ge_cases t (pp_deadline p)).
  { exists p, None. rewrite with_pending_same, (poll_early t p) by done. split_and!; try done. by left. }
  destruct (f_tcp (w_flow w)) eqn:Ht'; [rewrite Htcp in * by done; lia|].
  destruct (Z.lt_ge_cases (pp_retransmits p) 7) as [Hn|Hn].
  { do 2 eexists. split; [by apply poll_resend|]. split_and!; [by apply Hq|done|done| |by right].
    unfold retransmit. simpl. destruct (_ =? 7); lia. }
  do 2 eexists. split.
  { unfold poll. rewrite Hf, Hp, Ht', (proj2 (Z.ltb_ge _ _)), (proj2 (Z.leb_gt _ _)) by lia. cbn [orb].
    by rewrite (proj2 (Z.leb_le _ _)). }
  split_and!; [by apply Hq|done|done|simpl; lia|by left].
Qed.
Lemma polls_probing times p w :
  probing p w → Forall (λ t, t < pp_timeout_at p) times → pp_deadline p ≤ pp_timeout_at p →
  ∃ n p', polls times w = (Ok (replicate n (pp_packet p)), with_pending p' w) ∧ probing p' (with_pending p' w) ∧
    pp_timeout_at p' = pp_timeout_at p ∧ pp_deadline p' ≤ pp_timeout_at p' ∧
    (n = 0%nat ∨ f_tcp (w_flow w) = false ∧ pp_retransmits p + Z.of_nat n ≤ 7).
Proof.
  intros Hp Ht. revert p w Hp Ht. induction times as [|t times IH]; intros p w Hp Ht Hd.
  { exists 0%nat, p. rewrite with_pending_same by apply Hp. split_and!; try done. by left. }
  apply Forall_cons in Ht as [Ht Hts].
  destruct (poll_probing t p w Hp Ht Hd) as (p1 & packet & Heq & Hp1 & Hpk & Hto & Hd1 & Hcase).
  cbn [polls]. rewrite Heq. destruct (IH p1 (with_pending p1 w)) as (n & p2 & Heq2 & Hp2 & Hto2 & Hd2 & Hn).
  { done. } { by rewrite Hto. } { done. }
  rewrite Heq2, Hpk. change (with_pending p2 (with_pending p1 w)) with (with_pending p2 w) in *.
  cbn [with_pending on_flow w_flow with_probe f_tcp] in Hn.
  destruct Hcase as [[-> Hr]|(-> & Htcp & Hlt & Hr)].
  - exists n, p2. split_and!; try done; [by rewrite Hto2|]. destruct Hn as [->|[? ?]]; [by left|right; split; [done|lia]].
  - exists (S n), p2. split_and!; try done; [by rewrite Hto2|]. right. split; [done|].
    destruct Hn as [->|[_ Hn]]; lia.
Qed.

(** The probe started at [start] after [k] retransmissions made at its deadlines. *)
Definition retransmission_at (start k : Z) : Z := start + STUN_RTO + k * (STUN_RTO * 2).
Definition probe_at (start : Z) (id packet : list Z) (k : Z) : PendingProbe :=
  mkProbe id packet (if k =? 7 then start + STUN_TIMEOUT else retransmission_at start k) k (start + STUN_TIMEOUT).
Lemma retransmit_probe_at start id packet k : 0 ≤ k < 7 →
  retransmit (pp_deadline (probe_at start id packet k)) (probe_at start id packet k) = probe_at start id packet (k + 1).
Proof.
  intros Hk. unfold retransmit, probe_at. simpl. rewrite (proj2 (Z.eqb_neq k 7)) by lia.
  destruct (Z.eqb_spec (k + 1) 7); [done|]. f_equal.
  unfold retransmission_at, STUN_RTO, STUN_TIMEOUT, from_millis, from_secs. lia.
Qed.
Lemma drive_probe start id packet w m k :
  0 ≤ k ≤ 7 → Z.of_nat m = 7 - k → f_tcp (w_flow w) = false → lease_with ls_failed w = false →
  drive (S m) (with_pending (probe_at start id packet k) w) =
    ((λ j, (retransmission_at start j, packet)) <$> seqZ k (7 - k),
     Some (start + STUN_TIMEOUT, lit "ims_outbound_keepalive_timeout")).
Proof.
  intros Hk Hm Htcp Hf. revert k Hk Hm. induction m as [|m IH]; intros k Hk Hm;
    set (p := probe_at start id packet k); set (w' := with_pending p w);
    (assert (probing p w') as Hp by (split_and!; [done|by rewrite <-Hf; apply lease_with_on_flow|simpl; congruence]));
    change (deadline w') with (Some (pp_deadline p)).
  - assert (k = 7) as -> by lia. cbn [drive]. change (deadline w') with (Some (pp_deadline p)). cbv iota.
    rewrite (poll_late _ _ p) by (done || (unfold p, probe_at; simpl; lia)). done.
  - assert (k < 7) as Hlt by lia.
    assert (pp_deadline p = retransmission_at start k) as Hd.
    { unfold p, probe_at. simpl. by rewrite (proj2 (Z.eqb_neq k 7)) by lia. }
    remember (S m) as n eqn:Hn. cbn [drive]. change (deadline w') with (Some (pp_deadline p)). cbv iota.
    rewrite (poll_resend _ p); [|done|done| |done].
    2: { rewrite Hd. unfold p, probe_at, retransmission_at, STUN_RTO, STUN_TIMEOUT, from_millis, from_secs. simpl. lia. }
    assert (retransmit (pp_deadline p) p = probe_at start id packet (k + 1)) as -> by (apply retransmit_probe_at; lia).
    subst n.
    change (with_pending (probe_at start id packet (k + 1)) w') with (with_pending (probe_at start id packet (k + 1)) w).
    rewrite IH by lia. rewrite (seqZ_cons k) by lia. rewrite fmap_cons, Hd.
    replace (Z.succ k) with (k + 1) by lia. replace (Z.pred (7 - k)) with (7 - (k + 1)) by lia. done.
Qed.

(** ** The outcome of a registration *)
Lemma alter_invalidate_failed (h : gmap nat FlowLease) i j :
  i = j ∨ (∀ l, h !! i = Some l → ls_failed (fl_state l) = true) →
  ∀ l, alter invalidate j h !! i = Some l → ls_failed (fl_state l) = true.
Proof.
  intros Hh l. destruct (decide (i = j)) as [<-|Hne].
  - rewrite lookup_alter_eq. by intros (l0 & _ & ->)%fmap_Some.
  - rewrite lookup_alter_ne by done. destruct Hh as [->|Hh]; [done|apply Hh].
Qed.
Lemma upgrade_invalidated h o a l :
  upgrade (invalidate_outbound_flows h o) (per_get a (flows o)) = Some l → ls_failed (fl_state l) = true.
Proof.
  unfold upgrade, invalidate_outbound_flows, Leases. intros (i & Ha & Hl)%bind_Some. revert l Hl.
  destruct a; simpl in Ha; rewrite Ha.
  - destruct (on_wlan (flows o)); [apply alter_invalidate_failed; right|]; apply alter_invalidate_failed; by left.
  - apply alter_invalidate_failed. by left.
Qed.
(** A live owner keeps its lease in the store. *)
Definition lease_alive (w : World) : Prop := is_Some (f_lease (w_flow w)) → is_Some (lease_of w).
Lemma lease_of_ensure clock alloc instance offered w :
  lease_alive w → ∃ l, lease_of (ensure_lease clock alloc instance offered w) = Some l ∧
    (lease_of w = None ∧ l = new_lease clock instance offered ∨ lease_of w = Some l).
Proof.
  intros Hal. unfold ensure_lease. destruct (f_lease (w_flow w)) as [i|] eqn:Hl.
  - destruct Hal as [l Hal]; [by rewrite Hl|]. exists l. auto.
  - eexists. split; [|left; split; [|done]].
    + unfold lease_of, upgrade. cbn. unfold Leases. apply lookup_insert_eq.
    + unfold lease_of. by rewrite Hl.
Qed.
Lemma schedule_probe_lease clock expires a negotiated w l :
  lease_of w = Some l → f_lease (w_flow (schedule_probe clock expires a negotiated w)) = f_lease (w_flow w) ∧
  flows (w_obs (schedule_probe clock expires a negotiated w)) = flows (w_obs w) ∧
  (negotiated = false → active (schedule_probe clock expires a negotiated w) = false) ∧
  ∃ l', lease_of (schedule_probe clock expires a negotiated w) = Some l' ∧
    (l' = l ∨ l' = acknowledge (clock + from_secs expires) l).
Proof.
  intros Hl. unfold schedule_probe. destruct (negotiated && negb _ && _ && _) eqn:Hc.
  - split_and!; try done. eexists. rewrite lease_of_on_obs, lease_of_on_lease.
    rewrite lease_of_on_flow, Hl by done. split; [done|by right].
  - destruct negotiated; [|split_and!; try done; exists l; rewrite lease_of_on_flow by done; auto].
    destruct (bool_decide _ && bool_decide _); (split_and!; try done);
      exists l; rewrite ?lease_of_on_flow by done; auto.
Qed.

(** * Properties *)

(** Evidence of a registration is that of one the code accepted. *)
Lemma registered_evidence_accepted clock alloc response tcp default_expires w e :
  lease_alive w → e ∈ registered_evidence clock response tcp default_expires w →
  ∃ artifacts w', registered clock alloc response tcp default_expires w = (Ok artifacts, w') ∧
    ev_clock e = clock ∧ lease_with ls_negotiated w' = true.
Proof.
  intros Halive. unfold registered_evidence, registered.
  destruct (f_offer (w_flow w)) as [offer|]; [|by intros ?%elem_of_nil].
  destruct (f_last_request (w_flow w)) as [request|]; [|by intros ?%elem_of_nil].
  destruct (outbound_answer offer request response) as [artifacts negotiated].
  destruct (_ && _) eqn:Hc; [|by intros ?%elem_of_nil]. intros ->%list_elem_of_singleton.
  apply andb_true_iff in Hc as [Hc _]. rewrite !andb_true_iff, !negb_true_iff in Hc. destruct Hc as ((((Ha & Hs) & Hn) & He) & Hf).
  rewrite Ha, Hs, Hn, He. cbn [negb orb andb]. rewrite andb_false_r.
  set (w0 := on_obs _ w). set (w1 := ensure_lease _ _ _ _ w0).
  destruct (lease_of_ensure clock alloc (of_instance offer) (has_option request (lit "Supported") (lit "outbound")) w0 Halive)
    as (l1 & Hl1 & Hcase). fold w1 in Hl1.
  assert (lease_with ls_failed w1 = false) as ->.
  { unfold lease_with in Hf |- *. rewrite Hl1. destruct Hcase as [[_ ->]|Hl]; [done|].
    change (lease_of w0) with (lease_of w) in Hl. by rewrite Hl in Hf. }
  eexists _, _. split; [reflexivity|]. split; [done|].
  set (expires := default _ _). set (w2 := on_flow (with_transport _ _) _).
  set (offered := has_option request (lit "Supported") (lit "outbound")) in *.
  assert (lease_of w2 = Some (lease_registered clock expires offered true l1)) as Hl2.
  { unfold w2. rewrite lease_of_on_flow by done. by rewrite lease_of_on_obs, lease_of_on_lease, Hl1. }
  destruct (schedule_probe_lease clock expires (of_access offer) true w2 _ Hl2) as (_ & _ & _ & l' & Hl' & Hcase').
  unfold lease_with. rewrite lease_of_on_flow, Hl' by done. by destruct Hcase' as [-> | ->].
Qed.

(** C24: a flow is proven only on evidence.  However registrations, polls, answers,
    failures and the other access interleave, when the lease of a flow counts as
    proven, then since that lease was created the probe outstanding at some moment
    was answered, by a Binding response with its transaction id or a pong on its
    stream, or a registration was accepted that needs no probe: a 200 to the REGISTER
    sent last which negotiates the flow, under a lease that had not failed, over UDP on
    a path observed without NAT and with no Flow-Timer; and no more time has passed since
    than that evidence covers: the next keep-alive interval and the probe timeout, or the
    lifetime the registration was given. *)
Theorem proven_flow_has_evidence s l now :
  flow_reachable s → lease_of (fs_world s) = Some l → proven now l = true →
  ∃ e, e ∈ fs_evidence s ∧ now < ev_clock e + ev_window e.
Proof.
  intros [_ _ Hh]%flow_inv_reachable Hl. unfold proven. rewrite !andb_true_iff, Z.ltb_lt.
  intros ((((_ & Hhealthy) & _) & _) & Hu). destruct (Hh l Hl Hhealthy) as (e & He & Hle).
  exists e. split; [done|lia].
Qed.

(** C27: an unanswered probe is noticed in time.  A probe sent at [start] and polled
    at any times before its timeout (8 s, 10 s on a stream) fails at none of them
    and is sent again at most seven times, on a stream never; the first poll at the
    timeout or later reports the timeout and leaves the lease failed, and so every
    later poll fails too. *)
Theorem unanswered_probe_detected w w1 start id random packet times late random' :
  f_pending (w_flow w) = None → lease_with ls_failed w = false →
  poll start start (Some id) random w = (Ok (Some packet), w1) →
  let timeout := start + probe_timeout (f_tcp (w_flow w)) in
  Forall (λ t, t < timeout) times → timeout ≤ late →
  ∃ n w2 w3, polls times w1 = (Ok (replicate n packet), w2) ∧
    (n ≤ if f_tcp (w_flow w) then 0 else 7)%nat ∧
    poll late late None random' w2 = (Err (lit "ims_outbound_keepalive_timeout"), w3) ∧
    lease_of w3 = invalidate <$> lease_of w.
Proof.
  intros Hnone Hf Hpoll timeout Hts Hlate. unfold poll in Hpoll. rewrite Hf, Hnone in Hpoll.
  destruct (match f_next_probe (w_flow w) with Some d => start <? d | None => true end); [done|].
  injection Hpoll as Hpk <-. set (p := mkProbe _ _ _ _ _). set (w1 := on_flow _ w).
  assert (pp_deadline p ≤ pp_timeout_at p) as Hd.
  { unfold p, probe_timeout, PONG_TIMEOUT, STUN_RTO, STUN_TIMEOUT, from_millis, from_secs. simpl.
    destruct (f_tcp _); lia. }
  assert (probing p w1) as Hp.
  { split_and!; [done|by rewrite <-Hf; apply lease_with_on_flow|]. unfold p, w1, probe_timeout. simpl. by intros ->. }
  destruct (polls_probing times p w1 Hp Hts Hd) as (n & p2 & Heq & Hp2 & Hto & Hd2 & Hn).
  assert (pp_packet p = packet) as Hpp by done. rewrite Hpp in Heq.
  eexists n, _, _. split; [exact Heq|]. split.
  { destruct Hn as [->|[Htcp Hn]]; [lia|]. change (f_tcp (w_flow w1)) with (f_tcp (w_flow w)) in Htcp.
    rewrite Htcp. simpl in Hn. lia. }
  split; [apply (poll_late _ _ p2); [done|]|].
  { split; [done|]. rewrite Hto. exact Hlate. }
  destruct (fail_spec late random' (lit "ims_outbound_keepalive_timeout") (with_pending p2 w1)) as (_ & _ & -> & _).
  unfold with_pending. rewrite lease_of_on_flow by done. unfold w1. by rewrite lease_of_on_flow.
Qed.

(** The transmission schedule over UDP.  When the transport task polls exactly
    at each deadline and nothing answers, the probe sent at [start] is sent again
    after 0.5, 1.5, 2.5, 3.5, 4.5, 5.5 and 6.5 s and reported failed after 8 s. *)
Theorem probe_schedule w w1 start id random packet :
  f_pending (w_flow w) = None → lease_with ls_failed w = false → f_tcp (w_flow w) = false →
  poll start start (Some id) random w = (Ok (Some packet), w1) →
  drive 8 w1 = ((λ k, (start + from_millis (500 + 1000 * k), packet)) <$> seqZ 0 7,
                Some (start + from_secs 8, lit "ims_outbound_keepalive_timeout")).
Proof.
  intros Hnone Hf Htcp Hpoll. unfold poll in Hpoll. rewrite Hf, Hnone, Htcp in Hpoll.
  destruct (match f_next_probe (w_flow w) with Some d => start <? d | None => true end); [done|].
  injection Hpoll as <- <-. set (p := mkProbe _ _ _ _ _).
  assert (p = probe_at start id (binding_request id) 0) as ->.
  { unfold p, probe_at, retransmission_at. simpl. f_equal. lia. }
  change (on_flow _ w) with (with_pending (probe_at start id (binding_request id) 0) (on_flow (with_probe None None) w)).
  rewrite drive_probe by (done || (by rewrite <-Hf; apply lease_with_on_flow)). f_equal.
  apply list_fmap_ext. intros _ k _. f_equal.
  unfold retransmission_at, STUN_RTO, from_millis. lia.
Qed.

(** C38: what a final response to the REGISTER means for the flow.  A response of
    another transaction changes nothing.  When outbound was required by either side
    and not negotiated, the registration fails, both accesses' flows are failed and
    the access may not offer outbound until its cooling-down ends.  A failed flow
    stays failed.  Otherwise a zero lifetime ends the flow; any other leaves it
    attached to the coordinator with a lease of exactly that lifetime, negotiated
    just when the response says so, and without probes when not. *)
Theorem registration_outcome clock alloc response tcp default_expires w r w' offer request :
  f_offer (w_flow w) = Some offer → f_last_request (w_flow w) = Some request → lease_alive w →
  registered clock alloc response tcp default_expires w = (r, w') →
  let a := of_access offer in
  let artifacts := (outbound_answer offer request response).1 in
  let negotiated := (outbound_answer offer request response).2 in
  let expires := default default_expires (expires_seconds artifacts) in
  match r with
  | Err e =>
    e = lit "ims_outbound_register_response_mismatch" ∧ w' = w ∨
    e = lit "ims_outbound_negotiation_lost" ∧ negotiated = false ∧ may_offer_outbound clock (w_obs w') a = false ∧
      (∀ b l, upgrade (w_leases w') (per_get b (flows (w_obs w'))) = Some l → ls_failed (fl_state l) = true) ∨
    e = lit "ims_outbound_flow_failed" ∧ ∃ l, lease_of w = Some l ∧ lease_of w' = Some l ∧ ls_failed (fl_state l) = true
  | Ok x => x = artifacts ∧ answers_request request response = true ∧ res_ok (parse_status response) = Some 200 ∧
    (has_option request (lit "Require") (lit "outbound") || outbound_required artifacts = true → negotiated = true) ∧
    (expires = 0 ∧ lease_of w' = None ∧ active w' = false ∨
     expires ≠ 0 ∧ (negotiated = false → active w' = false) ∧ ∃ l, lease_of w' = Some l ∧
       upgrade (w_leases w') (per_get a (flows (w_obs w'))) = Some l ∧
       ls_failed (fl_state l) = false ∧ ls_negotiated (fl_state l) = negotiated ∧
       ls_expires (fl_state l) = clock + from_secs expires)
  | Panic => False
  end.
Proof.
  intros Hoffer Hrequest Halive. unfold registered. rewrite Hoffer, Hrequest.
  destruct (negb _ || negb _) eqn:Hmatch; [intros [= <- <-]; by left|].
  apply orb_false_iff in Hmatch as [Hans%negb_false_iff Hstatus%negb_false_iff%bool_decide_eq_true].
  destruct (outbound_answer offer request response) as [artifacts negotiated]. cbn beta iota zeta delta [fst snd].
  destruct (_ && negb negotiated) eqn:Hlost.
  { intros [= <- <-]. right; left. apply andb_true_iff in Hlost as [_ ->%negb_true_iff]. split_and!; try done.
    - unfold may_offer_outbound. simpl. rewrite per_get_set. apply Z.leb_gt. unfold from_secs. lia.
    - intros b l. apply upgrade_invalidated. }
  assert (has_option request (lit "Require") (lit "outbound") || outbound_required artifacts = true →
          negotiated = true) as Hneg.
  { intros Hreq. rewrite Hreq in Hlost. by apply negb_false_iff. }
  set (expires := default _ _). destruct (Z.eqb_spec expires 0) as [H0|H0].
  { intros [= <- <-]. split_and!; try done. by left. }
  set (w1 := ensure_lease _ _ _ _ _).
  destruct (lease_of_ensure clock alloc (of_instance offer) (has_option request (lit "Supported") (lit "outbound"))
     (on_obs (observe_response (of_access offer) (outbound_required artifacts) (artifacts_flow_timer artifacts)) w)
     Halive) as (l1 & Hl1 & Hcase). fold w1 in Hl1.
  unfold lease_with. rewrite Hl1. destruct (ls_failed (fl_state l1)) eqn:Hfailed.
  { intros [= <- <-]. right; right. split; [done|]. exists l1. destruct Hcase as [[_ ->]|?]; done. }
  set (offered := has_option request (lit "Supported") (lit "outbound")) in *.
  set (w2 := on_flow (with_transport _ _) _).
  assert (lease_of w2 = Some (lease_registered clock expires offered negotiated l1)) as Hl2.
  { unfold w2. rewrite lease_of_on_flow by done. by rewrite lease_of_on_obs, lease_of_on_lease, Hl1. }
  destruct (schedule_probe_lease clock expires (of_access offer) negotiated w2 _ Hl2)
    as (Hfl & Hflows & Hactive & l' & Hl' & Hcase').
  intros [= <- <-]. split_and!; try done. right. split_and!; try done. exists l'.
  assert (ls_failed (fl_state l') = false ∧ ls_negotiated (fl_state l') = negotiated ∧
          ls_expires (fl_state l') = clock + from_secs expires) as (? & ? & ?)
    by by destruct Hcase' as [-> | ->].
  rewrite lease_of_on_flow by done. split_and!; try done.
  cbn [on_flow w_obs w_leases]. rewrite Hflows.
  assert (per_get (of_access offer) (flows (w_obs w2)) = f_lease (w_flow w2)) as -> by apply per_get_set.
  rewrite <-Hfl. exact Hl'.
Qed.

(** A registration over WLAN, its probe and the answer. *)
Definition sample_request : list Z :=
  message [lit "REGISTER sip:ims.test SIP/2.0"; lit "Call-ID: c"; lit "CSeq: 1 REGISTER";
           lit "Contact: <sip:ue@192.0.2.1:5060>"] [].
Definition sample_response : list Z :=
  message [lit "SIP/2.0 200 OK"; lit "Call-ID: c"; lit "CSeq: 1 REGISTER"; lit "Require: outbound";
           lit "Contact: <sip:ue@192.0.2.1:5060>;+sip.instance=" ++ [quote] ++ lit "<urn:x>" ++ [quote]
             ++ lit ";reg-id=2;expires=600"] [].
Definition do_prepare (frame : list Z) (s : FlowSystem) : FlowSystem :=
  advance s (prepare (fs_clock s) frame (fs_world s)).2 [].
Definition do_registered (alloc : nat) (response : list Z) (tcp : bool) (d : Z) (s : FlowSystem) : FlowSystem :=
  advance s (registered (fs_clock s) alloc response tcp d (fs_world s)).2
    (registered_evidence (fs_clock s) response tcp d (fs_world s)).
Definition do_poll (now : Z) (id : option (list Z)) (s : FlowSystem) : FlowSystem :=
  advance s (poll (fs_clock s) now id 0 (fs_world s)).2 [].
Definition do_stun (packet : list Z) (s : FlowSystem) : FlowSystem :=
  advance s (receive_stun (fs_clock s) 0 packet (fs_world s)).2 (stun_evidence (fs_clock s) packet (fs_world s)).
Definition sample_start : FlowSystem := mkFlowSystem 0 (mkWorld flow_default ∅ observation_default) [].
Definition sample_configured : FlowSystem :=
  advance sample_start (configure Wlan (lit "urn:x") true (fs_world sample_start)) [].
Definition sample_prepared : FlowSystem := do_prepare sample_request sample_configured.
Definition sample_registered : FlowSystem := do_registered 0 sample_response false 3600 sample_prepared.
Definition sample_polled : FlowSystem := do_poll 0 (Some example_id) sample_registered.
Definition sample_packet : list Z := stun_message 0x0101 example_id example_attrs.
Definition sample_answered : FlowSystem := do_stun sample_packet sample_polled.
Lemma do_prepare_step frame s : flow_step s (do_prepare frame s).
Proof. eapply FlowPrepare, surjective_pairing. Qed.
Lemma do_registered_step alloc response tcp d s : w_leases (fs_world s) !! alloc = None →
  flow_step s (do_registered alloc response tcp d s).
Proof. intros Hf. eapply (FlowRegistered s alloc); [done|apply surjective_pairing]. Qed.
Lemma do_poll_step now id s : now ≤ fs_clock s → flow_step s (do_poll now id s).
Proof. intros Hn. eapply (FlowPoll s now id 0); [done|unfold u32_max; lia|apply surjective_pairing]. Qed.
Lemma do_stun_step packet s : flow_step s (do_stun packet s).
Proof. eapply (FlowStun s 0); [unfold u32_max; lia|apply surjective_pairing]. Qed.
Lemma sample_reachable : flow_reachable sample_answered.
Proof.
  eapply flow_next, do_stun_step. eapply flow_next, do_poll_step; [|vm_compute; discriminate].
  eapply flow_next, do_registered_step; [|vm_compute; reflexivity]. eapply flow_next, do_prepare_step.
  eapply flow_next, FlowConfigure. by apply flow_start.
Qed.
Definition sample_lease : FlowLease := default (new_lease 0 [] false) (lease_of (fs_world sample_answered)).

Lemma proven_flow_has_evidence_witness :
  proven (from_secs 30) sample_lease = true ∧
  ∃ e, e ∈ fs_evidence sample_answered ∧ from_secs 30 < ev_clock e + ev_window e.
Proof.
  assert (proven (from_secs 30) sample_lease = true) as Hp by (vm_compute; reflexivity).
  split; [exact Hp|]. apply (proven_flow_has_evidence sample_answered sample_lease); [exact sample_reachable| |exact Hp].
  vm_compute. reflexivity.
Defined.
Lemma unanswered_probe_detected_witness :
  let w := fs_world sample_registered in
  poll 0 0 (Some example_id) 0 w = (Ok (Some (binding_request example_id)), fs_world sample_polled) ∧
  ∃ n w2 w3, polls [from_secs 1; from_secs 1; from_secs 7] (fs_world sample_polled) =
      (Ok (replicate n (binding_request example_id)), w2) ∧ (n ≤ 7)%nat ∧
    poll (from_secs 8) (from_secs 8) None 0 w2 = (Err (lit "ims_outbound_keepalive_timeout"), w3) ∧
    lease_of w3 = invalidate <$> lease_of w.
Proof.
  assert (poll 0 0 (Some example_id) 0 (fs_world sample_registered) =
    (Ok (Some (binding_request example_id)), fs_world sample_polled)) as Hp by (vm_compute; reflexivity).
  split; [exact Hp|].
  apply (unanswered_probe_detected (fs_world sample_registered) (fs_world sample_polled) 0 example_id 0
           (binding_request example_id) [from_secs 1; from_secs 1; from_secs 7] (from_secs 8) 0);
    [vm_compute; reflexivity|vm_compute; reflexivity|exact Hp| |vm_compute; discriminate].
  apply (bool_decide_unpack _). vm_compute. exact I.
Defined.
Lemma probe_schedule_witness :
  let w := fs_world sample_registered in
  f_tcp (w_flow w) = false ∧
  drive 8 (fs_world sample_polled) =
    ((λ k, (0 + from_millis (500 + 1000 * k), binding_request example_id)) <$> seqZ 0 7,
     Some (0 + from_secs 8, lit "ims_outbound_keepalive_timeout")).
Proof.
  split; [vm_compute; reflexivity|].
  apply (probe_schedule (fs_world sample_registered) _ 0 example_id 0); vm_compute; reflexivity.
Defined.
Lemma registration_outcome_witness :
  ∃ offer request, f_offer (w_flow (fs_world sample_prepared)) = Some offer ∧
    f_last_request (w_flow (fs_world sample_prepared)) = Some request ∧
    (registered 0 0 sample_response false 3600 (fs_world sample_prepared)).1 =
      Ok (outbound_answer offer request sample_response).1.
Proof.
  exists (mkOffer Wlan (lit "urn:x") true).
  exists (default [] (f_last_request (w_flow (fs_world sample_prepared)))).
  split; [vm_compute; reflexivity|]. split; [vm_compute; reflexivity|].
  pose proof (registration_outcome 0 0 sample_response false 3600 (fs_world sample_prepared)
    (registered 0 0 sample_response false 3600 (fs_world sample_prepared)).1
    (registered 0 0 sample_response false 3600 (fs_world sample_prepared)).2
    (mkOffer Wlan (lit "urn:x") true) (default [] (f_last_request (w_flow (fs_world sample_prepared))))
    ltac:(vm_compute; reflexivity) ltac:(vm_compute; reflexivity)
    ltac:(by intros [i Hi]) (surjective_pairing _)) as H.
  cbv zeta in H. destruct (registered 0 0 sample_response false 3600 (fs_world sample_prepared)).1 as [x|e|] eqn:Hr.
  - by destruct H as [-> _].
  - vm_compute in Hr. discriminate.
  - destruct H.
Defined.
