(* ===== verification/RegInfo.v ===== *)
(** * Registration information documents

    Models [connectivity/core/reg_event_xml.rs]: the tree built from the events of
    [quick_xml], the strict reading of a [reginfo] document and the state of the own
    binding over a sequence of documents.  The tokenizer is a crate: a body is given
    by the events it reads, [None] where it fails.  A hash set is the list of what
    was inserted; all errors are one. *)
From Stdlib Require Import Ascii String ZArith Lia.
From stdpp Require Import prelude gmap.
From S2P Require Import Prelude Text SipFrame RetryAfter RegisterResponse RegEvent OutboundOffer.
Local Open Scope Z_scope.

(** ** Effects *)
Inductive RegEventTerminationReason := Expired | Deactivated | Probation | Rejected | Unregistered.
#[export] Instance RegEventTerminationReason_eq_dec : EqDecision RegEventTerminationReason.
Proof. solve_decision. Defined.
Definition termination_as_str (r : RegEventTerminationReason) : str :=
  match r with
  | Expired => lit "reg_event_expired"
  | Deactivated => lit "reg_event_deactivated"
  | Probation => lit "reg_event_probation"
  | Rejected => lit "reg_event_rejected"
  | Unregistered => lit "reg_event_unregistered"
  end.
Inductive RegEventEffect :=
| NoEffect
| BindingTerminated (reason : RegEventTerminationReason) (retry_after : option Z)
| NeedFull.
#[export] Instance RegEventEffect_eq_dec : EqDecision RegEventEffect.
Proof. solve_decision. Defined.

(** ** Nodes *)
Definition NS : str := lit "urn:ietf:params:xml:ns:reginfo".
Definition MAX_DEPTH : nat := 16.
Definition MAX_NODES : nat := 1024.
Definition MAX_REGISTRATIONS : nat := 64.
Definition MAX_CONTACTS : nat := 256.
#[warnings="-register-all"]
Inductive Node := mkNode (ns name : str) (attrs : list (str * str * str)) (children : list Node) (text : str).
Definition n_ns (n : Node) : str := let '(mkNode ns _ _ _ _) := n in ns.
Definition n_name (n : Node) : str := let '(mkNode _ name _ _ _) := n in name.
Definition n_attrs (n : Node) : list (str * str * str) := let '(mkNode _ _ attrs _ _) := n in attrs.
Definition n_children (n : Node) : list Node := let '(mkNode _ _ _ children _) := n in children.
Definition n_text (n : Node) : str := let '(mkNode _ _ _ _ text) := n in text.
Definition attr (n : Node) (name : str) : option str :=
  '(_, _, v) ← List.find (λ a, bool_decide (a.1.1 = []) && str_eqb a.1.2 name) (n_attrs n); Some v.
Definition required (n : Node) (name : str) : ims str := or_invalid (attr n name).
Definition element_only (n : Node) : ims unit := require_ok (bool_decide (trim (n_text n) = [])).
Definition leaf_text (n : Node) : ims str :=
  if bool_decide (n_children n = []) then Ok (trim (n_text n)) else invalid.

Definition critical_element (name : str) : bool :=
  existsb (str_eqb name) [lit "reginfo"; lit "registration"; lit "contact"; lit "uri"; lit "unknown-param"].
Definition critical_attribute (name : str) : bool :=
  existsb (str_eqb name) [lit "version"; lit "state"; lit "id"; lit "aor"; lit "event"; lit "name";
    lit "expires"; lit "duration-registered"; lit "retry-after"].
Fixpoint ignore_extension (n : Node) : ims unit :=
  let '(mkNode _ name _ children _) := n in
  if critical_element name then invalid
  else (fix each (children : list Node) : ims unit :=
          match children with
          | [] => Ok tt
          | child :: children => ignore_extension child;; each children
          end) children.

(** ** Documents *)
Inductive ContactState := StateActive | StateTerminated.
#[export] Instance ContactState_eq_dec : EqDecision ContactState.
Proof. solve_decision. Defined.
Definition state_of (value : str) : ims ContactState :=
  if str_eqb value (lit "active") then Ok StateActive
  else if str_eqb value (lit "terminated") then Ok StateTerminated else invalid.
Record Contact := mkContact {
  ct_id : str;
  ct_state : ContactState;
  ct_reason : option RegEventTerminationReason;
  ct_uri : option str;
  ct_instance : option str;
  ct_reg_id : option Z;
  ct_retry_after : option Z;
}.
Record Registration := mkRegistration {
  rg_id : str; rg_aor : str; rg_state : ContactState; rg_contacts : list Contact;
}.
Record Document := mkDocument { doc_version : Z; doc_full : bool; doc_registrations : list Registration }.

Definition bounded_id (value : str) : ims str :=
  if bool_decide (value = []) || (256 <? byte_len value) || existsb is_control value then invalid else Ok value.
Definition contact_reason (event : str) (s : ContactState) : ims (option RegEventTerminationReason) :=
  let active := bool_decide (s = StateActive) in
  let is_ e := str_eqb event e in
  if (is_ (lit "registered") || is_ (lit "created") || is_ (lit "refreshed") || is_ (lit "shortened")) && active
  then Ok None
  else if is_ (lit "expired") && negb active then Ok (Some Expired)
  else if is_ (lit "deactivated") && negb active then Ok (Some Deactivated)
  else if is_ (lit "probation") && negb active then Ok (Some Probation)
  else if is_ (lit "rejected") && negb active then Ok (Some Rejected)
  else if is_ (lit "unregistered") && negb active then Ok (Some Unregistered)
  else invalid.

(** The children of a contact: URI, instance, reg-id and the parameter names seen. *)
Record ContactFields := mkFields {
  cf_uri : option str; cf_instance : option str; cf_reg_id : option Z; cf_names : list str;
}.
Definition contact_field (st : ContactFields) (field : Node) : ims ContactFields :=
  let '(mkFields uri instance reg_id names) := st in
  if str_eqb (n_ns field) NS && str_eqb (n_name field) (lit "uri") then
    if bool_decide (is_Some uri) then invalid
    else
      text ← leaf_text field;
      uri ← canonical_uri text;
      Ok (mkFields (Some uri) instance reg_id names)
  else if str_eqb (n_ns field) NS && str_eqb (n_name field) (lit "unknown-param") then
    name ← required field (lit "name");
    let name := lowercase name in
    if bool_decide (name = []) || (128 <? byte_len name) || existsb (str_eqb name) names then invalid
    else
      value ← leaf_text field;
      if str_eqb name (lit "+sip.instance") then
        instance ← instance_value value; Ok (mkFields uri (Some instance) reg_id (names ++ [name]))
      else if str_eqb name (lit "reg-id") then
        reg_id ← positive value; Ok (mkFields uri instance (Some reg_id) (names ++ [name]))
      else Ok (mkFields uri instance reg_id (names ++ [name]))
  else
    ignore_extension field;; Ok st.
Definition read_contact (full : bool) (registration_state : ContactState) (ids : list str) (child : Node)
    : ims Contact :=
  element_only child;;
  id ← required child (lit "id");
  id ← bounded_id id;
  require_ok (negb (existsb (str_eqb id) ids));;
  contact_state ← required child (lit "state");
  contact_state ← state_of contact_state;
  event ← required child (lit "event");
  reason ← contact_reason event contact_state;
  require_ok (negb (bool_decide (registration_state = StateTerminated) && bool_decide (contact_state = StateActive)));;
  retry_after ← map_transpose unsigned (attr child (lit "retry-after"));
  require_ok (negb (bool_decide (is_Some retry_after) && negb (bool_decide (reason = Some Probation))));;
  match attr child (lit "expires") with
  | Some expires =>
    expires ← unsigned expires;
    require_ok (negb ((bool_decide (contact_state = StateActive) && (expires =? 0))
                      || (bool_decide (contact_state = StateTerminated) && negb (expires =? 0))))
  | None => Ok tt
  end;;
  match attr child (lit "duration-registered") with
  | Some duration => _ ← unsigned duration; Ok tt
  | None => Ok tt
  end;;
  fields ← foldM contact_field (mkFields None None None []) (n_children child);
  require_ok (negb ((full || bool_decide (contact_state = StateActive)) && bool_decide (cf_uri fields = None)));;
  Ok (mkContact id contact_state reason (cf_uri fields) (cf_instance fields) (cf_reg_id fields) retry_after).

(** [contact_count] is that of the whole document. *)
Definition registration_child (full : bool) (registration_state : ContactState) (st : list Contact * nat)
    (child : Node) : ims (list Contact * nat) :=
  let '(contacts, contact_count) := st in
  if negb (str_eqb (n_name child) (lit "contact")) || negb (str_eqb (n_ns child) NS)
  then ignore_extension child;; Ok st
  else
    contact ← read_contact full registration_state (ct_id <$> contacts) child;
    if (MAX_CONTACTS <? contact_count + 1)%nat then invalid else Ok (contacts ++ [contact], (contact_count + 1)%nat).
Definition root_child (full : bool) (st : list Registration * nat) (node : Node)
    : ims (list Registration * nat) :=
  let '(registrations, contact_count) := st in
  if negb (str_eqb (n_name node) (lit "registration")) || negb (str_eqb (n_ns node) NS)
  then ignore_extension node;; Ok st
  else
    element_only node;;
    id ← required node (lit "id");
    id ← bounded_id id;
    aor ← required node (lit "aor");
    aor ← canonical_uri aor;
    require_ok (negb (existsb (str_eqb id) (rg_id <$> registrations))
                && negb (existsb (str_eqb aor) (rg_aor <$> registrations)));;
    registration_state ← required node (lit "state");
    registration_state ← state_of registration_state;
    '(contacts, contact_count) ←
      foldM (registration_child full registration_state) ([], contact_count) (n_children node);
    let registrations := registrations ++ [mkRegistration id aor registration_state contacts] in
    if (MAX_REGISTRATIONS <? length registrations)%nat then invalid else Ok (registrations, contact_count).
Definition document_of_root (root : Node) : ims Document :=
  require_ok (str_eqb (n_ns root) NS && str_eqb (n_name root) (lit "reginfo"));;
  element_only root;;
  version ← required root (lit "version");
  version ← unsigned version;
  state ← required root (lit "state");
  full ← (if str_eqb state (lit "full") then Ok true
          else if str_eqb state (lit "partial") then Ok false else invalid);
  '(registrations, _) ← foldM (root_child full) ([], 0%nat) (n_children root);
  Ok (mkDocument version full registrations).

(** ** The tree *)
(** An attribute: its name, its bytes, its unescaped value. *)
Record XmlAttribute := mkXmlAttr { xa_key : list Z; xa_value : list Z; xa_text : option str }.
(** The events of [quick_xml]; [None] is an error where the code asks for a result. *)
Inductive XmlEvent :=
| XStart (name : list Z) (attributes : list (option XmlAttribute))
| XEmpty (name : list Z) (attributes : list (option XmlAttribute))
| XEnd
| XText (raw : list Z) (text : option str)
| XCData (raw : list Z)
| XDecl (version : option (list Z)) (encoding : option (option (list Z)))
| XComment (raw : list Z)
| XDocType
| XPI.
Definition Namespaces := gmap str str.
Definition xml_char (c : Z) : bool :=
  existsb (Z.eqb c) [9; 10; 13] || ((32 <=? c) && negb (c =? 65534) && negb (c =? 65535)).
Definition name_char (b : Z) : bool := is_ascii_alphanumeric b || existsb (Z.eqb b) (lit "_.-").
Definition name_start (b : Z) : bool := (is_ascii_alphanumeric b && negb (is_ascii_digit b)) || (b =? ch "_").
Definition expand (name : str) (namespaces : Namespaces) (attribute : bool) : ims (str * str) :=
  let '(prefix, local) := match split_once (ch ":") name with
    | Some (p, l) => (Some p, l)
    | None => (None, name)
    end in
  if bool_decide (local = []) || existsb (Z.eqb (ch ":")) local || negb (forallb name_char local)
     || negb (match local with b :: _ => name_start b | [] => false end)
  then invalid
  else
    ns ← match prefix with
      | Some prefix => if bool_decide (prefix = []) then invalid else or_invalid (namespaces !! prefix)
      | None => Ok (if attribute then [] else default [] (namespaces !! ([] : str)))
      end;
    Ok (ns, local).
Definition XML_NS : str := lit "http://www.w3.org/XML/1998/namespace".
(** The attribute loop: names seen, attributes kept, namespaces. *)
Definition read_attribute (st : list str * list (str * str) * Namespaces) (attribute : option XmlAttribute)
    : ims (list str * list (str * str) * Namespaces) :=
  let '(raw_names, attrs, namespaces) := st in
  attribute ← or_invalid attribute;
  name ← or_invalid (from_utf8 (xa_key attribute));
  require_ok (negb (existsb (str_eqb name) raw_names) && negb (24 <? length raw_names + 1)%nat);;
  require_ok (negb (existsb (Z.eqb (ch "<")) (xa_value attribute)));;
  value ← or_invalid (xa_text attribute);
  require_ok (negb (2048 <? byte_len value) && forallb xml_char value);;
  let raw_names := raw_names ++ [name] in
  if str_eqb name (lit "xmlns") then Ok (raw_names, attrs, <[([] : str) := value]> namespaces)
  else match strip_prefix (lit "xmlns:") name with
  | Some prefix =>
    if bool_decide (prefix = []) || existsb (Z.eqb (ch ":")) prefix || str_eqb prefix (lit "xmlns")
       || str_eqb prefix (lit "xml") || bool_decide (value = [])
    then invalid
    else Ok (raw_names, attrs, <[prefix := value]> namespaces)
  | None => Ok (raw_names, attrs ++ [(name, value)], namespaces)
  end.
Definition expand_attribute (namespaces : Namespaces) (expanded : list (str * str * str)) (a : str * str)
    : ims (list (str * str * str)) :=
  '(ns, name) ← expand a.1 namespaces true;
  if existsb (λ e, bool_decide (e.1 = (ns, name))) expanded
     || (negb (bool_decide (ns = [])) && critical_attribute name)
  then invalid else Ok (expanded ++ [(ns, name, a.2)]).
Definition node_of (name : list Z) (attributes : list (option XmlAttribute)) (namespaces : Namespaces)
    : ims (Node * Namespaces) :=
  '(_, attrs, namespaces) ← foldM read_attribute ([], [], namespaces) attributes;
  require_ok (negb (32 <? size namespaces)%nat);;
  let namespaces := <[lit "xml" := XML_NS]> namespaces in
  name ← or_invalid (from_utf8 name);
  '(ns, name) ← expand name namespaces false;
  require_ok (negb (critical_element name && negb (str_eqb ns NS)));;
  expanded ← foldM (expand_attribute namespaces) [] attrs;
  Ok (mkNode ns name expanded [] [], namespaces).

Definition push_child (child parent : Node) : Node :=
  let '(mkNode ns name attrs children text) := parent in mkNode ns name attrs (children ++ [child]) text.
Definition push_text (more : str) (n : Node) : Node :=
  let '(mkNode ns name attrs children text) := n in mkNode ns name attrs children (text ++ more).
(** The top of the stack first. *)
Record TreeState := mkTree {
  tr_stack : list (Node * Namespaces);
  tr_root : option Node;
  tr_count : nat;
  tr_declaration : bool;
  tr_prolog_content : bool;
}.
Definition append_node (node : Node) (t : TreeState) : ims TreeState :=
  match tr_stack t with
  | (parent, ns) :: stack =>
    Ok (mkTree ((push_child node parent, ns) :: stack) (tr_root t) (tr_count t) (tr_declaration t) (tr_prolog_content t))
  | [] =>
    if bool_decide (is_Some (tr_root t)) then invalid
    else Ok (mkTree [] (Some node) (tr_count t) (tr_declaration t) (tr_prolog_content t))
  end.
Definition add_text (text : str) (t : TreeState) : ims TreeState :=
  match tr_stack t with
  | (node, ns) :: stack =>
    if 4096 <? byte_len (n_text node) + byte_len text then invalid
    else Ok (mkTree ((push_text text node, ns) :: stack) (tr_root t) (tr_count t) (tr_declaration t) (tr_prolog_content t))
  | [] => invalid
  end.
(** The element starts; [empty] for an element without content. *)
Definition start_element (name : list Z) (attributes : list (option XmlAttribute)) (empty : bool) (t : TreeState)
    : ims TreeState :=
  if (MAX_DEPTH <=? length (tr_stack t))%nat
     || (bool_decide (is_Some (tr_root t)) && bool_decide (tr_stack t = []))
  then invalid
  else if (MAX_NODES <? tr_count t + 1)%nat then invalid
  else
    let parent_ns := match tr_stack t with (_, ns) :: _ => ns | [] => ∅ end in
    '(node, namespaces) ← node_of name attributes parent_ns;
    let t := mkTree (tr_stack t) (tr_root t) (tr_count t + 1) (tr_declaration t) (tr_prolog_content t) in
    if empty then append_node node t
    else Ok (mkTree ((node, namespaces) :: tr_stack t) (tr_root t) (tr_count t) (tr_declaration t) (tr_prolog_content t)).
Definition in_prolog (t : TreeState) : TreeState :=
  mkTree (tr_stack t) (tr_root t) (tr_count t) (tr_declaration t)
    (tr_prolog_content t || bool_decide (tr_stack t = [])).
Definition tree_event (t : TreeState) (event : option XmlEvent) : ims TreeState :=
  event ← or_invalid event;
  match event with
  | XStart name attributes => start_element name attributes false t
  | XEmpty name attributes => start_element name attributes true t
  | XEnd =>
    match tr_stack t with
    | (node, _) :: stack =>
      append_node node (mkTree stack (tr_root t) (tr_count t) (tr_declaration t) (tr_prolog_content t))
    | [] => invalid
    end
  | XText raw text =>
    if bool_decide (is_Some (find_sub (lit "]]>") raw)) then invalid
    else
      let t := in_prolog t in
      text ← or_invalid text;
      if negb (forallb xml_char text) then invalid
      else match tr_stack t with
      | _ :: _ => add_text text t
      | [] => if bool_decide (trim text = []) then Ok t else invalid
      end
  | XCData raw =>
    text ← or_invalid (from_utf8 raw);
    if negb (forallb xml_char text) then invalid else add_text text t
  | XDecl version encoding =>
    if tr_declaration t || tr_prolog_content t || bool_decide (is_Some (tr_root t))
       || negb (bool_decide (tr_stack t = []))
    then invalid
    else if negb (bool_decide (version = Some (lit "1.0"))) then invalid
    else match encoding with
    | Some encoding =>
      encoding ← or_invalid encoding;
      if eq_ignore_ascii_case encoding (lit "utf-8")
      then Ok (mkTree (tr_stack t) (tr_root t) (tr_count t) true (tr_prolog_content t)) else invalid
    | None => Ok (mkTree (tr_stack t) (tr_root t) (tr_count t) true (tr_prolog_content t))
    end
  | XComment raw =>
    let t := in_prolog t in
    if bool_decide (is_Some (find_sub (lit "--") raw)) then invalid else Ok t
  | XDocType | XPI => invalid
  end.
Definition tree (xml_events : list Z → list (option XmlEvent)) (body : list Z) : ims Node :=
  if bool_decide (body = []) || (MAX_BODY <? Z.of_nat (length body)) || negb (bool_decide (is_Some (from_utf8 body)))
  then invalid
  else
    t ← foldM tree_event (mkTree [] None 0 false false) (xml_events body);
    if bool_decide (tr_stack t = []) then or_invalid (tr_root t) else invalid.
Definition parse (xml_events : list Z → list (option XmlEvent)) (body : list Z) : ims Document :=
  root ← tree xml_events body; document_of_root root.

(** ** The own binding over documents *)
Record Snapshot := mkSnapshot { sn_version : option Z; sn_own : option (str * str); sn_revoked : bool }.
Definition snapshot_default : Snapshot := mkSnapshot None None false.
(** A contact with the binding's URI, instance and reg-id. *)
Definition exact_contact (b : RegEventBinding) (c : Contact) : bool :=
  bool_decide (ct_uri c = Some (rb_contact_uri b)) && bool_decide (ct_instance c = rb_instance b)
  && bool_decide (ct_reg_id c = rb_reg_id b).
Definition borrows (b : RegEventBinding) (c : Contact) : bool :=
  match ct_uri c with Some uri => negb (str_eqb uri (rb_contact_uri b)) | None => false end
  || match ct_instance c with Some i => negb (bool_decide (Some i = rb_instance b)) | None => false end
  || match ct_reg_id c with Some i => negb (bool_decide (Some i = rb_reg_id b)) | None => false end.
(** The contact matched so far. *)
Definition match_contact (b : RegEventBinding) (full : bool) (prior_contact : option str)
    (matched : option Contact) (contact : Contact) : ims (option Contact) :=
  let exact := exact_contact b contact in
  let mapped := negb full && bool_decide (prior_contact = Some (ct_id contact)) in
  if mapped && borrows b contact then invalid
  else if exact || mapped then
    if bool_decide (is_Some matched) then invalid else Ok (Some contact)
  else Ok matched.
(** The effect of the own registration and the contact that is the own binding now. *)
Definition own_effect (b : RegEventBinding) (full : bool) (own : option (str * str)) (r : Registration)
    : ims (RegEventEffect * option (str * str)) :=
  let prior_contact := '(id, contact) ← own; if str_eqb id (rg_id r) then Some contact else None in
  matched ← foldM (match_contact b full prior_contact) None (rg_contacts r);
  match matched with
  | Some contact =>
    if bool_decide (ct_state contact = StateTerminated) then
      reason ← or_invalid (ct_reason contact);
      Ok (BindingTerminated reason (ct_retry_after contact), None)
    else Ok (NoEffect, Some (rg_id r, ct_id contact))
  | None =>
    if bool_decide (is_Some prior_contact) && bool_decide (rg_contacts r = [])
       && (full || bool_decide (rg_state r = StateTerminated))
    then Ok (BindingTerminated Unregistered None, None)
    else Ok (NoEffect, if full then None else own)
  end.
Definition is_terminated (e : RegEventEffect) : bool :=
  match e with BindingTerminated _ _ => true | _ => false end.
(** On an error the snapshot stays. *)
Definition snapshot_apply (document : Document) (b : RegEventBinding) (s : Snapshot)
    : ims (RegEventEffect * Snapshot) :=
  if match sn_version s with Some version => doc_version document <=? version | None => false end
  then Ok (NoEffect, s)
  else if negb (doc_full document)
          && negb (bool_decide ((v ← sn_version s; if v + 1 <=? u32_max then Some (v + 1) else None)
                                = Some (doc_version document)))
  then Ok (NeedFull, s)
  else
    '(effect, next_own) ←
      match List.find (λ r, str_eqb (rg_aor r) (rb_aor b)) (doc_registrations document) with
      | Some registration => own_effect b (doc_full document) (sn_own s) registration
      | None => Ok (NoEffect, if doc_full document then None else sn_own s)
      end;
    if sn_revoked s then Ok (NoEffect, mkSnapshot (Some (doc_version document)) next_own true)
    else Ok (effect, mkSnapshot (Some (doc_version document)) next_own (is_terminated effect)).

(** * Lemmas *)

(** ** Bounded trees *)
Definition max_list (l : list nat) : nat := foldr Nat.max 0%nat l.
(** The number of elements of a node, the depth below it, and its texts. *)
Fixpoint node_count (n : Node) : nat :=
  let '(mkNode _ _ _ children _) := n in
  S ((fix each (children : list Node) : nat :=
        match children with [] => 0 | child :: children => node_count child + each children end) children)%nat.
Fixpoint node_depth (n : Node) : nat :=
  let '(mkNode _ _ _ children _) := n in
  S ((fix each (children : list Node) : nat :=
        match children with [] => 0 | child :: children => Nat.max (node_depth child) (each children) end) children)%nat.
Fixpoint texts_bounded (n : Node) : Prop :=
  let '(mkNode _ _ _ children text) := n in
  byte_len text ≤ 4096 ∧
  (fix each (children : list Node) : Prop :=
     match children with [] => True | child :: children => texts_bounded child ∧ each children end) children.
Definition children_count (l : list Node) : nat := sum_list_with node_count l.
Definition children_depth (l : list Node) : nat := max_list (node_depth <$> l).
Lemma node_count_eq ns name attrs children text :
  node_count (mkNode ns name attrs children text) = S (children_count children).
Proof. reflexivity. Qed.
Lemma node_depth_eq ns name attrs children text :
  node_depth (mkNode ns name attrs children text) = S (children_depth children).
Proof. cbn [node_depth]. f_equal. induction children as [|c l IH]; [done|]. unfold children_depth in *. simpl. by rewrite IH. Qed.
Lemma texts_bounded_eq ns name attrs children text :
  texts_bounded (mkNode ns name attrs children text) ↔ byte_len text ≤ 4096 ∧ Forall texts_bounded children.
Proof.
  cbn [texts_bounded]. enough (∀ l, (fix each (children : list Node) : Prop :=
     match children with [] => True | child :: children => texts_bounded child ∧ each children end) l ↔ Forall texts_bounded l)
    as -> by done.
  induction l as [|c l IH]; [split; [constructor|done]|]. rewrite Forall_cons. by rewrite IH.
Qed.
(** A node under construction at depth [d] (the root at 1). *)
Definition node_fits (d : nat) (n : Node) : Prop := texts_bounded n ∧ (node_depth n + d ≤ S MAX_DEPTH)%nat.
Record tree_inv (t : TreeState) : Prop := {
  ti_count : (sum_list_with (λ p, node_count p.1) (tr_stack t)
              + match tr_root t with Some n => node_count n | None => 0 end ≤ tr_count t)%nat;
  ti_max : (tr_count t ≤ MAX_NODES)%nat;
  ti_len : (length (tr_stack t) ≤ MAX_DEPTH)%nat;
  ti_stack : ∀ i p, tr_stack t !! i = Some p → node_fits (length (tr_stack t) - i) p.1;
  ti_root : ∀ n, tr_root t = Some n → node_fits 1 n;
}.
Lemma push_child_fits d child parent : node_fits (S d) child → node_fits d parent → node_fits d (push_child child parent).
Proof.
  destruct parent as [ns name attrs children text]. unfold node_fits. cbn [push_child].
  rewrite !texts_bounded_eq, !node_depth_eq, Forall_app, Forall_singleton. intros [Hc Hdc] [[Ht Hch] Hd].
  split; [done|]. unfold children_depth in *. rewrite fmap_app. simpl.
  assert (∀ l x, max_list (l ++ [x]) = Nat.max (max_list l) x) as Hmax.
  { induction l as [|y l IH]; intros x; simpl; [lia|]. rewrite IH. lia. }
  rewrite Hmax. lia.
Qed.
Lemma push_child_count child parent : node_count (push_child child parent) = (node_count parent + node_count child)%nat.
Proof.
  destruct parent as [ns name attrs children text]. cbn [push_child]. rewrite !node_count_eq. unfold children_count.
  rewrite sum_list_with_app. simpl. lia.
Qed.
Lemma byte_len_app s t : byte_len (s ++ t) = byte_len s + byte_len t.
Proof. unfold byte_len, utf8_encode. rewrite bind_app, length_app. lia. Qed.
Lemma push_text_fits d more n : node_fits d n → byte_len (n_text n) + byte_len more ≤ 4096 → node_fits d (push_text more n).
Proof.
  destruct n as [ns name attrs children text]. unfold node_fits. cbn [push_text n_text].
  rewrite !texts_bounded_eq, !node_depth_eq, byte_len_app. intros [[_ Hch] Hd] Hlen. by split.
Qed.
Lemma push_text_count more n : node_count (push_text more n) = node_count n.
Proof. by destruct n. Qed.
(** Replacing the top of the stack. *)
Lemma tree_inv_top t parent ns stack parent' :
  tr_stack t = (parent, ns) :: stack → tree_inv t → node_fits (S (length stack)) parent' →
  (node_count parent' + sum_list_with (λ p, node_count p.1) stack
   + match tr_root t with Some n => node_count n | None => 0 end ≤ tr_count t)%nat →
  tree_inv (mkTree ((parent', ns) :: stack) (tr_root t) (tr_count t) (tr_declaration t) (tr_prolog_content t)).
Proof.
  intros Hst [Hc Hm Hl Hs Hr] Hfit Hcount. rewrite Hst in *. split; simpl in *; try done.
  intros [|i] p; simpl; [by intros [= <-]|]. apply (Hs (S i)).
Qed.
(** Adding a finished node below a stack it is not part of. *)
Lemma append_node_inv node t t' :
  append_node node t = Ok t' → node_fits (S (length (tr_stack t))) node →
  (node_count node + sum_list_with (λ p, node_count p.1) (tr_stack t)
   + match tr_root t with Some n => node_count n | None => 0 end ≤ tr_count t)%nat →
  tree_inv t → tree_inv t'.
Proof.
  unfold append_node. destruct (tr_stack t) as [|[parent ns] stack] eqn:Hst.
  - case_bool_decide as Hroot; [done|]. intros [= <-] Hfit Hcount [Hc Hm Hl Hs Hr].
    destruct (tr_root t); [by destruct Hroot|]. rewrite Hst in *. simpl in *.
    split; simpl; [lia|done|lia|done|]. by intros n [= <-].
  - intros [= <-] Hfit Hcount Hinv. eapply tree_inv_top; [done|done| |].
    + apply push_child_fits; [done|]. destruct Hinv as [_ _ _ Hs _]. specialize (Hs 0%nat). rewrite Hst in Hs.
      by specialize (Hs _ eq_refl).
    + rewrite push_child_count. simpl in Hcount. lia.
Qed.
Lemma node_of_leaf name attributes namespaces n ns :
  node_of name attributes namespaces = Ok (n, ns) → ∃ a b c, n = mkNode a b c [] [].
Proof.
  unfold node_of. intros ([[_names attrs] nss] & _ & H)%bind_Ok. apply bind_Ok in H as (? & _ & H).
  apply bind_Ok in H as (nm & _ & H). apply bind_Ok in H as ([a b] & _ & H). apply bind_Ok in H as (? & _ & H).
  apply bind_Ok in H as (e & _ & H). injection H as <- _. by exists a, b, e.
Qed.
Lemma add_text_inv text t t' : add_text text t = Ok t' → tree_inv t → tree_inv t'.
Proof.
  unfold add_text. destruct (tr_stack t) as [|[node ns] stack] eqn:Hst; [done|].
  destruct (Z.ltb_spec 4096 (byte_len (n_text node) + byte_len text)); [done|]. intros [= <-] Hinv.
  pose proof Hinv as [Hc _ _ Hs _]. rewrite Hst in Hc, Hs. eapply tree_inv_top; [done|done| |].
  - apply push_text_fits; [|lia]. by specialize (Hs 0%nat _ eq_refl).
  - rewrite push_text_count. simpl in Hc. lia.
Qed.
Lemma start_element_inv name attributes empty t t' :
  start_element name attributes empty t = Ok t' → tree_inv t → tree_inv t'.
Proof.
  unfold start_element. destruct (_ || _) eqn:Hdepth; [done|].
  apply orb_false_iff in Hdepth as [Hdepth%Nat.leb_gt _].
  destruct (Nat.ltb_spec MAX_NODES (tr_count t + 1)); [done|].
  intros ([node namespaces] & (a & b & c & ->)%node_of_leaf & Ht)%bind_Ok [Hc Hm Hl Hs Hr].
  assert (node_fits (S (length (tr_stack t))) (mkNode a b c [] [])) as Hfit.
  { split; [by rewrite texts_bounded_eq|]. rewrite node_depth_eq. change (children_depth []) with 0%nat. lia. }
  destruct empty.
  - apply append_node_inv in Ht; cbn [tr_stack tr_root tr_count]; [done|done| |split; simpl; [lia|lia|done..]].
    rewrite node_count_eq. change (children_count []) with 0%nat. lia.
  - injection Ht as <-. split; simpl; [|lia|lia| |done].
    + change (node_count (mkNode a b c [] [])) with 1%nat. lia.
    + intros [|i] p; simpl; [by intros [= <-]|]. apply Hs.
Qed.
Lemma in_prolog_inv t : tree_inv t → tree_inv (in_prolog t).
Proof. by intros [? ? ? ? ?]. Qed.
Lemma tree_event_inv t event t' : tree_event t event = Ok t' → tree_inv t → tree_inv t'.
Proof.
  unfold tree_event. intros (e & _ & H)%bind_Ok Hinv. destruct e as [name attrs|name attrs| |raw text|raw|version encoding|raw| |].
  - by eapply start_element_inv.
  - by eapply start_element_inv.
  - pose proof Hinv as [Hc Hm Hl Hs Hr]. destruct (tr_stack t) as [|[node ns] stack] eqn:Hst; [done|].
    apply append_node_inv in H; simpl in *; [done| |lia|].
    + by specialize (Hs 0%nat _ eq_refl).
    + split; simpl; [lia|done|lia| |done]. intros i p Hp. apply (Hs (S i) p Hp).
  - destruct (bool_decide _); [done|]. apply bind_Ok in H as (txt & _ & H). destruct (negb _); [done|].
    apply in_prolog_inv in Hinv. destruct (tr_stack (in_prolog t)); [|by eapply add_text_inv].
    destruct (bool_decide _); [|done]. by injection H as <-.
  - apply bind_Ok in H as (txt & _ & H). destruct (negb _); [done|]. by eapply add_text_inv.
  - destruct (_ || _ || _ || _); [done|]. destruct (negb _); [done|].
    assert (tree_inv (mkTree (tr_stack t) (tr_root t) (tr_count t) true (tr_prolog_content t))) as Hd
      by by destruct Hinv.
    destruct encoding as [enc|]; [|by injection H as <-]. apply bind_Ok in H as (en & _ & H).
    destruct (eq_ignore_ascii_case _ _); [|done]. by injection H as <-.
  - destruct (bool_decide _); [done|]. injection H as <-. by apply in_prolog_inv.
  - done.
  - done.
Qed.

(** ** Well-formed documents *)
Definition contact_ok (full : bool) (rs : ContactState) (c : Contact) : Prop :=
  (ct_state c = StateTerminated ↔ is_Some (ct_reason c)) ∧
  (is_Some (ct_retry_after c) → ct_reason c = Some Probation) ∧
  (full = true ∨ ct_state c = StateActive → is_Some (ct_uri c)) ∧
  (rs = StateTerminated → ct_state c = StateTerminated).
Definition registration_ok (full : bool) (r : Registration) : Prop :=
  NoDup (ct_id <$> rg_contacts r) ∧ Forall (contact_ok full (rg_state r)) (rg_contacts r).
Definition document_ok (d : Document) : Prop :=
  NoDup (rg_id <$> doc_registrations d) ∧ NoDup (rg_aor <$> doc_registrations d) ∧
  Forall (registration_ok (doc_full d)) (doc_registrations d) ∧
  (length (doc_registrations d) ≤ MAX_REGISTRATIONS)%nat ∧
  (sum_list_with (λ r, length (rg_contacts r)) (doc_registrations d) ≤ MAX_CONTACTS)%nat.
Lemma require_ok_Ok c u : require_ok c = Ok u → c = true.
Proof. unfold require_ok. by destruct c. Qed.
Lemma not_seen x l : existsb (str_eqb x) l = false → x ∉ l.
Proof.
  intros Hx Hin. apply not_true_iff_false in Hx. apply Hx, existsb_exists. exists x.
  split; [by apply list_elem_of_In|by apply str_eqb_eq].
Qed.
Lemma NoDup_snoc {A} (l : list A) x : NoDup l → x ∉ l → NoDup (l ++ [x]).
Proof.
  intros Hl Hx. apply NoDup_app. split_and!; [done| |apply NoDup_singleton].
  intros y Hy Hyx%list_elem_of_singleton. by subst.
Qed.
Lemma contact_reason_state event s reason : contact_reason event s = Ok reason → (s = StateTerminated ↔ is_Some reason).
Proof.
  unfold contact_reason. destruct s; cbn; rewrite ?andb_true_r, ?andb_false_r;
    repeat case_match; intros; simplify_eq; split; try done; by intros [? ?].
Qed.
Lemma read_contact_ok full rs ids child c :
  read_contact full rs ids child = Ok c → (ct_id c ∉ ids) ∧ contact_ok full rs c.
Proof.
  unfold read_contact. intros (? & _ & H)%bind_Ok. apply bind_Ok in H as (id0 & _ & H).
  apply bind_Ok in H as (id & _ & H). apply bind_Ok in H as (? & Hid%require_ok_Ok%negb_true_iff%not_seen & H).
  apply bind_Ok in H as (cs0 & _ & H). apply bind_Ok in H as (cs & _ & H). apply bind_Ok in H as (ev & _ & H).
  apply bind_Ok in H as (reason & Hreason%contact_reason_state & H).
  apply bind_Ok in H as (? & Hrs%require_ok_Ok & H). apply bind_Ok in H as (retry & _ & H).
  apply bind_Ok in H as (? & Hretry%require_ok_Ok & H). apply bind_Ok in H as (? & _ & H).
  apply bind_Ok in H as (? & _ & H). apply bind_Ok in H as (fields & _ & H).
  apply bind_Ok in H as (? & Huri%require_ok_Ok & H). injection H as <-. split; [done|].
  rewrite negb_true_iff, andb_false_iff, !bool_decide_eq_false in Hrs.
  rewrite negb_true_iff, andb_false_iff, bool_decide_eq_false, negb_false_iff, bool_decide_eq_true in Hretry.
  rewrite negb_true_iff, andb_false_iff, orb_false_iff, !bool_decide_eq_false in Huri.
  split_and!; simpl; [done|tauto| |].
  - intros Hf. destruct (cf_uri fields); [by eexists|]. destruct Huri as [[-> Ha]|Hu]; [|done].
    destruct Hf as [?|?]; [done|by destruct Ha].
  - intros ->. destruct Hrs as [?|?]; [done|by destruct cs].
Qed.
Lemma registration_children_ok full rs children contacts count contacts' count' :
  foldM (registration_child full rs) (contacts, count) children = Ok (contacts', count') →
  NoDup (ct_id <$> contacts) → Forall (contact_ok full rs) contacts → (count ≤ MAX_CONTACTS)%nat →
  NoDup (ct_id <$> contacts') ∧ Forall (contact_ok full rs) contacts' ∧ (count' ≤ MAX_CONTACTS)%nat ∧
  (count' + length contacts = count + length contacts')%nat.
Proof.
  revert contacts count. induction children as [|child children IH]; intros contacts count.
  { intros [= <- <-]. done. }
  cbn [foldM]. intros ([contacts1 count1] & H1 & H2)%bind_Ok Hd Hok Hcount.
  unfold registration_child in H1. destruct (_ || _).
  { apply bind_Ok in H1 as (? & _ & [= <- <-]). by apply IH. }
  apply bind_Ok in H1 as (c & (Hid & Hc)%read_contact_ok & H1).
  destruct (Nat.ltb_spec MAX_CONTACTS (count + 1)); [done|]. injection H1 as <- <-.
  apply IH in H2 as (? & ? & ? & Hl); [|..].
  - rewrite length_app in Hl. simpl in Hl. split_and!; [done..|lia].
  - rewrite fmap_app. by apply NoDup_snoc.
  - apply Forall_app. split; [done|by apply Forall_singleton].
  - lia.
Qed.
Definition registrations_ok (full : bool) (st : list Registration * nat) : Prop :=
  NoDup (rg_id <$> st.1) ∧ NoDup (rg_aor <$> st.1) ∧ Forall (registration_ok full) st.1 ∧
  (length st.1 ≤ MAX_REGISTRATIONS)%nat ∧ (st.2 ≤ MAX_CONTACTS)%nat ∧
  (st.2 = sum_list_with (λ r, length (rg_contacts r)) st.1)%nat.
Lemma root_child_ok full st node st' : root_child full st node = Ok st' → registrations_ok full st → registrations_ok full st'.
Proof.
  destruct st as [registrations count]. unfold root_child. destruct (_ || _).
  { by intros (? & _ & [= <-])%bind_Ok. }
  intros (? & _ & H)%bind_Ok (Hids & Haors & Hok & Hl & Hc & Hsum). simpl in *.
  apply bind_Ok in H as (id0 & _ & H). apply bind_Ok in H as (id & _ & H). apply bind_Ok in H as (aor0 & _ & H).
  apply bind_Ok in H as (aor & _ & H). apply bind_Ok in H as (? & Hnew%require_ok_Ok & H).
  apply andb_true_iff in Hnew as [Hid%negb_true_iff%not_seen Haor%negb_true_iff%not_seen].
  apply bind_Ok in H as (rs0 & _ & H). apply bind_Ok in H as (rs & _ & H).
  apply bind_Ok in H as ([contacts count'] & Hch & H).
  apply registration_children_ok in Hch as (Hcd & Hcok & Hcm & Hcl); [|constructor|constructor|done].
  destruct (Nat.ltb_spec MAX_REGISTRATIONS (length (registrations ++ [mkRegistration id aor rs contacts]))); [done|].
  injection H as <-. unfold registrations_ok. simpl. rewrite !fmap_app, sum_list_with_app. simpl in *.
  split_and!; [by apply NoDup_snoc|by apply NoDup_snoc| |done|done|lia].
  apply Forall_app. split; [done|]. apply Forall_singleton. by split.
Qed.
Lemma root_children_ok full children st st' :
  foldM (root_child full) st children = Ok st' → registrations_ok full st → registrations_ok full st'.
Proof.
  revert st. induction children as [|n l IH]; intros st; [by intros [= <-]|].
  cbn [foldM]. intros (st1 & H1 & H2)%bind_Ok Hst. eapply IH; [done|by eapply root_child_ok].
Qed.
Lemma document_of_root_ok root d : document_of_root root = Ok d → document_ok d.
Proof.
  unfold document_of_root. intros (? & _ & H)%bind_Ok. apply bind_Ok in H as (? & _ & H).
  apply bind_Ok in H as (v0 & _ & H). apply bind_Ok in H as (v & _ & H). apply bind_Ok in H as (s & _ & H).
  apply bind_Ok in H as (full & _ & H). apply bind_Ok in H as ([registrations count] & Hch & H). injection H as <-.
  apply root_children_ok in Hch as (Hids & Haors & Hok & Hlen & Hcount & Hsum).
  - unfold document_ok. simpl in *. split_and!; [done..|lia].
  - unfold registrations_ok, MAX_REGISTRATIONS, MAX_CONTACTS. simpl. split_and!; try done; try constructor; lia.
Qed.

(** ** What a body is read to *)
Lemma tree_events_inv events t t' : foldM tree_event t events = Ok t' → tree_inv t → tree_inv t'.
Proof.
  revert t. induction events as [|e events IH]; intros t; [by intros [= <-]|].
  cbn [foldM]. intros (t1 & H1 & H2)%bind_Ok Ht. eapply IH; [done|by eapply tree_event_inv].
Qed.
Lemma tree_inv_start : tree_inv (mkTree [] None 0 false false).
Proof. split; simpl; unfold MAX_NODES, MAX_DEPTH; [lia..| |done]. intros i p. by rewrite lookup_nil. Qed.
Lemma tree_bounded xml_events body root :
  tree xml_events body = Ok root →
  (node_count root ≤ MAX_NODES)%nat ∧ (node_depth root ≤ MAX_DEPTH)%nat ∧ texts_bounded root ∧
  0 < Z.of_nat (length body) ≤ MAX_BODY.
Proof.
  unfold tree. destruct (bool_decide (body = []) || _ || _) eqn:Hbody; [done|].
  apply orb_false_iff in Hbody as [[Hne%bool_decide_eq_false Hmax%Z.ltb_ge]%orb_false_iff _].
  intros (t & Ht & H)%bind_Ok. apply tree_events_inv in Ht as [Hc Hm _ _ Hr]; [|exact tree_inv_start].
  destruct (bool_decide _); [|done]. unfold or_invalid in H. destruct (tr_root t) as [n|] eqn:Hroot; [|done].
  injection H as ->. destruct (Hr _ eq_refl) as [Htext Hdepth].
  assert (length body ≠ 0%nat) by by destruct body. split_and!; try done; lia.
Qed.

(** ** Documents and the own binding *)
(** Why a binding is reported terminated: a terminated contact that is the binding, or
    the registration that held it ended without contacts. *)
Definition is_binding (b : RegEventBinding) (d : Document) (own : option (str * str)) (r : Registration) (c : Contact) : Prop :=
  exact_contact b c = true ∨ (doc_full d = false ∧ own = Some (rg_id r, ct_id c) ∧ borrows b c = false).
Definition terminated_contact (b : RegEventBinding) (d : Document) (own : option (str * str)) (r : Registration)
    (reason : RegEventTerminationReason) (retry_after : option Z) : Prop :=
  ∃ c, c ∈ rg_contacts r ∧ is_binding b d own r c ∧ ct_state c = StateTerminated ∧
    ct_reason c = Some reason ∧ ct_retry_after c = retry_after.
Definition terminated_registration (d : Document) (own : option (str * str)) (r : Registration)
    (reason : RegEventTerminationReason) (retry_after : option Z) : Prop :=
  reason = Unregistered ∧ retry_after = None ∧ rg_contacts r = [] ∧ (∃ cid, own = Some (rg_id r, cid)) ∧
  (doc_full d = true ∨ rg_state r = StateTerminated).

Definition prior_of (own : option (str * str)) (r : Registration) : option str :=
  '(id, contact) ← own; if str_eqb id (rg_id r) then Some contact else None.
Lemma prior_of_Some own r cid : prior_of own r = Some cid ↔ own = Some (rg_id r, cid).
Proof.
  unfold prior_of. destruct own as [[id c]|]; cbn; [|done]. destruct (str_eqb id (rg_id r)) eqn:E.
  - apply str_eqb_eq in E as ->. split; [by intros [= ->]|by intros [= ->]].
  - split; [done|]. intros [= -> ->]. assert (str_eqb (rg_id r) (rg_id r) = true) by by apply str_eqb_eq. congruence.
Qed.
(** The contact matched is one of those read, it is the binding, and no other is. *)
Lemma match_contacts b d own r contacts matched c :
  foldM (match_contact b (doc_full d) (prior_of own r)) matched contacts = Ok (Some c) →
  matched = Some c ∨ (matched = None ∧ c ∈ contacts ∧ is_binding b d own r c).
Proof.
  revert matched. induction contacts as [|x contacts IH]; intros matched; [intros [= ->]; by left|].
  cbn [foldM]. intros (m1 & H1 & H2)%bind_Ok. apply IH in H2. unfold match_contact in H1.
  destruct (negb (doc_full d) && bool_decide (prior_of own r = Some (ct_id x))) eqn:Hmapped; cbn [andb orb] in H1.
  - destruct (borrows b x) eqn:Hb; [done|]. rewrite orb_true_r in H1. case_bool_decide as Hm; [done|]. injection H1 as <-.
    destruct H2 as [[= ->]|(? & _)]; [|done]. right. destruct matched; [by destruct Hm|]. split_and!; [done|left|].
    right. apply andb_true_iff in Hmapped as [?%negb_true_iff Hp%bool_decide_eq_true].
    apply prior_of_Some in Hp. done.
  - rewrite orb_false_r in H1. destruct (exact_contact b x) eqn:Hx.
    + case_bool_decide as Hm; [done|]. injection H1 as <-. destruct H2 as [[= ->]|(? & _)]; [|done].
      right. destruct matched; [by destruct Hm|]. split_and!; [done|left|by left].
    + injection H1 as ->. destruct H2 as [?|(? & ? & ?)]; [by left|]. right. split_and!; [done|by right|done].
Qed.
Lemma own_effect_terminated b d own r reason retry_after own' :
  own_effect b (doc_full d) own r = Ok (BindingTerminated reason retry_after, own') →
  own' = None ∧ (terminated_contact b d own r reason retry_after ∨ terminated_registration d own r reason retry_after).
Proof.
  unfold own_effect. fold (prior_of own r). intros (matched & Hm & H)%bind_Ok. destruct matched as [c|].
  - apply match_contacts in Hm as [|(_ & Hin & Hb)]; [done|]. case_bool_decide as Ht; [|done].
    apply bind_Ok in H as (reason0 & Hr & [= -> <- <-]). split; [done|]. left. exists c. split_and!; try done.
    destruct (ct_reason c); [|done]. by injection Hr as ->.
  - destruct (_ && _) eqn:Hc; [|done]. injection H as <- <- <-. split; [done|]. right.
    apply andb_true_iff in Hc as [[[cid Hp]%bool_decide_eq_true Hn%bool_decide_eq_true]%andb_true_iff Hf].
    apply prior_of_Some in Hp. split_and!; [done..|by exists cid|].
    apply orb_true_iff in Hf as [?|?%bool_decide_eq_true]; [by left|by right].
Qed.
Lemma own_effect_not_full b full own r own' : own_effect b full own r ≠ Ok (NeedFull, own').
Proof.
  unfold own_effect. intros ([c|] & _ & H)%bind_Ok; case_match; try discriminate H.
  by apply bind_Ok in H as (? & _ & ?).
Qed.
(** A document is applied when it is newer, and a partial one only when none is missing. *)
Definition applicable (d : Document) (s : Snapshot) : Prop :=
  match sn_version s with
  | Some version => version < doc_version d ∧ (doc_full d = true ∨ doc_version d = version + 1)
  | None => doc_full d = true
  end.
Lemma snapshot_apply_cases d b s e s' :
  snapshot_apply d b s = Ok (e, s') →
  (s' = s ∧ (e = NoEffect ∨ e = NeedFull)) ∨
  (applicable d s ∧ sn_version s' = Some (doc_version d) ∧ e ≠ NeedFull ∧
   if sn_revoked s then e = NoEffect ∧ sn_revoked s' = true
   else sn_revoked s' = is_terminated e ∧
     match e with
     | BindingTerminated reason retry_after =>
       sn_own s' = None ∧ ∃ r, r ∈ doc_registrations d ∧ rg_aor r = rb_aor b ∧
       (terminated_contact b d (sn_own s) r reason retry_after ∨ terminated_registration d (sn_own s) r reason retry_after)
     | _ => True
     end).
Proof.
  unfold snapshot_apply. destruct (match sn_version s with Some v => _ | None => _ end) eqn:Hold.
  { intros [= <- <-]. left. by eauto. }
  destruct (_ && _) eqn:Hgap; [intros [= <- <-]; left; by eauto|].
  intros ([effect next] & Heff & H)%bind_Ok. right.
  assert (applicable d s) as Happ.
  { unfold applicable. apply andb_false_iff in Hgap. rewrite !negb_false_iff, bool_decide_eq_true in Hgap.
    destruct (sn_version s) as [v|]; cbn in Hgap; [|by destruct Hgap].
    apply Z.leb_gt in Hold. destruct Hgap as [?|Hg]; [tauto|]. destruct (v + 1 <=? u32_max); [|done]. injection Hg. lia. }
  assert (effect ≠ NeedFull ∧ match effect with
     | BindingTerminated reason retry_after =>
       next = None ∧ ∃ r, r ∈ doc_registrations d ∧ rg_aor r = rb_aor b ∧
       (terminated_contact b d (sn_own s) r reason retry_after ∨ terminated_registration d (sn_own s) r reason retry_after)
     | _ => True
     end) as [Hne Hterm].
  { destruct (List.find _ _) as [r|] eqn:Hfind; [|by injection Heff as <- _].
    apply find_some in Hfind as [Hin%list_elem_of_In Haor%str_eqb_eq].
    destruct effect as [|reason retry_after|]; [done| |].
    - apply own_effect_terminated in Heff as [? ?]. split; [done|]. split; [done|]. by exists r.
    - by apply own_effect_not_full in Heff. }
  destruct (sn_revoked s); injection H as <- <-; [done|]. by split_and!.
Qed.

(** The documents of a run; a document in error leaves the snapshot. *)
Definition run_document (b : RegEventBinding) (st : Snapshot * list RegEventEffect) (d : Document)
    : Snapshot * list RegEventEffect :=
  match snapshot_apply d b st.1 with
  | Ok (e, s) => (s, st.2 ++ [e])
  | _ => st
  end.
Definition run_documents (b : RegEventBinding) (s : Snapshot) (ds : list Document) : Snapshot * list RegEventEffect :=
  foldl (run_document b) (s, []) ds.
Definition count_terminated (es : list RegEventEffect) : nat := length (filter (λ e, is_terminated e = true) es).
Definition version_le (v w : option Z) : Prop := ∀ n, v = Some n → ∃ m, w = Some m ∧ n ≤ m.
#[export] Instance version_le_preorder : PreOrder version_le.
Proof.
  split; [intros v n ->; by exists n|]. intros v w x Hvw Hwx n Hn. destruct (Hvw _ Hn) as (m & Hm & ?).
  destruct (Hwx _ Hm) as (k & ? & ?). exists k. split; [done|lia].
Qed.
Lemma count_terminated_snoc es e :
  count_terminated (es ++ [e]) = (count_terminated es + if is_terminated e then 1 else 0)%nat.
Proof.
  unfold count_terminated. rewrite filter_app, length_app. f_equal. rewrite filter_cons, filter_nil.
  destruct (is_terminated e); [by rewrite decide_True|by rewrite decide_False].
Qed.
Lemma run_document_spec b s es d s' es' :
  run_document b (s, es) d = (s', es') →
  version_le (sn_version s) (sn_version s') ∧
  ((if sn_revoked s' then 1 else 0) + count_terminated es = count_terminated es' + (if sn_revoked s then 1 else 0))%nat.
Proof.
  unfold run_document. cbn [fst snd]. destruct (snapshot_apply d b s) as [[e s1]|?|] eqn:Ha;
    intros [= <- <-]; [|by split; [done|lia]..].
  rewrite count_terminated_snoc. apply snapshot_apply_cases in Ha as [[-> [-> | ->]]|(Happ & Hv & _ & Hr)]; cbn [is_terminated].
  - split; [done|lia].
  - split; [done|lia].
  - split.
    + intros n Hn. exists (doc_version d). split; [done|]. unfold applicable in Happ. rewrite Hn in Happ. lia.
    + destruct (sn_revoked s); [destruct Hr as [-> ->]; simpl; lia|]. destruct Hr as [-> _]. destruct (is_terminated e); lia.
Qed.
Lemma run_from_spec b ds s es s' es' :
  foldl (run_document b) (s, es) ds = (s', es') →
  version_le (sn_version s) (sn_version s') ∧
  ((if sn_revoked s' then 1 else 0) + count_terminated es = count_terminated es' + (if sn_revoked s then 1 else 0))%nat.
Proof.
  revert s es. induction ds as [|d ds IH]; intros s es; cbn [foldl]; [intros [= <- <-]; split; [done|lia]|].
  destruct (run_document b (s, es) d) as [s1 es1] eqn:H1. intros [Hv Hc]%IH.
  apply run_document_spec in H1 as [Hv1 Hc1]. split; [by etrans|]. destruct (sn_revoked s), (sn_revoked s1), (sn_revoked s'); lia.
Qed.

(** * Properties *)

(** Whatever the tokenizer reads in a NOTIFY body, a body that is accepted gives a
    tree of at most 1024 elements, at most 16 deep, each with at most 4096 bytes of
    text, and a document in which identifiers and addresses of record are unique, at
    most 64 registrations hold at most 256 contacts, and every contact is consistent
    with its event and its registration. *)
Theorem accepted_body_bounded xml_events body d :
  parse xml_events body = Ok d →
  document_ok d ∧ 0 < Z.of_nat (length body) ≤ 65536 ∧
  ∃ root, tree xml_events body = Ok root ∧ document_of_root root = Ok d ∧
    (node_count root ≤ 1024)%nat ∧ (node_depth root ≤ 16)%nat ∧ texts_bounded root.
Proof.
  unfold parse. intros (root & Ht & Hd)%bind_Ok. pose proof (tree_bounded _ _ _ Ht) as (? & ? & ? & ?).
  split; [by eapply document_of_root_ok|]. split; [done|]. by exists root.
Qed.

(** C35: a document terminates the own binding only when it is the next one in order
    and its registration of the binding's address of record says so: by a terminated
    contact with the binding's URI, instance and flow (or the contact known to be the
    binding, in a partial document that gives it no other identity), or by ending the
    registration that held the binding without contacts.  The termination is
    remembered and no later document reports one. *)
Theorem termination_concerns_own_binding d b s reason retry_after s' :
  snapshot_apply d b s = Ok (BindingTerminated reason retry_after, s') →
  applicable d s ∧ sn_revoked s = false ∧ s' = mkSnapshot (Some (doc_version d)) None true ∧
  (∃ r, r ∈ doc_registrations d ∧ rg_aor r = rb_aor b ∧
    (terminated_contact b d (sn_own s) r reason retry_after ∨ terminated_registration d (sn_own s) r reason retry_after)) ∧
  ∀ ds, count_terminated (run_documents b s' ds).2 = 0%nat.
Proof.
  intros [[_ [?|?]]|(Happ & Hv & _ & Hr)]%snapshot_apply_cases; [done..|].
  destruct (sn_revoked s); [by destruct Hr|]. destruct Hr as (Hrev & Hown & Hreg).
  split; [done|]. split; [done|]. destruct s' as [v own revoked]. simpl in *. subst. split; [done|]. split; [done|].
  intros ds. destruct (run_documents _ _ ds) as [s2 es] eqn:Hrun. apply run_from_spec in Hrun as [_ Hc].
  unfold count_terminated at 1 in Hc. simpl in *. destruct (sn_revoked s2); lia.
Qed.

(** Over any sequence of documents, in order or not, repeated or malformed, the
    version recorded never decreases and at most one termination is reported, exactly
    when the binding becomes revoked. *)
Theorem documents_in_order b s ds :
  let '(s', es) := run_documents b s ds in
  version_le (sn_version s) (sn_version s') ∧ (count_terminated es ≤ 1)%nat ∧
  (sn_revoked s = true → sn_revoked s' = true) ∧
  (count_terminated es = 1%nat ↔ sn_revoked s = false ∧ sn_revoked s' = true).
Proof.
  destruct (run_documents b s ds) as [s' es] eqn:Hrun. apply run_from_spec in Hrun as [Hv Hc].
  unfold count_terminated at 1 in Hc. simpl in Hc. split; [done|].
  destruct (sn_revoked s), (sn_revoked s'); simpl in *; split_and!; (lia || done || (split; [by intros|by intros [? ?]])).
Qed.

(** * A terminated binding *)
Definition example_binding : RegEventBinding :=
  mkRegBinding (lit "sip:user@example.com") (lit "sip:user@192.0.2.1:5060") None None.
Definition example_attr (name value : string) : option XmlAttribute :=
  Some (mkXmlAttr (lit name) (lit value) (Some (lit value))).
Definition example_events (version state event : string) : list (option XmlEvent) :=
  [Some (XDecl (Some (lit "1.0")) None);
   Some (XStart (lit "reginfo") [example_attr "xmlns" "urn:ietf:params:xml:ns:reginfo";
                                 example_attr "version" version; example_attr "state" "full"]);
   Some (XStart (lit "registration") [example_attr "aor" "sip:user@example.com"; example_attr "id" "a7";
                                      example_attr "state" state]);
   Some (XStart (lit "contact") [example_attr "id" "76"; example_attr "state" state; example_attr "event" event]);
   Some (XStart (lit "uri") []);
   Some (XText (lit "sip:user@192.0.2.1:5060") (Some (lit "sip:user@192.0.2.1:5060")));
   Some XEnd; Some XEnd; Some XEnd; Some XEnd].
Definition example_document (version state event : string) : Document :=
  default (mkDocument 0 false []) (res_ok (parse (λ _, example_events version state event) (lit "<?xml"))).
Definition example_active : Document := example_document "0" "active" "registered".
Definition example_terminated : Document := example_document "1" "terminated" "rejected".
Definition example_snapshot : Snapshot := mkSnapshot (Some 0) (Some (lit "a7", lit "76")) false.
Example example_applied :
  run_documents example_binding snapshot_default [example_active; example_terminated; example_active]
  = (mkSnapshot (Some 1) None true, [NoEffect; BindingTerminated Rejected None; NoEffect]).
Proof. vm_compute. reflexivity. Qed.

Lemma accepted_body_bounded_witness :
  parse (λ _, example_events "1" "terminated" "rejected") (lit "<?xml") = Ok example_terminated ∧ document_ok example_terminated.
Proof.
  assert (parse (λ _, example_events "1" "terminated" "rejected") (lit "<?xml") = Ok example_terminated) as H
    by (vm_compute; reflexivity).
  split; [exact H|]. exact (proj1 (accepted_body_bounded _ _ _ H)).
Defined.
Lemma termination_concerns_own_binding_witness :
  snapshot_apply example_terminated example_binding example_snapshot
  = Ok (BindingTerminated Rejected None, mkSnapshot (Some 1) None true) ∧
  count_terminated (run_documents example_binding (mkSnapshot (Some 1) None true) [example_active; example_terminated]).2 = 0%nat.
Proof.
  assert (snapshot_apply example_terminated example_binding example_snapshot
    = Ok (BindingTerminated Rejected None, mkSnapshot (Some 1) None true)) as H by (vm_compute; reflexivity).
  split; [exact H|].
  destruct (termination_concerns_own_binding example_terminated example_binding example_snapshot Rejected None _ H)
    as (_ & _ & _ & _ & Hnone). exact (Hnone _).
Defined.
