(* ===== verification/RegEventSub.v ===== *)
(** * The registration-event subscription

    Models [RegEventSubscription] of [connectivity/core/reg_event.rs]: one dialog
    that observes the binding of an accepted REGISTER.  Methods take the clock; the
    random identifiers are drawn by the caller, [None] when the generator fails; the
    XML tokenizer is a parameter.  Instants are in nanoseconds. *)
From Stdlib Require Import Ascii String ZArith Lia.
From stdpp Require Import prelude gmap.
From S2P Require Import Prelude Text SipFrame RetryAfter RegisterResponse Stun SipMessage RegEvent Digest RegInfo.
Local Open Scope Z_scope.

Definition REQUESTED_LEASE : Z := 3600.
Definition TRANSACTION_TIMEOUT : Z := secs 32.
Definition T1 : Z := 500000000.
Definition T2 : Z := secs 4.

(** ** The state *)
Record Transaction := mkTx {
  tx_wire : list Z;
  tx_branch : str;
  tx_deadline : Z;
  tx_resend_at : option Z;
  tx_interval : Z;
}.
Record RegEventSubscription := mkSub {
  sb_binding : RegEventBinding;
  sb_call_id : str;
  sb_local_tag : str;
  sb_remote_tag : option str;
  sb_target : str;
  sb_dialog_routes : option (list str);
  sb_cseq : Z;
  sb_transaction : option Transaction;
  sb_auth_pending : option bool;
  sb_auth_rounds : Z;
  sb_auth_deadline : option Z;
  sb_due : Z;
  sb_lease_deadline : option Z;
  sb_requested_lease : Z;
  sb_disabled : bool;
  sb_last_notify : option (Z * list Z);
  sb_snapshot : Snapshot;
  sb_full_requests : Z;
  sb_need_full : bool;
  sb_auth_scope : option (bool * str * str);
}.
(** The groups of fields that change together. *)
Definition with_transaction (tx : option Transaction) (s : RegEventSubscription) : RegEventSubscription :=
  mkSub (sb_binding s) (sb_call_id s) (sb_local_tag s) (sb_remote_tag s) (sb_target s) (sb_dialog_routes s)
    (sb_cseq s) tx (sb_auth_pending s) (sb_auth_rounds s) (sb_auth_deadline s) (sb_due s) (sb_lease_deadline s)
    (sb_requested_lease s) (sb_disabled s) (sb_last_notify s) (sb_snapshot s) (sb_full_requests s)
    (sb_need_full s) (sb_auth_scope s).
Definition with_auth (pending : option bool) (rounds : Z) (deadline : option Z) (scope : option (bool * str * str))
    (s : RegEventSubscription) : RegEventSubscription :=
  mkSub (sb_binding s) (sb_call_id s) (sb_local_tag s) (sb_remote_tag s) (sb_target s) (sb_dialog_routes s)
    (sb_cseq s) (sb_transaction s) pending rounds deadline (sb_due s) (sb_lease_deadline s)
    (sb_requested_lease s) (sb_disabled s) (sb_last_notify s) (sb_snapshot s) (sb_full_requests s)
    (sb_need_full s) scope.
Definition with_cseq (cseq requested_lease : Z) (s : RegEventSubscription) : RegEventSubscription :=
  mkSub (sb_binding s) (sb_call_id s) (sb_local_tag s) (sb_remote_tag s) (sb_target s) (sb_dialog_routes s)
    cseq (sb_transaction s) (sb_auth_pending s) (sb_auth_rounds s) (sb_auth_deadline s) (sb_due s)
    (sb_lease_deadline s) requested_lease (sb_disabled s) (sb_last_notify s) (sb_snapshot s) (sb_full_requests s)
    (sb_need_full s) (sb_auth_scope s).
(** [self.dialog_routes] keeps the first route set. *)
Definition with_dialog (tag target : str) (routes : list str) (s : RegEventSubscription) : RegEventSubscription :=
  mkSub (sb_binding s) (sb_call_id s) (sb_local_tag s) (Some tag) target
    (Some (default routes (sb_dialog_routes s)))
    (sb_cseq s) (sb_transaction s) (sb_auth_pending s) (sb_auth_rounds s) (sb_auth_deadline s) (sb_due s)
    (sb_lease_deadline s) (sb_requested_lease s) (sb_disabled s) (sb_last_notify s) (sb_snapshot s)
    (sb_full_requests s) (sb_need_full s) (sb_auth_scope s).
Definition with_times (due : Z) (lease_deadline : option Z) (s : RegEventSubscription) : RegEventSubscription :=
  mkSub (sb_binding s) (sb_call_id s) (sb_local_tag s) (sb_remote_tag s) (sb_target s) (sb_dialog_routes s)
    (sb_cseq s) (sb_transaction s) (sb_auth_pending s) (sb_auth_rounds s) (sb_auth_deadline s) due lease_deadline
    (sb_requested_lease s) (sb_disabled s) (sb_last_notify s) (sb_snapshot s) (sb_full_requests s)
    (sb_need_full s) (sb_auth_scope s).
Definition with_notify (cseq : Z) (wire : list Z) (snapshot : Snapshot) (s : RegEventSubscription)
    : RegEventSubscription :=
  mkSub (sb_binding s) (sb_call_id s) (sb_local_tag s) (sb_remote_tag s) (sb_target s) (sb_dialog_routes s)
    (sb_cseq s) (sb_transaction s) (sb_auth_pending s) (sb_auth_rounds s) (sb_auth_deadline s) (sb_due s)
    (sb_lease_deadline s) (sb_requested_lease s) (sb_disabled s) (Some (cseq, wire)) snapshot (sb_full_requests s)
    (sb_need_full s) (sb_auth_scope s).
Definition with_full (requests : Z) (need_full : bool) (s : RegEventSubscription) : RegEventSubscription :=
  mkSub (sb_binding s) (sb_call_id s) (sb_local_tag s) (sb_remote_tag s) (sb_target s) (sb_dialog_routes s)
    (sb_cseq s) (sb_transaction s) (sb_auth_pending s) (sb_auth_rounds s) (sb_auth_deadline s) (sb_due s)
    (sb_lease_deadline s) (sb_requested_lease s) (sb_disabled s) (sb_last_notify s) (sb_snapshot s) requests
    need_full (sb_auth_scope s).
Definition disable (s : RegEventSubscription) : RegEventSubscription :=
  mkSub (sb_binding s) (sb_call_id s) (sb_local_tag s) (sb_remote_tag s) (sb_target s) (sb_dialog_routes s)
    (sb_cseq s) None None (sb_auth_rounds s) None (sb_due s) (sb_lease_deadline s) (sb_requested_lease s) true
    (sb_last_notify s) (sb_snapshot s) (sb_full_requests s) (sb_need_full s) (sb_auth_scope s).

(** [random_id]: the hexadecimal digits of sixteen random bytes. *)
Definition random_id (bytes : option (list Z)) : ims str :=
  bytes ← ok_or (lit "ims_reg_event_entropy_unavailable") bytes; Ok (bytes ≫= fmt_byte).
Definition subscription_new (binding : RegEventBinding) (id1 id2 : option (list Z)) (now : Z)
    : ims RegEventSubscription :=
  call_id ← random_id id1;
  local_tag ← random_id id2;
  Ok (mkSub binding (call_id ++ lit "@reg-event.invalid") local_tag None (rb_aor binding) None 0 None None 0 None
        now None REQUESTED_LEASE false None snapshot_default 0 false None).

(** ** Timers *)
Definition next_deadline (s : RegEventSubscription) : option Z :=
  if sb_disabled s then None
  else
    let next := match sb_transaction s with
      | Some tx => Z.min (default (tx_deadline tx) (tx_resend_at tx)) (tx_deadline tx)
      | None => default (sb_due s) (sb_auth_deadline s)
      end in
    Some (match sb_lease_deadline s with Some expiry => Z.min expiry next | None => next end).
(** [o.is_some_and(|deadline| now >= deadline)] *)
Definition past (now : Z) (o : option Z) : bool := match o with Some d => d <=? now | None => false end.
Inductive RegEventAction := Begin | Retransmit (wire : list Z) | Idle.
Definition tx_past (now : Z) (s : RegEventSubscription) : bool :=
  match sb_transaction s with Some tx => tx_deadline tx <=? now | None => false end.
Definition poll (now : Z) (s : RegEventSubscription) : RegEventAction * RegEventSubscription :=
  if sb_disabled s then (Idle, s)
  else if past now (sb_lease_deadline s) || past now (sb_auth_deadline s) || tx_past now s
  then (Idle, disable s)
  else match sb_transaction s with
  | Some tx =>
    if past now (tx_resend_at tx) then
      let interval := Z.min (tx_interval tx * 2) T2 in
      (Retransmit (tx_wire tx),
       with_transaction (Some (mkTx (tx_wire tx) (tx_branch tx) (tx_deadline tx) (Some (now + interval)) interval)) s)
    else (Idle, s)
  | None =>
    if bool_decide (sb_auth_pending s = None) && (sb_due s <=? now) then (Begin, s) else (Idle, s)
  end.

(** ** The SUBSCRIBE *)
(** [value.trim_end_matches("\r\n")] *)
Fixpoint trim_crlf_rev (reversed : str) : str :=
  match reversed with
  | c :: d :: rest => if (c =? LF) && (d =? CR) then trim_crlf_rev rest else reversed
  | _ => reversed
  end.
Definition trim_end_crlf (value : str) : str := reverse (trim_crlf_rev (reverse value)).
Definition authorization_header (pending : option bool) (authorization : option str) : ims (option SipHeader) :=
  match pending, authorization with
  | None, None => Ok None
  | Some proxy, Some value =>
    '(name, value) ← or_invalid (split_once (ch ":") (trim_end_crlf value));
    if negb (eq_ignore_ascii_case name (if proxy then lit "Proxy-Authorization" else lit "Authorization"))
       || negb (safe_header_value value)
       || negb (starts_with (trim_start_matches is_whitespace value) (lit "Digest "))
    then invalid
    else Ok (Some (mkHeader name (trim value)))
  | _, _ => invalid
  end.
Definition routes_of (routes : list str) : list SipHeader := mkHeader (lit "Route") <$> routes.
Definition route_headers (route : ImsRoute) (registration : RegisteredImsContext) (s : RegEventSubscription)
    : ims (list SipHeader) :=
  match sb_dialog_routes s, cx_service_route registration with
  | Some routes, _ => Ok (routes_of routes)
  | None, Some value => routes ← route_list value; Ok (routes_of routes)
  | None, None =>
    Ok [mkHeader (lit "Route")
          (lit "<sip:" ++ sip_host (addr_ip (pcscf_addr route)) ++ lit ":" ++ fmt_dec (addr_port (pcscf_addr route))
             ++ lit ";lr>")]
  end.
Definition reserved_names : list str :=
  [lit "via"; lit "v"; lit "from"; lit "f"; lit "to"; lit "t"; lit "call-id"; lit "i"; lit "cseq"; lit "contact";
   lit "m"; lit "event"; lit "o"; lit "accept"; lit "expires"; lit "content-length"; lit "l"; lit "content-type";
   lit "c"; lit "route"; lit "record-route"; lit "authorization"; lit "proxy-authorization"; lit "user-agent";
   lit "max-forwards"].
Definition access_header (st : list str * list SipHeader) (header : SipHeader) : ims (list str * list SipHeader) :=
  let '(names, headers) := st in
  let name := lowercase (h_name header) in
  if negb (token name) || negb (safe_header_value (h_value header)) || existsb (str_eqb name) names
     || existsb (str_eqb name) reserved_names
  then invalid else Ok (names ++ [name], headers ++ [header]).
Definition subscribe_headers (routes : list SipHeader) (user_agent : str) (requested_lease : Z)
    (s : RegEventSubscription) : list SipHeader :=
  routes ++ [mkHeader (lit "Contact") (lit "<" ++ rb_contact_uri (sb_binding s) ++ lit ">");
             mkHeader (lit "Event") (lit "reg"); mkHeader (lit "Accept") (lit "application/reginfo+xml");
             mkHeader (lit "Expires") (fmt_dec requested_lease); mkHeader (lit "User-Agent") user_agent].
(** The request, once its headers are known. *)
Definition subscribe_request (route : ImsRoute) (branch : str) (cseq : Z) (headers : list SipHeader)
    (s : RegEventSubscription) : SipRequest :=
  mkRequest (lit "SUBSCRIBE") (sb_target s) route branch (rb_aor (sb_binding s)) (sb_local_tag s)
    (lit "<" ++ rb_aor (sb_binding s) ++ lit ">"
       ++ match sb_remote_tag s with Some tag => lit ";tag=" ++ tag | None => [] end)
    (sb_call_id s) cseq headers [].
(** What is checked before the state is touched: the authorization and the routes. *)
Definition subscribe_checked (route : ImsRoute) (registration : RegisteredImsContext) (user_agent : str)
    (access_headers : list SipHeader) (authorization : option str) (s : RegEventSubscription)
    : ims (option SipHeader * list SipHeader) :=
  auth ← authorization_header (sb_auth_pending s) authorization;
  if negb (safe_header_value user_agent) || (32 <? length access_headers)%nat then invalid
  else routes ← route_headers route registration s; Ok (auth, routes).
(** The branch, sequence number and wire of the request. *)
Definition subscribe_wire (route : ImsRoute) (user_agent : str) (access_headers : list SipHeader)
    (auth : option SipHeader) (routes : list SipHeader) (id : option (list Z)) (s : RegEventSubscription)
    : ims (str * Z * list Z) :=
  require_ok (negb (sb_requested_lease s =? 0));;
  '(_, headers) ← foldM access_header ([], subscribe_headers routes user_agent (sb_requested_lease s) s) access_headers;
  let headers := headers ++ option_list auth in
  let cseq := sb_cseq s + 1 in
  require_ok (cseq <? 2147483648);;
  id ← random_id id;
  let branch := lit "z9hG4bK" ++ id in
  let wire := build_request (subscribe_request route branch cseq headers s) in
  require_ok (Z.of_nat (length wire) <=? MAX_HEADERS);;
  Ok (branch, cseq, wire).
Definition subscribe_sent (route : ImsRoute) (branch : str) (cseq : Z) (wire : list Z) (now : Z)
    (s : RegEventSubscription) : RegEventSubscription :=
  let fresh := bool_decide (sb_auth_pending s = None) in
  let s := if fresh then with_full (sb_full_requests s) false s else s in
  let s := with_auth None (if fresh then 0 else sb_auth_rounds s) None (if fresh then None else sb_auth_scope s) s in
  let s := with_cseq cseq (sb_requested_lease s) s in
  with_transaction (Some (mkTx wire branch (now + TRANSACTION_TIMEOUT)
    (if bool_decide (transport route = Udp) then Some (now + T1) else None) T1)) s.
Definition subscribe_refused (now : Z) (s : RegEventSubscription) : bool :=
  sb_disabled s || bool_decide (is_Some (sb_transaction s)) || past now (sb_lease_deadline s)
  || past now (sb_auth_deadline s) || (bool_decide (sb_auth_pending s = None) && (now <? sb_due s)).
Definition build_subscribe (route : ImsRoute) (registration : RegisteredImsContext) (user_agent : str)
    (access_headers : list SipHeader) (authorization : option str) (id : option (list Z)) (now : Z)
    (s : RegEventSubscription) : ims (list Z) * RegEventSubscription :=
  if subscribe_refused now s then (invalid, s)
  else match subscribe_checked route registration user_agent access_headers authorization s with
  | Err e => (Err e, s)
  | Panic => (Panic, s)
  | Ok (auth, routes) =>
    (* [self.requested_lease] is written before the later errors. *)
    let s := with_cseq (sb_cseq s) (Z.min REQUESTED_LEASE (lease_expires_seconds (cx_lease registration))) s in
    match subscribe_wire route user_agent access_headers auth routes id s with
    | Err e => (Err e, s)
    | Panic => (Panic, s)
    | Ok (branch, cseq, wire) => (Ok wire, subscribe_sent route branch cseq wire now s)
    end
  end.

(** ** Frames received *)
Inductive RegEventFrame :=
| FrameOther
| FrameNotify (response_status : Z) (effect : RegEventEffect)
| FrameAuthChallenge (challenge : DigestChallenge)
| FrameResponse (status : Z).
(** [parsed.one("call-id").ok().flatten() == Some(..)] *)
Definition frame_call_id (f : Frame) : option str := res_ok (one f (lit "call-id")) ≫= id.
Definition wants_frame (wire : list Z) (s : RegEventSubscription) : bool :=
  is_reg_notify wire
  || match frame_parse wire with
     | Ok f => bool_decide (frame_call_id f = Some (sb_call_id s))
     | _ => false
     end.
Definition param_value (params : list (str * option str)) (name : str) : option str :=
  '(_, v) ← List.find (λ p, str_eqb p.1 name) params; v.

(** The response belongs to the outstanding SUBSCRIBE. *)
Definition response_matches (f : Frame) (tx : Transaction) (s : RegEventSubscription) : ims bool :=
  from ← one_required f (lit "from");
  from ← address from;
  to ← one_required f (lit "to");
  to ← address to;
  via ← one_required f (lit "via");
  '(_, params) ← parameters via;
  call_id ← one f (lit "call-id");
  if negb (bool_decide (call_id = Some (sb_call_id s))) then Ok false
  else
    cseq ← frame_cseq f;
    Ok (bool_decide (cseq = (sb_cseq s, lit "SUBSCRIBE"))
        && str_eqb (address_uri from) (rb_aor (sb_binding s))
        && bool_decide (address_param from (lit "tag") = Some (sb_local_tag s))
        && str_eqb (address_uri to) (rb_aor (sb_binding s))
        && bool_decide (param_value params (lit "branch") = Some (tx_branch tx))).
(** The challenge that is followed. *)
Definition response_challenge (f : Frame) (status : Z) (s : RegEventSubscription) : ims DigestChallenge :=
  require_ok (sb_auth_rounds s <? 2);;
  server ← one f (lit "security-server");
  require_ok (bool_decide (server = None));;
  verify ← one f (lit "security-verify");
  require_ok (bool_decide (verify = None));;
  let wanted := if status =? 401 then lit "www-authenticate" else lit "proxy-authenticate" in
  let other := if status =? 401 then lit "proxy-authenticate" else lit "www-authenticate" in
  unwanted ← one f other;
  require_ok (bool_decide (unwanted = None));;
  value ← one_required f wanted;
  require_ok (length (split_digest_challenge_values value) =? 1)%nat;;
  require_ok (bool_decide (sb_auth_pending s = None));;
  challenge ← (if status =? 401 then select_digest_challenge [value] [] false
               else select_digest_challenge [] [value] false);
  require_ok (match sb_auth_scope s with
    | Some (proxy, realm, algorithm) =>
      bool_decide (proxy = ch_proxy challenge) && str_eqb realm (ch_realm challenge)
      && eq_ignore_ascii_case algorithm (ch_algorithm challenge)
    | None => true
    end);;
  Ok challenge.
(** The dialog a 2xx establishes or confirms: tag, target, routes, lifetime. *)
Definition response_accepted (f : Frame) (s : RegEventSubscription) : ims (str * str * list str * Z) :=
  to ← one_required f (lit "to");
  to ← address to;
  tag ← or_invalid (address_param to (lit "tag"));
  tag ← valid_tag tag;
  require_ok (match sb_remote_tag s with Some old => str_eqb old tag | None => true end);;
  contact ← one_required f (lit "contact");
  contact ← address contact;
  routes ← frame_routes f true;
  require_ok (match sb_dialog_routes s with
    | Some old => bool_decide (routes = []) || bool_decide (old = routes)
    | None => true
    end);;
  expires ← one_required f (lit "expires");
  expires ← positive expires;
  Ok (tag, address_uri contact, routes, Z.min expires (sb_requested_lease s)).
Definition accept_dialog (now : Z) (accepted : str * str * list str * Z) (s : RegEventSubscription)
    : RegEventSubscription :=
  let '(tag, target, routes, expires) := accepted in
  let s := with_transaction None (with_dialog tag target routes s) in
  with_times (if sb_need_full s then now else now + secs (Z.max (expires / 2) 1)) (Some (now + secs expires)) s.
Definition response (f : Frame) (now : Z) (s : RegEventSubscription) : RegEventFrame * RegEventSubscription :=
  match sb_transaction s with
  | None => (FrameOther, s)
  | Some tx =>
    if negb (default false (res_ok (response_matches f tx s))) then (FrameOther, s)
    else
      let status := default 0 (frame_status f) in
      if (tx_deadline tx <=? now) || sb_disabled s then (FrameResponse status, disable s)
      else if in_range 100 199 status then
        (FrameResponse status,
         with_transaction (Some (mkTx (tx_wire tx) (tx_branch tx) (tx_deadline tx)
           (if bool_decide (is_Some (tx_resend_at tx)) then Some (now + T2) else None) T2)) s)
      else if (status =? 401) || (status =? 407) then
        match response_challenge f status s with
        | Ok challenge =>
          (FrameAuthChallenge challenge,
           with_auth (Some (ch_proxy challenge)) (sb_auth_rounds s + 1) (Some (now + TRANSACTION_TIMEOUT))
             (Some (ch_proxy challenge, ch_realm challenge, ch_algorithm challenge)) (with_transaction None s))
        | _ => (FrameResponse status, disable s)
        end
      else if (status =? 200) || (status =? 202) then
        (FrameResponse status,
         match response_accepted f s with Ok accepted => accept_dialog now accepted s | _ => disable s end)
      else (FrameResponse status, disable s)
  end.

(** ** NOTIFY *)
Section notify.
Context (xml_events : list Z → list (option XmlEvent)).
(** [map_err(|_| status)] *)
Definition or_status {A} (status : Z) (r : ims A) : res Z A := map_err (λ _, status) r.
Definition require_status (status : Z) (c : bool) : res Z unit := if c then Ok tt else Err status.

(** The request is ours: event, call and tags. *)
Definition notify_dialog (f : Frame) (s : RegEventSubscription) : res Z str :=
  event ← or_status 400 (one f (lit "event"));
  event ← ok_or 489 event;
  '(event, params) ← or_status 400 (parameters event);
  require_status 489 (eq_ignore_ascii_case event (lit "reg") && bool_decide (params = []));;
  call_id ← or_status 400 (one f (lit "call-id"));
  require_status 481 (bool_decide (call_id = Some (sb_call_id s)));;
  from ← or_status 400 (one f (lit "from"));
  from ← ok_or 400 from;
  from ← or_status 400 (address from);
  to ← or_status 400 (one f (lit "to"));
  to ← ok_or 400 to;
  to ← or_status 400 (address to);
  remote ← ok_or 481 (address_param from (lit "tag"));
  remote ← or_status 400 (valid_tag remote);
  require_status 481
    (str_eqb (address_uri to) (rb_aor (sb_binding s)) && str_eqb (address_uri from) (rb_aor (sb_binding s))
     && bool_decide (address_param to (lit "tag") = Some (sb_local_tag s))
     && match sb_remote_tag s with Some tag => str_eqb tag remote | None => true end
     && bool_decide ((uri ← request_uri f; res_ok (canonical_uri uri)) = Some (rb_contact_uri (sb_binding s))));;
  Ok remote.
Definition via_ok (f : Frame) : res Z unit :=
  via ← ok_or 400 ('(_, v) ← List.find (λ h, str_eqb h.1 (lit "via")) (fr_headers f); Some v);
  '(sent_by, params) ← or_status 400 (parameters (default [] (head (split (ch ",") via))));
  require_status 400
    ((starts_with sent_by (lit "SIP/2.0/UDP ") || starts_with sent_by (lit "SIP/2.0/TCP ")
      || starts_with sent_by (lit "SIP/2.0/TLS "))
     && existsb (λ p, str_eqb p.1 (lit "branch") && match p.2 with Some v => token v | None => false end) params).
Definition charset_ok (p : str * option str) : bool :=
  str_eqb p.1 (lit "charset")
  && match p.2 with
     | Some v => eq_ignore_ascii_case (trim_matches (Z.eqb quote) v) (lit "utf-8")
     | None => false
     end.
Definition notify_document (f : Frame) (terminated : bool) (content_type : option str) : res Z (option Document) :=
  if bool_decide (fr_body f = []) && terminated then Ok None
  else
    content_type ← ok_or 415 content_type;
    '(media, params) ← or_status 415 (parameters content_type);
    require_status 415 (eq_ignore_ascii_case media (lit "application/reginfo+xml") && forallb charset_ok params);;
    document ← or_status 400 (parse xml_events (fr_body f));
    Ok (Some document).
(** What an acceptable NOTIFY of the dialog says. *)
Record NotifyContents := mkContents {
  nc_subscription : SubscriptionState;
  nc_document : option Document;
  nc_target : str;
  nc_routes : list str;
}.
Definition notify_contents (f : Frame) (s : RegEventSubscription) : res Z NotifyContents :=
  subscription ← or_status 400 (one f (lit "subscription-state"));
  subscription ← ok_or 400 subscription;
  subscription ← or_status 400 (subscription_state subscription);
  content_type ← or_status 400 (one f (lit "content-type"));
  require_ ← or_status 400 (one f (lit "require"));
  require_status 420 (bool_decide (require_ = None));;
  via_ok f;;
  document ← notify_document f (sub_terminated subscription) content_type;
  contact ← or_status 400 (one f (lit "contact"));
  contact ← ok_or 400 contact;
  contact ← or_status 400 (address contact);
  routes ← or_status 400 (frame_routes f false);
  require_status 481 (match sb_dialog_routes s with
    | Some old => bool_decide (routes = []) || bool_decide (old = routes)
    | None => true
    end);;
  Ok (mkContents subscription document (address_uri contact) routes).
(** [a.into_iter().chain(b).max()] *)
Definition option_max (a b : option Z) : option Z :=
  match a, b with Some x, Some y => Some (Z.max x y) | Some x, None => Some x | None, o => o end.
Definition with_retry_after (retry_after : option Z) (e : RegEventEffect) : RegEventEffect :=
  match e with BindingTerminated reason own => BindingTerminated reason (option_max own retry_after) | e => e end.
Definition shorten_lease (now : Z) (expires : option Z) (s : RegEventSubscription) : RegEventSubscription :=
  match expires with
  | Some expires =>
    let lifetime := Z.min expires (sb_requested_lease s) in
    let deadline := now + secs lifetime in
    with_times
      (if bool_decide (sb_transaction s = None) then Z.min (sb_due s) (now + secs (Z.max (lifetime / 2) 1)) else sb_due s)
      (Some (match sb_lease_deadline s with Some old => Z.min old deadline | None => deadline end)) s
  | None => s
  end.
Definition request_full (now : Z) (s : RegEventSubscription) : RegEventSubscription :=
  let requests := sb_full_requests s + 1 in
  let s := with_full requests true s in
  if 1 <? requests then disable s else with_times now (sb_lease_deadline s) s.
(** The updates of an accepted NOTIFY. *)
Definition accept_notify (now cseq : Z) (wire : list Z) (remote : str) (c : NotifyContents) (effect : RegEventEffect)
    (snapshot : Snapshot) (s : RegEventSubscription) : RegEventSubscription :=
  let s := with_notify cseq wire snapshot (with_dialog remote (nc_target c) (nc_routes c) s) in
  let s := shorten_lease now (sub_expires (nc_subscription c)) s in
  let s := if bool_decide (effect = NeedFull) then request_full now s else s in
  if sub_terminated (nc_subscription c) || is_terminated effect then disable s else s.
(** A dialog exists, or is being created. *)
Definition notify_expected (now : Z) (s : RegEventSubscription) : bool :=
  negb (sb_disabled s) && negb (past now (sb_lease_deadline s))
  && (bool_decide (is_Some (sb_remote_tag s))
      || (bool_decide (is_Some (sb_transaction s)) && negb (tx_past now s))).
Definition notify (f : Frame) (wire : list Z) (now : Z) (s : RegEventSubscription)
    : res Z RegEventEffect * RegEventSubscription :=
  let checked :=
    remote ← notify_dialog f s;
    '(cseq, method_) ← or_status 400 (frame_cseq f);
    require_status 400 (str_eqb method_ (lit "NOTIFY"));;
    Ok (remote, cseq) in
  match checked with
  | Err e => (Err e, s)
  | Panic => (Panic, s)
  | Ok (remote, cseq) =>
    match (match sb_last_notify s with
           | Some (last, bytes) =>
             if cseq =? last then Some (if bool_decide (wire = bytes) then Ok NoEffect else Err 400)
             else if cseq <? last then Some (Err 500) else None
           | None => None
           end) with
    | Some r => (r, s)
    | None =>
      let contents :=
        require_status 481 (notify_expected now s);;
        c ← notify_contents f s;
        '(effect, snapshot) ← match nc_document c with
          | Some document => or_status 400 (snapshot_apply document (sb_binding s) (sb_snapshot s))
          | None => Ok (NoEffect, sb_snapshot s)
          end;
        Ok (c, with_retry_after (sub_retry_after (nc_subscription c)) effect, snapshot) in
      match contents with
      | Err e => (Err e, s)
      | Panic => (Panic, s)
      | Ok (c, effect, snapshot) => (Ok effect, accept_notify now cseq wire remote c effect snapshot s)
      end
    end
  end.
Definition on_frame (wire : list Z) (now : Z) (s : RegEventSubscription) : RegEventFrame * RegEventSubscription :=
  let is_notify := starts_with wire (lit "NOTIFY ") in
  let reg := is_reg_notify wire in
  match frame_parse wire with
  | Ok f =>
    if is_notify then
      let our_id := bool_decide (frame_call_id f = Some (sb_call_id s)) in
      let no_event := bool_decide (res_ok (one f (lit "event")) ≫= id = None) in
      if negb reg && negb (our_id && no_event) then (FrameOther, s)
      else
        match notify f wire now s with
        | (Ok effect, s) => (FrameNotify 200 effect, s)
        | (Err status, s) => (FrameNotify status NoEffect, s)
        | (Panic, s) => (FrameOther, s)
        end
    else if bool_decide (is_Some (frame_status f)) then response f now s else (FrameOther, s)
  | _ => if is_notify && reg then (FrameNotify 400 NoEffect, s) else (FrameOther, s)
  end.
End notify.

(** * Lemmas *)

(** ** The invariant of a subscription *)
Definition tx_ok (now : Z) (tx : Transaction) : Prop :=
  tx_deadline tx ≤ now + TRANSACTION_TIMEOUT ∧ T1 ≤ tx_interval tx ≤ T2 ∧
  ∀ r, tx_resend_at tx = Some r → r ≤ now + T2.
Record sub_base (now : Z) (s : RegEventSubscription) : Prop := {
  si_cseq : 0 ≤ sb_cseq s < 2147483648;
  si_rounds : 0 ≤ sb_auth_rounds s ≤ 2;
  si_requested : 0 ≤ sb_requested_lease s ≤ REQUESTED_LEASE;
  si_full : 0 ≤ sb_full_requests s ≤ 2;
  si_full_disabled : sb_full_requests s = 2 → sb_disabled s = true;
  si_disabled : sb_disabled s = true → sb_transaction s = None ∧ sb_auth_pending s = None ∧ sb_auth_deadline s = None;
  si_auth : is_Some (sb_auth_pending s) ↔ is_Some (sb_auth_deadline s);
  si_auth_tx : is_Some (sb_auth_pending s) → sb_transaction s = None;
  si_tx : ∀ tx, sb_transaction s = Some tx → tx_ok now tx;
  si_auth_deadline : ∀ d, sb_auth_deadline s = Some d → d ≤ now + TRANSACTION_TIMEOUT;
  si_lease : ∀ d, sb_lease_deadline s = Some d → d ≤ now + secs REQUESTED_LEASE ∧ is_Some (sb_remote_tag s);
}.
Lemma sub_base_later now now' s : sub_base now s → now ≤ now' → sub_base now' s.
Proof.
  intros [? ? ? ? ? ? ? ? Htx Hauth Hlease] Hle. split; try done.
  - intros tx H. destruct (Htx _ H) as (? & ? & Hr). split_and!; [lia..|]. intros r H'. specialize (Hr _ H'). lia.
  - intros d H. specialize (Hauth _ H). lia.
  - intros d H. destruct (Hlease _ H). split; [lia|done].
Qed.
Lemma secs_mono a b : a ≤ b → secs a ≤ secs b.
Proof. unfold secs. lia. Qed.
Lemma disable_inv now s : sub_base now s → sub_base now (disable s).
Proof. intros []. split; simpl; (done || by intros [? ?]). Qed.
Lemma subscription_new_inv binding id1 id2 now s : subscription_new binding id1 id2 now = Ok s → sub_base now s.
Proof.
  unfold subscription_new. intros (? & _ & H)%bind_Ok. apply bind_Ok in H as (? & _ & H). injection H as <-.
  split; simpl; unfold REQUESTED_LEASE; try (done || lia); by intros [? ?].
Qed.

Lemma with_transaction_inv now tx s :
  sub_base now s → sb_disabled s = false → sb_auth_pending s = None → tx_ok now tx →
  sub_base now (with_transaction (Some tx) s).
Proof.
  intros [] Hd Ha Htx. split; simpl; try done; [by rewrite Hd|by rewrite Ha; intros [? ?]|]. by intros ? [= <-].
Qed.
Lemma without_transaction_inv now s : sub_base now s → sub_base now (with_transaction None s).
Proof. intros []. by split; simpl; try done; intros (? & ? & ?)%si_disabled0. Qed.
Lemma with_dialog_inv now tag target routes s : sub_base now s → sub_base now (with_dialog tag target routes s).
Proof. intros []. split; simpl; try done. intros d Hd. by destruct (si_lease0 _ Hd). Qed.
Lemma with_times_inv now due lease s :
  sub_base now s → is_Some (sb_remote_tag s) → (∀ d, lease = Some d → d ≤ now + secs REQUESTED_LEASE) →
  sub_base now (with_times due lease s).
Proof. intros [] Ht Hl. split; simpl; try done. intros d Hd. split; [by apply Hl|done]. Qed.
Lemma no_auth_pending now s tx : sub_base now s → sb_transaction s = Some tx → sb_auth_pending s = None.
Proof. intros [] Htx. destruct (sb_auth_pending s); [|done]. rewrite si_auth_tx0 in Htx; [done|by eexists]. Qed.

(** ** Timers *)
Lemma poll_inv now s a s' : poll now s = (a, s') → sub_base now s → sub_base now s'.
Proof.
  unfold poll. destruct (sb_disabled s) eqn:Hd; [by intros [= _ <-]|].
  destruct (_ || _ || _); [intros [= _ <-]; apply disable_inv|].
  destruct (sb_transaction s) as [tx|] eqn:Htx; [|destruct (_ && _); by intros [= _ <-]].
  destruct (past now (tx_resend_at tx)); [|by intros [= _ <-]]. intros [= _ <-] Hinv.
  apply with_transaction_inv; [done|done|by eapply no_auth_pending|]. destruct (si_tx _ _ Hinv _ Htx) as (? & ? & _).
  unfold tx_ok, T1, T2, secs in *. simpl. split_and!; [lia..|]. intros r [= <-]. lia.
Qed.

(** ** The SUBSCRIBE *)
Lemma subscribe_refused_false now s :
  subscribe_refused now s = false →
  sb_disabled s = false ∧ sb_transaction s = None ∧ past now (sb_lease_deadline s) = false ∧
  past now (sb_auth_deadline s) = false.
Proof.
  unfold subscribe_refused. intros [[[[Hd Htx%bool_decide_eq_false]%orb_false_iff Hl]%orb_false_iff Ha]%orb_false_iff _]%orb_false_iff.
  split_and!; try done. destruct (sb_transaction s); [by destruct Htx|done].
Qed.
Lemma subscribe_wire_cseq route ua hs auth routes id s branch cseq wire :
  subscribe_wire route ua hs auth routes id s = Ok (branch, cseq, wire) →
  cseq = sb_cseq s + 1 ∧ cseq < 2147483648 ∧ Z.of_nat (length wire) ≤ MAX_HEADERS ∧ sb_requested_lease s ≠ 0.
Proof.
  unfold subscribe_wire. intros (? & Hrl%require_ok_Ok%negb_true_iff%Z.eqb_neq & H)%bind_Ok. apply bind_Ok in H as ([? headers] & _ & H).
  apply bind_Ok in H as (? & Hc%require_ok_Ok%Z.ltb_lt & H). apply bind_Ok in H as (? & _ & H).
  apply bind_Ok in H as (? & Hw%require_ok_Ok%Z.leb_le & H). injection H as <- <- <-. done.
Qed.
Lemma subscribe_sent_inv route branch wire now s :
  sub_base now s → sb_disabled s = false → sb_cseq s + 1 < 2147483648 →
  sub_base now (subscribe_sent route branch (sb_cseq s + 1) wire now s).
Proof.
  intros [] Hd Hc. unfold subscribe_sent. apply with_transaction_inv; [|by destruct (bool_decide _)..|].
  - destruct (bool_decide _); split; simpl; try done; try lia; by rewrite Hd.
  - unfold tx_ok, T1, T2, secs. simpl. split_and!; [lia..|]. intros r. destruct (bool_decide _); [intros [= <-]; lia|done].
Qed.
Lemma build_subscribe_inv route registration user_agent access_headers authorization id now s r s' :
  0 ≤ lease_expires_seconds (cx_lease registration) →
  build_subscribe route registration user_agent access_headers authorization id now s = (r, s') →
  sub_base now s → sub_base now s'.
Proof.
  unfold build_subscribe. intros Hlease. destruct (subscribe_refused now s) eqn:Hg; [by intros [= _ <-]|].
  apply subscribe_refused_false in Hg as (Hd & Htx & _ & _).
  destruct (subscribe_checked _ _ _ _ _ _) as [[auth routes]|e|]; [|by intros [= _ <-]..]. intros H Hinv. cbv zeta in H.
  set (rl := Z.min _ _) in *.
  assert (sub_base now (with_cseq (sb_cseq s) rl s)) as Hinv'.
  { destruct Hinv. split; simpl; try done. unfold rl, REQUESTED_LEASE in *. lia. }
  destruct (subscribe_wire _ _ _ _ _ _ _) as [[[branch cseq] wire]|e|] eqn:Hw; [|by injection H as _ <-..].
  apply subscribe_wire_cseq in Hw as (-> & Hc & _). injection H as _ <-.
  by apply (subscribe_sent_inv route branch wire now (with_cseq (sb_cseq s) rl s)).
Qed.

(** ** Responses *)
Lemma response_challenge_rounds f status s challenge :
  response_challenge f status s = Ok challenge → sb_auth_rounds s < 2.
Proof. unfold response_challenge. by intros (? & H%require_ok_Ok%Z.ltb_lt & _)%bind_Ok. Qed.
Lemma response_accepted_lease f s tag target routes expires :
  response_accepted f s = Ok (tag, target, routes, expires) → expires ≤ sb_requested_lease s.
Proof.
  unfold response_accepted. intros (to0 & _ & H)%bind_Ok. do 2 (apply bind_Ok in H as (? & _ & H)).
  do 8 (apply bind_Ok in H as (? & _ & H)). injection H as _ _ _ <-. lia.
Qed.
Lemma accept_dialog_inv now f s accepted :
  response_accepted f s = Ok accepted → sub_base now s → sub_base now (accept_dialog now accepted s).
Proof.
  destruct accepted as [[[tag target] routes] expires]. intros Hexp%response_accepted_lease Hinv.
  unfold accept_dialog. apply with_times_inv; [by apply without_transaction_inv, with_dialog_inv|by eexists|].
  intros d [= <-]. pose proof (si_requested _ _ Hinv). unfold secs, REQUESTED_LEASE in *. lia.
Qed.
Lemma response_inv f now s r s' : response f now s = (r, s') → sub_base now s → sub_base now s'.
Proof.
  unfold response. destruct (sb_transaction s) as [tx|] eqn:Htx; [|by intros [= _ <-]].
  destruct (negb _); [by intros [= _ <-]|]. cbv zeta.
  destruct (_ || _) eqn:Hd; [intros [= _ <-]; apply disable_inv|]. apply orb_false_iff in Hd as [_ Hd].
  destruct (in_range _ _ _).
  { intros [= _ <-] Hinv. apply with_transaction_inv; [done|done|by eapply no_auth_pending|].
    destruct (si_tx _ _ Hinv _ Htx) as (? & _ & _). unfold tx_ok, T1, T2, secs. simpl. split_and!; [done|lia..|].
    intros r0. destruct (bool_decide _); [intros [= <-]; lia|done]. }
  destruct (_ || _).
  { destruct (response_challenge _ _ _) as [challenge|e|] eqn:Hch; intros [= _ <-]; [|apply disable_inv..].
    apply response_challenge_rounds in Hch. intros []. split; simpl; try done; [lia|by rewrite Hd|].
    intros d [= <-]. lia. }
  destruct (_ || _); intros [= _ <-]; [|apply disable_inv].
  destruct (response_accepted f s) eqn:Ha; [by eapply accept_dialog_inv|apply disable_inv..].
Qed.

(** ** NOTIFY *)
Lemma shorten_lease_inv now expires s : sub_base now s → is_Some (sb_remote_tag s) → sub_base now (shorten_lease now expires s).
Proof.
  intros Hinv Htag. unfold shorten_lease. destruct expires as [expires|]; [|done]. apply with_times_inv; [done..|].
  pose proof (si_requested _ _ Hinv) as Hr. intros d [= <-]. destruct (sb_lease_deadline s) as [old|] eqn:Hl.
  - destruct (si_lease _ _ Hinv _ Hl). unfold secs, REQUESTED_LEASE in *. lia.
  - unfold secs, REQUESTED_LEASE in *. lia.
Qed.
Lemma request_full_inv now s : sub_base now s → sb_disabled s = false → is_Some (sb_remote_tag s) → sub_base now (request_full now s).
Proof.
  intros [] Hd Htag. unfold request_full. cbv zeta.
  assert (sb_full_requests s ≠ 2) as Hne by (intros H%si_full_disabled0; congruence).
  destruct (Z.ltb_spec 1 (sb_full_requests s + 1)).
  - split; simpl; try done; lia.
  - split; simpl; try done; lia.
Qed.

Section notified.
Context (xml_events : list Z → list (option XmlEvent)).
Lemma require_status_Ok status c u : require_status status c = Ok u → c = true.
Proof. unfold require_status. by destruct c. Qed.
Lemma or_status_Ok {A} status (r : ims A) a : or_status status r = Ok a → r = Ok a.
Proof. unfold or_status. by destruct r; simpl; intros [= ->]. Qed.
(** No refusal has status 200. *)
Definition refuses {A} (r : res Z A) : Prop := r ≠ Err 200.
Lemma refuses_bind {A B} (r : res Z A) (k : A → res Z B) : refuses r → (∀ a, refuses (k a)) → refuses (r ≫= k).
Proof. unfold refuses. destruct r as [a|e|]; cbn; [by auto|congruence|done]. Qed.
Lemma refuses_or_status {A} status (r : ims A) : status ≠ 200 → refuses (or_status status r).
Proof. unfold refuses, or_status. destruct r; simpl; congruence. Qed.
Lemma refuses_ok_or {A} status (o : option A) : status ≠ 200 → refuses (ok_or status o).
Proof. unfold refuses. destruct o; simpl; congruence. Qed.
Lemma refuses_require status c : status ≠ 200 → refuses (require_status status c).
Proof. unfold refuses, require_status. destruct c; congruence. Qed.
#[local] Ltac refuses :=
  repeat first
    [ match goal with H : ∀ f s, refuses _ |- _ => apply H end | apply refuses_or_status; discriminate | apply refuses_ok_or; discriminate | apply refuses_require; discriminate
    | apply refuses_bind; [|intros ?] | discriminate | case_match ].
Lemma notify_dialog_refuses f s : refuses (notify_dialog f s).
Proof. unfold notify_dialog. refuses. Qed.
Lemma notify_contents_refuses f s : refuses (notify_contents xml_events f s).
Proof. unfold notify_contents, via_ok, notify_document. refuses. Qed.

(** The NOTIFY is a new request of the dialog that the state allows. *)
Definition fresh_notify (f : Frame) (now : Z) (s : RegEventSubscription) (remote : str) (cseq : Z) : Prop :=
  notify_dialog f s = Ok remote ∧ frame_cseq f = Ok (cseq, lit "NOTIFY") ∧
  match sb_last_notify s with Some (last, _) => last < cseq | None => True end ∧
  notify_expected now s = true.
(** The NOTIFY is the last one accepted. *)
Definition accepted_before (f : Frame) (wire : list Z) (s : RegEventSubscription) : Prop :=
  ∃ remote cseq, notify_dialog f s = Ok remote ∧ frame_cseq f = Ok (cseq, lit "NOTIFY") ∧ sb_last_notify s = Some (cseq, wire).
(** The document of the NOTIFY gives the effect and the snapshot. *)
Definition notify_outcome (c : NotifyContents) (s : RegEventSubscription) (effect : RegEventEffect) (snapshot : Snapshot)
    : Prop :=
  match nc_document c with
  | Some d => ∃ e, snapshot_apply d (sb_binding s) (sb_snapshot s) = Ok (e, snapshot) ∧
                effect = with_retry_after (sub_retry_after (nc_subscription c)) e
  | None => effect = NoEffect ∧ snapshot = sb_snapshot s
  end.
Lemma notify_cases f wire now s r s' :
  notify xml_events f wire now s = (r, s') →
  (s' = s ∧ refuses r ∧ ∀ effect, r = Ok effect → effect = NoEffect ∧ accepted_before f wire s) ∨
  ∃ remote cseq c effect snapshot,
    r = Ok effect ∧ fresh_notify f now s remote cseq ∧ notify_contents xml_events f s = Ok c ∧
    notify_outcome c s effect snapshot ∧ s' = accept_notify now cseq wire remote c effect snapshot s.
Proof.
  unfold notify. match goal with |- context [match ?m with Ok _ => _ | Err _ => _ | Panic => _ end] =>
    assert (refuses m) as Hm by (pose proof notify_dialog_refuses; refuses); destruct m as [[remote cseq]|e|] eqn:Hch end;
    [|intros [= <- <-]; left; split; [done|split; [unfold refuses in *; congruence|by intros ? [=]]]..].
  apply bind_Ok in Hch as (remote' & Hdialog & Hch). apply bind_Ok in Hch as ([cseq' method_] & Hcseq%or_status_Ok & Hch).
  apply bind_Ok in Hch as (? & Hmethod%require_status_Ok%str_eqb_eq & [= -> ->]). subst method_.
  destruct (match sb_last_notify s with Some _ => _ | None => _ end) as [r0|] eqn:Hlast.
  { intros [= <- <-]. left. split; [done|]. destruct (sb_last_notify s) as [[last bytes]|] eqn:Hn; [|done].
    destruct (Z.eqb_spec cseq last) as [->|]; [|destruct (cseq <? last); [by injection Hlast as <-|done]]. injection Hlast as <-.
    case_bool_decide as Hw; [|done]. split; [done|]. intros ? [= <-]. split; [done|]. exists remote, last. by subst. }
  match goal with |- context [match ?m with Ok _ => _ | Err _ => _ | Panic => _ end] =>
    assert (refuses m) as Hm' by (pose proof notify_contents_refuses; refuses); destruct m as [[[c effect] snapshot]|e|] eqn:Hc end;
    [|intros [= <- <-]; left; split; [done|split; [unfold refuses in *; congruence|by intros ? [=]]]..].
  intros [= <- <-]. right. exists remote, cseq, c, effect, snapshot. split; [done|].
  apply bind_Ok in Hc as (? & Hexp%require_status_Ok & Hc). apply bind_Ok in Hc as (c' & Hcontents & Hc).
  apply bind_Ok in Hc as ([e snapshot'] & Hs & [= -> <- ->]). split_and!; try done.
  - split_and!; try done. destruct (sb_last_notify s) as [[last bytes]|]; [|done]. destruct (Z.eqb_spec cseq last); [done|].
    destruct (Z.ltb_spec cseq last); [done|lia].
  - unfold notify_outcome. destruct (nc_document c) as [d|]; [|by injection Hs as <- <-; destruct (nc_subscription c)].
    apply or_status_Ok in Hs. by exists e.
Qed.
Lemma accepted_again f wire now s : accepted_before f wire s → notify xml_events f wire now s = (Ok NoEffect, s).
Proof.
  intros (remote & cseq & Hd & Hc & Hl). unfold notify, or_status. rewrite Hd, Hc. cbn -[str_eqb lit].
  assert (str_eqb (lit "NOTIFY") (lit "NOTIFY") = true) as -> by by apply str_eqb_eq. cbn.
  by rewrite Hl, Z.eqb_refl, bool_decide_true.
Qed.
Lemma with_retry_after_terminated o e : is_terminated (with_retry_after o e) = is_terminated e.
Proof. by destruct e. Qed.
Lemma notify_outcome_revoked c s effect snapshot :
  notify_outcome c s effect snapshot → sn_revoked (sb_snapshot s) = false →
  sn_revoked snapshot = is_terminated effect.
Proof.
  unfold notify_outcome. destruct (nc_document c) as [d|]; [|by intros [-> ->] ->].
  intros (e & Ha & ->) Hr. rewrite with_retry_after_terminated.
  apply snapshot_apply_cases in Ha as [[-> [-> | ->]]|(_ & _ & _ & H)]; [done..|]. rewrite Hr in H. by destruct H as [-> _].
Qed.
Lemma notify_expected_enabled now s : notify_expected now s = true → sb_disabled s = false ∧ past now (sb_lease_deadline s) = false.
Proof. unfold notify_expected. intros [[?%negb_true_iff ?%negb_true_iff]%andb_true_iff _]%andb_true_iff. done. Qed.
Lemma accept_notify_base now cseq wire remote c effect snapshot s :
  sub_base now s → sb_disabled s = false → sub_base now (accept_notify now cseq wire remote c effect snapshot s).
Proof.
  intros Hinv Hd. unfold accept_notify. cbv zeta.
  set (s1 := with_notify _ _ _ _). assert (sub_base now s1) as H1.
  { apply (with_dialog_inv now remote (nc_target c) (nc_routes c)) in Hinv. destruct Hinv. by split. }
  set (s2 := shorten_lease _ _ _). assert (sub_base now s2) as H2 by (apply shorten_lease_inv; [done|by eexists]).
  assert (sb_disabled s2 = false ∧ is_Some (sb_remote_tag s2)) as [Hd2 Ht2].
  { unfold s2, shorten_lease. destruct (sub_expires _); simpl; (split; [done|by eexists]). }
  set (s3 := if bool_decide (effect = NeedFull) then _ else _).
  assert (sub_base now s3) as H3 by (unfold s3; destruct (bool_decide _); [by apply request_full_inv|done]).
  destruct (_ || _); [by apply disable_inv|done].
Qed.
Lemma accept_notify_snapshot now cseq wire remote c effect snapshot s :
  sb_snapshot (accept_notify now cseq wire remote c effect snapshot s) = snapshot ∧
  sb_last_notify (accept_notify now cseq wire remote c effect snapshot s) = Some (cseq, wire) ∧
  (is_terminated effect = true → sb_disabled (accept_notify now cseq wire remote c effect snapshot s) = true).
Proof.
  unfold accept_notify, request_full, shorten_lease. cbv zeta.
  destruct (is_terminated effect), (sub_terminated _), (sub_expires _), (bool_decide (effect = NeedFull)); cbn;
    try destruct (1 <? _); by split_and!.
Qed.
(** The lease after a NOTIFY: never later, and kept when there is one. *)
Definition lease_le (old new : option Z) : Prop := ∀ d, old = Some d → ∃ d', new = Some d' ∧ d' ≤ d.
Lemma accept_notify_lease now cseq wire remote c effect snapshot s :
  lease_le (sb_lease_deadline s) (sb_lease_deadline (accept_notify now cseq wire remote c effect snapshot s)).
Proof.
  intros d Hd. unfold accept_notify, request_full, shorten_lease. cbv zeta.
  destruct (_ || _), (sub_expires _), (bool_decide (effect = NeedFull)); cbn; try destruct (1 <? _); cbn;
    rewrite Hd; eexists; (split; [done|lia]).
Qed.
(** The identity of the dialog stays. *)
Lemma accept_notify_dialog now cseq wire remote c effect snapshot s :
  let s' := accept_notify now cseq wire remote c effect snapshot s in
  sb_binding s' = sb_binding s ∧ sb_call_id s' = sb_call_id s ∧ sb_local_tag s' = sb_local_tag s ∧
  sb_remote_tag s' = Some remote ∧ sb_cseq s' = sb_cseq s.
Proof.
  unfold accept_notify, request_full, shorten_lease. cbv zeta.
  destruct (_ || _), (sub_expires _), (bool_decide (effect = NeedFull)); cbn; try destruct (1 <? _); cbn; done.
Qed.
#[local] Ltac keep_bind H :=
  let E := fresh in apply bind_Ok in H as (? & E & H); rewrite E; clear E; cbn [mbind res_bind].
Lemma notify_dialog_again f s s' remote :
  notify_dialog f s = Ok remote →
  sb_binding s' = sb_binding s → sb_call_id s' = sb_call_id s → sb_local_tag s' = sb_local_tag s →
  sb_remote_tag s' = Some remote → notify_dialog f s' = Ok remote.
Proof.
  intros H Hb Hc Hl Hr. unfold notify_dialog in *. rewrite Hb, Hc, Hl, Hr.
  do 2 keep_bind H. apply bind_Ok in H as ([event params] & E & H). rewrite E. clear E. cbn [mbind res_bind].
  do 10 keep_bind H. apply bind_Ok in H as (remote' & E & H). rewrite E. cbn [mbind res_bind].
  apply bind_Ok in H as (? & Hd%require_status_Ok & [= ->]).
  apply andb_true_iff in Hd as [[Hd _]%andb_true_iff Hu]. rewrite Hd, Hu.
  assert (str_eqb remote remote = true) as -> by by apply str_eqb_eq. done.
Qed.
Lemma notify_base f wire now s r s' : notify xml_events f wire now s = (r, s') → sub_base now s → sub_base now s'.
Proof.
  intros [[-> _]|(remote & cseq & c & effect & snapshot & _ & (_ & _ & _ & Hexp) & _ & _ & ->)]%notify_cases Hinv; [done|].
  apply notify_expected_enabled in Hexp as [Hd _]. by apply accept_notify_base.
Qed.
End notified.

(** ** Frames *)
Lemma on_frame_cases xml_events wire now s r s' :
  on_frame xml_events wire now s = (r, s') →
  (s' = s ∧ (r = FrameOther ∨ r = FrameNotify 400 NoEffect)) ∨
  (∃ f, frame_parse wire = Ok f ∧ response f now s = (r, s')) ∨
  (∃ f n, frame_parse wire = Ok f ∧ notify xml_events f wire now s = (n, s') ∧
     r = match n with Ok effect => FrameNotify 200 effect | Err status => FrameNotify status NoEffect | Panic => FrameOther end).
Proof.
  unfold on_frame. cbv zeta. destruct (frame_parse wire) as [f|e|].
  - destruct (starts_with wire _).
    + destruct (_ && _); [intros [= <- <-]; left; tauto|].
      destruct (notify _ _ _ _ _) as [n s1] eqn:Hn. intros H. right; right. exists f, n.
      destruct n; injection H as <- <-; done.
    + destruct (bool_decide _); [intros ?; right; left; by exists f|intros [= <- <-]; left; tauto].
  - destruct (_ && _); intros [= <- <-]; left; tauto.
  - destruct (_ && _); intros [= <- <-]; left; tauto.
Qed.
Lemma on_frame_base xml_events wire now s r s' :
  on_frame xml_events wire now s = (r, s') → sub_base now s → sub_base now s'.
Proof.
  intros [[-> _]|[(f & _ & Hr)|(f & n & _ & Hn & _)]]%on_frame_cases Hinv; [done|by eapply response_inv|by eapply notify_base].
Qed.

(** ** Runs *)
Inductive SubOutput :=
| OutAction (a : RegEventAction)
| OutSubscribe (r : ims (list Z))
| OutFrame (r : RegEventFrame)
| OutDisabled.
Section runs.
Context (xml_events : list Z → list (option XmlEvent)).
(** One call of a method, no earlier than the one before; a lifetime is unsigned. *)
Inductive sub_step : Z * RegEventSubscription → SubOutput → Z * RegEventSubscription → Prop :=
| SubPoll now now' s a s' : now ≤ now' → poll now' s = (a, s') → sub_step (now, s) (OutAction a) (now', s')
| SubBuild now now' s route registration user_agent access_headers authorization id r s' :
    now ≤ now' → 0 ≤ lease_expires_seconds (cx_lease registration) →
    build_subscribe route registration user_agent access_headers authorization id now' s = (r, s') →
    sub_step (now, s) (OutSubscribe r) (now', s')
| SubFrame now now' s wire r s' :
    now ≤ now' → on_frame xml_events wire now' s = (r, s') → sub_step (now, s) (OutFrame r) (now', s')
| SubDisable now s : sub_step (now, s) OutDisabled (now, disable s).
(** The outputs, the last one first. *)
Inductive sub_reachable : Z → RegEventSubscription → list SubOutput → Prop :=
| sub_start binding id1 id2 now s : subscription_new binding id1 id2 now = Ok s → sub_reachable now s []
| sub_next now s outs out now' s' : sub_reachable now s outs → sub_step (now, s) out (now', s') → sub_reachable now' s' (out :: outs).
Definition reports (out : SubOutput) : bool :=
  match out with OutFrame (FrameNotify _ effect) => is_terminated effect | _ => false end.
Definition count_reports (outs : list SubOutput) : nat := length (filter (λ out, reports out = true) outs).
Record sub_inv (now : Z) (s : RegEventSubscription) (outs : list SubOutput) : Prop := {
  si_base : sub_base now s;
  si_revoked : sn_revoked (sb_snapshot s) = true → sb_disabled s = true;
  si_reports : count_reports outs = if sn_revoked (sb_snapshot s) then 1%nat else 0%nat;
}.
Lemma poll_keeps now s a s' :
  poll now s = (a, s') → sb_snapshot s' = sb_snapshot s ∧ (sb_disabled s = true → sb_disabled s' = true).
Proof.
  unfold poll. destruct (sb_disabled s) eqn:Hd; [by intros [= _ <-]|]. destruct (_ || _ || _); [by intros [= _ <-]|].
  destruct (sb_transaction s); [destruct (past _ _)|destruct (_ && _)]; by intros [= _ <-].
Qed.
Lemma build_subscribe_keeps route registration ua hs auth id now s r s' :
  build_subscribe route registration ua hs auth id now s = (r, s') →
  sb_snapshot s' = sb_snapshot s ∧ sb_disabled s' = sb_disabled s.
Proof.
  unfold build_subscribe, subscribe_sent. destruct (subscribe_refused now s); [by intros [= _ <-]|].
  destruct (subscribe_checked _ _ _ _ _ _) as [[a routes]|e|]; [|by intros [= _ <-]..]. cbv zeta.
  destruct (subscribe_wire _ _ _ _ _ _ _) as [[[branch cseq] wire]|e|]; intros [= _ <-]; [|done..].
  by repeat case_bool_decide.
Qed.
Lemma response_keeps f now s r s' :
  response f now s = (r, s') →
  sb_snapshot s' = sb_snapshot s ∧ (sb_disabled s = true → sb_disabled s' = true) ∧ reports (OutFrame r) = false.
Proof.
  unfold response, accept_dialog. destruct (sb_transaction s); [|by intros [= <- <-]]. destruct (negb _); [by intros [= <- <-]|].
  cbv zeta. destruct (_ || _); [by intros [= <- <-]|]. destruct (in_range _ _ _); [by intros [= <- <-]|].
  destruct (_ || _); [destruct (response_challenge _ _ _); by intros [= <- <-]|].
  destruct (_ || _); [|by intros [= <- <-]]. destruct (response_accepted f s) as [[[[? ?] ?] ?]|e|]; by intros [= <- <-].
Qed.
Lemma on_frame_revoked wire now s r s' :
  on_frame xml_events wire now s = (r, s') → (sn_revoked (sb_snapshot s) = true → sb_disabled s = true) →
  (sn_revoked (sb_snapshot s') = true → sb_disabled s' = true) ∧
  sn_revoked (sb_snapshot s') = sn_revoked (sb_snapshot s) || reports (OutFrame r) ∧
  (sb_disabled s = true → reports (OutFrame r) = false).
Proof.
  intros [[-> [-> | ->]]|[(f & _ & (Hs & Hd & Hr)%response_keeps)|(f & n & _ & Hn & ->)]]%on_frame_cases Hrev.
  - simpl. by rewrite orb_false_r.
  - simpl. by rewrite orb_false_r.
  - rewrite Hs, Hr, orb_false_r. split; [tauto|done].
  - apply notify_cases in Hn as [[-> He]|(remote & cseq & c & effect & snapshot & -> & (_ & _ & _ & Hexp) & _ & Hout & ->)].
    + assert (reports (OutFrame match n with Ok effect => FrameNotify 200 effect | Err status => FrameNotify status NoEffect
        | Panic => FrameOther end) = false) as Hnone by (destruct n; simpl; [by destruct (proj2 He _ eq_refl) as [-> _]|done..]).
      by rewrite Hnone, orb_false_r.
    + apply notify_expected_enabled in Hexp as [Hd _].
      assert (sn_revoked (sb_snapshot s) = false) as Hnr by (destruct (sn_revoked _); [by rewrite Hrev in Hd|done]).
      apply notify_outcome_revoked in Hout; [|done].
      destruct (accept_notify_snapshot now cseq wire remote c effect snapshot s) as (Hs & _ & Ht).
      rewrite Hs, Hnr. simpl. rewrite Hout. split_and!; [done|done|by rewrite Hd].
Qed.
Lemma count_reports_cons out outs : count_reports (out :: outs) = ((if reports out then 1 else 0) + count_reports outs)%nat.
Proof.
  unfold count_reports. rewrite filter_cons. destruct (reports out); [by rewrite decide_True|by rewrite decide_False].
Qed.
Lemma sub_step_inv now s outs out now' s' :
  sub_step (now, s) out (now', s') → sub_inv now s outs → sub_inv now' s' (out :: outs).
Proof.
  intros Hstep [Hb Hr Hc]. inversion Hstep; subst;
    try match goal with H : now ≤ now' |- _ => apply (sub_base_later _ now') in Hb; [|exact H] end.
  - match goal with H : poll _ _ = _ |- _ => pose proof (poll_inv _ _ _ _ H Hb); apply poll_keeps in H as [Hs Hd] end.
    split; [done| |]; rewrite Hs; [tauto|by rewrite count_reports_cons].
  - match goal with H : build_subscribe _ _ _ _ _ _ _ _ = _ |- _ =>
      pose proof (build_subscribe_inv _ _ _ _ _ _ _ _ _ _ ltac:(eassumption) H Hb); apply build_subscribe_keeps in H as [Hs Hd] end.
    split; [done| |]; rewrite Hs; [by rewrite Hd|by rewrite count_reports_cons].
  - match goal with H : on_frame _ _ _ _ = _ |- _ =>
      pose proof (on_frame_base _ _ _ _ _ _ H Hb); apply on_frame_revoked in H as (Hr' & Hs & Hd); [|done] end.
    split; [done..|]. rewrite count_reports_cons, Hs, Hc. destruct (sn_revoked (sb_snapshot s)); [by rewrite Hd by auto|].
    by destruct (reports _).
  - split; [by apply disable_inv|done|by rewrite count_reports_cons].
Qed.
Lemma sub_reachable_inv now s outs : sub_reachable now s outs → sub_inv now s outs.
Proof.
  induction 1 as [binding id1 id2 now s Hnew|now s outs out now' s' _ IH Hstep]; [|by eapply sub_step_inv].
  split; [by eapply subscription_new_inv| |]; unfold subscription_new in Hnew;
    apply bind_Ok in Hnew as (? & _ & Hnew); apply bind_Ok in Hnew as (? & _ & [= <-]); done.
Qed.
End runs.

Lemma response_no_notify f now s status effect s' : response f now s ≠ (FrameNotify status effect, s').
Proof.
  unfold response. destruct (sb_transaction s); [|done]. destruct (negb _); [done|]. cbv zeta. destruct (_ || _); [done|].
  destruct (in_range _ _ _); [done|]. destruct (_ || _); [by destruct (response_challenge _ _ _)|]. by destruct (_ || _).
Qed.
(** The dispatch of a frame looks at the Call-ID only. *)
Lemma on_frame_again xml_events wire f now now' s s1 status effect s' :
  on_frame xml_events wire now s1 = (FrameNotify status effect, s) → frame_parse wire = Ok f → accepted_before f wire s' →
  sb_call_id s' = sb_call_id s1 → on_frame xml_events wire now' s' = (FrameNotify 200 NoEffect, s').
Proof.
  intros H Hf Ha Hid. apply (accepted_again xml_events f wire now') in Ha. unfold on_frame in *. cbv zeta in *.
  rewrite Hf in *. rewrite Hid. destruct (starts_with wire _).
  - destruct (_ && _); [done|]. by rewrite Ha.
  - destruct (bool_decide _); [by apply response_no_notify in H|done].
Qed.

(** ** The retransmission schedule *)
(** Poll at the deadlines the subscription asks for, until it does not retransmit. *)
Fixpoint drive (fuel : nat) (s : RegEventSubscription) : list (Z * list Z) * option (Z * RegEventSubscription) :=
  match fuel with
  | O => ([], None)
  | S fuel =>
    match next_deadline s with
    | Some t =>
      match poll t s with
      | (Retransmit wire, s') => let '(sent, stop) := drive fuel s' in ((t, wire) :: sent, stop)
      | (_, s') => ([], Some (t, s'))
      end
    | None => ([], None)
    end
  end.
(** A transaction whose lease outlives it. *)
Definition waiting (start now : Z) (interval : Z) (wire : list Z) (s : RegEventSubscription) : Prop :=
  sb_disabled s = false ∧ sb_auth_deadline s = None ∧
  (∀ d, sb_lease_deadline s = Some d → start + TRANSACTION_TIMEOUT ≤ d) ∧
  ∃ tx, sb_transaction s = Some tx ∧ tx_wire tx = wire ∧ tx_deadline tx = start + TRANSACTION_TIMEOUT ∧
    tx_resend_at tx = Some (now + interval) ∧ tx_interval tx = interval.
Lemma past_later now d o : (∀ x, o = Some x → d ≤ x) → now < d → past now o = false.
Proof. intros H Hlt. destruct o as [x|]; [|done]. specialize (H _ eq_refl). simpl. lia. Qed.
Lemma waiting_next start now interval wire s :
  waiting start now interval wire s → next_deadline s = Some (Z.min (now + interval) (start + TRANSACTION_TIMEOUT)).
Proof.
  intros (Hd & Ha & Hl & tx & Htx & Hw & Hdl & Hr & Hi). unfold next_deadline. rewrite Hd, Htx, Hr, Hdl. simpl.
  destruct (sb_lease_deadline s) as [d|]; [|done]. specialize (Hl _ eq_refl). f_equal. lia.
Qed.
Lemma waiting_resend start now interval wire s :
  waiting start now interval wire s → now + interval < start + TRANSACTION_TIMEOUT →
  ∃ s', poll (now + interval) s = (Retransmit wire, s') ∧
    waiting start (now + interval) (Z.min (interval * 2) T2) wire s'.
Proof.
  intros (Hd & Ha & Hl & tx & Htx & Hw & Hdl & Hr & Hi) Hlt. unfold poll. rewrite Hd, Ha, Htx.
  rewrite (past_later (now + interval) (start + TRANSACTION_TIMEOUT) _ Hl Hlt).
  assert (tx_past (now + interval) s = false) as -> by (unfold tx_past; rewrite Htx, Hdl; lia).
  rewrite Hr, Hi, Hw. simpl. rewrite Z.leb_refl. eexists. split; [done|].
  split_and!; simpl; [done..|]. eexists. split_and!; [done|done|done|done|done].
Qed.
Lemma waiting_expires start now interval wire s :
  waiting start now interval wire s → start + TRANSACTION_TIMEOUT ≤ now + interval →
  poll (start + TRANSACTION_TIMEOUT) s = (Idle, disable s).
Proof.
  intros (Hd & Ha & Hl & tx & Htx & Hw & Hdl & Hr & Hi) Hle. unfold poll. rewrite Hd.
  assert (tx_past (start + TRANSACTION_TIMEOUT) s = true) as -> by (unfold tx_past; rewrite Htx, Hdl; lia).
  by rewrite orb_true_r.
Qed.
Lemma drive_resend fuel start now interval wire s :
  waiting start now interval wire s → now + interval < start + TRANSACTION_TIMEOUT →
  ∃ s', drive (S fuel) s = (((now + interval, wire) :: (drive fuel s').1), (drive fuel s').2) ∧
    waiting start (now + interval) (Z.min (interval * 2) T2) wire s'.
Proof.
  intros Hw Hlt. destruct (waiting_resend _ _ _ _ _ Hw Hlt) as (s' & Hp & Hw'). exists s'. split; [|done].
  cbn [drive]. rewrite (waiting_next _ _ _ _ _ Hw), Z.min_l by lia. rewrite Hp. by destruct (drive fuel s').
Qed.
Lemma drive_expires fuel start now interval wire s :
  waiting start now interval wire s → start + TRANSACTION_TIMEOUT ≤ now + interval →
  drive (S fuel) s = ([], Some (start + TRANSACTION_TIMEOUT, disable s)).
Proof.
  intros Hw Hle. cbn [drive]. rewrite (waiting_next _ _ _ _ _ Hw), Z.min_r by lia.
  by rewrite (waiting_expires _ _ _ _ _ Hw Hle).
Qed.
Lemma built_transaction route registration ua hs auth id now s wire s' :
  build_subscribe route registration ua hs auth id now s = (Ok wire, s') →
  sb_disabled s' = false ∧ sb_auth_deadline s' = None ∧ sb_lease_deadline s' = sb_lease_deadline s ∧
  ∃ tx, sb_transaction s' = Some tx ∧ tx_wire tx = wire ∧ tx_deadline tx = now + TRANSACTION_TIMEOUT ∧
    tx_resend_at tx = (if bool_decide (transport route = Udp) then Some (now + T1) else None) ∧ tx_interval tx = T1.
Proof.
  unfold build_subscribe, subscribe_sent. destruct (subscribe_refused now s) eqn:Hg; [done|].
  apply subscribe_refused_false in Hg as (Hd & _).
  destruct (subscribe_checked _ _ _ _ _ _) as [[a routes]|e|]; [|done..]. cbv zeta.
  destruct (subscribe_wire _ _ _ _ _ _ _) as [[[branch cseq] w]|e|]; [|done..]. intros [= <- <-].
  split_and!; [by repeat case_bool_decide|by repeat case_bool_decide|by repeat case_bool_decide|]. by eexists.
Qed.

Definition resends : list Z := [1; 3; 7; 15; 23; 31; 39; 47; 55; 63].
(** One retransmission, its interval computed. *)
#[local] Ltac resend Hw :=
  let H := fresh in let s := fresh "s" in let Hnext := fresh in
  match goal with |- context [drive (S ?n) _] =>
    destruct (drive_resend n _ _ _ _ _ Hw ltac:(unfold TRANSACTION_TIMEOUT, T1, secs; lia)) as (s & H & Hnext)
  end;
  rewrite H; clear H Hw;
  match type of Hnext with waiting _ _ ?i _ _ => let v := eval vm_compute in i in change i with v in Hnext end;
  rename Hnext into Hw.
Lemma drive_udp now wire s : waiting now now T1 wire s →
  ∃ s', drive 11 s = ((λ h, (now + h * T1, wire)) <$> resends, Some (now + TRANSACTION_TIMEOUT, s')) ∧ sb_disabled s' = true.
Proof.
  intros Hw. do 10 resend Hw. rewrite (drive_expires _ _ _ _ _ _ Hw) by (unfold TRANSACTION_TIMEOUT, T1, secs; lia).
  cbn [fst snd]. eexists. split; [apply f_equal2; [|reflexivity]|reflexivity]. unfold resends. cbn [fmap list_fmap]. unfold T1.
  repeat (apply f_equal2; [f_equal; lia|]). reflexivity.
Qed.

(** * Properties *)

(** C28: whatever is polled, sent, received or refused, and however late, a subscription
    stays within its bounds: its CSeq is below 2^31, at most two challenges are followed
    in a row and at most two full states asked for, no transaction, credential or
    timer outlives it once disabled, the outstanding transaction ends within 32 seconds
    and the lease within an hour; a revoked binding has disabled it and was reported
    exactly once. *)
Theorem subscription_invariant xml_events now s outs :
  sub_reachable xml_events now s outs → sub_inv now s outs.
Proof. apply sub_reachable_inv. Qed.

(** A disabled subscription is inert: polling finds nothing to do, building a
    request fails, frames get no challenge and no effect (a repeated NOTIFY is still
    acknowledged), and the state does not change. *)
Theorem disabled_subscription_inert xml_events now s outs out now' s' :
  sub_reachable xml_events now s outs → sb_disabled s = true →
  sub_step xml_events (now, s) out (now', s') →
  s' = s ∧ match out with
    | OutAction a => a = Idle
    | OutSubscribe r => r = invalid
    | OutFrame r => r = FrameOther ∨ ∃ status, r = FrameNotify status NoEffect
    | OutDisabled => True
    end.
Proof.
  intros [[] _ _]%sub_reachable_inv Hd Hstep. destruct (si_disabled0 Hd) as (Htx & Ha & Had). inversion Hstep; subst.
  - match goal with H : poll _ _ = _ |- _ => unfold poll in H; rewrite Hd in H; by injection H as <- <- end.
  - match goal with H : build_subscribe _ _ _ _ _ _ _ _ = _ |- _ =>
      unfold build_subscribe, subscribe_refused in H; rewrite Hd in H; by injection H as <- <- end.
  - match goal with H : on_frame _ _ _ _ = _ |- _ =>
      apply on_frame_cases in H as [[-> [-> | ->]]|[(f & _ & Hr)|(f & n & _ & Hn & ->)]] end; [by eauto..| |].
    + unfold response in Hr. rewrite Htx in Hr. injection Hr as <- <-. by eauto.
    + apply notify_cases in Hn as [[-> He]|(? & ? & ? & ? & ? & _ & (_ & _ & _ & [He _]%notify_expected_enabled) & _)];
        [|congruence]. split; [done|]. destruct n; [destruct (proj2 He _ eq_refl) as [-> _]| |]; by eauto.
  - split; [|done]. destruct s; simpl in *; by subst.
Qed.

(** C29: a NOTIFY that is answered with 200 is a request of this dialog whose CSeq is
    not below the last one accepted; it never extends the lease, and repeated byte for
    byte at any time it is acknowledged again without effect.  One that is refused, or
    is not of the dialog, changes nothing. *)
Theorem notify_applied_once xml_events wire now s status effect s' :
  on_frame xml_events wire now s = (FrameNotify status effect, s') →
  (s' = s ∧ effect = NoEffect ∧ status ≠ 200) ∨
  (status = 200 ∧
   (∃ f remote cseq, frame_parse wire = Ok f ∧ notify_dialog f s = Ok remote ∧ frame_cseq f = Ok (cseq, lit "NOTIFY") ∧
      sb_last_notify s' = Some (cseq, wire) ∧ ∀ last bytes, sb_last_notify s = Some (last, bytes) → last ≤ cseq) ∧
   lease_le (sb_lease_deadline s) (sb_lease_deadline s') ∧
   ∀ now', on_frame xml_events wire now' s' = (FrameNotify 200 NoEffect, s')).
Proof.
  intros H. pose proof H as Hframe.
  apply on_frame_cases in H as [[-> [? | [= -> ->]]]|[(f & _ & Hr)|(f & n & Hf & Hn & Heq)]]; [done|by left| |].
  { by apply response_no_notify in Hr. }
  apply notify_cases in Hn as [(-> & Href & He)|(remote & cseq & c & e & snapshot & -> & Hfresh & _ & _ & ->)].
  - destruct n as [e|st|]; [|left|done]; injection Heq as -> ->; [|split_and!; try done; by intros ->].
    destruct (He _ eq_refl) as [-> (remote & cseq & Hd & Hc & Hl)]. right. split; [done|]. split.
    { exists f, remote, cseq. split_and!; try done. rewrite Hl. by intros ? ? [= -> _]. }
    split; [by intros d; exists d|]. intros now'. eapply on_frame_again; [done|done| |done]. by exists remote, cseq.
  - injection Heq as -> ->. right. split; [done|]. destruct Hfresh as (Hd & Hc & Hl & _).
    destruct (accept_notify_snapshot now cseq wire remote c e snapshot s) as (_ & Hlast & _).
    destruct (accept_notify_dialog now cseq wire remote c e snapshot s) as (Hb & Hi & Ht & Hr & _).
    split; [|split; [apply accept_notify_lease|]].
    + exists f, remote, cseq. split_and!; try done. intros last bytes Hs. rewrite Hs in Hl. lia.
    + intros now'. eapply on_frame_again; [done|done| |done]. exists remote, cseq. split_and!; try done.
      by eapply notify_dialog_again.
Qed.

(** a SUBSCRIBE that stays unanswered is sent again over UDP after 0.5, 1.5, 3.5 and
    7.5 seconds and every four seconds from there, not over the reliable transports, and
    32 seconds after it was built the subscription is disabled. *)
Theorem unanswered_subscribe_ends route registration user_agent access_headers authorization id now s wire s' :
  build_subscribe route registration user_agent access_headers authorization id now s = (Ok wire, s') →
  (∀ d, sb_lease_deadline s = Some d → now + secs 32 ≤ d) →
  ∃ ended, sb_disabled ended = true ∧
    drive 11 s' =
      (if bool_decide (transport route = Udp)
       then (λ halves, (now + halves * 500000000, wire)) <$> [1; 3; 7; 15; 23; 31; 39; 47; 55; 63] else [],
       Some (now + secs 32, ended)).
Proof.
  intros (Hd & Ha & Hl & tx & Htx & Hw & Hdl & Hr & Hi)%built_transaction Hlease.
  case_bool_decide as Hudp.
  - destruct (drive_udp now wire s') as (ended & Hdrive & He).
    + split_and!; [done|done|by rewrite Hl|]. exists tx. by split_and!.
    + by exists ended.
  - exists (disable s'). split; [done|]. cbn [drive]. unfold next_deadline. rewrite Hd, Htx, Hr, Hdl. simpl. rewrite Z.min_id, Hl.
    assert (match sb_lease_deadline s with Some expiry => Z.min expiry (now + TRANSACTION_TIMEOUT)
            | None => now + TRANSACTION_TIMEOUT end = now + TRANSACTION_TIMEOUT) as ->.
    { destruct (sb_lease_deadline s) as [d|]; [|done]. specialize (Hlease _ eq_refl). unfold TRANSACTION_TIMEOUT. lia. }
    unfold poll. rewrite Hd. assert (tx_past (now + TRANSACTION_TIMEOUT) s' = true) as ->
      by (unfold tx_past; rewrite Htx, Hdl; lia).
    by rewrite orb_true_r.
Qed.

(** * A subscription that is accepted, notified and ended *)
Definition sample_route (t : SipTransport) : ImsRoute :=
  mkRoute (mkSocket (V4 [10; 0; 0; 2]) 5060) (mkSocket (V4 [10; 0; 0; 1]) 5060) t.
Definition sample_context : RegisteredImsContext := mkContext CellularIms 0 (from_expires 3600) None [].
Definition sample_id : option (list Z) := Some (replicate 16 171).
Definition sample_state (r : ims RegEventSubscription) : RegEventSubscription :=
  match r with Ok s => s | _ => mkSub example_binding [] [] None [] None 0 None None 0 None 0 None 0 true None snapshot_default 0 false None end.
Definition sample_new : RegEventSubscription :=
  Eval vm_compute in sample_state (subscription_new example_binding sample_id sample_id 0).
Definition sample_build (t : SipTransport) : ims (list Z) * RegEventSubscription :=
  build_subscribe (sample_route t) sample_context (lit "ims") [] None sample_id 0 sample_new.
Definition sample_sent : RegEventSubscription := Eval vm_compute in (sample_build Udp).2.
Definition abab : string := "abababababababababababababababab".
Definition sample_accepted_frame : list Z :=
  message (lit <$> ["SIP/2.0 200 OK"; "Via: SIP/2.0/UDP 10.0.0.2:5060;branch=z9hG4bK" ++ abab ++ ";rport";
    "From: <sip:user@example.com>;tag=" ++ abab; "To: <sip:user@example.com>;tag=remote";
    "Call-ID: " ++ abab ++ "@reg-event.invalid"; "CSeq: 1 SUBSCRIBE"; "Contact: <sip:scscf@example.com>";
    "Expires: 600"; "Content-Length: 0"])%string [].
Definition sample_notify (cseq : string) : list Z :=
  message (lit <$> ["NOTIFY sip:user@192.0.2.1:5060 SIP/2.0"; "Via: SIP/2.0/UDP 10.0.0.1:5060;branch=z9hG4bKn";
    "From: <sip:user@example.com>;tag=remote"; "To: <sip:user@example.com>;tag=" ++ abab;
    "Call-ID: " ++ abab ++ "@reg-event.invalid"; "CSeq: " ++ cseq ++ " NOTIFY"; "Contact: <sip:scscf@example.com>";
    "Event: reg"; "Subscription-State: active;expires=500"; "Content-Type: application/reginfo+xml"; "Content-Length: 5"])%string
    (lit "<?xml").
Definition sample_xml (body : list Z) : list (option XmlEvent) := example_events "1" "terminated" "rejected".
Definition sample_accepted : RegEventFrame * RegEventSubscription := on_frame sample_xml sample_accepted_frame 1 sample_sent.
Definition sample_dialog : RegEventSubscription := Eval vm_compute in sample_accepted.2.
Definition sample_notified : RegEventFrame * RegEventSubscription := on_frame sample_xml (sample_notify "7") 2 sample_dialog.
Definition sample_ended : RegEventSubscription := Eval vm_compute in sample_notified.2.
Example sample_run :
  sample_accepted.1 = FrameResponse 200 ∧ sample_notified.1 = FrameNotify 200 (BindingTerminated Rejected None) ∧
  sb_disabled sample_ended = true ∧ sb_lease_deadline sample_ended = Some (2 + secs 500).
Proof. vm_compute. done. Qed.
Lemma sub_sample_reachable :
  sub_reachable sample_xml 2 sample_ended
    [OutFrame (FrameNotify 200 (BindingTerminated Rejected None)); OutFrame (FrameResponse 200);
     OutSubscribe (sample_build Udp).1].
Proof.
  eapply sub_next; [eapply sub_next; [eapply sub_next; [apply (sub_start _ example_binding sample_id sample_id 0 sample_new)|]|]|].
  - vm_compute. reflexivity.
  - apply (SubBuild _ 0 0 sample_new (sample_route Udp) sample_context (lit "ims") [] None sample_id _ sample_sent);
      [done|vm_compute; discriminate|vm_compute; reflexivity].
  - apply (SubFrame _ 0 1 sample_sent sample_accepted_frame _ sample_dialog); [done|vm_compute; reflexivity].
  - apply (SubFrame _ 1 2 sample_dialog (sample_notify "7") _ sample_ended); [done|vm_compute; reflexivity].
Qed.
Lemma subscription_invariant_witness : ∃ outs, sub_inv 2 sample_ended outs ∧ sb_disabled sample_ended = true.
Proof. eexists. split; [exact (subscription_invariant _ _ _ _ sub_sample_reachable)|reflexivity]. Defined.
Lemma disabled_subscription_inert_witness :
  ∃ r s', on_frame sample_xml (sample_notify "7") 3 sample_ended = (r, s') ∧ s' = sample_ended ∧
    (r = FrameOther ∨ ∃ status, r = FrameNotify status NoEffect).
Proof.
  exists (FrameNotify 200 NoEffect), sample_ended.
  assert (on_frame sample_xml (sample_notify "7") 3 sample_ended = (FrameNotify 200 NoEffect, sample_ended)) as H
    by (vm_compute; reflexivity).
  split; [exact H|].
  apply (disabled_subscription_inert sample_xml 2 sample_ended _ (OutFrame (FrameNotify 200 NoEffect)) 3 sample_ended sub_sample_reachable
           eq_refl (SubFrame sample_xml 2 3 sample_ended (sample_notify "7") _ sample_ended ltac:(done) H)).
Defined.
Lemma notify_applied_once_witness :
  on_frame sample_xml (sample_notify "7") 2 sample_dialog
    = (FrameNotify 200 (BindingTerminated Rejected None), sample_ended) ∧
  on_frame sample_xml (sample_notify "7") 9 sample_ended = (FrameNotify 200 NoEffect, sample_ended).
Proof.
  assert (on_frame sample_xml (sample_notify "7") 2 sample_dialog
    = (FrameNotify 200 (BindingTerminated Rejected None), sample_ended)) as H by (vm_compute; reflexivity).
  split; [exact H|].
  destruct (notify_applied_once sample_xml (sample_notify "7") 2 sample_dialog 200 (BindingTerminated Rejected None) sample_ended H)
    as [(_ & _ & Hne)|(_ & _ & _ & Hrep)]; [by destruct Hne|exact (Hrep 9)].
Defined.
Lemma unanswered_subscribe_ends_witness :
  ∃ ended, sb_disabled ended = true ∧ drive 11 (sample_build Tcp).2 = ([], Some (0 + secs 32, ended)).
Proof.
  destruct (sample_build Tcp) as [r s'] eqn:H.
  assert (∃ wire, r = Ok wire) as [wire ->].
  { assert (is_Some (res_ok (sample_build Tcp).1)) as Hr by (vm_compute; by eexists).
    rewrite H in Hr. destruct r; [by eexists|by destruct Hr|by destruct Hr]. }
  destruct (unanswered_subscribe_ends (sample_route Tcp) sample_context (lit "ims") [] None sample_id 0 sample_new wire s' H
    ltac:(done)) as (ended & He & Hd). exists ended. split; [exact He|exact Hd].
Defined.
