(* ===== verification/RegisterMessage.v ===== *)
(** * The REGISTER message

    [connectivity/core/register_message.rs]: the ordered headers of a REGISTER, on
    top of the frame of a request ([SipMessage]).  The theorem: a REGISTER built
    from texts without line breaks is framed exactly, and each of its headers is
    read back as the fields say. *)
From Stdlib Require Import Ascii String ZArith Lia.
From stdpp Require Import prelude.
From S2P Require Import Prelude Text Stun SipFrame SipMessage.

Record RegisterHeaderFields := mkFields {
  rf_authorization : option str;
  rf_contact : str;
  rf_accept_contacts : list str;
  rf_route : option str;
  rf_expires : Z;
  rf_supported : option str;
  rf_require_sec_agree : bool;
  rf_proxy_require_sec_agree : bool;
  rf_allow : option str;
  rf_preferred_service : option str;
  rf_preferred_identity : option str;
  rf_visited_network : option str;
  rf_access_network_info : option str;
  rf_cellular_network_info : option str;
  rf_security_client : option str;
  rf_security_verify : option str;
  rf_user_agent : str;
}.
Record RegisterRequest := mkRegister {
  rr_request_uri : str;
  rr_advertised_route : ImsRoute;
  rr_branch : str;
  rr_from_uri : str;
  rr_from_tag : str;
  rr_to_value : str;
  rr_call_id : str;
  rr_cseq : Z;
  rr_headers : RegisterHeaderFields;
}.
Definition push_full_header (headers : list SipHeader) (line : option str) : list SipHeader :=
  match line ≫= split_once (ch ":") with
  | Some (name, value) => headers ++ [mkHeader (trim name) (trim value)]
  | None => headers
  end.
Definition push_optional (headers : list SipHeader) (name : str) (value : option str) : list SipHeader :=
  match value with Some v => headers ++ [mkHeader name v] | None => headers end.
Definition push_non_empty (headers : list SipHeader) (name : str) (value : option str) : list SipHeader :=
  push_optional headers name (v ← value; if bool_decide (trim v = []) then None else Some v).
Definition register_headers (fields : RegisterHeaderFields) : list SipHeader :=
  let headers := push_full_header [] (rf_authorization fields) in
  let headers := headers ++ [mkHeader (lit "Contact") (rf_contact fields)] in
  let headers := headers ++ (mkHeader (lit "Accept-Contact") <$> rf_accept_contacts fields) in
  let headers := push_optional headers (lit "Route") (rf_route fields) in
  let headers := headers ++ [mkHeader (lit "Expires") (fmt_dec (rf_expires fields))] in
  let headers := push_non_empty headers (lit "Supported") (rf_supported fields) in
  let headers := if rf_require_sec_agree fields
    then headers ++ [mkHeader (lit "Require") (lit "sec-agree")] else headers in
  let headers := if rf_proxy_require_sec_agree fields
    then headers ++ [mkHeader (lit "Proxy-Require") (lit "sec-agree")] else headers in
  let headers := push_non_empty headers (lit "Allow") (rf_allow fields) in
  let headers := push_optional headers (lit "P-Preferred-Service") (rf_preferred_service fields) in
  let headers := push_optional headers (lit "P-Preferred-Identity") (rf_preferred_identity fields) in
  let headers := push_optional headers (lit "P-Visited-Network-ID") (rf_visited_network fields) in
  let headers := push_optional headers (lit "P-Access-Network-Info") (rf_access_network_info fields) in
  let headers := push_optional headers (lit "Cellular-Network-Info") (rf_cellular_network_info fields) in
  let headers := push_optional headers (lit "Security-Client") (rf_security_client fields) in
  let headers := push_optional headers (lit "Security-Verify") (rf_security_verify fields) in
  headers ++ [mkHeader (lit "User-Agent") (rf_user_agent fields)].
Definition register_request (request : RegisterRequest) : SipRequest :=
  mkRequest (lit "REGISTER") (rr_request_uri request) (rr_advertised_route request) (rr_branch request)
    (rr_from_uri request) (rr_from_tag request) (rr_to_value request) (rr_call_id request) (rr_cseq request)
    (register_headers (rr_headers request)) [].
Definition build_register (request : RegisterRequest) : list Z := build_request (register_request request).

(** * Lemmas *)

(** ** What is pushed *)
Definition one_header (name : str) (value : option str) : list SipHeader :=
  match value with Some v => [mkHeader name v] | None => [] end.
Definition non_empty (value : option str) : option str := v ← value; if bool_decide (trim v = []) then None else Some v.
Definition flag_header (name : str) (flag : bool) : list SipHeader :=
  if flag then [mkHeader name (lit "sec-agree")] else [].
Definition credentials_header (line : option str) : list SipHeader :=
  match line ≫= split_once (ch ":") with Some (name, value) => [mkHeader (trim name) (trim value)] | None => [] end.
Lemma push_optional_app headers name value : push_optional headers name value = headers ++ one_header name value.
Proof. destruct value; simpl; [done|by rewrite app_nil_r]. Qed.
Lemma push_non_empty_app headers name value : push_non_empty headers name value = headers ++ one_header name (non_empty value).
Proof. apply push_optional_app. Qed.
Lemma flag_app headers name (flag : bool) : (if flag then headers ++ [mkHeader name (lit "sec-agree")] else headers) =
  headers ++ flag_header name flag.
Proof. destruct flag; simpl; [done|by rewrite app_nil_r]. Qed.
Lemma register_headers_app f : register_headers f =
  credentials_header (rf_authorization f) ++ [mkHeader (lit "Contact") (rf_contact f)]
  ++ (mkHeader (lit "Accept-Contact") <$> rf_accept_contacts f) ++ one_header (lit "Route") (rf_route f)
  ++ [mkHeader (lit "Expires") (fmt_dec (rf_expires f))] ++ one_header (lit "Supported") (non_empty (rf_supported f))
  ++ flag_header (lit "Require") (rf_require_sec_agree f) ++ flag_header (lit "Proxy-Require") (rf_proxy_require_sec_agree f)
  ++ one_header (lit "Allow") (non_empty (rf_allow f)) ++ one_header (lit "P-Preferred-Service") (rf_preferred_service f)
  ++ one_header (lit "P-Preferred-Identity") (rf_preferred_identity f)
  ++ one_header (lit "P-Visited-Network-ID") (rf_visited_network f)
  ++ one_header (lit "P-Access-Network-Info") (rf_access_network_info f)
  ++ one_header (lit "Cellular-Network-Info") (rf_cellular_network_info f)
  ++ one_header (lit "Security-Client") (rf_security_client f) ++ one_header (lit "Security-Verify") (rf_security_verify f)
  ++ [mkHeader (lit "User-Agent") (rf_user_agent f)].
Proof.
  unfold register_headers. rewrite !push_optional_app, !push_non_empty_app, !flag_app.
  assert (push_full_header [] (rf_authorization f) = credentials_header (rf_authorization f)) as ->.
  { unfold push_full_header, credentials_header. by destruct (_ ≫= _) as [[]|]. }
  rewrite <-!app_assoc. done.
Qed.

(** ** Requests of the legs *)
Definition opt_plain (o : option str) : Prop := match o with Some v => plain v | None => True end.
Record fields_ok (f : RegisterHeaderFields) : Prop := {
  fo_authorization : rf_authorization f = None ∨ ∃ name value, rf_authorization f = Some (name ++ ch ":" :: value) ∧
    (name = lit "Authorization" ∨ name = lit "Proxy-Authorization") ∧ plain value;
  fo_contact : plain (rf_contact f);
  fo_accept : Forall plain (rf_accept_contacts f);
  fo_expires : (0 ≤ rf_expires f ≤ u32_max)%Z;
  fo_texts : Forall opt_plain [rf_route f; rf_supported f; rf_allow f; rf_preferred_service f; rf_preferred_identity f;
    rf_visited_network f; rf_access_network_info f; rf_cellular_network_info f; rf_security_client f; rf_security_verify f];
  fo_agent : plain (rf_user_agent f);
}.
Record register_ok (r : RegisterRequest) : Prop := {
  rg_uri : plain (rr_request_uri r) ∧ no_space (rr_request_uri r) ∧ head_not (Z.eqb (ch ":")) (rr_request_uri r) ∧
    rr_request_uri r ≠ [];
  rg_addr : octets_ok (addr_ip (local_addr (rr_advertised_route r))) ∧ (0 ≤ addr_port (local_addr (rr_advertised_route r)))%Z;
  rg_branch : plain (rr_branch r);
  rg_from : plain (rr_from_uri r) ∧ plain (rr_from_tag r);
  rg_to : plain (rr_to_value r);
  rg_call_id : plain (rr_call_id r);
  rg_cseq : (0 ≤ rr_cseq r ≤ u32_max)%Z;
  rg_fields : fields_ok (rr_headers r);
}.
Lemma literal_header name v :
  bool_decide (name ≠ [] ∧ plain name ∧ Forall (λ c, is_whitespace c = false ∧ c ≠ ch ":") name) = true →
  eq_ignore_ascii_case name (lit "content-length") = false → plain v → header_ok (mkHeader name v).
Proof. intros (? & ? & ?)%bool_decide_eq_true ? ?. by constructor. Qed.
Ltac literal := apply literal_header; [vm_compute; reflexivity|vm_compute; reflexivity|].
Lemma one_header_ok name value :
  bool_decide (name ≠ [] ∧ plain name ∧ Forall (λ c, is_whitespace c = false ∧ c ≠ ch ":") name) = true →
  eq_ignore_ascii_case name (lit "content-length") = false → opt_plain value → Forall header_ok (one_header name value).
Proof. intros H1 H2 H3. destruct value; [|done]. constructor; [by apply literal_header|done]. Qed.
Lemma non_empty_plain o : opt_plain o → opt_plain (non_empty o).
Proof. destruct o as [v|]; [|done]. cbn. by case_bool_decide. Qed.
Lemma flag_header_ok name flag :
  bool_decide (name ≠ [] ∧ plain name ∧ Forall (λ c, is_whitespace c = false ∧ c ≠ ch ":") name) = true →
  eq_ignore_ascii_case name (lit "content-length") = false → Forall header_ok (flag_header name flag).
Proof. intros H1 H2. destruct flag; [|done]. constructor; [|done]. apply literal_header; [done|done|]. by apply plain_lit_ok. Qed.
Lemma credentials_split name value : (name = lit "Authorization" ∨ name = lit "Proxy-Authorization") →
  credentials_header (Some (name ++ ch ":" :: value)) = [mkHeader name (trim value)].
Proof.
  intros Hname. unfold credentials_header. cbn [mbind option_bind].
  rewrite split_once_app by (destruct Hname as [-> | ->]; apply (bool_decide_unpack _); vm_compute; exact I).
  by destruct Hname as [-> | ->].
Qed.
Lemma register_headers_ok f : fields_ok f → Forall header_ok (register_headers f).
Proof.
  intros [Hauth Hc Ha He Ht Hu]. rewrite register_headers_app, !Forall_app.
  do 10 (apply Forall_cons in Ht as [? Ht]).
  split; [|split_and!].
  - destruct Hauth as [-> | (name & value & -> & Hname & Hv)]; [done|]. rewrite credentials_split by done.
    constructor; [|done]. apply (Forall_trim _) in Hv. destruct Hname as [-> | ->]; by literal.
  - constructor; [by literal|done].
  - apply Forall_fmap. eapply Forall_impl; [exact Ha|]. intros v Hv. by literal.
  - by apply one_header_ok.
  - constructor; [literal; apply plain_dec_text; lia|done].
  - apply one_header_ok; [done|done|by apply non_empty_plain].
  - by apply flag_header_ok.
  - by apply flag_header_ok.
  - apply one_header_ok; [done|done|by apply non_empty_plain].
  - by apply one_header_ok.
  - by apply one_header_ok.
  - by apply one_header_ok.
  - by apply one_header_ok.
  - by apply one_header_ok.
  - by apply one_header_ok.
  - by apply one_header_ok.
  - constructor; [by literal|done].
Qed.
Lemma register_request_ok r : register_ok r → request_ok (register_request r).
Proof.
  intros []. constructor; cbn; try done; [|by apply register_headers_ok].
  split; [done|]. split; [by apply plain_lit_ok|]. split; [apply (bool_decide_unpack _); vm_compute; exact I|].
  apply (bool_decide_unpack _); vm_compute; exact I.
Qed.

(** ** What is read under a name *)
Definition values_named (n : str) (fs : list SipHeader) : list str :=
  (λ h, trim (h_value h)) <$> filter (λ h, eq_ignore_ascii_case (h_name h) n = true) fs.
Lemma values_app n fs gs : values_named n (fs ++ gs) = values_named n fs ++ values_named n gs.
Proof. unfold values_named. by rewrite filter_app, fmap_app. Qed.
Lemma values_cons n name v fs : values_named n (mkHeader name v :: fs) =
  (if eq_ignore_ascii_case name n then [trim v] else []) ++ values_named n fs.
Proof.
  unfold values_named. rewrite filter_cons. cbn [h_name].
  by destruct (eq_ignore_ascii_case name n); [rewrite decide_True by done|rewrite decide_False by done].
Qed.
Lemma values_nil n : values_named n [] = [].
Proof. done. Qed.
Lemma values_optional n name o : values_named n (one_header name o) =
  if eq_ignore_ascii_case name n then option_list (trim <$> o) else [].
Proof. destruct o; cbn [one_header]; [rewrite values_cons, values_nil, app_nil_r; done|]. by destruct (eq_ignore_ascii_case _ _). Qed.
Lemma values_flag n name (flag : bool) : values_named n (flag_header name flag) =
  if eq_ignore_ascii_case name n then (if flag then [lit "sec-agree"] else []) else [].
Proof. destruct flag; cbn [flag_header]; [rewrite values_cons, values_nil, app_nil_r; done|]. by destruct (eq_ignore_ascii_case _ _). Qed.
Lemma values_each n name vs : values_named n (mkHeader name <$> vs) =
  if eq_ignore_ascii_case name n then trim <$> vs else [].
Proof.
  induction vs as [|v vs IH]; [by destruct (eq_ignore_ascii_case _ _)|].
  rewrite fmap_cons, values_cons, IH. by destruct (eq_ignore_ascii_case _ _).
Qed.
(** The value that a line of credentials gives under a name. *)
Definition credentials_under (n : str) (line : option str) : list str :=
  match line ≫= split_once (ch ":") with
  | Some (name, value) => if eq_ignore_ascii_case (trim name) n then [trim value] else []
  | None => []
  end.
Lemma values_credentials n line : values_named n (credentials_header line) = credentials_under n line.
Proof.
  unfold credentials_header, credentials_under. destruct (_ ≫= _) as [[name value]|]; [|done].
  by rewrite values_cons, values_nil, app_nil_r, trim_idemp.
Qed.
Lemma credentials_elsewhere n f : fields_ok f → eq_ignore_ascii_case (lit "Authorization") n = false → eq_ignore_ascii_case (lit "Proxy-Authorization") n = false →
  credentials_under n (rf_authorization f) = [].
Proof.
  intros [[-> | (name & value & -> & Hname & _)] _ _ _ _ _] H1 H2; [done|].
  rewrite <-values_credentials, credentials_split by done. rewrite values_cons. by destruct Hname as [-> | ->]; rewrite ?H1, ?H2.
Qed.
Ltac names_decided :=
  repeat match goal with
  | |- context [eq_ignore_ascii_case (lit ?a) (lit ?b)] =>
    let v := eval vm_compute in (eq_ignore_ascii_case (lit a) (lit b)) in
    change (eq_ignore_ascii_case (lit a) (lit b)) with v
  end; cbv iota; cbn [app].
Lemma register_values r n : register_ok r → ch " " ∉ n →
  header_values (build_register r) n = values_named n (request_fields (register_request r)).
Proof. intros Hr Hn. by apply request_values; [apply register_request_ok|]. Qed.
(** Decides every name of the message against the name that is read. *)
Ltac field_read :=
  rewrite register_values; [|done|apply (bool_decide_unpack _); vm_compute; exact I];
  unfold request_fields; cbn [register_request rq_headers rq_body rq_call_id];
  rewrite register_headers_app, !values_app, !values_cons, !values_nil, !values_optional, !values_flag,
    values_each, values_credentials;
  names_decided; rewrite ?app_nil_r.

(** ** Values without spaces around them *)
Lemma trim_between a s z : head_not is_whitespace a → head_not is_whitespace (reverse z) → a ≠ [] → z ≠ [] →
  trim (a ++ s ++ z) = a ++ s ++ z.
Proof.
  intros Ha Hz Hane Hzne. apply trim_id; [by destruct a|]. rewrite app_assoc. by apply head_not_reverse_app.
Qed.
Lemma trim_cseq n : (0 ≤ n)%Z → trim (fmt_dec n ++ lit " " ++ lit "REGISTER") = fmt_dec n ++ lit " REGISTER".
Proof.
  intros Hn. destruct (fmt_dec_ends is_whitespace n Hn digit_not_space) as [Hhead _].
  apply (trim_between (fmt_dec n) [] (lit " REGISTER")); [done|done|by apply fmt_dec_digits|done].
Qed.
Definition via_transport (t : SipTransport) : str :=
  match t with Udp => lit "UDP" | Tcp => lit "TCP" | Tls => lit "TLS" end.
Definition via_value (r : RegisterRequest) : str :=
  let route := rr_advertised_route r in
  (lit "SIP/2.0/" ++ via_transport (transport route) ++ lit " ")
  ++ (sip_host (addr_ip (local_addr route)) ++ lit ":" ++ fmt_dec (addr_port (local_addr route)) ++ lit ";branch=" ++ rr_branch r)
  ++ lit ";rport".
Lemma via_written r :
  as_via (transport (rr_advertised_route r)) ++ lit " " ++ sip_host (addr_ip (local_addr (rr_advertised_route r)))
    ++ lit ":" ++ fmt_dec (addr_port (local_addr (rr_advertised_route r))) ++ lit ";branch=" ++ rr_branch r ++ lit ";rport" =
  via_value r.
Proof. unfold via_value. rewrite <-!app_assoc. by destruct (transport (rr_advertised_route r)). Qed.
Lemma trim_via r : trim (via_value r) = via_value r.
Proof. apply trim_between; by destruct (transport (rr_advertised_route r)). Qed.

(** ** What a REGISTER says *)
(** The names of the message with the values that a reader finds under each. *)
Definition register_says (r : RegisterRequest) : list (str * list str) :=
  let f := rr_headers r in
  let once (value : str) := [trim value] in
  let given (value : option str) := option_list (trim <$> value) in
  let asked (flag : bool) := if flag then [lit "sec-agree"] else [] in
  [ (lit "Via", [via_value r]);
    (lit "Max-Forwards", [lit "70"]);
    (lit "From", once (lit "<" ++ rr_from_uri r ++ lit ">;tag=" ++ rr_from_tag r));
    (lit "To", once (rr_to_value r));
    (lit "Call-ID", once (rr_call_id r));
    (lit "CSeq", [fmt_dec (rr_cseq r) ++ lit " REGISTER"]);
    (lit "Authorization", credentials_under (lit "Authorization") (rf_authorization f));
    (lit "Proxy-Authorization", credentials_under (lit "Proxy-Authorization") (rf_authorization f));
    (lit "Contact", once (rf_contact f));
    (lit "Accept-Contact", trim <$> rf_accept_contacts f);
    (lit "Route", given (rf_route f));
    (lit "Expires", [fmt_dec (rf_expires f)]);
    (lit "Supported", given (non_empty (rf_supported f)));
    (lit "Require", asked (rf_require_sec_agree f));
    (lit "Proxy-Require", asked (rf_proxy_require_sec_agree f));
    (lit "Allow", given (non_empty (rf_allow f)));
    (lit "P-Preferred-Service", given (rf_preferred_service f));
    (lit "P-Preferred-Identity", given (rf_preferred_identity f));
    (lit "P-Visited-Network-ID", given (rf_visited_network f));
    (lit "P-Access-Network-Info", given (rf_access_network_info f));
    (lit "Cellular-Network-Info", given (rf_cellular_network_info f));
    (lit "Security-Client", given (rf_security_client f));
    (lit "Security-Verify", given (rf_security_verify f));
    (lit "User-Agent", once (rf_user_agent f));
    (lit "Content-Length", [lit "0"]) ].
Lemma register_says_read r : register_ok r →
  Forall (λ '(name, values), header_values (build_register r) name = values) (register_says r).
Proof.
  intros Hr. pose proof (rg_fields _ Hr) as Hf. pose proof (rg_cseq _ Hr). pose proof (fo_expires _ Hf).
  unfold register_says. cbv zeta.
  repeat (apply Forall_cons; split); [..|by apply Forall_nil];
    (field_read; rewrite ?credentials_elsewhere by done; cbn [app];
     cbn [register_request rq_route rq_branch rq_cseq rq_method]; rewrite ?via_written, ?trim_via, ?trim_dec, ?trim_cseq by lia; done).
Qed.
(** Nothing is said under another name. *)
Lemma register_silent r n : register_ok r → ch " " ∉ n →
  Forall (λ '(name, _), eq_ignore_ascii_case name n = false) (register_says r) → header_values (build_register r) n = [].
Proof.
  intros Hr Hn Hother. rewrite register_values by done. unfold register_says in Hother. cbv zeta in Hother.
  repeat (apply Forall_cons in Hother as [? Hother]).
  unfold request_fields; cbn [register_request rq_headers rq_body rq_call_id].
  rewrite register_headers_app, !values_app, !values_cons, !values_nil, !values_optional, !values_flag,
    values_each, values_credentials, credentials_elsewhere by (done || apply rg_fields; done).
  by repeat match goal with H : eq_ignore_ascii_case _ n = false |- _ => rewrite H; clear H end.
Qed.

Lemma register_opens r : register_ok r →
  ∃ headers, build_register r = lit "REGISTER " ++ rr_request_uri r ++ lit " SIP/2.0" ++ crlf ++ headers.
Proof.
  intros Hr. unfold build_register. rewrite build_request_message by by apply register_request_ok.
  unfold message. rewrite request_lines_fields. unfold start_line. cbn [register_request rq_method rq_request_uri].
  rewrite render_lines_cons, <-!app_assoc. eexists. change (lit "REGISTER ") with (lit "REGISTER" ++ lit " ").
  rewrite <-!app_assoc. reflexivity.
Qed.

(** * Property *)

(** C34: a REGISTER built from texts without line breaks opens with its request line, is
    framed exactly, whatever follows it in the stream, and carries no body.  Under each
    of its twenty-five names a reader finds what the fields of the message say, in order,
    and nothing else: the Via of the advertised address and transport, the identities
    and the numbers of the transaction, the contact, every feature tag, the lifetime in
    decimal, the credentials under the name that their line gives, the security agreement
    under both names only when it is asked for, and each of the optional headers (route,
    service, identities, networks, mechanisms) exactly when its field is given, the
    lists of options and of methods also only when they are not blank.  Under any
    other name it finds nothing. *)
Theorem register_read_back r rest :
  register_ok r → (Z.of_nat (length (build_register r)) < 2 ^ 64)%Z →
  let m := build_register r in
  (∃ headers, m = lit "REGISTER " ++ rr_request_uri r ++ lit " SIP/2.0" ++ crlf ++ headers) ∧
  complete_frame_len (m ++ rest) = Some (length m) ∧ body m = [] ∧
  Forall (λ '(name, values), header_values m name = values) (register_says r) ∧
  ∀ n, ch " " ∉ n → Forall (λ '(name, _), eq_ignore_ascii_case name n = false) (register_says r) → header_values m n = [].
Proof.
  intros Hr Hlen. cbv zeta. pose proof (register_request_ok _ Hr) as Hq.
  destruct (built_request_read_back (register_request r) (lit "Via") rest Hq Hlen) as (Hframe & Hbody & _);
    [apply (bool_decide_unpack _); vm_compute; exact I|].
  split; [by apply register_opens|]. split; [exact Hframe|]. split; [exact Hbody|].
  split; [by apply register_says_read|]. intros n. by apply register_silent.
Qed.

Definition sample_register : RegisterRequest :=
  mkRegister (lit "sip:ims.example") (rq_route sample_request) (lit "z9hG4bKb") (lit "sip:user@ims.example") (lit "tag")
    (lit "<sip:user@ims.example>") (lit "call@host") 2
    (mkFields (Some (lit "Authorization: Digest username=user, realm=ims")) (lit "<sip:user@10.0.0.1>;expires=600000")
       [lit "*;+g.3gpp.smsip"; lit "*;audio"] None 600000 (Some (lit "path,sec-agree")) true true (Some (lit " ")) None None
       (Some (lit "ims.example")) None None (Some (lit "ipsec-3gpp; alg=hmac-sha-1-96")) None (lit "SimAdmin")).
Lemma sample_register_ok : register_ok sample_register.
Proof.
  constructor; try (split_and!; apply (bool_decide_unpack _); vm_compute; exact I);
    try (apply (bool_decide_unpack _); vm_compute; exact I).
  - split_and!; [by apply (bool_decide_unpack _)|by apply (bool_decide_unpack _)|done|done].
  - constructor; try (apply (bool_decide_unpack _); vm_compute; exact I).
    + right. exists (lit "Authorization"), (lit " Digest username=user, realm=ims").
      split; [done|]. split; [by left|]. by apply plain_lit_ok.
    + repeat (apply Forall_cons; split); [apply (bool_decide_unpack _); vm_compute; exact I..|done].
Qed.
Lemma register_read_back_witness :
  register_ok sample_register ∧
  complete_frame_len (build_register sample_register ++ lit "SIP/2.0") = Some (length (build_register sample_register)) ∧
  header_values (build_register sample_register) (lit "Via") = [lit "SIP/2.0/UDP [fd00::2]:5060;branch=z9hG4bKb;rport"] ∧
  header_values (build_register sample_register) (lit "Authorization") = [lit "Digest username=user, realm=ims"] ∧
  header_values (build_register sample_register) (lit "Allow") = [] ∧
  header_values (build_register sample_register) (lit "Event") = [].
Proof.
  split; [exact sample_register_ok|].
  destruct (register_read_back sample_register (lit "SIP/2.0") sample_register_ok)
    as (_ & Hlen & _ & Hsays & Hsilent); [vm_compute; reflexivity|].
  split; [exact Hlen|]. rewrite Forall_forall in Hsays.
  split; [|split; [|split]].
  - apply (Hsays (lit "Via", _)). apply (bool_decide_unpack _). vm_compute. exact I.
  - apply (Hsays (lit "Authorization", _)). apply (bool_decide_unpack _). vm_compute. exact I.
  - apply (Hsays (lit "Allow", _)). apply (bool_decide_unpack _). vm_compute. exact I.
  - apply Hsilent; [apply (bool_decide_unpack _); vm_compute; exact I|].
    repeat (apply Forall_cons; split); [vm_compute; reflexivity..|by apply Forall_nil].
Defined.
