(* ===== verification/VoiceSdp.v ===== *)
(** * Voice: codecs and the session descriptions of calls

    The codec table, the SDP model with its builder and parser, and the offer
    and answer logic of [connectivity/core/voice.rs].  A body is the list of its
    bytes; the clock and the call counter that number a description are
    arguments.  The theorems: a well-formed description is read back as it was
    written; an offer numbers its payloads soundly and leaves pinned numbers to
    the policies that pin them; an answer carries exactly the common codecs. *)
From Stdlib Require Import Ascii String ZArith Lia.
From stdpp Require Import prelude gmap.
From S2P Require Import Prelude Text SipFrame.

(** ** Enumerations *)
Inductive VoiceLegKind := LegVowifi | LegCarrier | LegNone.
Inductive MediaTransportKind := RtpAvp | RtpSavp.
Inductive AudioCodec := Evs | Amr | AmrWb | Pcmu | Pcma | Opus.
Inductive MediaDirection := SendRecv | SendOnly | RecvOnly | Inactive.
Inductive SdpAddrType := Ip4 | Ip6.
#[export] Instance VoiceLegKind_eq_dec : EqDecision VoiceLegKind.
Proof. solve_decision. Defined.
#[export] Instance MediaTransportKind_eq_dec : EqDecision MediaTransportKind.
Proof. solve_decision. Defined.
#[export] Instance AudioCodec_eq_dec : EqDecision AudioCodec.
Proof. solve_decision. Defined.
#[export] Instance MediaDirection_eq_dec : EqDecision MediaDirection.
Proof. solve_decision. Defined.
#[export] Instance SdpAddrType_eq_dec : EqDecision SdpAddrType.
Proof. solve_decision. Defined.

Definition leg_as_str (l : VoiceLegKind) : str :=
  match l with LegVowifi => lit "vowifi" | LegCarrier => lit "carrier" | LegNone => lit "none" end.
Definition transport_as_str (t : MediaTransportKind) : str :=
  match t with RtpAvp => lit "rtp_avp" | RtpSavp => lit "rtp_savp" end.
Definition sdp_proto (t : MediaTransportKind) : str :=
  match t with RtpAvp => lit "RTP/AVP" | RtpSavp => lit "RTP/SAVP" end.
Definition codec_as_str (c : AudioCodec) : str :=
  match c with
  | Evs => lit "evs" | Amr => lit "amr" | AmrWb => lit "amr_wb"
  | Pcmu => lit "pcmu" | Pcma => lit "pcma" | Opus => lit "opus"
  end.
Definition rtpmap_encoding (c : AudioCodec) : str :=
  match c with
  | Evs => lit "EVS" | Amr => lit "AMR" | AmrWb => lit "AMR-WB"
  | Pcmu => lit "PCMU" | Pcma => lit "PCMA" | Opus => lit "opus"
  end.
Definition clock_rate (c : AudioCodec) : Z :=
  match c with Amr | Pcmu | Pcma => 8000 | Evs | AmrWb => 16000 | Opus => 48000 end%Z.
Definition static_payload_type (c : AudioCodec) : option Z :=
  match c with Pcmu => Some 0%Z | Pcma => Some 8%Z | Evs | Amr | AmrWb | Opus => None end.
Definition is_amr_family (c : AudioCodec) : bool :=
  match c with Amr | AmrWb => true | _ => false end.
Definition codec_from_token (token : str) : option AudioCodec :=
  let t := to_ascii_lowercase <$> token in
  if str_eqb t (lit "evs") then Some Evs
  else if str_eqb t (lit "amr") then Some Amr
  else if str_eqb t (lit "amr-wb") || str_eqb t (lit "amr_wb") || str_eqb t (lit "amrwb") then Some AmrWb
  else if str_eqb t (lit "pcmu") then Some Pcmu
  else if str_eqb t (lit "pcma") then Some Pcma
  else if str_eqb t (lit "opus") then Some Opus
  else None.
Definition direction_as_str (d : MediaDirection) : str :=
  match d with
  | SendRecv => lit "sendrecv" | SendOnly => lit "sendonly"
  | RecvOnly => lit "recvonly" | Inactive => lit "inactive"
  end.
Definition direction_from_token (token : str) : option MediaDirection :=
  if str_eqb token (lit "sendrecv") then Some SendRecv
  else if str_eqb token (lit "sendonly") then Some SendOnly
  else if str_eqb token (lit "recvonly") then Some RecvOnly
  else if str_eqb token (lit "inactive") then Some Inactive
  else None.
Definition for_peer (d : MediaDirection) : MediaDirection :=
  match d with SendRecv => SendRecv | SendOnly => RecvOnly | RecvOnly => SendOnly | Inactive => Inactive end.
Definition allows_send (d : MediaDirection) : bool :=
  match d with SendRecv | SendOnly => true | _ => false end.
Definition allows_receive (d : MediaDirection) : bool :=
  match d with SendRecv | RecvOnly => true | _ => false end.
Definition network_type (a : SdpAddrType) : str := lit "IN".
Definition addr_type_str (a : SdpAddrType) : str :=
  match a with Ip4 => lit "IP4" | Ip6 => lit "IP6" end.

(** ** Parameters, errors and descriptions *)
Record AudioCodecPolicy := mkPolicy {
  pol_codec : AudioCodec;
  pol_payload_type : option Z;
  pol_sample_rate : option Z;
  pol_fmtp : option str;
}.
Record VoiceParams := mkVoiceParams {
  preferred_codecs : list str;
  codec_policies : list AudioCodecPolicy;
  ptime_ms : Z;
  amr_octet_align : bool;
  vowifi_enabled : bool;
  carrier_fallback_enabled : bool;
  ims_transport : str;
  profile_id : str;
  plmn : str;
}.
Inductive VoiceRuntimeError :=
| InvalidTransition (from event : str)
| SipRejected (code : Z)
| NoCommonCodec
| InconsistentState (reason : str).
Inductive VoiceEncodingError :=
| EmptyCallee | InvalidAddress | EmptySdp | SdpMalformed | NoAudioMedia | UnsupportedCodec.
#[export] Instance VoiceRuntimeError_eq_dec : EqDecision VoiceRuntimeError.
Proof. solve_decision. Defined.
#[export] Instance VoiceEncodingError_eq_dec : EqDecision VoiceEncodingError.
Proof. solve_decision. Defined.
Definition voice_runtime_error_text (e : VoiceRuntimeError) : str :=
  match e with
  | InvalidTransition from event => lit "invalid voice transition from=" ++ from ++ lit " event=" ++ event
  | SipRejected code => lit "SIP INVITE rejected code=" ++ fmt_dec code
  | NoCommonCodec => lit "no common audio codec in SDP answer"
  | InconsistentState reason => lit "inconsistent voice state: " ++ reason
  end.
Definition voice_encoding_error_text (e : VoiceEncodingError) : str :=
  match e with
  | EmptyCallee => lit "voice_callee_empty"
  | InvalidAddress => lit "voice_address_invalid"
  | EmptySdp => lit "voice_sdp_empty"
  | SdpMalformed => lit "voice_sdp_malformed"
  | NoAudioMedia => lit "voice_sdp_no_audio_media"
  | UnsupportedCodec => lit "voice_sdp_unsupported_codec"
  end.

Record SdpCodec := mkSdpCodec {
  sc_codec : AudioCodec;
  sc_payload_type : Z;
  sc_clock_rate : Z;
  sc_channels : option Z;
  sc_fmtp : option str;
}.
#[export] Instance SdpCodec_eq_dec : EqDecision SdpCodec.
Proof. solve_decision. Defined.
Record SdpAudioDescription := mkAudio {
  session_id : Z;
  session_version : Z;
  origin_username : str;
  connection_addr : str;
  addr_type : SdpAddrType;
  media_port : Z;
  sd_transport : MediaTransportKind;
  codecs : list SdpCodec;
  direction : MediaDirection;
  ptime : option Z;
}.
#[export] Instance SdpAudioDescription_eq_dec : EqDecision SdpAudioDescription.
Proof. solve_decision. Defined.

(** ** Writing *)
Definition rtpmap_line (c : SdpCodec) : str :=
  let channels := match sc_channels c with Some n => lit "/" ++ fmt_dec n | None => [] end in
  lit "a=rtpmap:" ++ fmt_dec (sc_payload_type c) ++ lit " " ++ rtpmap_encoding (sc_codec c)
    ++ lit "/" ++ fmt_dec (sc_clock_rate c) ++ channels ++ crlf.
Definition fmtp_line (c : SdpCodec) : str :=
  match sc_fmtp c with
  | Some params =>
    if bool_decide (params = []) then []
    else lit "a=fmtp:" ++ fmt_dec (sc_payload_type c) ++ lit " " ++ params ++ crlf
  | None => []
  end.
Definition to_sdp (d : SdpAudioDescription) : str :=
  lit "v=0" ++ crlf
  ++ (lit "o=" ++ origin_username d ++ lit " " ++ fmt_dec (session_id d) ++ lit " "
      ++ fmt_dec (session_version d) ++ lit " " ++ network_type (addr_type d) ++ lit " "
      ++ addr_type_str (addr_type d) ++ lit " " ++ connection_addr d ++ crlf)
  ++ lit "s=SimAdmin VoWiFi Call" ++ crlf
  ++ (lit "c=" ++ network_type (addr_type d) ++ lit " " ++ addr_type_str (addr_type d) ++ lit " "
      ++ connection_addr d ++ crlf)
  ++ lit "t=0 0" ++ crlf
  ++ (lit "m=audio " ++ fmt_dec (media_port d) ++ lit " " ++ sdp_proto (sd_transport d) ++ lit " "
      ++ join (lit " ") ((λ c, fmt_dec (sc_payload_type c)) <$> codecs d) ++ crlf)
  ++ (codecs d ≫= λ c, rtpmap_line c ++ fmtp_line c)
  ++ match ptime d with Some t => lit "a=ptime:" ++ fmt_dec t ++ crlf | None => [] end
  ++ (lit "a=" ++ direction_as_str (direction d) ++ crlf).

(** ** Matching *)
Definition same_encoding (other candidate : SdpCodec) : bool :=
  bool_decide (sc_codec candidate = sc_codec other)
  && (sc_clock_rate candidate =? sc_clock_rate other)%Z
  && (default 1 (sc_channels candidate) =? default 1 (sc_channels other))%Z.
Definition find_matching_codec (d : SdpAudioDescription) (other : SdpCodec) : option SdpCodec :=
  match List.find (λ c, bool_decide (sc_fmtp c = sc_fmtp other))
          (filter (λ c, same_encoding other c) (codecs d)) with
  | Some c => Some c
  | None => List.find (same_encoding other) (codecs d)
  end.
Definition common_codecs (d remote : SdpAudioDescription) : list AudioCodec :=
  sc_codec <$> filter (λ local, is_Some (find_matching_codec remote local)) (codecs d).

(** ** Reading

    The variables of the loop over the lines of a body are the fields of
    [AudioScan]; each kind of line is a step on them. *)
Definition Connection : Type := SdpAddrType * str.
Record AudioScan := mkScan {
  as_username : str;
  as_session_id : Z;
  as_session_version : Z;
  as_origin : option Connection;
  as_session : option Connection;
  as_audio : option Connection;
  as_port : Z;
  as_transport : MediaTransportKind;
  as_payloads : list Z;
  as_direction : MediaDirection;
  as_ptime : option Z;
  as_rtpmaps : list (Z * (AudioCodec * Z * option Z));
  as_fmtps : list (Z * str);
  as_in_audio : bool;
  as_saw_audio : bool;
  as_saw_any : bool;
}.
Definition audio_scan_start : AudioScan :=
  mkScan (lit "-") 0 0 None None None 0 RtpAvp [] SendRecv None [] [] false false false.
Definition addr_type_of (token : str) : SdpAddrType :=
  if eq_ignore_ascii_case token (lit "IP6") then Ip6 else Ip4.

Definition audio_origin (value : str) (st : AudioScan) : AudioScan :=
  match split_whitespace value with
  | p0 :: p1 :: p2 :: _ :: p4 :: p5 :: _ =>
    mkScan p0 (default 0%Z (parse_unsigned u64_max p1)) (default 0%Z (parse_unsigned u64_max p2))
      (Some (addr_type_of p4, p5)) (as_session st) (as_audio st) (as_port st) (as_transport st)
      (as_payloads st) (as_direction st) (as_ptime st) (as_rtpmaps st) (as_fmtps st)
      (as_in_audio st) (as_saw_audio st) (as_saw_any st)
  | _ => st
  end.
(** The [c=] line, shared by the audio and the video parser: [value] is read once. *)
Definition connection_of (value : str) : option Connection :=
  match split_whitespace value with
  | _ :: p1 :: p2 :: _ => Some (addr_type_of p1, p2)
  | _ => None
  end.
Definition audio_connection (value : str) (st : AudioScan) : AudioScan :=
  match connection_of value with
  | Some c =>
    let session := if negb (as_saw_any st) then Some c else as_session st in
    let audio := if as_saw_any st && as_in_audio st then Some c else as_audio st in
    mkScan (as_username st) (as_session_id st) (as_session_version st) (as_origin st) session audio
      (as_port st) (as_transport st) (as_payloads st) (as_direction st) (as_ptime st)
      (as_rtpmaps st) (as_fmtps st) (as_in_audio st) (as_saw_audio st) (as_saw_any st)
  | None => st
  end.
(** The payload types of an [m=] line, static codecs seeded on the way. *)
Definition payload_tokens (tokens : list str) : list Z := omap (parse_unsigned u8_max) tokens.
Definition static_seed (pt : Z) : list (Z * (AudioCodec * Z * option Z)) :=
  if (pt =? 0)%Z then [(0, (Pcmu, 8000, None))]%Z
  else if (pt =? 8)%Z then [(8, (Pcma, 8000, None))]%Z
  else [].
Definition audio_media (value : str) (st : AudioScan) : AudioScan :=
  let parts := split_whitespace value in
  if bool_decide (head parts = Some (lit "audio")) then
    let port := match parts !! 1 with Some p => default 0%Z (parse_unsigned u16_max p) | None => as_port st end in
    let transport := match parts !! 2 with
      | Some p => if contains_str (to_ascii_uppercase <$> p) (lit "SAVP") then RtpSavp else RtpAvp
      | None => as_transport st
      end in
    let pts := payload_tokens (drop 3 parts) in
    mkScan (as_username st) (as_session_id st) (as_session_version st) (as_origin st) (as_session st)
      (as_audio st) port transport (as_payloads st ++ pts) (as_direction st) (as_ptime st)
      (as_rtpmaps st ++ (pts ≫= static_seed)) (as_fmtps st) true true true
  else
    mkScan (as_username st) (as_session_id st) (as_session_version st) (as_origin st) (as_session st)
      (as_audio st) (as_port st) (as_transport st) (as_payloads st) (as_direction st) (as_ptime st)
      (as_rtpmaps st) (as_fmtps st) false (as_saw_audio st) true.

(** [<pt> <encoding>/<clock>[/<channels>]] *)
Definition rtpmap_entry (value : str) : option (Z * (AudioCodec * Z * option Z)) :=
  match split_whitespace value with
  | pt_str :: enc :: _ =>
    pt ← parse_unsigned u8_max pt_str;
    let encoding := split (ch "/") enc in
    let clock := (encoding !! 1) ≫= parse_unsigned u32_max in
    let channels := (encoding !! 2) ≫= parse_unsigned u8_max in
    codec ← codec_from_token (default [] (encoding !! 0));
    clock ← clock;
    if (clock =? clock_rate codec)%Z && match channels with Some n => (0 <? n)%Z | None => true end
    then Some (pt, (codec, clock, channels)) else None
  | _ => None
  end.
(** [s.splitn(2, char::is_whitespace)], both pieces present. *)
Definition splitn_whitespace (s : str) : option (str * str) :=
  i ← find_char is_whitespace s; Some (take i s, drop (S i) s).
Definition fmtp_entry (value : str) : option (Z * str) :=
  '(pt_str, params) ← splitn_whitespace value;
  pt ← parse_unsigned u8_max pt_str;
  Some (pt, trim params).
Definition set_rtpmaps (l : list (Z * (AudioCodec * Z * option Z))) (st : AudioScan) : AudioScan :=
  mkScan (as_username st) (as_session_id st) (as_session_version st) (as_origin st) (as_session st)
    (as_audio st) (as_port st) (as_transport st) (as_payloads st) (as_direction st) (as_ptime st)
    l (as_fmtps st) (as_in_audio st) (as_saw_audio st) (as_saw_any st).
Definition set_fmtps (l : list (Z * str)) (st : AudioScan) : AudioScan :=
  mkScan (as_username st) (as_session_id st) (as_session_version st) (as_origin st) (as_session st)
    (as_audio st) (as_port st) (as_transport st) (as_payloads st) (as_direction st) (as_ptime st)
    (as_rtpmaps st) l (as_in_audio st) (as_saw_audio st) (as_saw_any st).
Definition set_timing (d : MediaDirection) (t : option Z) (st : AudioScan) : AudioScan :=
  mkScan (as_username st) (as_session_id st) (as_session_version st) (as_origin st) (as_session st)
    (as_audio st) (as_port st) (as_transport st) (as_payloads st) d t
    (as_rtpmaps st) (as_fmtps st) (as_in_audio st) (as_saw_audio st) (as_saw_any st).
Definition audio_attribute (value : str) (st : AudioScan) : AudioScan :=
  match strip_prefix (lit "rtpmap:") value with
  | Some rtpmap =>
    match rtpmap_entry rtpmap with
    | Some (pt, e) => set_rtpmaps (filter (λ x, x.1 ≠ pt) (as_rtpmaps st) ++ [(pt, e)]) st
    | None => st
    end
  | None =>
    match strip_prefix (lit "fmtp:") value with
    | Some fmtp =>
      match fmtp_entry fmtp with Some e => set_fmtps (as_fmtps st ++ [e]) st | None => st end
    | None =>
      match strip_prefix (lit "ptime:") value with
      | Some pt => set_timing (as_direction st) (parse_unsigned u16_max (trim pt)) st
      | None =>
        match direction_from_token (trim value) with
        | Some found => set_timing found (as_ptime st) st
        | None => st
        end
      end
    end
  end.
(** The kind and the value of a line of a body: [None] for a line that is skipped. *)
Definition sdp_field (raw_line : str) : option (str * str) :=
  let line := trim_end (trim_end_matches (Z.eqb 13) raw_line) in
  if bool_decide (line = []) then None else split_once (ch "=") line.
Definition audio_line (st : AudioScan) (raw_line : str) : AudioScan :=
  match sdp_field raw_line with
  | Some (kind, value) =>
    if str_eqb kind (lit "o") then audio_origin value st
    else if str_eqb kind (lit "c") then audio_connection value st
    else if str_eqb kind (lit "m") then audio_media value st
    else if str_eqb kind (lit "a") && as_in_audio st then audio_attribute value st
    else st
  | None => st
  end.
(** The codecs in the order of the payload types. *)
Definition assemble_codecs (st : AudioScan) : list SdpCodec :=
  omap (λ pt,
    '(_, (codec, clock, channels)) ← List.find (λ x, (x.1 =? pt)%Z) (as_rtpmaps st);
    Some (mkSdpCodec codec pt clock channels (snd <$> List.find (λ x, (x.1 =? pt)%Z) (as_fmtps st))))
    (as_payloads st).
(** What the loop leaves, assembled. *)
Definition audio_description (st : AudioScan) : res VoiceEncodingError SdpAudioDescription :=
  if negb (as_saw_audio st) then Err NoAudioMedia else
  let cs := assemble_codecs st in
  if bool_decide (cs = []) then Err UnsupportedCodec else
  let pick o k := match o with Some c => Some c | None => k end in
  '(a, addr) ← ok_or SdpMalformed (pick (as_audio st) (pick (as_session st) (as_origin st)));
  Ok (mkAudio (as_session_id st) (as_session_version st) (as_username st) addr a (as_port st)
        (as_transport st) cs (as_direction st) (as_ptime st)).
Definition parse_audio_sdp (body : list Z) : res VoiceEncodingError SdpAudioDescription :=
  if bool_decide (body = []) then Err EmptySdp else
  text ← ok_or SdpMalformed (from_utf8 body);
  audio_description (foldl audio_line audio_scan_start (split 10 text)).

(** ** Offers and answers *)
Definition policies_of (params : VoiceParams) : list AudioCodecPolicy :=
  if bool_decide (codec_policies params = [])
  then omap (λ token, (λ c, mkPolicy c None None None) <$> codec_from_token token) (preferred_codecs params)
  else codec_policies params.
Definition amr_default_fmtp (codec : AudioCodec) (octet_align : bool) : option str :=
  if negb (is_amr_family codec) then None
  else Some (lit "octet-align=" ++ fmt_dec (if octet_align then 1 else 0)
             ++ lit "; mode-change-capability=2; max-red=0").
Definition dynamic_payload_types : list Z := (λ i, Z.of_nat i) <$> seq 96 32.
(** The payload type of a policy: [None] where the code continues with the next policy. *)
Definition policy_payload_type (reserved used : gset Z) (policy : AudioCodecPolicy) : option Z :=
  match static_payload_type (pol_codec policy) with
  | Some pt =>
    match pol_payload_type policy with
    | Some configured => if (configured =? pt)%Z then Some pt else None
    | None => Some pt
    end
  | None =>
    match pol_payload_type policy with
    | Some pt => if in_range 96 127 pt then Some pt else None
    | None => List.find (λ c, bool_decide (c ∉ reserved) && bool_decide (c ∉ used)) dynamic_payload_types
    end
  end.
Definition offer_step (params : VoiceParams) (reserved : gset Z)
    (st : list SdpCodec * gset Z) (policy : AudioCodecPolicy) : list SdpCodec * gset Z :=
  let '(cs, used) := st in
  let codec := pol_codec policy in
  let clock := default (clock_rate codec) (pol_sample_rate policy) in
  if negb (clock =? clock_rate codec)%Z then st else
  match policy_payload_type reserved used policy with
  | None => st
  | Some pt =>
    if bool_decide (pt ∈ used) then st else
    let fmtp := match pol_fmtp policy with
      | Some value => if bool_decide (trim value = []) then amr_default_fmtp codec (amr_octet_align params)
                      else Some value
      | None => amr_default_fmtp codec (amr_octet_align params)
      end in
    (cs ++ [mkSdpCodec codec pt clock None fmtp], {[pt]} ∪ used)
  end.
Definition reserved_payload_types (policies : list AudioCodecPolicy) : gset Z :=
  list_to_set (omap pol_payload_type policies).
Definition build_codec_offer_with_params (params : VoiceParams) : list SdpCodec :=
  let policies := policies_of params in
  (foldl (offer_step params (reserved_payload_types policies)) ([], ∅) policies).1.
(** [base] is the clock in milliseconds, [sequence] the number of the call. *)
Definition build_mo_audio_offer_with_params (base sequence : Z) (params : VoiceParams) (addr : str)
    (a : SdpAddrType) (port : Z) : SdpAudioDescription :=
  let id := ((base + sequence) mod 2 ^ 64)%Z in
  mkAudio id id (lit "SimAdmin") addr a port RtpAvp (build_codec_offer_with_params params) SendRecv
    (Some (ptime_ms params)).
Definition build_sdp_answer_with_params (base sequence : Z) (params : VoiceParams)
    (offer : SdpAudioDescription) (addr : str) (a : SdpAddrType) (port : Z)
    : res VoiceRuntimeError SdpAudioDescription :=
  let local_offer := build_codec_offer_with_params params in
  let answer := filter (λ offered, existsb (same_encoding offered) local_offer) (codecs offer) in
  if bool_decide (answer = []) then Err NoCommonCodec else
  let id := ((base + sequence) mod 2 ^ 64)%Z in
  Ok (mkAudio id id (lit "SimAdmin") addr a port (sd_transport offer) answer (for_peer (direction offer))
        (match ptime offer with Some t => Some t | None => Some (ptime_ms params) end)).

(** * Reading back what was written *)

(** ** Lines *)
Definition ends_plain (l : str) : Prop := head_not is_whitespace (reverse l).
Lemma split_rendered ls : Forall (λ l, Forall (λ c, (c =? LF)%Z = false) l) ls →
  split 10 (render_lines ls) = ((λ l, l ++ [CR]) <$> ls) ++ [[]].
Proof.
  induction 1 as [|l ls Hl _ IH]; [done|]. rewrite render_lines_cons. cbn [fmap list_fmap app].
  replace (l ++ crlf ++ render_lines ls) with ((l ++ [CR]) ++ LF :: render_lines ls) by by rewrite <-app_assoc.
  rewrite (split_sep 10); [by rewrite IH|]. apply Forall_app. split; [exact Hl|by repeat constructor].
Qed.
Lemma sdp_field_written k v : k ≠ ch "=" → ends_plain (k :: ch "=" :: v) →
  sdp_field ((k :: ch "=" :: v) ++ [CR]) = Some ([k], v).
Proof.
  intros Hk Hend. unfold sdp_field. rewrite trim_end_snoc by done.
  rewrite trim_end_matches_id.
  2:{ unfold ends_plain in Hend. destruct (reverse _) as [|c t]; [done|].
      apply Z.eqb_neq. intros <-. by vm_compute in Hend. }
  unfold trim_end. rewrite trim_end_matches_id by done. rewrite bool_decide_eq_false_2 by done.
  apply (split_once_app (ch "=") [k] v). repeat constructor. apply Z.eqb_neq. congruence.
Qed.
Lemma ends_plain_app s t : t ≠ [] → ends_plain t → ends_plain (s ++ t).
Proof. apply head_not_reverse_app. Qed.
Lemma ends_plain_word w : word w → ends_plain w.
Proof. intros [_ Hw]. by apply head_not_reverse. Qed.
Lemma word_dec_text n : (0 ≤ n)%Z → word (fmt_dec n).
Proof.
  intros Hn. destruct (fmt_dec_digits n Hn) as [HF Hne]. split; [done|].
  eapply Forall_impl; [exact HF|]. intros c. apply digit_not_space.
Qed.
Lemma ends_plain_words s ws : ws ≠ [] → Forall word ws → ends_plain (s ++ join (lit " ") ws).
Proof.
  intros Hne Hws. destruct Hws as [|w ws Hw Hws]; [done|]. clear Hne. revert s w Hw.
  induction Hws as [|w' ws Hw' _ IH]; intros s w Hw.
  - apply ends_plain_app; [apply Hw|by apply ends_plain_word].
  - rewrite join_cons by done. rewrite (app_assoc w), (app_assoc s). by apply IH.
Qed.

(** ** Well-formed descriptions *)
Definition fmtp_ok (p : str) : Prop :=
  p ≠ [] ∧ head_not is_whitespace p ∧ ends_plain p ∧ Forall is_char p ∧ Forall (λ c, (c =? LF)%Z = false) p.
Record codec_ok (c : SdpCodec) : Prop := {
  co_type : (0 ≤ sc_payload_type c ≤ 255)%Z;
  co_clock : sc_clock_rate c = clock_rate (sc_codec c);
  co_channels : match sc_channels c with Some n => (0 < n ≤ 255)%Z | None => True end;
  co_fmtp : match sc_fmtp c with Some p => fmtp_ok p | None => True end;
}.
Record sdp_ok (d : SdpAudioDescription) : Prop := {
  so_id : (0 ≤ session_id d ≤ u64_max)%Z;
  so_version : (0 ≤ session_version d ≤ u64_max)%Z;
  so_user : word (origin_username d) ∧ Forall is_char (origin_username d);
  so_addr : word (connection_addr d) ∧ Forall is_char (connection_addr d);
  so_port : (0 ≤ media_port d ≤ u16_max)%Z;
  so_codecs : codecs d ≠ [];
  so_each : Forall codec_ok (codecs d);
  so_types : NoDup (sc_payload_type <$> codecs d);
  so_ptime : match ptime d with Some t => (0 ≤ t ≤ u16_max)%Z | None => True end;
}.

(** ** A description as lines *)
Definition o_words (d : SdpAudioDescription) : list str :=
  [origin_username d; fmt_dec (session_id d); fmt_dec (session_version d); network_type (addr_type d);
   addr_type_str (addr_type d); connection_addr d].
Definition c_words (d : SdpAudioDescription) : list str :=
  [network_type (addr_type d); addr_type_str (addr_type d); connection_addr d].
Definition m_words (d : SdpAudioDescription) : list str :=
  lit "audio" :: fmt_dec (media_port d) :: sdp_proto (sd_transport d)
    :: ((λ c, fmt_dec (sc_payload_type c)) <$> codecs d).
Definition rtpmap_value (c : SdpCodec) : str :=
  fmt_dec (sc_payload_type c) ++ lit " " ++ rtpmap_encoding (sc_codec c) ++ lit "/" ++ fmt_dec (sc_clock_rate c)
    ++ match sc_channels c with Some n => lit "/" ++ fmt_dec n | None => [] end.
Definition fmtp_lines (c : SdpCodec) : list str :=
  match sc_fmtp c with
  | Some p => [lit "a=" ++ lit "fmtp:" ++ fmt_dec (sc_payload_type c) ++ lit " " ++ p]
  | None => []
  end.
Definition codec_lines (c : SdpCodec) : list str :=
  (lit "a=" ++ lit "rtpmap:" ++ rtpmap_value c) :: fmtp_lines c.
Definition head_lines (d : SdpAudioDescription) : list str :=
  [lit "v=0"; lit "o=" ++ join (lit " ") (o_words d); lit "s=SimAdmin VoWiFi Call";
   lit "c=" ++ join (lit " ") (c_words d); lit "t=0 0"; lit "m=" ++ join (lit " ") (m_words d)].
Definition tail_lines (d : SdpAudioDescription) : list str :=
  match ptime d with Some t => [lit "a=" ++ lit "ptime:" ++ fmt_dec t] | None => [] end
  ++ [lit "a=" ++ direction_as_str (direction d)].
Definition sdp_lines (d : SdpAudioDescription) : list str :=
  head_lines d ++ (codecs d ≫= codec_lines) ++ tail_lines d.

Lemma render_lines_app ls ks : render_lines (ls ++ ks) = render_lines ls ++ render_lines ks.
Proof. unfold render_lines. apply bind_app. Qed.
Lemma codec_text c : codec_ok c → rtpmap_line c ++ fmtp_line c = render_lines (codec_lines c).
Proof.
  intros [_ _ _ Hf]. unfold codec_lines, fmtp_lines, rtpmap_line, fmtp_line, rtpmap_value, render_lines.
  destruct (sc_fmtp c) as [p|]; [rewrite bool_decide_eq_false_2 by apply Hf|]; cbn [mbind list_bind];
    rewrite ?app_nil_r, <-!app_assoc; done.
Qed.
Lemma codecs_text cs : Forall codec_ok cs →
  (cs ≫= λ c, rtpmap_line c ++ fmtp_line c) = render_lines (cs ≫= codec_lines).
Proof.
  induction 1 as [|c cs Hc _ IH]; [done|]. cbn [mbind list_bind].
  by rewrite render_lines_app, <-codec_text, <-IH.
Qed.
Lemma to_sdp_lines d : codecs d ≠ [] → Forall codec_ok (codecs d) → to_sdp d = render_lines (sdp_lines d).
Proof.
  intros Hne Hok. unfold to_sdp, sdp_lines. rewrite !render_lines_app, <-codecs_text by done.
  unfold head_lines, tail_lines, m_words.
  rewrite !(join_cons (lit " ") (lit "audio")), !(join_cons (lit " ") (fmt_dec (media_port d))),
    !(join_cons (lit " ") (sdp_proto (sd_transport d))) by (done || by destruct (codecs d)).
  unfold render_lines, o_words, c_words, join. cbn [mbind list_bind foldl].
  destruct (ptime d); cbn [app mbind list_bind]; rewrite ?app_nil_r, <-!app_assoc; done.
Qed.

(** ** The steps of the reader *)
Definition field_step (k : Z) (v : str) (st : AudioScan) : AudioScan :=
  if str_eqb [k] (lit "o") then audio_origin v st
  else if str_eqb [k] (lit "c") then audio_connection v st
  else if str_eqb [k] (lit "m") then audio_media v st
  else if str_eqb [k] (lit "a") && as_in_audio st then audio_attribute v st
  else st.
Lemma audio_line_written l k v st : l = k :: ch "=" :: v → k ≠ ch "=" → ends_plain l →
  audio_line st (l ++ [CR]) = field_step k v st.
Proof. intros -> Hk Hend. unfold audio_line. by rewrite sdp_field_written. Qed.
Lemma addr_type_of_str a : addr_type_of (addr_type_str a) = a.
Proof. by destruct a. Qed.
Lemma word_addr_type a : word (addr_type_str a).
Proof. destruct a; apply (bool_decide_unpack _); vm_compute; exact I. Qed.
Lemma word_network_type a : word (network_type a).
Proof. apply (bool_decide_unpack _); vm_compute; exact I. Qed.
Lemma word_proto t : word (sdp_proto t).
Proof. destruct t; apply (bool_decide_unpack _); vm_compute; exact I. Qed.
Lemma proto_read t : (if contains_str (to_ascii_uppercase <$> sdp_proto t) (lit "SAVP") then RtpSavp else RtpAvp) = t.
Proof. by destruct t. Qed.
Lemma o_words_ok d : sdp_ok d → Forall word (o_words d).
Proof.
  intros []. unfold o_words. repeat (apply Forall_cons; split);
    auto using word_dec_text, word_network_type, word_addr_type; [apply so_user0|apply word_dec_text; lia..|apply so_addr0].
Qed.
Lemma c_words_ok d : sdp_ok d → Forall word (c_words d).
Proof.
  intros []. unfold c_words. repeat (apply Forall_cons; split); auto using word_network_type, word_addr_type. apply so_addr0.
Qed.
Lemma m_words_ok d : sdp_ok d → Forall word (m_words d).
Proof.
  intros []. unfold m_words. repeat (apply Forall_cons; split);
    [apply (bool_decide_unpack _); vm_compute; exact I|apply word_dec_text; lia|apply word_proto|].
  apply Forall_fmap. eapply Forall_impl; [exact so_each0|]. intros c []. apply word_dec_text. lia.
Qed.
Lemma payload_tokens_fmt (cs : list SdpCodec) : Forall codec_ok cs →
  payload_tokens ((λ c, fmt_dec (sc_payload_type c)) <$> cs) = sc_payload_type <$> cs.
Proof.
  induction 1 as [|c cs [Ht _ _ _] _ IH]; [done|]. unfold payload_tokens in *. cbn [fmap list_fmap omap list_omap].
  rewrite parse_unsigned_fmt by exact Ht. by f_equal.
Qed.

Definition scan_after_head (d : SdpAudioDescription) : AudioScan :=
  let pts := sc_payload_type <$> codecs d in
  mkScan (origin_username d) (session_id d) (session_version d) (Some (addr_type d, connection_addr d))
    (Some (addr_type d, connection_addr d)) None (media_port d) (sd_transport d) pts SendRecv None
    (pts ≫= static_seed) [] true true true.
Lemma scan_head d : sdp_ok d →
  foldl audio_line audio_scan_start ((λ l, l ++ [CR]) <$> head_lines d) = scan_after_head d.
Proof.
  intros Hd. pose proof (o_words_ok d Hd) as Ho. pose proof (c_words_ok d Hd) as Hc.
  pose proof (m_words_ok d Hd) as Hm. destruct Hd.
  assert (∀ k ws, ws ≠ [] → Forall word ws → ends_plain ([k; ch "="] ++ join (lit " ") ws)) as He.
  { intros. by apply ends_plain_words. }
  unfold head_lines. cbn [fmap list_fmap foldl].
  rewrite (audio_line_written (lit "v=0") (ch "v") (lit "0") _ eq_refl) by done.
  rewrite (audio_line_written (lit "o=" ++ _) (ch "o") _ _ eq_refl) by (done || by apply He).
  rewrite (audio_line_written (lit "s=SimAdmin VoWiFi Call") (ch "s") (lit "SimAdmin VoWiFi Call") _ eq_refl) by done.
  rewrite (audio_line_written (lit "c=" ++ _) (ch "c") _ _ eq_refl) by (done || by apply He).
  rewrite (audio_line_written (lit "t=0 0") (ch "t") (lit "0 0") _ eq_refl) by done.
  rewrite (audio_line_written (lit "m=" ++ _) (ch "m") _ _ eq_refl) by (done || by apply He).
  change (field_step (ch "v") ?v ?st) with st. change (field_step (ch "t") ?v ?st) with st.
  change (field_step (ch "s") ?v ?st) with st.
  change (field_step (ch "o") ?v ?st) with (audio_origin v st). change (field_step (ch "c") ?v ?st) with (audio_connection v st).
  change (field_step (ch "m") ?v ?st) with (audio_media v st).
  unfold audio_origin, audio_connection, connection_of. rewrite !split_words by done. cbn [o_words c_words].
  rewrite !parse_unsigned_fmt by done. rewrite !addr_type_of_str. cbn -[join fmt_dec m_words audio_media scan_after_head].
  unfold audio_media. rewrite split_words by done. unfold m_words.
  change ((?a :: ?b :: ?c :: ?l) !! 1) with (Some b). change ((?a :: ?b :: ?c :: ?l) !! 2) with (Some c).
  change (drop 3 (?a :: ?b :: ?c :: ?l)) with l. cbv beta iota zeta. rewrite bool_decide_eq_true_2 by done.
  rewrite proto_read, parse_unsigned_fmt, payload_tokens_fmt by done. done.
Qed.

(** ** Attributes *)
Lemma codec_from_encoding c : codec_from_token (rtpmap_encoding c) = Some c.
Proof. by destruct c. Qed.
Lemma dec_no_char k n : is_ascii_digit k = false → (0 ≤ n)%Z → Forall (λ d, (d =? k)%Z = false) (fmt_dec n).
Proof.
  intros Hk Hn. destruct (fmt_dec_digits n Hn) as [HF _]. eapply Forall_impl; [exact HF|].
  intros c Hc. rewrite Z.eqb_sym. by apply digit_ne.
Qed.
Definition encoding_text (c : SdpCodec) : str :=
  rtpmap_encoding (sc_codec c) ++ ch "/" :: fmt_dec (sc_clock_rate c)
    ++ match sc_channels c with Some n => ch "/" :: fmt_dec n | None => [] end.
Lemma word_app_cons s c t : word s → is_whitespace c = false → Forall (λ c, is_whitespace c = false) t → word (s ++ c :: t).
Proof.
  intros [Hne Hs] Hc Ht. split; [by destruct s|]. apply Forall_app. split; [done|by constructor].
Qed.
Lemma codec_clock_pos c : (0 < clock_rate c <= u32_max)%Z.
Proof. by destruct c. Qed.
Lemma encoding_word c : codec_ok c → word (encoding_text c).
Proof.
  intros [_ Hclock Hch _]. pose proof (codec_clock_pos (sc_codec c)). unfold encoding_text. apply word_app_cons; [|done|].
  - destruct (sc_codec c); apply (bool_decide_unpack _); vm_compute; exact I.
  - apply Forall_app. split; [apply word_dec_text; lia|]. destruct (sc_channels c); [|done].
    constructor; [done|]. apply word_dec_text. lia.
Qed.
Lemma encoding_split c : codec_ok c → split (ch "/") (encoding_text c) =
  [rtpmap_encoding (sc_codec c); fmt_dec (sc_clock_rate c)]
    ++ match sc_channels c with Some n => [fmt_dec n] | None => [] end.
Proof.
  intros [_ Hclock Hch _]. pose proof (codec_clock_pos (sc_codec c)). unfold encoding_text.
  rewrite split_sep by (destruct (sc_codec c); apply (bool_decide_unpack _); vm_compute; exact I). simpl. f_equal.
  destruct (sc_channels c) as [n|]; simpl.
  - rewrite split_sep by (apply dec_no_char; [done|lia]). by rewrite split_plain by (apply dec_no_char; [done|lia]).
  - rewrite app_nil_r. by rewrite split_plain by (apply dec_no_char; [done|lia]).
Qed.
Definition codec_entry (c : SdpCodec) : Z * (AudioCodec * Z * option Z) :=
  (sc_payload_type c, (sc_codec c, sc_clock_rate c, sc_channels c)).
Lemma rtpmap_read c : codec_ok c → rtpmap_entry (rtpmap_value c) = Some (codec_entry c).
Proof.
  intros Hc. pose proof (encoding_word c Hc) as Hw. pose proof (encoding_split c Hc) as Hs. destruct Hc as [Ht Hclock Hch _].
  pose proof (codec_clock_pos (sc_codec c)).
  unfold rtpmap_entry. assert (rtpmap_value c = fmt_dec (sc_payload_type c) ++ ch " " :: encoding_text c) as ->.
  { unfold rtpmap_value, encoding_text. by destruct (sc_channels c). }
  rewrite split_whitespace_cons by (apply word_dec_text; lia). rewrite split_whitespace_word by done.
  rewrite parse_unsigned_fmt by exact Ht. cbn [mbind option_bind]. cbv zeta. rewrite Hs.
  change (([?a; ?b] ++ ?l) !! 0) with (Some a). change (([?a; ?b] ++ ?l) !! 1) with (Some b).
  change (default ?d (Some ?a)) with a. rewrite codec_from_encoding. cbn [mbind option_bind].
  rewrite parse_unsigned_fmt by lia. cbn [mbind option_bind].
  rewrite Hclock, Z.eqb_refl. unfold codec_entry. rewrite Hclock.
  destruct (sc_channels c) as [n|]; cbn [app lookup list_lookup mbind option_bind andb]; [|done].
  rewrite parse_unsigned_fmt by (unfold u8_max; lia). by rewrite (proj2 (Z.ltb_lt 0 n)) by lia.
Qed.
Lemma splitn_word w p : Forall (λ c, is_whitespace c = false) w → splitn_whitespace (w ++ ch " " :: p) = Some (w, p).
Proof.
  intros Hw. unfold splitn_whitespace. rewrite find_char_app by done.
  change (find_char is_whitespace (ch " " :: p)) with (Some 0). cbn [fmap option_fmap option_map mbind option_bind].
  rewrite Nat.add_0_r, take_app_length. rewrite <-Nat.add_1_r, <-drop_drop, drop_app_length. done.
Qed.
Lemma fmtp_read pt p : (0 ≤ pt ≤ 255)%Z → fmtp_ok p →
  fmtp_entry (fmt_dec pt ++ lit " " ++ p) = Some (pt, p).
Proof.
  intros Hpt (_ & Hs & He & _). unfold fmtp_entry. change (lit " " ++ p) with (ch " " :: p).
  rewrite splitn_word by (apply word_dec_text; lia). cbn [mbind option_bind].
  rewrite parse_unsigned_fmt by exact Hpt. cbn [mbind option_bind]. by rewrite trim_id.
Qed.

(** ** The codecs of the body *)
Definition put_entry (m : list (Z * (AudioCodec * Z * option Z))) (c : SdpCodec) :=
  filter (λ x, x.1 ≠ sc_payload_type c) m ++ [codec_entry c].
Definition fmtp_of (c : SdpCodec) : list (Z * str) :=
  match sc_fmtp c with Some p => [(sc_payload_type c, p)] | None => [] end.
Lemma ends_plain_rtpmap c s : codec_ok c → ends_plain (s ++ rtpmap_value c).
Proof.
  intros Hc. pose proof (encoding_word c Hc) as Hw.
  assert (rtpmap_value c = (fmt_dec (sc_payload_type c) ++ lit " ") ++ encoding_text c) as ->.
  { unfold rtpmap_value, encoding_text. rewrite <-app_assoc. by destruct (sc_channels c). }
  rewrite app_assoc. apply ends_plain_app; [apply Hw|by apply ends_plain_word].
Qed.
Lemma attribute_step st v : as_in_audio st = true → ends_plain (lit "a=" ++ v) →
  audio_line st ((lit "a=" ++ v) ++ [CR]) = audio_attribute v st.
Proof.
  intros Hin He. rewrite (audio_line_written (lit "a=" ++ v) (ch "a") v _ eq_refl) by done.
  change (field_step (ch "a") v st) with (if as_in_audio st then audio_attribute v st else st). by rewrite Hin.
Qed.
Lemma scan_codec c st : codec_ok c → as_in_audio st = true →
  foldl audio_line st ((λ l, l ++ [CR]) <$> codec_lines c) =
    set_fmtps (as_fmtps st ++ fmtp_of c) (set_rtpmaps (put_entry (as_rtpmaps st) c) st).
Proof.
  intros Hc Hin. unfold codec_lines. cbn [fmap list_fmap foldl].
  rewrite (audio_line_written (lit "a=" ++ _) (ch "a") _ _ eq_refl); [|done|].
  2:{ rewrite app_assoc. by apply ends_plain_rtpmap. }
  change (field_step (ch "a") ?v st) with (if as_in_audio st then audio_attribute v st else st). rewrite Hin.
  unfold audio_attribute at 1. rewrite strip_prefix_app, rtpmap_read by done. unfold codec_entry at 1.
  unfold fmtp_lines, fmtp_of. destruct (sc_fmtp c) as [p|] eqn:Hf; [|by rewrite app_nil_r].
  destruct Hc as [Ht _ _ Hok]. rewrite Hf in Hok. cbn [fmap list_fmap foldl].
  rewrite attribute_step; [|done|rewrite !app_assoc; apply ends_plain_app; apply Hok].
  unfold audio_attribute. change (strip_prefix (lit "rtpmap:") (lit "fmtp:" ++ ?s)) with (@None str).
  rewrite strip_prefix_app, fmtp_read by done. done.
Qed.
Lemma scan_codecs cs st : Forall codec_ok cs → as_in_audio st = true →
  foldl audio_line st ((λ l, l ++ [CR]) <$> (cs ≫= codec_lines)) =
    set_fmtps (as_fmtps st ++ (cs ≫= fmtp_of)) (set_rtpmaps (foldl put_entry (as_rtpmaps st) cs) st).
Proof.
  intros Hcs. revert st. induction Hcs as [|c cs Hc _ IH]; intros st Hin.
  { cbn. rewrite app_nil_r. by destruct st. }
  cbn [mbind list_bind foldl]. rewrite fmap_app, foldl_app, scan_codec, IH by done.
  cbn [as_fmtps set_fmtps set_rtpmaps as_rtpmaps]. by rewrite <-app_assoc.
Qed.
Lemma scan_direction d st : as_in_audio st = true →
  audio_line st ((lit "a=" ++ direction_as_str d) ++ [CR]) = set_timing d (as_ptime st) st.
Proof. intros Hin. rewrite attribute_step by (done || by destruct d). by destruct d. Qed.
Lemma scan_ptime t st : (0 ≤ t ≤ u16_max)%Z → as_in_audio st = true →
  audio_line st ((lit "a=" ++ lit "ptime:" ++ fmt_dec t) ++ [CR]) = set_timing (as_direction st) (Some t) st.
Proof.
  intros Ht Hin. assert (word (fmt_dec t)) as Hw by (apply word_dec_text; lia).
  rewrite attribute_step; [|done|rewrite app_assoc; apply ends_plain_app; [apply Hw|by apply ends_plain_word]].
  unfold audio_attribute. change (strip_prefix (lit "rtpmap:") (lit "ptime:" ++ ?s)) with (@None str).
  change (strip_prefix (lit "fmtp:") (lit "ptime:" ++ ?s)) with (@None str). rewrite strip_prefix_app.
  by rewrite trim_id, parse_unsigned_fmt by (done || by apply head_not_Forall, Hw || by apply ends_plain_word).
Qed.
Lemma scan_tail d st : sdp_ok d → as_in_audio st = true → as_ptime st = None →
  foldl audio_line st ((λ l, l ++ [CR]) <$> tail_lines d) = set_timing (direction d) (ptime d) st.
Proof.
  intros Hd Hin Hp. apply so_ptime in Hd. unfold tail_lines. rewrite fmap_app, foldl_app. cbn [fmap list_fmap foldl].
  destruct (ptime d) as [t|]; cbn [fmap list_fmap foldl].
  - by rewrite scan_ptime, scan_direction.
  - by rewrite scan_direction, Hp.
Qed.

(** ** Assembling *)
Lemma find_app_or {A} (f : A → bool) l k :
  List.find f (l ++ k) = match List.find f l with Some a => Some a | None => List.find f k end.
Proof. induction l as [|a l IH]; simpl; [done|]. by destruct (f a). Qed.
Lemma find_put m c pt : List.find (λ x, (x.1 =? pt)%Z) (put_entry m c) =
  if (sc_payload_type c =? pt)%Z then Some (codec_entry c) else List.find (λ x, (x.1 =? pt)%Z) m.
Proof.
  unfold put_entry. rewrite find_app_or. simpl. induction m as [|x m IH].
  - cbn [filter list_filter List.find]. by destruct (_ =? _)%Z.
  - rewrite filter_cons. destruct (decide (x.1 ≠ sc_payload_type c)) as [Hx|Hx]; cbn [List.find].
    + destruct (Z.eqb_spec x.1 pt) as [<-|]; [|exact IH]. by rewrite (proj2 (Z.eqb_neq _ _)) by congruence.
    + apply dec_stable in Hx. rewrite IH, Hx. by destruct (_ =? _)%Z.
Qed.
Lemma find_puts m cs c : c ∈ cs → NoDup (sc_payload_type <$> cs) →
  List.find (λ x, (x.1 =? sc_payload_type c)%Z) (foldl put_entry m cs) = Some (codec_entry c).
Proof.
  induction cs as [|e cs IH] using rev_ind; [by intros ?%not_elem_of_nil|].
  rewrite fmap_app, foldl_app. cbn [fmap list_fmap foldl]. intros Hc (Hcs & Hnot & _)%NoDup_app.
  rewrite find_put. apply elem_of_app in Hc as [Hc|Hc%list_elem_of_singleton].
  - rewrite (proj2 (Z.eqb_neq _ _)); [by apply IH|]. intros He.
    apply (Hnot (sc_payload_type c)); [by apply list_elem_of_fmap_2|]. rewrite He. by left.
  - subst e. by rewrite Z.eqb_refl.
Qed.
Lemma find_fmtp cs c : c ∈ cs → NoDup (sc_payload_type <$> cs) →
  snd <$> List.find (λ x, (x.1 =? sc_payload_type c)%Z) (cs ≫= fmtp_of) = sc_fmtp c.
Proof.
  induction cs as [|e cs IH]; [by intros ?%not_elem_of_nil|]. cbn [fmap list_fmap mbind list_bind].
  rewrite find_app_or. intros [->|Hc]%elem_of_cons [Hnot Hnd]%NoDup_cons.
  - unfold fmtp_of at 1. destruct (sc_fmtp e) as [p|]; cbn [List.find fst]; [by rewrite Z.eqb_refl|].
    assert (∀ x, x ∈ cs → sc_payload_type x ≠ sc_payload_type e) as Hne.
    { intros x Hx Heq. apply Hnot. rewrite <-Heq. by apply list_elem_of_fmap_2. }
    clear -Hne. induction cs as [|x cs IH]; [done|]. cbn [mbind list_bind]. rewrite find_app_or.
    assert (List.find (λ y, (y.1 =? sc_payload_type e)%Z) (fmtp_of x) = None) as ->.
    { unfold fmtp_of. destruct (sc_fmtp x); [|done]. cbn [List.find fst].
      by rewrite (proj2 (Z.eqb_neq _ _)) by (apply Hne; by left). }
    apply IH. intros y Hy. apply Hne. by right.
  - rewrite <-IH by done. unfold fmtp_of at 1. destruct (sc_fmtp e); [|done]. cbn [List.find fst].
    rewrite (proj2 (Z.eqb_neq _ _)); [done|]. intros Heq. apply Hnot. rewrite Heq. by apply list_elem_of_fmap_2.
Qed.
Lemma omap_fmap_id {A B} (f : B → option A) (g : A → B) (l : list A) : (∀ a, a ∈ l → f (g a) = Some a) → omap f (g <$> l) = l.
Proof.
  induction l as [|a l IH]; intros H; [done|]. cbn [fmap list_fmap omap list_omap].
  rewrite H by by left. f_equal. apply IH. intros b Hb. apply H. by right.
Qed.

(** Every character of a line is a character and not a line feed. *)
Definition plain_char (c : Z) : Prop := is_char c ∧ (c =? LF)%Z = false.
#[export] Instance plain_char_dec c : Decision (plain_char c) := _.
Lemma plain_dec_fmt n : (0 ≤ n)%Z → Forall plain_char (fmt_dec n).
Proof.
  intros Hn. destruct (fmt_dec_digits n Hn) as [HF _]. eapply Forall_impl; [exact HF|].
  intros c Hc. unfold is_ascii_digit in Hc. apply in_range_true in Hc.
  change (ch "0") with 48%Z in Hc. change (ch "9") with 57%Z in Hc.
  split; [left; lia|]. apply Z.eqb_neq. unfold LF. lia.
Qed.
Lemma plain_word s : word s → Forall is_char s → Forall plain_char s.
Proof.
  intros [_ Hw] Hc. apply Forall_forall. intros c Hin. rewrite Forall_forall in Hw, Hc. split; [by apply Hc|].
  apply Z.eqb_neq. intros ->. specialize (Hw LF Hin). by vm_compute in Hw.
Qed.
Lemma line_join ws : Forall (Forall plain_char) ws → Forall plain_char (join (lit " ") ws).
Proof.
  induction 1 as [|w ws Hw Hws IH]; [done|]. destruct (decide (ws = [])) as [->|Hne]; [done|].
  rewrite join_cons by done. rewrite !Forall_app. split; [done|]. split; [|done].
  apply (bool_decide_unpack _); vm_compute; exact I.
Qed.
Ltac plain_lit := apply (bool_decide_unpack _); vm_compute; exact I.
Lemma plain_codec_lines c : codec_ok c → Forall (Forall plain_char) (codec_lines c).
Proof.
  intros [Ht Hclock Hch Hf]. pose proof (codec_clock_pos (sc_codec c)). unfold codec_lines, fmtp_lines, rtpmap_value.
  constructor; [|destruct (sc_fmtp c) as [p|]; [constructor; [|done]|done]]; rewrite !Forall_app.
  - split; [plain_lit|]. split; [plain_lit|]. split; [apply plain_dec_fmt; lia|]. split; [plain_lit|].
    split; [destruct (sc_codec c); plain_lit|]. split; [plain_lit|]. split; [apply plain_dec_fmt; lia|].
    destruct (sc_channels c); [|done]. apply Forall_app. split; [plain_lit|apply plain_dec_fmt; lia].
  - split; [plain_lit|]. split; [plain_lit|]. split; [apply plain_dec_fmt; lia|]. split; [plain_lit|].
    destruct Hf as (_ & _ & _ & Hc & Hl). apply Forall_forall. intros x Hx. rewrite Forall_forall in Hc, Hl. split; auto.
Qed.
Lemma plain_sdp_lines d : sdp_ok d → Forall (Forall plain_char) (sdp_lines d).
Proof.
  intros []. unfold sdp_lines, head_lines, tail_lines. rewrite !Forall_app.
  assert (∀ s, Forall plain_char s → ∀ t, Forall plain_char t → Forall plain_char (s ++ t)) as Happ.
  { intros. by apply Forall_app. }
  assert (Forall plain_char (network_type (addr_type d))) by plain_lit.
  assert (Forall plain_char (addr_type_str (addr_type d))) by (destruct (addr_type d); plain_lit).
  assert (Forall plain_char (origin_username d) ∧ Forall plain_char (connection_addr d)) as [? ?].
  { split; apply plain_word; [apply so_user0|apply so_user0|apply so_addr0|apply so_addr0]. }
  split; [|split; [|split]].
  - constructor; [plain_lit|]. constructor.
    { apply Happ; [plain_lit|]. apply line_join. unfold o_words.
      do 6 (apply Forall_cons_2; [first [assumption|apply plain_dec_fmt; lia]|]). done. }
    constructor; [plain_lit|]. constructor.
    { apply Happ; [plain_lit|]. apply line_join. unfold c_words.
      do 3 (apply Forall_cons_2; [assumption|]). done. }
    constructor; [plain_lit|]. constructor; [|done].
    apply Happ; [plain_lit|]. apply line_join. unfold m_words. constructor; [plain_lit|].
    constructor; [apply plain_dec_fmt; lia|]. constructor; [destruct (sd_transport d); plain_lit|].
    apply Forall_fmap. eapply Forall_impl; [exact so_each0|]. intros c []. apply plain_dec_fmt. lia.
  - clear -so_each0. induction so_each0 as [|c cs Hc _ IH]; [done|]. cbn [mbind list_bind]. apply Forall_app.
    split; [by apply plain_codec_lines|done].
  - destruct (ptime d); [constructor; [|done]|done]. apply Happ; [plain_lit|]. apply Happ; [plain_lit|]. apply plain_dec_fmt. lia.
  - constructor; [|done]. apply Happ; [plain_lit|]. destruct (direction d); plain_lit.
Qed.
Lemma plain_render ls : Forall (Forall plain_char) ls → Forall is_char (render_lines ls).
Proof.
  induction 1 as [|l ls Hl _ IH]; [done|]. rewrite render_lines_cons, !Forall_app. split; [|split; [|done]].
  - eapply Forall_impl; [exact Hl|]. by intros c [].
  - apply (bool_decide_unpack _); vm_compute; exact I.
Qed.

Lemma plain_no_lf ls : Forall (Forall plain_char) ls → Forall (λ l, Forall (λ c, (c =? LF)%Z = false) l) ls.
Proof. intros H. eapply Forall_impl; [exact H|]. intros l Hl. eapply Forall_impl; [exact Hl|]. by intros c []. Qed.
Lemma utf8_rendered ls : ls ≠ [] → utf8_encode (render_lines ls) ≠ [].
Proof.
  destruct ls as [|l ls]; [done|]. intros _. rewrite render_lines_cons. unfold utf8_encode. rewrite !bind_app.
  by destruct (mbind utf8_char l).
Qed.

(** The loop over the lines of a description, and what it leaves. *)
Definition scan_of (d : SdpAudioDescription) : AudioScan :=
  set_timing (direction d) (ptime d) (set_fmtps (codecs d ≫= fmtp_of)
    (set_rtpmaps (foldl put_entry ((sc_payload_type <$> codecs d) ≫= static_seed) (codecs d)) (scan_after_head d))).
Lemma scan_lines d : sdp_ok d →
  foldl audio_line audio_scan_start ((λ l, l ++ [CR]) <$> sdp_lines d) = scan_of d.
Proof.
  intros Hd. unfold sdp_lines. rewrite !fmap_app, !foldl_app, scan_head, scan_codecs, scan_tail by (done || apply Hd).
  done.
Qed.
Lemma scan_described d : sdp_ok d → audio_description (scan_of d) = Ok d.
Proof.
  intros Hd. unfold audio_description.
  assert (assemble_codecs (scan_of d) = codecs d) as ->.
  { unfold assemble_codecs. change (as_payloads (scan_of d)) with (sc_payload_type <$> codecs d).
    apply omap_fmap_id. intros c Hc. unfold scan_of. cbn [as_rtpmaps as_fmtps set_timing set_fmtps set_rtpmaps].
    rewrite find_puts, find_fmtp by (done || apply Hd). unfold codec_entry. cbn [mbind option_bind]. by destruct c. }
  change (as_saw_audio (scan_of d)) with true. rewrite bool_decide_eq_false_2 by apply Hd. by destruct d.
Qed.
(** A body made of plain lines is read line by line. *)
Lemma parse_rendered ls : ls ≠ [] → Forall (Forall plain_char) ls →
  parse_audio_sdp (utf8_encode (render_lines ls)) =
    audio_description (foldl audio_line audio_scan_start ((λ l, l ++ [CR]) <$> ls)).
Proof.
  intros Hne Hls. unfold parse_audio_sdp. rewrite utf8_roundtrip by by apply plain_render.
  rewrite bool_decide_eq_false_2 by by apply utf8_rendered. cbn [ok_or mbind res_bind].
  rewrite split_rendered by by apply plain_no_lf. rewrite foldl_app. done.
Qed.

(** A well-formed audio description is read back exactly as it was written,
    whatever its codecs, their parameters and its texts. *)
Theorem sdp_read_back d : sdp_ok d → parse_audio_sdp (utf8_encode (to_sdp d)) = Ok d.
Proof.
  intros Hd. rewrite to_sdp_lines by apply Hd. rewrite parse_rendered by (done || by apply plain_sdp_lines).
  by rewrite scan_lines, scan_described.
Qed.

(** After the media line a description is made of attributes. *)
Definition attribute_line (l : str) : Prop := ∃ v, l = lit "a=" ++ v ∧ ends_plain l.
Lemma fmtp_line_plain c s : codec_ok c → ∀ p, sc_fmtp c = Some p → ends_plain (s ++ p).
Proof. intros [_ _ _ Hf] p Hp. rewrite Hp in Hf. apply ends_plain_app; apply Hf. Qed.
Lemma attribute_lines d : sdp_ok d → Forall attribute_line ((codecs d ≫= codec_lines) ++ tail_lines d).
Proof.
  intros Hd. apply Forall_app. split.
  - pose proof (so_each d Hd) as Hall. induction Hall as [|c cs Hc _ IH]; [done|]. cbn [mbind list_bind].
    apply Forall_app. split; [|exact IH]. unfold codec_lines, fmtp_lines. constructor.
    + eexists. split; [done|]. rewrite app_assoc. by apply ends_plain_rtpmap.
    + destruct (sc_fmtp c) as [p|] eqn:Hp; [|done]. constructor; [|done]. eexists. split; [done|].
      rewrite !app_assoc. by apply (fmtp_line_plain c).
  - pose proof (so_ptime d Hd) as Ht. unfold tail_lines. apply Forall_app. split.
    + destruct (ptime d) as [t|]; [|done]. constructor; [|done]. eexists. split; [done|]. rewrite app_assoc.
      apply ends_plain_app; [apply fmt_dec_digits; lia|apply ends_plain_word, word_dec_text; lia].
    + constructor; [|done]. eexists. split; [done|]. by destruct (direction d).
Qed.

(** * Offers *)
Section offer.
Context (params : VoiceParams).

(** What a policy pins: the payload type its codec can carry. *)
Definition pins (p : AudioCodecPolicy) (pt : Z) : Prop :=
  pol_payload_type p = Some pt ∧
  match static_payload_type (pol_codec p) with Some s => pt = s | None => (96 ≤ pt ≤ 127)%Z end ∧
  default (clock_rate (pol_codec p)) (pol_sample_rate p) = clock_rate (pol_codec p).
(** A payload as the policies allow it. *)
Record offered_by (policies : list AudioCodecPolicy) (c : SdpCodec) : Prop := {
  ob_clock : sc_clock_rate c = clock_rate (sc_codec c);
  ob_channels : sc_channels c = None;
  ob_type : match static_payload_type (sc_codec c) with
            | Some s => sc_payload_type c = s
            | None => (96 ≤ sc_payload_type c ≤ 127)%Z
            end;
  ob_source : ∃ p, p ∈ policies ∧ pol_codec p = sc_codec c ∧
    (sc_fmtp c = pol_fmtp p ∨ sc_fmtp c = amr_default_fmtp (sc_codec c) (amr_octet_align params)) ∧
    (static_payload_type (sc_codec c) = None → sc_payload_type c ∈ omap pol_payload_type policies →
     pol_payload_type p = Some (sc_payload_type c));
}.
(** What a policy without a number gets: its codec, unless no number is left. *)
Definition served (all : list AudioCodecPolicy) (cs : list SdpCodec) (p : AudioCodecPolicy) : Prop :=
  match static_payload_type (pol_codec p) with
  | Some s => s ∈ sc_payload_type <$> cs
  | None => pol_codec p ∈ sc_codec <$> cs ∨
    ∀ pt, (96 ≤ pt ≤ 127)%Z → pt ∈ omap pol_payload_type all ∨ pt ∈ sc_payload_type <$> cs
  end.
Definition unpinned (p : AudioCodecPolicy) : Prop :=
  pol_payload_type p = None ∧ default (clock_rate (pol_codec p)) (pol_sample_rate p) = clock_rate (pol_codec p).
Definition offer_inv (all done : list AudioCodecPolicy) (st : list SdpCodec * gset Z) : Prop :=
  (∀ pt, pt ∈ st.2 ↔ pt ∈ sc_payload_type <$> st.1) ∧ NoDup (sc_payload_type <$> st.1) ∧
  Forall (offered_by all) st.1 ∧ (sc_codec <$> st.1) `sublist_of` (pol_codec <$> done) ∧
  (∀ p pt, p ∈ done → pins p pt → pt ∈ sc_payload_type <$> st.1) ∧
  (∀ p, p ∈ done → unpinned p → served all st.1 p).

Lemma dynamic_type pt : pt ∈ dynamic_payload_types ↔ (96 ≤ pt ≤ 127)%Z.
Proof.
  unfold dynamic_payload_types. rewrite list_elem_of_fmap. split.
  - intros (i & -> & Hi%elem_of_seq). lia.
  - intros H. exists (Z.to_nat pt). split; [lia|]. apply elem_of_seq. lia.
Qed.
Lemma policy_type_range all used p pt :
  policy_payload_type (reserved_payload_types all) used p = Some pt →
  match static_payload_type (pol_codec p) with
  | Some s => pt = s
  | None => (96 ≤ pt ≤ 127)%Z ∧ (pt ∈ omap pol_payload_type all → pol_payload_type p = Some pt)
  end.
Proof.
  unfold policy_payload_type. destruct (static_payload_type (pol_codec p)) as [s|].
  - destruct (pol_payload_type p) as [q|]; [|by intros [= ->]]. destruct (q =? s)%Z; [by intros [= ->]|done].
  - destruct (pol_payload_type p) as [q|].
    + destruct (in_range 96 127 q) eqn:Hq; [|done]. apply in_range_true in Hq. by intros [= ->].
    + intros [Hin [Hres%bool_decide_eq_true _]%andb_true_iff]%find_some.
      split; [by apply dynamic_type, list_elem_of_In|]. intros Hall. destruct Hres.
      unfold reserved_payload_types. by apply elem_of_list_to_set.
Qed.
Lemma pinned_type all used p pt : pins p pt →
  policy_payload_type (reserved_payload_types all) used p = Some pt.
Proof.
  intros (Hpt & Hr & _). unfold policy_payload_type. rewrite Hpt.
  destruct (static_payload_type (pol_codec p)); [by rewrite Hr, Z.eqb_refl|].
  by rewrite (proj2 (in_range_true _ _ _)).
Qed.
Lemma unpinned_type all used p : unpinned p →
  match static_payload_type (pol_codec p) with
  | Some s => policy_payload_type (reserved_payload_types all) used p = Some s
  | None => policy_payload_type (reserved_payload_types all) used p = None →
    ∀ pt, (96 ≤ pt ≤ 127)%Z → pt ∈ omap pol_payload_type all ∨ pt ∈ used
  end.
Proof.
  intros [Hnone _]. unfold policy_payload_type. rewrite Hnone. destruct (static_payload_type (pol_codec p)); [done|].
  intros Hfind pt Hpt%dynamic_type. apply list_elem_of_In in Hpt.
  apply (find_none _ _ Hfind), andb_false_iff in Hpt as [H|H]; apply bool_decide_eq_false, dec_stable in H; [left|by right].
  unfold reserved_payload_types in H. by apply elem_of_list_to_set in H.
Qed.
Lemma served_app all cs c p : served all cs p → served all (cs ++ [c]) p.
Proof.
  unfold served. rewrite !fmap_app. destruct (static_payload_type _); [intros; apply elem_of_app; by left|].
  intros [H|H]; [left; apply elem_of_app; by left|right]. intros pt Hpt. destruct (H pt Hpt); [by left|].
  right. apply elem_of_app. by left.
Qed.
(** The policy is passed over. *)
Lemma offer_skip all done st p : offer_inv all done st →
  (∀ pt, pins p pt → pt ∈ sc_payload_type <$> st.1) → (unpinned p → served all st.1 p) →
  offer_inv all (done ++ [p]) st.
Proof.
  intros (Hused & Hnd & Hall & Hsub & Hpins & Hserved) Hpin Hun. unfold offer_inv.
  split; [done|]. split; [done|]. split; [done|]. split; [|split].
  - rewrite fmap_app. etrans; [exact Hsub|]. by apply sublist_inserts_r.
  - intros q pt [Hq|Hq%list_elem_of_singleton]%elem_of_app; [by apply Hpins|]. subst q. apply Hpin.
  - intros q [Hq|Hq%list_elem_of_singleton]%elem_of_app; [by apply Hserved|]. by subst q.
Qed.
(** The policy is offered. *)
Lemma offer_add all done cs used p c : offer_inv all done (cs, used) → sc_payload_type c ∉ used →
  offered_by all c → sc_codec c = pol_codec p → (∀ pt, pins p pt → pt = sc_payload_type c) →
  (unpinned p → served all (cs ++ [c]) p) →
  offer_inv all (done ++ [p]) (cs ++ [c], {[sc_payload_type c]} ∪ used).
Proof.
  intros (Hused & Hnd & Hall & Hsub & Hpins & Hserved) Hin Hc Hcodec Hpin Hun. cbn [fst snd] in *.
  unfold offer_inv. cbn [fst snd]. rewrite !fmap_app. cbn [fmap list_fmap].
  split; [|split; [|split; [|split; [|split]]]].
  - intros q. rewrite elem_of_union, elem_of_singleton, elem_of_app, list_elem_of_singleton, Hused. tauto.
  - apply NoDup_app. split; [done|]. split; [|apply NoDup_singleton].
    intros q Hq ->%list_elem_of_singleton. by apply Hin, Hused.
  - apply Forall_app. by split; [|constructor].
  - apply sublist_app; [done|]. by rewrite Hcodec.
  - intros q pt [Hq|Hq%list_elem_of_singleton]%elem_of_app Hpin'; apply elem_of_app.
    + left. by apply (Hpins q).
    + right. subst q. rewrite (Hpin pt Hpin'). by left.
  - intros q [Hq|Hq%list_elem_of_singleton]%elem_of_app Hun'; [by apply served_app, Hserved|]. subst q. by apply Hun.
Qed.
Lemma offer_step_inv all done st p : p ∈ all → offer_inv all done st →
  offer_inv all (done ++ [p]) (offer_step params (reserved_payload_types all) st p).
Proof.
  intros Hp Hinv. destruct st as [cs used].
  assert (∀ pt, pt ∈ used ↔ pt ∈ sc_payload_type <$> cs) as Hused by apply Hinv.
  unfold offer_step. set (clock := default _ _). destruct (Z.eqb_spec clock (clock_rate (pol_codec p))) as [Hclock|Hclock].
  2:{ apply offer_skip; [done|intros pt (_ & _ & Heq)|intros (_ & Heq)]; by destruct Hclock. }
  cbn [negb]. pose proof (unpinned_type all used p) as Hty.
  destruct (policy_payload_type _ used p) as [pt|] eqn:Hpt.
  2:{ apply offer_skip; [done|intros pt Hpin; by rewrite (pinned_type all used p pt Hpin) in Hpt|].
      intros Hun. specialize (Hty Hun). unfold served. cbn [fst].
      destruct (static_payload_type (pol_codec p)); [done|]. right. intros q Hq.
      destruct (Hty eq_refl q Hq) as [|Hq']; [by left|right; by apply Hused]. }
  assert (∀ q, pins p q → q = pt) as Hpin.
  { intros q Hq. rewrite (pinned_type all used p q Hq) in Hpt. congruence. }
  case_bool_decide as Hin.
  - apply offer_skip; [done|intros q Hq; rewrite (Hpin q Hq); by apply Hused|].
    intros Hun. specialize (Hty Hun). unfold served. revert Hpt. unfold policy_payload_type.
    destruct Hun as [Hnone _]. rewrite Hnone. destruct (static_payload_type (pol_codec p)) as [s|].
    + intros [= ->]. by apply Hused.
    + intros [_ [_ Hfree%bool_decide_eq_true]%andb_true_iff]%find_some. done.
  - apply policy_type_range in Hpt. apply (offer_add all done cs used p (mkSdpCodec (pol_codec p) pt clock None _)); try done.
    + constructor; cbn [sc_clock_rate sc_codec sc_channels sc_payload_type sc_fmtp]; [done|done| |].
      * destruct (static_payload_type (pol_codec p)); [exact Hpt|apply Hpt].
      * exists p. split; [done|]. split; [done|]. split; [destruct (pol_fmtp p) as [f|]; [case_bool_decide|]; auto|].
        intros Hs. rewrite Hs in Hpt. apply Hpt.
    + intros Hun. specialize (Hty Hun). unfold served. rewrite !fmap_app.
      destruct (static_payload_type (pol_codec p)); [|left]; apply elem_of_app; right; [|by left].
      injection Hty as ->. by left.
Qed.
Lemma offer_fold_inv all done rest st : (∀ p, p ∈ rest → p ∈ all) → offer_inv all done st →
  offer_inv all (done ++ rest) (foldl (offer_step params (reserved_payload_types all)) st rest).
Proof.
  revert done st. induction rest as [|p rest IH]; intros done st Hrest Hinv; [by rewrite app_nil_r|].
  cbn [foldl]. rewrite (cons_middle p), (app_assoc done). apply IH.
  - intros q Hq. apply Hrest. by right.
  - apply offer_step_inv; [|done]. apply Hrest. by left.
Qed.
Lemma codec_offer_inv :
  ∃ used, offer_inv (policies_of params) (policies_of params) (build_codec_offer_with_params params, used).
Proof.
  unfold build_codec_offer_with_params.
  pose proof (offer_fold_inv (policies_of params) [] (policies_of params) ([], ∅)) as H.
  destruct (foldl _ _ _) as [cs used]. exists used. apply H; [done|].
  split; [|split; [apply NoDup_nil_2|split; [done|split; [done|split]]]].
  - intros pt. cbn. split; [set_solver|by intros ?%not_elem_of_nil].
  - intros p pt Hp. by apply not_elem_of_nil in Hp.
  - intros p Hp. by apply not_elem_of_nil in Hp.
Qed.

(** C22: an offer numbers its payloads soundly: the numbers are distinct, a
    static codec has its own and the others one of 96 to 127, the clock rates
    are the registered ones, the codecs come in the order of the policies, a
    number that policies pin is carried by one of them, every policy that pins
    a number its codec can carry finds it in the offer, and a policy that pins
    none is left out only when the 32 dynamic numbers are exhausted. *)
Theorem codec_offer_sound :
  let cs := build_codec_offer_with_params params in
  NoDup (sc_payload_type <$> cs) ∧ Forall (offered_by (policies_of params)) cs ∧
  (sc_codec <$> cs) `sublist_of` (pol_codec <$> policies_of params) ∧
  (∀ p pt, p ∈ policies_of params → pins p pt → pt ∈ sc_payload_type <$> cs) ∧
  (∀ p, p ∈ policies_of params → unpinned p → served (policies_of params) cs p).
Proof. destruct codec_offer_inv as (used & _ & H). exact H. Qed.
End offer.

(** * Answers *)
Lemma find_is_Some {A} (f : A → bool) l : is_Some (List.find f l) ↔ existsb f l = true.
Proof.
  induction l as [|a l IH]; simpl; [split; [by intros []|done]|].
  destruct (f a); [by split; [|eexists]|exact IH].
Qed.
Lemma matching_is_Some d c : is_Some (find_matching_codec d c) ↔ existsb (same_encoding c) (codecs d) = true.
Proof.
  rewrite <-find_is_Some. unfold find_matching_codec.
  destruct (List.find (λ x, bool_decide _) _) as [x|] eqn:Hx; [|done]. split; [intros _|by eexists].
  apply find_some in Hx as [Hx _]. apply list_elem_of_In, list_elem_of_filter in Hx as [Hs Hx].
  apply find_is_Some, existsb_exists. exists x. split; [by apply list_elem_of_In|by apply Is_true_true].
Qed.
Lemma peer_directions d :
  allows_send (for_peer d) = allows_receive d ∧ allows_receive (for_peer d) = allows_send d ∧ for_peer (for_peer d) = d.
Proof. by destruct d. Qed.
Section answer.
Context (base sequence : Z) (params : VoiceParams) (offer : SdpAudioDescription).
Context (addr : str) (a : SdpAddrType) (port : Z).

(** The description the answering side would offer itself. *)
Definition local_description : SdpAudioDescription :=
  build_mo_audio_offer_with_params base sequence params addr a port.

Lemma answer_ok (cs : list SdpCodec) (id : Z) :
  sdp_ok offer → word addr → Forall is_char addr → (0 ≤ port ≤ u16_max)%Z → (0 ≤ ptime_ms params ≤ u16_max)%Z →
  (0 ≤ id ≤ u64_max)%Z → cs ≠ [] → cs `sublist_of` codecs offer →
  sdp_ok (mkAudio id id (lit "SimAdmin") addr a port (sd_transport offer) cs (for_peer (direction offer))
    (match ptime offer with Some t => Some t | None => Some (ptime_ms params) end)).
Proof.
  intros [] Haddr Hchar Hport Hptime Hid Hne Hsub. constructor; cbn; try done.
  - split; apply (bool_decide_unpack _); vm_compute; exact I.
  - rewrite Forall_forall in so_each0 |- *. intros c Hc. apply so_each0. by eapply sublist_subseteq.
  - eapply sublist_NoDup; [exact so_types0|]. by apply fmap_sublist.
  - by destruct (ptime offer).
Qed.
Lemma offered_id : (0 ≤ (base + sequence) mod 2 ^ 64 ≤ u64_max)%Z.
Proof. pose proof (Z.mod_pos_bound (base + sequence) (2 ^ 64)). unfold u64_max. lia. Qed.

(** C23: an answer to a well-formed offer is refused exactly when the offer and
    the local description have no codec in common; otherwise it is well formed,
    the offerer reads it back as it was written, it carries exactly the offered
    payloads the local side supports, in the order and under the numbers of the
    offer, and each side may send exactly when the other receives. *)
Theorem answer_sound :
  sdp_ok offer → word addr → Forall is_char addr → (0 ≤ port ≤ u16_max)%Z → (0 ≤ ptime_ms params ≤ u16_max)%Z →
  match build_sdp_answer_with_params base sequence params offer addr a port with
  | Ok answer =>
      parse_audio_sdp (utf8_encode (to_sdp answer)) = Ok answer ∧
      codecs answer `sublist_of` codecs offer ∧
      sc_codec <$> codecs answer = common_codecs offer local_description ∧
      (∀ c, c ∈ codecs offer →
        c ∈ codecs answer ↔ is_Some (find_matching_codec local_description c)) ∧
      allows_send (direction answer) = allows_receive (direction offer) ∧
      allows_receive (direction answer) = allows_send (direction offer)
  | Err e => e = NoCommonCodec ∧ common_codecs offer local_description = []
  | Panic => False
  end.
Proof.
  intros Hoffer Haddr Hchar Hport Hptime. unfold build_sdp_answer_with_params, common_codecs.
  assert (filter (λ c, existsb (same_encoding c) (build_codec_offer_with_params params)) (codecs offer)
    = filter (λ c, is_Some (find_matching_codec local_description c)) (codecs offer)) as ->.
  { apply list_filter_iff. intros c. rewrite matching_is_Some. apply Is_true_true. }
  case_bool_decide as Hnil; [by rewrite Hnil|].
  split; [|split; [|split; [|split]]].
  - apply sdp_read_back, answer_ok; [done..|apply offered_id|done|apply sublist_filter].
  - apply sublist_filter.
  - done.
  - intros c Hc. cbn [codecs]. rewrite list_elem_of_filter. tauto.
  - split; apply peer_directions.
Qed.

Lemma amr_default_ok codec b f : amr_default_fmtp codec b = Some f → fmtp_ok f.
Proof.
  unfold amr_default_fmtp. destruct (negb _); [done|]. intros [= <-].
  destruct b; (split; [done|]; split; [done|]; split; [done|]; split; plain_lit).
Qed.
(** A description this side offers is well formed when the texts it is given are. *)
Lemma offered_ok : build_codec_offer_with_params params ≠ [] →
  (∀ p f, p ∈ policies_of params → pol_fmtp p = Some f → fmtp_ok f) →
  word addr → Forall is_char addr → (0 ≤ port ≤ u16_max)%Z → (0 ≤ ptime_ms params ≤ u16_max)%Z →
  sdp_ok local_description.
Proof.
  intros Hne Hf Haddr Hchar Hport Hptime.
  destruct (codec_offer_inv params) as (used & _ & Hnd & Hall & _).
  constructor; cbn; try done; try apply offered_id.
  - split; apply (bool_decide_unpack _); vm_compute; exact I.
  - eapply Forall_impl; [exact Hall|]. intros c [Hclock Hch Htype (p & Hp & Hcodec & Hfmtp & _)].
    constructor; [|done|by rewrite Hch|].
    + destruct (sc_codec c); simpl in Htype; lia.
    + destruct (sc_fmtp c) as [f|]; [|done].
      destruct Hfmtp as [Hfm|Hfm]; [by eapply Hf|by eapply amr_default_ok].
Qed.
End answer.

(** * Witnesses *)
Definition sample_params : VoiceParams :=
  mkVoiceParams [lit "amr-wb"; lit "AMR"; lit "pcmu"; lit "g729"] [] 20 false true false (lit "udp") (lit "sample") (lit "00101").
Definition sample_offer : SdpAudioDescription :=
  mkAudio 7 8 (lit "peer") (lit "2001:db8::1") Ip6 5004 RtpSavp
    [mkSdpCodec Evs 111 16000 (Some 1%Z) (Some (lit "br=5.9-24.4; bw=nb-swb"));
     mkSdpCodec Amr 96 8000 (Some 1%Z) (Some (lit "octet-align=1"));
     mkSdpCodec Pcmu 0 8000 None None] SendOnly None.
Lemma fmtp_ok_text f : bool_decide (f ≠ [] ∧ Forall is_char f ∧ Forall (λ c, (c =? LF)%Z = false) f) = true →
  head_not is_whitespace f → ends_plain f → fmtp_ok f.
Proof. intros (Hne & Hc & Hl)%bool_decide_eq_true. by repeat split. Qed.
Lemma sample_offer_ok : sdp_ok sample_offer.
Proof.
  constructor; cbn [session_id session_version origin_username connection_addr media_port codecs ptime sample_offer].
  - unfold u64_max. lia.
  - unfold u64_max. lia.
  - split; plain_lit.
  - split; plain_lit.
  - unfold u16_max. lia.
  - done.
  - repeat (apply Forall_cons_2; [constructor; cbn; [lia|done|try lia; exact I|
      first [exact I|apply fmtp_ok_text; vm_compute; reflexivity]]|]). apply Forall_nil_2.
  - plain_lit.
  - exact I.
Qed.
Lemma answer_sound_witness :
  let answer := build_sdp_answer_with_params 1 2 sample_params sample_offer (lit "10.0.0.2") Ip4 40000 in
  (sc_payload_type <$> (default sample_offer (res_ok answer)).(codecs)) = [96; 0]%Z ∧
  match answer with
  | Ok d => parse_audio_sdp (utf8_encode (to_sdp d)) = Ok d ∧ direction d = RecvOnly
  | _ => False
  end.
Proof.
  pose proof (answer_sound 1 2 sample_params sample_offer (lit "10.0.0.2") Ip4 40000 sample_offer_ok) as H.
  cbv zeta. split; [vm_compute; reflexivity|].
  assert (∃ d, build_sdp_answer_with_params 1 2 sample_params sample_offer (lit "10.0.0.2") Ip4 40000 = Ok d ∧ direction d = RecvOnly)
    as (d & Hd & Hdir) by (eexists; split; vm_compute; reflexivity).
  rewrite Hd in H |- *. split; [|exact Hdir]. apply H; [plain_lit|plain_lit|unfold u16_max; lia|unfold u16_max; cbn; lia].
Defined.
Definition sample_policies : VoiceParams :=
  mkVoiceParams [] [mkPolicy Amr None None None; mkPolicy AmrWb (Some 96%Z) None None; mkPolicy Pcma (Some 7%Z) None None;
                    mkPolicy Evs (Some 96%Z) None None; mkPolicy Opus None (Some 8000%Z) None; mkPolicy Pcmu None None None]
    20 true true false [] [] [].
Lemma codec_offer_sound_witness :
  sc_payload_type <$> build_codec_offer_with_params sample_policies = [97; 96; 0]%Z ∧
  96%Z ∈ sc_payload_type <$> build_codec_offer_with_params sample_policies.
Proof.
  split; [vm_compute; reflexivity|].
  apply (codec_offer_sound sample_policies) with (p := mkPolicy Evs (Some 96%Z) None None).
  - do 3 right. left.
  - split; [reflexivity|]. split; [split; vm_compute; discriminate|reflexivity].
Defined.
