(* ===== verification/Rtp.v ===== *)
(** * Voice: RTP packets, AMR payloads and the media relay

    The RTP codec and the AMR framing of [connectivity/core/voice.rs], the relay
    core of [connectivity/core/media.rs] with the loop around it, and the video
    relay of [ims_video.rs].  A reader that returns [None] ends in [Err tt]; the
    relay is driven by the events its loop selects on, and what it sends,
    counts and logs is its output.  The theorems: packets are read back, the
    reader is total, the compound reader accepts exactly the compounds, and in
    every run the relay sends what an abstract account of the history says. *)
From Stdlib Require Import Ascii String ZArith Lia.
From stdpp Require Import prelude.
From S2P Require Import Prelude Text Bytes Stun SipFrame VoiceSdp.
Local Open Scope Z_scope.

(** ** RTP packets *)
Record RtpPacket := mkRtp {
  payload_type : Z;
  marker : bool;
  sequence : Z;
  timestamp : Z;
  ssrc : Z;
  payload : list Z;
}.
#[export] Instance RtpPacket_eq_dec : EqDecision RtpPacket.
Proof. solve_decision. Defined.
Definition rtp_encode (p : RtpPacket) : list Z :=
  0x80 :: Z.lor (if marker p then 0x80 else 0) (Z.land (payload_type p) 0x7f)
    :: be_bytes 2 (sequence p) ++ be_bytes 4 (timestamp p) ++ be_bytes 4 (ssrc p) ++ payload p.
(** The end of the headers: contributing sources and the extension. *)
Definition rtp_offset (b0 : Z) (bytes : list Z) : res unit nat :=
  let offset := (12 + Z.to_nat (Z.land b0 0x0f) * 4)%nat in
  _ ← fail_if (length bytes <? offset)%nat tt;
  if negb (Z.land b0 0x10 =? 0) then
    _ ← fail_if (length bytes <? offset + 4)%nat tt;
    ext ← slice bytes (offset + 2) (offset + 4);
    let offset := (offset + 4 + Z.to_nat (of_be_bytes ext) * 4)%nat in
    _ ← fail_if (length bytes <? offset)%nat tt;
    Ok offset
  else Ok offset.
(** The end of the payload: the padding, where it fits. *)
Definition rtp_end (b0 : Z) (offset : nat) (bytes : list Z) : res unit nat :=
  let payload_end := length bytes in
  if negb (Z.land b0 0x20 =? 0) && (offset <? payload_end)%nat then
    pad ← idx bytes (payload_end - 1);
    Ok (if pad <=? Z.of_nat (payload_end - offset) then (payload_end - Z.to_nat pad)%nat else payload_end)
  else Ok payload_end.
Definition rtp_payload (b0 : Z) (bytes : list Z) : res unit (list Z) :=
  offset ← rtp_offset b0 bytes;
  payload_end ← rtp_end b0 offset bytes;
  slice bytes offset payload_end.
Definition rtp_parse (bytes : list Z) : res unit RtpPacket :=
  _ ← fail_if (length bytes <? 12)%nat tt;
  b0 ← idx bytes 0;
  _ ← fail_if (negb (Z.shiftr b0 6 =? 2)) tt;
  b1 ← idx bytes 1;
  seq ← slice bytes 2 4;
  ts ← slice bytes 4 8;
  src ← slice bytes 8 12;
  body ← rtp_payload b0 bytes;
  Ok (mkRtp (Z.land b1 0x7f) (negb (Z.land b1 0x80 =? 0)) (of_be_bytes seq) (of_be_bytes ts) (of_be_bytes src) body).

(** ** AMR payloads *)
Definition build_amr_rtp_payload (frame_type : Z) (speech_bits : list Z) (octet_aligned : bool) : list Z :=
  if octet_aligned then
    0xf0 :: Z.lor (Z.shiftl (Z.land frame_type 0x0f) 3) 0x04 :: speech_bits
  else
    Z.lor 0xf0 (Z.land (Z.shiftr frame_type 1) 0x0f)
      :: Z.lor (Z.shiftl (Z.land frame_type 0x01) 7) 0x40 :: speech_bits.
Definition parse_amr_frame_type (pl : list Z) (octet_aligned : bool) : res unit Z :=
  if octet_aligned then
    toc ← ok_or tt (pl !! 1%nat);
    Ok (Z.land (Z.shiftr toc 3) 0x0f)
  else
    _ ← fail_if (length pl <? 2)%nat tt;
    p0 ← idx pl 0;
    p1 ← idx pl 1;
    Ok (Z.lor (Z.shiftl (Z.land p0 0x0f) 1) (Z.land (Z.shiftr p1 7) 0x01)).

(** ** The relay core *)
Inductive RelayLeg := Operator | Internal.
#[export] Instance RelayLeg_eq_dec : EqDecision RelayLeg.
Proof. solve_decision. Defined.
Record MediaRelayPolicy := mkRelayPolicy { operator_to_internal_rtp : bool; internal_to_operator_rtp : bool }.
Definition bidirectional : MediaRelayPolicy := mkRelayPolicy true true.
Definition from_directions (operator internal : MediaDirection) : MediaRelayPolicy :=
  mkRelayPolicy (allows_send operator && allows_receive internal) (allows_send internal && allows_receive operator).
Definition allows_rtp_from (p : MediaRelayPolicy) (leg : RelayLeg) : bool :=
  match leg with Operator => operator_to_internal_rtp p | Internal => internal_to_operator_rtp p end.
Inductive MediaDatagramKind := Rtp | RtcpMux | Opaque.
#[export] Instance MediaDatagramKind_eq_dec : EqDecision MediaDatagramKind.
Proof. solve_decision. Defined.
Definition peer (leg : RelayLeg) : RelayLeg := match leg with Operator => Internal | Internal => Operator end.
Definition relay_leg_as_str (leg : RelayLeg) : str :=
  match leg with Operator => lit "operator" | Internal => lit "internal" end.
Record LegEndpoint := mkLeg { remote : option SocketAddr; latch : bool; packets : Z; byte_count : Z }.
Definition leg_endpoint_new (r : option SocketAddr) (l : bool) : LegEndpoint := mkLeg r l 0 0.
Record ForwardDecision := mkDecision {
  fd_to : RelayLeg; fd_dest : SocketAddr; fd_kind : MediaDatagramKind; rewrite_payload_type : option Z }.
Record PayloadTypeMapping := mkMapping { pm_operator : Z; pm_internal : Z }.
Inductive RelayError := PeerAddressUnknown | NotRtp.
Record RtpRelayCore := mkCore {
  core_operator : LegEndpoint;
  core_internal : LegEndpoint;
  require_rtp : bool;
  payload_type_mappings : list PayloadTypeMapping;
}.
Definition core_new (o i : LegEndpoint) : RtpRelayCore := mkCore o i true [].
Definition with_require_rtp (require : bool) (c : RtpRelayCore) : RtpRelayCore :=
  mkCore (core_operator c) (core_internal c) require (payload_type_mappings c).
Definition with_payload_type_mapping (c : RtpRelayCore) (o i : Z) : RtpRelayCore :=
  if (o <=? 0x7f) && (i <=? 0x7f)
  then mkCore (core_operator c) (core_internal c) (require_rtp c) (payload_type_mappings c ++ [mkMapping o i])
  else c.
Definition core_leg (c : RtpRelayCore) (leg : RelayLeg) : LegEndpoint :=
  match leg with Operator => core_operator c | Internal => core_internal c end.
Definition set_leg (leg : RelayLeg) (e : LegEndpoint) (c : RtpRelayCore) : RtpRelayCore :=
  match leg with
  | Operator => mkCore e (core_internal c) (require_rtp c) (payload_type_mappings c)
  | Internal => mkCore (core_operator c) e (require_rtp c) (payload_type_mappings c)
  end.
Definition core_remote (c : RtpRelayCore) (leg : RelayLeg) : option SocketAddr := remote (core_leg c leg).
Definition counters (c : RtpRelayCore) (leg : RelayLeg) : Z * Z := (packets (core_leg c leg), byte_count (core_leg c leg)).

(** [is_rtcp_mux_datagram]: a step of the loop consumes at least four bytes, so the
    length of the datagram is fuel enough. *)
Fixpoint rtcp_loop (fuel : nat) (datagram : list Z) (offset : nat) : res unit bool :=
  if negb (offset <? length datagram)%nat then Ok (negb (bool_decide (datagram = []))) else
  match fuel with
  | O => Panic
  | S fuel =>
    match get_range datagram offset (offset + 4) with
    | None => Ok false
    | Some header =>
      h0 ← idx header 0; h1 ← idx header 1;
      if negb (Z.shiftr h0 6 =? 2) || negb (in_range 192 223 h1) then Ok false else
      h2 ← idx header 2; h3 ← idx header 3;
      let next := (offset + (Z.to_nat (of_be_bytes [h2; h3]) + 1) * 4)%nat in
      if (length datagram <? next)%nat then Ok false else rtcp_loop fuel datagram next
    end
  end.
Definition is_rtcp_mux_datagram (datagram : list Z) : res unit bool := rtcp_loop (length datagram) datagram 0.

Definition rewrite_rtp_payload_type (datagram : list Z) (pt : Z) : res unit (list Z) :=
  _ ← fail_if (0x7f <? pt) tt;
  _ ← rtp_parse datagram;
  b1 ← idx datagram 1;
  Ok (<[1%nat := Z.lor (Z.land b1 0x80) pt]> datagram).

(** The kind of a datagram, or the error that drops it. *)
Definition classify (require : bool) (datagram : list Z) : res RelayError MediaDatagramKind :=
  match is_rtcp_mux_datagram datagram with
  | Ok true => Ok RtcpMux
  | Ok false | Err _ =>
    match rtp_parse datagram with
    | Ok _ => Ok Rtp
    | Err _ => if require then Err NotRtp else Ok Opaque
    | Panic => Panic
    end
  | Panic => Panic
  end.
Definition learn (src : SocketAddr) (datagram : list Z) (e : LegEndpoint) : LegEndpoint :=
  mkLeg (if latch e && negb (bool_decide (remote e = Some src)) then Some src else remote e) (latch e)
    (sat_add u64_max (packets e) 1) (sat_add u64_max (byte_count e) (Z.of_nat (length datagram))).
Definition mapped_type (leg : RelayLeg) (mappings : list PayloadTypeMapping) (current : Z) : option Z :=
  find_map (λ m, match leg with
    | Operator => if current =? pm_operator m then Some (pm_internal m) else None
    | Internal => if current =? pm_internal m then Some (pm_operator m) else None
    end) mappings.
Definition ingest (leg : RelayLeg) (src : SocketAddr) (datagram : list Z) (c : RtpRelayCore)
    : res RelayError ForwardDecision * RtpRelayCore :=
  match classify (require_rtp c) datagram with
  | Ok kind =>
    let c := set_leg leg (learn src datagram (core_leg c leg)) c in
    (match core_remote c (peer leg) with
     | None => Err PeerAddressUnknown
     | Some dest =>
       if bool_decide (kind = Rtp)
       then b1 ← idx datagram 1;
            Ok (mkDecision (peer leg) dest kind (mapped_type leg (payload_type_mappings c) (Z.land b1 0x7f)))
       else Ok (mkDecision (peer leg) dest kind None)
     end, c)
  | Err e => (Err e, c)
  | Panic => (Panic, c)
  end.

(** [VideoRelay]: a relay of its own for the video stream, and the video endpoint a
    trunk negotiated. *)
Record VideoRelay := mkVideoRelay { video_core : RtpRelayCore }.
Definition video_relay_new (o i : LegEndpoint) : VideoRelay := mkVideoRelay (core_new o i).
Definition video_ingest (leg : RelayLeg) (src : SocketAddr) (datagram : list Z) (r : VideoRelay)
    : res RelayError ForwardDecision * VideoRelay :=
  let '(result, c) := ingest leg src datagram (video_core r) in (result, mkVideoRelay c).
Record NegotiatedTrunkVideoSeam := mkSeam { internal_video_endpoint : option SocketAddr }.

(** ** The loop around the core *)
(** [forward_async]: the datagram given to the socket of the other leg, and the
    result; [sent_ok] says whether the socket accepts it. *)
Definition forward_async (leg : RelayLeg) (source : SocketAddr) (datagram : list Z) (allow_rtp sent_ok : bool)
    (c : RtpRelayCore) : option (list Z * SocketAddr) * res unit (option MediaDatagramKind) * RtpRelayCore :=
  let '(result, c) := ingest leg source datagram c in
  match result with
  | Panic => (None, Panic, c)
  | Err _ => (None, Ok None, c)
  | Ok decision =>
    let send bytes := (Some (bytes, fd_dest decision), if sent_ok then Ok (Some (fd_kind decision)) else Err tt, c) in
    if bool_decide (fd_kind decision = Rtp) && negb allow_rtp then (None, Ok None, c)
    else if bool_decide (fd_kind decision = Rtp) then
      match rewrite_payload_type decision with
      | Some pt =>
        match rewrite_rtp_payload_type datagram pt with
        | Ok rewritten => send rewritten
        | Err _ => (None, Ok (Some (fd_kind decision)), c)
        | Panic => (None, Panic, c)
        end
      | None => send datagram
      end
    else send datagram
  end.
(** [relay_once] of the blocking loop: what it receives, [None] when the socket timed out
    or failed, and what it gives to the other socket; the result of the send is ignored. *)
Definition relay_once (leg : RelayLeg) (received : option (SocketAddr * list Z)) (allow_rtp : bool)
    (c : RtpRelayCore) : res unit (option (list Z * SocketAddr)) * RtpRelayCore :=
  match received with
  | None => (Ok None, c)
  | Some (src, datagram) =>
    let '(result, c) := ingest leg src datagram c in
    (match result with
     | Panic => Panic
     | Err _ => Ok None
     | Ok decision =>
       if bool_decide (fd_kind decision = Rtp) && negb allow_rtp then Ok None
       else if bool_decide (fd_kind decision = Rtp) then
         match rewrite_payload_type decision with
         | Some pt =>
           match rewrite_rtp_payload_type datagram pt with
           | Ok rewritten => Ok (Some (rewritten, fd_dest decision))
           | Err _ => Ok None
           | Panic => Panic
           end
         | None => Ok (Some (datagram, fd_dest decision))
         end
       else Ok (Some (datagram, fd_dest decision))
     end, c)
  end.
Inductive RelayEvent :=
| StopChanged (stopped : bool)
| Received (leg : RelayLeg) (source : SocketAddr) (datagram : list Z) (sent_ok : bool)
| ReceiveFailed (leg : RelayLeg).
Inductive RelayOutput :=
| SendTo (to : RelayLeg) (datagram : list Z) (dest : SocketAddr)
| RtpToAsterisk (bytes : Z)
| RtpFromAsterisk (bytes : Z)
| FirstOperatorRtp
| SendFailureLogged (from : RelayLeg).
Record RelayState := mkRelay {
  relay_core : RtpRelayCore;
  operator_send_failed : bool;
  internal_send_failed : bool;
  relay_stopped : bool;
}.
Definition relay_step (policy : MediaRelayPolicy) (st : RelayState) (ev : RelayEvent) : RelayState * list RelayOutput :=
  if relay_stopped st then (st, []) else
  match ev with
  | StopChanged stopped =>
    (mkRelay (relay_core st) (operator_send_failed st) (internal_send_failed st) stopped, [])
  | ReceiveFailed _ => (mkRelay (relay_core st) (operator_send_failed st) (internal_send_failed st) true, [])
  | Received leg source datagram sent_ok =>
    let '(out, result, c) := forward_async leg source datagram (allows_rtp_from policy leg) sent_ok (relay_core st) in
    let sent := match out with Some (d, dest) => [SendTo (peer leg) d dest] | None => [] end in
    let len := Z.of_nat (length datagram) in
    let failed := match leg with Operator => internal_send_failed st | Internal => operator_send_failed st end in
    let set_failed f := match leg with
      | Operator => mkRelay c (operator_send_failed st) f false
      | Internal => mkRelay c f (internal_send_failed st) false
      end in
    match result with
    | Ok (Some Rtp) => (set_failed false, sent ++
        match leg with Operator => [RtpToAsterisk len; FirstOperatorRtp] | Internal => [RtpFromAsterisk len] end)
    | Ok _ => (set_failed false, sent)
    | Err _ => (set_failed true, sent ++ if failed then [] else [SendFailureLogged leg])
    | Panic => (mkRelay c (operator_send_failed st) (internal_send_failed st) true, sent)
    end
  end.
Fixpoint relay_run (policy : MediaRelayPolicy) (st : RelayState) (events : list RelayEvent)
    : RelayState * list RelayOutput :=
  match events with
  | [] => (st, [])
  | ev :: events =>
    let '(st, out) := relay_step policy st ev in
    let '(st, outs) := relay_run policy st events in
    (st, out ++ outs)
  end.
(** [activate_with_metrics_and_policy] *)
Definition activate (operator_remote internal_remote : SocketAddr) (mappings : list PayloadTypeMapping) : RelayState :=
  mkRelay (foldl (λ c m, with_payload_type_mapping c (pm_operator m) (pm_internal m))
      (core_new (leg_endpoint_new (Some operator_remote) true) (leg_endpoint_new (Some internal_remote) true)) mappings)
    false false false.

(** The blocking loop forwards what the asynchronous one forwards, from the same state. *)
Lemma relay_once_forwards leg src datagram allow_rtp sent_ok c :
  let '(out, result, c') := forward_async leg src datagram allow_rtp sent_ok c in
  relay_once leg (Some (src, datagram)) allow_rtp c = (match result with Panic => Panic | _ => Ok out end, c').
Proof.
  unfold relay_once, forward_async. destruct (ingest _ _ _ _) as [[d|e|] c']; [|done|done].
  destruct (bool_decide _ && _); [done|]. destruct (bool_decide _); [|by destruct sent_ok].
  destruct (rewrite_payload_type d); [|by destruct sent_ok]. destruct (rewrite_rtp_payload_type _ _); [by destruct sent_ok|done|done].
Qed.

(** * Packets *)
Lemma rtp_offset_range b0 bytes o : rtp_offset b0 bytes = Ok o → (12 ≤ o ≤ length bytes)%nat.
Proof. unfold rtp_offset. intros H. rust_inv. destruct (negb _); rust_inv; bool_prop; lia. Qed.
Lemma rtp_end_range b0 o bytes e : (o ≤ length bytes)%nat → rtp_end b0 o bytes = Ok e → (o ≤ e ≤ length bytes)%nat.
Proof.
  intros Ho. unfold rtp_end. destruct (negb _ && _); intros H; rust_inv; [|lia].
  destruct (Z.leb_spec x (Z.of_nat (length bytes - o))); lia.
Qed.
Lemma no_panic_rtp_payload b0 bytes : no_panic (rtp_payload b0 bytes).
Proof.
  unfold rtp_payload. apply no_panic_bind; [unfold rtp_offset; np|]. intros o Ho%rtp_offset_range.
  apply no_panic_bind; [unfold rtp_end; np|]. intros e He%rtp_end_range; [|lia]. apply no_panic_slice; lia.
Qed.
Lemma no_panic_rtp_parse bytes : no_panic (rtp_parse bytes).
Proof. unfold rtp_parse. np. apply no_panic_rtp_payload. Qed.

Record rtp_ok (p : RtpPacket) : Prop := {
  rk_type : 0 ≤ payload_type p < 128;
  rk_sequence : 0 ≤ sequence p < 2 ^ 16;
  rk_timestamp : 0 ≤ timestamp p < 2 ^ 32;
  rk_ssrc : 0 ≤ ssrc p < 2 ^ 32;
  rk_payload : bytes_ok (payload p);
}.
Lemma type_byte (m : bool) t : 0 ≤ t < 128 →
  let b := Z.lor (if m then 0x80 else 0) (Z.land t 0x7f) in
  Z.land b 0x7f = t ∧ negb (Z.land b 0x80 =? 0) = m.
Proof.
  intros Ht. assert (Z.land t 127 = t) as ->.
  { change 127 with (Z.ones 7). rewrite Z.land_ones by lia. apply Z.mod_small. change (2 ^ 7) with 128. lia. }
  assert (Z.land t 128 = 0) as H128.
  { change 128 with (Z.shiftl 1 7). apply Z.bits_inj'. intros i Hi. rewrite Z.land_spec, Z.bits_0, Z.shiftl_spec by lia.
    destruct (decide (i < 7)); [rewrite (Z.testbit_neg_r 1) by lia; apply andb_false_r|].
    destruct (decide (t = 0)) as [->|]; [by rewrite Z.testbit_0_l|].
    rewrite (Z.bits_above_log2 t); [done|lia|]. apply Z.log2_lt_pow2; [lia|].
    eapply Z.lt_le_trans; [apply Ht|]. change 128 with (2 ^ 7). apply Z.pow_le_mono_r; lia. }
  cbv zeta. rewrite !Z.land_lor_distr_l, H128.
  assert (Z.land t 127 = t) as ->.
  { change 127 with (Z.ones 7). rewrite Z.land_ones by lia. apply Z.mod_small. change (2 ^ 7) with 128. lia. }
  destruct m; cbn; by rewrite ?Z.lor_0_r.
Qed.
Lemma rtp_parse_encode p : rtp_ok p → rtp_parse (rtp_encode p) = Ok p.
Proof.
  intros [Ht Hs Hts Hss _]. unfold rtp_encode. destruct (type_byte (marker p) (payload_type p) Ht) as [H1 H2].
  set (b1 := Z.lor _ _) in *. unfold rtp_parse.
  set (bytes := _ :: _ :: _).
  assert (length bytes = 12 + length (payload p))%nat as Hlen.
  { unfold bytes. cbn [length]. rewrite !length_app, !length_be_bytes. lia. }
  rewrite (proj2 (Nat.ltb_ge _ _)) by lia.
  assert (∀ l k r a b, bytes = l ++ k ++ r → a = length l → b = (a + length k)%nat →
    slice (E:=unit) bytes a b = Ok k) as Hslice by (intros l k r a b -> -> ->; by apply slice_app).
  rewrite (Hslice [0x80; b1] (be_bytes 2 (sequence p)) (be_bytes 4 (timestamp p) ++ be_bytes 4 (ssrc p) ++ payload p) 2%nat 4%nat) by done.
  rewrite (Hslice ([0x80; b1] ++ be_bytes 2 (sequence p)) (be_bytes 4 (timestamp p)) (be_bytes 4 (ssrc p) ++ payload p) 4%nat 8%nat)
    by (rewrite <-?app_assoc; done).
  rewrite (Hslice ([0x80; b1] ++ be_bytes 2 (sequence p) ++ be_bytes 4 (timestamp p)) (be_bytes 4 (ssrc p)) (payload p) 8%nat 12%nat)
    by (rewrite <-?app_assoc; done).
  change (idx bytes 0) with (@Ok unit Z 0x80). change (idx bytes 1) with (@Ok unit Z b1).
  cbn [fail_if mbind res_bind negb Z.shiftr Z.shiftl Pos.iter Z.div2 Z.eqb Pos.eqb].
  assert (rtp_payload 0x80 bytes = Ok (payload p)) as ->.
  { unfold rtp_payload, rtp_offset, rtp_end. change (Z.land 128 15) with 0. change (Z.land 128 16) with 0.
    change (Z.land 128 32) with 0. change (12 + Z.to_nat 0 * 4)%nat with 12%nat.
    rewrite (proj2 (Nat.ltb_ge (length bytes) 12)) by lia. cbn [fail_if mbind res_bind negb Z.eqb andb].
    apply (Hslice ([0x80; b1] ++ be_bytes 2 (sequence p) ++ be_bytes 4 (timestamp p) ++ be_bytes 4 (ssrc p)) (payload p) []);
      rewrite ?app_nil_r, <-?app_assoc; done. }
  cbn [mbind res_bind]. rewrite H1, H2, !of_be_bytes_be by done. by destruct p.
Qed.
Lemma rtp_parse_ok bytes p : bytes_ok bytes → rtp_parse bytes = Ok p →
  rtp_ok p ∧ (12 + length (payload p) ≤ length bytes)%nat.
Proof.
  intros Hb. unfold rtp_parse. intros H. apply bind_Ok in H as (u & _ & H).
  apply bind_Ok in H as (b0 & Hb0 & H). apply bind_Ok in H as (u' & _ & H). apply bind_Ok in H as (b1 & Hb1 & H).
  apply bind_Ok in H as (sq & Hsq & H). apply bind_Ok in H as (ts & Hts & H). apply bind_Ok in H as (src & Hsrc & H).
  apply bind_Ok in H as (body & Hbody & H). apply Ok_inj in H as <-.
  apply (slice_bytes bytes) in Hsq as [Hsq Hlq], Hts as [Hts Hlt], Hsrc as [Hsrc Hls]; [|done..].
  apply idx_byte in Hb1; [|done].
  pose proof (of_be_bytes_range sq Hsq) as H1. pose proof (of_be_bytes_range ts Hts) as H2.
  pose proof (of_be_bytes_range src Hsrc) as H3. rewrite Hlq in H1. rewrite Hlt in H2. rewrite Hls in H3.
  unfold rtp_payload in Hbody. apply bind_Ok in Hbody as (o & Ho%rtp_offset_range & Hbody).
  apply bind_Ok in Hbody as (e & He%rtp_end_range & Hbody); [|lia].
  apply (slice_bytes bytes) in Hbody as [Hbody Hlb]; [|done].
  split; [|cbn; lia]. constructor; cbn [payload_type sequence timestamp ssrc payload]; [|exact H1|exact H2|exact H3|done].
  change 127 with (Z.ones 7). rewrite Z.land_ones by lia. apply Z.mod_pos_bound. lia.
Qed.

(** the RTP codec.  A packet whose fields fit the header is read back as it
    was written; the reader never panics, whatever the datagram says about its
    sources, extension and padding; and what it accepts fits the header and lies
    within the datagram. *)
Theorem rtp_codec_exact :
  (∀ p, rtp_ok p → rtp_parse (rtp_encode p) = Ok p) ∧
  (∀ bytes, no_panic (rtp_parse bytes)) ∧
  (∀ bytes p, bytes_ok bytes → rtp_parse bytes = Ok p →
    rtp_parse (rtp_encode p) = Ok p ∧ (12 + length (payload p) ≤ length bytes)%nat).
Proof.
  split; [exact rtp_parse_encode|]. split; [exact no_panic_rtp_parse|].
  intros bytes p Hb Hp. destruct (rtp_parse_ok bytes p Hb Hp) as [Hok Hlen]. split; [by apply rtp_parse_encode|done].
Qed.

(** * AMR *)
Lemma byte_cases (P : Z → Prop) : (∀ n, (n < 256)%nat → P (Z.of_nat n)) → ∀ z, 0 ≤ z < 256 → P z.
Proof. intros H z Hz. rewrite <-(Z2Nat.id z) by lia. apply H. lia. Qed.
(** The frame type is read back in both layouts: in four bits when the payload is
    aligned to octets, in five when it is not. *)
Lemma amr_frame_type_read_back ft bits octet_aligned : 0 ≤ ft < 256 →
  parse_amr_frame_type (build_amr_rtp_payload ft bits octet_aligned) octet_aligned
    = Ok (ft mod (if octet_aligned then 16 else 32)).
Proof.
  intros Hft. unfold build_amr_rtp_payload, parse_amr_frame_type.
  destruct octet_aligned.
  - change (((?a :: ?b :: bits) !! 1%nat)) with (Some b). cbn [ok_or mbind res_bind]. f_equal.
    revert ft Hft. apply (byte_cases (λ ft, _ = _)). intros n Hn.
    do 256 (destruct n as [|n]; [vm_compute; reflexivity|]). lia.
  - cbn [length Nat.ltb Nat.leb fail_if mbind res_bind idx lookup list_lookup]. f_equal.
    revert ft Hft. apply (byte_cases (λ ft, _ = _)). intros n Hn.
    do 256 (destruct n as [|n]; [vm_compute; reflexivity|]). lia.
Qed.

(** * RTCP compounds *)
Definition rtcp_packet (p : list Z) : Prop :=
  ∃ b0 b1 b2 b3 rest, p = b0 :: b1 :: b2 :: b3 :: rest ∧ Z.shiftr b0 6 = 2 ∧ 192 ≤ b1 ≤ 223 ∧
    length p = ((Z.to_nat (of_be_bytes [b2; b3]) + 1) * 4)%nat.
Definition rtcp_compound (d : list Z) : Prop := d ≠ [] ∧ ∃ ps, Forall rtcp_packet ps ∧ d = concat ps.
Lemma rtcp_packet_head p q : rtcp_packet p → ∃ b0 b1 b2 b3 rest, p ++ q = b0 :: b1 :: b2 :: b3 :: rest ∧
  Z.shiftr b0 6 = 2 ∧ 192 ≤ b1 ≤ 223 ∧ length p = ((Z.to_nat (of_be_bytes [b2; b3]) + 1) * 4)%nat.
Proof. intros (b0 & b1 & b2 & b3 & rest & -> & H). by exists b0, b1, b2, b3, (rest ++ q). Qed.
(** One step of the loop: the header at the offset, and what it announces. *)
Lemma rtcp_step fuel d o : (o < length d)%nat → rtcp_loop (S fuel) d o =
  match drop o d with
  | b0 :: b1 :: b2 :: b3 :: _ =>
    if negb (Z.shiftr b0 6 =? 2) || negb (in_range 192 223 b1) then Ok false else
    let next := (o + (Z.to_nat (of_be_bytes [b2; b3]) + 1) * 4)%nat in
    if (length d <? next)%nat then Ok false else rtcp_loop fuel d next
  | _ => Ok false
  end.
Proof.
  intros Ho. cbn [rtcp_loop]. rewrite (proj2 (Nat.ltb_lt _ _)) by done. cbn [negb].
  assert (length (drop o d) = length d - o)%nat as Hl by apply length_drop.
  destruct (get_range d o (o + 4)) as [h|] eqn:Hh.
  - apply get_range_Some in Hh as (_ & Hle & ->). replace (o + 4 - o)%nat with 4%nat by lia.
    destruct (drop o d) as [|b0 [|b1 [|b2 [|b3 rest]]]]; simpl in Hl; [lia..|].
    cbn [take idx lookup list_lookup mbind res_bind]. destruct (_ || _); [done|]. done.
  - assert (¬ (o + 4 ≤ length d)%nat) as Hn.
    { intros Hle. unfold get_range in Hh. rewrite !(proj2 (Nat.leb_le _ _)) in Hh by lia. done. }
    destruct (drop o d) as [|b0 [|b1 [|b2 [|b3 rest]]]]; simpl in Hl; [done..|lia].
Qed.
(** At the end of the datagram nothing is left to cut. *)
Lemma rtcp_done fuel d : d ≠ [] → rtcp_loop fuel d (length d) = Ok true.
Proof. intros Hd. destruct fuel; simpl; rewrite Nat.ltb_irrefl; simpl; by rewrite bool_decide_eq_false_2. Qed.
(** What a decomposition of the rest says of the header at the offset. *)
Lemma rtcp_uncons d o ps : (o < length d)%nat → Forall rtcp_packet ps → drop o d = concat ps →
  ∃ b0 b1 b2 b3 rest ps', drop o d = b0 :: b1 :: b2 :: b3 :: rest ∧ Z.shiftr b0 6 = 2 ∧ 192 ≤ b1 ≤ 223 ∧
    (o + (Z.to_nat (of_be_bytes [b2; b3]) + 1) * 4 ≤ length d)%nat ∧ Forall rtcp_packet ps' ∧
    drop (o + (Z.to_nat (of_be_bytes [b2; b3]) + 1) * 4) d = concat ps'.
Proof.
  intros Ho Hps Heq. pose proof (length_drop d o) as Hl. destruct Hps as [|p ps Hp Hps].
  { rewrite Heq in Hl. simpl in Hl. lia. }
  destruct (rtcp_packet_head p (concat ps) Hp) as (b0 & b1 & b2 & b3 & rest & Hc & Hv & Hr & Hlen).
  exists b0, b1, b2, b3, rest, ps. split; [by rewrite Heq|]. split; [done|]. split; [done|]. rewrite <-Hlen.
  rewrite Heq in Hl. simpl in Hl. rewrite length_app in Hl. split; [lia|]. split; [done|].
  rewrite <-drop_drop, Heq. simpl. by rewrite drop_app_length.
Qed.
(** The converse: a header that fits, and a decomposition of what follows. *)
Lemma rtcp_cons d o b0 b1 b2 b3 rest ps : drop o d = b0 :: b1 :: b2 :: b3 :: rest →
  Z.shiftr b0 6 = 2 → 192 ≤ b1 ≤ 223 → (o + (Z.to_nat (of_be_bytes [b2; b3]) + 1) * 4 ≤ length d)%nat →
  Forall rtcp_packet ps → drop (o + (Z.to_nat (of_be_bytes [b2; b3]) + 1) * 4) d = concat ps →
  ∃ ps, Forall rtcp_packet ps ∧ drop o d = concat ps.
Proof.
  intros Hdrop Hv Hr Hlen Hps Heq. set (m := (Z.to_nat (of_be_bytes [b2; b3]) * 4)%nat).
  replace (o + _)%nat with (o + (4 + m))%nat in Hlen, Heq by lia.
  exists (take (4 + m) (drop o d) :: ps). cbn [concat]. rewrite <-Heq, <-drop_drop, take_drop. split; [|done].
  constructor; [|done]. exists b0, b1, b2, b3, (take m rest). rewrite Hdrop. split; [done|]. split; [done|]. split; [done|].
  rewrite <-Hdrop, length_take, length_drop. unfold m. lia.
Qed.
Lemma rtcp_loop_exact fuel d o : d ≠ [] → (o ≤ length d)%nat → (length d - o ≤ fuel)%nat →
  ∃ b, rtcp_loop fuel d o = Ok b ∧ (b = true ↔ ∃ ps, Forall rtcp_packet ps ∧ drop o d = concat ps).
Proof.
  intros Hd. revert o. induction fuel as [|fuel IH]; intros o Ho Hf; (destruct (decide (o = length d)) as [->|Hne];
    [exists true; split; [by apply rtcp_done|]; split; [|done]; intros _; exists []; by rewrite drop_all|]); [lia|].
  rewrite rtcp_step by lia.
  assert (∀ P : Prop, (P → (∃ ps, Forall rtcp_packet ps ∧ drop o d = concat ps) → False) → P →
    ∃ b, @Ok unit bool false = Ok b ∧ (b = true ↔ ∃ ps, Forall rtcp_packet ps ∧ drop o d = concat ps)) as Hno.
  { intros P HP H. exists false. split; [done|]. split; [done|]. intros Hex. by destruct (HP H Hex). }
  destruct (drop o d) as [|b0 [|b1 [|b2 [|b3 rest]]]] eqn:Hdrop;
    try (apply (Hno True); [intros _ (ps & Hps & Heq); rewrite <-Hdrop in Heq;
         destruct (rtcp_uncons d o ps) as (?&?&?&?&?&?&Hc&_); [lia|done|done|congruence]|done]).
  assert (∀ ps, Forall rtcp_packet ps → b0 :: b1 :: b2 :: b3 :: rest = concat ps →
    Z.shiftr b0 6 = 2 ∧ 192 ≤ b1 ≤ 223 ∧ (o + (Z.to_nat (of_be_bytes [b2; b3]) + 1) * 4 ≤ length d)%nat ∧
    ∃ ps', Forall rtcp_packet ps' ∧ drop (o + (Z.to_nat (of_be_bytes [b2; b3]) + 1) * 4) d = concat ps') as Hback.
  { intros ps Hps Heq. rewrite <-Hdrop in Heq.
    destruct (rtcp_uncons d o ps) as (?&?&?&?&?&ps'&Hc&H); [lia|done|done|]. rewrite Hdrop in Hc. simplify_eq.
    destruct H as (?&?&?&?&?). eauto 6. }
  cbv zeta. destruct (Z.eqb_spec (Z.shiftr b0 6) 2) as [Hv|Hv]; cbn [negb orb].
  2:{ apply (Hno _ (λ H '(ex_intro _ ps (conj Hps Heq)), H (proj1 (Hback ps Hps Heq))) Hv). }
  destruct (in_range 192 223 b1) eqn:Hr; cbn [negb].
  2:{ apply in_range_false in Hr. apply (Hno _ (λ H '(ex_intro _ ps (conj Hps Heq)), ltac:(destruct (Hback ps Hps Heq) as (_&?&_); lia)) Hr). }
  apply in_range_true in Hr. destruct (Nat.ltb_spec (length d) (o + (Z.to_nat (of_be_bytes [b2; b3]) + 1) * 4)) as [Hn|Hn].
  { apply (Hno _ (λ H '(ex_intro _ ps (conj Hps Heq)), ltac:(destruct (Hback ps Hps Heq) as (_&_&?&_); lia)) Hn). }
  destruct (IH _ Hn) as (b & Hb & Hiff); [lia|]. exists b. split; [done|]. rewrite Hiff. split.
  - intros (ps & Hps & Heq). rewrite <-Hdrop. by eapply rtcp_cons.
  - intros (ps & Hps & Heq). apply (Hback ps Hps Heq).
Qed.

Lemma no_panic_rtcp d : no_panic (is_rtcp_mux_datagram d).
Proof.
  destruct (decide (d = [])) as [->|Hd]; [done|]. destruct (rtcp_loop_exact (length d) d 0 Hd) as (b & Hb & _); [lia|lia|].
  unfold is_rtcp_mux_datagram. by rewrite Hb.
Qed.

(** the reader of RTCP on the media port ends on every datagram and accepts
    exactly the compounds: one or more packets, each of version 2 with a type from
    192 to 223 and as long as its own length field says, and nothing after them. *)
Theorem rtcp_mux_exact d :
  ∃ b, is_rtcp_mux_datagram d = Ok b ∧ (b = true ↔ rtcp_compound d).
Proof.
  destruct (decide (d = [])) as [->|Hd].
  { exists false. split; [done|]. split; [done|]. by intros []. }
  destruct (rtcp_loop_exact (length d) d 0 Hd) as (b & Hb & Hiff); [lia|lia|].
  exists b. split; [done|]. rewrite Hiff, drop_0. unfold rtcp_compound. split; [done|by intros []].
Qed.

(** * Rewriting the payload type *)
Lemma slice_second {E} (x y z : Z) l a b : (2 ≤ a)%nat → slice (E:=E) (x :: y :: l) a b = slice (x :: z :: l) a b.
Proof. intros Ha. destruct a as [|[|a]]; [lia..|]. done. Qed.
Lemma idx_second {E} (x y z : Z) l i : (2 ≤ i)%nat → idx (E:=E) (x :: y :: l) i = idx (x :: z :: l) i.
Proof. intros Hi. destruct i as [|[|i]]; [lia..|]. done. Qed.
Lemma rtp_payload_second b0 x y z l : rtp_payload b0 (x :: y :: l) = rtp_payload b0 (x :: z :: l).
Proof.
  unfold rtp_payload. assert (rtp_offset b0 (x :: y :: l) = rtp_offset b0 (x :: z :: l)) as ->.
  { unfold rtp_offset. cbn [length]. destruct (fail_if _ _); cbn [mbind res_bind]; [|done|done]. destruct (negb _); [|done].
    destruct (fail_if _ _); cbn [mbind res_bind]; [|done|done]. by rewrite (slice_second x y z) by lia. }
  destruct (rtp_offset b0 (x :: z :: l)) as [o|e|] eqn:Ho; cbn [mbind res_bind]; [|done|done].
  apply rtp_offset_range in Ho. cbn [length] in Ho.
  assert (rtp_end b0 o (x :: y :: l) = rtp_end b0 o (x :: z :: l)) as ->.
  { unfold rtp_end. cbn [length]. destruct (negb _ && _) eqn:Hc; [|done]. by rewrite (idx_second x y z) by lia. }
  destruct (rtp_end _ _ _); cbn [mbind res_bind]; [|done|done]. apply slice_second. lia.
Qed.
Lemma rtp_parse_long bytes p : rtp_parse bytes = Ok p → (12 ≤ length bytes)%nat.
Proof. unfold rtp_parse. intros (?&H&_)%bind_Ok. apply fail_if_Ok in H. by apply Nat.ltb_ge in H. Qed.
(** The reader sees the second octet only in the marker and the payload type. *)
Lemma rtp_parse_second b0 b1 c l p : rtp_parse (b0 :: b1 :: l) = Ok p →
  rtp_parse (b0 :: c :: l) =
    Ok (mkRtp (Z.land c 0x7f) (negb (Z.land c 0x80 =? 0)) (sequence p) (timestamp p) (ssrc p) (payload p)) ∧
  payload_type p = Z.land b1 0x7f ∧ marker p = negb (Z.land b1 0x80 =? 0).
Proof.
  intros Hp. pose proof (rtp_parse_long _ _ Hp) as Hlen. revert Hp. unfold rtp_parse.
  rewrite !(slice_second b0 c b1) by lia.
  cbn [length] in Hlen |- *. rewrite (proj2 (Nat.ltb_ge _ _)) by lia.
  cbn [fail_if mbind res_bind idx lookup list_lookup]. rewrite (rtp_payload_second b0 b0 c b1).
  destruct (fail_if (negb (Z.shiftr b0 6 =? 2)) ()); cbn [mbind res_bind]; [|done|done].
  destruct (slice _ 2 4); cbn [mbind res_bind]; [|done|done].
  destruct (slice _ 4 8); cbn [mbind res_bind]; [|done|done].
  destruct (slice _ 8 12); cbn [mbind res_bind]; [|done|done].
  destruct (rtp_payload _ _); cbn [mbind res_bind]; [|done|done]. by intros [= <-].
Qed.
Lemma retyped_byte b t : 0 ≤ t < 128 →
  Z.land (Z.lor (Z.land b 0x80) t) 0x7f = t ∧ Z.land (Z.lor (Z.land b 0x80) t) 0x80 = Z.land b 0x80.
Proof.
  intros Ht. assert (Z.land t 127 = t) as H127.
  { change 127 with (Z.ones 7). rewrite Z.land_ones by lia. apply Z.mod_small. change (2 ^ 7) with 128. lia. }
  assert (Z.land t 128 = 0) as H128.
  { rewrite <-H127, <-Z.land_assoc. change (Z.land 127 128) with 0. apply Z.land_0_r. }
  rewrite !Z.land_lor_distr_l, <-!Z.land_assoc, H127, H128.
  change (Z.land 128 127) with 0. change (Z.land 128 128) with 128. by rewrite Z.land_0_r, Z.lor_0_l, Z.lor_0_r.
Qed.

(** Rewriting the payload type of a datagram succeeds exactly when it is an RTP
    packet and the type has seven bits; the result has the same length and reads
    as the same packet but for the type: marker, sequence number, timestamp,
    source and payload are untouched. *)
Theorem rewrite_keeps_packet datagram pt : 0 ≤ pt →
  match rewrite_rtp_payload_type datagram pt with
  | Ok out => ∃ p, rtp_parse datagram = Ok p ∧ length out = length datagram ∧
      rtp_parse out = Ok (mkRtp pt (marker p) (sequence p) (timestamp p) (ssrc p) (payload p))
  | Err _ => pt > 0x7f ∨ rtp_parse datagram = Err tt
  | Panic => False
  end.
Proof.
  intros Hpt. unfold rewrite_rtp_payload_type. destruct (Z.ltb_spec 0x7f pt); cbn [fail_if mbind res_bind]; [left; lia|].
  pose proof (no_panic_rtp_parse datagram) as Hnp.
  destruct (rtp_parse datagram) as [p|[]|] eqn:Hp; cbn [mbind res_bind]; [|by right|done].
  pose proof (rtp_parse_long _ _ Hp) as Hlen. destruct datagram as [|b0 [|b1 l]]; simpl in Hlen; [lia..|].
  cbn [idx lookup list_lookup mbind res_bind]. exists p. split; [done|]. rewrite length_insert. split; [done|].
  change (<[1%nat:=?c]> (b0 :: b1 :: l)) with (b0 :: c :: l).
  destruct (retyped_byte b1 pt) as [H1 H2]; [lia|].
  destruct (rtp_parse_second b0 b1 (Z.lor (Z.land b1 0x80) pt) l p Hp) as (-> & _ & ->). by rewrite H1, H2.
Qed.

(** * The formats of the media port *)
(** An RTP packet (RFC 3550, section 5.1): version 2, a fixed header, as many contributing
    sources as it counts, an extension as long as it says when the bit is set, the rest. *)
Definition rtp_extension (b0 : Z) (extension : list Z) : Prop :=
  if Z.land b0 0x10 =? 0 then extension = [] else
  ∃ e0 e1 l0 l1 words, extension = e0 :: e1 :: l0 :: l1 :: words ∧
    length words = (Z.to_nat (of_be_bytes [l0; l1]) * 4)%nat.
Definition rtp_format (d : list Z) : Prop :=
  ∃ b0 b1 fixed sources extension rest, d = b0 :: b1 :: fixed ++ sources ++ extension ++ rest ∧
    Z.shiftr b0 6 = 2 ∧ length fixed = 10%nat ∧ length sources = (Z.to_nat (Z.land b0 0x0f) * 4)%nat ∧
    rtp_extension b0 extension.
Lemma rtp_extension_fits b0 n d : length d = n →
  (∃ extension rest, d = extension ++ rest ∧ rtp_extension b0 extension) ↔
  (Z.land b0 0x10 ≠ 0 → (4 ≤ n ∧ 4 + Z.to_nat (of_be_bytes (take 2 (drop 2 d))) * 4 ≤ n)%nat).
Proof.
  intros <-. unfold rtp_extension. destruct (Z.eqb_spec (Z.land b0 0x10) 0) as [H0|H0].
  { split; [done|]. intros _. by exists [], d. }
  split.
  - intros (ext & rest & -> & e0 & e1 & l0 & l1 & words & -> & Hw) _. cbn [app drop take length]. rewrite take_0, length_app, Hw. lia.
  - intros H. specialize (H H0) as [H4 Hl]. destruct d as [|e0 [|e1 [|l0 [|l1 d]]]]; cbn [length] in *; try lia.
    cbn [drop take] in Hl. rewrite take_0 in Hl. set (k := (Z.to_nat (of_be_bytes [l0; l1]) * 4)%nat) in *.
    exists (e0 :: e1 :: l0 :: l1 :: take k d), (drop k d). cbn [app]. rewrite take_drop. split; [done|].
    exists e0, e1, l0, l1, (take k d). split; [done|]. rewrite length_take. lia.
Qed.
Lemma rtp_offset_Ok b0 d : (∃ o, rtp_offset b0 d = Ok o) ↔
  let o := (12 + Z.to_nat (Z.land b0 0x0f) * 4)%nat in
  (o ≤ length d)%nat ∧ (Z.land b0 0x10 ≠ 0 →
    (4 ≤ length d - o ∧ 4 + Z.to_nat (of_be_bytes (take 2 (drop 2 (drop o d)))) * 4 ≤ length d - o)%nat).
Proof.
  unfold rtp_offset. cbv zeta. set (o := (12 + _)%nat). rewrite drop_drop.
  destruct (Nat.ltb_spec (length d) o); cbn [fail_if mbind res_bind]; [split; [by intros []|lia]|].
  destruct (Z.eqb_spec (Z.land b0 0x10) 0); cbn [negb]; [split; [done|by eexists]|].
  destruct (Nat.ltb_spec (length d) (o + 4)); cbn [fail_if mbind res_bind].
  { split; [by intros []|]. intros [_ Hx]. specialize (Hx n). lia. }
  rewrite (proj2 (slice_Ok d (o + 2) (o + 4) (take 2 (drop (o + 2) d))))
    by (split; [lia|split; [lia|f_equal; lia]]). cbn [mbind res_bind].
  destruct (Nat.ltb_spec (length d) (o + 4 + Z.to_nat (of_be_bytes (take 2 (drop (o + 2) d))) * 4)); cbn [fail_if mbind res_bind].
  - split; [by intros []|]. intros [_ Hx]. specialize (Hx n). lia.
  - split; [|by eexists]. intros _. split; [done|]. lia.
Qed.
(** The reader accepts exactly the format. *)
Lemma rtp_parse_format d : (∃ p, rtp_parse d = Ok p) ↔ rtp_format d.
Proof.
  unfold rtp_parse, rtp_format. destruct (Nat.ltb_spec (length d) 12) as [Hs|Hlen]; cbn [fail_if mbind res_bind].
  { split; [by intros []|]. intros (b0 & b1 & f & src & ext & rest & -> & _ & Hf & _). cbn in Hs. rewrite length_app in Hs. lia. }
  destruct d as [|b0 [|b1 d]]; cbn [length] in Hlen; try lia. cbn [idx lookup list_lookup mbind res_bind].
  assert (∀ a b, (a ≤ b)%nat → (b ≤ 12)%nat → ∃ x, slice (E:=unit) (b0 :: b1 :: d) a b = Ok x) as Hsl.
  { intros a b Ha Hb. eexists. apply slice_Ok. split; [lia|]. split; [cbn; lia|done]. }
  destruct (Hsl 2%nat 4%nat) as [x1 ->]; [lia..|]. destruct (Hsl 4%nat 8%nat) as [x2 ->]; [lia..|].
  destruct (Hsl 8%nat 12%nat) as [x3 ->]; [lia..|].
  assert ((∃ x, rtp_payload b0 (b0 :: b1 :: d) = Ok x) ↔ ∃ o, rtp_offset b0 (b0 :: b1 :: d) = Ok o) as Hpay.
  { pose proof (no_panic_rtp_payload b0 (b0 :: b1 :: d)) as Hnp. unfold rtp_payload in *.
    destruct (rtp_offset b0 (b0 :: b1 :: d)) as [o|e|] eqn:Ho; cbn [mbind res_bind] in *; [|by split; intros []..].
    split; [by eexists|]. intros _. apply rtp_offset_range in Ho.
    destruct (rtp_end b0 o (b0 :: b1 :: d)) as [e|e|] eqn:He; cbn [mbind res_bind] in *; [| |done].
    - apply rtp_end_range in He; [|lia]. eexists. apply slice_Ok. split; [lia|]. by split; [lia|].
    - unfold rtp_end in He. destruct (negb _ && _); [|done]. unfold idx in He. by case_match. }
  destruct (Z.eqb_spec (Z.shiftr b0 6) 2) as [Hv|Hv]; cbn [negb fail_if mbind res_bind].
  2:{ split; [by intros []|]. by intros (? & ? & ? & ? & ? & ? & [= <- _ _] & ? & _). }
  transitivity (∃ x, rtp_payload b0 (b0 :: b1 :: d) = Ok x).
  { destruct (rtp_payload b0 (b0 :: b1 :: d)); cbn [mbind res_bind]; split; intros []; try done; by eexists. }
  rewrite Hpay, rtp_offset_Ok. set (n := (Z.to_nat (Z.land b0 0x0f) * 4)%nat). cbv zeta. cbn [length].
  change (drop (12 + n) (b0 :: b1 :: d)) with (drop (10 + n) d). rewrite <-(drop_drop d n 10).
  assert (∀ P : Prop, (12 + n ≤ S (S (length d)))%nat → (P ↔ ∃ ext rest, drop n (drop 10 d) = ext ++ rest ∧ rtp_extension b0 ext) →
    ((12 + n ≤ S (S (length d)))%nat ∧ P ↔ ∃ c1 c2 f src ext rest, b0 :: b1 :: d = c1 :: c2 :: f ++ src ++ ext ++ rest ∧
      Z.shiftr c1 6 = 2 ∧ length f = 10%nat ∧ length src = (Z.to_nat (Z.land c1 0x0f) * 4)%nat ∧ rtp_extension c1 ext)) as Hsplit.
  { intros P Hn ->. split.
    - intros [_ (ext & rest & Hd & He)]. exists b0, b1, (take 10 d), (take n (drop 10 d)), ext, rest.
      rewrite <-Hd, take_drop, take_drop, !length_take, length_drop. split_and!; try done; unfold n in *; lia.
    - intros (c1 & c2 & f & src & ext & rest & Hd & _ & Hf & Hsrc & He). injection Hd as <- <- ->. split; [done|].
      exists ext, rest. split; [|done]. rewrite <-Hf, drop_app_length. unfold n. by rewrite <-Hsrc, drop_app_length. }
  destruct (decide (12 + n ≤ S (S (length d)))%nat) as [Hn|Hn].
  - apply Hsplit; [done|]. symmetry. apply rtp_extension_fits. rewrite !length_drop. lia.
  - split; [lia|]. intros (c1 & c2 & f & src & ext & rest & Hd & _ & Hf & Hsrc & _). injection Hd as <- _ Hd.
    apply (f_equal length) in Hd. rewrite !length_app in Hd. unfold n in Hn. lia.
Qed.

#[export] Instance rtcp_compound_dec d : Decision (rtcp_compound d).
Proof.
  refine (match is_rtcp_mux_datagram d as x return is_rtcp_mux_datagram d = x → _ with
    | Ok true => λ H, left _ | _ => λ H, right _ end eq_refl);
    destruct (rtcp_mux_exact d) as (c & Hc & Hiff); rewrite Hc in H; try done; injection H as ->; [by apply Hiff|].
  by rewrite <-Hiff.
Defined.
#[export] Instance rtp_format_dec d : Decision (rtp_format d).
Proof.
  refine (match rtp_parse d as x return rtp_parse d = x → _ with
    | Ok p => λ H, left _ | _ => λ H, right _ end eq_refl); rewrite <-rtp_parse_format; [by exists p| |]; by intros [p Hp]; rewrite Hp in H.
Defined.

(** * The relay against an account of its history

    [account_*] say what the relay owes for the datagrams received so far, without
    its state and its readers: the address of a leg is the source of the last media
    received on it, or the negotiated one; a compound is passed on as it is, a
    packet in a direction the policy allows, under the number the other dialog uses. *)
(** The second octets RFC 5761 leaves to RTCP. *)
Definition marked_rtcp (d : list Z) : bool := match d with _ :: b1 :: _ => in_range 192 223 b1 | _ => false end.
Definition rtp_media (d : list Z) : Prop := rtp_format d ∧ marked_rtcp d = false.
(** A report that is not complete, but long enough to pass for a packet. *)
Definition truncated_report (d : list Z) : Prop := rtp_format d ∧ marked_rtcp d = true ∧ ¬ rtcp_compound d.
#[export] Instance rtp_media_dec d : Decision (rtp_media d).
Proof. unfold rtp_media. apply _. Defined.
#[export] Instance truncated_report_dec d : Decision (truncated_report d).
Proof. unfold truncated_report. apply _. Defined.
Definition event_ok (ev : RelayEvent) : Prop :=
  match ev with Received _ _ d _ => ¬ truncated_report d | _ => True end.
Lemma classify_media d : ¬ truncated_report d →
  classify true d = if decide (rtcp_compound d) then Ok RtcpMux else if decide (rtp_media d) then Ok Rtp else Err NotRtp.
Proof.
  intros Hno. unfold classify. destruct (rtcp_mux_exact d) as (b & -> & Hb). pose proof (rtp_parse_format d) as Hf.
  destruct (decide (rtcp_compound d)) as [Hc|Hc]; [by rewrite (proj2 Hb Hc)|].
  destruct b; [by destruct Hc; apply Hb|]. pose proof (no_panic_rtp_parse d) as Hnp.
  destruct (decide (rtp_media d)) as [[Hr _]|Hr].
  - apply Hf in Hr as [p ->]. done.
  - destruct (rtp_parse d) as [p|u|]; [|done|done]. destruct Hr. split; [apply Hf; by exists p|].
    destruct (marked_rtcp d) eqn:Hm; [|done]. destruct Hno. split; [apply Hf; by exists p|done].
Qed.

Section account.
Context (operator_remote internal_remote : SocketAddr) (mappings : list PayloadTypeMapping) (policy : MediaRelayPolicy).

Definition taken (d : list Z) : bool := bool_decide (rtcp_compound d ∨ rtp_media d).
Definition source_on (leg : RelayLeg) (ev : RelayEvent) : option SocketAddr :=
  match ev with
  | Received l src d _ => if bool_decide (l = leg) && taken d then Some src else None
  | _ => None
  end.
Definition account_remote (leg : RelayLeg) (history : list RelayEvent) : SocketAddr :=
  default (match leg with Operator => operator_remote | Internal => internal_remote end)
    (last (omap (source_on leg) history)).
Definition usable (m : PayloadTypeMapping) : bool := (pm_operator m <=? 0x7f) && (pm_internal m <=? 0x7f).
(** The numbers of one format in the dialog of a leg and in the other. *)
Definition numbers_from (leg : RelayLeg) (m : PayloadTypeMapping) : Z * Z :=
  match leg with Operator => (pm_operator m, pm_internal m) | Internal => (pm_internal m, pm_operator m) end.
Definition retyped (leg : RelayLeg) (d : list Z) : list Z :=
  match d with
  | b0 :: b1 :: l =>
    match List.find (λ m, Z.land b1 0x7f =? (numbers_from leg m).1) (filter (λ m, usable m) mappings) with
    | Some m => b0 :: Z.lor (Z.land b1 0x80) (numbers_from leg m).2 :: l
    | None => d
    end
  | _ => d
  end.
Definition account_send (history : list RelayEvent) (ev : RelayEvent) : list RelayOutput :=
  match ev with
  | Received leg _ d _ =>
    if decide (rtcp_compound d) then [SendTo (peer leg) d (account_remote (peer leg) history)]
    else if decide (rtp_media d) then
      if allows_rtp_from policy leg then [SendTo (peer leg) (retyped leg d) (account_remote (peer leg) history)] else []
    else []
  | _ => []
  end.
Fixpoint account (history events : list RelayEvent) : list RelayOutput :=
  match events with
  | [] => []
  | StopChanged true :: _ | ReceiveFailed _ :: _ => []
  | ev :: events => account_send history ev ++ account (history ++ [ev]) events
  end.
Definition is_send (o : RelayOutput) : bool := match o with SendTo _ _ _ => true | _ => false end.
Lemma mapped_type_find leg ms t :
  mapped_type leg ms t = (λ m, (numbers_from leg m).2) <$> List.find (λ m, t =? (numbers_from leg m).1) ms.
Proof.
  unfold mapped_type. induction ms as [|m ms IH]; [done|]. cbn [find_map List.find].
  destruct leg; cbn [numbers_from fst snd] in *; by destruct (t =? _).
Qed.
Lemma retyped_mapped leg b0 b1 l : retyped leg (b0 :: b1 :: l) =
  match mapped_type leg (filter (λ m, usable m) mappings) (Z.land b1 0x7f) with
  | Some t => b0 :: Z.lor (Z.land b1 0x80) t :: l | None => b0 :: b1 :: l end.
Proof. rewrite mapped_type_find. unfold retyped. by destruct (List.find _ _). Qed.
(** A datagram is taken exactly when its kind is known. *)
Lemma taken_classified d : ¬ truncated_report d → taken d = match classify true d with Ok _ => true | _ => false end.
Proof.
  intros H. rewrite (classify_media d H). unfold taken.
  destruct (decide (rtcp_compound d)); [apply bool_decide_eq_true; by left|].
  destruct (decide (rtp_media d)); [apply bool_decide_eq_true; by right|apply bool_decide_eq_false; tauto].
Qed.

(** The state the loop is in after a history. *)
Record relay_after (history : list RelayEvent) (st : RelayState) : Prop := {
  ra_running : relay_stopped st = false;
  ra_strict : require_rtp (relay_core st) = true;
  ra_mappings : payload_type_mappings (relay_core st) = filter (λ m, usable m) mappings;
  ra_leg : ∀ leg, remote (core_leg (relay_core st) leg) = Some (account_remote leg history) ∧
    latch (core_leg (relay_core st) leg) = true;
}.
Lemma activate_after : relay_after [] (activate operator_remote internal_remote mappings).
Proof.
  assert (∀ ms c, let c' := foldl (λ c m, with_payload_type_mapping c (pm_operator m) (pm_internal m)) c ms in
    core_operator c' = core_operator c ∧ core_internal c' = core_internal c ∧ require_rtp c' = require_rtp c ∧
    payload_type_mappings c' = payload_type_mappings c ++ filter (λ m, usable m) ms) as H.
  { induction ms as [|m ms IH]; intros c; cbn; [by rewrite app_nil_r|].
    destruct (IH (with_payload_type_mapping c (pm_operator m) (pm_internal m))) as (-> & -> & -> & ->).
    unfold with_payload_type_mapping.
    destruct (decide (usable m)) as [Hu|Hu]; unfold usable in Hu; destruct (_ && _); try done; cbn.
    rewrite <-app_assoc. by destruct m. }
  destruct (H mappings (core_new (leg_endpoint_new (Some operator_remote) true) (leg_endpoint_new (Some internal_remote) true)))
    as (Ho & Hi & Hr & Hm). unfold activate. constructor; cbn [relay_stopped relay_core]; [done|done|done|].
  intros []; cbn [core_leg]; rewrite ?Ho, ?Hi; done.
Qed.

Lemma account_remote_app leg history ev : account_remote leg (history ++ [ev]) =
  match source_on leg ev with Some src => src | None => account_remote leg history end.
Proof.
  unfold account_remote. rewrite omap_app. cbn [omap list_omap]. destruct (source_on leg ev).
  - by rewrite last_snoc.
  - by rewrite app_nil_r.
Qed.
Lemma classify_rtp d : classify true d = Ok Rtp → ∃ b0 b1 l p, d = b0 :: b1 :: l ∧ rtp_parse d = Ok p.
Proof.
  unfold classify. destruct (is_rtcp_mux_datagram d) as [[]| |]; try done;
    (destruct (rtp_parse d) as [p|u|] eqn:Hp; try done; intros _; pose proof (rtp_parse_long _ _ Hp) as Hlen;
     destruct d as [|b0 [|b1 l]]; simpl in Hlen; [lia..|]; by exists b0, b1, l, p).
Qed.
(** The core after a datagram it takes. *)
Lemma after_taken history st leg src d ok : relay_after history st → taken d = true →
  let c := set_leg leg (learn src d (core_leg (relay_core st) leg)) (relay_core st) in
  relay_after (history ++ [Received leg src d ok]) (mkRelay c (operator_send_failed st) (internal_send_failed st) false) ∧
  core_remote c (peer leg) = Some (account_remote (peer leg) history) ∧
  payload_type_mappings c = filter (λ m, usable m) mappings.
Proof.
  intros [_ Hs Hm Hl] Ht. cbv zeta. split; [|split].
  - constructor; cbn [relay_stopped relay_core]; [done|by destruct leg|by destruct leg|].
    intros l. rewrite account_remote_app. cbn [source_on]. rewrite Ht, andb_true_r.
    destruct (Hl leg) as [Hr Hla], (Hl l) as [Hrl Hlal].
    assert (remote (learn src d (core_leg (relay_core st) leg)) = Some src) as Hlearn.
    { cbn. rewrite Hla, Hr. cbn [andb]. case_bool_decide as He; [by rewrite He|done]. }
    case_bool_decide as He; [subst l|]; destruct leg; try destruct l; try done; (split; [exact Hlearn|exact Hla]).
  - destruct (Hl (peer leg)) as [Hr _]. unfold core_remote. by destruct leg.
  - by destruct leg.
Qed.
Lemma after_dropped history st leg src d ok : relay_after history st → taken d = false →
  relay_after (history ++ [Received leg src d ok]) st.
Proof.
  intros [Hrun Hs Hm Hl] Ht. constructor; [done..|]. intros l. rewrite account_remote_app. cbn [source_on].
  rewrite Ht, andb_false_r. apply Hl.
Qed.
Definition sends_of (leg : RelayLeg) (out : option (list Z * SocketAddr)) : list RelayOutput :=
  match out with Some (d, dest) => [SendTo (peer leg) d dest] | None => [] end.
Lemma mapped_range leg t q : mapped_type leg (filter (λ m, usable m) mappings) t = Some q → q ≤ 0x7f.
Proof.
  unfold mapped_type. intros H. assert (∃ m, m ∈ filter (λ m, usable m) mappings ∧ (q = pm_internal m ∨ q = pm_operator m)) as (m & Hm & Hq).
  { revert H. induction (filter _ mappings) as [|m ms IH]; [done|]. cbn [find_map].
    destruct leg; (destruct (_ =? _); [intros [= <-]; exists m; split; [by left|auto]|
      intros H; destruct (IH H) as (m' & ? & ?); exists m'; split; [by right|done]]). }
  apply list_elem_of_filter in Hm as [Hu%Is_true_true _]. unfold usable in Hu. apply andb_true_iff in Hu as [H1%Z.leb_le H2%Z.leb_le].
  destruct Hq; lia.
Qed.
Lemma rewrite_exact leg b0 b1 l p q : rtp_parse (b0 :: b1 :: l) = Ok p →
  mapped_type leg (filter (λ m, usable m) mappings) (Z.land b1 0x7f) = Some q →
  rewrite_rtp_payload_type (b0 :: b1 :: l) q = Ok (retyped leg (b0 :: b1 :: l)).
Proof.
  intros Hp Hq. rewrite retyped_mapped, Hq. unfold rewrite_rtp_payload_type. rewrite Hp. apply mapped_range in Hq.
  rewrite (proj2 (Z.ltb_ge _ _)) by lia. done.
Qed.
(** [forward_async] after a history: what it sends, and the state it leaves. *)
Lemma forward_after history st leg src d ok : relay_after history st → ¬ truncated_report d →
  ∃ out result c, forward_async leg src d (allows_rtp_from policy leg) ok (relay_core st) = (out, result, c) ∧
    sends_of leg out = account_send history (Received leg src d ok) ∧ result ≠ Panic ∧
    relay_after (history ++ [Received leg src d ok]) (mkRelay c (operator_send_failed st) (internal_send_failed st) false).
Proof.
  intros Hst Hno. pose proof (taken_classified d Hno) as Htaken. pose proof (classify_media d Hno) as Hc.
  unfold forward_async, ingest, account_send. rewrite (ra_strict _ _ Hst).
  destruct (decide (rtcp_compound d)) as [Hrtcp|Hrtcp]; [|destruct (decide (rtp_media d)) as [Hrtp|Hrtp]];
    rewrite Hc in Htaken |- *.
  3:{ eexists _, _, _. split; [done|]. split; [done|]. split; [done|].
      destruct (after_dropped history st leg src d ok Hst Htaken) as [_ ? ? ?]. by constructor. }
  all: destruct (after_taken history st leg src d ok Hst Htaken) as (Hafter & Hremote & Hmap);
    rewrite Hremote; revert Hafter; set (c := set_leg _ _ _); intros Hafter.
  - eexists _, _, _. split; [done|]. split; [done|]. split; [by destruct ok|done].
  - destruct (classify_rtp d Hc) as (b0 & b1 & l & p & -> & Hp). fold c in Hmap.
    rewrite bool_decide_eq_true_2 by done. cbn [idx lookup list_lookup mbind res_bind fd_kind fd_dest rewrite_payload_type].
    rewrite bool_decide_eq_true_2 by done. cbn [andb]. rewrite Hmap.
    destruct (allows_rtp_from policy leg); cbn [negb]; [|by eexists _, _, _].
    destruct (mapped_type leg _ _) as [q|] eqn:Hq.
    + rewrite (rewrite_exact leg b0 b1 l p q Hp Hq). eexists _, _, _. split; [done|]. split; [done|]. split; [by destruct ok|done].
    + eexists _, _, _. split; [done|]. rewrite retyped_mapped, Hq. split; [done|]. split; [by destruct ok|done].
Qed.
Lemma relay_step_after history st leg src d ok : relay_after history st → ¬ truncated_report d →
  let '(st', out) := relay_step policy st (Received leg src d ok) in
  filter (λ o, is_send o) out = account_send history (Received leg src d ok) ∧
  relay_after (history ++ [Received leg src d ok]) st'.
Proof.
  intros Hst Hno. destruct (forward_after history st leg src d ok Hst Hno) as (out & result & c & Hf & Hout & Hnp & [? ? ? ?]).
  unfold relay_step. rewrite (ra_running _ _ Hst), Hf. change (match out with Some (x, dest) => _ | None => [] end) with (sends_of leg out).
  rewrite Hout.
  assert (filter (λ o, is_send o) (account_send history (Received leg src d ok)) = account_send history (Received leg src d ok)) as Hid.
  { rewrite <-Hout. by destruct out as [[]|]. }
  destruct result as [[[]|]|[]|]; [..|done]; rewrite ?filter_app, Hid; destruct leg; repeat case_match;
    rewrite ?app_nil_r; (split; [try done|by constructor]).
Qed.
End account.

Lemma stopped_tail policy st events : relay_stopped st = true →
  filter (λ o, is_send o) (let '(st, outs) := relay_run policy st events in (st, [] ++ outs)).2 = [].
Proof.
  intros Hs. assert ((relay_run policy st events).2 = []) as H.
  { induction events as [|e events IH]; [done|]. cbn [relay_run]. unfold relay_step. rewrite Hs.
    by destruct (relay_run policy st events). }
  destruct (relay_run policy st events). simpl in H |- *. by rewrite H.
Qed.

(** C10: the relay refines the account of its history.  As long as no truncated report
    passes for a packet, whatever else arrives in whatever order: the datagrams the relay
    hands to its sockets are the ones the account names, to the addresses the account
    names, until it is stopped or a socket fails.  So nothing crosses but packets in the
    format of RTP, outside the second octets left to RTCP and only in the directions the
    policy allows, and sequences of complete RTCP packets; and no datagram stops the relay. *)
Theorem relay_refines operator_remote internal_remote mappings policy events :
  Forall event_ok events →
  filter (λ o, is_send o)
    (relay_run policy (activate operator_remote internal_remote mappings) events).2
  = account operator_remote internal_remote mappings policy [] events.
Proof.
  generalize (activate_after operator_remote internal_remote mappings).
  generalize (activate operator_remote internal_remote mappings) as st. generalize (@nil RelayEvent) as history.
  intros history st Hst Hok. revert history st Hst.
  induction Hok as [|ev events Hev _ IH]; intros history st Hst; [done|]. cbn [relay_run].
  destruct ev as [[]|leg src d ok|leg].
  - unfold relay_step. rewrite (ra_running _ _ _ _ _ Hst). by apply stopped_tail.
  - unfold relay_step. rewrite (ra_running _ _ _ _ _ Hst).
    specialize (IH (history ++ [StopChanged false]) (mkRelay (relay_core st) (operator_send_failed st) (internal_send_failed st) false)).
    destruct (relay_run _ _ events) as [st' outs]. cbn [snd app account account_send]. apply IH.
    destruct Hst as [_ ? ? Hl]. constructor; [done..|]. intros leg. rewrite account_remote_app. apply Hl.
  - pose proof (relay_step_after _ _ _ policy history st leg src d ok Hst Hev) as Hstep.
    destruct (relay_step policy st (Received leg src d ok)) as [st1 out]. destruct Hstep as [Hout Hafter].
    specialize (IH _ _ Hafter). destruct (relay_run policy st1 events) as [st2 outs]. cbn [snd account] in *.
    by rewrite filter_app, Hout, IH.
  - unfold relay_step. rewrite (ra_running _ _ _ _ _ Hst). by apply stopped_tail.
Qed.

(** A report whose length field does not fit is no compound, but from twelve octets
    on it passes for a packet of type 72 and is relayed as one. *)
Definition sample_truncated : list Z := [0x80; 200; 0; 9; 1; 2; 3; 4; 5; 6; 7; 8].
Lemma truncated_report_relayed :
  truncated_report sample_truncated ∧ classify true sample_truncated = Ok Rtp ∧
  rtp_parse sample_truncated = Ok (mkRtp 72 true 9 0x01020304 0x05060708 []).
Proof. split; [apply (bool_decide_unpack _); vm_compute; exact I|]. split; vm_compute; reflexivity. Qed.

(** * Witnesses *)
Definition sample_packet : RtpPacket := mkRtp 96 true 65535 0xfffffff0 0xdeadbeef [0xaa; 0xbb; 0xcc].
Lemma sample_packet_ok : rtp_ok sample_packet.
Proof.
  constructor; [cbn; lia|cbn; lia|cbn; lia|cbn; lia|].
  apply (bool_decide_unpack _). vm_compute. exact I.
Qed.
Lemma rtp_codec_exact_witness :
  rtp_parse (rtp_encode sample_packet) = Ok sample_packet ∧ no_panic (rtp_parse [0xbf; 0]).
Proof. split; apply rtp_codec_exact. exact sample_packet_ok. Defined.
Lemma rewrite_keeps_packet_witness :
  match rewrite_rtp_payload_type (rtp_encode sample_packet) 101 with
  | Ok out => ∃ p, rtp_parse (rtp_encode sample_packet) = Ok p ∧ length out = 15%nat ∧
      rtp_parse out = Ok (mkRtp 101 (marker p) (sequence p) (timestamp p) (ssrc p) (payload p))
  | _ => False
  end.
Proof.
  pose proof (rewrite_keeps_packet (rtp_encode sample_packet) 101 ltac:(lia)) as H.
  assert (∃ out, rewrite_rtp_payload_type (rtp_encode sample_packet) 101 = Ok out) as [out Hout] by (eexists; vm_compute; reflexivity).
  rewrite Hout in H |- *. exact H.
Defined.
(** Two dialogs with different numbers for the same events, a hold, a report that is cut
    short, and a stop. *)
Definition sample_operator : SocketAddr := mkSocket (V4 [192; 0; 2; 1]) 5004.
Definition sample_internal : SocketAddr := mkSocket (V4 [10; 0; 0; 2]) 40000.
Definition sample_nat : SocketAddr := mkSocket (V4 [198; 51; 100; 7]) 6000.
Definition sample_events : list RelayEvent :=
  let d := rtp_encode sample_packet in
  [Received Operator sample_nat d true; Received Internal sample_internal d true;
   Received Internal sample_internal [0x80; 201; 0; 1; 1; 2; 3; 4] false; Received Operator sample_operator [0x80; 200; 0; 6] true;
   StopChanged true; Received Operator sample_operator d true].
Example relay_example :
  (relay_run (mkRelayPolicy true false) (activate sample_operator sample_internal [mkMapping 96 101]) sample_events).2
  = [SendTo Internal (<[1%nat := 0xe5]> (rtp_encode sample_packet)) sample_internal; RtpToAsterisk 15; FirstOperatorRtp;
     SendTo Operator [0x80; 201; 0; 1; 1; 2; 3; 4] sample_nat; SendFailureLogged Internal].
Proof. vm_compute. reflexivity. Qed.
Lemma relay_refines_witness : Forall event_ok sample_events ∧
  account sample_operator sample_internal [mkMapping 96 101] (mkRelayPolicy true false) [] sample_events
  = [SendTo Internal (<[1%nat := 0xe5]> (rtp_encode sample_packet)) sample_internal;
     SendTo Operator [0x80; 201; 0; 1; 1; 2; 3; 4] sample_nat].
Proof.
  assert (Forall event_ok sample_events) as H.
  { repeat (apply Forall_cons; split); try exact I; try (apply (bool_decide_unpack _); vm_compute; exact I). by apply Forall_nil. }
  split; [exact H|]. rewrite <-(relay_refines sample_operator sample_internal [mkMapping 96 101] (mkRelayPolicy true false) _ H).
  vm_compute. reflexivity.
Defined.
