(* ===== verification/VideoSdp.v ===== *)
(** * Voice: the video section of a call

    [connectivity/core/ims_video.rs]: the video section of a session description,
    its builder and its parser, the composition with the audio description and
    the matching of an answer.  The theorem: a body with both sections is read
    back by both parsers, and neither disturbs the other. *)
From Stdlib Require Import Ascii String ZArith Lia.
From stdpp Require Import prelude.
From S2P Require Import Prelude Text SipFrame VoiceSdp.

Definition H264_CLOCK_RATE : Z := 90000.
Definition MEDIA_VIDEO : str := lit "video".
Record VideoMediaDescription := mkVideo {
  v_media_port : Z;
  v_connection_addr : option str;
  v_addr_type : option SdpAddrType;
  v_transport : MediaTransportKind;
  v_payload_type : Z;
  v_encoding : str;
  v_fmtp : option str;
  v_direction : MediaDirection;
}.
#[export] Instance VideoMediaDescription_eq_dec : EqDecision VideoMediaDescription.
Proof. solve_decision. Defined.
Definition is_rejected (v : VideoMediaDescription) : bool := (v_media_port v =? 0)%Z.
Definition rejected_answer (v : VideoMediaDescription) : VideoMediaDescription :=
  mkVideo 0 (v_connection_addr v) (v_addr_type v) (v_transport v) (v_payload_type v) (v_encoding v) (v_fmtp v) Inactive.
Definition media_lines (v : VideoMediaDescription) : str :=
  (lit "m=" ++ MEDIA_VIDEO ++ lit " " ++ fmt_dec (v_media_port v) ++ lit " " ++ sdp_proto (v_transport v)
     ++ lit " " ++ fmt_dec (v_payload_type v) ++ crlf)
  ++ match v_connection_addr v, v_addr_type v with
     | Some addr, Some a => lit "c=IN " ++ addr_type_str a ++ lit " " ++ addr ++ crlf
     | _, _ => []
     end
  ++ (lit "a=rtpmap:" ++ fmt_dec (v_payload_type v) ++ lit " " ++ v_encoding v ++ lit "/"
        ++ fmt_dec H264_CLOCK_RATE ++ crlf)
  ++ match v_fmtp v with
     | Some fmtp => if bool_decide (fmtp = []) then []
                    else lit "a=fmtp:" ++ fmt_dec (v_payload_type v) ++ lit " " ++ fmtp ++ crlf
     | None => []
     end
  ++ (lit "a=" ++ direction_as_str (v_direction v) ++ crlf).
Definition encoding_for_codec (codec : str) : str :=
  let c := to_ascii_lowercase <$> codec in
  if str_eqb c (lit "h264") || str_eqb c (lit "h.264") then lit "H264"
  else if str_eqb c (lit "h265") || str_eqb c (lit "h.265") || str_eqb c (lit "hevc") then lit "H265"
  else to_ascii_uppercase <$> c.
Definition build_video_offer (codec : str) (payload_type : Z) (h264_fmtp : str) (media_port : Z) : VideoMediaDescription :=
  mkVideo media_port None None RtpAvp payload_type (encoding_for_codec codec)
    (if bool_decide (h264_fmtp = []) then None else Some h264_fmtp) SendRecv.
Definition build_av_sdp (audio : SdpAudioDescription) (video : VideoMediaDescription) : str :=
  to_sdp audio ++ media_lines video.

(** ** Reading *)
Inductive VideoSdpError := VideoEmpty | VideoMalformed | NoVideoMedia.
#[export] Instance VideoSdpError_eq_dec : EqDecision VideoSdpError.
Proof. solve_decision. Defined.
Definition video_error_text (e : VideoSdpError) : str :=
  match e with
  | VideoEmpty => lit "ims_video_sdp_empty"
  | VideoMalformed => lit "ims_video_sdp_malformed"
  | NoVideoMedia => lit "ims_video_sdp_no_video_media"
  end.
Record VideoScan := mkVideoScan {
  vs_port : Z;
  vs_origin : option Connection;
  vs_session : option Connection;
  vs_video : option Connection;
  vs_transport : MediaTransportKind;
  vs_payloads : list Z;
  vs_direction : MediaDirection;
  vs_encoding : option (Z * str);
  vs_fmtp : option (Z * str);
  vs_in_video : bool;
  vs_saw_video : bool;
  vs_saw_any : bool;
}.
Definition video_scan_start : VideoScan :=
  mkVideoScan 0 None None None RtpAvp [] SendRecv None None false false false.
Definition video_origin (value : str) (st : VideoScan) : VideoScan :=
  match split_whitespace value with
  | _ :: _ :: _ :: _ :: p4 :: p5 :: _ =>
    mkVideoScan (vs_port st) (Some (addr_type_of p4, p5)) (vs_session st) (vs_video st) (vs_transport st)
      (vs_payloads st) (vs_direction st) (vs_encoding st) (vs_fmtp st) (vs_in_video st) (vs_saw_video st) (vs_saw_any st)
  | _ => st
  end.
Definition video_connection (value : str) (st : VideoScan) : VideoScan :=
  match connection_of value with
  | Some c =>
    let session := if negb (vs_saw_any st) then Some c else vs_session st in
    let video := if vs_saw_any st && vs_in_video st then Some c else vs_video st in
    mkVideoScan (vs_port st) (vs_origin st) session video (vs_transport st) (vs_payloads st) (vs_direction st)
      (vs_encoding st) (vs_fmtp st) (vs_in_video st) (vs_saw_video st) (vs_saw_any st)
  | None => st
  end.
Definition video_media (value : str) (st : VideoScan) : VideoScan :=
  let parts := split_whitespace value in
  if bool_decide (head parts = Some MEDIA_VIDEO) then
    let port := match parts !! 1 with Some p => default 0%Z (parse_unsigned u16_max p) | None => vs_port st end in
    let transport := match parts !! 2 with
      | Some p => if str_eqb p (lit "RTP/SAVP") then RtpSavp else RtpAvp
      | None => vs_transport st
      end in
    mkVideoScan port (vs_origin st) (vs_session st) (vs_video st) transport
      (vs_payloads st ++ payload_tokens (drop 3 parts)) (vs_direction st) (vs_encoding st) (vs_fmtp st) true true true
  else
    mkVideoScan (vs_port st) (vs_origin st) (vs_session st) (vs_video st) (vs_transport st) (vs_payloads st)
      (vs_direction st) (vs_encoding st) (vs_fmtp st) false (vs_saw_video st) true.
Definition set_attributes (d : MediaDirection) (e f : option (Z * str)) (st : VideoScan) : VideoScan :=
  mkVideoScan (vs_port st) (vs_origin st) (vs_session st) (vs_video st) (vs_transport st) (vs_payloads st)
    d e f (vs_in_video st) (vs_saw_video st) (vs_saw_any st).
Definition video_rtpmap (rest : str) : option (Z * str) :=
  match split_whitespace rest with
  | pt :: enc :: _ =>
    pt ← parse_unsigned u8_max pt;
    Some (pt, default enc (head (split (ch "/") enc)))
  | _ => None
  end.
(** [rest.splitn(2, ' ')], both pieces present. *)
Definition video_fmtp (rest : str) : option (Z * str) :=
  '(pt, params) ← split_once (ch " ") rest;
  pt ← parse_unsigned u8_max pt;
  Some (pt, params).
Definition video_attribute (value : str) (st : VideoScan) : VideoScan :=
  match strip_prefix (lit "rtpmap:") value with
  | Some rest =>
    match video_rtpmap rest with
    | Some e => set_attributes (vs_direction st) (Some e) (vs_fmtp st) st
    | None => st
    end
  | None =>
    match strip_prefix (lit "fmtp:") value with
    | Some rest =>
      match video_fmtp rest with
      | Some f => set_attributes (vs_direction st) (vs_encoding st) (Some f) st
      | None => st
      end
    | None =>
      match direction_from_token value with
      | Some d => set_attributes d (vs_encoding st) (vs_fmtp st) st
      | None => st
      end
    end
  end.
Definition video_line (st : VideoScan) (raw_line : str) : VideoScan :=
  match sdp_field raw_line with
  | Some (kind, value) =>
    if str_eqb kind (lit "o") then video_origin value st
    else if str_eqb kind (lit "c") then video_connection value st
    else if str_eqb kind (lit "m") then video_media value st
    else if str_eqb kind (lit "a") && vs_in_video st then video_attribute value st
    else st
  | None => st
  end.
(** What the loop leaves, assembled. *)
Definition video_description (st : VideoScan) : VideoMediaDescription :=
  let '(pt, name) := match vs_encoding st with
    | Some e => e
    | None => (default 0%Z (head (vs_payloads st)), lit "H264")
    end in
  let fmtp := f ← vs_fmtp st; if (f.1 =? pt)%Z then Some f.2 else None in
  let connection := match vs_video st with
    | Some c => Some c
    | None => match vs_session st with Some c => Some c | None => vs_origin st end
    end in
  mkVideo (vs_port st) (snd <$> connection) (fst <$> connection) (vs_transport st) pt name fmtp (vs_direction st).
Definition parse_video_sdp (body : list Z) : res VideoSdpError VideoMediaDescription :=
  if bool_decide (body = []) then Err VideoEmpty else
  text ← ok_or VideoMalformed (from_utf8 body);
  let st := foldl video_line video_scan_start (split 10 text) in
  if negb (vs_saw_video st) then Err NoVideoMedia else Ok (video_description st).

(** ** Matching *)
Record VideoNegotiation := mkVideoNegotiation { vn_payload_type : Z; vn_encoding : str; vn_remote_port : Z }.
Definition negotiate_video (offer answer : VideoMediaDescription) : res VideoSdpError VideoNegotiation :=
  if negb (eq_ignore_ascii_case (v_encoding offer) (v_encoding answer)) then Err NoVideoMedia
  else Ok (mkVideoNegotiation (v_payload_type answer) (v_encoding answer) (v_media_port answer)).

(** * Reading back *)
Record video_ok (v : VideoMediaDescription) : Prop := {
  vo_port : (0 ≤ v_media_port v ≤ u16_max)%Z;
  vo_connection : match v_connection_addr v, v_addr_type v with
    | Some addr, Some _ => word addr ∧ Forall is_char addr
    | None, None => True
    | _, _ => False
    end;
  vo_type : (0 ≤ v_payload_type v ≤ 255)%Z;
  vo_encoding : word (v_encoding v) ∧ Forall is_char (v_encoding v) ∧
    Forall (λ c, (c =? ch "/")%Z = false) (v_encoding v);
  vo_fmtp : match v_fmtp v with Some p => fmtp_ok p | None => True end;
}.
Definition v_words (v : VideoMediaDescription) : list str :=
  [MEDIA_VIDEO; fmt_dec (v_media_port v); sdp_proto (v_transport v); fmt_dec (v_payload_type v)].
Definition v_connection_line (v : VideoMediaDescription) : list str :=
  match v_connection_addr v, v_addr_type v with
  | Some addr, Some a => [lit "c=" ++ join (lit " ") [lit "IN"; addr_type_str a; addr]]
  | _, _ => []
  end.
Definition v_encoding_text (v : VideoMediaDescription) : str := v_encoding v ++ ch "/" :: fmt_dec H264_CLOCK_RATE.
Definition v_attributes (v : VideoMediaDescription) : list str :=
  [lit "a=" ++ lit "rtpmap:" ++ fmt_dec (v_payload_type v) ++ ch " " :: v_encoding_text v]
  ++ match v_fmtp v with
     | Some p => [lit "a=" ++ lit "fmtp:" ++ fmt_dec (v_payload_type v) ++ ch " " :: p]
     | None => []
     end
  ++ [lit "a=" ++ direction_as_str (v_direction v)].
Definition video_lines (v : VideoMediaDescription) : list str :=
  [lit "m=" ++ join (lit " ") (v_words v)] ++ v_connection_line v ++ v_attributes v.
Lemma media_lines_text v : video_ok v → media_lines v = render_lines (video_lines v).
Proof.
  intros [_ Hc _ _ Hf]. unfold media_lines, video_lines, v_connection_line, v_attributes, v_encoding_text, render_lines, v_words, join.
  destruct (v_connection_addr v), (v_addr_type v); try done;
    (destruct (v_fmtp v) as [p|]; [rewrite bool_decide_eq_false_2 by apply Hf|]);
    cbn [app mbind list_bind foldl]; rewrite ?app_nil_r, <-!app_assoc; cbn [app]; rewrite <-?app_assoc; done.
Qed.

(** ** The lines of a video section *)
Lemma word_IN : word (lit "IN").
Proof. plain_lit. Qed.
Lemma connection_words addr a : word addr → Forall word [lit "IN"; addr_type_str a; addr].
Proof. intros Hw. constructor; [exact word_IN|]. constructor; [apply word_addr_type|]. constructor; [exact Hw|done]. Qed.
Lemma v_words_ok v : video_ok v → Forall word (v_words v).
Proof.
  intros [Hp _ Ht _ _]. constructor; [plain_lit|]. constructor; [apply word_dec_text; lia|].
  constructor; [apply word_proto|]. constructor; [apply word_dec_text; lia|done].
Qed.
Lemma v_encoding_word v : video_ok v → word (v_encoding_text v).
Proof. intros [_ _ _ (Hw & _) _]. apply word_app_cons; [done|done|]. apply word_dec_text. vm_compute. discriminate. Qed.
Lemma v_attribute_lines v : video_ok v → Forall attribute_line (v_attributes v).
Proof.
  intros Hv. pose proof (v_encoding_word v Hv) as Hw. destruct Hv as [_ _ _ _ Hf]. unfold v_attributes. apply Forall_app. split.
  - constructor; [|done]. eexists. split; [done|]. rewrite !(cons_middle (ch " ")), !app_assoc.
    apply ends_plain_app; [apply Hw|by apply ends_plain_word].
  - apply Forall_app. split.
    + destruct (v_fmtp v) as [p|]; [|done]. constructor; [|done]. eexists. split; [done|].
      rewrite (cons_middle (ch " ")), !app_assoc. apply ends_plain_app; apply Hf.
    + constructor; [|done]. eexists. split; [done|]. by destruct (v_direction v).
Qed.
Lemma plain_video_lines v : video_ok v → Forall (Forall plain_char) (video_lines v).
Proof.
  intros [Hp Hc Ht (Hw & Hch & _) Hf].
  assert (∀ s, Forall plain_char s → ∀ t, Forall plain_char t → Forall plain_char (s ++ t)) as Happ.
  { intros. by apply Forall_app. }
  unfold video_lines, v_connection_line, v_attributes, v_encoding_text. rewrite !Forall_app. split; [|split; [|split; [|split]]].
  - constructor; [|done]. apply Happ; [plain_lit|]. apply line_join. constructor; [plain_lit|].
    constructor; [apply plain_dec_fmt; lia|]. constructor; [destruct (v_transport v); plain_lit|].
    constructor; [apply plain_dec_fmt; lia|done].
  - destruct (v_connection_addr v) as [addr|], (v_addr_type v) as [a|]; try done. constructor; [|done].
    apply Happ; [plain_lit|]. apply line_join. constructor; [plain_lit|]. constructor; [destruct a; plain_lit|].
    constructor; [apply plain_word; apply Hc|done].
  - constructor; [|done]. apply Happ; [plain_lit|]. apply Happ; [plain_lit|]. apply Happ; [apply plain_dec_fmt; lia|].
    constructor; [plain_lit|]. apply Happ; [by apply plain_word|]. plain_lit.
  - destruct (v_fmtp v) as [p|]; [|done]. destruct Hf as (_ & _ & _ & Hfc & Hfl). constructor; [|done].
    apply Happ; [plain_lit|]. apply Happ; [plain_lit|]. apply Happ; [apply plain_dec_fmt; lia|].
    constructor; [plain_lit|]. apply Forall_forall. intros x Hx. rewrite Forall_forall in Hfc, Hfl. split; auto.
  - constructor; [|done]. apply Happ; [plain_lit|]. destruct (v_direction v); plain_lit.
Qed.

(** ** The audio reader on a video section *)
Definition leave_audio (st : AudioScan) : AudioScan :=
  mkScan (as_username st) (as_session_id st) (as_session_version st) (as_origin st) (as_session st)
    (as_audio st) (as_port st) (as_transport st) (as_payloads st) (as_direction st) (as_ptime st)
    (as_rtpmaps st) (as_fmtps st) false (as_saw_audio st) true.
Lemma audio_skips ls st : as_in_audio st = false → Forall attribute_line ls →
  foldl audio_line st ((λ l, l ++ [CR]) <$> ls) = st.
Proof.
  intros Hin Hls. induction Hls as [|l ls (v & -> & He) _ IH]; [done|]. cbn [fmap list_fmap foldl].
  rewrite (audio_line_written _ (ch "a") v _ eq_refl) by done.
  change (field_step (ch "a") v st) with (if as_in_audio st then audio_attribute v st else st). by rewrite Hin.
Qed.
Lemma audio_over_video v st : video_ok v → as_saw_any st = true →
  foldl audio_line st ((λ l, l ++ [CR]) <$> video_lines v) = leave_audio st.
Proof.
  intros Hv Hany. pose proof (v_words_ok v Hv) as Hw. pose proof (v_attribute_lines v Hv) as Ha.
  unfold video_lines. rewrite !fmap_app, !foldl_app. cbn [fmap list_fmap foldl].
  rewrite (audio_line_written (lit "m=" ++ _) (ch "m") _ _ eq_refl) by (done || by apply (ends_plain_words [_; _])).
  change (field_step (ch "m") ?x st) with (audio_media x st). unfold audio_media. rewrite split_words by done.
  rewrite bool_decide_eq_false_2 by (unfold v_words, MEDIA_VIDEO; cbn [head]; by intros [=]).
  fold (leave_audio st).
  assert (foldl audio_line (leave_audio st) ((λ l, l ++ [CR]) <$> v_connection_line v) = leave_audio st) as ->.
  { destruct Hv as [_ Hc _ _ _]. unfold v_connection_line. destruct (v_connection_addr v) as [addr|], (v_addr_type v) as [a|]; try done.
    pose proof (connection_words addr a (proj1 Hc)) as Hws.
    cbn [fmap list_fmap foldl].
    rewrite (audio_line_written (lit "c=" ++ _) (ch "c") _ _ eq_refl) by (done || by apply (ends_plain_words [_; _])).
    change (field_step (ch "c") ?x ?s) with (audio_connection x s). unfold audio_connection, connection_of.
    by rewrite split_words. }
  by apply audio_skips.
Qed.

(** ** The video reader *)
Definition video_field_step (k : Z) (v : str) (st : VideoScan) : VideoScan :=
  if str_eqb [k] (lit "o") then video_origin v st
  else if str_eqb [k] (lit "c") then video_connection v st
  else if str_eqb [k] (lit "m") then video_media v st
  else if str_eqb [k] (lit "a") && vs_in_video st then video_attribute v st
  else st.
Lemma video_line_written l k v st : l = k :: ch "=" :: v → k ≠ ch "=" → ends_plain l →
  video_line st (l ++ [CR]) = video_field_step k v st.
Proof. intros -> Hk Hend. unfold video_line. by rewrite sdp_field_written. Qed.
Lemma video_skips ls st : vs_in_video st = false → Forall attribute_line ls →
  foldl video_line st ((λ l, l ++ [CR]) <$> ls) = st.
Proof.
  intros Hin Hls. induction Hls as [|l ls (v & -> & He) _ IH]; [done|]. cbn [fmap list_fmap foldl].
  rewrite (video_line_written _ (ch "a") v _ eq_refl) by done.
  change (video_field_step (ch "a") v st) with (if vs_in_video st then video_attribute v st else st). by rewrite Hin.
Qed.
Definition video_scan_audio (d : SdpAudioDescription) : VideoScan :=
  mkVideoScan 0 (Some (addr_type d, connection_addr d)) (Some (addr_type d, connection_addr d)) None RtpAvp [] SendRecv
    None None false false true.
Lemma video_over_audio d : sdp_ok d →
  foldl video_line video_scan_start ((λ l, l ++ [CR]) <$> sdp_lines d) = video_scan_audio d.
Proof.
  intros Hd. pose proof (o_words_ok d Hd) as Ho. pose proof (c_words_ok d Hd) as Hc. pose proof (m_words_ok d Hd) as Hm.
  unfold sdp_lines. rewrite fmap_app, foldl_app.
  assert (foldl video_line video_scan_start ((λ l, l ++ [CR]) <$> head_lines d) = video_scan_audio d) as ->.
  2:{ apply video_skips; [done|by apply attribute_lines]. }
  assert (∀ k ws, ws ≠ [] → Forall word ws → ends_plain ([k; ch "="] ++ join (lit " ") ws)) as He.
  { intros. by apply ends_plain_words. }
  unfold head_lines. cbn [fmap list_fmap foldl].
  rewrite (video_line_written (lit "v=0") (ch "v") (lit "0") _ eq_refl) by done.
  rewrite (video_line_written (lit "o=" ++ _) (ch "o") _ _ eq_refl) by (done || by apply He).
  rewrite (video_line_written (lit "s=SimAdmin VoWiFi Call") (ch "s") (lit "SimAdmin VoWiFi Call") _ eq_refl) by done.
  rewrite (video_line_written (lit "c=" ++ _) (ch "c") _ _ eq_refl) by (done || by apply He).
  rewrite (video_line_written (lit "t=0 0") (ch "t") (lit "0 0") _ eq_refl) by done.
  rewrite (video_line_written (lit "m=" ++ _) (ch "m") _ _ eq_refl) by (done || by apply He).
  change (video_field_step (ch "v") ?v ?st) with st. change (video_field_step (ch "t") ?v ?st) with st.
  change (video_field_step (ch "s") ?v ?st) with st.
  change (video_field_step (ch "o") ?v ?st) with (video_origin v st).
  change (video_field_step (ch "c") ?v ?st) with (video_connection v st).
  change (video_field_step (ch "m") ?v ?st) with (video_media v st).
  unfold video_origin, video_connection, connection_of. rewrite !split_words by done. cbn [o_words c_words].
  rewrite !addr_type_of_str. cbn -[join fmt_dec m_words video_media video_scan_audio].
  unfold video_media. rewrite split_words by done. unfold m_words.
  rewrite bool_decide_eq_false_2 by (cbn [head]; unfold MEDIA_VIDEO; by intros [=]). done.
Qed.
Lemma video_attribute_step st v : vs_in_video st = true → ends_plain (lit "a=" ++ v) →
  video_line st ((lit "a=" ++ v) ++ [CR]) = video_attribute v st.
Proof.
  intros Hin He. rewrite (video_line_written (lit "a=" ++ v) (ch "a") v _ eq_refl) by done.
  change (video_field_step (ch "a") v st) with (if vs_in_video st then video_attribute v st else st). by rewrite Hin.
Qed.
Lemma video_rtpmap_read v : video_ok v →
  video_rtpmap (fmt_dec (v_payload_type v) ++ ch " " :: v_encoding_text v) = Some (v_payload_type v, v_encoding v).
Proof.
  intros Hv. pose proof (v_encoding_word v Hv) as Hw. destruct Hv as [_ _ Ht (_ & _ & Hs) _]. unfold video_rtpmap.
  rewrite split_whitespace_cons by (apply word_dec_text; lia). rewrite split_whitespace_word by done.
  rewrite parse_unsigned_fmt by exact Ht. cbn [mbind option_bind]. unfold v_encoding_text. by rewrite split_sep.
Qed.
Lemma video_fmtp_read pt p : (0 ≤ pt ≤ 255)%Z → video_fmtp (fmt_dec pt ++ ch " " :: p) = Some (pt, p).
Proof.
  intros Ht. unfold video_fmtp. rewrite split_once_app.
  2:{ eapply Forall_impl; [apply (dec_no_char (ch " ") pt); [done|lia]|]. intros c Hc. by rewrite Z.eqb_sym. }
  cbn [mbind option_bind]. rewrite parse_unsigned_fmt by exact Ht. done.
Qed.
Definition connection_override (v : VideoMediaDescription) : option Connection :=
  match v_connection_addr v, v_addr_type v with Some addr, Some a => Some (a, addr) | _, _ => None end.
Definition video_scan_of (st : VideoScan) (v : VideoMediaDescription) : VideoScan :=
  mkVideoScan (v_media_port v) (vs_origin st) (vs_session st) (connection_override v) (v_transport v)
    [v_payload_type v] (v_direction v) (Some (v_payload_type v, v_encoding v))
    ((λ p, (v_payload_type v, p)) <$> v_fmtp v) true true true.
Lemma video_proto t : (if str_eqb (sdp_proto t) (lit "RTP/SAVP") then RtpSavp else RtpAvp) = t.
Proof. by destruct t. Qed.
Lemma video_attributes_read v st : video_ok v → vs_in_video st = true → vs_fmtp st = None →
  foldl video_line st ((λ l, l ++ [CR]) <$> v_attributes v) =
    set_attributes (v_direction v) (Some (v_payload_type v, v_encoding v)) ((λ p, (v_payload_type v, p)) <$> v_fmtp v) st.
Proof.
  intros Hv Hin Hnone. pose proof (v_attribute_lines v Hv) as Ha. revert Ha. unfold v_attributes.
  intros [Hmap Ha]%Forall_app. apply Forall_inv in Hmap as (m & Hm & Hmap). apply Forall_app in Ha as [Hfm Hdir].
  apply Forall_inv in Hdir as (x & Hx & Hdir). rewrite !fmap_app, !foldl_app. cbn [fmap list_fmap foldl].
  rewrite (video_attribute_step st) by done. unfold video_attribute at 1. rewrite strip_prefix_app, video_rtpmap_read by done.
  pose proof (vo_type v Hv) as Ht. destruct (v_fmtp v) as [p|]; cbn [fmap list_fmap foldl].
  - apply Forall_inv in Hfm as (y & Hy & Hfm). set (st1 := set_attributes _ _ _ st).
    rewrite (video_attribute_step st1) by done. unfold video_attribute at 1.
    change (strip_prefix (lit "rtpmap:") (lit "fmtp:" ++ ?s)) with (@None str).
    rewrite strip_prefix_app, video_fmtp_read by done.
    rewrite video_attribute_step by done. by destruct (v_direction v).
  - rewrite video_attribute_step by done. rewrite Hnone. by destruct (v_direction v).
Qed.
Lemma video_over_video v st : video_ok v → vs_saw_any st = true → vs_video st = None → vs_fmtp st = None → vs_payloads st = [] →
  foldl video_line st ((λ l, l ++ [CR]) <$> video_lines v) = video_scan_of st v.
Proof.
  intros Hv Hany Hvid Hnone Hpay. pose proof (v_words_ok v Hv) as Hw. pose proof (vo_port v Hv) as Hp. pose proof (vo_type v Hv) as Ht.
  unfold video_lines. rewrite !fmap_app, !foldl_app. cbn [fmap list_fmap foldl].
  rewrite (video_line_written (lit "m=" ++ _) (ch "m") _ _ eq_refl) by (done || by apply (ends_plain_words [_; _])).
  change (video_field_step (ch "m") ?x st) with (video_media x st). unfold video_media. rewrite split_words by done.
  unfold v_words. change ((?a :: ?b :: ?c :: ?l) !! 1) with (Some b). change ((?a :: ?b :: ?c :: ?l) !! 2) with (Some c).
  change (drop 3 (?a :: ?b :: ?c :: ?l)) with l. cbv zeta. rewrite bool_decide_eq_true_2 by done.
  rewrite video_proto, parse_unsigned_fmt by done. cbn [payload_tokens omap list_omap default].
  rewrite parse_unsigned_fmt by exact Ht. rewrite Hpay. cbn [app].
  set (st1 := mkVideoScan _ _ _ _ _ _ _ _ _ _ _ _).
  assert (foldl video_line st1 ((λ l, l ++ [CR]) <$> v_connection_line v) =
    mkVideoScan (v_media_port v) (vs_origin st) (vs_session st) (connection_override v) (v_transport v) [v_payload_type v]
      (vs_direction st) (vs_encoding st) (vs_fmtp st) true true true) as ->.
  { pose proof (vo_connection v Hv) as Hc. unfold v_connection_line, connection_override.
    destruct (v_connection_addr v) as [addr|], (v_addr_type v) as [a|]; try done; [|unfold st1; by rewrite Hvid].
    pose proof (connection_words addr a (proj1 Hc)) as Hws. cbn [fmap list_fmap foldl].
    rewrite (video_line_written (lit "c=" ++ _) (ch "c") _ _ eq_refl) by (done || by apply (ends_plain_words [_; _])).
    change (video_field_step (ch "c") ?x ?s) with (video_connection x s). unfold video_connection, connection_of.
    rewrite split_words by done. by rewrite addr_type_of_str. }
  by rewrite video_attributes_read.
Qed.

(** The section as its reader gives it back, on the address of the session unless it
    has its own. *)
Definition video_within (audio : SdpAudioDescription) (v : VideoMediaDescription) : VideoMediaDescription :=
  mkVideo (v_media_port v) (Some (default (connection_addr audio) (v_connection_addr v)))
    (Some (default (addr_type audio) (v_addr_type v)))
    (v_transport v) (v_payload_type v) (v_encoding v) (v_fmtp v) (v_direction v).
Lemma video_described audio v : video_ok v →
  video_description (video_scan_of (video_scan_audio audio) v) = video_within audio v.
Proof.
  intros [_ Hc _ _ _]. unfold video_description, video_within. cbn. unfold connection_override.
  destruct (v_fmtp v); cbn; rewrite ?Z.eqb_refl; by destruct (v_connection_addr v), (v_addr_type v).
Qed.

Section body.
Context (audio : SdpAudioDescription) (video : VideoMediaDescription).
Context (Ha : sdp_ok audio) (Hv : video_ok video).

Lemma av_rendered : build_av_sdp audio video = render_lines (sdp_lines audio ++ video_lines video).
Proof. unfold build_av_sdp. by rewrite to_sdp_lines, media_lines_text, render_lines_app by (done || apply Ha). Qed.
Lemma av_plain : Forall (Forall plain_char) (sdp_lines audio ++ video_lines video).
Proof. apply Forall_app. split; [by apply plain_sdp_lines|by apply plain_video_lines]. Qed.
Lemma av_audio : parse_audio_sdp (utf8_encode (build_av_sdp audio video)) = Ok audio.
Proof.
  rewrite av_rendered, parse_rendered by (done || apply av_plain). rewrite fmap_app, foldl_app, scan_lines by done.
  rewrite audio_over_video by done. rewrite <-(scan_described audio Ha). done.
Qed.
Lemma av_video : parse_video_sdp (utf8_encode (build_av_sdp audio video)) = Ok (video_within audio video).
Proof.
  rewrite av_rendered. unfold parse_video_sdp. rewrite utf8_roundtrip by apply plain_render, av_plain.
  rewrite bool_decide_eq_false_2 by by apply utf8_rendered. cbn [ok_or mbind res_bind].
  rewrite split_rendered by apply plain_no_lf, av_plain. rewrite foldl_app, fmap_app, foldl_app.
  rewrite video_over_audio, video_over_video by done. rewrite <-video_described by done. done.
Qed.
End body.

(** A description without a video section has no video for its reader. *)
Lemma audio_only_no_video d : sdp_ok d → parse_video_sdp (utf8_encode (to_sdp d)) = Err NoVideoMedia.
Proof.
  intros Hd. rewrite to_sdp_lines by apply Hd. unfold parse_video_sdp.
  rewrite utf8_roundtrip by by apply plain_render, plain_sdp_lines.
  rewrite bool_decide_eq_false_2 by by apply utf8_rendered. cbn [ok_or mbind res_bind].
  rewrite split_rendered by by apply plain_no_lf, plain_sdp_lines. rewrite foldl_app.
  by rewrite video_over_audio.
Qed.

(** a body with an audio and a video section: the audio reader gives back the
    audio description as if the video were not there, and the video reader gives
    back the video section, on its own address or else on that of the session. *)
Theorem av_read_back audio video : sdp_ok audio → video_ok video →
  parse_audio_sdp (utf8_encode (build_av_sdp audio video)) = Ok audio ∧
  parse_video_sdp (utf8_encode (build_av_sdp audio video)) = Ok (video_within audio video).
Proof. intros Ha Hv. split; [by apply av_audio|by apply av_video]. Qed.

(** * Witness *)
Definition sample_video : VideoMediaDescription :=
  mkVideo 5006 (Some (lit "192.0.2.9")) (Some Ip4) RtpAvp 99 (lit "H264")
    (Some (lit "profile-level-id=42e01f; packetization-mode=1")) SendRecv.
Lemma sample_video_ok : video_ok sample_video.
Proof.
  constructor; cbn [v_media_port v_connection_addr v_addr_type v_payload_type v_encoding v_fmtp sample_video].
  - unfold u16_max. lia.
  - split; plain_lit.
  - lia.
  - split; [plain_lit|]. split; plain_lit.
  - apply fmtp_ok_text; vm_compute; reflexivity.
Qed.
Lemma av_read_back_witness :
  parse_audio_sdp (utf8_encode (build_av_sdp sample_offer sample_video)) = Ok sample_offer ∧
  parse_video_sdp (utf8_encode (build_av_sdp sample_offer sample_video)) = Ok sample_video.
Proof. apply (av_read_back sample_offer sample_video); [exact sample_offer_ok|exact sample_video_ok]. Defined.
