(* ===== verification/VoiceCall.v ===== *)
(** * Voice: dial strings, the call state machine and the cellular call

    The rest of [connectivity/core/voice.rs] (dial strings, the call records,
    [VoiceCallStateMachine], the leg selection and the inert defaults of the
    audio interfaces), [connectivity/modems/ims/cellular_ims/voice.rs] (the call
    of the cellular leg with its switch between audio and video) and the adapter
    [connectivity/modems/ims/vowifi/voice.rs].  A method is a function on the
    record of the machine; the clock and the call counter are arguments. *)
From Stdlib Require Import Ascii String ZArith Lia.
From stdpp Require Import prelude.
From S2P Require Import Prelude Text SipFrame VoiceSdp VideoSdp.

(** ** Dial strings *)
Inductive ImsDialStringError := DialEmpty | InvalidCharacter | InvalidLength | InvalidPlusPlacement.
#[export] Instance ImsDialStringError_eq_dec : EqDecision ImsDialStringError.
Proof. solve_decision. Defined.
Definition dial_error_text (e : ImsDialStringError) : str :=
  match e with
  | DialEmpty => lit "ims_dial_string_empty"
  | InvalidCharacter => lit "ims_dial_string_invalid_character"
  | InvalidLength => lit "ims_dial_string_invalid_length"
  | InvalidPlusPlacement => lit "ims_dial_string_invalid_plus_placement"
  end.
Definition separator (c : Z) : bool :=
  is_whitespace c || (c =? ch "-")%Z || (c =? ch "(")%Z || (c =? ch ")")%Z.
(** The user part of the target, its separators dropped. *)
Definition dial_user_part (value : str) : str :=
  let trimmed := trim value in
  let without_scheme := match strip_prefix (lit "sip:") trimmed with
    | Some rest => rest
    | None => default trimmed (strip_prefix (lit "tel:") trimmed)
    end in
  let raw_user := default [] (head (split (ch ";") (default [] (head (split (ch "@") without_scheme))))) in
  filter (λ c, negb (separator c)) raw_user.
Definition service_character (c : Z) : bool := (c =? ch "*")%Z || (c =? ch "#")%Z.
(** The loop over the characters: [saw_plus] and [has_service_character]. *)
Fixpoint dial_scan (index : nat) (saw_plus has_service : bool) (user : str) : res ImsDialStringError (bool * bool) :=
  match user with
  | [] => Ok (saw_plus, has_service)
  | c :: user =>
    if (c =? ch "+")%Z then
      if (index =? 0)%nat then dial_scan (S index) true has_service user else Err InvalidPlusPlacement
    else if is_ascii_digit c then dial_scan (S index) saw_plus has_service user
    else if service_character c then dial_scan (S index) saw_plus true user
    else Err InvalidCharacter
  end.
Definition normalize_ims_dial_user (value : str) : res ImsDialStringError str :=
  let user := dial_user_part value in
  if bool_decide (user = []) then Err DialEmpty else
  '(saw_plus, has_service) ← dial_scan 0 false false user;
  let payload := default user (strip_prefix (lit "+") user) in
  if bool_decide (payload = []) || (saw_plus && has_service) then Err InvalidPlusPlacement else
  let len := length (utf8_encode payload) in
  let valid_length := if has_service : bool then (1 <=? len)%nat && (len <=? 32)%nat
                      else (3 <=? len)%nat && (len <=? 20)%nat in
  if valid_length : bool then Ok user else Err InvalidLength.

(** ** The state of a call *)
Inductive CallDirection := MobileOriginated | MobileTerminated.
Inductive SipInviteState := InvIdle | InvQueued | InviteSent | InvRinging | EarlyMedia | Confirmed | InvTerminated | InvFailed.
Inductive CallState := Dialing | Ringing | Active | Ended | CallFailed.
Inductive CallEndReason :=
| LocalHangup | RemoteHangup | RemoteBusy | NoAnswer | Declined | NetworkFailure | MediaFailure | Canceled.
#[export] Instance CallDirection_eq_dec : EqDecision CallDirection.
Proof. solve_decision. Defined.
#[export] Instance SipInviteState_eq_dec : EqDecision SipInviteState.
Proof. solve_decision. Defined.
#[export] Instance CallState_eq_dec : EqDecision CallState.
Proof. solve_decision. Defined.
#[export] Instance CallEndReason_eq_dec : EqDecision CallEndReason.
Proof. solve_decision. Defined.
Definition call_direction_as_str (d : CallDirection) : str :=
  match d with MobileOriginated => lit "mobile_originated" | MobileTerminated => lit "mobile_terminated" end.
Definition invite_as_str (s : SipInviteState) : str :=
  match s with
  | InvIdle => lit "idle" | InvQueued => lit "queued" | InviteSent => lit "invite_sent" | InvRinging => lit "ringing"
  | EarlyMedia => lit "early_media" | Confirmed => lit "confirmed" | InvTerminated => lit "terminated"
  | InvFailed => lit "failed"
  end.
Definition call_state_as_str (s : CallState) : str :=
  match s with
  | Dialing => lit "dialing" | Ringing => lit "ringing" | Active => lit "active" | Ended => lit "ended"
  | CallFailed => lit "failed"
  end.
Definition api_status (s : CallState) : str :=
  match s with
  | Dialing => lit "dialing" | Ringing => lit "ringing" | Active => lit "active" | Ended => lit "ended"
  | CallFailed => lit "failed"
  end.
Definition end_reason_as_str (r : CallEndReason) : str :=
  match r with
  | LocalHangup => lit "local_hangup" | RemoteHangup => lit "remote_hangup" | RemoteBusy => lit "remote_busy"
  | NoAnswer => lit "no_answer" | Declined => lit "declined" | NetworkFailure => lit "network_failure"
  | MediaFailure => lit "media_failure" | Canceled => lit "canceled"
  end.
Definition from_sip_status (status : Z) : CallEndReason :=
  if ((status =? 486) || (status =? 600))%Z then RemoteBusy
  else if ((status =? 408) || (status =? 480))%Z then NoAnswer
  else if (status =? 603)%Z then Declined
  else if (status =? 487)%Z then Canceled
  else NetworkFailure.

Record MoCallInvite := mkMoInvite {
  mo_trace_id : str; mo_call_id : str; mo_callee : str; mo_sdp_offer : list Z; mo_sdp_bytes : Z;
  mo_offered_codecs : list AudioCodec }.
Record MoCallSipOutcome := mkMoOutcome {
  oc_trace_id : str; oc_call_id : str; oc_sip_status : Z; oc_invite_state : SipInviteState; oc_call_state : CallState;
  oc_negotiated_codec : option AudioCodec; oc_failure_cause : option str }.
Definition outcome_api_status (o : MoCallSipOutcome) : str := api_status (oc_call_state o).
Record MtCallInvite := mkMtInvite {
  mt_call_id : str; mt_caller : str; mt_sdp_offer_bytes : Z; mt_offered_codecs : list AudioCodec }.
Record CallSdpSummary := mkSdpSummary {
  ss_role : str; ss_media_transport : str; ss_codec_count : Z; ss_negotiated_codec : option str; ss_direction : str;
  ss_ptime_ms : option Z; ss_sdp_bytes : Z; ss_values_redacted : bool; ss_policy : str }.
Record CallSipSummary := mkSipSummary {
  sip_direction : str; sip_method : str; sip_transport : str; sip_invite_state : str; sip_status : option Z;
  sip_policy : str }.
Record CallMediaSummary := mkMediaSummary {
  ms_leg : str; ms_media_transport : str; ms_negotiated_codec : option str; ms_clock_rate : option Z;
  ms_packets_sent : Z; ms_packets_received : Z; ms_source_bound : bool; ms_sink_bound : bool; ms_policy : str }.
Record CallRecord := mkCall {
  c_trace_id : str;
  c_call_id : str;
  c_direction : CallDirection;
  c_invite_state : SipInviteState;
  c_call_state : CallState;
  c_leg : VoiceLegKind;
  c_negotiated_codec : option AudioCodec;
  c_end_reason : option CallEndReason;
  c_failure_cause : option str;
  c_retry_count : Z;
  c_packets_sent : Z;
  c_packets_received : Z;
}.
Record CallPublicRecord := mkPublicCall {
  pc_trace_id : str; pc_call_id : str; pc_direction : str; pc_call_state : str; pc_api_status : str;
  pc_invite_state : str; pc_leg : str; pc_negotiated_codec : option str; pc_end_reason : option str;
  pc_failure_cause : option str; pc_retry_count : Z; pc_packets_sent : Z; pc_packets_received : Z;
  pc_db_fact_source : str; pc_policy : str }.
Definition from_record (r : CallRecord) : CallPublicRecord :=
  mkPublicCall (c_trace_id r) (c_call_id r) (call_direction_as_str (c_direction r)) (call_state_as_str (c_call_state r))
    (api_status (c_call_state r)) (invite_as_str (c_invite_state r)) (leg_as_str (c_leg r))
    (codec_as_str <$> c_negotiated_codec r) (end_reason_as_str <$> c_end_reason r) (c_failure_cause r) (c_retry_count r)
    (c_packets_sent r) (c_packets_received r) (lit "vowifi_voice_call")
    (lit "phone_numbers_sdp_body_and_rtp_media_not_serialized").
Record VoiceRuntimePublicState := mkVoiceState {
  pv_profile_id : str; pv_plmn : str; pv_voice_ready : bool; pv_vowifi_voice_enabled : bool;
  pv_carrier_leg_available : bool; pv_preferred_leg : str; pv_media_transport : str; pv_preferred_codec : option str;
  pv_active_call : CallPublicRecord; pv_last_sip : option CallSipSummary; pv_last_sdp : option CallSdpSummary;
  pv_last_media : option CallMediaSummary; pv_sip_endpoint_exposed : bool; pv_consistency_policy : str; pv_policy : str }.

(** ** The call state machine *)
Record VoiceCallStateMachine := mkMachine {
  vm_params : VoiceParams;
  vm_media_transport : MediaTransportKind;
  vm_vowifi_voice_enabled : bool;
  vm_carrier_leg_available : bool;
  vm_preferred_leg : VoiceLegKind;
  vm_reg_ready : bool;
  vm_call : CallRecord;
  vm_last_sip : option CallSipSummary;
  vm_last_sdp : option CallSdpSummary;
  vm_last_media : option CallMediaSummary;
}.
Definition with_params (params : VoiceParams) : VoiceCallStateMachine :=
  let preferred := if vowifi_enabled params then LegVowifi
    else if carrier_fallback_enabled params then LegCarrier else LegNone in
  mkMachine params RtpAvp (vowifi_enabled params) (carrier_fallback_enabled params) preferred false
    (mkCall (lit "voice-dry-run") (lit "call-dry-run-0001") MobileOriginated InvIdle Dialing LegNone None None None 0 0 0)
    None None None.
(** Assignments to the fields of the call. *)
Definition set_call (c : CallRecord) (m : VoiceCallStateMachine) : VoiceCallStateMachine :=
  mkMachine (vm_params m) (vm_media_transport m) (vm_vowifi_voice_enabled m) (vm_carrier_leg_available m)
    (vm_preferred_leg m) (vm_reg_ready m) c (vm_last_sip m) (vm_last_sdp m) (vm_last_media m).
Definition set_summaries (sip : option CallSipSummary) (sdp : option CallSdpSummary) (media : option CallMediaSummary)
    (m : VoiceCallStateMachine) : VoiceCallStateMachine :=
  mkMachine (vm_params m) (vm_media_transport m) (vm_vowifi_voice_enabled m) (vm_carrier_leg_available m)
    (vm_preferred_leg m) (vm_reg_ready m) (vm_call m) sip sdp media.
Definition set_states (i : SipInviteState) (s : CallState) (c : CallRecord) : CallRecord :=
  mkCall (c_trace_id c) (c_call_id c) (c_direction c) i s (c_leg c) (c_negotiated_codec c) (c_end_reason c)
    (c_failure_cause c) (c_retry_count c) (c_packets_sent c) (c_packets_received c).
Definition set_outcome (reason : option CallEndReason) (cause : option str) (c : CallRecord) : CallRecord :=
  mkCall (c_trace_id c) (c_call_id c) (c_direction c) (c_invite_state c) (c_call_state c) (c_leg c)
    (c_negotiated_codec c) reason cause (c_retry_count c) (c_packets_sent c) (c_packets_received c).
Definition set_codec (codec : option AudioCodec) (c : CallRecord) : CallRecord :=
  mkCall (c_trace_id c) (c_call_id c) (c_direction c) (c_invite_state c) (c_call_state c) (c_leg c) codec
    (c_end_reason c) (c_failure_cause c) (c_retry_count c) (c_packets_sent c) (c_packets_received c).

Definition mark_registration_ready (m : VoiceCallStateMachine) : VoiceCallStateMachine :=
  mkMachine (vm_params m) (vm_media_transport m) (vm_vowifi_voice_enabled m) (vm_carrier_leg_available m)
    (vm_preferred_leg m) true (vm_call m) (vm_last_sip m) (vm_last_sdp m) (vm_last_media m).
Definition call_state (m : VoiceCallStateMachine) : CallState := c_call_state (vm_call m).
Definition negotiated_codec (m : VoiceCallStateMachine) : option AudioCodec := c_negotiated_codec (vm_call m).
Definition queue_mo_call (leg : VoiceLegKind) (m : VoiceCallStateMachine) : VoiceCallStateMachine :=
  let c := vm_call m in
  set_call (mkCall (c_trace_id c) (c_call_id c) MobileOriginated InvQueued Dialing leg (c_negotiated_codec c) None None
    (c_retry_count c) (c_packets_sent c) (c_packets_received c)) m.
Definition sip_summary (direction : str) (status : option Z) (m : VoiceCallStateMachine) : CallSipSummary :=
  mkSipSummary direction (lit "INVITE") (ims_transport (vm_params m)) (invite_as_str (c_invite_state (vm_call m))) status
    (lit "sip_headers_and_sdp_body_not_serialized").
Definition sdp_summary (role : str) (count : Z) (codec : option AudioCodec) (m : VoiceCallStateMachine) : CallSdpSummary :=
  mkSdpSummary role (transport_as_str (vm_media_transport m)) count (codec_as_str <$> codec) (direction_as_str SendRecv)
    (Some (ptime_ms (vm_params m))) 0 true (lit "sdp_connection_and_media_addresses_not_serialized").
Definition media_summary (m : VoiceCallStateMachine) : CallMediaSummary :=
  let c := vm_call m in
  mkMediaSummary (leg_as_str (c_leg c)) (transport_as_str (vm_media_transport m)) (codec_as_str <$> c_negotiated_codec c)
    (clock_rate <$> c_negotiated_codec c) (c_packets_sent c) (c_packets_received c) false false
    (lit "rtp_payloads_and_media_keys_not_serialized").
Definition submit_invite (offered_codecs : Z) (m : VoiceCallStateMachine) : CallSipSummary * VoiceCallStateMachine :=
  let m := set_call (set_states InviteSent Dialing (vm_call m)) m in
  let sip := sip_summary (lit "outbound") None m in
  (sip, set_summaries (Some sip) (Some (sdp_summary (lit "offer") offered_codecs None m)) (vm_last_media m) m).
Definition accept_provisional (status : Z) (m : VoiceCallStateMachine) : CallSipSummary * VoiceCallStateMachine :=
  let m := set_call (set_states (if (status =? 183)%Z then EarlyMedia else InvRinging) Ringing (vm_call m)) m in
  let sip := sip_summary (lit "inbound") (Some status) m in
  (sip, set_summaries (Some sip) (vm_last_sdp m) (vm_last_media m) m).
Definition accept_final_answer (status : Z) (codec : option AudioCodec) (m : VoiceCallStateMachine)
    : res VoiceRuntimeError CallSipSummary * VoiceCallStateMachine :=
  if negb (in_range 200 299 status) then
    (Err (SipRejected status),
     set_call (set_outcome (Some (from_sip_status status)) (Some (lit "sip_" ++ fmt_dec status))
       (set_states InvFailed CallFailed (vm_call m))) m)
  else
    let m := set_call (set_codec codec (set_states Confirmed Active (vm_call m))) m in
    let sip := sip_summary (lit "inbound") (Some status) m in
    (Ok sip, set_summaries (Some sip)
       (Some (sdp_summary (lit "answer") (match codec with Some _ => 1 | None => 0 end) codec m))
       (Some (media_summary m)) m).
Definition record_media_progress (sent received : Z) (m : VoiceCallStateMachine) : VoiceCallStateMachine :=
  let c := vm_call m in
  let m := set_call (mkCall (c_trace_id c) (c_call_id c) (c_direction c) (c_invite_state c) (c_call_state c) (c_leg c)
    (c_negotiated_codec c) (c_end_reason c) (c_failure_cause c) (c_retry_count c)
    (sat_add u64_max (c_packets_sent c) sent) (sat_add u64_max (c_packets_received c) received)) m in
  set_summaries (vm_last_sip m) (vm_last_sdp m) (Some (media_summary m)) m.
Definition terminate (reason : CallEndReason) (m : VoiceCallStateMachine) : VoiceCallStateMachine :=
  let failed := match reason with NetworkFailure | MediaFailure => true | _ => false end in
  set_call (set_outcome (Some reason) (c_failure_cause (vm_call m))
    (set_states (if failed : bool then InvFailed else InvTerminated) (if failed : bool then CallFailed else Ended) (vm_call m))) m.
Definition assert_state_consistency (m : VoiceCallStateMachine) : res VoiceRuntimeError unit :=
  let c := vm_call m in
  _ ← fail_if (bool_decide (c_call_state c = Active) && negb (bool_decide (c_invite_state c = Confirmed)))
        (InconsistentState (lit "active_call_requires_confirmed_dialog"));
  fail_if (bool_decide (c_call_state c = Active) && bool_decide (c_negotiated_codec c = None))
        (InconsistentState (lit "active_call_requires_negotiated_codec")).
Definition voice_snapshot (m : VoiceCallStateMachine) : VoiceRuntimePublicState :=
  mkVoiceState (profile_id (vm_params m)) (plmn (vm_params m))
    (vm_reg_ready m && (vm_vowifi_voice_enabled m || vm_carrier_leg_available m))
    (vm_vowifi_voice_enabled m) (vm_carrier_leg_available m) (leg_as_str (vm_preferred_leg m))
    (transport_as_str (vm_media_transport m))
    (codec_as_str <$> (head (preferred_codecs (vm_params m)) ≫= codec_from_token))
    (from_record (vm_call m)) (vm_last_sip m) (vm_last_sdp m) (vm_last_media m) false
    (lit "ims_voice_call_is_single_fact_source_for_logs_api_and_ui")
    (lit "phone_numbers_sdp_body_rtp_media_and_media_keys_not_serialized").
Definition build_dry_run_voice_snapshot_with_params (params : VoiceParams) : res unit VoiceRuntimePublicState :=
  let m := queue_mo_call LegVowifi (mark_registration_ready (with_params params)) in
  let m := (submit_invite 2 m).2 in
  let m := (accept_provisional 180 m).2 in
  let m := (accept_provisional 183 m).2 in
  let '(answer, m) := accept_final_answer 200 (Some Amr) m in
  match answer with
  | Ok _ =>
    let m := record_media_progress 50 50 m in
    match assert_state_consistency m with
    | Ok _ => Ok (voice_snapshot (terminate LocalHangup m))
    | _ => Panic
    end
  | _ => Panic
  end.
Definition select_voice_leg_with_params (params : VoiceParams) (vowifi_ready carrier_usb_audio_available : bool) : VoiceLegKind :=
  if vowifi_enabled params && vowifi_ready then LegVowifi
  else if carrier_fallback_enabled params && carrier_usb_audio_available then LegCarrier
  else LegNone.

(** ** The reserved interfaces and their inert defaults *)
Record AudioFrame := mkFrame { frame_type : Z; frame_payload : list Z; timestamp_increment : Z }.
Class AudioSource (S : Type) := { next_frame : S → option AudioFrame * S; source_codec : S → AudioCodec }.
Class AudioSink (S : Type) := { deliver_frame : AudioFrame → S → S; sink_codec : S → AudioCodec }.
Class CarrierVoiceLeg (S : Type) := {
  usb_audio_available : S → bool;
  dial : str → S → res VoiceRuntimeError unit * S;
  answer : S → res VoiceRuntimeError unit * S;
  hangup : S → res VoiceRuntimeError unit * S;
  poll_state : S → CallState * S;
}.
Class SipEndpointBridge (S : Type) := {
  is_exposed : S → bool;
  local_aor : S → option str;
  on_external_invite : str → S → res VoiceRuntimeError VoiceLegKind * S;
}.
Record SilentAudioSource := mkSilent { silent_codec : AudioCodec }.
#[export] Instance silent_source : AudioSource SilentAudioSource :=
  { next_frame s := (None, s); source_codec s := silent_codec s }.
Record NullAudioSink := mkNull { null_codec : AudioCodec }.
#[export] Instance null_sink : AudioSink NullAudioSink :=
  { deliver_frame _ s := s; sink_codec s := null_codec s }.
Inductive DisabledCarrierVoiceLeg := mkDisabled.
#[export] Instance disabled_leg : CarrierVoiceLeg DisabledCarrierVoiceLeg := {
  usb_audio_available _ := false;
  dial _ s := (Err (InconsistentState (lit "carrier_leg_disabled_no_usb_audio")), s);
  answer s := (Err (InconsistentState (lit "carrier_leg_disabled_no_usb_audio")), s);
  hangup s := (Ok tt, s);
  poll_state s := (Ended, s);
}.
Inductive UnexposedSipEndpointBridge := mkUnexposed.
#[export] Instance unexposed_bridge : SipEndpointBridge UnexposedSipEndpointBridge := {
  is_exposed _ := false;
  local_aor _ := None;
  on_external_invite _ s := (Err (InconsistentState (lit "sip_endpoint_bridge_not_exposed")), s);
}.

(** ** The call of the cellular leg *)
Definition DEFAULT_VOICE_CODECS : list str := [lit "amr-wb"; lit "amr"; lit "pcmu"; lit "pcma"].
Definition DEFAULT_PTIME_MS : Z := 20.
Definition cellular_ims_voice_params (voice_enabled : bool) : VoiceParams :=
  mkVoiceParams DEFAULT_VOICE_CODECS [] DEFAULT_PTIME_MS false voice_enabled false (lit "udp") (lit "cellular_ims") [].
Record ImsVideoConfig := mkVideoConfig {
  cellular_ims_enabled : bool;
  vowifi_video_enabled : bool;
  video_codec : str;
  video_payload_type : Z;
  h264_fmtp : str;
}.
Definition ImsVideoConfig_default : ImsVideoConfig :=
  mkVideoConfig false false (lit "h264") 99 (lit "profile-level-id=42e01f;packetization-mode=1").
Record MediaEndpoint := mkEndpoint { ep_addr : str; ep_addr_type : SdpAddrType; ep_port : Z }.
Record SdpNegotiation := mkNegotiation { ng_answer : SdpAudioDescription; ng_codec : option AudioCodec }.
Inductive CallMediaMode := AudioOnly | AudioVideo.
#[export] Instance CallMediaMode_eq_dec : EqDecision CallMediaMode.
Proof. solve_decision. Defined.
Definition mode_as_str (m : CallMediaMode) : str :=
  match m with AudioOnly => lit "audio" | AudioVideo => lit "audio_video" end.
Definition has_video (m : CallMediaMode) : bool := match m with AudioVideo => true | AudioOnly => false end.
Inductive MediaSwitchError :=
| CallNotActive | AlreadyInMode (mode : str) | VideoNotEnabled | SwitchRejected (code : Z).
#[export] Instance MediaSwitchError_eq_dec : EqDecision MediaSwitchError.
Proof. solve_decision. Defined.
Definition switch_error_text (e : MediaSwitchError) : str :=
  match e with
  | CallNotActive => lit "media_switch_call_not_active"
  | AlreadyInMode mode => lit "media_switch_already_" ++ mode
  | VideoNotEnabled => lit "media_switch_video_not_enabled"
  | SwitchRejected code => lit "media_switch_rejected_" ++ fmt_dec code
  end.
Record MediaReoffer := mkReoffer { ro_sdp : str; ro_target_mode : CallMediaMode }.
Record CellularImsVoiceCall := mkCellularCall {
  cc_machine : VoiceCallStateMachine;
  cc_params : VoiceParams;
  cc_local_media : MediaEndpoint;
  cc_local_video_media : option MediaEndpoint;
  cc_ims_video : ImsVideoConfig;
  cc_video_enabled : bool;
  cc_media_mode : CallMediaMode;
  cc_pending_switch : option CallMediaMode;
}.
Definition cellular_call_new (voice_enabled : bool) (local_media : MediaEndpoint) : CellularImsVoiceCall :=
  let params := cellular_ims_voice_params voice_enabled in
  mkCellularCall (with_params params) params local_media None ImsVideoConfig_default false AudioOnly None.
Definition with_vilte (config : ImsVideoConfig) (media : MediaEndpoint) (c : CellularImsVoiceCall) : CellularImsVoiceCall :=
  mkCellularCall (cc_machine c) (cc_params c) (cc_local_media c) (Some media) config (cellular_ims_enabled config)
    (cc_media_mode c) (cc_pending_switch c).
Definition video_available (c : CellularImsVoiceCall) : bool :=
  cc_video_enabled c && bool_decide (is_Some (cc_local_video_media c)).
Definition voice_enabled (c : CellularImsVoiceCall) : bool := vowifi_enabled (cc_params c).
Definition set_machine (m : VoiceCallStateMachine) (c : CellularImsVoiceCall) : CellularImsVoiceCall :=
  mkCellularCall m (cc_params c) (cc_local_media c) (cc_local_video_media c) (cc_ims_video c) (cc_video_enabled c)
    (cc_media_mode c) (cc_pending_switch c).
Definition set_mode (mode : CallMediaMode) (pending : option CallMediaMode) (c : CellularImsVoiceCall) : CellularImsVoiceCall :=
  mkCellularCall (cc_machine c) (cc_params c) (cc_local_media c) (cc_local_video_media c) (cc_ims_video c)
    (cc_video_enabled c) mode pending.
Definition local_audio_offer (base sequence : Z) (c : CellularImsVoiceCall) : SdpAudioDescription :=
  build_mo_audio_offer_with_params base sequence (cc_params c) (ep_addr (cc_local_media c))
    (ep_addr_type (cc_local_media c)) (ep_port (cc_local_media c)).
Definition call_mark_registration_ready (c : CellularImsVoiceCall) : CellularImsVoiceCall :=
  set_machine (mark_registration_ready (cc_machine c)) c.
Definition build_mo_offer (base sequence : Z) (c : CellularImsVoiceCall) : SdpAudioDescription * CellularImsVoiceCall :=
  let c := set_machine (queue_mo_call LegVowifi (cc_machine c)) c in
  (local_audio_offer base sequence c, c).
Definition negotiate_answer (base sequence : Z) (offer_body : list Z) (c : CellularImsVoiceCall)
    : res VoiceRuntimeError SdpNegotiation :=
  offer ← map_err (λ _, NoCommonCodec) (parse_audio_sdp offer_body);
  answer ← build_sdp_answer_with_params base sequence (cc_params c) offer (ep_addr (cc_local_media c))
             (ep_addr_type (cc_local_media c)) (ep_port (cc_local_media c));
  Ok (mkNegotiation answer (sc_codec <$> head (codecs answer))).
Definition on_invite_sent (offered_codecs : Z) (c : CellularImsVoiceCall) : CellularImsVoiceCall :=
  set_machine (submit_invite offered_codecs (cc_machine c)).2 c.
Definition on_provisional (status : Z) (c : CellularImsVoiceCall) : CellularImsVoiceCall :=
  set_machine (accept_provisional status (cc_machine c)).2 c.
Definition on_final_answer (status : Z) (codec : option AudioCodec) (c : CellularImsVoiceCall)
    : res VoiceRuntimeError unit * CellularImsVoiceCall :=
  let '(r, m) := accept_final_answer status codec (cc_machine c) in
  ((λ _, tt) <$> r, set_machine m c).
Definition on_media_progress (sent received : Z) (c : CellularImsVoiceCall) : CellularImsVoiceCall :=
  set_machine (record_media_progress sent received (cc_machine c)) c.
Definition call_terminate (reason : CallEndReason) (c : CellularImsVoiceCall) : CellularImsVoiceCall :=
  set_machine (terminate reason (cc_machine c)) c.
Definition assert_consistent (c : CellularImsVoiceCall) : res VoiceRuntimeError unit :=
  assert_state_consistency (cc_machine c).
Definition upgrade_to_video (base sequence : Z) (c : CellularImsVoiceCall)
    : res MediaSwitchError MediaReoffer * CellularImsVoiceCall :=
  if negb (bool_decide (call_state (cc_machine c) = Active)) then (Err CallNotActive, c)
  else if bool_decide (cc_media_mode c = AudioVideo) then (Err (AlreadyInMode (lit "audio_video")), c)
  else if negb (video_available c) then (Err VideoNotEnabled, c)
  else match cc_local_video_media c with
  | None => (Err VideoNotEnabled, c)
  | Some media =>
    let audio := local_audio_offer base sequence c in
    let video := build_video_offer (video_codec (cc_ims_video c)) (video_payload_type (cc_ims_video c))
      (h264_fmtp (cc_ims_video c)) (ep_port media) in
    (Ok (mkReoffer (build_av_sdp audio video) AudioVideo), set_mode (cc_media_mode c) (Some AudioVideo) c)
  end.
Definition downgrade_to_audio (base sequence : Z) (c : CellularImsVoiceCall)
    : res MediaSwitchError MediaReoffer * CellularImsVoiceCall :=
  if negb (bool_decide (call_state (cc_machine c) = Active)) then (Err CallNotActive, c)
  else if bool_decide (cc_media_mode c = AudioOnly) then (Err (AlreadyInMode (lit "audio")), c)
  else (Ok (mkReoffer (to_sdp (local_audio_offer base sequence c)) AudioOnly), set_mode (cc_media_mode c) (Some AudioOnly) c).
Definition switch_pending (c : CellularImsVoiceCall) : bool := bool_decide (is_Some (cc_pending_switch c)).
Definition confirm_media_switch (status : Z) (c : CellularImsVoiceCall)
    : res MediaSwitchError CallMediaMode * CellularImsVoiceCall :=
  match cc_pending_switch c with
  | None => (Ok (cc_media_mode c), c)
  | Some target =>
    if negb (in_range 200 299 status) then (Err (SwitchRejected status), set_mode (cc_media_mode c) None c)
    else (Ok target, set_mode target None c)
  end.

(** ** The adapter of the VoWiFi leg

    [VoiceProfile] holds the fields of a carrier profile the adapter reads. *)
Record VoiceCodecPolicy := mkCodecPolicy {
  vcp_codec : str; vcp_payload_type : option Z; vcp_sample_rate : option Z; vcp_fmtp : option str }.
Record VoiceProfile := mkVoiceProfile {
  vp_vowifi_enabled : bool; vp_carrier_fallback_enabled : bool; vp_preferred_codecs : list str;
  vp_codec_policies : list VoiceCodecPolicy; vp_amr_octet_align : bool; vp_ptime_ms : Z;
  vp_transport : str; vp_profile_id : str; vp_plmn : str }.
Definition voice_params (p : VoiceProfile) : VoiceParams :=
  mkVoiceParams (vp_preferred_codecs p)
    (omap (λ q, (λ c, mkPolicy c (vcp_payload_type q) (vcp_sample_rate q) (vcp_fmtp q)) <$> codec_from_token (vcp_codec q))
       (vp_codec_policies p))
    (vp_ptime_ms p) (vp_amr_octet_align p) (vp_vowifi_enabled p) (vp_carrier_fallback_enabled p)
    (vp_transport p) (vp_profile_id p) (vp_plmn p).
Definition machine_new (p : VoiceProfile) : VoiceCallStateMachine := with_params (voice_params p).
Definition build_mo_audio_offer (base sequence : Z) (p : VoiceProfile) (addr : str) (a : SdpAddrType) (port : Z)
    : SdpAudioDescription := build_mo_audio_offer_with_params base sequence (voice_params p) addr a port.
Definition build_profile_codec_offer (p : VoiceProfile) : list SdpCodec := build_codec_offer_with_params (voice_params p).
Definition build_sdp_answer (base sequence : Z) (p : VoiceProfile) (offer : SdpAudioDescription) (addr : str)
    (a : SdpAddrType) (port : Z) : res VoiceRuntimeError SdpAudioDescription :=
  build_sdp_answer_with_params base sequence (voice_params p) offer addr a port.
Definition build_dry_run_voice_snapshot (p : VoiceProfile) : res unit VoiceRuntimePublicState :=
  build_dry_run_voice_snapshot_with_params (voice_params p).
Definition select_voice_leg (p : VoiceProfile) (vowifi_ready carrier_usb_audio_available : bool) : VoiceLegKind :=
  select_voice_leg_with_params (voice_params p) vowifi_ready carrier_usb_audio_available.

(** * Dial strings *)
Definition dial_char (c : Z) : bool := is_ascii_digit c || service_character c.
(** What an IMS request may carry: a number, or a service code. *)
Definition number_ok (p : str) : Prop := Forall (λ c, is_ascii_digit c = true) p ∧ 3 ≤ length p ≤ 20.
Definition service_ok (u : str) : Prop :=
  Forall (λ c, dial_char c = true) u ∧ existsb service_character u = true ∧ length u ≤ 32.
Definition dial_ok (u : str) : Prop := number_ok u ∨ (∃ p, u = ch "+" :: p ∧ number_ok p) ∨ service_ok u.

Lemma dial_digit_range c : is_ascii_digit c = true ↔ (48 ≤ c ≤ 57)%Z.
Proof. unfold is_ascii_digit. rewrite in_range_true. done. Qed.
Lemma service_values c : service_character c = true ↔ c = 42%Z ∨ c = 35%Z.
Proof. unfold service_character. rewrite orb_true_iff, !Z.eqb_eq. done. Qed.
Lemma dial_char_values c : dial_char c = true ↔ (48 ≤ c ≤ 57)%Z ∨ c = 42%Z ∨ c = 35%Z.
Proof. unfold dial_char. rewrite orb_true_iff, dial_digit_range, service_values. done. Qed.
Lemma dial_scan_rest i sp hs user sp' hs' : (0 < i) →
  dial_scan i sp hs user = Ok (sp', hs') ↔
  Forall (λ c, dial_char c = true) user ∧ sp' = sp ∧ hs' = hs || existsb service_character user.
Proof.
  revert i hs. induction user as [|c user IH]; intros i hs Hi; cbn [dial_scan existsb].
  { rewrite orb_false_r. split; [intros [= <- <-]; done|intros (_ & -> & ->); done]. }
  rewrite Forall_cons, (proj2 (Nat.eqb_neq i 0)) by lia.
  destruct (Z.eqb_spec c (ch "+")) as [->|Hp].
  { split; [done|]. intros ((Hc & _) & _). by vm_compute in Hc. }
  unfold dial_char at 1. destruct (is_ascii_digit c) eqn:Hd; cbn [orb].
  - rewrite IH by lia. assert (service_character c = false) as ->; [|by rewrite orb_assoc, orb_false_r; tauto].
    apply not_true_iff_false. rewrite service_values. apply dial_digit_range in Hd. lia.
  - destruct (service_character c) eqn:Hs.
    + rewrite IH by lia. rewrite orb_true_r. tauto.
    + split; [done|]. by intros ((? & _) & _).
Qed.
Lemma no_panic_dial_scan i sp hs user : no_panic (dial_scan i sp hs user).
Proof.
  revert i sp hs. induction user as [|c user IH]; intros i sp hs; [done|]. cbn [dial_scan].
  destruct (c =? ch "+")%Z; [by destruct (i =? 0)|]. destruct (is_ascii_digit c); [done|]. by destruct (service_character c).
Qed.
(** The first character may be the plus sign. *)
Lemma dial_scan_start user sp hs : dial_scan 0 false false user = Ok (sp, hs) ↔
  (∃ p, user = ch "+" :: p ∧ Forall (λ c, dial_char c = true) p ∧ sp = true ∧ hs = existsb service_character p) ∨
  (Forall (λ c, dial_char c = true) user ∧ sp = false ∧ hs = existsb service_character user).
Proof.
  destruct user as [|c user]; cbn [dial_scan].
  { split; [intros [= <- <-]; by right|]. intros [(p & [=] & _)|(_ & -> & ->)]. done. }
  change (0 =? 0) with true. cbv iota. destruct (Z.eqb_spec c (ch "+")) as [->|Hp].
  - rewrite dial_scan_rest by lia. cbn [orb]. split.
    + intros (HF & -> & ->). left. by exists user.
    + intros [(p & [= <-] & HF & -> & ->)|(HF & _)]; [done|]. apply Forall_cons in HF as [HF _]. by vm_compute in HF.
  - assert (∀ sp hs, (∃ p, c :: user = ch "+" :: p ∧ Forall (λ c, dial_char c = true) p ∧ sp = true ∧ hs = existsb service_character p) → False) as Hno.
    { intros ?? (p & [= Hc _] & _). by apply Hp. }
    rewrite Forall_cons. cbn [existsb]. unfold dial_char at 2. destruct (is_ascii_digit c) eqn:Hd; cbn [orb].
    + rewrite dial_scan_rest by lia. assert (service_character c = false) as ->.
      { apply not_true_iff_false. rewrite service_values. apply dial_digit_range in Hd. lia. }
      cbn [orb]. split; [tauto|]. intros [H|H]; [by destruct (Hno _ _ H)|tauto].
    + destruct (service_character c) eqn:Hs.
      * rewrite dial_scan_rest by lia. cbn [orb]. split; [tauto|]. intros [H|H]; [by destruct (Hno _ _ H)|tauto].
      * split; [done|]. intros [H|((? & _) & _)]; [by destruct (Hno _ _ H)|done].
Qed.
Lemma dial_char_ascii s : Forall (λ c, dial_char c = true) s → utf8_encode s = s.
Proof.
  intros Hs. apply utf8_encode_ascii. eapply Forall_impl; [exact Hs|]. intros c Hc%dial_char_values. unfold is_ascii. lia.
Qed.
Lemma no_service p : Forall (λ c, dial_char c = true) p → existsb service_character p = false ↔ Forall (λ c, is_ascii_digit c = true) p.
Proof.
  induction 1 as [|c p Hc _ IH]; [done|]. cbn [existsb]. rewrite orb_false_iff, Forall_cons, IH.
  assert (service_character c = false ↔ is_ascii_digit c = true) as ->; [|done].
  rewrite dial_digit_range, <-not_true_iff_false, service_values. apply dial_char_values in Hc. lia.
Qed.
Lemma digits_dial p : Forall (λ c, is_ascii_digit c = true) p → Forall (λ c, dial_char c = true) p.
Proof. intros H. eapply Forall_impl; [exact H|]. intros c Hc. unfold dial_char. by rewrite Hc. Qed.
Lemma plus_stripped p : strip_prefix (lit "+") (ch "+" :: p) = Some p.
Proof. apply (strip_prefix_app (lit "+") p). Qed.
Lemma plus_absent u : Forall (λ c, dial_char c = true) u → strip_prefix (lit "+") u = None.
Proof.
  destruct u as [|c u]; [done|]. intros [Hc _]%Forall_cons. unfold strip_prefix, starts_with.
  change (take (length (lit "+")) (c :: u)) with [c]. rewrite bool_decide_eq_false_2; [done|].
  intros [= ->]. by vm_compute in Hc.
Qed.
(** The checks after the scan. *)
Definition dial_check (user : str) : res ImsDialStringError str :=
  if bool_decide (user = []) then Err DialEmpty else
  '(saw_plus, has_service) ← dial_scan 0 false false user;
  let payload := default user (strip_prefix (lit "+") user) in
  if bool_decide (payload = []) || (saw_plus && has_service) then Err InvalidPlusPlacement else
  let len := length (utf8_encode payload) in
  let valid_length := if has_service : bool then (1 <=? len)%nat && (len <=? 32)%nat
                      else (3 <=? len)%nat && (len <=? 20)%nat in
  if valid_length : bool then Ok user else Err InvalidLength.
Lemma length_check (a b n : nat) : (a <=? n) && (n <=? b) = true ↔ a ≤ n ≤ b.
Proof. by rewrite andb_true_iff, !Nat.leb_le. Qed.
Lemma dial_check_plus p u : dial_check (ch "+" :: p) = Ok u ↔ u = ch "+" :: p ∧ number_ok p.
Proof.
  unfold dial_check. rewrite bool_decide_eq_false_2 by done. rewrite bind_Ok. split.
  - intros ([sp hs] & Hs & H). apply dial_scan_start in Hs as [(q & [= <-] & HF & -> & ->)|(HF & _)].
    2:{ apply Forall_cons in HF as [HF _]. by vm_compute in HF. }
    rewrite plus_stripped in H. change (default _ (Some p)) with p in H. cbn [andb] in H.
    destruct (existsb service_character p) eqn:He; [by rewrite orb_true_r in H|]. rewrite orb_false_r in H.
    case_bool_decide; [done|]. rewrite dial_char_ascii in H by done.
    destruct (_ && _) eqn:Hl; [|done]. apply length_check in Hl. apply Ok_inj in H as <-.
    split; [done|]. split; [|done]. by apply no_service.
  - intros [-> [Hd Hl]]. exists (true, false). pose proof (digits_dial p Hd) as Hc. split.
    { apply dial_scan_start. left. exists p. split; [done|]. split; [done|]. split; [done|]. symmetry. by apply no_service. }
    rewrite plus_stripped. change (default _ (Some p)) with p. rewrite bool_decide_eq_false_2 by (destruct p; simpl in Hl; [lia|done]).
    cbn [orb andb]. rewrite dial_char_ascii by done. by rewrite (proj2 (length_check _ _ _)).
Qed.
Lemma dial_check_plain v u : (∀ p, v ≠ ch "+" :: p) → dial_check v = Ok u ↔ u = v ∧ (number_ok v ∨ service_ok v).
Proof.
  intros Hplus. unfold dial_check. case_bool_decide as Hne.
  { subst v. split; [done|]. intros (_ & [[_ ?]|(_ & He & _)]); [simpl in *; lia|done]. }
  rewrite bind_Ok. split.
  - intros ([sp hs] & Hs & H). apply dial_scan_start in Hs as [(q & Hq & _)|(HF & -> & ->)]; [by destruct (Hplus q)|].
    rewrite plus_absent in H by done. change (default v None) with v in H. rewrite bool_decide_eq_false_2 in H by done.
    cbn [orb andb] in H. rewrite dial_char_ascii in H by done.
    destruct (existsb service_character v) eqn:He; (destruct (_ && _) eqn:Hl; [|done]); apply length_check in Hl;
      apply Ok_inj in H as <-; (split; [done|]).
    + right. split; [done|]. split; [done|lia].
    + left. split; [by apply no_service|done].
  - intros [-> Hok]. assert (Forall (λ c, dial_char c = true) v) as Hc.
    { destruct Hok as [[Hd _]|[Hc _]]; [by apply digits_dial|done]. }
    exists (false, existsb service_character v). split; [apply dial_scan_start; by right|].
    rewrite plus_absent by done. change (default v None) with v. rewrite bool_decide_eq_false_2 by done. cbn [orb andb].
    rewrite dial_char_ascii by done. destruct Hok as [[Hd Hl]|(_ & He & Hl)].
    + rewrite (proj2 (no_service v Hc) Hd). by rewrite (proj2 (length_check _ _ _)).
    + rewrite He. rewrite (proj2 (length_check _ _ _)); [done|]. destruct v; [done|]. simpl in *. lia.
Qed.
Lemma dial_check_exact v u : dial_check v = Ok u ↔ u = v ∧ dial_ok v.
Proof.
  unfold dial_ok. destruct (decide (head v = Some (ch "+"))) as [Hh|Hh].
  - destruct v as [|c p]; [done|]. injection Hh as ->. rewrite dial_check_plus. split.
    + intros [-> H]. split; [done|]. right. left. by exists p.
    + intros [-> [[Hd _]|[(q & [= <-] & H)|(Hc & _)]]]; [|done|].
      * apply Forall_cons in Hd as [Hd _]. by vm_compute in Hd.
      * apply Forall_cons in Hc as [Hc _]. by vm_compute in Hc.
  - rewrite dial_check_plain by (by intros p ->). split; [intros [-> H]; tauto|].
    intros [-> [H|[(p & -> & _)|H]]]; [tauto|done|tauto].
Qed.
Lemma dial_ok_chars u : dial_ok u → Forall (λ c, (48 ≤ c ≤ 57)%Z ∨ c = 42%Z ∨ c = 35%Z ∨ c = 43%Z) u.
Proof.
  assert (∀ s, Forall (λ c, dial_char c = true) s → Forall (λ c, (48 ≤ c ≤ 57)%Z ∨ c = 42%Z ∨ c = 35%Z ∨ c = 43%Z) s) as H.
  { intros s Hs. eapply Forall_impl; [exact Hs|]. intros c Hc%dial_char_values. tauto. }
  intros [[Hd _]|[(p & -> & Hd & _)|(Hc & _)]]; [by apply H, digits_dial| |by apply H].
  constructor; [by do 3 right|]. by apply H, digits_dial.
Qed.
Lemma foreign_prefix (c : Z) s u : Forall (λ d, d ≠ c) u → strip_prefix (c :: s) u = None.
Proof.
  intros Hu. unfold strip_prefix, starts_with. rewrite bool_decide_eq_false_2; [done|].
  destruct Hu as [|d u Hd _]; simpl; [done|]. congruence.
Qed.
Lemma dial_part_id u : dial_ok u → dial_user_part u = u.
Proof.
  intros Hu%dial_ok_chars. unfold dial_user_part.
  assert (∀ c, (∀ d, ((48 ≤ d ≤ 57) ∨ d = 42 ∨ d = 35 ∨ d = 43)%Z → d ≠ c) → Forall (λ d, d ≠ c) u) as Hno.
  { intros c Hc. eapply Forall_impl; [exact Hu|]. intros d. apply Hc. }
  assert (∀ c, (∀ d, ((48 ≤ d ≤ 57) ∨ d = 42 ∨ d = 35 ∨ d = 43)%Z → d ≠ c) → split c u = [u]) as Hsplit.
  { intros c Hc. apply split_plain. eapply Forall_impl; [exact Hu|]. intros d Hd. by apply Z.eqb_neq, Hc. }
  assert (Forall (λ c, separator c = false) u) as Hsep.
  { eapply Forall_impl; [exact Hu|]. intros d Hd. unfold separator, is_whitespace. rewrite !orb_false_iff, !in_range_false. simpl.
    rewrite !orb_false_iff, !Z.eqb_neq. change (ch "-") with 45%Z. change (ch "(") with 40%Z. change (ch ")") with 41%Z. cbn beta in Hd. lia. }
  assert (Forall (λ c, is_whitespace c = false) u) as Hw.
  { eapply Forall_impl; [exact Hsep|]. intros d Hd. unfold separator in Hd. rewrite !orb_false_iff in Hd. tauto. }
  rewrite trim_id by (first [by apply head_not_Forall|by apply head_not_reverse]).
  rewrite (foreign_prefix (ch "s") (lit "ip:")) by (apply Hno; change (ch "s") with 115%Z; lia).
  rewrite (foreign_prefix (ch "t") (lit "el:")) by (apply Hno; change (ch "t") with 116%Z; lia).
  change (default u None) with u. rewrite (Hsplit (ch "@")) by (change (ch "@") with 64%Z; lia).
  change (default [] (head [u])) with u. rewrite (Hsplit (ch ";")) by (change (ch ";") with 59%Z; lia).
  change (default [] (head [u])) with u. clear -Hsep.
  induction Hsep as [|c u Hc _ IH]; [done|]. rewrite filter_cons, Hc, IH. done.
Qed.

(** C30: the dial string that reaches an INVITE.  A target is accepted exactly when
    its user part, stripped of separators, is a number of 3 to 20 digits with an
    optional leading plus, or a service code of at most 32 digits, stars and
    hashes; the result is that user part.  What was accepted is accepted again
    unchanged, and no input panics. *)
Theorem dial_accepted_exact value user :
  (normalize_ims_dial_user value = Ok user ↔ user = dial_user_part value ∧ dial_ok user) ∧
  (dial_ok user → normalize_ims_dial_user user = Ok user) ∧
  no_panic (normalize_ims_dial_user value).
Proof.
  change (normalize_ims_dial_user value) with (dial_check (dial_user_part value)).
  change (normalize_ims_dial_user user) with (dial_check (dial_user_part user)).
  split; [|split].
  - rewrite dial_check_exact. split; [intros [-> H]; done|intros [-> H]; done].
  - intros Hok. rewrite dial_part_id by done. by apply dial_check_exact.
  - unfold dial_check. case_bool_decide; [done|]. apply no_panic_bind; [apply no_panic_dial_scan|].
    intros [sp hs] _. case_match; [done|]. by case_match.
Qed.
Lemma dial_accepted_exact_witness :
  normalize_ims_dial_user (lit "sip:+44 (20) 7946-0018@ims.example;phone-context=x") = Ok (lit "+442079460018") ∧
  normalize_ims_dial_user (lit "+442079460018") = Ok (lit "+442079460018") ∧
  normalize_ims_dial_user (lit "+1*86") = Err InvalidPlusPlacement ∧ normalize_ims_dial_user (lit "*86") = Ok (lit "*86").
Proof.
  assert (dial_ok (lit "+442079460018")) as Hok.
  { right. left. exists (lit "442079460018"). split; [reflexivity|]. split; [|vm_compute; lia].
    apply (bool_decide_unpack _). vm_compute. exact I. }
  split; [|split; [|split; vm_compute; reflexivity]].
  - apply dial_accepted_exact. split; [vm_compute; reflexivity|exact Hok].
  - by apply (dial_accepted_exact []).
Defined.

(** * The state machine *)
Inductive CallOp :=
| OpReady
| OpQueue (leg : VoiceLegKind)
| OpInvite (offered_codecs : Z)
| OpProvisional (status : Z)
| OpFinal (status : Z) (codec : option AudioCodec)
| OpProgress (sent received : Z)
| OpTerminate (reason : CallEndReason).
Definition call_op (m : VoiceCallStateMachine) (op : CallOp) : VoiceCallStateMachine :=
  match op with
  | OpReady => mark_registration_ready m
  | OpQueue leg => queue_mo_call leg m
  | OpInvite n => (submit_invite n m).2
  | OpProvisional s => (accept_provisional s m).2
  | OpFinal s codec => (accept_final_answer s codec m).2
  | OpProgress a b => record_media_progress a b m
  | OpTerminate r => terminate r m
  end.
Definition call_run (ops : list CallOp) (m : VoiceCallStateMachine) : VoiceCallStateMachine := foldl call_op m ops.

(** The state of the dialog and the state shown agree, and an end has its reason. *)
Definition call_inv (c : CallRecord) : Prop :=
  match c_call_state c with
  | Dialing => c_invite_state c = InvIdle ∨ c_invite_state c = InvQueued ∨ c_invite_state c = InviteSent
  | Ringing => c_invite_state c = InvRinging ∨ c_invite_state c = EarlyMedia
  | Active => c_invite_state c = Confirmed
  | Ended => c_invite_state c = InvTerminated ∧
      ∃ r, c_end_reason c = Some r ∧ r ≠ NetworkFailure ∧ r ≠ MediaFailure
  | CallFailed => c_invite_state c = InvFailed ∧ ∃ r, c_end_reason c = Some r
  end.
Lemma call_op_inv op m : call_inv (vm_call m) → call_inv (vm_call (call_op m op)).
Proof.
  intros H. destruct op as [|leg|n|s|s codec|a b|r]; cbn [call_op]; [done|right; by left|by right; right| | |exact H|].
  - unfold accept_provisional, call_inv. cbn. destruct (s =? 183)%Z; [by right|by left].
  - unfold accept_final_answer. destruct (negb _); cbn; [|done]. split; [done|by eexists].
  - unfold terminate, call_inv. destruct r; cbn; (split; [done|]); eexists; done.
Qed.
Lemma call_run_inv ops m : call_inv (vm_call m) → call_inv (vm_call (call_run ops m)).
Proof. revert m. induction ops as [|op ops IH]; intros m H; [done|]. by apply IH, call_op_inv. Qed.
Definition answers_with_codec (op : CallOp) : Prop :=
  match op with OpFinal s None => in_range 200 299 s = false | _ => True end.
Definition active_coded (c : CallRecord) : Prop := c_call_state c = Active → is_Some (c_negotiated_codec c).
Lemma call_op_coded op m : answers_with_codec op → active_coded (vm_call m) → active_coded (vm_call (call_op m op)).
Proof.
  unfold active_coded. intros Hop H. destruct op as [|leg|n|s|s codec|a b|r]; cbn [call_op]; [exact H|done|done|done| |exact H|].
  - unfold accept_final_answer. destruct (in_range 200 299 s) eqn:Hs; cbn; [|done]. destruct codec; [by eexists|].
    cbn in Hop. congruence.
  - by destruct r.
Qed.
Lemma assert_exact m : call_inv (vm_call m) →
  assert_state_consistency m =
    if bool_decide (call_state m = Active) && bool_decide (negotiated_codec m = None)
    then Err (InconsistentState (lit "active_call_requires_negotiated_codec")) else Ok tt.
Proof.
  intros H. unfold assert_state_consistency, call_state, negotiated_codec, call_inv in *.
  destruct (c_call_state (vm_call m)) eqn:Hc; try done. rewrite H. by destruct (c_negotiated_codec (vm_call m)).
Qed.

(** whatever the order of the events of a call, the state shown and the state
    of the dialog agree and an end has its reason; the check the code makes of
    itself then fails in one case only, an active call whose answer brought no
    codec, and never when every accepted answer brings one. *)
Theorem call_machine_consistent params ops :
  let m := call_run ops (with_params params) in
  call_inv (vm_call m) ∧
  assert_state_consistency m =
    (if bool_decide (call_state m = Active) && bool_decide (negotiated_codec m = None)
     then Err (InconsistentState (lit "active_call_requires_negotiated_codec")) else Ok tt) ∧
  (Forall answers_with_codec ops → assert_state_consistency m = Ok tt).
Proof.
  cbv zeta. assert (call_inv (vm_call (call_run ops (with_params params)))) as Hinv by (apply call_run_inv; by left).
  split; [done|]. split; [by apply assert_exact|]. intros Hops. rewrite assert_exact by done.
  assert (active_coded (vm_call (call_run ops (with_params params)))) as Hcoded.
  { assert (active_coded (vm_call (with_params params))) as H by done. revert H. generalize (with_params params).
    clear Hinv. unfold call_run. induction Hops as [|op ops Hop _ IH]; intros m H; [done|]. cbn. apply IH. by apply call_op_coded. }
  unfold active_coded in Hcoded. fold (call_state (call_run ops (with_params params))) in Hcoded.
  fold (negotiated_codec (call_run ops (with_params params))) in Hcoded.
  case_bool_decide as Hact; [|done]. destruct (Hcoded Hact) as [c ->]. done.
Qed.

(** The offline demonstration walks through without a panic. *)
Lemma dry_run_completes params : ∃ s, build_dry_run_voice_snapshot_with_params params = Ok s ∧
  pc_call_state (pv_active_call s) = lit "ended" ∧ pc_negotiated_codec (pv_active_call s) = Some (lit "amr").
Proof. eexists. split; [reflexivity|]. done. Qed.

(** * The cellular call *)
Inductive CellularOp :=
| CellCall (op : CallOp)
| CellOffer (base sequence : Z)
| CellUpgrade (base sequence : Z)
| CellDowngrade (base sequence : Z)
| CellConfirm (status : Z).
Definition cellular_op (c : CellularImsVoiceCall) (op : CellularOp) : CellularImsVoiceCall :=
  match op with
  | CellCall OpReady => call_mark_registration_ready c
  | CellCall (OpQueue leg) => set_machine (queue_mo_call leg (cc_machine c)) c
  | CellCall (OpInvite n) => on_invite_sent n c
  | CellCall (OpProvisional s) => on_provisional s c
  | CellCall (OpFinal s codec) => (on_final_answer s codec c).2
  | CellCall (OpProgress a b) => on_media_progress a b c
  | CellCall (OpTerminate r) => call_terminate r c
  | CellOffer base sequence => (build_mo_offer base sequence c).2
  | CellUpgrade base sequence => (upgrade_to_video base sequence c).2
  | CellDowngrade base sequence => (downgrade_to_audio base sequence c).2
  | CellConfirm status => (confirm_media_switch status c).2
  end.
Lemma cellular_call_op c op : cellular_op c (CellCall op) = set_machine (call_op (cc_machine c) op) c.
Proof. destruct op; try done. cbn. unfold on_final_answer. by destruct (accept_final_answer _ _ _). Qed.

Section cellular.
Context (enabled : bool) (local_media : MediaEndpoint) (vilte : option (ImsVideoConfig * MediaEndpoint)).

Definition cellular_start : CellularImsVoiceCall :=
  match vilte with
  | Some (config, media) => with_vilte config media (cellular_call_new enabled local_media)
  | None => cellular_call_new enabled local_media
  end.
Record cellular_inv (c : CellularImsVoiceCall) : Prop := {
  ci_call : call_inv (vm_call (cc_machine c));
  ci_params : cc_params c = cellular_ims_voice_params enabled;
  ci_media : cc_local_media c = local_media;
  ci_video : cc_ims_video c = cc_ims_video cellular_start ∧ cc_local_video_media c = cc_local_video_media cellular_start ∧
    cc_video_enabled c = cc_video_enabled cellular_start;
  ci_mode : cc_media_mode c = AudioVideo ∨ cc_pending_switch c = Some AudioVideo → video_available cellular_start = true;
  ci_pending : ∀ t, cc_pending_switch c = Some t → t ≠ cc_media_mode c;
}.
Lemma cellular_start_inv : cellular_inv cellular_start.
Proof.
  constructor; unfold cellular_start; destruct vilte as [[config media]|]; try done; try (by left); by intros [].
Qed.
Lemma cellular_available c : cellular_inv c → video_available c = video_available cellular_start.
Proof. intros [_ _ _ (_ & Hm & He) _ _]. unfold video_available. by rewrite Hm, He. Qed.
Lemma cellular_switch_inv c mode pending : cellular_inv c →
  (mode = AudioVideo ∨ pending = Some AudioVideo → video_available cellular_start = true) →
  (∀ t, pending = Some t → t ≠ mode) → cellular_inv (set_mode mode pending c).
Proof. intros [? ? ? ? ? ?] Hm Hp. by constructor. Qed.
Lemma cellular_op_inv c op : cellular_inv c → cellular_inv (cellular_op c op).
Proof.
  intros H. destruct op as [op|b s|b s|b s|status].
  - rewrite cellular_call_op. destruct H. constructor; try done. by apply call_op_inv.
  - destruct H. constructor; try done. cbn. right. by left.
  - cbn [cellular_op]. unfold upgrade_to_video. destruct (negb _); [done|]. case_bool_decide as Hmode; [done|].
    destruct (negb (video_available c)) eqn:Hav; [done|]. apply negb_false_iff in Hav. rewrite cellular_available in Hav by done.
    destruct (cc_local_video_media c); [|done]. apply cellular_switch_inv; [done|done|]. intros t [= <-]. congruence.
  - cbn [cellular_op]. unfold downgrade_to_audio. destruct (negb _); [done|]. case_bool_decide as Hmode; [done|].
    apply cellular_switch_inv; [done| |intros t [= <-]; congruence].
    intros [Hv|[=]]. apply (ci_mode c H). by left.
  - cbn [cellular_op]. unfold confirm_media_switch. destruct (cc_pending_switch c) as [t|] eqn:Hp; [|done].
    destruct (negb _); (apply cellular_switch_inv; [done| |done]); intros [Hv|[=]]; apply (ci_mode c H); [by left|].
    right. by rewrite Hp, Hv.
Qed.
Lemma cellular_run_inv ops : cellular_inv (foldl cellular_op cellular_start ops).
Proof.
  assert (∀ c, cellular_inv c → cellular_inv (foldl cellular_op c ops)) as H; [|apply H, cellular_start_inv].
  induction ops as [|op ops IH]; intros c H; [done|]. by apply IH, cellular_op_inv.
Qed.
Lemma cellular_policies p f : p ∈ policies_of (cellular_ims_voice_params enabled) → pol_fmtp p = Some f → fmtp_ok f.
Proof.
  unfold policies_of, cellular_ims_voice_params. cbn.
  intros [->|[->|[->|[->|Hp%not_elem_of_nil]%elem_of_cons]%elem_of_cons]%elem_of_cons]%elem_of_cons; done.
Qed.
Lemma cellular_offer : build_codec_offer_with_params (cellular_ims_voice_params enabled) ≠ [].
Proof. by destruct enabled. Qed.

(** Only an accepted answer to a pending switch changes the mode. *)
Lemma mode_changed_by c op : cc_media_mode (cellular_op c op) ≠ cc_media_mode c →
  ∃ status, op = CellConfirm status ∧ (200 ≤ status ≤ 299)%Z ∧ cc_pending_switch c = Some (cc_media_mode (cellular_op c op)).
Proof.
  destruct op as [op|b s|b s|b s|status]; [by rewrite cellular_call_op| |cbn; unfold upgrade_to_video|
    cbn; unfold downgrade_to_audio|cbn; unfold confirm_media_switch]; try (by repeat case_match).
  intros H. destruct (cc_pending_switch c) as [t|]; [|done]. destruct (in_range 200 299 status) eqn:Hs; [|done].
  apply in_range_true in Hs. by exists status.
Qed.
(** The answer to a re-offer decides: an accepting one takes the target, any other keeps the
    mode and names the status; the call itself stays as it was. *)
Definition settles (old target : CallMediaMode) (c : CellularImsVoiceCall) : Prop := ∀ status,
  let '(r, c') := confirm_media_switch status c in
  cc_machine c' = cc_machine c ∧ cc_pending_switch c' = None ∧
  ((200 ≤ status ≤ 299)%Z → r = Ok target ∧ cc_media_mode c' = target) ∧
  (¬ (200 ≤ status ≤ 299)%Z → r = Err (SwitchRejected status) ∧ cc_media_mode c' = old).
Lemma pending_settles c target : settles (cc_media_mode c) target (set_mode (cc_media_mode c) (Some target) c).
Proof.
  intros status. unfold confirm_media_switch. cbn [cc_pending_switch set_mode].
  destruct (in_range 200 299 status) eqn:Hs; cbn [negb]; [apply in_range_true in Hs|apply in_range_false in Hs];
    (split; [done|]; split; [done|]; split; [|]; intros ?; try lia; done).
Qed.
Lemma cellular_audio_ok base sequence c : cellular_inv c →
  word (ep_addr local_media) → Forall is_char (ep_addr local_media) → (0 ≤ ep_port local_media ≤ u16_max)%Z →
  sdp_ok (local_audio_offer base sequence c).
Proof.
  intros Hc Hw Hch Hport. unfold local_audio_offer. rewrite (ci_params c Hc), (ci_media c Hc).
  apply offered_ok; [apply cellular_offer|apply cellular_policies|done|done|done|]. cbn. unfold u16_max, DEFAULT_PTIME_MS. lia.
Qed.
(** What an upgrade and a downgrade do. *)
Definition video_reoffer (base sequence : Z) (c : CellularImsVoiceCall) (media : MediaEndpoint) : str :=
  build_av_sdp (local_audio_offer base sequence c)
    (build_video_offer (video_codec (cc_ims_video c)) (video_payload_type (cc_ims_video c)) (h264_fmtp (cc_ims_video c)) (ep_port media)).
Lemma upgrade_cases base sequence c :
  (call_state (cc_machine c) = Active ∧ cc_media_mode c = AudioOnly ∧ video_available c = true ∧
   ∃ media, cc_local_video_media c = Some media ∧
     upgrade_to_video base sequence c = (Ok (mkReoffer (video_reoffer base sequence c media) AudioVideo), set_mode AudioOnly (Some AudioVideo) c)) ∨
  ¬ (call_state (cc_machine c) = Active ∧ cc_media_mode c = AudioOnly ∧ video_available c = true) ∧
  ∃ e, upgrade_to_video base sequence c = (Err e, c).
Proof.
  unfold upgrade_to_video. case_bool_decide as Hact; cbn [negb]; [|right; split; [tauto|by eexists]].
  case_bool_decide as Hmode; [right; split; [intros (_ & Hm & _); congruence|by eexists]|].
  destruct (video_available c) eqn:Hav; cbn [negb]; [|right; split; [by intros (_ & _ & [=])|by eexists]].
  assert (is_Some (cc_local_video_media c)) as [media Hm].
  { unfold video_available in Hav. apply andb_true_iff in Hav as [_ Hs]. by apply bool_decide_eq_true in Hs. }
  assert (cc_media_mode c = AudioOnly) as Hao by (by destruct (cc_media_mode c)).
  left. rewrite Hm, Hao. split_and!; [done..|]. by exists media.
Qed.
Lemma downgrade_cases base sequence c :
  (call_state (cc_machine c) = Active ∧ cc_media_mode c = AudioVideo ∧
   downgrade_to_audio base sequence c =
     (Ok (mkReoffer (to_sdp (local_audio_offer base sequence c)) AudioOnly), set_mode AudioVideo (Some AudioOnly) c)) ∨
  ¬ (call_state (cc_machine c) = Active ∧ cc_media_mode c = AudioVideo) ∧
  ∃ e, downgrade_to_audio base sequence c = (Err e, c).
Proof.
  unfold downgrade_to_audio. case_bool_decide as Hact; cbn [negb]; [|right; split; [tauto|by eexists]].
  case_bool_decide as Hmode; [right; split; [intros (_ & Hm); congruence|by eexists]|].
  assert (cc_media_mode c = AudioVideo) as Hav by (by destruct (cc_media_mode c)).
  left. by rewrite Hav.
Qed.

(** C15: the switch between audio and video, after any run of a cellular call.  The call
    keeps its own consistency; it carries or awaits video only when video was enabled with
    an endpoint; a pending switch always changes the mode, and nothing but an accepting
    answer to it does.  An upgrade is granted exactly on an active audio call with video
    available, a downgrade exactly on an active call with video.  The body of an upgrade
    tells the far end the audio of the call and the video configured, as both readers see
    it; that of a downgrade tells it the same audio and no video.  The call goes on
    unchanged meanwhile; then a 2xx answer takes the new mode and any other is reported and
    leaves the old one. *)
Theorem media_switch_sound ops base sequence :
  let c := foldl cellular_op cellular_start ops in
  let audio := local_audio_offer base sequence c in
  let endpoint_ok := word (ep_addr local_media) ∧ Forall is_char (ep_addr local_media) ∧ (0 ≤ ep_port local_media ≤ u16_max)%Z in
  call_inv (vm_call (cc_machine c)) ∧
  (cc_media_mode c = AudioVideo ∨ cc_pending_switch c = Some AudioVideo → video_available c = true) ∧
  (∀ t, cc_pending_switch c = Some t → t ≠ cc_media_mode c) ∧
  (∀ op, cc_media_mode (cellular_op c op) ≠ cc_media_mode c →
     ∃ status, op = CellConfirm status ∧ (200 ≤ status ≤ 299)%Z ∧ cc_pending_switch c = Some (cc_media_mode (cellular_op c op))) ∧
  (let '(r, c') := upgrade_to_video base sequence c in
   match r with
   | Ok reoffer =>
     call_state (cc_machine c) = Active ∧ cc_media_mode c = AudioOnly ∧ ro_target_mode reoffer = AudioVideo ∧
     cc_machine c' = cc_machine c ∧ cc_media_mode c' = AudioOnly ∧ settles AudioOnly AudioVideo c' ∧
     ∃ media, cc_local_video_media c = Some media ∧
     let video := build_video_offer (video_codec (cc_ims_video c)) (video_payload_type (cc_ims_video c))
                    (h264_fmtp (cc_ims_video c)) (ep_port media) in
     (endpoint_ok → video_ok video →
      parse_audio_sdp (utf8_encode (ro_sdp reoffer)) = Ok audio ∧
      parse_video_sdp (utf8_encode (ro_sdp reoffer)) = Ok (video_within audio video))
   | Err _ => c' = c ∧ ¬ (call_state (cc_machine c) = Active ∧ cc_media_mode c = AudioOnly ∧ video_available c = true)
   | Panic => False
   end) ∧
  (let '(r, c') := downgrade_to_audio base sequence c in
   match r with
   | Ok reoffer =>
     call_state (cc_machine c) = Active ∧ cc_media_mode c = AudioVideo ∧ ro_target_mode reoffer = AudioOnly ∧
     cc_machine c' = cc_machine c ∧ cc_media_mode c' = AudioVideo ∧ settles AudioVideo AudioOnly c' ∧
     (endpoint_ok → parse_audio_sdp (utf8_encode (ro_sdp reoffer)) = Ok audio ∧
                    parse_video_sdp (utf8_encode (ro_sdp reoffer)) = Err NoVideoMedia)
   | Err _ => c' = c ∧ ¬ (call_state (cc_machine c) = Active ∧ cc_media_mode c = AudioVideo)
   | Panic => False
   end).
Proof.
  cbv zeta. pose proof (cellular_run_inv ops) as Hc. revert Hc. generalize (foldl cellular_op cellular_start ops). intros c Hc.
  split; [apply Hc|]. split; [rewrite cellular_available by done; apply Hc|]. split; [apply Hc|].
  split; [apply mode_changed_by|]. split.
  - destruct (upgrade_cases base sequence c) as [(Ha & Hm & _ & media & Hme & ->)|[Hno [e ->]]]; [|done].
    split_and!; try done; [rewrite <-Hm; apply pending_settles|]. exists media. split; [done|].
    intros (Hw & Hch & Hport) Hv. pose proof (cellular_audio_ok base sequence c Hc Hw Hch Hport) as Hok.
    split; [by apply av_audio|by apply av_video].
  - destruct (downgrade_cases base sequence c) as [(Ha & Hm & ->)|[Hno [e ->]]]; [|done].
    split_and!; try done; [rewrite <-Hm; apply pending_settles|].
    intros (Hw & Hch & Hport). pose proof (cellular_audio_ok base sequence c Hc Hw Hch Hport) as Hok.
    split; [by apply sdp_read_back|by apply audio_only_no_video].
Qed.
End cellular.

(** * Witnesses *)
Lemma call_machine_consistent_witness :
  assert_state_consistency (call_run [OpReady; OpQueue LegVowifi; OpInvite 1; OpProvisional 183; OpFinal 200 (Some Evs)]
    (with_params sample_params)) = Ok tt ∧
  assert_state_consistency (call_run [OpFinal 200 None] (with_params sample_params)) =
    Err (InconsistentState (lit "active_call_requires_negotiated_codec")).
Proof.
  split; [|vm_compute; reflexivity]. apply (call_machine_consistent sample_params).
  do 5 (apply Forall_cons_2; [exact I|]). apply Forall_nil_2.
Defined.
Definition sample_endpoint (port : Z) : MediaEndpoint := mkEndpoint (lit "10.0.0.2") Ip4 port.
Definition sample_video_config : ImsVideoConfig :=
  mkVideoConfig true false (lit "h.264") 99 (lit "profile-level-id=42e01f;packetization-mode=1").
Definition sample_call : CellularImsVoiceCall :=
  foldl cellular_op (cellular_start true (sample_endpoint 40000) (Some (sample_video_config, sample_endpoint 40002)))
    [CellOffer 1 2; CellCall (OpInvite 4); CellCall (OpFinal 200 (Some AmrWb))].
Lemma sample_video_offer_ok :
  video_ok (build_video_offer (video_codec sample_video_config) (video_payload_type sample_video_config)
    (h264_fmtp sample_video_config) 40002).
Proof.
  constructor; cbn -[encoding_for_codec bool_decide].
  - unfold u16_max. lia.
  - exact I.
  - lia.
  - split; [plain_lit|]. split; plain_lit.
  - apply fmtp_ok_text; vm_compute; reflexivity.
Qed.
Lemma media_switch_sound_witness :
  ∃ reoffer v, (upgrade_to_video 5 6 sample_call).1 = Ok reoffer ∧
    parse_video_sdp (utf8_encode (ro_sdp reoffer)) = Ok v ∧ v_media_port v = 40002%Z ∧ v_encoding v = lit "H264" ∧
    v_connection_addr v = Some (lit "10.0.0.2") ∧
    cc_media_mode (confirm_media_switch 488 (upgrade_to_video 5 6 sample_call).2).2 = AudioOnly.
Proof.
  pose proof (media_switch_sound true (sample_endpoint 40000) (Some (sample_video_config, sample_endpoint 40002))
    [CellOffer 1 2; CellCall (OpInvite 4); CellCall (OpFinal 200 (Some AmrWb))] 5 6) as H.
  cbv zeta in H. destruct H as (_ & _ & _ & _ & H & _). fold sample_call in H.
  destruct (upgrade_to_video 5 6 sample_call) as [r c'] eqn:E.
  assert (∃ o, r = Ok o) as [o ->].
  { assert (∃ o, (upgrade_to_video 5 6 sample_call).1 = Ok o) as [o Ho] by (eexists; vm_compute; reflexivity).
    exists o. by rewrite E in Ho. }
  destruct H as (_ & _ & _ & _ & _ & Hs & media & Hmedia & H).
  assert (media = sample_endpoint 40002) as -> by (injection Hmedia as <-; reflexivity).
  destruct H as [_ H]; [split; [plain_lit|split; [plain_lit|cbn; unfold u16_max; lia]]|exact sample_video_offer_ok|].
  eexists o, _. split; [reflexivity|]. split; [exact H|]. split; [reflexivity|]. split; [reflexivity|]. split; [reflexivity|].
  specialize (Hs 488%Z). cbn [fst snd]. destruct (confirm_media_switch 488 c') as [q d]. destruct Hs as (_ & _ & _ & Hs).
  apply Hs. lia.
Defined.
