(* ===== verification/Ipsec.v ===== *)
(** * IPsec between the device and the P-CSCF

    The pure part of [connectivity/modems/ims/cellular_ims/ipsec.rs]: the
    agreements of RFC 3329 as they are read, the algorithms of the kernel, the
    plan of security associations and policies of TS 33.203 and the arguments of
    [ip xfrm] that install, remove and log it.  Errors are the codes of
    [errors.rs].  Running the commands is not modelled.  The lemmas: a plan that
    replaces another after an accepted rollover shares no association and no
    policy with it, and what is logged does not depend on the keys. *)
From Stdlib Require Import Ascii String ZArith Lia.
From stdpp Require Import prelude.
From S2P Require Import Prelude Text SipFrame RetryAfter Stun SipMessage.

(** ** Agreements *)
Definition SECURITY_SERVER_MISSING : str := lit "cellular_ims_security_server_missing".
Definition SECURITY_SERVER_INVALID : str := lit "cellular_ims_security_server_invalid".
Definition SECURITY_CLIENT_INVALID : str := lit "cellular_ims_security_client_invalid".
Definition PCSCF_FAMILY_MISMATCH : str := lit "cellular_ims_pcscf_family_mismatch".
Definition IPSEC_IK_INVALID : str := lit "cellular_ims_ipsec_ik_invalid".
Abbreviation cellular := (res str).

Record SecAgree := mkSecAgree { spi_c : Z; spi_s : Z; port_c : Z; port_s : Z }.
#[export] Instance SecAgree_eq_dec : EqDecision SecAgree.
Proof. solve_decision. Defined.
Definition security_client_value (b : SecAgree) : str :=
  lit "ipsec-3gpp;alg=hmac-md5-96;ealg=null;prot=esp;mod=trans;spi-c=" ++ fmt_dec (spi_c b)
  ++ lit ";spi-s=" ++ fmt_dec (spi_s b) ++ lit ";port-c=" ++ fmt_dec (port_c b)
  ++ lit ";port-s=" ++ fmt_dec (port_s b).
Definition spaced_security_client_value (b : SecAgree) : str :=
  lit "ipsec-3gpp; alg=hmac-md5-96; ealg=null; prot=esp; mod=trans; spi-c=" ++ fmt_dec (spi_c b)
  ++ lit "; spi-s=" ++ fmt_dec (spi_s b) ++ lit "; port-c=" ++ fmt_dec (port_c b)
  ++ lit "; port-s=" ++ fmt_dec (port_s b).
Definition compact_security_client_value (b : SecAgree) : str :=
  lit "ipsec-3gpp;alg=hmac-md5-96;ealg=null;spi-c=" ++ fmt_dec (spi_c b)
  ++ lit ";spi-s=" ++ fmt_dec (spi_s b) ++ lit ";port-c=" ++ fmt_dec (port_c b)
  ++ lit ";port-s=" ++ fmt_dec (port_s b).

(** [u32::from_str_radix(s, 16)] *)
Fixpoint parse_hex_digits (max acc : Z) (s : str) : option Z :=
  match s with
  | [] => Some acc
  | c :: s =>
    d ← hex_value c;
    let acc := (acc * 16 + d)%Z in
    if (acc <=? max)%Z then parse_hex_digits max acc s else None
  end.
Definition from_str_radix_16 (max : Z) (s : str) : option Z :=
  match s with
  | [] => None
  | [c] => parse_hex_digits max 0 [c]
  | c :: s' => if (c =? ch "+")%Z then parse_hex_digits max 0 s' else parse_hex_digits max 0 s
  end.
Definition parse_u32 (value : str) : option Z :=
  match strip_prefix (lit "0x") value with
  | Some hex => from_str_radix_16 u32_max hex
  | None =>
    match strip_prefix (lit "0X") value with
    | Some hex => from_str_radix_16 u32_max hex
    | None => parse_unsigned u32_max value
    end
  end.
(** The variables of the loop over the parameters. *)
Record ServerScan := mkServerScan {
  sv_spi_c : option Z; sv_spi_s : option Z; sv_port_c : option Z; sv_port_s : option Z }.
Definition server_parameter (st : ServerScan) (part : str) : ServerScan :=
  match split_once (ch "=") (trim part) with
  | None => st
  | Some (name, raw) =>
    let raw := trim_matches (Z.eqb quote) (trim raw) in
    let name := to_ascii_lowercase <$> trim name in
    if str_eqb name (lit "spi-c") then mkServerScan (parse_u32 raw) (sv_spi_s st) (sv_port_c st) (sv_port_s st)
    else if str_eqb name (lit "spi-s") then mkServerScan (sv_spi_c st) (parse_u32 raw) (sv_port_c st) (sv_port_s st)
    else if str_eqb name (lit "port-c") then mkServerScan (sv_spi_c st) (sv_spi_s st) (parse_unsigned u16_max raw) (sv_port_s st)
    else if str_eqb name (lit "port-s") then mkServerScan (sv_spi_c st) (sv_spi_s st) (sv_port_c st) (parse_unsigned u16_max raw)
    else st
  end.
Definition validate_binding (b : SecAgree) : cellular unit :=
  fail_if ((spi_c b =? 0)%Z || (spi_s b =? 0)%Z || (port_c b =? 0)%Z || (port_s b =? 0)%Z) SECURITY_SERVER_INVALID.
Definition parse_security_server (value : str) : cellular SecAgree :=
  let parts := split (ch ";") value in
  let mechanism := (λ part, to_ascii_lowercase <$> trim part) <$> head parts in
  let st := foldl server_parameter (mkServerScan None None None None) (tail parts) in
  _ ← fail_if (negb (bool_decide (mechanism = Some (lit "ipsec-3gpp")))) SECURITY_SERVER_MISSING;
  c ← ok_or SECURITY_SERVER_MISSING (sv_spi_c st);
  s ← ok_or SECURITY_SERVER_MISSING (sv_spi_s st);
  pc ← ok_or SECURITY_SERVER_MISSING (sv_port_c st);
  ps ← ok_or SECURITY_SERVER_MISSING (sv_port_s st);
  let selected := mkSecAgree c s pc ps in
  _ ← validate_binding selected;
  Ok selected.
Definition validate_server_rollover (current replacement : SecAgree) : cellular unit :=
  _ ← validate_binding replacement;
  fail_if (negb (port_s replacement =? port_s current)%Z || (port_c replacement =? port_c current)%Z
    || (spi_c replacement =? spi_c current)%Z || (spi_c replacement =? spi_s current)%Z
    || (spi_s replacement =? spi_c current)%Z || (spi_s replacement =? spi_s current)%Z) SECURITY_SERVER_INVALID.

(** ** Algorithms *)
Record XfrmAlgs := mkAlgs { auth : str; auth_trunc_bits : Z; enc : str }.
#[export] Instance XfrmAlgs_eq_dec : EqDecision XfrmAlgs.
Proof. solve_decision. Defined.
Definition XfrmAlgs_default : XfrmAlgs := mkAlgs (lit "hmac(md5)") 96 (lit "cipher_null").
Definition algorithm_parameter (st : option str * option str) (part : str) : option str * option str :=
  match split_once (ch "=") part with
  | None => st
  | Some (name, raw) =>
    let value := to_ascii_lowercase <$> trim_matches (Z.eqb quote) (trim raw) in
    let name := to_ascii_lowercase <$> trim name in
    if str_eqb name (lit "alg") then (Some value, st.2)
    else if str_eqb name (lit "ealg") then (st.1, Some value)
    else st
  end.
Definition integrity_name (integrity : option str) : cellular str :=
  if bool_decide (integrity = Some (lit "hmac-md5-96")) then Ok (lit "hmac(md5)")
  else if bool_decide (integrity = Some (lit "hmac-sha-1-96")) || bool_decide (integrity = Some (lit "hmac-sha1-96"))
  then Ok (lit "hmac(sha1)")
  else Err SECURITY_SERVER_MISSING.
Definition encryption_name (encryption : option str) : cellular str :=
  if bool_decide (encryption = Some (lit "null")) then Ok (lit "cipher_null")
  else if bool_decide (encryption = Some (lit "aes-cbc")) then Ok (lit "cbc(aes)")
  else Err SECURITY_SERVER_MISSING.
Definition xfrm_algs_from_security_server (value : str) : cellular XfrmAlgs :=
  let '(integrity, encryption) := foldl algorithm_parameter (None, None) (drop 1 (split (ch ";") value)) in
  a ← integrity_name integrity;
  e ← encryption_name encryption;
  Ok (mkAlgs a 96 e).

(** ** The plan *)
Inductive XfrmTransport := XUdp | XTcp.
#[export] Instance XfrmTransport_eq_dec : EqDecision XfrmTransport.
Proof. solve_decision. Defined.
Definition xfrm_transport_as_str (t : XfrmTransport) : str := match t with XUdp => lit "udp" | XTcp => lit "tcp" end.
Record XfrmSa := mkSa {
  sa_src : IpAddr; sa_dst : IpAddr; sa_spi : Z; sa_auth_key : list Z; sa_enc_key : list Z; sa_algs : XfrmAlgs;
  sa_sport : Z; sa_dport : Z; sa_transport : XfrmTransport }.
Definition hex_key (key : list Z) : str := lit "0x" ++ (key ≫= fmt_byte).
Definition ip_str (ip : IpAddr) : str := match ip with V4 octets => fmt_v4 octets | V6 octets => fmt_v6 octets end.
(** [format!("0x{:08x}", spi)] *)
Definition fmt_spi (spi : Z) : str := lit "0x" ++ replicate (8 - length (fmt_hex spi)) (ch "0") ++ fmt_hex spi.
Definition key_selectors : list str := [lit "auth"; lit "auth-trunc"; lit "enc"; lit "aead"].
Definition redact_step (rendered : list str) (index : nat) : list str :=
  match rendered !! index with
  | Some selector => if bool_decide (selector ∈ key_selectors) then <[index + 2 := lit "[redacted]"]> rendered else rendered
  | None => rendered
  end.
Definition redacted_xfrm_argv (argv : list str) : str :=
  join (lit " ") (foldl redact_step argv (seq 0 (length argv))).
Definition build_xfrm_state_add (sa : XfrmSa) : list str :=
  [lit "xfrm"; lit "state"; lit "add"; lit "src"; ip_str (sa_src sa); lit "dst"; ip_str (sa_dst sa);
   lit "proto"; lit "esp"; lit "spi"; fmt_spi (sa_spi sa); lit "mode"; lit "transport"; lit "sel"; lit "proto";
   xfrm_transport_as_str (sa_transport sa); lit "sport"; fmt_dec (sa_sport sa); lit "dport"; fmt_dec (sa_dport sa);
   lit "auth-trunc"; auth (sa_algs sa); hex_key (sa_auth_key sa); fmt_dec (auth_trunc_bits (sa_algs sa));
   lit "enc"; enc (sa_algs sa); if bool_decide (sa_enc_key sa = []) then [] else hex_key (sa_enc_key sa)].
Inductive PolicyDir := Out | In.
Definition policy_dir_as_str (d : PolicyDir) : str := match d with Out => lit "out" | In => lit "in" end.
Definition build_xfrm_policy_for_transport (src dst : IpAddr) (sport dport : Z) (dir : PolicyDir) (t : XfrmTransport)
    : list str :=
  [lit "xfrm"; lit "policy"; lit "add"; lit "src"; ip_str src; lit "dst"; ip_str dst; lit "proto";
   xfrm_transport_as_str t; lit "sport"; fmt_dec sport; lit "dport"; fmt_dec dport; lit "dir"; policy_dir_as_str dir;
   lit "tmpl"; lit "src"; ip_str src; lit "dst"; ip_str dst; lit "proto"; lit "esp"; lit "mode"; lit "transport"].
Definition build_xfrm_policy_add (src dst : IpAddr) (sport dport : Z) (dir : PolicyDir) : list str :=
  build_xfrm_policy_for_transport src dst sport dport dir XUdp.
Definition build_xfrm_flush : list (list str) :=
  [[lit "xfrm"; lit "policy"; lit "flush"]; [lit "xfrm"; lit "state"; lit "flush"]].
Record XfrmInstallPlan := mkPlan { plan_states : list XfrmSa; plan_policies : list (list str) }.
Definition same_family (a b : IpAddr) : bool :=
  match a, b with V4 _, V4 _ => true | V6 _, V6 _ => true | _, _ => false end.
Definition build_install_plan_for_transport (ue pcscf : IpAddr) (ue_sec pcscf_sec : SecAgree)
    (auth_key encryption_key : list Z) (algs : XfrmAlgs) (t : XfrmTransport) : cellular XfrmInstallPlan :=
  _ ← validate_binding ue_sec;
  _ ← validate_binding pcscf_sec;
  _ ← fail_if (negb (same_family ue pcscf)) PCSCF_FAMILY_MISMATCH;
  _ ← fail_if (bool_decide (auth_key = [])) IPSEC_IK_INVALID;
  _ ← fail_if (negb (str_eqb (enc algs) (lit "cipher_null")) && bool_decide (encryption_key = [])) IPSEC_IK_INVALID;
  let encryption_key := if str_eqb (enc algs) (lit "cipher_null") then [] else encryption_key in
  let state src dst spi sport dport := mkSa src dst spi auth_key encryption_key algs sport dport t in
  let policy src dst sport dport dir := build_xfrm_policy_for_transport src dst sport dport dir t in
  let states := [state ue pcscf (spi_s pcscf_sec) (port_c ue_sec) (port_s pcscf_sec);
                 state pcscf ue (spi_s ue_sec) (port_c pcscf_sec) (port_s ue_sec)] in
  let policies := [policy ue pcscf (port_c ue_sec) (port_s pcscf_sec) Out;
                   policy pcscf ue (port_c pcscf_sec) (port_s ue_sec) In] in
  Ok (if bool_decide (t = XTcp) then
    mkPlan (states ++ [state pcscf ue (spi_c ue_sec) (port_s pcscf_sec) (port_c ue_sec);
                       state ue pcscf (spi_c pcscf_sec) (port_s ue_sec) (port_c pcscf_sec)])
      (policies ++ [policy pcscf ue (port_s pcscf_sec) (port_c ue_sec) In;
                    policy ue pcscf (port_s ue_sec) (port_c pcscf_sec) Out])
  else mkPlan states policies).
Definition build_install_plan_with_algs (ue pcscf : IpAddr) (ue_sec pcscf_sec : SecAgree)
    (auth_key encryption_key : list Z) (algs : XfrmAlgs) : cellular XfrmInstallPlan :=
  build_install_plan_for_transport ue pcscf ue_sec pcscf_sec auth_key encryption_key algs XUdp.
Definition build_install_plan (ue pcscf : IpAddr) (ue_sec pcscf_sec : SecAgree) (auth_key : list Z) : cellular XfrmInstallPlan :=
  build_install_plan_with_algs ue pcscf ue_sec pcscf_sec auth_key [] XfrmAlgs_default.

(** ** The commands of a plan: what [install_plan] and [uninstall_plan] run, in order *)
Definition install_commands (plan : XfrmInstallPlan) : list (list str) :=
  (build_xfrm_state_add <$> plan_states plan) ++ plan_policies plan.
Definition delete_policy (policy : list str) : list str :=
  let delete := <[2 := lit "delete"]> policy in
  match list_find (λ part, part = lit "tmpl") delete with
  | Some (template, _) => take template delete
  | None => delete
  end.
Definition delete_state (sa : XfrmSa) : list str :=
  [lit "xfrm"; lit "state"; lit "delete"; lit "src"; ip_str (sa_src sa); lit "dst"; ip_str (sa_dst sa);
   lit "proto"; lit "esp"; lit "spi"; fmt_spi (sa_spi sa)].
Definition uninstall_commands (plan : XfrmInstallPlan) : list (list str) :=
  (delete_policy <$> reverse (plan_policies plan)) ++ (delete_state <$> reverse (plan_states plan)).

(** * Lemmas *)

(** ** The arguments of the commands *)
Lemma address_ip ip : octets_ok ip → Forall address_char (ip_str ip).
Proof. destruct ip; [apply address_v4|apply address_v6]. Qed.
Lemma address_dec n : (0 ≤ n)%Z → Forall address_char (fmt_dec n).
Proof. intros. by apply address_digits. Qed.
Lemma from_digits_zeros b k l : from_digits b (replicate k 0%Z ++ l) = from_digits b l.
Proof. induction k as [|k IH]; [done|]. exact IH. Qed.
Lemma fmt_spi_inj a b : (0 ≤ a)%Z → (0 ≤ b)%Z → fmt_spi a = fmt_spi b → a = b.
Proof.
  intros Ha Hb. unfold fmt_spi. intros Heq%(app_inv_head (lit "0x")). revert Heq.
  generalize (8 - length (fmt_hex a)) as k, (8 - length (fmt_hex b)) as k'. intros k k' Heq.
  destruct (digits_spec 16 a) as (Hva & HFa & _); [lia..|]. destruct (digits_spec 16 b) as (Hvb & HFb & _); [lia..|].
  rewrite <-Hva, <-Hvb, <-(from_digits_zeros 16 k (digits 16 a)), <-(from_digits_zeros 16 k' (digits 16 b)).
  f_equal. unfold fmt_hex in Heq. change (ch "0") with (digit_char 0) in Heq. rewrite <-!fmap_replicate, <-!fmap_app in Heq.
  revert Heq. apply map_digit_char_inj; apply Forall_app; (split; [apply Forall_replicate; lia|done]).
Qed.
Lemma find_after (x : str) l r : Forall (λ y, y ≠ x) l → list_find (λ y, y = x) (l ++ x :: r) = Some (length l, x).
Proof.
  induction 1 as [|y l Hy _ IH]; simpl; [by rewrite decide_True|]. rewrite decide_False by done. by rewrite IH.
Qed.
Lemma address_not_tmpl s : Forall address_char s → s ≠ lit "tmpl".
Proof. intros H ->. apply Forall_cons in H as [H _]. by vm_compute in H. Qed.
Lemma delete_policy_built src dst sport dport dir t :
  octets_ok src → octets_ok dst → (0 ≤ sport)%Z → (0 ≤ dport)%Z →
  delete_policy (build_xfrm_policy_for_transport src dst sport dport dir t) =
  [lit "xfrm"; lit "policy"; lit "delete"; lit "src"; ip_str src; lit "dst"; ip_str dst; lit "proto";
   xfrm_transport_as_str t; lit "sport"; fmt_dec sport; lit "dport"; fmt_dec dport; lit "dir"; policy_dir_as_str dir].
Proof.
  intros Hs Hd Hsp Hdp. unfold delete_policy, build_xfrm_policy_for_transport. cbn [insert list_insert].
  pose proof (find_after (lit "tmpl") [lit "xfrm"; lit "policy"; lit "delete"; lit "src"; ip_str src; lit "dst"; ip_str dst; lit "proto";
   xfrm_transport_as_str t; lit "sport"; fmt_dec sport; lit "dport"; fmt_dec dport; lit "dir"; policy_dir_as_str dir]
   [lit "src"; ip_str src; lit "dst"; ip_str dst; lit "proto"; lit "esp"; lit "mode"; lit "transport"]) as H.
  cbn [app] in H. rewrite H; [done|]. clear H.
  repeat (apply Forall_cons; split); try (by apply address_not_tmpl, address_ip); try (by apply address_not_tmpl, address_dec);
    try done; [by destruct t|by destruct dir].
Qed.

(** ** What is logged *)
Definition without_keys (sa : XfrmSa) : XfrmSa :=
  mkSa (sa_src sa) (sa_dst sa) (sa_spi sa) [] [] (sa_algs sa) (sa_sport sa) (sa_dport sa) (sa_transport sa).
(** Two argument vectors that differ at the positions [ps] only. *)
Definition agree (ps : list nat) (l l' : list str) : Prop :=
  length l = length l' ∧ ∀ i, i ∉ ps → l !! i = l' !! i.
Lemma length_redact_step l i : length (redact_step l i) = length l.
Proof. unfold redact_step. destruct (l !! i); [|done]. case_bool_decide; [apply length_insert|done]. Qed.
Lemma agree_insert ps l l' k x : agree ps l l' → agree ps (<[k:=x]> l) (<[k:=x]> l').
Proof.
  intros [Hlen H]. split; [by rewrite !length_insert|]. intros i Hi.
  destruct (decide (i = k)) as [->|Hne]; [|by rewrite !list_lookup_insert_ne; [apply H|done..]].
  destruct (decide (k < length l)); [rewrite !list_lookup_insert_eq; [done|lia|lia]|].
  rewrite !lookup_ge_None_2; [done|rewrite length_insert; lia..].
Qed.
Lemma agree_step ps l l' i : agree ps l l' → i ∉ ps → agree ps (redact_step l i) (redact_step l' i).
Proof.
  intros H Hi. unfold redact_step. rewrite <-(proj2 H i) by done. destruct (l !! i); [|done].
  case_bool_decide; [by apply agree_insert|done].
Qed.
Lemma agree_steps ps l l' is_ : agree ps l l' → Forall (λ i, i ∉ ps) is_ →
  agree ps (foldl redact_step l is_) (foldl redact_step l' is_).
Proof. intros H Hi. revert l l' H. induction Hi as [|i is_ Hi _ IH]; intros l l' H; [done|]. by apply IH, agree_step. Qed.
(** A selector makes the position of its key agree. *)
Lemma agree_redacted ps l l' i x : agree ((i + 2) :: ps) l l' → l !! i = Some x → l' !! i = Some x → x ∈ key_selectors →
  agree ps (redact_step l i) (redact_step l' i).
Proof.
  intros [Hlen H] Hx Hx' Hs. unfold redact_step. rewrite Hx, Hx', !bool_decide_eq_true_2 by done.
  split; [by rewrite !length_insert|]. intros j Hj.
  destruct (decide (j = i + 2)) as [->|Hne].
  - destruct (decide (i + 2 < length l)); [rewrite !list_lookup_insert_eq; [done|lia|lia]|].
    rewrite !lookup_ge_None_2; [done|rewrite length_insert; lia..].
  - rewrite !list_lookup_insert_ne by done. apply H. by intros [?|?]%elem_of_cons.
Qed.
(** What follows two places after a text that is no selector stays. *)
Lemma redact_keeps is_ l p x : (∃ s, l !! p = Some s ∧ s ∉ key_selectors) → l !! (p + 2) = Some x →
  foldl redact_step l is_ !! (p + 2) = Some x.
Proof.
  revert l. induction is_ as [|i is_ IH]; intros l (s & Hs & Hsel) Hx; [done|]. cbn [foldl].
  unfold redact_step. destruct (l !! i) as [t|] eqn:Ht; [|apply IH; [by exists s|done]].
  case_bool_decide as Hti; [|apply IH; [by exists s|done]].
  assert (i ≠ p) by (intros ->; congruence). apply IH; [|by rewrite list_lookup_insert_ne by lia].
  destruct (decide (p = i + 2)) as [->|Hne].
  - exists (lit "[redacted]"). split; [apply list_lookup_insert_eq; by apply lookup_lt_Some in Hs|].
    apply (bool_decide_unpack _). vm_compute. exact I.
  - exists s. split; [by rewrite list_lookup_insert_ne|done].
Qed.
Lemma agree_nil l l' : agree [] l l' → l = l'.
Proof. intros [_ H]. apply list_eq. intros i. apply H. by apply not_elem_of_nil. Qed.
Lemma hex_key_no_selector key : hex_key key ∉ key_selectors.
Proof. unfold key_selectors, hex_key. rewrite !elem_of_cons, elem_of_nil. by intros [|[|[|[|[]]]]]. Qed.
Lemma foldl_cons {A B} (f : A → B → A) a b l : foldl f a (b :: l) = foldl f (f a b) l.
Proof. done. Qed.
Lemma foldl_24 {A} (f : A → nat → A) a : foldl f (f (foldl f a (seq 0 20)) 20) (seq 21 3) = foldl f a (seq 0 24).
Proof. reflexivity. Qed.
(** An argument vector of a state: where its two keys are. *)
Record keyed (l : list str) : Prop := {
  ky_port : ∃ s, l !! 18 = Some s ∧ s ∉ key_selectors;
  ky_auth : l !! 20 = Some (lit "auth-trunc");
  ky_key : ∃ s, l !! 22 = Some s ∧ s ∉ key_selectors;
  ky_enc : l !! 24 = Some (lit "enc");
}.
Lemma redaction_agree l l' : keyed l → keyed l' → agree [22; 26] l l' →
  foldl redact_step l (seq 0 27) = foldl redact_step l' (seq 0 27).
Proof.
  intros [Hp Ha Hk He] [Hp' Ha' Hk' He'] H.
  assert (seq 0 27 = seq 0 20 ++ 20 :: (seq 21 3 ++ 24 :: seq 25 2)) as -> by reflexivity.
  rewrite !foldl_app, !foldl_cons, !foldl_app, !foldl_cons.
  apply (agree_steps _ _ _ (seq 0 20)) in H; [|by apply (bool_decide_unpack _)].
  apply (agree_redacted [26] _ _ 20 (lit "auth-trunc")) in H;
    [|by apply (redact_keeps _ _ 18)|by apply (redact_keeps _ _ 18)|by apply (bool_decide_unpack _)].
  apply (agree_steps _ _ _ (seq 21 3)) in H; [|by apply (bool_decide_unpack _)].
  apply (agree_redacted [] _ _ 24 (lit "enc")) in H; [by apply agree_nil in H as ->| | |by apply (bool_decide_unpack _)];
    rewrite foldl_24; by apply (redact_keeps _ _ 22).
Qed.
Lemma keyed_state sa : keyed (build_xfrm_state_add sa).
Proof.
  constructor; [|done| |done]; eexists; (split; [done|]); [by apply (bool_decide_unpack _)|apply hex_key_no_selector].
Qed.
(** The keys do not reach the log. *)
Lemma redaction_hides_keys sa :
  redacted_xfrm_argv (build_xfrm_state_add sa) = redacted_xfrm_argv (build_xfrm_state_add (without_keys sa)).
Proof.
  unfold redacted_xfrm_argv. f_equal. apply redaction_agree; [apply keyed_state..|].
  split; [done|]. intros i Hi. do 22 (destruct i as [|i]; [done|]). destruct i as [|i]; [set_solver|].
  do 3 (destruct i as [|i]; [done|]). destruct i as [|i]; [set_solver|done].
Qed.

(** ** A plan that replaces another *)
Definition binding_ok (b : SecAgree) : Prop := (0 ≤ spi_c b ∧ 0 ≤ spi_s b ∧ 0 ≤ port_c b ∧ 0 ≤ port_s b)%Z.
Record rolled (a b : SecAgree) : Prop := {
  ro_port_s : port_s b = port_s a;
  ro_port_c : port_c b ≠ port_c a;
  ro_spi_c : spi_c b ≠ spi_c a ∧ spi_c b ≠ spi_s a;
  ro_spi_s : spi_s b ≠ spi_c a ∧ spi_s b ≠ spi_s a;
}.
Lemma rollover_rolled a b : validate_server_rollover a b = Ok tt → rolled a b.
Proof.
  unfold validate_server_rollover. intros H. rust_inv. bool_prop. by constructor.
Qed.
(** The tuples of a plan: the association with its destination and index, the policy
    with its addresses, ports and direction. *)
Definition plan_flows (ue pcscf : IpAddr) (u p : SecAgree) (t : XfrmTransport)
    : list (IpAddr * IpAddr * Z * Z * Z * PolicyDir) :=
  [(ue, pcscf, spi_s p, port_c u, port_s p, Out); (pcscf, ue, spi_s u, port_c p, port_s u, In)]
  ++ (if bool_decide (t = XTcp)
      then [(pcscf, ue, spi_c u, port_s p, port_c u, In); (ue, pcscf, spi_c p, port_s u, port_c p, Out)] else []).
Lemma plan_of_flows ue pcscf u p ak ek algs t plan :
  build_install_plan_for_transport ue pcscf u p ak ek algs t = Ok plan →
  (∀ sa, sa ∈ plan_states plan → ∃ f, f ∈ plan_flows ue pcscf u p t ∧
     delete_state sa = delete_state (mkSa f.1.1.1.1.1 f.1.1.1.1.2 f.1.1.1.2 [] [] algs 0 0 t)) ∧
  (∀ policy, policy ∈ plan_policies plan → ∃ f, f ∈ plan_flows ue pcscf u p t ∧
     policy = build_xfrm_policy_for_transport f.1.1.1.1.1 f.1.1.1.1.2 f.1.1.2 f.1.2 f.2 t).
Proof.
  unfold build_install_plan_for_transport. intros H. rust_inv. subst. unfold plan_flows.
  destruct t; [rewrite !(bool_decide_eq_false_2 (XUdp = XTcp)) by done|rewrite !(bool_decide_eq_true_2 (XTcp = XTcp)) by done];
    cbn [plan_states plan_policies app]; split; intros e; rewrite !elem_of_cons, elem_of_nil; intros He;
    destruct_or? He; subst;
    first [by eexists; split; [left|] | by eexists; split; [right; left|] | by eexists; split; [right; right; left|]
      | by eexists; split; [right; right; right; left|] | done].
Qed.
(** The flows of two plans differ when the bindings of both sides have been rolled. *)
Lemma rolled_flows ue pcscf u u' p p' t f f' :
  rolled u u' → rolled p p' → port_c u ≠ port_s u → port_c u' ≠ port_s u' → ip_str ue ≠ ip_str pcscf →
  f ∈ plan_flows ue pcscf u p t → f' ∈ plan_flows ue pcscf u' p' t →
  (ip_str f.1.1.1.1.2, f.1.1.1.2) ≠ (ip_str f'.1.1.1.1.2, f'.1.1.1.2) ∧
  (ip_str f.1.1.1.1.1, f.1.1.2, f.1.2) ≠ (ip_str f'.1.1.1.1.1, f'.1.1.2, f'.1.2).
Proof.
  intros [] [] Hu Hu' Hip. unfold plan_flows.
  destruct t; [rewrite !(bool_decide_eq_false_2 (XUdp = XTcp)) by done|rewrite !(bool_decide_eq_true_2 (XTcp = XTcp)) by done];
    cbn [app]; rewrite !elem_of_cons, !elem_of_nil; intros Hf Hf'; destruct_or? Hf; destruct_or? Hf'; subst; try done;
    cbn [fst snd]; (split; intros [=]); destruct_and?; try congruence.
Qed.
Lemma flow_bounds ue pcscf u p t f : octets_ok ue → octets_ok pcscf → binding_ok u → binding_ok p →
  f ∈ plan_flows ue pcscf u p t →
  octets_ok f.1.1.1.1.1 ∧ octets_ok f.1.1.1.1.2 ∧ (0 ≤ f.1.1.1.2)%Z ∧ (0 ≤ f.1.1.2)%Z ∧ (0 ≤ f.1.2)%Z.
Proof.
  intros Hue Hpc (?&?&?&?) (?&?&?&?). unfold plan_flows.
  destruct t; [rewrite !(bool_decide_eq_false_2 (XUdp = XTcp)) by done|rewrite !(bool_decide_eq_true_2 (XTcp = XTcp)) by done];
    cbn [app]; rewrite !elem_of_cons, elem_of_nil; intros Hf; destruct_or? Hf; subst; [..|done]; cbn; split_and!; assumption.
Qed.

(** * Property *)

(** C26: a refresh never disturbs the association it replaces.  When the bindings of the
    device and of the P-CSCF have been rolled as the checks demand, the plans of the old
    and of the new bindings share nothing the kernel identifies an entry by: removing
    the new plan, as a failed refresh does, runs no command that removes an association
    or a policy of the old one, and removing the old plan none that removes one of the
    new; a plan is removed with one command for each entry it installs; and what is
    logged of an installation does not depend on its keys. *)
Theorem rollover_keeps_active ue pcscf u u' p p' ak ak' ek ek' algs algs' t plan plan' :
  octets_ok ue → octets_ok pcscf → ip_str ue ≠ ip_str pcscf → port_c u ≠ port_s u → port_c u' ≠ port_s u' →
  binding_ok u → binding_ok u' → binding_ok p → binding_ok p' →
  validate_server_rollover u u' = Ok tt → validate_server_rollover p p' = Ok tt →
  build_install_plan_for_transport ue pcscf u p ak ek algs t = Ok plan →
  build_install_plan_for_transport ue pcscf u' p' ak' ek' algs' t = Ok plan' →
  (∀ sa sa', sa ∈ plan_states plan → sa' ∈ plan_states plan' → delete_state sa ≠ delete_state sa') ∧
  (∀ x x', x ∈ plan_policies plan → x' ∈ plan_policies plan' → delete_policy x ≠ delete_policy x') ∧
  (∀ x, x ∈ uninstall_commands plan → x ∉ uninstall_commands plan') ∧
  length (uninstall_commands plan') = length (install_commands plan') ∧
  ∀ sa, sa ∈ plan_states plan' →
    redacted_xfrm_argv (build_xfrm_state_add sa) = redacted_xfrm_argv (build_xfrm_state_add (without_keys sa)).
Proof.
  intros Hue Hpc Hip Hu Hu' Bu Bu' Bp Bp' Ru%rollover_rolled Rp%rollover_rolled
    [Hs Hx]%plan_of_flows [Hs' Hx']%plan_of_flows.
  assert (∀ sa sa', sa ∈ plan_states plan → sa' ∈ plan_states plan' → delete_state sa ≠ delete_state sa') as Hst.
  { intros sa sa' (f & Hf & ->)%Hs (f' & Hf' & ->)%Hs'.
    destruct (rolled_flows _ _ _ _ _ _ _ _ _ Ru Rp Hu Hu' Hip Hf Hf') as [Hne _].
    intros Heq. assert (ip_str f.1.1.1.1.2 = ip_str f'.1.1.1.1.2 ∧ fmt_spi f.1.1.1.2 = fmt_spi f'.1.1.1.2) as [Hd Hspi].
    { by split; [apply (f_equal (λ l : list str, nth 6 l [])) in Heq|apply (f_equal (λ l : list str, nth 10 l [])) in Heq]. }
    apply Hne. rewrite Hd. f_equal.
    apply fmt_spi_inj; [by apply (flow_bounds ue pcscf u p t)|by apply (flow_bounds ue pcscf u' p' t)|done]. }
  assert (∀ x x', x ∈ plan_policies plan → x' ∈ plan_policies plan' → delete_policy x ≠ delete_policy x') as Hpo.
  { intros x x' (f & Hf & ->)%Hx (f' & Hf' & ->)%Hx'.
    destruct (rolled_flows _ _ _ _ _ _ _ _ _ Ru Rp Hu Hu' Hip Hf Hf') as [_ Hne].
    destruct (flow_bounds ue pcscf u p t f Hue Hpc Bu Bp Hf) as (? & ? & ? & ? & ?).
    destruct (flow_bounds ue pcscf u' p' t f' Hue Hpc Bu' Bp' Hf') as (? & ? & ? & ? & ?).
    rewrite !delete_policy_built by done. intros Heq.
    assert (ip_str f.1.1.1.1.1 = ip_str f'.1.1.1.1.1 ∧ fmt_dec f.1.1.2 = fmt_dec f'.1.1.2 ∧ fmt_dec f.1.2 = fmt_dec f'.1.2)
      as (Hsrc & Hsp%fmt_dec_inj & Hdp%fmt_dec_inj); [|congruence|done..].
    split; [|split]; [apply (f_equal (λ l : list str, nth 4 l [])) in Heq|apply (f_equal (λ l : list str, nth 10 l [])) in Heq
      |apply (f_equal (λ l : list str, nth 12 l [])) in Heq]; exact Heq. }
  split; [done|]. split; [done|]. split; [|split; [|intros; apply redaction_hides_keys]].
  - unfold uninstall_commands. intros x Hin Hin'.
    assert (∀ q, x ∈ (delete_policy <$> reverse (plan_policies q)) ++ (delete_state <$> reverse (plan_states q)) →
      (∃ y, y ∈ plan_policies q ∧ x = delete_policy y) ∨ ∃ sa, sa ∈ plan_states q ∧ x = delete_state sa) as Hcases.
    { intros q. rewrite elem_of_app, !list_elem_of_fmap. intros [(y & -> & Hy)|(y & -> & Hy)]; rewrite elem_of_reverse in Hy;
        [left|right]; exists y; (split; [exact Hy|reflexivity]). }
    destruct (Hcases _ Hin) as [(y & Hy & ->)|(y & Hy & ->)], (Hcases _ Hin') as [(z & Hz & Heq)|(z & Hz & Heq)].
    + by apply (Hpo y z).
    + destruct (Hx y Hy) as (f & Hf & ->). destruct (flow_bounds ue pcscf u p t f Hue Hpc Bu Bp Hf) as (?&?&?&?&?).
      by rewrite delete_policy_built in Heq.
    + destruct (Hx' z Hz) as (f & Hf & ->). destruct (flow_bounds ue pcscf u' p' t f Hue Hpc Bu' Bp' Hf) as (?&?&?&?&?).
      by rewrite delete_policy_built in Heq.
    + by apply (Hst y z).
  - unfold uninstall_commands, install_commands. rewrite !length_app, !length_fmap, !length_reverse. lia.
Qed.

Lemma rollover_keeps_active_witness :
  let ue := V4 [10; 0; 0; 2]%Z in let pcscf := V4 [10; 0; 0; 1]%Z in
  let u := mkSecAgree 100 101 5064 5062 in let u' := mkSecAgree 300 301 5066 5062 in
  let p := mkSecAgree 200 201 5064 5062 in let p' := mkSecAgree 400 401 5066 5062 in
  ∃ plan plan', build_install_plan_for_transport ue pcscf u p [1]%Z [] XfrmAlgs_default XTcp = Ok plan ∧
  build_install_plan_for_transport ue pcscf u' p' [2]%Z [] XfrmAlgs_default XTcp = Ok plan' ∧
  length (uninstall_commands plan) = 8 ∧ ∀ x, x ∈ uninstall_commands plan → x ∉ uninstall_commands plan'.
Proof.
  intros ue pcscf u u' p p'. eexists _, _. split; [reflexivity|]. split; [reflexivity|]. split; [reflexivity|].
  apply (rollover_keeps_active ue pcscf u u' p p' [1]%Z [2]%Z [] [] XfrmAlgs_default XfrmAlgs_default XTcp _ _);
    try done; by repeat constructor.
Defined.
