(* ===== verification/SecAgree.v ===== *)
(** * The security agreement with the P-CSCF

    [connectivity/modems/ims/cellular_ims/security_agreement.rs]: the list of
    mechanisms the device offers (RFC 3329) and the choice among the offers of
    the server.  A [HashMap] of parameters is a [gmap], the sets are lists.  The
    theorems: a choice never leaves what the policy allows and is the first of
    the most preferred usable offers; and a list the device writes is read back
    as its first mechanism with the tuple it was written for. *)
From Stdlib Require Import Ascii String ZArith Lia.
From stdpp Require Import prelude gmap.
From S2P Require Import Prelude Text SipFrame RetryAfter Stun OutboundOffer Ipsec.

Definition MAX_HEADER_BYTES : Z := 16 * 1024.
Definition MAX_OFFERS : nat := 16.
Definition MAX_PARAMETERS : nat := 32.
Abbreviation Parameters := (gmap str str).
Record Agreement := mkAgreement {
  binding : SecAgree;
  algorithms : XfrmAlgs;
  matched_mechanism : option nat;
  verify : str;
}.

(** ** Syntax *)
Fixpoint split_quoted_from (delimiter : Z) (limit : nat) (quoted escaped : bool) (current : str)
    (result : list str) (value : str) : cellular (list str) :=
  match value with
  | [] =>
    let part := trim current in
    if quoted || escaped || bool_decide (part = []) || (limit <=? length result) then Err SECURITY_SERVER_INVALID
    else Ok (result ++ [part])
  | c :: value =>
    if escaped then split_quoted_from delimiter limit quoted false (current ++ [c]) result value
    else if quoted && (c =? backslash)%Z then split_quoted_from delimiter limit quoted true (current ++ [c]) result value
    else if (c =? quote)%Z then split_quoted_from delimiter limit (negb quoted) false (current ++ [c]) result value
    else if negb quoted && (c =? delimiter)%Z then
      let part := trim current in
      if bool_decide (part = []) || (limit <=? length result + 1) then Err SECURITY_SERVER_INVALID
      else split_quoted_from delimiter limit quoted false [] (result ++ [part]) value
    else split_quoted_from delimiter limit quoted false (current ++ [c]) result value
  end.
Definition split_quoted (value : str) (delimiter : Z) (limit : nat) : cellular (list str) :=
  split_quoted_from delimiter limit false false [] [] value.
Definition token_char (c : Z) : bool := is_ascii_alphanumeric c || existsb (Z.eqb c) (lit "-_.!%*+`'~").
Definition is_token (value : str) : bool := negb (bool_decide (value = [])) && forallb token_char value.
(** [strip_suffix] of one character *)
Definition strip_last (c : Z) (s : str) : option str :=
  match reverse s with d :: r => if (d =? c)%Z then Some (reverse r) else None | [] => None end.
Definition unquote (value : str) : str :=
  default value (v ← strip_prefix [quote] value; strip_last quote v).
Fixpoint quoted_text (escaped : bool) (inner : str) : bool :=
  match inner with
  | [] => negb escaped
  | c :: inner =>
    if escaped then quoted_text false inner
    else if (c =? backslash)%Z then quoted_text true inner
    else if (c =? quote)%Z then false
    else quoted_text false inner
  end.
Definition valid_parameter_value (value : str) : bool :=
  if is_token value
     || match (s ← strip_prefix (lit "[") value; strip_last (ch "]") s) with Some host => is_ipv6_addr (utf8_encode host) | None => false end
  then true
  else match (s ← strip_prefix [quote] value; strip_last quote s) with
       | Some inner => quoted_text false inner
       | None => false
       end.
Definition quality (value : str) : option Z :=
  let '(whole, fraction) := default (value, []) (split_once (ch ".") value) in
  if (3 <? length (utf8_encode fraction)) || negb (forallb is_ascii_digit fraction) then None
  else if str_eqb whole (lit "1") && forallb (Z.eqb (ch "0")) fraction then Some 1000%Z
  else if str_eqb whole (lit "0") then
    Some (foldl (λ v digit, (v * 10 + (digit - ch "0"))%Z) 0%Z fraction * 10 ^ (3 - Z.of_nat (length fraction)))%Z
  else None.

(** ** The offer of the device *)
Definition offer_separator (spaced : bool) : str := if spaced then lit "; " else lit ";".
Definition offer_fields (b : SecAgree) (compact : bool) (alg ealg prot mode : str) : list str :=
  [lit "ipsec-3gpp"; lit "alg=" ++ alg; lit "ealg=" ++ ealg]
  ++ (if compact then [] else [lit "prot=" ++ prot; lit "mod=" ++ mode])
  ++ [lit "spi-c=" ++ fmt_dec (spi_c b); lit "spi-s=" ++ fmt_dec (spi_s b);
      lit "port-c=" ++ fmt_dec (port_c b); lit "port-s=" ++ fmt_dec (port_s b)].
Definition algorithm_value (alg ealg : str) : str := lit "ipsec-3gpp;alg=" ++ alg ++ lit ";ealg=" ++ ealg.
(** One mechanism: the parts it is written with. *)
Definition mechanism_parts (mechanism : str) : cellular (str * str * str * str) :=
  match split (ch "/") mechanism with
  | [alg; ealg; prot; mode] =>
    _ ← fail_if (negb (forallb is_token [alg; ealg; prot; mode]) || negb (eq_ignore_ascii_case prot (lit "esp"))
                 || negb (eq_ignore_ascii_case mode (lit "trans"))) SECURITY_CLIENT_INVALID;
    _ ← map_err (λ _, SECURITY_CLIENT_INVALID) (xfrm_algs_from_security_server (algorithm_value alg ealg));
    Ok (alg, ealg, prot, mode)
  | _ => Err SECURITY_CLIENT_INVALID
  end.
Fixpoint client_offers (b : SecAgree) (compact spaced : bool) (seen offers : list str) (allowed : list str)
    : cellular (list str) :=
  match allowed with
  | [] => Ok offers
  | mechanism :: allowed =>
    '(alg, ealg, prot, mode) ← mechanism_parts mechanism;
    let name := to_ascii_lowercase <$> mechanism in
    if bool_decide (name ∈ seen) then client_offers b compact spaced seen offers allowed
    else client_offers b compact spaced (name :: seen)
           (offers ++ [join (offer_separator spaced) (offer_fields b compact alg ealg prot mode)]) allowed
  end.
Definition client_offer (b : SecAgree) (allowed : list str) (compact spaced : bool) : cellular str :=
  if MAX_OFFERS <? length allowed then Err SECURITY_CLIENT_INVALID
  else if bool_decide (allowed = []) then Ok []
  else if (spi_c b =? 0)%Z || (spi_s b =? 0)%Z || (port_c b =? 0)%Z || (port_s b =? 0)%Z then Err SECURITY_CLIENT_INVALID
  else
    offers ← client_offers b compact spaced [] [] allowed;
    let header := join (lit ", ") offers in
    if (MAX_HEADER_BYTES <? byte_len header)%Z then Err SECURITY_CLIENT_INVALID else Ok header.

(** ** The choice *)
Definition sha1_name (value : str) : bool :=
  eq_ignore_ascii_case value (lit "hmac-sha-1-96") || eq_ignore_ascii_case value (lit "hmac-sha1-96").
Definition same_integrity_algorithm (actual expected : str) : bool :=
  eq_ignore_ascii_case actual expected || (sha1_name actual && sha1_name expected).
Definition matches_mechanism (alg ealg prot mode mechanism : str) : bool :=
  match split (ch "/") mechanism with
  | [e0; e1; e2; e3] =>
    same_integrity_algorithm alg e0 && eq_ignore_ascii_case ealg e1 && eq_ignore_ascii_case prot e2
    && eq_ignore_ascii_case mode e3
  | _ => false
  end.
Fixpoint collect_offers (values offers : list str) : cellular (list str) :=
  match values with
  | [] => Ok offers
  | value :: values =>
    parts ← split_quoted value (ch ",") MAX_OFFERS;
    let offers := offers ++ parts in
    if MAX_OFFERS <? length offers then Err SECURITY_SERVER_INVALID else collect_offers values offers
  end.
Definition parameter (part : str) : cellular (str * str) :=
  '(name, value) ← match split_once (ch "=") part with
    | Some (name, value) => if valid_parameter_value (trim value) then Ok (name, value) else Err SECURITY_SERVER_INVALID
    | None => Ok (part, [])
    end;
  let name := to_ascii_lowercase <$> trim name in
  if is_token name then Ok (name, trim value) else Err SECURITY_SERVER_INVALID.
Fixpoint parameters_of (parts : list str) (parameters : Parameters) : cellular Parameters :=
  match parts with
  | [] => Ok parameters
  | part :: parts =>
    '(name, value) ← parameter part;
    match parameters !! name with
    | Some _ => Err SECURITY_SERVER_INVALID
    | None => parameters_of parts (<[name := value]> parameters)
    end
  end.
(** [get(name)] *)
Definition get (parameters : Parameters) (name : str) : option str := unquote <$> parameters !! name.
(** The algorithms of an offer, [None] where the loop goes on with the next offer. *)
Definition offered_algorithms (allowed : list str) (strict : bool) (mechanism : str) (parameters : Parameters)
    : cellular (option XfrmAlgs) :=
  if negb (eq_ignore_ascii_case mechanism (lit "ipsec-3gpp")) then Ok None else
  match get parameters (lit "alg"), get parameters (lit "ealg") with
  | Some alg, Some ealg =>
    let prot := default (lit "esp") (get parameters (lit "prot")) in
    let mode := default (lit "trans") (get parameters (lit "mod")) in
    if negb (is_token alg) || negb (is_token ealg) || negb (is_token prot) || negb (is_token mode)
    then Err SECURITY_SERVER_INVALID
    else if negb (eq_ignore_ascii_case prot (lit "esp")) || negb (eq_ignore_ascii_case mode (lit "trans")) then Ok None
    else if strict && negb (existsb (matches_mechanism alg ealg prot mode) allowed) then Ok None
    else match xfrm_algs_from_security_server (algorithm_value alg ealg) with
         | Ok algs => Ok (Some algs)
         | Err _ => Ok None
         | Panic => Panic
         end
  | _, _ => Err SECURITY_SERVER_INVALID
  end.
Definition Selected : Type := Z * Parameters * XfrmAlgs.
Definition preference_of (explicit_quality : list Z) (parameters : Parameters) : cellular (Z * list Z) :=
  match parameters !! lit "q" with
  | Some value =>
    q ← ok_or SECURITY_SERVER_INVALID (quality value);
    if bool_decide (q ∈ explicit_quality) then Err SECURITY_SERVER_INVALID else Ok (q, q :: explicit_quality)
  | None => Ok (1000%Z, explicit_quality)
  end.
Definition select_step (allowed : list str) (strict : bool) (st : list Z * option Selected) (offer : str)
    : cellular (list Z * option Selected) :=
  let '(explicit_quality, selected) := st in
  parts ← split_quoted offer (ch ";") (MAX_PARAMETERS + 1);
  mechanism ← idx parts 0;
  if negb (is_token mechanism) then Err SECURITY_SERVER_INVALID else
  parameters ← parameters_of (drop 1 parts) ∅;
  '(preference, explicit_quality) ← preference_of explicit_quality parameters;
  algorithms ← offered_algorithms allowed strict mechanism parameters;
  Ok (explicit_quality,
    match algorithms with
    | None => selected
    | Some algs =>
      if match selected with None => true | Some (best, _, _) => (best <? preference)%Z end
      then Some (preference, parameters, algs) else selected
    end).
Definition binding_char (c : Z) : bool := bool_decide (is_Some (hex_value c)) || (c =? ch "x")%Z || (c =? ch "X")%Z.
Definition binding_names : list str := [lit "spi-c"; lit "spi-s"; lit "port-c"; lit "port-s"].
Definition binding_value (parameters : Parameters) : cellular str :=
  foldM (λ text name,
    value ← ok_or SECURITY_SERVER_INVALID (parameters !! name);
    let value := unquote value in
    _ ← fail_if (negb (forallb binding_char value)) SECURITY_SERVER_INVALID;
    Ok (text ++ lit ";" ++ name ++ lit "=" ++ value)) (lit "ipsec-3gpp") binding_names.
Definition matched (parameters : Parameters) (allowed : list str) : option nat :=
  fst <$> list_find (λ mechanism, matches_mechanism (default [] (get parameters (lit "alg")))
    (default [] (get parameters (lit "ealg"))) (default (lit "esp") (get parameters (lit "prot")))
    (default (lit "trans") (get parameters (lit "mod"))) mechanism = true) allowed.
Definition headers_refused (values : list str) : bool :=
  (MAX_OFFERS <? length values)
  || (MAX_HEADER_BYTES <? foldl (λ sum value, (sum + byte_len value)%Z) 0%Z values)%Z
  || existsb (existsb (λ c, is_control c && negb (c =? 9)%Z)) values.
Definition select (values : list str) (allowed : list str) (strict : bool) : cellular (option Agreement) :=
  if bool_decide (values = []) then Ok None
  else if headers_refused values then Err SECURITY_SERVER_INVALID
  else
    offers ← collect_offers values [];
    '(_, selected) ← foldM (select_step allowed strict) ([], None) offers;
    '(_, parameters, algorithms) ← ok_or SECURITY_SERVER_INVALID selected;
    text ← binding_value parameters;
    b ← map_err (λ _, SECURITY_SERVER_INVALID) (parse_security_server text);
    Ok (Some (mkAgreement b algorithms (matched parameters allowed) (join (lit ", ") values))).

Example select_sample :
  select [lit "ipsec-3gpp;alg=hmac-md5-96;ealg=null;spi-c=0x100;spi-s=257;port-c=5064;port-s=5062;q=0.1, ipsec-3gpp; alg=hmac-sha1-96; ealg=aes-cbc; spi-c=1; spi-s=2; port-c=3; port-s=4; q=0.25"]
    [lit "hmac-sha-1-96/aes-cbc/esp/trans"] true =
  Ok (Some (mkAgreement (mkSecAgree 1 2 3 4) (mkAlgs (lit "hmac(sha1)") 96 (lit "cbc(aes)")) (Some 0)
    (lit "ipsec-3gpp;alg=hmac-md5-96;ealg=null;spi-c=0x100;spi-s=257;port-c=5064;port-s=5062;q=0.1, ipsec-3gpp; alg=hmac-sha1-96; ealg=aes-cbc; spi-c=1; spi-s=2; port-c=3; port-s=4; q=0.25"))).
Proof. vm_compute. reflexivity. Qed.

(** * Lemmas *)

(** ** Characters *)
Definition field_char (c : Z) : bool := token_char c || (c =? ch "=")%Z.
Definition offer_char (c : Z) : bool := field_char c || existsb (Z.eqb c) (lit ";, ").
Definition all (p : Z → bool) (s : str) : Prop := Forall (λ c, p c = true) s.
#[export] Instance all_dec p s : Decision (all p s).
Proof. unfold all. apply _. Defined.
Ltac all_lit := apply (bool_decide_unpack _); vm_compute; exact I.
Lemma all_app p s t : all p s → all p t → all p (s ++ t).
Proof. intros. by apply Forall_app. Qed.
Lemma all_impl (p q : Z → bool) s : (∀ c, p c = true → q c = true) → all p s → all q s.
Proof. intros Hpq H. eapply Forall_impl; [exact H|exact Hpq]. Qed.
Lemma Forall_join (P : Z → Prop) sep ls : Forall P sep → Forall (Forall P) ls → Forall P (join sep ls).
Proof.
  intros Hs. induction 1 as [|l ls Hl Hls IH]; [constructor|]. destruct ls; [done|]. rewrite join_cons by done.
  by repeat (apply Forall_app; split).
Qed.
Lemma join_snoc sep l x : l ≠ [] → join sep (l ++ [x]) = join sep l ++ sep ++ x.
Proof. destruct l as [|y l]; [done|]. intros _. unfold join. cbn [app]. by rewrite foldl_app. Qed.
Lemma field_offer c : field_char c = true → offer_char c = true.
Proof. unfold offer_char. by intros ->. Qed.
Lemma token_field c : token_char c = true → field_char c = true.
Proof. unfold field_char. by intros ->. Qed.
Lemma digit_token c : is_ascii_digit c = true → token_char c = true.
Proof.
  unfold token_char, is_ascii_alphanumeric, is_ascii_digit. intros ->. by rewrite ?orb_true_r.
Qed.
Lemma offer_range c : offer_char c = true → (c = 32 ∨ 33 ≤ c ≤ 126)%Z ∧ c ≠ quote.
Proof.
  intros H. unfold quote. cbv -[Z.leb Z.eqb orb andb Z.le] in H |- *. split; [lia|]. intros ->. discriminate H.
Qed.
Lemma field_range c : field_char c = true → (33 ≤ c ≤ 126)%Z.
Proof. intros H. cbv -[Z.leb Z.eqb orb andb Z.le] in H |- *. lia. Qed.
Lemma field_not_space c : field_char c = true → is_whitespace c = false.
Proof. intros H%field_range. unfold is_whitespace, in_range. simpl. lia. Qed.
Lemma field_ne c d : field_char d = false → field_char c = true → (c =? d)%Z = false.
Proof. intros Hd Hc. apply Z.eqb_neq. congruence. Qed.
Lemma offer_not_control c : offer_char c = true → is_control c = false.
Proof. intros [H _]%offer_range. unfold is_control, in_range. lia. Qed.

(** ** Splitting outside quotes *)
Lemma no_panic_split_quoted_from d limit q e cur res value : no_panic (split_quoted_from d limit q e cur res value).
Proof.
  revert q e cur res. induction value as [|c value IH]; intros q e cur res; cbn [split_quoted_from]; [by case_match|].
  repeat case_match; done || apply IH.
Qed.
Lemma split_quoted_not_nil q e cur res value d limit parts :
  split_quoted_from d limit q e cur res value = Ok parts → parts ≠ [].
Proof.
  revert q e cur res. induction value as [|c value IH]; intros q e cur res; cbn [split_quoted_from].
  { case_match; [done|]. intros [= <-]. by destruct res. }
  repeat case_match; try done; apply IH.
Qed.
(** Text without quotes and delimiters. *)
Definition unsplit (d : Z) (s : str) : Prop := Forall (λ c, c ≠ quote ∧ (c =? d)%Z = false) s.
Lemma split_quoted_skip d limit cur res p rest : unsplit d p →
  split_quoted_from d limit false false cur res (p ++ rest) = split_quoted_from d limit false false (cur ++ p) res rest.
Proof.
  intros Hp. revert cur. induction Hp as [|c p [Hq Hd] _ IH]; intros cur; [by rewrite app_nil_r|].
  cbn [app split_quoted_from]. rewrite (proj2 (Z.eqb_neq c quote)) by done. rewrite Hd. cbn [andb negb].
  rewrite IH. by rewrite <-app_assoc.
Qed.
Lemma trim_blanks w s : all is_whitespace w → trim (w ++ s) = trim s.
Proof. induction 1 as [|c w Hc _ IH]; [done|]. cbn [app]. by rewrite trim_cons. Qed.
Lemma split_quoted_join d w limit ps cur res :
  (d =? quote)%Z = false → all is_whitespace w → all is_whitespace cur → unsplit d w → Forall (unsplit d) ps →
  Forall (λ p, trim p ≠ []) ps → ps ≠ [] → length res + length ps ≤ limit →
  split_quoted_from d limit false false cur res (join (d :: w) ps) = Ok (res ++ (trim <$> ps)).
Proof.
  intros Hdq Hw Hcur Hwu Hps. revert cur Hcur res. induction Hps as [|p ps Hp Hps IH]; intros cur Hcur res Hne Hnil Hlen; [done|].
  apply Forall_cons in Hne as [Hpn Hne]. destruct ps as [|p' ps].
  - change (join (d :: w) [p]) with p. pose proof (split_quoted_skip d limit cur res p [] Hp) as Hskip.
    rewrite app_nil_r in Hskip. rewrite Hskip. cbn [split_quoted_from].
    rewrite trim_blanks, (bool_decide_eq_false_2 _ Hpn), (proj2 (Nat.leb_gt _ _)) by (done || (simpl in Hlen; lia)). done.
  - rewrite join_cons by done. rewrite split_quoted_skip by done. cbn [app split_quoted_from].
    rewrite Hdq, Z.eqb_refl. cbn [andb negb]. rewrite trim_blanks by done.
    rewrite (bool_decide_eq_false_2 _ Hpn), (proj2 (Nat.leb_gt _ _)) by (simpl in Hlen; lia). cbn [orb].
    rewrite split_quoted_skip by done. cbn [app]. rewrite IH; [by rewrite <-app_assoc|done|done|done|].
    rewrite length_app. simpl in Hlen |- *. lia.
Qed.
Lemma trim_fields p : all field_char p → trim p = p.
Proof.
  intros Hp. assert (Forall (λ c, is_whitespace c = false) p) by (eapply Forall_impl; [exact Hp|exact field_not_space]).
  apply trim_id; [by apply head_not_Forall|by apply head_not_reverse].
Qed.

(** ** Tokens *)
Lemma is_token_spec v : is_token v = true ↔ v ≠ [] ∧ all token_char v.
Proof.
  unfold is_token. rewrite andb_true_iff, negb_true_iff, bool_decide_eq_false, forallb_forall. unfold all. by setoid_rewrite Forall_forall; setoid_rewrite list_elem_of_In.
Qed.
Lemma token_all v : is_token v = true → all field_char v.
Proof. intros [_ H]%is_token_spec. eapply all_impl; [exact token_field|exact H]. Qed.
Lemma unquoted_fields v : all field_char v → trim_matches (Z.eqb quote) (trim v) = v.
Proof.
  intros Hv. rewrite trim_fields by done. unfold trim_matches.
  assert (Forall (λ c, (quote =? c)%Z = false) v) as Hq.
  { eapply Forall_impl; [exact Hv|]. intros c Hc. apply Z.eqb_neq. intros <-. discriminate Hc. }
  rewrite trim_start_matches_id by (apply head_not_Forall; exact Hq). apply trim_end_matches_id, head_not_reverse. exact Hq.
Qed.
Lemma fields_split v : all field_char v → Forall (λ d, (d =? ch ";")%Z = false) v.
Proof. intros Hv. eapply Forall_impl; [exact Hv|]. intros c. by apply field_ne. Qed.
Lemma split_fields f fs : Forall (all field_char) (f :: fs) → split (ch ";") (join (lit ";") (f :: fs)) = f :: fs.
Proof.
  intros H. revert f H. induction fs as [|f' fs IH]; intros f [Hf Hfs]%Forall_cons; [by apply split_plain, fields_split|].
  rewrite join_cons by done. change (lit ";" ++ ?s) with (ch ";" :: s). rewrite split_sep by by apply fields_split. by rewrite IH.
Qed.
Lemma named_split name v : Forall (λ d, (ch "=" =? d)%Z = false) name →
  split_once (ch "=") (name ++ lit "=" ++ v) = Some (name, v).
Proof. intros H. change (lit "=" ++ v) with (ch "=" :: v). by apply split_once_app. Qed.
Ltac name_lit := apply (bool_decide_unpack _); vm_compute; exact I.
Lemma algs_of_tokens alg ealg : is_token alg = true → is_token ealg = true →
  xfrm_algs_from_security_server (algorithm_value alg ealg) =
  (a ← integrity_name (Some (to_ascii_lowercase <$> alg)); e ← encryption_name (Some (to_ascii_lowercase <$> ealg)); Ok (mkAlgs a 96 e)).
Proof.
  intros Ha%token_all He%token_all. unfold xfrm_algs_from_security_server.
  assert (algorithm_value alg ealg = join (lit ";") [lit "ipsec-3gpp"; lit "alg" ++ lit "=" ++ alg; lit "ealg" ++ lit "=" ++ ealg]) as ->.
  { unfold algorithm_value, join. cbn [foldl]. rewrite <-!app_assoc. reflexivity. }
  rewrite split_fields.
  2:{ constructor; [all_lit|]. constructor; [apply all_app; [all_lit|]; apply all_app; [all_lit|done]|].
      constructor; [|done]. apply all_app; [all_lit|]; apply all_app; [all_lit|done]. }
  cbn [drop foldl]. unfold algorithm_parameter. rewrite !named_split by name_lit. rewrite !unquoted_fields by done.
  reflexivity.
Qed.

(** ** Parameters *)
Lemma parameter_field name v : bool_decide (to_ascii_lowercase <$> trim name = name) && is_token name = true →
  Forall (λ d, (ch "=" =? d)%Z = false) name → is_token v = true → parameter (name ++ lit "=" ++ v) = Ok (name, v).
Proof.
  intros [Hlow%bool_decide_eq_true Hname]%andb_true_iff Heq Hv. unfold parameter. rewrite named_split by done.
  rewrite (trim_fields v) by by apply token_all. unfold valid_parameter_value. rewrite Hv. cbn [orb mbind res_bind].
  rewrite Hlow, Hname. by rewrite (trim_fields v) by by apply token_all.
Qed.
Lemma dec_token n : (0 ≤ n)%Z → is_token (fmt_dec n) = true.
Proof.
  intros Hn. apply is_token_spec. destruct (fmt_dec_digits n Hn) as [Hd Hne]. split; [done|].
  eapply all_impl; [exact digit_token|exact Hd].
Qed.
Lemma unquote_token v : is_token v = true → unquote v = v.
Proof.
  intros [Hne Hv]%is_token_spec. unfold unquote, strip_prefix, starts_with. destruct v as [|c v]; [done|].
  change (take (length [quote]) (c :: v)) with [c]. rewrite bool_decide_eq_false_2; [done|].
  intros [= ->]. apply Forall_cons in Hv as [Hv _]. discriminate Hv.
Qed.

(** ** An offer that is read back *)
Definition tuple_ok (b : SecAgree) : Prop :=
  (0 < spi_c b ≤ u32_max)%Z ∧ (0 < spi_s b ≤ u32_max)%Z ∧ (0 < port_c b ≤ u16_max)%Z ∧ (0 < port_s b ≤ u16_max)%Z.
Record mechanism_ok (alg ealg prot mode : str) (algs : XfrmAlgs) : Prop := {
  mo_alg : is_token alg = true;
  mo_ealg : is_token ealg = true;
  mo_prot : is_token prot = true;
  mo_mode : is_token mode = true;
  mo_esp : eq_ignore_ascii_case prot (lit "esp") = true;
  mo_trans : eq_ignore_ascii_case mode (lit "trans") = true;
  mo_algs : xfrm_algs_from_security_server (algorithm_value alg ealg) = Ok algs;
}.
Definition offer_text (b : SecAgree) (compact spaced : bool) (alg ealg prot mode : str) : str :=
  join (offer_separator spaced) (offer_fields b compact alg ealg prot mode).

Section built.
Context (b : SecAgree) (compact spaced : bool) (Hb : tuple_ok b).
Context (alg ealg prot mode : str) (algs : XfrmAlgs) (Hm : mechanism_ok alg ealg prot mode algs).

(** The parameters an offer is written with. *)
Definition field_of (nv : str * str) : str := nv.1 ++ lit "=" ++ nv.2.
Definition built_parameters : list (str * str) :=
  [(lit "alg", alg); (lit "ealg", ealg)] ++ (if compact then [] else [(lit "prot", prot); (lit "mod", mode)])
  ++ [(lit "spi-c", fmt_dec (spi_c b)); (lit "spi-s", fmt_dec (spi_s b));
      (lit "port-c", fmt_dec (port_c b)); (lit "port-s", fmt_dec (port_s b))].
Lemma offer_fields_built : offer_fields b compact alg ealg prot mode = lit "ipsec-3gpp" :: (field_of <$> built_parameters).
Proof. unfold offer_fields, built_parameters. by destruct compact. Qed.
Definition name_ok (name : str) : Prop :=
  bool_decide (to_ascii_lowercase <$> trim name = name) && is_token name = true ∧
  Forall (λ d, (ch "=" =? d)%Z = false) name.
#[local] Instance name_ok_dec name : Decision (name_ok name).
Proof. unfold name_ok. apply _. Defined.
Lemma built_parameters_ok : Forall (λ nv, name_ok nv.1 ∧ is_token nv.2 = true) built_parameters.
Proof.
  destruct Hm, Hb as (?&?&?&?). unfold built_parameters. rewrite !Forall_app, !Forall_cons, !Forall_nil.
  split_and!; try assumption; try (apply dec_token; lia); try match goal with |- name_ok _ => name_lit end; try exact I.
  destruct compact; [constructor|]. rewrite !Forall_cons, Forall_nil. split_and!; try assumption; try exact I; name_lit.
Qed.
Lemma name_fields name : name_ok name → all field_char name.
Proof. by intros [[_ H%token_all]%andb_true_iff _]. Qed.
Lemma field_of_all nv : name_ok nv.1 ∧ is_token nv.2 = true → all field_char (field_of nv) ∧ field_of nv ≠ [].
Proof.
  intros [Hn Hv%token_all]. split; [|unfold field_of; by destruct nv.1].
  apply all_app; [by apply name_fields|]. apply all_app; [all_lit|done].
Qed.
Lemma built_fields : Forall (λ f, all field_char f ∧ f ≠ []) (offer_fields b compact alg ealg prot mode).
Proof.
  rewrite offer_fields_built. constructor; [split; [all_lit|done]|]. apply Forall_fmap.
  eapply Forall_impl; [exact built_parameters_ok|exact field_of_all].
Qed.
Lemma separator_blank : ∃ w, offer_separator spaced = ch ";" :: w ∧ all is_whitespace w ∧ unsplit (ch ";") w ∧ unsplit (ch ",") w.
Proof. destruct spaced; [exists [ch " "]|exists []]; (split; [done|]); split_and!; by repeat constructor. Qed.
Lemma fields_unsplit d f : field_char d = false → all field_char f → unsplit d f.
Proof.
  intros Hd Hf. eapply Forall_impl; [exact Hf|]. intros c Hc. split; [intros ->; discriminate Hc|by apply field_ne].
Qed.
Lemma trim_all fs : Forall (all field_char) fs → trim <$> fs = fs.
Proof. induction 1 as [|f fs Hf _ IH]; [done|]. rewrite fmap_cons, IH. by rewrite trim_fields. Qed.
Lemma built_split : split_quoted (offer_text b compact spaced alg ealg prot mode) (ch ";") (MAX_PARAMETERS + 1) =
  Ok (offer_fields b compact alg ealg prot mode).
Proof.
  unfold split_quoted, offer_text. destruct separator_blank as (w & -> & Hw & Hwu & _). pose proof built_fields as Hf.
  rewrite split_quoted_join; try done.
  - cbn [app]. by rewrite trim_all by (eapply Forall_impl; [exact Hf|by intros ? []]).
  - constructor.
  - eapply Forall_impl; [exact Hf|]. intros f [? _]. by apply fields_unsplit.
  - eapply Forall_impl; [exact Hf|]. intros f [? ?]. by rewrite trim_fields.
  - unfold offer_fields. destruct compact; simpl; unfold MAX_PARAMETERS; lia.
Qed.
Lemma parameters_of_fields l m : Forall (λ nv, name_ok nv.1 ∧ is_token nv.2 = true) l → NoDup l.*1 →
  (∀ nv, nv ∈ l → m !! nv.1 = None) → parameters_of (field_of <$> l) m = Ok (foldl (λ m nv, <[nv.1 := nv.2]> m) m l).
Proof.
  intros Hl. revert m. induction Hl as [|[name v] l [[Hn Heq] Hv] _ IH]; intros m Hnd Hm'; [done|].
  apply NoDup_cons in Hnd as [Hnew Hnd]. cbn [fmap list_fmap parameters_of foldl fst snd] in *.
  change (field_of (name, v)) with (name ++ lit "=" ++ v). rewrite parameter_field by done. cbn [mbind res_bind].
  pose proof (Hm' (name, v) ltac:(left)) as Hfresh. cbn [fst] in Hfresh. rewrite Hfresh. apply IH; [done|]. intros nv Hnv. rewrite lookup_insert_ne.
  - apply Hm'. by right.
  - intros ->. apply Hnew. apply list_elem_of_fmap. by exists nv.
Qed.
Definition built_map : Parameters := foldl (λ m nv, <[nv.1 := nv.2]> m) ∅ built_parameters.
Lemma built_map_read : parameters_of (drop 1 (offer_fields b compact alg ealg prot mode)) ∅ = Ok built_map.
Proof.
  rewrite offer_fields_built. cbn [drop]. apply parameters_of_fields; [exact built_parameters_ok| |done].
  unfold built_parameters. destruct compact; apply (bool_decide_unpack _); vm_compute; exact I.
Qed.
Lemma built_lookups :
  built_map !! lit "q" = None ∧ built_map !! lit "alg" = Some alg ∧ built_map !! lit "ealg" = Some ealg ∧
  built_map !! lit "spi-c" = Some (fmt_dec (spi_c b)) ∧ built_map !! lit "spi-s" = Some (fmt_dec (spi_s b)) ∧
  built_map !! lit "port-c" = Some (fmt_dec (port_c b)) ∧ built_map !! lit "port-s" = Some (fmt_dec (port_s b)) ∧
  built_map !! lit "prot" = (if compact then None else Some prot) ∧
  built_map !! lit "mod" = (if compact then None else Some mode).
Proof. unfold built_map, built_parameters. destruct compact; cbn [app foldl fst snd]; split_and!; by simplify_map_eq. Qed.
Lemma built_gets : get built_map (lit "alg") = Some alg ∧ get built_map (lit "ealg") = Some ealg ∧
  get built_map (lit "prot") = (if compact then None else Some prot) ∧
  get built_map (lit "mod") = (if compact then None else Some mode).
Proof.
  destruct built_lookups as (_ & Ha & He & _ & _ & _ & _ & Hp & Hmd). unfold get. rewrite Ha, He, Hp, Hmd. destruct Hm.
  destruct compact; cbn [fmap option_fmap option_map]; by rewrite !unquote_token.
Qed.
Lemma eq_ignore_sym s t : eq_ignore_ascii_case s t = true → eq_ignore_ascii_case t s = true.
Proof. rewrite !eq_ignore_ascii_case_eq. done. Qed.
(** The mechanism the offer was written for matches it, defaults included. *)
Lemma built_matches m : split (ch "/") m = [alg; ealg; prot; mode] →
  matches_mechanism (default [] (get built_map (lit "alg"))) (default [] (get built_map (lit "ealg")))
    (default (lit "esp") (get built_map (lit "prot"))) (default (lit "trans") (get built_map (lit "mod"))) m = true.
Proof.
  intros Hs. destruct built_gets as (-> & -> & -> & ->). destruct Hm. unfold matches_mechanism. rewrite Hs.
  unfold same_integrity_algorithm. rewrite !eq_ignore_ascii_case_refl. cbn [orb andb].
  destruct compact; cbn [default]; [by rewrite !eq_ignore_sym|by rewrite !eq_ignore_ascii_case_refl].
Qed.
Lemma built_offered allowed strict m : m ∈ allowed → split (ch "/") m = [alg; ealg; prot; mode] →
  offered_algorithms allowed strict (lit "ipsec-3gpp") built_map = Ok (Some algs).
Proof.
  intros Hin Hs. pose proof (built_matches m Hs) as Hmatch. destruct built_gets as (Ha & He & Hp & Hmd).
  rewrite Ha, He, Hp, Hmd in Hmatch. unfold offered_algorithms. rewrite Ha, He, Hp, Hmd.
  assert (existsb (matches_mechanism alg ealg (default (lit "esp") (if compact then None else Some prot))
    (default (lit "trans") (if compact then None else Some mode))) allowed = true) as Hex.
  { apply existsb_exists. exists m. split; [by apply list_elem_of_In|exact Hmatch]. }
  cbv zeta. rewrite Hex. destruct Hm as [Halg Healg Hprot Hmode Hesp Htrans Halgs]. rewrite Halg, Healg, Halgs, andb_false_r.
  change (negb (eq_ignore_ascii_case (lit "ipsec-3gpp") (lit "ipsec-3gpp"))) with false.
  destruct compact; cbn [default from_option id negb orb]; [done|]. by rewrite Hprot, Hmode, Hesp, Htrans.
Qed.
Lemma built_step allowed strict m sel : m ∈ allowed → split (ch "/") m = [alg; ealg; prot; mode] →
  select_step allowed strict ([], sel) (offer_text b compact spaced alg ealg prot mode) =
  Ok ([], if match sel with None => true | Some (best, _, _) => (best <? 1000)%Z end then Some (1000%Z, built_map, algs) else sel).
Proof.
  intros Hin Hs. unfold select_step. rewrite built_split. cbn [mbind res_bind].
  assert (idx (E:=str) (offer_fields b compact alg ealg prot mode) 0 = Ok (lit "ipsec-3gpp")) as -> by (by rewrite offer_fields_built).
  cbn [mbind res_bind]. change (negb (is_token (lit "ipsec-3gpp"))) with false. cbv iota. rewrite built_map_read. cbn [mbind res_bind].
  unfold preference_of. rewrite (proj1 built_lookups). cbn [mbind res_bind]. rewrite (built_offered allowed strict m) by done. done.
Qed.
Lemma binding_char_dec n : (0 ≤ n)%Z → forallb binding_char (fmt_dec n) = true.
Proof.
  intros Hn. apply forallb_forall. intros c Hc%list_elem_of_In. destruct (fmt_dec_digits n Hn) as [Hd _].
  rewrite Forall_forall in Hd. specialize (Hd c Hc). unfold binding_char. rewrite bool_decide_eq_true_2; [done|].
  unfold hex_value. unfold is_ascii_digit in Hd. rewrite Hd. by eexists.
Qed.
Lemma parse_u32_dec n : (0 ≤ n ≤ u32_max)%Z → parse_u32 (fmt_dec n) = Some n.
Proof.
  intros Hn. unfold parse_u32. destruct (fmt_dec_digits n ltac:(lia)) as [Hd Hne].
  assert (∀ c, is_ascii_digit c = false → strip_prefix [ch "0"; c] (fmt_dec n) = None) as Hpre.
  { intros c Hc. unfold strip_prefix, starts_with. rewrite bool_decide_eq_false_2; [done|].
    destruct (fmt_dec n) as [|d [|e s]]; [done|done|]. cbn [length take]. intros [= -> ->].
    apply Forall_cons in Hd as [_ [Hd _]%Forall_cons]. congruence. }
  change (lit "0x") with [ch "0"; ch "x"]. change (lit "0X") with [ch "0"; ch "X"]. rewrite !Hpre by done.
  by apply parse_unsigned_fmt.
Qed.
Lemma server_named st name v : name_ok name → is_token v = true → server_parameter st (name ++ lit "=" ++ v) =
    (if str_eqb name (lit "spi-c") then mkServerScan (parse_u32 v) (sv_spi_s st) (sv_port_c st) (sv_port_s st)
     else if str_eqb name (lit "spi-s") then mkServerScan (sv_spi_c st) (parse_u32 v) (sv_port_c st) (sv_port_s st)
     else if str_eqb name (lit "port-c") then mkServerScan (sv_spi_c st) (sv_spi_s st) (parse_unsigned u16_max v) (sv_port_s st)
     else if str_eqb name (lit "port-s") then mkServerScan (sv_spi_c st) (sv_spi_s st) (sv_port_c st) (parse_unsigned u16_max v)
     else st).
Proof.
  intros Hn Hv. unfold server_parameter. rewrite trim_fields by by apply (field_of_all (name, v)).
  rewrite named_split by apply Hn. rewrite unquoted_fields by by apply token_all.
  destruct Hn as [[Hlow%bool_decide_eq_true _]%andb_true_iff _]. by rewrite Hlow.
Qed.
Lemma server_spi_c st v : is_token v = true →
  server_parameter st (lit "spi-c" ++ lit "=" ++ v) = mkServerScan (parse_u32 v) (sv_spi_s st) (sv_port_c st) (sv_port_s st).
Proof. intros Hv. by rewrite server_named by (done || name_lit). Qed.
Lemma server_spi_s st v : is_token v = true →
  server_parameter st (lit "spi-s" ++ lit "=" ++ v) = mkServerScan (sv_spi_c st) (parse_u32 v) (sv_port_c st) (sv_port_s st).
Proof. intros Hv. by rewrite server_named by (done || name_lit). Qed.
Lemma server_port_c st v : is_token v = true →
  server_parameter st (lit "port-c" ++ lit "=" ++ v) = mkServerScan (sv_spi_c st) (sv_spi_s st) (parse_unsigned u16_max v) (sv_port_s st).
Proof. intros Hv. by rewrite server_named by (done || name_lit). Qed.
Lemma server_port_s st v : is_token v = true →
  server_parameter st (lit "port-s" ++ lit "=" ++ v) = mkServerScan (sv_spi_c st) (sv_spi_s st) (sv_port_c st) (parse_unsigned u16_max v).
Proof. intros Hv. by rewrite server_named by (done || name_lit). Qed.
Ltac named := match goal with |- name_ok _ => name_lit | |- is_token _ = true => apply dec_token; lia end.
Lemma built_binding : (text ← binding_value built_map; map_err (λ _, SECURITY_SERVER_INVALID) (parse_security_server text)) = Ok b.
Proof.
  destruct built_lookups as (_ & _ & _ & Hc & Hs & Hpc & Hps & _ & _). destruct Hb as (?&?&?&?).
  unfold binding_value, binding_names. cbn [foldM]. rewrite Hc, Hs, Hpc, Hps. cbn [ok_or mbind res_bind].
  rewrite !(unquote_token (fmt_dec _)) by (apply dec_token; lia). rewrite !binding_char_dec by lia. cbn [negb fail_if mbind res_bind].
  assert (∀ t : str, t = join (lit ";") [lit "ipsec-3gpp"; lit "spi-c" ++ lit "=" ++ fmt_dec (spi_c b); lit "spi-s" ++ lit "=" ++ fmt_dec (spi_s b);
    lit "port-c" ++ lit "=" ++ fmt_dec (port_c b); lit "port-s" ++ lit "=" ++ fmt_dec (port_s b)] →
    map_err (λ _, SECURITY_SERVER_INVALID) (parse_security_server t) = Ok b) as Ht.
  { intros t ->. unfold parse_security_server. rewrite split_fields.
    - cbn [tail foldl]. rewrite server_spi_c, server_spi_s, server_port_c, server_port_s by named.
      change (bool_decide _) with true. cbn [negb fail_if mbind res_bind sv_spi_c sv_spi_s sv_port_c sv_port_s].
      rewrite !parse_u32_dec, !parse_unsigned_fmt by lia.
      cbn [ok_or mbind res_bind]. unfold validate_binding. cbn [spi_c spi_s port_c port_s].
      rewrite !(proj2 (Z.eqb_neq _ 0)) by lia. cbn. by destruct b.
    - rewrite !Forall_cons, Forall_nil. split; [all_lit|]. split_and!; try exact I; apply (field_of_all (_, _)); (split; named). }
  apply Ht. unfold join. cbn [foldl]. by rewrite <-!app_assoc.
Qed.
Lemma built_matched allowed m : split (ch "/") m = [alg; ealg; prot; mode] → matched built_map (m :: allowed) = Some 0.
Proof. intros Hs. unfold matched. cbn [list_find]. by rewrite decide_True by by apply built_matches. Qed.
End built.

(** ** The list of the device *)
Lemma mechanism_parts_ok m alg ealg prot mode : mechanism_parts m = Ok (alg, ealg, prot, mode) →
  split (ch "/") m = [alg; ealg; prot; mode] ∧ ∃ algs, mechanism_ok alg ealg prot mode algs.
Proof.
  unfold mechanism_parts. destruct (split (ch "/") m) as [|e0 [|e1 [|e2 [|e3 [|]]]]]; try done. intros H.
  apply bind_Ok in H as ([] & Hg%fail_if_Ok & H). apply bind_Ok in H as (algs & Ha & H). injection H as -> -> -> ->.
  split; [done|]. exists algs. apply orb_false_iff in Hg as [Hg Hm%negb_false_iff]. apply orb_false_iff in Hg as [Ht%negb_false_iff Hp%negb_false_iff].
  cbn [forallb] in Ht. bool_prop. constructor; try done. by destruct (xfrm_algs_from_security_server _); cbn in Ha; [injection Ha as ->|..].
Qed.
Definition mechanism_text (b : SecAgree) (compact spaced : bool) (allowed : list str) (text : str) : Prop :=
  ∃ m alg ealg prot mode algs, m ∈ allowed ∧ split (ch "/") m = [alg; ealg; prot; mode] ∧
    mechanism_ok alg ealg prot mode algs ∧ text = offer_text b compact spaced alg ealg prot mode.
Lemma mechanism_text_more b compact spaced m allowed text :
  mechanism_text b compact spaced allowed text → mechanism_text b compact spaced (m :: allowed) text.
Proof. intros (m' & a & e & p & mo & algs & Hin & H). exists m', a, e, p, mo, algs. by split; [right|]. Qed.
Lemma client_offers_texts b compact spaced seen offers allowed r :
  client_offers b compact spaced seen offers allowed = Ok r →
  ∃ more, r = offers ++ more ∧ Forall (mechanism_text b compact spaced allowed) more ∧ length more ≤ length allowed.
Proof.
  revert seen offers. induction allowed as [|m allowed IH]; intros seen offers H; cbn [client_offers] in H.
  { injection H as <-. exists []. by rewrite app_nil_r. }
  apply bind_Ok in H as ([[[alg ealg] prot] mode] & Hm & H). apply mechanism_parts_ok in Hm as (Hs & algs & Hok).
  case_bool_decide.
  - apply IH in H as (more & -> & Hmore & Hlen). exists more. split; [done|]. split; [|simpl; lia].
    eapply Forall_impl; [exact Hmore|]. intros t. apply mechanism_text_more.
  - apply IH in H as (more & -> & Hmore & Hlen). exists (offer_text b compact spaced alg ealg prot mode :: more).
    split; [by rewrite <-app_assoc|]. split; [|simpl; lia]. constructor.
    + exists m, alg, ealg, prot, mode, algs. split; [left|done].
    + eapply Forall_impl; [exact Hmore|]. intros t. apply mechanism_text_more.
Qed.
Lemma client_offers_first b compact spaced m allowed r : client_offers b compact spaced [] [] (m :: allowed) = Ok r →
  ∃ alg ealg prot mode algs more, mechanism_parts m = Ok (alg, ealg, prot, mode) ∧ split (ch "/") m = [alg; ealg; prot; mode] ∧
    mechanism_ok alg ealg prot mode algs ∧ r = offer_text b compact spaced alg ealg prot mode :: more ∧
    Forall (mechanism_text b compact spaced (m :: allowed)) r ∧ length r ≤ length (m :: allowed).
Proof.
  intros H. pose proof (client_offers_texts _ _ _ _ _ _ _ H) as (all' & Hr & Htexts & Hlen). cbn [app] in Hr. subst all'.
  cbn [client_offers] in H. apply bind_Ok in H as ([[[alg ealg] prot] mode] & Hm & H).
  pose proof (mechanism_parts_ok _ _ _ _ _ Hm) as (Hs & algs & Hok).
  rewrite bool_decide_eq_false_2 in H by apply not_elem_of_nil.
  apply client_offers_texts in H as (more & Hr & _). exists alg, ealg, prot, mode, algs, more. done.
Qed.
(** Each text: its characters, and that it is read whole. *)
Lemma mechanism_text_chars b compact spaced allowed text : tuple_ok b → mechanism_text b compact spaced allowed text →
  all offer_char text ∧ unsplit (ch ",") text ∧ trim text = text ∧ text ≠ [].
Proof.
  intros Hb (m & alg & ealg & prot & mode & algs & _ & _ & Hok & ->).
  pose proof (built_fields b compact Hb alg ealg prot mode algs Hok) as Hf.
  assert (Forall (all field_char) (offer_fields b compact alg ealg prot mode)) as Hfields by (eapply Forall_impl; [exact Hf|by intros ? []]).
  destruct (separator_blank spaced) as (w & Hsep & Hw & _ & Hwu).
  assert (offer_fields b compact alg ealg prot mode =
    (lit "ipsec-3gpp" :: (field_of <$> take (length (built_parameters b compact alg ealg prot mode) - 1) (built_parameters b compact alg ealg prot mode)))
    ++ [field_of (lit "port-s", fmt_dec (port_s b))]) as Hlast by by destruct compact.
  split_and!.
  - apply Forall_join; [by destruct spaced; all_lit|]. eapply Forall_impl; [exact Hfields|]. intros f. apply all_impl, field_offer.
  - apply Forall_join; [rewrite Hsep; by constructor|]. eapply Forall_impl; [exact Hfields|]. intros f. by apply fields_unsplit.
  - apply trim_id.
    + unfold offer_text, offer_fields. cbn [app]. by rewrite join_cons.
    + unfold offer_text. rewrite Hlast, join_snoc by done. rewrite app_assoc. apply head_not_reverse_app; [done|].
      apply head_not_reverse. rewrite Hlast in Hfields. apply Forall_app in Hfields as [_ [Hx _]%Forall_cons].
      eapply Forall_impl; [exact Hx|exact field_not_space].
  - unfold offer_text, offer_fields. cbn [app]. by rewrite join_cons.
Qed.
Lemma fold_select b compact spaced allowed strict texts ps algs : tuple_ok b →
  Forall (mechanism_text b compact spaced allowed) texts →
  foldM (select_step allowed strict) ([], Some (1000%Z, ps, algs)) texts = Ok ([], Some (1000%Z, ps, algs)).
Proof.
  intros Hb. induction 1 as [|t texts Ht _ IH]; [done|]. cbn [foldM].
  destruct Ht as (m & alg & ealg & prot & mode & algs' & Hin & Hs & Hok & ->).
  rewrite (built_step b compact spaced Hb alg ealg prot mode algs' Hok allowed strict m) by done. exact IH.
Qed.
Lemma refused_text b compact spaced allowed texts : tuple_ok b → Forall (mechanism_text b compact spaced allowed) texts →
  (byte_len (join (lit ", ") texts) ≤ MAX_HEADER_BYTES)%Z → headers_refused [join (lit ", ") texts] = false.
Proof.
  intros Hb Ht Hlen. unfold headers_refused. cbn [length foldl existsb]. change (MAX_OFFERS <? 1) with false.
  rewrite (proj2 (Z.ltb_ge _ _)) by lia. cbn [orb]. rewrite orb_false_r. apply not_true_iff_false. intros (c & Hin & Hc)%existsb_exists.
  assert (all offer_char (join (lit ", ") texts)) as Hall.
  { apply Forall_join; [all_lit|]. eapply Forall_impl; [exact Ht|]. intros t H. by apply (mechanism_text_chars _ _ _ _ _ Hb H). }
  unfold all in Hall. rewrite Forall_forall in Hall. apply list_elem_of_In, Hall, offer_not_control in Hin. by rewrite Hin in Hc.
Qed.
Lemma split_texts b compact spaced allowed texts : tuple_ok b → Forall (mechanism_text b compact spaced allowed) texts →
  texts ≠ [] → length texts ≤ MAX_OFFERS → collect_offers [join (lit ", ") texts] [] = Ok texts.
Proof.
  intros Hb Ht Hne Hlen. cbn [collect_offers]. unfold split_quoted. change (lit ", ") with (ch "," :: [ch " "]).
  rewrite split_quoted_join; try done.
  - cbn [app mbind res_bind]. assert (trim <$> texts = texts) as ->.
    { clear Hne Hlen. induction Ht as [|t texts Ht _ IH]; [done|]. rewrite fmap_cons, IH.
      by destruct (mechanism_text_chars _ _ _ _ _ Hb Ht) as (_ & _ & -> & _). }
    by rewrite (proj2 (Nat.ltb_ge _ _)).
  - by repeat constructor.
  - constructor.
  - by repeat constructor.
  - eapply Forall_impl; [exact Ht|]. intros t H. by apply (mechanism_text_chars _ _ _ _ _ Hb H).
  - eapply Forall_impl; [exact Ht|]. intros t H. by destruct (mechanism_text_chars _ _ _ _ _ Hb H) as (_ & _ & -> & ?).
Qed.

(** ** The choice *)
Lemma no_panic_parameters_of parts ps : no_panic (parameters_of parts ps).
Proof.
  revert ps. induction parts as [|part parts IH]; intros ps; [done|]. cbn [parameters_of].
  apply no_panic_bind; [|intros [name v] _; case_match; [done|apply IH]].
  unfold parameter. apply no_panic_bind; [repeat case_match; done|]. intros [name v] _. by case_match.
Qed.
Lemma no_panic_xfrm value : no_panic (xfrm_algs_from_security_server value).
Proof.
  unfold xfrm_algs_from_security_server. destruct (foldl _ _ _) as [i e].
  apply no_panic_bind; [unfold integrity_name; repeat case_match; done|]. intros a _.
  apply no_panic_bind; [unfold encryption_name; repeat case_match; done|]. done.
Qed.
Lemma no_panic_parse_security_server value : no_panic (parse_security_server value).
Proof. unfold parse_security_server, validate_binding. np. Qed.
Lemma no_panic_offered allowed strict mechanism ps : no_panic (offered_algorithms allowed strict mechanism ps).
Proof.
  unfold offered_algorithms. pose proof (no_panic_xfrm (algorithm_value (default [] (get ps (lit "alg"))) (default [] (get ps (lit "ealg"))))) as Hx.
  case_match; [done|]. destruct (get ps (lit "alg")); [|done]. destruct (get ps (lit "ealg")); [|done]. cbn [default from_option id] in Hx.
  repeat case_match; done.
Qed.
Lemma no_panic_select_step allowed strict st offer : no_panic (select_step allowed strict st offer).
Proof.
  destruct st as [eq sel]. unfold select_step.
  apply no_panic_bind; [apply no_panic_split_quoted_from|]. intros parts Hparts%split_quoted_not_nil.
  apply no_panic_bind; [apply no_panic_idx; destruct parts; [done|simpl; lia]|]. intros mechanism _. case_match; [done|].
  apply no_panic_bind; [apply no_panic_parameters_of|]. intros ps _.
  apply no_panic_bind; [unfold preference_of; np; by case_match|]. intros [q eq'] _.
  by apply no_panic_bind; [apply no_panic_offered|].
Qed.
Lemma no_panic_collect values offers : no_panic (collect_offers values offers).
Proof.
  revert offers. induction values as [|v values IH]; intros offers; [done|]. cbn [collect_offers].
  apply no_panic_bind; [apply no_panic_split_quoted_from|]. intros parts _. case_match; [done|apply IH].
Qed.
Lemma no_panic_foldM {E A B} (f : A → B → res E A) a l : (∀ a b, no_panic (f a b)) → no_panic (foldM f a l).
Proof.
  intros Hf. revert a. induction l as [|b l IH]; intros a; [done|]. cbn [foldM]. apply no_panic_bind; [apply Hf|]. intros; apply IH.
Qed.

(** What an offer is worth by itself: its preference, its parameters, its algorithms. *)
Definition usable_offer (allowed : list str) (strict : bool) (offer : str) : option Selected :=
  parts ← res_ok (split_quoted offer (ch ";") (MAX_PARAMETERS + 1));
  mechanism ← head parts;
  ps ← res_ok (parameters_of (drop 1 parts) ∅);
  q ← match ps !! lit "q" with Some value => quality value | None => Some 1000%Z end;
  algs ← res_ok (offered_algorithms allowed strict mechanism ps) ≫= id;
  Some (q, ps, algs).
Definition better (selected : option Selected) (candidate : Selected) : option Selected :=
  if match selected with None => true | Some (best, _, _) => (best <? candidate.1.1)%Z end then Some candidate else selected.
Lemma step_usable allowed strict st offer st' : select_step allowed strict st offer = Ok st' →
  st'.2 = match usable_offer allowed strict offer with Some u => better st.2 u | None => st.2 end.
Proof.
  destruct st as [eq sel]. unfold select_step, usable_offer. intros H.
  apply bind_Ok in H as (parts & -> & H). apply bind_Ok in H as (mechanism & Hmech%idx_Ok & H).
  destruct (negb (is_token mechanism)); [done|]. apply bind_Ok in H as (ps & Hps & H).
  apply bind_Ok in H as ([q eq'] & Hq & H). apply bind_Ok in H as (algs & Halgs & H). injection H as <-.
  cbn [res_ok mbind option_bind]. destruct parts as [|part parts]; [done|]. injection Hmech as ->. cbn [head mbind option_bind].
  rewrite Hps. cbn [res_ok mbind option_bind].
  assert (match ps !! lit "q" with Some value => quality value | None => Some 1000%Z end = Some q) as ->.
  { unfold preference_of in Hq. destruct (ps !! lit "q") as [v|]; [|by injection Hq as <- _].
    apply bind_Ok in Hq as (q' & Hv%ok_or_Ok & Hq). case_bool_decide; [done|]. by injection Hq as <- _. }
  cbn [mbind option_bind]. rewrite Halgs. cbn [res_ok mbind option_bind]. by destruct algs.
Qed.
Lemma fold_usable allowed strict st offers st' : foldM (select_step allowed strict) st offers = Ok st' →
  st'.2 = foldl better st.2 (omap (usable_offer allowed strict) offers).
Proof.
  revert st. induction offers as [|offer offers IH]; intros st H; [by injection H as <-|]. cbn [foldM] in H.
  apply bind_Ok in H as (st1 & Hstep & H). apply step_usable in Hstep. apply IH in H as ->. rewrite Hstep. cbn [omap list_omap].
  by destruct (usable_offer allowed strict offer).
Qed.
Lemma first_best us best : foldl better None us = Some best →
  ∃ before after, us = before ++ best :: after ∧ Forall (λ u, u.1.1 < best.1.1)%Z before ∧ Forall (λ u, u.1.1 ≤ best.1.1)%Z after.
Proof.
  revert best. induction us as [|u us IH] using rev_ind; intros best H; [done|]. rewrite foldl_app in H. cbn [foldl] in H.
  destruct (foldl better None us) as [[[p ps] al]|] eqn:Hsel.
  - destruct (IH _ eq_refl) as (before & after & -> & Hb & Ha). unfold better in H. destruct (Z.ltb_spec p u.1.1) as [Hlt|Hge].
    + injection H as <-. eexists _, []. split; [done|]. split; [|done]. apply Forall_app. split; [|constructor; [exact Hlt|]].
      * eapply Forall_impl; [exact Hb|]. cbn. intros; lia.
      * eapply Forall_impl; [exact Ha|]. cbn. intros; lia.
    + injection H as <-. exists before, (after ++ [u]). split; [by rewrite <-app_assoc|]. split; [done|].
      apply Forall_app. by split; [|constructor].
  - injection H as <-. destruct us as [|u' us]; [by exists [], []|]. exfalso. revert Hsel. clear.
    cbn [foldl better]. generalize u'. induction us as [|v us IH]; intros w; [done|]. cbn [foldl]. unfold better at 2.
    destruct w as [[q ?] ?]. destruct (q <? v.1.1)%Z; apply IH.
Qed.

(** What a mechanism of the policy allows. *)
Definition allows (m : str) (algs : XfrmAlgs) : Prop :=
  ∃ e0 e1 e2 e3, split (ch "/") m = [e0; e1; e2; e3] ∧
    eq_ignore_ascii_case e2 (lit "esp") = true ∧ eq_ignore_ascii_case e3 (lit "trans") = true ∧
    integrity_name (Some (to_ascii_lowercase <$> e0)) = Ok (auth algs) ∧
    encryption_name (Some (to_ascii_lowercase <$> e1)) = Ok (enc algs) ∧ auth_trunc_bits algs = 96%Z.
Lemma integrity_same alg e : same_integrity_algorithm alg e = true →
  integrity_name (Some (to_ascii_lowercase <$> alg)) = integrity_name (Some (to_ascii_lowercase <$> e)).
Proof.
  unfold same_integrity_algorithm. intros [->%eq_ignore_ascii_case_eq|[Ha He]%andb_true_iff]%orb_true_iff; [done|].
  assert (∀ v, sha1_name v = true → integrity_name (Some (to_ascii_lowercase <$> v)) = Ok (lit "hmac(sha1)")) as Hsha.
  { intros v [->%eq_ignore_ascii_case_eq| ->%eq_ignore_ascii_case_eq]%orb_true_iff; done. }
  by rewrite !Hsha.
Qed.
Lemma matches_allows alg ealg prot mode m algs :
  is_token alg = true → is_token ealg = true → eq_ignore_ascii_case prot (lit "esp") = true →
  eq_ignore_ascii_case mode (lit "trans") = true → xfrm_algs_from_security_server (algorithm_value alg ealg) = Ok algs →
  matches_mechanism alg ealg prot mode m = true → allows m algs.
Proof.
  intros Ha He Hp Hmd Hx. rewrite algs_of_tokens in Hx by done. apply bind_Ok in Hx as (a & Hia & Hx).
  apply bind_Ok in Hx as (e & Hie & Hx). injection Hx as <-.
  unfold matches_mechanism. destruct (split (ch "/") m) as [|e0 [|e1 [|e2 [|e3 [|]]]]] eqn:Hs; try done.
  intros [[[H0 H1]%andb_true_iff H2]%andb_true_iff H3]%andb_true_iff. exists e0, e1, e2, e3.
  apply integrity_same in H0. rewrite Hia in H0. apply eq_ignore_ascii_case_eq in H1, H2, H3, Hp, Hmd. rewrite H1 in Hie.
  split; [done|]. rewrite !eq_ignore_ascii_case_eq. by rewrite <-H2, <-H3.
Qed.
Lemma usable_strict allowed offer q ps algs : usable_offer allowed true offer = Some (q, ps, algs) →
  ∃ i m, matched ps allowed = Some i ∧ allowed !! i = Some m ∧ allows m algs.
Proof.
  unfold usable_offer. intros H. destruct (res_ok (split_quoted _ _ _)) as [parts|]; [|done]. cbn [mbind option_bind] in H.
  destruct (head parts) as [mechanism|]; [|done]. cbn [mbind option_bind] in H.
  destruct (res_ok (parameters_of _ _)) as [ps'|]; [|done]. cbn [mbind option_bind] in H.
  destruct (match ps' !! lit "q" with Some value => quality value | None => Some 1000%Z end) as [q'|]; [|done]. cbn [mbind option_bind] in H.
  destruct (offered_algorithms allowed true mechanism ps') as [[algs'|]| |] eqn:Hoff; try done.
  cbn [res_ok mbind option_bind id] in H. injection H as -> -> ->. unfold offered_algorithms in Hoff. destruct (negb (eq_ignore_ascii_case mechanism _)); [done|].
  unfold matched. destruct (get ps (lit "alg")) as [alg|]; [|done]. destruct (get ps (lit "ealg")) as [ealg|]; [|done].
  destruct (_ || negb (is_token (default (lit "trans") _))) eqn:Htok; [done|]. bool_prop.
  destruct (_ || negb (eq_ignore_ascii_case (default (lit "trans") _) _)) eqn:Hpm; [done|]. bool_prop.
  cbn [andb] in Hoff. destruct (negb (existsb _ allowed)) eqn:Hex; [done|]. apply negb_false_iff, existsb_exists in Hex as (m0 & Hin%list_elem_of_In & Hm0).
  destruct (xfrm_algs_from_security_server _) as [algs''| |] eqn:Hx; try done. injection Hoff as ->.
  destruct (list_find_elem_of (λ mechanism0, matches_mechanism (default [] (Some alg)) (default [] (Some ealg)) (default (lit "esp") (get ps (lit "prot")))
    (default (lit "trans") (get ps (lit "mod"))) mechanism0 = true) allowed m0 Hin Hm0) as [[i m] Hfind].
  rewrite Hfind. apply list_find_Some in Hfind as (Hi & Hm & _). exists i, m. split; [done|]. split; [done|].
  revert Hm. by apply matches_allows.
Qed.
Lemma parse_validated text b : parse_security_server text = Ok b → validate_binding b = Ok tt.
Proof.
  unfold parse_security_server. intros H. apply bind_Ok in H as (_ & _ & H). do 4 (apply bind_Ok in H as (? & _ & H)).
  apply bind_Ok in H as ([] & Hv & H). by injection H as <-.
Qed.

(** * Properties *)

(** C25: a list the device writes says what it means: echoed by a server, it is chosen
    as its first mechanism with exactly the tuple it was written for, strictly or not and in
    every spelling (compact, spaced), and the same list is what will be verified. *)
Theorem client_offer_read_back b allowed compact spaced strict text :
  tuple_ok b → allowed ≠ [] → client_offer b allowed compact spaced = Ok text →
  ∃ m rest alg ealg prot mode algs, allowed = m :: rest ∧ mechanism_parts m = Ok (alg, ealg, prot, mode) ∧
    xfrm_algs_from_security_server (algorithm_value alg ealg) = Ok algs ∧
    select [text] allowed strict = Ok (Some (mkAgreement b algs (Some 0) text)).
Proof.
  intros Hb Hne. unfold client_offer. destruct (MAX_OFFERS <? length allowed) eqn:Hcount; [done|]. apply Nat.ltb_ge in Hcount.
  rewrite bool_decide_eq_false_2 by done. destruct (_ || _); [done|]. intros H.
  apply bind_Ok in H as (texts & Htexts & H). destruct (_ <? _)%Z eqn:Hbytes; [done|]. injection H as <-.
  apply Z.ltb_ge in Hbytes. destruct allowed as [|m rest]; [done|].
  apply client_offers_first in Htexts as (alg & ealg & prot & mode & algs & more & Hm & Hs & Hok & Hr & Ht & Hlen).
  exists m, rest, alg, ealg, prot, mode, algs. split; [done|]. split; [done|]. split; [apply Hok|].
  unfold select. change (bool_decide ([join _ texts] = [])) with false. cbv iota.
  rewrite (refused_text b compact spaced (m :: rest)) by done.
  rewrite (split_texts b compact spaced (m :: rest)) by (done || (by rewrite Hr) || lia).
  cbn [mbind res_bind]. rewrite Hr at 1. cbn [foldM].
  rewrite (built_step b compact spaced Hb alg ealg prot mode algs Hok (m :: rest) strict m) by (done || left).
  cbn [mbind res_bind]. rewrite Hr in Ht. apply Forall_cons in Ht as [_ Ht].
  rewrite (fold_select b compact spaced) by done. cbn [mbind res_bind ok_or].
  pose proof (built_binding b compact Hb alg ealg prot mode) as Hbind. apply bind_Ok in Hbind as (t & -> & Hp).
  cbn [mbind res_bind]. rewrite Hp. cbn [mbind res_bind]. by rewrite (built_matched b compact alg ealg prot mode algs Hok).
Qed.

(** C8: the choice is safe and total.  No list of headers makes it panic, and it means
    no agreement only when there is no header.  Otherwise it is refused, or it is the
    first of the most preferred usable offers, in the order of the lists; its tuple has no
    zero index or port; what will be verified is the complete list as it was received; and
    under a strict policy the algorithms that are installed are the ones an allowed
    mechanism names, the one whose position is reported: a server cannot bring the device to
    weaker algorithms than those it allows. *)
Theorem agreement_choice_safe values allowed strict :
  no_panic (select values allowed strict) ∧
  (select values allowed strict = Ok None ↔ values = []) ∧
  ∀ a, select values allowed strict = Ok (Some a) →
    verify a = join (lit ", ") values ∧ validate_binding (binding a) = Ok tt ∧
    (∃ offers before best after, collect_offers values [] = Ok offers ∧
       omap (usable_offer allowed strict) offers = before ++ best :: after ∧
       Forall (λ u, u.1.1 < best.1.1)%Z before ∧ Forall (λ u, u.1.1 ≤ best.1.1)%Z after ∧
       algorithms a = best.2 ∧
       map_err (λ _, SECURITY_SERVER_INVALID) (text ← binding_value best.1.2; parse_security_server text) = Ok (binding a)) ∧
    (strict = true → ∃ i m, matched_mechanism a = Some i ∧ allowed !! i = Some m ∧ allows m (algorithms a)).
Proof.
  split; [|split].
  - unfold select. case_bool_decide; [done|]. case_match; [done|].
    apply no_panic_bind; [apply no_panic_collect|]. intros offers _.
    apply no_panic_bind; [apply no_panic_foldM, no_panic_select_step|]. intros [? sel] _.
    apply no_panic_bind; [by destruct sel|]. intros [[p ps] algs] _.
    apply no_panic_bind; [unfold binding_value; apply no_panic_foldM|].
    { intros t name. np. }
    intros text _.
    apply no_panic_bind; [apply no_panic_map_err, no_panic_parse_security_server|]. done.
  - split; [|by intros ->]. unfold select. case_bool_decide; [done|]. case_match; [done|]. intros Hsome.
    apply bind_Ok in Hsome as (offers & _ & Hsome). apply bind_Ok in Hsome as ([? sel] & _ & Hsome). apply bind_Ok in Hsome as ([[p ps] algs] & _ & Hsome).
    apply bind_Ok in Hsome as (text & _ & Hsome). by apply bind_Ok in Hsome as (b & _ & Hsome).
  - intros a. unfold select. case_bool_decide; [done|]. case_match; [done|]. intros Hsome.
    apply bind_Ok in Hsome as (offers & Hoffers & Hsome). apply bind_Ok in Hsome as ([eq sel] & Hfold & Hsome).
    apply bind_Ok in Hsome as ([[p ps] algs] & Hsel%ok_or_Ok & Hsome). apply bind_Ok in Hsome as (text & Htext & Hsome).
    apply bind_Ok in Hsome as (b & Hb & Hsome). injection Hsome as <-. cbn [verify binding algorithms matched_mechanism].
    apply fold_usable in Hfold. cbn [snd] in Hfold. rewrite Hsel in Hfold. symmetry in Hfold.
    pose proof (first_best _ _ Hfold) as (before & after & Hus & Hbefore & Hafter).
    split; [done|]. split; [|split].
    + destruct (parse_security_server text) as [b'| |] eqn:Hp; [|done|done]. injection Hb as ->. by apply parse_validated in Hp.
    + exists offers, before, (p, ps, algs), after. split_and!; try done. cbn [fst snd]. rewrite Htext. exact Hb.
    + intros ->. assert ((p, ps, algs) ∈ omap (usable_offer allowed true) offers) as Hin.
      { rewrite Hus. apply elem_of_app. right. left. }
      apply list_elem_of_omap in Hin as (offer & _ & Hoff). by apply usable_strict in Hoff.
Qed.

Definition sample_tuple : SecAgree := mkSecAgree 100 101 5064 5062.
Definition sample_allowed : list str := [lit "hmac-sha-1-96/aes-cbc/esp/trans"; lit "hmac-sha-1-96/null/esp/trans"].
Lemma client_offer_read_back_witness :
  tuple_ok sample_tuple ∧
  ∃ text, client_offer sample_tuple sample_allowed false true = Ok text ∧
    select [text] sample_allowed true = Ok (Some (mkAgreement sample_tuple (mkAlgs (lit "hmac(sha1)") 96 (lit "cbc(aes)")) (Some 0) text)).
Proof.
  assert (tuple_ok sample_tuple) as Hb by (unfold tuple_ok, sample_tuple, u32_max, u16_max; cbn; lia). split; [exact Hb|].
  destruct (client_offer sample_tuple sample_allowed false true) as [text| |] eqn:Ht; [|vm_compute in Ht; discriminate Ht..].
  exists text. split; [done|].
  destruct (client_offer_read_back sample_tuple sample_allowed false true true text Hb ltac:(done) Ht)
    as (m & rest & alg & ealg & prot & mode & algs & Hm & Hparts & Hx & Hsel).
  injection Hm as <- <-. vm_compute in Hparts. injection Hparts as <- <- <- <-. vm_compute in Hx. injection Hx as <-. exact Hsel.
Defined.
Lemma agreement_choice_safe_witness :
  ∃ a, select [lit "ipsec-3gpp;alg=hmac-md5-96;ealg=null;spi-c=5;spi-s=6;port-c=7;port-s=8;q=0.9, ipsec-3gpp;alg=hmac-sha1-96;ealg=aes-cbc;spi-c=1;spi-s=2;port-c=3;port-s=4;q=0.1"]
    sample_allowed true = Ok (Some a) ∧ ∃ i m, matched_mechanism a = Some i ∧ sample_allowed !! i = Some m ∧ allows m (algorithms a).
Proof.
  eexists. split; [vm_compute; reflexivity|].
  refine (proj2 (proj2 (proj2 (proj2 (proj2 (agreement_choice_safe [lit "ipsec-3gpp;alg=hmac-md5-96;ealg=null;spi-c=5;spi-s=6;port-c=7;port-s=8;q=0.9, ipsec-3gpp;alg=hmac-sha1-96;ealg=aes-cbc;spi-c=1;spi-s=2;port-c=3;port-s=4;q=0.1"] sample_allowed true)) _ _))) eq_refl).
  vm_compute. reflexivity.
Defined.
